(* ===== verification/_CoqProject ===== *)
-Q . S2P
Prelude.v
Errors.v
Shamir.v
ShamirCorrect.v
RustStr.v
Utils.v
Lease.v
Storage.v
BarrierCorrect.v
FileBackend.v
FileCorrect.v
FileProps.v
Mysql.v
MysqlCorrect.v
BarrierView.v
Logical.v
LogicalBackend.v
Router.v
Policy.v
AclModel.v
AclCorrect.v
Mount.v
MountCorrect.v
AuthMount.v
AuthMountCorrect.v
VaultCore.v
VaultCorrect.v
Lifecycle.v
World.v
WorldLaws.v
TokenStore.v
WorldDemo.v
TokenCorrect.v
TokenProps.v
TokenSpec.v
Expiration.v
PolicyStore.v
PolicyCorrect.v
AuthFlow.v
AuthCorrect.v
System.v
SystemCorrect.v
Cidr.v
Kv.v
StoredJson.v
TokenUtil.v
UserPass.v
UserPassCorrect.v
Salt.v
Wiring.v
WiringCorrect.v
AppRole.v
AppRoleCorrect.v
Keys.v
Certs.v
Pki.v
PkiCorrect.v
CertAuth.v
CertCorrect.v
ServerConfig.v
ConfigCorrect.v
Http.v
Metrics.v
Routes.v
HttpCorrect.v
HttpProps.v
HttpCert.v
SharedState.v
Crypto.v
CryptoCorrect.v
Client.v
Cli.v
ClientCorrect.v
ClientProps.v
