(* ===== verification/Prelude.v ===== *)
(** * RustyVault: a verification development

    RustyVault is a secret-management server.  Its data lies encrypted in a
    physical backend behind a _security barrier_; the barrier's master key is
    split into Shamir shares, and the vault serves requests only after enough
    shares were entered (_unseal_).  Requests arrive over HTTP with a token; the
    policies of the token are compiled to an access control list; an allowed
    request is _routed_ by its path to a mounted backend, which sees only a
    prefix of the barrier (a _view_) and dispatches to the handler of a path
    pattern.  Credential backends (user names, application roles, certificates)
    check who logs in and have the token store mint a token.

    ** Files and what they model (sources under src/src)

    Foundations.
    - Prelude: outcomes of Rust code, the state monad, byte and list lemmas,
      the hint database and tactics of the development.
    - Errors: errors.rs.  RustStr, Utils: [str] methods; utils/string.rs,
      utils/policy.rs, the path helpers of utils/mod.rs, JSON values.
    - Lease: logical/lease.rs.  Cidr: utils/cidr.rs and the socket addresses.

    Keys and storage.
    - Shamir, ShamirCorrect: shamir.rs.
    - Storage, BarrierCorrect: storage/mod.rs (the traits [Backend] and
      [Storage] as classes with the contracts [BackendSpec] and [StorageSpec]),
      physical/mock.rs, barrier_aes_gcm.rs ([Module AESGCMBarrier]).
    - FileBackend, FileCorrect, FileProps: physical/file.rs over a tree of
      files.  Mysql, MysqlCorrect: storage/mysql/ over a table of rows.
    - BarrierView: storage/barrier_view.rs, proved against [StorageSpec].
    - Crypto, CryptoCorrect: modules/crypto/, the AES and SM4 ciphers.

    The core.
    - Logical, LogicalBackend: logical/*.rs.  Requests, responses, fields, and
      the framework that dispatches a request to a path's handler.
    - Router: router.rs.
    - Mount, MountCorrect: mount.rs and the state [Core] of core.rs.
    - VaultCore, VaultCorrect: core.rs, module_manager.rs, the trait of
      handler.rs.  Life cycle ([CoreOps]) and request phases ([Phases]).
    - Lifecycle: the reachable states of a vault ([Module Life]): any sequence
      of initialisations, shares, seals and requests from a start.
    - Wiring, WiringCorrect: [Core::default] and [Core::config] and the hooks
      [setup], [init] and [cleanup] of the default modules, over the state of
      the whole vault.
    - SharedState: context.rs, utils/locks.rs and the hash of utils/crypto.rs.

    Policies and tokens.
    - Policy, AclModel, AclCorrect: modules/policy/policy.rs and acl.rs.
    - World, WorldLaws, WorldDemo: what the handlers of the modules can reach
      (barrier, clock, random source, lease queue, caches), how views of it
      behave, and a concrete instance of every parameter.
    - TokenStore, TokenCorrect, TokenProps: modules/auth/token_store.rs and
      expiration.rs.  TokenSpec: the token store as a forest of tokens, and
      its refinement.  Expiration: a tick of the thread that revokes expired
      leases.  PolicyStore, PolicyCorrect: modules/policy/policy_store.rs and
      mod.rs.
    - AuthFlow, AuthCorrect: the phases before and after routing, composed of
      the token store and the policy store.
    - AuthMount, AuthMountCorrect: modules/auth/mod.rs.
    - System, SystemCorrect: modules/system/mod.rs.

    Mounted backends.
    - Kv: modules/kv/.  StoredJson, TokenUtil, Salt: entries kept as JSON,
      utils/token_util.rs, utils/salt.rs.
    - UserPass, UserPassCorrect; AppRole, AppRoleCorrect; CertAuth, CertCorrect:
      modules/credential/.
    - Keys, Certs, Pki, PkiCorrect: utils/key.rs, utils/cert.rs, modules/pki/.

    The server and its client.
    - ServerConfig, ConfigCorrect: cli/config.rs and what cli/command/server.rs
      derives from the configuration.
    - Http, HttpCorrect, HttpProps, HttpCert: http/mod.rs, logical.rs, sys.rs,
      over the interface [CoreApi] of the core.
    - Metrics: metrics/ and the HTTP middleware and page that serve it.
    - Routes: the services that http/mod.rs, sys.rs, logical.rs and metrics.rs
      register, and the rules by which actix dispatches a call to one of them.
    - Client: api/ and utils/kv_builder.rs.  Cli: cli/command/ and the login
      helpers of the credentials.  ClientCorrect, ClientProps: the client
      against the routes of the server, and the commands.

    ** How code becomes definitions

    A function that may fail or panic returns an [outcome]: [Ok], [Err] with an
    [RvError], or [Panic] (index out of range, [unwrap] on [None], checked
    arithmetic).  Where the behaviour of arithmetic depends on the build
    profile, it is a parameter [Profile] ([overflow_checks]), and theorems hold
    for both profiles unless they say otherwise.  A method that changes its
    receiver is a function in the state monad [st]: the state after an error is
    part of the model, because Rust keeps the effects made before an early
    return.  Each operation runs alone, so locks hold no state, except where a
    panic can poison one (the lock of the file backend, of the connection pool
    and of the core in the HTTP server), and where the holder of a lock asks for
    it again (the lock of the lease queue, field [w_deadlock]).  The mount entries that the mount tables
    and the router share through [Arc<RwLock<_>>] are references into a heap.

    Machine integers are kept at their width: bytes are [Byte.byte], lengths
    that overflow are checked, durations and times are [Z] with the ranges of
    [std::time].  A [HashMap] is a [gmap]; iteration over it is iteration over
    [map_to_list], an order the theorems do not depend on.

    Code of other crates is a parameter, a class with the operations the
    program calls and, apart, a class of the documented laws a theorem needs:
    random bytes, AES-GCM and the other primitives of OpenSSL, SHA-1, SHA-256
    and HMAC, bcrypt, JSON encoding and decoding, hexadecimal, UUIDs, the radix
    trie, regular expressions, the HCL reader, humantime, the LRU cache, X.509,
    diesel, actix.  Witnesses instantiate them with concrete functions.  Mounted
    backends, modules and request handlers are values (the program's trait
    objects) over an abstract world [W] they act on.

    ** What the theorems show

    - Shamir: [split] then [combine] of any threshold of the shares gives the
      secret back; one share fewer is consistent with every secret; the exact
      errors of both; table arithmetic is GF(2^8).
    - Barrier: encryption round trip with the path bound as associated data;
      the life cycle init, unseal, seal; nothing is readable or writable when
      sealed; an unsealed barrier refines a map of plaintexts.  The file and the
      MySQL backend implement the map the barrier needs, with the keys for which
      they do not; the barrier cannot tell files from memory.
    - Views: isolation of views with incomparable prefixes; the directory walk
      terminates and finds exactly the keys; [clear] deletes exactly those.
    - Routing and dispatch: longest prefix, what the backend sees, tainted
      mounts, unauthenticated and root paths; the first matching path serves.
    - Access control: parsed capabilities, the permission check, the union of
      rules and the precedence of deny, the choice of the most specific rule,
      and that only granted requests are allowed.
    - Core and mounts: unsealing by shares, sealing forgets every secret, the
      order of request phases, mounts survive a reload; error behaviours.
    - Life cycle: an invariant of every reachable state of the vault, from which
      the shares of the initialisation open it at any later time.  Both are for
      vaults whose reserved keys no request overwrites: the raw endpoint of the
      system backend can, and [raw_delete_disarms_seal] shows what follows.  The modules
      register their backends and handlers when it is unsealed and take back
      exactly these when it is sealed; an unsealing that fails half way leaves
      a vault that takes no further share, cannot be sealed and serves nothing.
    - Tokens: creation, revocation of exactly a token and its descendants, the
      count of uses, restrictions on children; under any sequence of calls the
      store refines a forest of tokens; the policy store with its caches
      refines the stored policies.
    - Expiration: a tick revokes the leases that are due, and the tokens of
      these leases, and no others; it blocks for good on an expired token to
      which, or to a descendant of which, a secret is leased.
    - Authorisation, end to end: no backend runs for a request without a live
      token whose policies, if it has any, allow it; issued tokens have a
      generated id and are never root.
    - Credentials: a user logs in with the password last written; an AppRole
      login needs the role id, a secret id with uses left and an address in the
      blocks; a certificate login needs a role that vouches for the certificate.
    - PKI: what an issued certificate says, who signed it and where it is stored.
    - Ciphers: a stream in any pieces computes what a single call computes, and
      decryption undoes it, for the algorithms that stream.
    - Configuration and HTTP: what a loaded configuration promises; every route
      passes the client's token on or is one of five that ask for none; unsealing
      over HTTP; how TLS certificates reach the login.
    - Client: its calls meet the routes they are meant for, if their names need
      no escaping; an operator who runs
      the unseal command with enough shares opens the vault; what the exit codes
      and messages of commands do not tell.
    - Theorems named after a defect state a behaviour of the code that a reader
      would not expect; they are hypotheses of no other theorem.

    ** Fuel

    Recursion is structural, with these exceptions.  [BarrierView.get_keys]
    walks directories with a work list: fuel of the number of directories below
    the view plus two is enough ([view_get_keys_exact] proves that it returns);
    the callers ([walk_fuel]) treat a walk cut short as a [Panic], so that no
    theorem about success speaks of it.  [TokenStore.revoke_tree_salted] takes
    the depth of the call stack; [revoke_tree_exact] proves that a stack deeper
    than the number of tokens is enough, and a token that is its own ancestor
    overflows every stack, as in the program.  [ExpirationManager.expire_loop]
    runs once for each due lease.  [trim_start_pat] and [split_str] use the
    length of their string, which every step shortens.

    ** Not modelled

    Logging; when threads and async tasks run: operations are atomic, and the
    threads that poll (expired leases every 200 ms, system metrics at the
    configured interval) are modelled by what one turn does, with no
    interleaving inside a turn; the text of foreign errors and of the [Display]
    and serde derivations; characters outside ASCII in [trim] and case
    conversion; parsing of command line arguments; becoming a daemon; the test
    code of the crate.  The database behind diesel, the cryptographic primitives,
    the dispatch of actix and the other crates are parameters, as said above, and
    their correctness is a hypothesis where a theorem needs it.

    These parts either keep no state of the program or are decided by code
    outside the repository. *)

From stdpp Require Import base tactics list gmap strings.
From Stdlib Require Import ZArith Lia.
From Stdlib Require Export Strings.Byte.

(** ** Outcomes of Rust code

    A fallible Rust function returns [Result<A, E>]; it may also panic (slice
    index out of range, checked arithmetic, [unwrap] on [None]).  The three
    cases are kept apart: [Err] is a value the caller handles, [Panic] unwinds
    through every caller. *)
Inductive outcome (E A : Type) : Type :=
  | Ok (a : A)
  | Err (e : E)
  | Panic.
Arguments Ok {E A} a.
Arguments Err {E A} e.
Arguments Panic {E A}.

(** The facts about strings, bytes and outcomes that close side goals. *)
Create HintDb rust.

Declare Scope rust_scope.
Delimit Scope rust_scope with rust.

(** The [?] operator: continue on [Ok], propagate [Err] and [Panic]. *)
Notation "'let?' x := m 'in' k" :=
  (match m with
   | Ok x => k
   | Err e => Err e
   | Panic => Panic
   end)
  (at level 10, x pattern, m at level 200, k at level 200) : rust_scope.
Open Scope rust_scope.

(** ** Stateful code: state passing with outcomes

    The state survives an error and a panic: effects performed before a failing
    [?] are not rolled back. *)
Definition st (S E A : Type) : Type := S -> S * outcome E A.

Definition st_ret {S E A} (a : A) : st S E A := fun s => (s, Ok a).
Definition st_fail {S E A} (e : E) : st S E A := fun s => (s, Err e).
Definition st_lift {S E A} (o : outcome E A) : st S E A := fun s => (s, o).
Definition st_get {S E} : st S E S := fun s => (s, Ok s).
Definition st_put {S E} (s' : S) : st S E unit := fun _ => (s', Ok tt).
Definition st_bind {S E A B} (m : st S E A) (k : A -> st S E B) : st S E B :=
  fun s =>
    match m s with
    | (s', Ok a) => k a s'
    | (s', Err e) => (s', Err e)
    | (s', Panic) => (s', Panic)
    end.

Notation "'let!' x := m 'in' k" := (st_bind m (fun x => k))
  (at level 10, x pattern, m at level 200, k at level 200) : rust_scope.

Lemma st_bind_ok {S E A B} (m : st S E A) (k : A -> st S E B) s s' b :
  st_bind m k s = (s', Ok b) → ∃ s1 a, m s = (s1, Ok a) ∧ k a s1 = (s', Ok b).
Proof. unfold st_bind. destruct (m s) as [s1 [a|e|]] eqn:Em; intros H; try done. eauto. Qed.

Lemma st_bind_run {S E A B} (m : st S E A) (k : A -> st S E B) s s1 a :
  m s = (s1, Ok a) → st_bind m k s = k a s1.
Proof. unfold st_bind. by intros ->. Qed.

Lemma st_bind_err {S E A B} (m : st S E A) (k : A -> st S E B) s s1 e :
  m s = (s1, Err e) → st_bind m k s = (s1, Err e).
Proof. unfold st_bind. by intros ->. Qed.

Lemma st_bind_panic {S E A B} (m : st S E A) (k : A -> st S E B) s s1 :
  m s = (s1, Panic) → st_bind m k s = (s1, Panic).
Proof. unfold st_bind. by intros ->. Qed.

(** Decompose a successful run into the runs of its steps. *)
Ltac inv_steps :=
  repeat match goal with
  | H : st_bind _ _ _ = (_, Ok _) |- _ =>
      let s := fresh "c" in let a := fresh "a" in let H1 := fresh "Hstep" in
      apply st_bind_ok in H as (s & a & H1 & H)
  end.

(** ** Case analysis on outcomes and tests *)
Ltac split_match :=
  match goal with
  | H : context [match ?x with _ => _ end] |- _ => destruct x eqn:?
  | |- context [match ?x with _ => _ end] => destruct x eqn:?
  end.

Ltac crush_outcome := repeat (split_match; simplify_eq/=; try done).

(** ** Lists *)
Section lists.
Context {A : Type}.

Lemma list_eq_nil_or_snoc (l : list A) : l = [] ∨ ∃ l' x, l = l' ++ [x].
Proof.
  destruct l as [|y l _] using rev_ind; [by left|right]. by exists l, y.
Qed.
End lists.

(** ** Machine bytes

    [u8] is [Byte.byte]; arithmetic that can leave the range goes through [N].
    Whether the compiled program checks overflow is a property of the build
    profile (debug builds panic, release builds wrap). *)
Class Profile : Type := overflow_checks : bool.

Definition u8 (b : byte) : nat := N.to_nat (Byte.to_N b).

Definition u8_wrap (n : N) : byte :=
  match Byte.of_N (n mod 256) with Some b => b | None => x00 end.

Definition u8_add `{Profile} {E} (a b : byte) : outcome E byte :=
  let s := (Byte.to_N a + Byte.to_N b)%N in
  if (s <? 256)%N then Ok (u8_wrap s)
  else if overflow_checks then Panic else Ok (u8_wrap s).

Definition u8_sub `{Profile} {E} (a b : byte) : outcome E byte :=
  if (Byte.to_N b <=? Byte.to_N a)%N then Ok (u8_wrap (Byte.to_N a - Byte.to_N b))
  else if overflow_checks then Panic
  else Ok (u8_wrap (Byte.to_N a + 256 - Byte.to_N b)).

Definition u8_xor (a b : byte) : byte := u8_wrap (N.lxor (Byte.to_N a) (Byte.to_N b)).

#[global] Instance byte_eq_dec : EqDecision byte := Byte.byte_eq_dec.

(** The random number generator: the [i]-th call that fills a buffer of [n]
    bytes.  [rand::RngCore::fill_bytes] fills the whole buffer. *)
Class Rng : Type := {
  fill_bytes : nat -> nat -> list byte;
  fill_bytes_length : forall i n, length (fill_bytes i n) = n
}.

(** *** Quantification over bytes is decidable by enumeration *)
Definition all_bytes : list byte := map (fun n => u8_wrap (N.of_nat n)) (seq 0 256).

Definition forall_byte (P : byte -> bool) : bool := forallb P all_bytes.

Lemma all_bytes_complete b : b ∈ all_bytes.
Proof.
  apply list_elem_of_lookup. exists (u8 b). by destruct b.
Qed.

Lemma forall_byte_spec (P : byte -> bool) : forall_byte P = true → ∀ b, P b = true.
Proof.
  intros H b. unfold forall_byte in H. rewrite forallb_forall in H.
  apply H, list_elem_of_In, all_bytes_complete.
Qed.

Lemma forall_byte2_spec (P : byte -> byte -> bool) :
  forall_byte (fun a => forall_byte (P a)) = true → ∀ a b, P a b = true.
Proof. intros H a. apply forall_byte_spec, (forall_byte_spec _ H a). Qed.

Lemma byte_eqb_eq a b : Byte.eqb a b = true ↔ a = b.
Proof. split; [apply Byte.byte_dec_bl | apply Byte.byte_dec_lb]. Qed.

Lemma byte_eqb_refl a : Byte.eqb a a = true.
Proof. by apply byte_eqb_eq. Qed.

Lemma byte_eqb_neq a b : Byte.eqb a b = false ↔ a ≠ b.
Proof. rewrite <- byte_eqb_eq. by destruct (Byte.eqb a b). Qed.

Lemma to_N_inj a b : Byte.to_N a = Byte.to_N b → a = b.
Proof.
  intros H. assert (Some a = Some b) as [= ->]; [|done].
  by rewrite <- !Byte.of_to_N, H.
Qed.

Lemma u8_inj a b : u8 a = u8 b → a = b.
Proof. unfold u8. intros H. apply to_N_inj. lia. Qed.

Lemma to_N_lt b : (Byte.to_N b < 256)%N.
Proof. pose proof (Byte.to_N_bounded b). lia. Qed.

Lemma u8_lt b : u8 b < 256.
Proof. pose proof (to_N_lt b). unfold u8. lia. Qed.

Lemma to_N_wrap n : Byte.to_N (u8_wrap n) = (n mod 256)%N.
Proof.
  unfold u8_wrap. pose proof (N.mod_lt n 256 ltac:(lia)).
  destruct (Byte.of_N (n mod 256)) eqn:E.
  - by apply Byte.to_of_N in E.
  - apply Byte.of_N_None_iff in E. lia.
Qed.

Lemma u8_wrap_to_N b : u8_wrap (Byte.to_N b) = b.
Proof. apply to_N_inj. rewrite to_N_wrap. apply N.mod_small, to_N_lt. Qed.

Lemma to_N_xor a b : Byte.to_N (u8_xor a b) = N.lxor (Byte.to_N a) (Byte.to_N b).
Proof.
  apply N.eqb_eq. revert a b. apply forall_byte2_spec. by vm_compute.
Qed.

#[export] Hint Resolve byte_eqb_refl u8_lt to_N_lt all_bytes_complete : rust.

(** ** Serialization

    serde_json for one type: [ser] is [to_string] (as bytes), [de] is
    [from_slice]; both can fail.  Derived [Serialize]/[Deserialize] without
    skipped fields round-trips. *)
Class Serde (A : Type) : Type := {
  ser : A -> option (list byte);
  de : list byte -> option A
}.
Class SerdeLaws (A : Type) `{Serde A} : Prop := {
  ser_total : forall a, is_Some (ser a);
  de_ser : forall a bs, ser a = Some bs -> de bs = Some a
}.

(** A serializer for any countable type, to run the model on concrete data. *)
Fixpoint pos_bytes (p : positive) : list byte :=
  match p with xH => [] | xO p => x00 :: pos_bytes p | xI p => x01 :: pos_bytes p end.
Fixpoint bytes_pos (l : list byte) : positive :=
  match l with [] => xH | x00 :: l => xO (bytes_pos l) | _ :: l => xI (bytes_pos l) end.

Lemma bytes_pos_bytes p : bytes_pos (pos_bytes p) = p.
Proof. induction p as [p IH|p IH|]; simpl; congruence. Qed.

Definition countable_serde (A : Type) `{Countable A} : Serde A :=
  {| ser := fun a => Some (pos_bytes (encode a)); de := fun bs => decode (bytes_pos bs) |}.

Lemma countable_serde_laws (A : Type) `{Countable A} : @SerdeLaws A (countable_serde A).
Proof.
  split; [by eexists|]. intros a bs [= <-]. simpl. by rewrite bytes_pos_bytes, decode_encode.
Qed.

Definition is_ok {E A} (o : outcome E A) : bool := match o with Ok _ => true | _ => false end.

Definition of_option {E A} (e : E) (o : option A) : outcome E A :=
  match o with Some a => Ok a | None => Err e end.
