(* ===== verification/Errors.v ===== *)
(** * The error type of the program (src/src/errors.rs)

    [RvError] with its hand-written [PartialEq] and its HTTP status.  The
    variants that wrap an error of another crate (IO, SerdeJson, OpenSSL, ...)
    are kept as constructors without their payload, which is only ever printed;
    [PartialEq] never equates two of them. *)

From stdpp Require Import base tactics strings.
From Stdlib Require Import ZArith.
From S2P Require Import Prelude.

Inductive RvError : Type :=
  | ErrCryptoCipherUpdateFailed
  | ErrCryptoCipherFinalizeFailed
  | ErrCryptoCipherInitFailed
  | ErrCryptoCipherNotInited
  | ErrCryptoCipherOPNotSupported
  | ErrCryptoCipherNoTag
  | ErrCryptoCipherAEADTagPresent
  | ErrConfigPathInvalid
  | ErrConfigLoadFailed
  | ErrConfigStorageNotFound
  | ErrConfigListenerNotFound
  | ErrCoreNotInit
  | ErrCoreLogicalBackendExist
  | ErrCoreLogicalBackendNoExist
  | ErrCoreRouterNotHandling
  | ErrCoreHandlerExist
  | ErrCoreSealConfigInvalid
  | ErrCoreSealConfigNotFound
  | ErrPhysicalConfigItemMissing
  | ErrPhysicalTypeInvalid
  | ErrPhysicalBackendPrefixInvalid
  | ErrPhysicalBackendKeyInvalid
  | ErrBarrierKeySanityCheckFailed
  | ErrBarrierAlreadyInit
  | ErrBarrierKeyInvalid
  | ErrBarrierNotInit
  | ErrBarrierSealed
  | ErrBarrierUnsealed
  | ErrBarrierUnsealFailed
  | ErrBarrierEpochMismatch
  | ErrBarrierVersionMismatch
  | ErrBarrierKeyGenerationFailed
  | ErrRouterMountConflict
  | ErrRouterMountNotFound
  | ErrMountFailed
  | ErrMountPathProtected
  | ErrMountPathExist
  | ErrMountTableNotFound
  | ErrMountTableNotReady
  | ErrMountNotMatch
  | ErrLogicalPathUnsupported
  | ErrLogicalOperationUnsupported
  | ErrRequestNotReady
  | ErrRequestNoData
  | ErrRequestNoDataField
  | ErrRequestInvalid
  | ErrRequestClientTokenMissing
  | ErrRequestFieldNotFound
  | ErrRequestFieldInvalid
  | ErrResponseDataInvalid
  | ErrHandlerDefault
  | ErrModuleKvDataFieldMissing
  | ErrRustDowncastFailed
  | ErrShamirShareCountInvalid
  | ErrModuleConflict
  | ErrModuleNotInit
  | ErrModuleNotFound
  | ErrAuthModuleDisabled
  | ErrAuthTokenNotFound
  | ErrAuthTokenIdInvalid
  | ErrLeaseNotFound
  | ErrLeaseNotRenewable
  | ErrPermissionDenied
  | ErrPkiPemBundleInvalid
  | ErrPkiCertKeyMismatch
  | ErrPkiCertChainIncorrect
  | ErrPkiCertIsNotCA
  | ErrPkiCaKeyNotFound
  | ErrPkiCaNotConfig
  | ErrPkiCaExtensionIncorrect
  | ErrPkiKeyTypeInvalid
  | ErrPkiKeyBitsInvalid
  | ErrPkiKeyNameAlreadyExist
  | ErrPkiKeyOperationInvalid
  | ErrPkiCertNotFound
  | ErrPkiRoleNotFound
  | ErrPkiDataInvalid
  | ErrPkiInternal
  | ErrCredentailInvalid
  | ErrCredentailNotConfig
  | IO
  | SerdeJson
  | SerdeYaml
  | OpenSSL
  | Pem
  | Regex
  | Hex
  | Hcl
  | HumantimeDuration
  | HumantimeTimestamp
  | SystemTimeError
  | ChronoError
  | BcryptError
  | UreqError
  | ErrRwLockReadPoison
  | ErrRwLockWritePoison
  | AddrParseError
  | IpNetworkError
  | ActixWebHttpHeaderError
  | UrlError
  | RustlsError
  | RustlsPemFileError
  | RustlsPkiTypesPemFileError
  | TokioTaskJoinError
  | StringUtf8Error
  | ErrDatabaseTypeInvalid
  | ErrConnectionPoolCreate
  | ErrDatabaseConnectionInfoInvalid
  | ErrDatabaseExecuteEntry
  | ErrOther
  | ErrResponse (text : string)
  | ErrResponseStatus (status : Z) (text : string)
  | ErrString (text : string)
  | ErrUnknown.

(** Every fallible function of the program returns this type. *)
Abbreviation result := (outcome RvError).

(** [impl PartialEq for RvError]: not reflexive on the variants it omits. *)
Definition RvError_eq (a b : RvError) : bool :=
  match a, b with
  | ErrCryptoCipherUpdateFailed, ErrCryptoCipherUpdateFailed
  | ErrCryptoCipherFinalizeFailed, ErrCryptoCipherFinalizeFailed
  | ErrCryptoCipherInitFailed, ErrCryptoCipherInitFailed
  | ErrCryptoCipherNotInited, ErrCryptoCipherNotInited
  | ErrCryptoCipherOPNotSupported, ErrCryptoCipherOPNotSupported
  | ErrCryptoCipherNoTag, ErrCryptoCipherNoTag
  | ErrCryptoCipherAEADTagPresent, ErrCryptoCipherAEADTagPresent
  | ErrCoreLogicalBackendExist, ErrCoreLogicalBackendExist
  | ErrCoreNotInit, ErrCoreNotInit
  | ErrCoreLogicalBackendNoExist, ErrCoreLogicalBackendNoExist
  | ErrCoreSealConfigInvalid, ErrCoreSealConfigInvalid
  | ErrCoreSealConfigNotFound, ErrCoreSealConfigNotFound
  | ErrCoreRouterNotHandling, ErrCoreRouterNotHandling
  | ErrCoreHandlerExist, ErrCoreHandlerExist
  | ErrPhysicalConfigItemMissing, ErrPhysicalConfigItemMissing
  | ErrPhysicalTypeInvalid, ErrPhysicalTypeInvalid
  | ErrPhysicalBackendPrefixInvalid, ErrPhysicalBackendPrefixInvalid
  | ErrPhysicalBackendKeyInvalid, ErrPhysicalBackendKeyInvalid
  | ErrBarrierKeySanityCheckFailed, ErrBarrierKeySanityCheckFailed
  | ErrBarrierAlreadyInit, ErrBarrierAlreadyInit
  | ErrBarrierKeyInvalid, ErrBarrierKeyInvalid
  | ErrBarrierNotInit, ErrBarrierNotInit
  | ErrBarrierSealed, ErrBarrierSealed
  | ErrBarrierUnsealed, ErrBarrierUnsealed
  | ErrBarrierUnsealFailed, ErrBarrierUnsealFailed
  | ErrBarrierEpochMismatch, ErrBarrierEpochMismatch
  | ErrBarrierVersionMismatch, ErrBarrierVersionMismatch
  | ErrBarrierKeyGenerationFailed, ErrBarrierKeyGenerationFailed
  | ErrRouterMountConflict, ErrRouterMountConflict
  | ErrRouterMountNotFound, ErrRouterMountNotFound
  | ErrMountFailed, ErrMountFailed
  | ErrMountPathProtected, ErrMountPathProtected
  | ErrMountPathExist, ErrMountPathExist
  | ErrMountTableNotFound, ErrMountTableNotFound
  | ErrMountTableNotReady, ErrMountTableNotReady
  | ErrMountNotMatch, ErrMountNotMatch
  | ErrLogicalPathUnsupported, ErrLogicalPathUnsupported
  | ErrLogicalOperationUnsupported, ErrLogicalOperationUnsupported
  | ErrRequestNotReady, ErrRequestNotReady
  | ErrRequestNoData, ErrRequestNoData
  | ErrRequestNoDataField, ErrRequestNoDataField
  | ErrRequestInvalid, ErrRequestInvalid
  | ErrRequestClientTokenMissing, ErrRequestClientTokenMissing
  | ErrRequestFieldNotFound, ErrRequestFieldNotFound
  | ErrRequestFieldInvalid, ErrRequestFieldInvalid
  | ErrResponseDataInvalid, ErrResponseDataInvalid
  | ErrHandlerDefault, ErrHandlerDefault
  | ErrModuleKvDataFieldMissing, ErrModuleKvDataFieldMissing
  | ErrRustDowncastFailed, ErrRustDowncastFailed
  | ErrShamirShareCountInvalid, ErrShamirShareCountInvalid
  | ErrRwLockReadPoison, ErrRwLockReadPoison
  | ErrRwLockWritePoison, ErrRwLockWritePoison
  | ErrConfigPathInvalid, ErrConfigPathInvalid
  | ErrConfigLoadFailed, ErrConfigLoadFailed
  | ErrConfigStorageNotFound, ErrConfigStorageNotFound
  | ErrConfigListenerNotFound, ErrConfigListenerNotFound
  | ErrModuleConflict, ErrModuleConflict
  | ErrModuleNotInit, ErrModuleNotInit
  | ErrModuleNotFound, ErrModuleNotFound
  | ErrAuthModuleDisabled, ErrAuthModuleDisabled
  | ErrAuthTokenNotFound, ErrAuthTokenNotFound
  | ErrAuthTokenIdInvalid, ErrAuthTokenIdInvalid
  | ErrLeaseNotFound, ErrLeaseNotFound
  | ErrLeaseNotRenewable, ErrLeaseNotRenewable
  | ErrPermissionDenied, ErrPermissionDenied
  | ErrPkiPemBundleInvalid, ErrPkiPemBundleInvalid
  | ErrPkiCertKeyMismatch, ErrPkiCertKeyMismatch
  | ErrPkiCertChainIncorrect, ErrPkiCertChainIncorrect
  | ErrPkiCertIsNotCA, ErrPkiCertIsNotCA
  | ErrPkiCaKeyNotFound, ErrPkiCaKeyNotFound
  | ErrPkiCaNotConfig, ErrPkiCaNotConfig
  | ErrPkiCaExtensionIncorrect, ErrPkiCaExtensionIncorrect
  | ErrPkiKeyTypeInvalid, ErrPkiKeyTypeInvalid
  | ErrPkiKeyBitsInvalid, ErrPkiKeyBitsInvalid
  | ErrPkiKeyNameAlreadyExist, ErrPkiKeyNameAlreadyExist
  | ErrPkiKeyOperationInvalid, ErrPkiKeyOperationInvalid
  | ErrPkiCertNotFound, ErrPkiCertNotFound
  | ErrPkiRoleNotFound, ErrPkiRoleNotFound
  | ErrPkiDataInvalid, ErrPkiDataInvalid
  | ErrPkiInternal, ErrPkiInternal
  | ErrCredentailInvalid, ErrCredentailInvalid
  | ErrCredentailNotConfig, ErrCredentailNotConfig
  | ErrUnknown, ErrUnknown => true
  | ErrResponse a, ErrResponse b => String.eqb a b
  | ErrResponseStatus sa ta, ErrResponseStatus sb tb => Z.eqb sa sb && String.eqb ta tb
  | ErrString a, ErrString b => String.eqb a b
  | _, _ => false
  end.

(** [RvError::response_status], as the numeric HTTP status. *)
Definition response_status (e : RvError) : Z :=
  match e with
  | ErrRequestNoData | ErrBarrierAlreadyInit | ErrBarrierKeyInvalid
  | ErrBarrierNotInit | ErrBarrierUnsealed | ErrBarrierUnsealFailed
  | ErrRequestNoDataField | ErrRequestInvalid | ErrRequestClientTokenMissing
  | ErrRequestFieldNotFound | ErrRequestFieldInvalid => 400
  | ErrBarrierSealed => 503
  | ErrPermissionDenied => 403
  | ErrRouterMountNotFound => 404
  | _ => 500
  end.

Lemma RvError_eq_sound a b : RvError_eq a b = true → a = b.
Proof.
  destruct a, b; simpl; intros H; try discriminate H; try reflexivity.
  - by apply String.eqb_eq in H as ->.
  - apply andb_prop in H as [?%Z.eqb_eq ?%String.eqb_eq]. by subst.
  - by apply String.eqb_eq in H as ->.
Qed.

(** The comparison the handler loops make: [e != RvError::ErrHandlerDefault]. *)
Lemma RvError_eq_handler_default e :
  RvError_eq e ErrHandlerDefault = true ↔ e = ErrHandlerDefault.
Proof. split; [apply RvError_eq_sound | by intros ->]. Qed.
