(* ===== verification/Shamir.v ===== *)
(** * Shamir secret sharing over GF(256) (src/src/shamir.rs)

    [Module ShamirSecret] translates the tables, the field operations, the
    polynomial helpers and the public operations [with_secret], [get_share],
    [is_valid_share], [split], [recover_secret] and [combine], and shows that
    the table arithmetic is a field.  The properties of the operations are in
    ShamirCorrect. *)

From stdpp Require Import base tactics list strings.
From Stdlib Require Import ZArith Lia Ring.
From S2P Require Import Prelude Errors.

Module ShamirSecret.

(** ** Field arithmetic by logarithm tables *)

Definition GF256_EXP : list byte :=
  [
   x01; xe5; x4c; xb5; xfb; x9f; xfc; x12; x03; x34; xd4; xc4; x16; xba; x1f; x36; x05; x5c; x67;
   x57; x3a; xd5; x21; x5a; x0f; xe4; xa9; xf9; x4e; x64; x63; xee; x11; x37; xe0; x10; xd2; xac;
   xa5; x29; x33; x59; x3b; x30; x6d; xef; xf4; x7b; x55; xeb; x4d; x50; xb7; x2a; x07; x8d; xff;
   x26; xd7; xf0; xc2; x7e; x09; x8c; x1a; x6a; x62; x0b; x5d; x82; x1b; x8f; x2e; xbe; xa6; x1d;
   xe7; x9d; x2d; x8a; x72; xd9; xf1; x27; x32; xbc; x77; x85; x96; x70; x08; x69; x56; xdf; x99;
   x94; xa1; x90; x18; xbb; xfa; x7a; xb0; xa7; xf8; xab; x28; xd6; x15; x8e; xcb; xf2; x13; xe6;
   x78; x61; x3f; x89; x46; x0d; x35; x31; x88; xa3; x41; x80; xca; x17; x5f; x53; x83; xfe; xc3;
   x9b; x45; x39; xe1; xf5; x9e; x19; x5e; xb6; xcf; x4b; x38; x04; xb9; x2b; xe2; xc1; x4a; xdd;
   x48; x0c; xd0; x7d; x3d; x58; xde; x7c; xd8; x14; x6b; x87; x47; xe8; x79; x84; x73; x3c; xbd;
   x92; xc9; x23; x8b; x97; x95; x44; xdc; xad; x40; x65; x86; xa2; xa4; xcc; x7f; xec; xc0; xaf;
   x91; xfd; xf7; x4f; x81; x2f; x5b; xea; xa8; x1c; x02; xd1; x98; x71; xed; x25; xe3; x24; x06;
   x68; xb3; x93; x2c; x6f; x3e; x6c; x0a; xb8; xce; xae; x74; xb1; x42; xb4; x1e; xd3; x49; xe9;
   x9c; xc8; xc6; xc7; x22; x6e; xdb; x20; xbf; x43; x51; x52; x66; xb2; x76; x60; xda; xc5; xf3;
   xf6; xaa; xcd; x9a; xa0; x75; x54; x0e; x01].

Definition GF256_LOG : list byte :=
  [
   x00; xff; xc8; x08; x91; x10; xd0; x36; x5a; x3e; xd8; x43; x99; x77; xfe; x18; x23; x20; x07;
   x70; xa1; x6c; x0c; x7f; x62; x8b; x40; x46; xc7; x4b; xe0; x0e; xeb; x16; xe8; xad; xcf; xcd;
   x39; x53; x6a; x27; x35; x93; xd4; x4e; x48; xc3; x2b; x79; x54; x28; x09; x78; x0f; x21; x90;
   x87; x14; x2a; xa9; x9c; xd6; x74; xb4; x7c; xde; xed; xb1; x86; x76; xa4; x98; xe2; x96; x8f;
   x02; x32; x1c; xc1; x33; xee; xef; x81; xfd; x30; x5c; x13; x9d; x29; x17; xc4; x11; x44; x8c;
   x80; xf3; x73; x42; x1e; x1d; xb5; xf0; x12; xd1; x5b; x41; xa2; xd7; x2c; xe9; xd5; x59; xcb;
   x50; xa8; xdc; xfc; xf2; x56; x72; xa6; x65; x2f; x9f; x9b; x3d; xba; x7d; xc2; x45; x82; xa7;
   x57; xb6; xa3; x7a; x75; x4f; xae; x3f; x37; x6d; x47; x61; xbe; xab; xd3; x5f; xb0; x58; xaf;
   xca; x5e; xfa; x85; xe4; x4d; x8a; x05; xfb; x60; xb7; x7b; xb8; x26; x4a; x67; xc6; x1a; xf8;
   x69; x25; xb3; xdb; xbd; x66; xdd; xf1; xd2; xdf; x03; x8d; x34; xd9; x92; x0d; x63; x55; xaa;
   x49; xec; xbc; x95; x3c; x84; x0b; xf5; xe6; xe7; xe5; xac; x7e; x6e; xb9; xf9; xda; x8e; x9a;
   xc9; x24; xe1; x0a; x15; x6b; x3a; xa0; x51; xf4; xea; xb2; x97; x9e; x5d; x22; x88; x94; xce;
   x19; x01; x71; x4c; xa5; xe3; xc5; x31; xbb; xcc; x1f; x2d; x3b; x52; x6f; xf6; x2e; x89; xf7;
   xc0; x68; x1b; x64; x04; x06; xbf; x83; x38].

Definition SHAMIR_OVERHEAD : nat := 1.

Definition gf256_add (a b : byte) : byte := u8_xor a b.

Definition gf256_sub (a b : byte) : byte := gf256_add a b.

(** [u16] holds the sum of two logarithms. *)
Definition gf256_mul (a b : byte) : byte :=
  if Byte.eqb a x00 || Byte.eqb b x00 then x00
  else nth ((u8 (nth (u8 a) GF256_LOG x00) + u8 (nth (u8 b) GF256_LOG x00)) mod 255)
           GF256_EXP x00.

(** [i16] difference of logarithms, Rust's [%] is [Z.rem]. *)
Definition gf256_checked_div (a b : byte) : option byte :=
  if Byte.eqb a x00 then Some x00
  else if Byte.eqb b x00 then None
  else
    let a_log := Z.of_nat (u8 (nth (u8 a) GF256_LOG x00)) in
    let b_log := Z.of_nat (u8 (nth (u8 b) GF256_LOG x00)) in
    let diff := (a_log - b_log)%Z in
    let diff := if (diff <? 0)%Z then (diff + 255)%Z else diff in
    Some (nth (Z.to_nat (Z.rem diff 255)) GF256_EXP x00).

(** ** Polynomials, constant coefficient first *)

Definition pad_to (n : nat) (p : list byte) : list byte := p ++ replicate (n - length p) x00.

Definition add_polynomials (a b : list byte) : list byte :=
  let n := Nat.max (length a) (length b) in
  zip_with gf256_add (pad_to n a) (pad_to n b).

Definition multiply_polynomials (a b : list byte) : list byte :=
  fst (fold_left
    (fun '(resultterms, termpadding) bterm =>
       (add_polynomials resultterms (termpadding ++ map (fun aterm => gf256_mul aterm bterm) a),
        termpadding ++ [x00]))
    b ([], [])).

(** ** Shares *)

Record ShamirSecret := { coefficients : list (list byte) }.

(** [threshold - 1] is [u8] arithmetic; the buffer is refilled for every byte
    of the secret. *)
Definition with_secret `{Profile, Rng} (secret : list byte) (threshold : byte)
    : result ShamirSecret :=
  let? n := u8_sub threshold x01 in
  Ok {| coefficients := imap (fun i c => c :: fill_bytes i (u8 n)) secret |}.

Fixpoint accumulate_loop (id accumulator x_i : byte) (coefficient_bytes : list byte) : byte :=
  match coefficient_bytes with
  | [] => accumulator
  | c :: rest =>
      accumulate_loop id (gf256_add accumulator (gf256_mul c x_i)) (gf256_mul x_i id) rest
  end.

Definition accumulate_share_bytes (id : byte) (coefficient_bytes : list byte) : result byte :=
  if Byte.eqb id x00 then Err ErrShamirShareCountInvalid
  else Ok (accumulate_loop id x00 x01 coefficient_bytes).

Fixpoint get_share_loop (id : byte) (coefs : list (list byte)) (share_bytes : list byte)
    : result (list byte) :=
  match coefs with
  | [] => Ok (share_bytes ++ [id])
  | coefficient :: rest =>
      let? b := accumulate_share_bytes id coefficient in
      get_share_loop id rest (share_bytes ++ [b])
  end.

Definition get_share (self : ShamirSecret) (id : byte) : result (list byte) :=
  if Byte.eqb id x00 then Err ErrShamirShareCountInvalid
  else get_share_loop id (coefficients self) [].

(** [share[share.len() - 1]] panics on an empty share. *)
Definition is_valid_share (self : ShamirSecret) (share : list byte) : result bool :=
  match last share with
  | None => Panic
  | Some id =>
      match get_share self id with
      | Ok s => Ok (bool_decide (s = share))
      | Err _ => Ok false
      | Panic => Panic
      end
  end.

(** The loop [for i in 1..(part + 1)]: the bound is [u8] arithmetic. *)
Fixpoint split_loop (secret_data : ShamirSecret) (ids : list nat) (out : list (list byte))
    : result (list (list byte)) :=
  match ids with
  | [] => Ok out
  | i :: rest =>
      let? shared := get_share secret_data (u8_wrap (N.of_nat i)) in
      split_loop secret_data rest (out ++ [shared])
  end.

Definition split `{Profile, Rng} (secret : list byte) (part threshold : byte)
    : result (list (list byte)) :=
  if (u8 part <? u8 threshold) || (u8 threshold <? 2) then Err ErrShamirShareCountInvalid
  else
    let? secret_data := with_secret secret threshold in
    let? bound := u8_add part x01 in
    split_loop secret_data (seq 1 (u8 bound - 1)) [].

(** ** Interpolation *)

(** The inner loop over [j] of [full_lagrange]. *)
Fixpoint lagrange_inner (xs : list byte) (i : nat) (js : list nat) (this_polynomial : list byte)
    : result (option (list byte)) :=
  match js with
  | [] => Ok (Some this_polynomial)
  | j :: rest =>
      if i =? j then lagrange_inner xs i rest this_polynomial
      else
        match xs !! i, xs !! j with
        | Some xi, Some xj =>
            let denominator := gf256_sub xi xj in
            match gf256_checked_div xj denominator, gf256_checked_div x01 denominator with
            | Some a, Some b =>
                lagrange_inner xs i rest (multiply_polynomials this_polynomial [a; b])
            | _, _ => Ok None
            end
        | _, _ => Panic
        end
  end.

(** The outer loop over [i]; [fxs[i]] is in range, and the test
    [fxs.len() + 1 >= i] is kept as the source has it. *)
Fixpoint lagrange_outer (xs fxs : list byte) (idxs : list nat) (returned_coefficients : list byte)
    : result (option (list byte)) :=
  match idxs with
  | [] => Ok (Some returned_coefficients)
  | i :: rest =>
      let? this := lagrange_inner xs i (seq 0 (length fxs)) [x01] in
      match this with
      | None => Ok None
      | Some this_polynomial =>
          match fxs !! i with
          | None => Panic
          | Some fx =>
              let this_polynomial :=
                if i <=? length fxs + 1 then multiply_polynomials this_polynomial [fx]
                else this_polynomial in
              lagrange_outer xs fxs rest (add_polynomials returned_coefficients this_polynomial)
          end
      end
  end.

Definition full_lagrange (xs fxs : list byte) : result (option (list byte)) :=
  lagrange_outer xs fxs (seq 0 (length fxs)) [].

(** The checking loop of [recover_secret]: share identifiers, or rejection. *)
Fixpoint collect_xs (len0 : nat) (shares : list (list byte)) (xs : list byte)
    : option (list byte) :=
  match shares with
  | [] => Some xs
  | share :: rest =>
      match last share with
      | None => None
      | Some l =>
          if decide (l ∈ xs) then None
          else if length share =? len0 then collect_xs len0 rest (xs ++ [l])
          else None
      end
  end.

(** [share[0..share.len()][byte_to_use]] for every share. *)
Fixpoint column (byte_to_use : nat) (shares : list (list byte)) : result (list byte) :=
  match shares with
  | [] => Ok []
  | share :: rest =>
      match share !! byte_to_use with
      | None => Panic
      | Some b => let? bs := column byte_to_use rest in Ok (b :: bs)
      end
  end.

Fixpoint recover_loop (xs : list byte) (shares : list (list byte)) (rounds : list nat)
    (mysecretdata : list byte) : result (option (list byte)) :=
  match rounds with
  | [] => Ok (Some mysecretdata)
  | byte_to_use :: rest =>
      let? fxs := column byte_to_use shares in
      let? poly := full_lagrange xs fxs in
      match poly with
      | None => Ok None
      | Some [] => Panic
      | Some (c :: _) => recover_loop xs shares rest (mysecretdata ++ [c])
      end
  end.

Definition recover_secret (shares : list (list byte)) : result (option (list byte)) :=
  if length shares <? 2 then Ok None
  else
    match shares with
    | [] => Panic
    | share0 :: _ =>
        match collect_xs (length share0) shares [] with
        | None => Ok None
        | Some xs => recover_loop xs shares (seq 0 (length share0 - 1)) []
        end
    end.

Definition combine (shares : list (list byte)) : result (option (list byte)) :=
  recover_secret shares.

(** ** The table arithmetic is a field *)

Definition glog (a : byte) : nat := u8 (nth (u8 a) GF256_LOG x00).
Definition gexp (k : nat) : byte := nth k GF256_EXP x00.

(** The generator whose powers the exponential table lists. *)
Definition generator : byte := gexp 1.

Definition nonzero (a : byte) : bool := negb (Byte.eqb a x00).

Lemma gexp_glog a : a ≠ x00 → gexp (glog a mod 255) = a.
Proof.
  intros Ha%byte_eqb_neq.
  assert (implb (nonzero a) (Byte.eqb (gexp (glog a mod 255)) a) = true) as H.
  { revert a Ha. intros a _. revert a. apply forall_byte_spec. by vm_compute. }
  unfold nonzero in H. rewrite Ha in H. by apply byte_eqb_eq in H.
Qed.

Lemma exp_table_ok k :
  k < 255 → gexp k ≠ x00 ∧ glog (gexp k) mod 255 = k.
Proof.
  intros Hk.
  assert (forallb (fun k => nonzero (gexp k) && (glog (gexp k) mod 255 =? k)) (seq 0 255) = true)
    as H by by vm_compute.
  rewrite forallb_forall in H. specialize (H k). rewrite in_seq in H.
  specialize (H ltac:(lia)). apply andb_prop in H as [H1 H2%Nat.eqb_eq].
  split; [|done]. apply byte_eqb_neq. by apply negb_true_iff in H1.
Qed.

Lemma gf256_mul_0_l a : gf256_mul x00 a = x00.
Proof. done. Qed.

Lemma gf256_mul_0_r a : gf256_mul a x00 = x00.
Proof. unfold gf256_mul. by rewrite byte_eqb_refl, orb_true_r. Qed.

Lemma gf256_mul_nonzero a b :
  a ≠ x00 → b ≠ x00 → gf256_mul a b = gexp ((glog a + glog b) mod 255).
Proof. intros Ha%byte_eqb_neq Hb%byte_eqb_neq. unfold gf256_mul. by rewrite Ha, Hb. Qed.

Lemma gf256_mul_neq_0 a b : a ≠ x00 → b ≠ x00 → gf256_mul a b ≠ x00.
Proof.
  intros. rewrite gf256_mul_nonzero by done. apply exp_table_ok, Nat.mod_upper_bound. lia.
Qed.

Lemma glog_mul a b :
  a ≠ x00 → b ≠ x00 → glog (gf256_mul a b) mod 255 = (glog a + glog b) mod 255.
Proof.
  intros. rewrite gf256_mul_nonzero by done. apply exp_table_ok, Nat.mod_upper_bound. lia.
Qed.

Lemma gf256_mul_comm a b : gf256_mul a b = gf256_mul b a.
Proof. unfold gf256_mul. by rewrite orb_comm, Nat.add_comm. Qed.

Lemma gf256_mul_assoc a b c : gf256_mul a (gf256_mul b c) = gf256_mul (gf256_mul a b) c.
Proof.
  destruct (decide (a = x00)) as [->|Ha]; [done|].
  destruct (decide (b = x00)) as [->|Hb]; [by rewrite gf256_mul_0_l, !gf256_mul_0_r, gf256_mul_0_l|].
  destruct (decide (c = x00)) as [->|Hc]; [by rewrite !gf256_mul_0_r|].
  rewrite (gf256_mul_nonzero a (gf256_mul b c)), (gf256_mul_nonzero (gf256_mul a b) c)
    by first [done | by apply gf256_mul_neq_0].
  f_equal. rewrite <- (Nat.Div0.add_mod_idemp_r (glog a)), <- (Nat.Div0.add_mod_idemp_l _ (glog c)).
  rewrite !glog_mul by done.
  rewrite Nat.Div0.add_mod_idemp_l, Nat.Div0.add_mod_idemp_r. f_equal. lia.
Qed.

Lemma gf256_mul_1_l a : gf256_mul x01 a = a.
Proof. apply byte_eqb_eq. revert a. apply forall_byte_spec. by vm_compute. Qed.

Lemma gf256_add_comm a b : gf256_add a b = gf256_add b a.
Proof. apply to_N_inj. unfold gf256_add. rewrite !to_N_xor. apply N.lxor_comm. Qed.

Lemma gf256_add_assoc a b c : gf256_add a (gf256_add b c) = gf256_add (gf256_add a b) c.
Proof. apply to_N_inj. unfold gf256_add. rewrite !to_N_xor. symmetry. apply N.lxor_assoc. Qed.

Lemma gf256_add_0_l a : gf256_add x00 a = a.
Proof. apply to_N_inj. unfold gf256_add. by rewrite to_N_xor. Qed.

Lemma gf256_add_diag a : gf256_add a a = x00.
Proof. apply to_N_inj. unfold gf256_add. rewrite to_N_xor. apply N.lxor_nilpotent. Qed.

(** A map of bytes given by its values on the eight powers of two. *)
Fixpoint linear (cs : list N) (i n : N) : N :=
  match cs with
  | [] => 0
  | c :: cs => N.lxor (if N.testbit n i then c else 0) (linear cs (N.succ i) n)
  end%N.

Lemma linear_lxor cs : ∀ i m n, linear cs i (N.lxor m n) = N.lxor (linear cs i m) (linear cs i n).
Proof.
  induction cs as [|c cs IH]; intros i m n; [done|]. cbn [linear]. rewrite IH, N.lxor_spec.
  apply N.bits_inj. intros j. rewrite !N.lxor_spec.
  destruct (N.testbit m i), (N.testbit n i); cbn [xorb]; rewrite ?N.bits_0;
    destruct (N.testbit c j), (N.testbit (linear _ _ m) j), (N.testbit (linear _ _ n) j); done.
Qed.

(** Multiplication by the generator is linear, and every element is a power of
    the generator: distributivity by induction on the power. *)
Lemma generator_linear b :
  Byte.to_N (gf256_mul generator b) =
  linear (map (fun p => Byte.to_N (gf256_mul generator p)) [x01; x02; x04; x08; x10; x20; x40; x80]) 0 (Byte.to_N b).
Proof.
  apply N.eqb_eq. revert b. apply forall_byte_spec. by vm_compute.
Qed.

Lemma generator_distr b c :
  gf256_mul generator (gf256_add b c) =
  gf256_add (gf256_mul generator b) (gf256_mul generator c).
Proof.
  apply to_N_inj. unfold gf256_add. by rewrite to_N_xor, !generator_linear, to_N_xor, linear_lxor.
Qed.

Lemma gexp_S k : S k < 255 → gexp (S k) = gf256_mul generator (gexp k).
Proof.
  intros Hk.
  assert (forallb (fun k => Byte.eqb (gexp (S k)) (gf256_mul generator (gexp k))) (seq 0 254) = true)
    as H by by vm_compute.
  rewrite forallb_forall in H. apply byte_eqb_eq, H, in_seq. lia.
Qed.

Lemma gexp_distr k b c :
  k < 255 →
  gf256_mul (gexp k) (gf256_add b c) = gf256_add (gf256_mul (gexp k) b) (gf256_mul (gexp k) c).
Proof.
  induction k as [|k IH]; intros Hk.
  - change (gexp 0) with x01. by rewrite !gf256_mul_1_l.
  - rewrite gexp_S by done. rewrite <- !gf256_mul_assoc, IH by lia. apply generator_distr.
Qed.

Lemma gf256_mul_add_distr_l a b c :
  gf256_mul a (gf256_add b c) = gf256_add (gf256_mul a b) (gf256_mul a c).
Proof.
  destruct (decide (a = x00)) as [->|Ha]; [done|].
  rewrite <- (gexp_glog a) by done. apply gexp_distr, Nat.mod_upper_bound. lia.
Qed.

Lemma gf256_ring_theory :
  ring_theory x00 x01 gf256_add gf256_mul gf256_sub (fun a => a) (@eq byte).
Proof.
  split; intros.
  - apply gf256_add_0_l.
  - apply gf256_add_comm.
  - apply gf256_add_assoc.
  - apply gf256_mul_1_l.
  - apply gf256_mul_comm.
  - apply gf256_mul_assoc.
  - rewrite !(gf256_mul_comm _ z). apply gf256_mul_add_distr_l.
  - done.
  - apply gf256_add_diag.
Qed.

(** Coefficients are reduced modulo 2, so that [ring] knows [a + a = 0]. *)
Definition gf_of_bool (b : bool) : byte := if b then x01 else x00.

Lemma gf256_morph :
  ring_morph x00 x01 gf256_add gf256_mul gf256_sub (fun a => a) (@eq byte)
    false true xorb andb xorb (fun b => b) Bool.eqb gf_of_bool.
Proof. split; first [done | by intros [] [] | by intros []]. Qed.

Ltac gf_constant t :=
  match t with
  | x00 => constr:(false)
  | x01 => constr:(true)
  | _ => constr:(NotConstant)
  end.

Add Ring gf256_ring : gf256_ring_theory (morphism gf256_morph, constants [gf_constant]).

Lemma gf256_sub_eq_0 a b : gf256_sub a b = x00 → a = b.
Proof.
  intros H. transitivity (gf256_add (gf256_sub a b) b); [ring|]. rewrite H. ring.
Qed.

Lemma gf256_mul_eq_0 a b : gf256_mul a b = x00 → a = x00 ∨ b = x00.
Proof.
  intros H. destruct (decide (a = x00)), (decide (b = x00)); auto.
  by destruct (gf256_mul_neq_0 a b).
Qed.

(** The difference of two logarithms, as division takes it. *)
Lemma log_difference (x y : nat) :
  x < 256 → y < 256 →
  let diff := (Z.of_nat x - Z.of_nat y)%Z in
  let d := Z.to_nat (Z.rem (if (diff <? 0)%Z then diff + 255 else diff)%Z 255) in
  d < 255 ∧ (d + y) mod 255 = x mod 255.
Proof.
  intros Hx Hy diff d.
  assert (∃ k, Z.of_nat x + 255 = Z.of_nat d + Z.of_nat y + 255 * k ∧ 0 ≤ Z.of_nat d < 255)%Z as (k & Hk & Hd).
  { subst d diff. destruct (Z.ltb_spec (Z.of_nat x - Z.of_nat y) 0) as [Hlt|Hge].
    - destruct (decide (Z.of_nat x - Z.of_nat y + 255 < 0)%Z); [lia|].
      rewrite Z.rem_small, Z2Nat.id by lia. exists 0%Z. lia.
    - destruct (decide (Z.of_nat x - Z.of_nat y = 255)%Z) as [E|]; [rewrite E; change (Z.to_nat (Z.rem 255 255)) with 0; exists 2%Z; lia|].
      rewrite Z.rem_small, Z2Nat.id by lia. exists 1%Z. lia. }
  split; [lia|]. apply Nat2Z.inj. rewrite !Nat2Z.inj_mod, Nat2Z.inj_add.
  replace (Z.of_nat d + Z.of_nat y)%Z with (Z.of_nat x + (1 - k) * 255)%Z by lia.
  by rewrite Z.mod_add.
Qed.

(** Division inverts multiplication and fails exactly on a zero divisor. *)
Lemma gf256_checked_div_spec a b :
  b ≠ x00 → ∃ q, gf256_checked_div a b = Some q ∧ gf256_mul q b = a.
Proof.
  intros Hb. unfold gf256_checked_div.
  destruct (decide (a = x00)) as [->|Ha]; [exists x00; by rewrite gf256_mul_0_l|].
  rewrite (proj2 (byte_eqb_neq a x00) Ha), (proj2 (byte_eqb_neq b x00) Hb).
  fold (glog a) (glog b). eexists. split; [done|].
  pose proof (log_difference (glog a) (glog b) (u8_lt _) (u8_lt _)) as [Hd Hs]. cbv zeta in Hd, Hs.
  set (d := Z.to_nat _) in *. fold (gexp d). destruct (exp_table_ok d Hd) as [Hne Hlog].
  rewrite gf256_mul_nonzero by done. rewrite <- Nat.Div0.add_mod_idemp_l, Hlog, Hs. by apply gexp_glog.
Qed.

End ShamirSecret.
