(* ===== verification/ShamirCorrect.v ===== *)
(** * Correctness of Shamir secret sharing (theorems about src/src/shamir.rs)

    Polynomials over the byte field, evaluation of the code's polynomial
    helpers, the interpolation argument, and the properties of [split],
    [combine], [recover_secret] and [gf256_mul]. *)

From stdpp Require Import base tactics list sets strings.
From Stdlib Require Import ZArith Lia Ring.
From S2P Require Import Prelude Errors Shamir.
Import ShamirSecret.

Declare Scope gf_scope.
Delimit Scope gf_scope with gf.
Notation "a ⊕ b" := (gf256_add a b) (at level 50, left associativity) : gf_scope.
Notation "a ⊗ b" := (gf256_mul a b) (at level 40, left associativity) : gf_scope.
Local Open Scope gf_scope.

Add Ring gf256_ring_correct : gf256_ring_theory
  (morphism gf256_morph, constants [gf_constant]).

(** ** Evaluation *)

Fixpoint eval (p : list byte) (x : byte) : byte :=
  match p with
  | [] => x00
  | c :: p => c ⊕ x ⊗ eval p x
  end.

Fixpoint gpow (x : byte) (n : nat) : byte :=
  match n with 0 => x01 | S n => x ⊗ gpow x n end.

Lemma eval_app p q x : eval (p ++ q) x = eval p x ⊕ gpow x (length p) ⊗ eval q x.
Proof. induction p as [|c p IH]; simpl; [ring|]. rewrite IH. ring. Qed.

Lemma eval_zeros n x : eval (replicate n x00) x = x00.
Proof. induction n as [|n IH]; simpl; [done|]. rewrite IH. ring. Qed.

Lemma eval_pad_to n p x : eval (pad_to n p) x = eval p x.
Proof. unfold pad_to. rewrite eval_app, eval_zeros. ring. Qed.

Lemma length_pad_to n p : length p ≤ n → length (pad_to n p) = n.
Proof. intros. unfold pad_to. rewrite length_app, length_replicate. lia. Qed.

Lemma eval_zip_add p q x :
  length p = length q → eval (zip_with gf256_add p q) x = eval p x ⊕ eval q x.
Proof.
  revert q. induction p as [|c p IH]; intros [|d q]; simpl; intros H; try done.
  rewrite IH by lia. ring.
Qed.

Lemma eval_add_polynomials p q x : eval (add_polynomials p q) x = eval p x ⊕ eval q x.
Proof.
  unfold add_polynomials.
  rewrite eval_zip_add by (rewrite !length_pad_to by lia; done). by rewrite !eval_pad_to.
Qed.

Lemma length_add_polynomials p q :
  length (add_polynomials p q) = Nat.max (length p) (length q).
Proof. unfold add_polynomials. rewrite length_zip_with, !length_pad_to by lia. lia. Qed.

Lemma eval_map_mul p b x : eval (map (λ a, a ⊗ b) p) x = eval p x ⊗ b.
Proof. induction p as [|c p IH]; simpl; [ring|]. rewrite IH. ring. Qed.

(** The loop of [multiply_polynomials], from any intermediate state. *)
Definition mul_step (a : list byte) : list byte * list byte → byte → list byte * list byte :=
  λ '(resultterms, termpadding) bterm,
    (add_polynomials resultterms (termpadding ++ map (λ aterm, aterm ⊗ bterm) a),
     termpadding ++ [x00]).

Lemma multiply_polynomials_unfold a b :
  multiply_polynomials a b = fst (fold_left (mul_step a) b ([], [])).
Proof. done. Qed.

Lemma mul_loop_spec a b res n x :
  let r := fst (fold_left (mul_step a) b (res, replicate n x00)) in
  eval r x = eval res x ⊕ gpow x n ⊗ (eval a x ⊗ eval b x) ∧
  length r = match b with
             | [] => length res
             | _ => Nat.max (length res) (n + length a + length b - 1)
             end.
Proof.
  revert res n. induction b as [|c b IH]; intros res n; simpl.
  - split; [ring | done].
  - assert (replicate n x00 ++ [x00] = replicate (S n) x00) as ->
      by (by rewrite <- replicate_cons_app).
    destruct (IH (add_polynomials res (replicate n x00 ++ map (λ aterm, aterm ⊗ c) a)) (S n))
      as [-> ->].
    rewrite eval_add_polynomials, eval_app, eval_zeros, eval_map_mul, length_replicate.
    rewrite length_add_polynomials, length_app, length_replicate, length_map.
    split; [simpl; ring | destruct b; simpl; lia].
Qed.

Lemma eval_multiply_polynomials a b x :
  eval (multiply_polynomials a b) x = eval a x ⊗ eval b x.
Proof.
  rewrite multiply_polynomials_unfold. destruct (mul_loop_spec a b [] 0 x) as [H _].
  simpl in H. rewrite H. ring.
Qed.

Lemma length_multiply_polynomials a b :
  b ≠ [] → length (multiply_polynomials a b) = length a + length b - 1.
Proof.
  intros Hb. rewrite multiply_polynomials_unfold.
  destruct (mul_loop_spec a b [] 0 x00) as [_ H]. simpl in H. rewrite H. by destruct b.
Qed.

(** ** Roots *)

(** Synthetic division by [X - a]. *)
Fixpoint quot (p : list byte) (a : byte) : list byte :=
  match p with
  | [] => []
  | c :: p => match p with [] => [] | _ => eval p a :: quot p a end
  end.

Lemma length_quot p a : length (quot p a) = length p - 1.
Proof. induction p as [|c [|d p] IH]; simpl in *; lia. Qed.

Lemma eval_quot p a x : eval p x ⊕ eval p a = (x ⊕ a) ⊗ eval (quot p a) x.
Proof.
  induction p as [|c p IH]; [simpl; ring|].
  destruct p as [|d p]; [simpl; ring|].
  change (quot (c :: d :: p) a) with (eval (d :: p) a :: quot (d :: p) a).
  set (q := d :: p) in *. clearbody q. simpl.
  transitivity (x ⊗ (eval q x ⊕ eval q a) ⊕ (x ⊕ a) ⊗ eval q a); [ring|].
  rewrite IH. ring.
Qed.

(** A polynomial with at least as many distinct roots as coefficients
    vanishes everywhere. *)
Lemma roots_vanish roots p :
  NoDup roots → length p ≤ length roots → (∀ r, r ∈ roots → eval p r = x00) →
  ∀ x, eval p x = x00.
Proof.
  revert p. induction roots as [|r roots IH]; intros p Hnd Hlen Hz x.
  - destruct p; simpl in *; [done|lia].
  - apply NoDup_cons in Hnd as [Hr Hnd].
    assert (∀ y, eval (quot p r) y = x00) as Hq.
    { apply (IH _ Hnd); [rewrite length_quot; simpl in Hlen; lia|].
      intros s Hs. assert (eval p s ⊕ eval p r = x00) as H0.
      { rewrite !Hz by set_solver. ring. }
      rewrite eval_quot in H0. apply gf256_mul_eq_0 in H0 as [H0|H0]; [|done].
      apply gf256_sub_eq_0 in H0. by subst. }
    pose proof (eval_quot p r x) as H. rewrite Hq, (Hz r) in H by set_solver.
    transitivity (eval p x ⊕ x00); [ring|]. rewrite H. ring.
Qed.

(** Two polynomials that agree on enough distinct points agree everywhere. *)
Lemma agree_everywhere roots p q :
  NoDup roots → length p ≤ length roots → length q ≤ length roots →
  (∀ r, r ∈ roots → eval p r = eval q r) → ∀ x, eval p x = eval q x.
Proof.
  intros Hnd Hp Hq H x. apply gf256_sub_eq_0. unfold gf256_sub.
  rewrite <- eval_add_polynomials. apply (roots_vanish roots); [done| |].
  - rewrite length_add_polynomials. lia.
  - intros r Hr. rewrite eval_add_polynomials, H by done. ring.
Qed.

Lemma eval_head c p : eval (c :: p) x00 = c.
Proof. simpl. ring. Qed.

(** ** The Lagrange basis computed by [full_lagrange] *)

(** Value at [x] of the product over [js], skipping [i]. *)
Fixpoint basis_at (xs : list byte) (i : nat) (js : list nat) (x : byte) : byte :=
  match js with
  | [] => x01
  | j :: rest =>
      if i =? j then basis_at xs i rest x
      else
        match xs !! i, xs !! j with
        | Some xi, Some xj =>
            match gf256_checked_div x01 (gf256_sub xi xj) with
            | Some inv => (x ⊕ xj) ⊗ inv ⊗ basis_at xs i rest x
            | None => x00
            end
        | _, _ => x00
        end
  end.

Lemma NoDup_sub_neq_0 xs i j xi xj :
  NoDup xs → xs !! i = Some xi → xs !! j = Some xj → i ≠ j → gf256_sub xi xj ≠ x00.
Proof.
  intros Hnd Hi Hj Hij ->%gf256_sub_eq_0. by apply Hij, (NoDup_lookup xs _ _ xj).
Qed.

(** Both quotients exist and are [xj / d] and [1 / d]. *)
Lemma div_pair xj d :
  d ≠ x00 → ∃ a b, gf256_checked_div xj d = Some a ∧ gf256_checked_div x01 d = Some b ∧
                   b ⊗ d = x01 ∧ a = xj ⊗ b.
Proof.
  intros Hd. destruct (gf256_checked_div_spec xj d Hd) as (a & Ha & Ha').
  destruct (gf256_checked_div_spec x01 d Hd) as (b & Hb & Hb').
  exists a, b. split_and!; try done.
  transitivity (a ⊗ (b ⊗ d)); [rewrite Hb'; ring|].
  transitivity (a ⊗ d ⊗ b); [ring | by rewrite Ha'].
Qed.

Lemma lagrange_inner_spec xs i js poly :
  NoDup xs → i < length xs → (∀ j, j ∈ js → j < length xs) →
  ∃ r, lagrange_inner xs i js poly = Ok (Some r) ∧
       length r = length poly + length (filter (λ j, i ≠ j) js) ∧
       ∀ x, eval r x = eval poly x ⊗ basis_at xs i js x.
Proof.
  intros Hnd Hi. revert poly. induction js as [|j js IH]; intros poly Hjs.
  - exists poly. split_and!; [done | simpl; lia |]. intros x. simpl. ring.
  - simpl. destruct (Nat.eqb_spec i j) as [->|Hij].
    { rewrite filter_cons_False by (by intros ?). apply IH. intros; apply Hjs. set_solver. }
    rewrite filter_cons_True by done.
    destruct (lookup_lt_is_Some_2 xs i Hi) as [xi Hxi].
    destruct (lookup_lt_is_Some_2 xs j (Hjs j ltac:(set_solver))) as [xj Hxj].
    rewrite Hxi, Hxj.
    destruct (div_pair xj (gf256_sub xi xj)) as (a & b & -> & -> & Hb & ->).
    { by eapply NoDup_sub_neq_0. }
    destruct (IH (multiply_polynomials poly [xj ⊗ b; b])) as (r & Hr & Hlen & Hev).
    { intros; apply Hjs. set_solver. }
    exists r. split_and!; [done| |].
    + rewrite Hlen, length_multiply_polynomials by done. simpl. lia.
    + intros x. rewrite Hev, eval_multiply_polynomials. simpl. ring.
Qed.

Lemma basis_at_self xs i js xi :
  NoDup xs → xs !! i = Some xi → (∀ j, j ∈ js → j < length xs) → basis_at xs i js xi = x01.
Proof.
  intros Hnd Hi. induction js as [|j js IH]; intros Hjs; [done|]. simpl.
  destruct (Nat.eqb_spec i j) as [->|Hij]; [apply IH; set_solver|].
  destruct (lookup_lt_is_Some_2 xs j (Hjs j ltac:(set_solver))) as [xj Hxj].
  rewrite Hi, Hxj.
  destruct (div_pair xj (gf256_sub xi xj)) as (a & b & _ & -> & Hb & _).
  { by eapply NoDup_sub_neq_0. }
  rewrite IH by set_solver. unfold gf256_sub in Hb.
  transitivity (b ⊗ (xi ⊕ xj)); [ring | done].
Qed.

Lemma basis_at_other xs i k js xk :
  xs !! k = Some xk → k ∈ js → i ≠ k → basis_at xs i js xk = x00.
Proof.
  intros Hk Hin Hik. induction js as [|j js IH]; [set_solver|]. simpl.
  destruct (Nat.eqb_spec i j) as [->|Hij]; [apply IH; set_solver|].
  destruct (decide (j = k)) as [->|Hjk].
  - rewrite Hk. repeat case_match; try done. rewrite gf256_add_diag. ring.
  - rewrite IH by set_solver. repeat case_match; try done. ring.
Qed.

Lemma length_filter_neq i n m :
  m ≤ i < m + n → length (filter (λ j, i ≠ j) (seq m n)) = n - 1.
Proof.
  revert m. induction n as [|n IH]; intros m Him; [lia|]. simpl.
  destruct (decide (i = m)) as [->|Hne].
  - rewrite filter_cons_False by (by intros ?).
    assert (∀ k l, m < k → filter (λ j, m ≠ j) (seq k l) = seq k l) as Hall.
    { intros k l. revert k. induction l as [|l IHl]; intros k Hk; [done|]. simpl.
      rewrite filter_cons_True by lia. by rewrite IHl by lia. }
    rewrite Hall, length_seq by lia. lia.
  - rewrite filter_cons_True by done. simpl. rewrite IH by lia. lia.
Qed.

(** The accumulated sum after the indices [0 .. m-1]. *)
Lemma lagrange_outer_spec xs fxs m n acc :
  NoDup xs → length fxs = length xs → m + n = length xs → length acc ≤ length xs →
  (∀ k xk, xs !! k = Some xk →
     eval acc xk = if decide (k < m) then nth k fxs x00 else x00) →
  ∃ r, lagrange_outer xs fxs (seq m n) acc = Ok (Some r) ∧
       length acc ≤ length r ≤ length xs ∧
       (0 < n → r ≠ []) ∧
       ∀ k xk, xs !! k = Some xk → eval r xk = nth k fxs x00.
Proof.
  intros Hnd Hlen. revert m acc. induction n as [|n IH]; intros m acc Hmn Hacc Hev; simpl.
  - exists acc. split_and!; [done|lia|done|lia|]. intros k xk Hk. rewrite (Hev k xk Hk).
    rewrite decide_True; [done|]. apply lookup_lt_Some in Hk. lia.
  - destruct (lagrange_inner_spec xs m (seq 0 (length fxs)) [x01]) as (p & -> & Hp & Hpe);
      [done|lia| |].
    { intros j [_ Hj]%elem_of_seq. lia. }
    destruct (lookup_lt_is_Some_2 fxs m ltac:(lia)) as [fx Hfx]. rewrite Hfx.
    assert ((m <=? length fxs + 1) = true) as -> by (apply Nat.leb_le; lia).
    rewrite length_filter_neq in Hp by lia. simpl in Hp.
    set (acc' := add_polynomials acc (multiply_polynomials p [fx])).
    assert (length acc' = Nat.max (length acc) (length p)) as HL.
    { unfold acc'. rewrite length_add_polynomials, length_multiply_polynomials by done.
      simpl. lia. }
    destruct (IH (S m) acc') as (r & -> & Hr & _ & Hre); [lia|lia| |].
    { intros k xk Hk. unfold acc'.
      rewrite eval_add_polynomials, eval_multiply_polynomials, Hpe, (Hev k xk Hk).
      destruct (decide (k = m)) as [->|Hkm].
      - rewrite basis_at_self by (try done; intros j [_ ?]%elem_of_seq; lia).
        rewrite decide_False, decide_True by lia.
        rewrite (nth_lookup_Some fxs m x00 fx Hfx). simpl. ring.
      - rewrite (basis_at_other xs m k) by
          (try done; apply elem_of_seq; apply lookup_lt_Some in Hk; lia).
        destruct (decide (k < m)); [rewrite decide_True by lia | rewrite decide_False by lia];
          simpl; ring. }
    exists r. split_and!; [done|lia|lia| |done]. intros _ ->. simpl in Hr. lia.
Qed.

Lemma full_lagrange_spec xs fxs :
  NoDup xs → length fxs = length xs → xs ≠ [] →
  ∃ c r, full_lagrange xs fxs = Ok (Some (c :: r)) ∧ length (c :: r) ≤ length xs ∧
         ∀ k xk, xs !! k = Some xk → eval (c :: r) xk = nth k fxs x00.
Proof.
  intros Hnd Hlen Hne. unfold full_lagrange.
  destruct (lagrange_outer_spec xs fxs 0 (length fxs) []) as (r & Hr & [_ Hl] & Hnn & He);
    try done; [simpl; lia|].
  destruct r as [|c r].
  { exfalso. apply Hnn; [|done]. destruct xs; simpl in *; [done|lia]. }
  by exists c, r.
Qed.

(** ** Shares are evaluations *)

Lemma accumulate_loop_spec id acc x_i coefs :
  accumulate_loop id acc x_i coefs = acc ⊕ x_i ⊗ eval coefs id.
Proof.
  revert acc x_i. induction coefs as [|c coefs IH]; intros acc x_i; simpl; [ring|].
  rewrite IH. ring.
Qed.

Lemma accumulate_share_bytes_spec id coefs :
  id ≠ x00 → accumulate_share_bytes id coefs = Ok (eval coefs id).
Proof.
  intros H%byte_eqb_neq. unfold accumulate_share_bytes. rewrite H, accumulate_loop_spec.
  f_equal. ring.
Qed.

(** The share of identifier [id]: one evaluation per secret byte, then [id]. *)
Definition share_of (coefs : list (list byte)) (id : byte) : list byte :=
  map (λ p, eval p id) coefs ++ [id].

Lemma get_share_spec self id :
  id ≠ x00 → get_share self id = Ok (share_of (coefficients self) id).
Proof.
  intros H. unfold get_share, share_of. rewrite (proj2 (byte_eqb_neq _ _) H).
  assert (∀ coefs acc, get_share_loop id coefs acc = Ok (acc ++ map (λ p, eval p id) coefs ++ [id]))
    as Hl; [|apply (Hl _ [])].
  induction coefs as [|p coefs IH]; intros acc; simpl; [done|].
  rewrite accumulate_share_bytes_spec by done. simpl. by rewrite IH, <- (assoc_L (++)).
Qed.

Lemma split_loop_spec sd ids out :
  (∀ i, i ∈ ids → 0 < i < 256) →
  split_loop sd ids out = Ok (out ++ map (λ i, share_of (coefficients sd) (u8_wrap (N.of_nat i))) ids).
Proof.
  revert out. induction ids as [|i ids IH]; intros out Hi; simpl; [by rewrite app_nil_r|].
  rewrite get_share_spec.
  - rewrite IH by set_solver. by rewrite <- (assoc_L (++)).
  - intros E. assert (0 < i < 256) by set_solver.
    apply (f_equal Byte.to_N) in E. rewrite to_N_wrap, N.mod_small in E by lia.
    change (Byte.to_N x00) with 0%N in E. lia.
Qed.

(** ** Recovery *)

Lemma last_share_of coefs id : last (share_of coefs id) = Some id.
Proof. unfold share_of. by rewrite last_snoc. Qed.

Lemma length_share_of coefs id : length (share_of coefs id) = S (length coefs).
Proof. unfold share_of. rewrite length_app, length_map. simpl. lia. Qed.

Lemma share_of_inj coefs : Inj (=) (=) (share_of coefs).
Proof.
  intros i j H. assert (Some i = Some j) as [= ->]; [|done].
  by rewrite <- (last_share_of coefs i), <- (last_share_of coefs j), H.
Qed.

Lemma collect_xs_spec coefs ids acc :
  NoDup (acc ++ ids) →
  collect_xs (S (length coefs)) (map (share_of coefs) ids) acc = Some (acc ++ ids).
Proof.
  revert acc. induction ids as [|id ids IH]; intros acc Hnd; simpl; [by rewrite app_nil_r|].
  rewrite last_share_of, length_share_of, Nat.eqb_refl.
  rewrite decide_False.
  - rewrite IH, <- (assoc_L (++)); [done|]. by rewrite <- (assoc_L (++)).
  - apply NoDup_app in Hnd as (_ & Hd & _). intros Hin. apply (Hd id Hin). set_solver.
Qed.

Lemma column_spec coefs ids k p :
  coefs !! k = Some p → column k (map (share_of coefs) ids) = Ok (map (eval p) ids).
Proof.
  intros Hk. induction ids as [|id ids IH]; simpl; [done|].
  assert (share_of coefs id !! k = Some (eval p id)) as ->.
  { unfold share_of. rewrite lookup_app_l by (rewrite length_map; by eapply lookup_lt_Some).
    change (map (λ p, eval p id) coefs) with ((λ p, eval p id) <$> coefs).
    by rewrite list_lookup_fmap, Hk. }
  by rewrite IH.
Qed.

(** Interpolating enough evaluations of [p] gives [p]'s constant coefficient. *)
Lemma full_lagrange_recovers ids p :
  NoDup ids → ids ≠ [] → length p ≤ length ids →
  ∃ r, full_lagrange ids (map (eval p) ids) = Ok (Some (eval p x00 :: r)).
Proof.
  intros Hnd Hne Hlen.
  destruct (full_lagrange_spec ids (map (eval p) ids)) as (c & r & -> & Hl & He);
    [done | by rewrite length_map | done |].
  exists r. do 3 f_equal. rewrite <- (eval_head c r).
  apply (agree_everywhere ids); [done..|].
  intros x [k Hk]%list_elem_of_lookup. rewrite (He k x Hk).
  apply nth_lookup_Some. change (map (eval p) ids) with (eval p <$> ids).
  by rewrite list_lookup_fmap, Hk.
Qed.

Lemma recover_loop_spec coefs ids m n acc :
  NoDup ids → ids ≠ [] → (∀ p, p ∈ coefs → length p ≤ length ids) → m + n = length coefs →
  recover_loop ids (map (share_of coefs) ids) (seq m n) acc =
    Ok (Some (acc ++ map (λ p, eval p x00) (drop m coefs))).
Proof.
  intros Hnd Hne Hlen. revert m acc. induction n as [|n IH]; intros m acc Hmn; simpl.
  - rewrite drop_ge by lia. by rewrite app_nil_r.
  - destruct (lookup_lt_is_Some_2 coefs m) as [p Hp]; [lia|].
    rewrite (column_spec _ _ _ p Hp). simpl.
    destruct (full_lagrange_recovers ids p) as [r ->]; [done|done| |].
    { apply Hlen, list_elem_of_lookup. by exists m. }
    simpl. rewrite IH by lia. rewrite (drop_S coefs p m Hp). simpl.
    by rewrite <- (assoc_L (++)).
Qed.

(** Recovery from evaluations at distinct points. *)
Lemma recover_secret_shares coefs ids :
  NoDup ids → 2 ≤ length ids → (∀ p, p ∈ coefs → length p ≤ length ids) →
  recover_secret (map (share_of coefs) ids) = Ok (Some (map (λ p, eval p x00) coefs)).
Proof.
  intros Hnd H2 Hlen. unfold recover_secret. rewrite length_map.
  assert ((length ids <? 2) = false) as -> by (apply Nat.ltb_ge; lia).
  destruct ids as [|id ids]; [simpl in H2; lia|].
  pose proof (collect_xs_spec coefs (id :: ids) [] Hnd) as Hc. cbn [map] in *.
  rewrite length_share_of, Hc. simpl length. rewrite Nat.sub_succ, Nat.sub_0_r.
  by apply (recover_loop_spec coefs (id :: ids)).
Qed.

(** ** Splitting *)

Lemma u8_sub_le `{Profile} {E} (a b : byte) :
  u8 b ≤ u8 a → ∃ c, u8_sub (E := E) a b = Ok c ∧ u8 c = u8 a - u8 b.
Proof.
  unfold u8, u8_sub. intros Hle.
  rewrite (proj2 (N.leb_le _ _)) by lia. eexists. split; [done|].
  rewrite to_N_wrap. pose proof (to_N_lt a). rewrite N.mod_small by lia. lia.
Qed.

Lemma u8_add_lt `{Profile} {E} (a b : byte) :
  u8 a + u8 b < 256 → ∃ c, u8_add (E := E) a b = Ok c ∧ u8 c = u8 a + u8 b.
Proof.
  unfold u8, u8_add. intros Hlt.
  rewrite (proj2 (N.ltb_lt _ _)) by lia. eexists. split; [done|].
  rewrite to_N_wrap, N.mod_small by lia. lia.
Qed.

Section split.
Context `{Profile, Rng}.

Lemma with_secret_spec secret threshold :
  1 ≤ u8 threshold →
  ∃ sd, with_secret secret threshold = Ok sd ∧
        map (λ p, eval p x00) (coefficients sd) = secret ∧
        ∀ p, p ∈ coefficients sd → length p = u8 threshold.
Proof.
  intros Ht. unfold with_secret.
  destruct (u8_sub_le (E := RvError) threshold x01) as (n & -> & Hn); [by apply Ht|].
  change (u8 x01) with 1 in Hn. eexists. split; [done|]. simpl. split.
  - apply list_eq. intros k.
    change (map (λ p, eval p x00) ?l) with ((λ p, eval p x00) <$> l).
    rewrite list_lookup_fmap, list_lookup_imap.
    destruct (secret !! k) as [c|]; simpl; [|done]. f_equal. ring.
  - intros p (k & c & -> & _)%elem_of_lookup_imap. simpl. rewrite fill_bytes_length. lia.
Qed.

(** The shares [split] produces: one per identifier [1 .. part]. *)
Lemma split_spec secret part threshold :
  2 ≤ u8 threshold ≤ u8 part → part ≠ xff →
  ∃ sd, with_secret secret threshold = Ok sd ∧
        split secret part threshold =
          Ok (map (λ i, share_of (coefficients sd) (u8_wrap (N.of_nat i))) (seq 1 (u8 part))).
Proof.
  intros [H2 Hle] Hff. unfold split.
  assert ((u8 part <? u8 threshold) = false) as -> by (apply Nat.ltb_ge; lia).
  assert ((u8 threshold <? 2) = false) as -> by (apply Nat.ltb_ge; lia). simpl.
  destruct (with_secret_spec secret threshold) as (sd & -> & _); [lia|].
  assert (u8 part ≠ 255) as Hp by (intros E; apply Hff, u8_inj; by rewrite E).
  pose proof (u8_lt part).
  destruct (u8_add_lt (E := RvError) part x01) as (b & -> & Hb);
    [change (u8 x01) with 1; lia|].
  exists sd. split; [done|]. rewrite split_loop_spec.
  - change (u8 x01) with 1 in Hb. replace (u8 b - 1) with (u8 part) by lia. done.
  - intros i [? ?]%elem_of_seq. change (u8 x01) with 1 in Hb. lia.
Qed.
End split.

Lemma map_preimage {A B} (f : A → B) (l : list B) :
  (∀ y, y ∈ l → ∃ x, y = f x) → ∃ l', l = map f l'.
Proof.
  induction l as [|y l IH]; intros Hl; [by exists []|].
  destruct (Hl y) as [x ->]; [set_solver|]. destruct IH as [l' ->]; [set_solver|].
  by exists (x :: l').
Qed.

(** ** Polynomials are determined by their values *)

Lemma gf256_mul_cancel x a : x ≠ x00 → x ⊗ a = x00 → a = x00.
Proof. intros Hx [?|?]%gf256_mul_eq_0; done. Qed.

Definition nonzero_bytes : list byte := filter (λ b, b ≠ x00) all_bytes.

Lemma nonzero_bytes_spec b : b ∈ nonzero_bytes ↔ b ≠ x00.
Proof. unfold nonzero_bytes. rewrite list_elem_of_filter. naive_solver eauto using all_bytes_complete. Qed.

Lemma nonzero_bytes_NoDup : NoDup nonzero_bytes ∧ length nonzero_bytes = 255.
Proof. split; [apply (bool_decide_unpack _); by vm_compute | by vm_compute]. Qed.

Lemma vanish_zeros p :
  length p ≤ 256 → (∀ x, eval p x = x00) → p = replicate (length p) x00.
Proof.
  induction p as [|c p IH]; intros Hlen Hz; [done|]. simpl in *.
  assert (c = x00) as -> by (rewrite <- (Hz x00); ring).
  f_equal. apply IH; [lia|]. destruct nonzero_bytes_NoDup as [Hnd Hl].
  apply (roots_vanish nonzero_bytes); [done|lia|].
  intros r Hr%nonzero_bytes_spec. apply (gf256_mul_cancel r); [done|].
  rewrite <- (Hz r). ring.
Qed.

Lemma zip_add_zeros p q :
  length p = length q → zip_with gf256_add p q = replicate (length p) x00 → p = q.
Proof.
  revert q. induction p as [|c p IH]; intros [|d q]; simpl; intros Hlen; try done.
  intros [= Hcd Hpq]. f_equal; [by apply gf256_sub_eq_0 | apply IH; [lia|done]].
Qed.

Lemma eval_inj p q :
  length p = length q → length p ≤ 256 → (∀ x, eval p x = eval q x) → p = q.
Proof.
  intros Hlen Hb He. apply zip_add_zeros; [done|].
  rewrite (vanish_zeros (zip_with gf256_add p q)).
  - by rewrite length_zip_with_l_eq.
  - by rewrite length_zip_with_l_eq.
  - intros x. rewrite eval_zip_add, He by done. ring.
Qed.

(** One byte: through [length ids] points and any constant coefficient there is
    exactly one polynomial of the degree the code uses. *)
Lemma interpolate_unique ids ys s :
  NoDup ids → x00 ∉ ids → length ys = length ids →
  exists! p, hd_error p = Some s ∧ length p = S (length ids) ∧
        ∀ k id, ids !! k = Some id → eval p id = nth k ys x00.
Proof.
  intros Hnd H0 Hlen.
  assert (NoDup (x00 :: ids)) as Hnd' by (by apply NoDup_cons).
  assert (length ids ≤ 255) as Hb.
  { destruct nonzero_bytes_NoDup as [_ <-]. apply submseteq_length, NoDup_submseteq; [done|].
    intros b Hin. apply nonzero_bytes_spec. by intros ->. }
  destruct (full_lagrange_spec (x00 :: ids) (s :: ys)) as (c & r & _ & Hl & He); [done..|simpl; lia|done|].
  exists (pad_to (S (length ids)) (c :: r)). split.
  - split_and!.
    + simpl. f_equal. rewrite <- (eval_head c r). apply (He 0 x00). done.
    + by apply length_pad_to.
    + intros k id Hk. rewrite eval_pad_to. apply (He (S k) id Hk).
  - intros q (Hq1 & Hq2 & Hq3). apply eval_inj; rewrite ?length_pad_to by done; [done|lia|].
    apply (agree_everywhere (x00 :: ids)); [done|rewrite length_pad_to by done; done|rewrite Hq2; done|].
    intros r' [->|[k Hk]%list_elem_of_lookup]%elem_of_cons; rewrite eval_pad_to.
    + rewrite (He 0 x00) by done. destruct q as [|d q]; [done|]. simpl in *.
      injection Hq1 as ->. ring.
    + rewrite (He (S k) r' Hk), (Hq3 k r' Hk). done.
Qed.

(** ** Which share lists are accepted *)

(** At least two non-empty shares of one length with distinct identifiers. *)
Definition well_formed_shares (shares : list (list byte)) : Prop :=
  2 ≤ length shares ∧
  (∃ n, ∀ s, s ∈ shares → length s = S n) ∧
  NoDup (omap last shares).

Lemma last_cons_is_Some {A} (s : list A) n : length s = S n → is_Some (last s).
Proof. destruct s; [done|]. intros _. by apply last_is_Some. Qed.

Lemma collect_xs_Some n shares acc xs :
  collect_xs n shares acc = Some xs →
  xs = acc ++ omap last shares ∧ (NoDup acc → NoDup xs) ∧
  ∀ s, s ∈ shares → length s = n ∧ s ≠ [].
Proof.
  revert acc. induction shares as [|s shares IH]; intros acc; simpl.
  - intros [= <-]. rewrite app_nil_r. split_and!; [done..|set_solver].
  - destruct (last s) as [l|] eqn:Hl; [|done]. case_decide as Hin; [done|].
    destruct (Nat.eqb_spec (length s) n) as [Hs|]; [|done].
    intros (-> & Hnd & Hall)%IH. rewrite <- (assoc_L (++)). split_and!; [done| |].
    + intros Hacc. rewrite (assoc_L (++)). apply Hnd, NoDup_app.
      split_and!; [done|set_solver|apply NoDup_singleton].
    + intros s' [->|Hs']%elem_of_cons; [|by apply Hall]. split; [done|]. by intros ->.
Qed.

Lemma collect_xs_complete n shares acc :
  (∀ s, s ∈ shares → length s = S n) → NoDup (acc ++ omap last shares) →
  collect_xs (S n) shares acc = Some (acc ++ omap last shares).
Proof.
  revert acc. induction shares as [|s shares IH]; intros acc Hlen Hnd;
    cbn -[last Nat.eqb] in *; [by rewrite app_nil_r|].
  assert (length s = S n) as Hs by set_solver.
  destruct (last_cons_is_Some s n Hs) as [l Hl]. rewrite Hl in *.
  rewrite Hs, Nat.eqb_refl, decide_False.
  - rewrite IH, <- (assoc_L (++)); [done|set_solver|]. by rewrite <- (assoc_L (++)).
  - apply NoDup_app in Hnd as (_ & Hd & _). intros Hin. apply (Hd l Hin). set_solver.
Qed.

Lemma column_total shares n k :
  (∀ s, s ∈ shares → length s = S n) → k < S n →
  ∃ fxs, column k shares = Ok fxs ∧ length fxs = length shares.
Proof.
  intros Hlen Hk. induction shares as [|s shares IH]; simpl; [by exists []|].
  destruct (lookup_lt_is_Some_2 s k) as [b ->]; [rewrite Hlen by set_solver; lia|].
  destruct IH as (fxs & -> & Hl); [set_solver|]. exists (b :: fxs). simpl. by rewrite Hl.
Qed.

Lemma recover_loop_total xs shares n m k acc :
  NoDup xs → xs ≠ [] → length shares = length xs →
  (∀ s, s ∈ shares → length s = S n) → m + k ≤ n →
  ∃ r, recover_loop xs shares (seq m k) acc = Ok (Some r).
Proof.
  intros Hnd Hne Hls Hlen. revert m acc. induction k as [|k IH]; intros m acc Hmk; simpl.
  { by exists acc. }
  destruct (column_total shares n m Hlen) as (fxs & -> & Hf); [lia|]. simpl.
  destruct (full_lagrange_spec xs fxs) as (c & r & -> & _); [done|lia|done|].
  apply IH. lia.
Qed.

Lemma length_omap_last n (shares : list (list byte)) :
  (∀ s, s ∈ shares → length s = S n) → length (omap last shares) = length shares.
Proof.
  induction shares as [|s shares IH]; intros Hlen; [done|]. cbn -[last].
  destruct (last_cons_is_Some s n) as [l ->]; [set_solver|]. simpl. f_equal. set_solver.
Qed.

(** ** AES multiplication as a reference *)

(** Multiplication by [x] modulo x^8 + x^4 + x^3 + x + 1. *)
Definition xtime (a : byte) : byte :=
  let n := (2 * Byte.to_N a)%N in
  u8_wrap (if (n <? 256)%N then n else N.lxor n 0x11b).

(** Shift-and-add multiplication, most significant bit first. *)
Definition aes_mul (a b : byte) : byte :=
  fold_left (fun acc i => let acc := xtime acc in
                          if N.testbit (Byte.to_N b) i then u8_xor acc a else acc)
            [7; 6; 5; 4; 3; 2; 1; 0]%N x00.

(** Doubling is the product with 2, and a byte is what its bits add up to. *)
Lemma xtime_mul a : xtime a = gf256_mul x02 a.
Proof. apply byte_eqb_eq. revert a. apply forall_byte_spec. by vm_compute. Qed.

Lemma aes_mul_1_l b : aes_mul x01 b = b.
Proof. apply byte_eqb_eq. revert b. apply forall_byte_spec. by vm_compute. Qed.

(** Each step of the multiplication by [a] is [a] times the step for 1. *)
Lemma aes_mul_table a b : aes_mul a b = gf256_mul a b.
Proof.
  transitivity (gf256_mul a (aes_mul x01 b)); [|by rewrite aes_mul_1_l]. unfold aes_mul.
  rewrite <- (gf256_mul_0_r a) at 1. generalize x00. generalize [7; 6; 5; 4; 3; 2; 1; 0]%N.
  intros l. induction l as [|i l IH]; intros acc; [done|]. cbn [fold_left]. rewrite <- IH. f_equal.
  rewrite !xtime_mul. destruct (N.testbit (Byte.to_N b) i); [|ring].
  change u8_xor with gf256_add. ring.
Qed.

(** A generator with no entropy, for concrete runs. *)
Definition constant_rng (b : byte) : Rng :=
  {| fill_bytes := fun _ n => replicate n b; fill_bytes_length := fun _ n => length_replicate n b |}.

(** ** Properties *)

(** The shares of a split: their number and length, and what they combine to. *)
Lemma split_shares `{Profile, Rng} (secret : list byte) (part threshold : byte) :
  2 ≤ u8 threshold ≤ u8 part → part ≠ xff →
  ∃ shares, split secret part threshold = Ok shares ∧ length shares = u8 part ∧
    (∀ s, s ∈ shares → length s = length secret + SHAMIR_OVERHEAD) ∧
    ∀ chosen, (∀ s, s ∈ chosen → s ∈ shares) → NoDup chosen → u8 threshold ≤ length chosen →
      combine chosen = Ok (Some secret).
Proof.
  intros Ht Hff. destruct (split_spec secret part threshold Ht Hff) as (sd & Hsd & ->).
  eexists. split; [done|]. rewrite length_map, length_seq. split; [done|].
  destruct (with_secret_spec secret threshold) as (sd' & Hsd' & Hsec & Hplen); [lia|].
  rewrite Hsd in Hsd'. injection Hsd' as <-. split.
  { intros s Hs. apply list_elem_of_In, in_map_iff in Hs as (i & <- & _).
    rewrite length_share_of, <- Hsec, length_map. unfold SHAMIR_OVERHEAD. lia. }
  intros chosen Hsub Hnd Hlen.
  destruct (map_preimage (share_of (coefficients sd)) chosen) as [ids ->].
  { intros s Hs%Hsub. apply list_elem_of_In, in_map_iff in Hs as (i & <- & _). eauto. }
  rewrite length_map in Hlen. unfold combine. rewrite recover_secret_shares, Hsec; [done| |lia|].
  - by apply NoDup_fmap_1 in Hnd.
  - intros p Hp. rewrite (Hplen p Hp). done.
Qed.

(** C1: splitting a secret into [part] shares with threshold [threshold]
    succeeds for every [2 <= threshold <= part < 255], yields exactly [part]
    shares, and any [threshold] or more of them, in any order, combine to the
    secret again, whatever the random coefficients were. *)
Theorem split_combine `{Profile, Rng} (secret : list byte) (part threshold : byte) :
  2 ≤ u8 threshold ≤ u8 part → part ≠ xff →
  ∃ shares, split secret part threshold = Ok shares ∧ length shares = u8 part ∧
    ∀ chosen, (∀ s, s ∈ chosen → s ∈ shares) → NoDup chosen → u8 threshold ≤ length chosen →
      combine chosen = Ok (Some secret).
Proof.
  intros Ht Hff. destruct (split_shares secret part threshold Ht Hff) as (shares & ? & ? & _ & ?).
  by exists shares.
Qed.

Lemma split_combine_witness :
  ∃ shares, split (H := true) (H0 := constant_rng x37) [x41; xff; x00] x05 x03 = Ok shares ∧
    combine [nth 4 shares []; nth 0 shares []; nth 2 shares []] = Ok (Some [x41; xff; x00]).
Proof.
  destruct (split_combine (H := true) (H0 := constant_rng x37) [x41; xff; x00] x05 x03)
    as (shares & Hs & _ & Hc); [vm_compute; lia | done |].
  exists shares. split; [done|]. vm_compute in Hs. injection Hs as <-.
  apply Hc; [|apply (bool_decide_unpack _); by vm_compute | vm_compute; lia].
  intros s Hs. simpl in Hs. set_solver.
Defined.

(** C2: [threshold - 1] shares reveal nothing: for any identifiers, any share
    contents observed at them and any candidate secret of the same length there
    is exactly one choice of polynomials of the degree [with_secret] uses that
    has the candidate as secret and produces exactly the observed shares. *)
Theorem shares_reveal_nothing (ids : list byte) (rows : list (list byte)) (candidate : list byte) :
  NoDup ids → x00 ∉ ids → length rows = length candidate →
  (∀ row, row ∈ rows → length row = length ids) →
  exists! coefs : list (list byte),
    Forall2 (λ p s, hd_error p = Some s ∧ length p = S (length ids)) coefs candidate ∧
    ∀ k id, ids !! k = Some id →
      get_share {| coefficients := coefs |} id = Ok (map (λ row, nth k row x00) rows ++ [id]).
Proof.
  intros Hnd H0 Hlen Hrows.
  assert (∀ k id, ids !! k = Some id → id ≠ x00) as Hid.
  { intros k id Hk ->. apply H0, list_elem_of_lookup. eauto. }
  assert (exists! coefs, Forall2 (λ p s, hd_error p = Some s ∧ length p = S (length ids)) coefs candidate ∧
    ∀ k id, ids !! k = Some id → map (λ p, eval p id) coefs = map (λ row, nth k row x00) rows)
    as (coefs & [Hf Hm] & Huniq).
  { revert candidate Hlen. induction rows as [|row rows IH]; intros [|s candidate] Hlen; try done.
    - exists []. split; [split; [constructor|done]|]. intros coefs [->%Forall2_nil_inv_r _]. done.
    - destruct (IH ltac:(set_solver) candidate ltac:(simpl in Hlen; lia)) as (coefs & [Hf Hm] & Hu).
      destruct (interpolate_unique ids row s) as (p & (Hp1 & Hp2 & Hp3) & Hpu);
        [done|done|set_solver|].
      exists (p :: coefs). split.
      + split; [by constructor|]. intros k id Hk. simpl. f_equal; [by apply Hp3|by apply Hm].
      + intros coefs' [(q & l & [Hq1 Hq2] & Hl & ->)%Forall2_cons_inv_r Hm']. f_equal.
        * apply Hpu. split_and!; [done..|]. intros k id Hk. by apply Hm' in Hk as [= ? _].
        * apply Hu. split; [done|]. intros k id Hk. by apply Hm' in Hk as [= _ ?]. }
  exists coefs. split.
  - split; [done|]. intros k id Hk. rewrite get_share_spec by eauto. unfold share_of. simpl.
    by rewrite (Hm k id Hk).
  - intros coefs' [Hf' Hg']. apply Huniq. split; [done|]. intros k id Hk.
    pose proof (Hg' k id Hk) as Hg. rewrite get_share_spec in Hg by eauto.
    injection Hg as Hg. unfold share_of in Hg. simpl in Hg. by apply app_inj_tail in Hg as [-> _].
Qed.

Lemma shares_reveal_nothing_witness :
  exists! coefs : list (list byte),
    Forall2 (λ p s, hd_error p = Some s ∧ length p = 3) coefs [x41] ∧
    ∀ k id, [x01; x05] !! k = Some id →
      get_share {| coefficients := coefs |} id = Ok (map (λ row, nth k row x00) [[x10; x20]] ++ [id]).
Proof.
  apply (shares_reveal_nothing [x01; x05] [[x10; x20]] [x41]).
  - apply (bool_decide_unpack _). by vm_compute.
  - apply (bool_decide_unpack _). by vm_compute.
  - reflexivity.
  - intros row Hrow. simpl in *. set_solver.
Defined.

(** [split] on every input: it reports [ErrShamirShareCountInvalid] exactly
    for a threshold below two or above the share count, and on a share count of
    255 the loop bound [part + 1] overflows, so a build with overflow checks
    panics and one without returns no shares at all. *)
Theorem split_outcomes `{Profile, Rng} (secret : list byte) (part threshold : byte) :
  (split secret part threshold = Err ErrShamirShareCountInvalid ↔
     u8 part < u8 threshold ∨ u8 threshold < 2) ∧
  (2 ≤ u8 threshold → part = xff →
     split secret part threshold = if overflow_checks then Panic else Ok []).
Proof.
  assert (2 ≤ u8 threshold → part = xff →
     split secret part threshold = if overflow_checks then Panic else Ok []) as H255.
  { intros Ht ->. unfold split.
    assert ((u8 xff <? u8 threshold) = false) as ->
      by (apply Nat.ltb_ge; pose proof (u8_lt threshold); change (u8 xff) with 255; lia).
    assert ((u8 threshold <? 2) = false) as -> by (apply Nat.ltb_ge; lia). simpl.
    destruct (with_secret_spec secret threshold) as (sd & -> & _); [lia|].
    unfold u8_add. simpl. by destruct overflow_checks. }
  split; [|done]. split.
  - intros Hs. destruct (decide (u8 part < u8 threshold)); [by left|].
    destruct (decide (u8 threshold < 2)); [by right|exfalso].
    destruct (decide (part = xff)) as [->|Hff].
    + rewrite H255 in Hs by (done || lia). by destruct overflow_checks.
    + destruct (split_spec secret part threshold) as (sd & _ & E); [lia|done|].
      by rewrite E in Hs.
  - unfold split. intros [Hp%Nat.ltb_lt|Hp%Nat.ltb_lt]; by rewrite Hp, ?orb_true_r.
Qed.

(** [combine] is total on arbitrary input: it never panics or errors,
    and it returns a secret exactly for two or more non-empty shares of one
    length whose identifiers are distinct, [None] on everything else. *)
Theorem combine_total (shares : list (list byte)) :
  (well_formed_shares shares ∧ ∃ secret, combine shares = Ok (Some secret)) ∨
  (¬ well_formed_shares shares ∧ combine shares = Ok None).
Proof.
  unfold combine, recover_secret.
  destruct (Nat.ltb_spec (length shares) 2) as [H2|H2].
  { right. split; [|done]. intros [? _]. lia. }
  destruct shares as [|s0 shares]; [simpl in H2; lia|].
  destruct (collect_xs (length s0) (s0 :: shares) []) as [xs|] eqn:Hc.
  - left. apply collect_xs_Some in Hc as (Hxs & Hnd & Hall). cbn [app] in Hxs.
    specialize (Hnd (NoDup_nil_2)).
    assert (∃ n, length s0 = S n) as [n Hn].
    { destruct (Hall s0 ltac:(set_solver)) as [_ ?]. destruct s0; [done|]. by eexists. }
    assert (∀ s, s ∈ s0 :: shares → length s = S n) as Hall'.
    { intros s Hs. destruct (Hall s Hs) as [-> _]. done. }
    pose proof (length_omap_last n _ Hall') as Hlen. rewrite <- Hxs in Hlen.
    split; [split_and!; [done|by exists n|by rewrite <- Hxs]|].
    apply (recover_loop_total xs (s0 :: shares) n); [done| |done|done|lia].
    intros ->. simpl in Hlen. lia.
  - right. split; [|done]. intros (_ & [n Hn] & Hnd).
    rewrite (Hn s0 ltac:(set_solver)) in Hc.
    by rewrite (collect_xs_complete n) in Hc.
Qed.

(** C38: the logarithm-table product [gf256_mul] is multiplication in
    GF(2^8) modulo x^8 + x^4 + x^3 + x + 1, and [gf256_checked_div] returns the
    quotient for every non-zero divisor, zero for a zero dividend and [None]
    exactly when a non-zero byte is divided by zero. *)
Theorem gf256_is_aes_field (a b : byte) :
  gf256_mul a b = aes_mul a b ∧
  gf256_checked_div x00 b = Some x00 ∧
  (gf256_checked_div a b = None ↔ a ≠ x00 ∧ b = x00) ∧
  (b ≠ x00 → ∃ q, gf256_checked_div a b = Some q ∧ aes_mul q b = a).
Proof.
  split_and!; [symmetry; apply aes_mul_table | done | |].
  - split.
    + intros Hn. split; [by intros ->|]. apply dec_stable. intros Hb.
      destruct (gf256_checked_div_spec a b Hb) as (q & Hq & _). by rewrite Hn in Hq.
    + intros [Ha%byte_eqb_neq ->]. unfold gf256_checked_div. by rewrite Ha.
  - intros Hb. destruct (gf256_checked_div_spec a b Hb) as (q & Hq & Hm).
    exists q. by rewrite aes_mul_table.
Qed.
