(* ===== verification/RustStr.v ===== *)
(** * Rust strings

    A Rust [String] is a string of bytes ([String.string]).  This file models
    the [str] methods the program uses, with the lemmas that reduce them to
    concatenation.  [trim] and case conversion act on ASCII: bytes of
    multi-byte UTF-8 characters are neither white space nor letters here. *)

From stdpp Require Import base tactics list sets strings sorting.
From Stdlib Require Import Lia Ascii.
From S2P Require Import Prelude.

Local Open Scope string_scope.
Global Arguments String.append : simpl nomatch.

(** ** [str] methods *)

Definition slash : ascii := "/".
Definition star : ascii := "*".
Definition plus : ascii := "+".

Fixpoint strip_prefix (p s : string) : option string :=
  match p with
  | EmptyString => Some s
  | String a p =>
      match s with
      | EmptyString => None
      | String b s => if Ascii.eqb a b then strip_prefix p s else None
      end
  end.

Definition starts_with (p s : string) : bool :=
  match strip_prefix p s with Some _ => true | None => false end.

Fixpoint ends_with (suf s : string) : bool :=
  String.eqb suf s || match s with EmptyString => false | String _ s => ends_with suf s end.

Fixpoint contains (pat s : string) : bool :=
  starts_with pat s || match s with EmptyString => false | String _ s => contains pat s end.

Definition starts_with_char (c : ascii) (s : string) : bool :=
  match s with EmptyString => false | String a _ => Ascii.eqb a c end.

Fixpoint ends_with_char (c : ascii) (s : string) : bool :=
  match s with
  | EmptyString => false
  | String a EmptyString => Ascii.eqb a c
  | String _ s => ends_with_char c s
  end.

(** [s.replacen(pat, "", 1)]: drop the first occurrence. *)
Fixpoint remove_first (pat s : string) : string :=
  match strip_prefix pat s with
  | Some rest => rest
  | None => match s with EmptyString => EmptyString | String a s => String a (remove_first pat s) end
  end.

(** [s[..s.len() - 1]] on a non-empty string whose last character is one byte. *)
Fixpoint drop_last (s : string) : string :=
  match s with
  | EmptyString => EmptyString
  | String _ EmptyString => EmptyString
  | String a s => String a (drop_last s)
  end.

(** [String::from_utf8_lossy]: an ill-formed sequence becomes U+FFFD.  [lead]
    gives the ranges the bytes after a first byte may have. *)
Definition utf8_lead (b : Byte.byte) : option (list (N * N)) :=
  let n := Byte.to_N b in
  let cont := (128, 191)%N in
  if (n <? 128)%N then Some []
  else if (194 <=? n)%N && (n <=? 223)%N then Some [cont]
  else if (n =? 224)%N then Some [(160, 191)%N; cont]
  else if (n =? 237)%N then Some [(128, 159)%N; cont]
  else if (225 <=? n)%N && (n <=? 239)%N then Some [cont; cont]
  else if (n =? 240)%N then Some [(144, 191)%N; cont; cont]
  else if (241 <=? n)%N && (n <=? 243)%N then Some [cont; cont; cont]
  else if (n =? 244)%N then Some [(128, 143)%N; cont; cont]
  else None.

Definition utf8_replacement : list Byte.byte := [Byte.xef; Byte.xbf; Byte.xbd].

Fixpoint utf8_repair (pending : list Byte.byte) (ranges : list (N * N)) (l : list Byte.byte)
  : list Byte.byte :=
  match l with
  | [] => match pending with [] => [] | _ => utf8_replacement end
  | b :: l =>
      let start := match utf8_lead b with
                   | Some [] => b :: utf8_repair [] [] l
                   | Some rs => utf8_repair [b] rs l
                   | None => (utf8_replacement ++ utf8_repair [] [] l)%list
                   end in
      match ranges with
      | [] => start
      | (lo, hi) :: rs =>
          if (lo <=? Byte.to_N b)%N && (Byte.to_N b <=? hi)%N then
            match rs with
            | [] => (pending ++ [b] ++ utf8_repair [] [] l)%list
            | _ => utf8_repair (pending ++ [b])%list rs l
            end
          else (utf8_replacement ++ start)%list
      end
  end.

Definition from_utf8_lossy (b : list Byte.byte) : string := String.string_of_list_byte (utf8_repair [] [] b).

(** [s.trim_start_matches(pat)]: the pattern is removed as often as it occurs
    at the start.  Each removal shortens the string: its length is fuel enough. *)
Fixpoint trim_start_pat_fuel (fuel : nat) (pat s : string) : string :=
  match fuel, strip_prefix pat s with
  | S fuel, Some rest => trim_start_pat_fuel fuel pat rest
  | _, _ => s
  end.
Definition trim_start_pat (pat s : string) : string := trim_start_pat_fuel (String.length s) pat s.

(** [s.trim_start_matches(pred)] and [s.trim_end_matches(pred)]. *)
Fixpoint trim_start_matches (f : ascii -> bool) (s : string) : string :=
  match s with
  | EmptyString => EmptyString
  | String a r => if f a then trim_start_matches f r else s
  end.

Fixpoint trim_end_matches (f : ascii -> bool) (s : string) : string :=
  match s with
  | EmptyString => EmptyString
  | String a r =>
      match trim_end_matches f r with
      | EmptyString => if f a then EmptyString else String a EmptyString
      | r' => String a r'
      end
  end.

(** The quotation mark. *)
Definition dquote : string := String "034" "".

(** Texts of the source are written here with single quotes for double ones. *)
Fixpoint requote (s : string) : string :=
  match s with
  | EmptyString => ""
  | String a s => String (if Ascii.eqb a "039"%char then "034"%char else a) (requote s)
  end.

(** [s.replace(c, text)]. *)
Fixpoint replace_char (c : ascii) (text s : string) : string :=
  match s with
  | EmptyString => EmptyString
  | String a s => if Ascii.eqb a c then String.append text (replace_char c text s) else String a (replace_char c text s)
  end.

Definition is_whitespace (a : ascii) : bool :=
  let n := nat_of_ascii a in (n =? 32)%nat || ((9 <=? n)%nat && (n <=? 13)%nat).

Definition trim (s : string) : string :=
  trim_end_matches is_whitespace (trim_start_matches is_whitespace s).

Definition lower_ascii (a : ascii) : ascii :=
  let n := nat_of_ascii a in
  if (65 <=? n)%nat && (n <=? 90)%nat then ascii_of_nat (n + 32) else a.

Fixpoint to_lowercase (s : string) : string :=
  match s with EmptyString => EmptyString | String a s => String (lower_ascii a) (to_lowercase s) end.

(** [s.split(c)]: always at least one piece. *)
Fixpoint split_char (c : ascii) (s : string) : list string :=
  match s with
  | EmptyString => [""]
  | String a s =>
      if Ascii.eqb a c then "" :: split_char c s
      else match split_char c s with
           | [] => [String a ""]
           | w :: ws => String a w :: ws
           end
  end.

(** [v.join(sep)]. *)
Fixpoint join (sep : string) (l : list string) : string :=
  match l with
  | [] => ""
  | [w] => w
  | w :: l => w ++ sep ++ join sep l
  end.

(** [s.find(c)]: byte index of the first occurrence. *)
Fixpoint find_char (c : ascii) (s : string) : option nat :=
  match s with
  | EmptyString => None
  | String a s => if Ascii.eqb a c then Some 0 else S <$> find_char c s
  end.

Definition is_empty (s : string) : bool := match s with EmptyString => true | _ => false end.

(** The order of [Vec<String>::sort]: bytewise lexicographic. *)
Definition sort_strings (l : list string) : list string := merge_sort String.le l.

(** ** Lemmas *)

Lemma app_empty_r (s : string) : s ++ "" = s.
Proof. induction s as [|a s IH]; simpl; congruence. Qed.

Lemma app_assoc_str (a b c : string) : a ++ (b ++ c) = (a ++ b) ++ c.
Proof. induction a as [|x a IH]; simpl; congruence. Qed.

Lemma app_inj_l (a b c : string) : a ++ b = a ++ c → b = c.
Proof. induction a as [|x a IH]; simpl; [done|]. intros [= ?]. auto. Qed.

Lemma length_app_str (a b : string) : String.length (a ++ b) = String.length a + String.length b.
Proof. induction a as [|x a IH]; simpl; congruence. Qed.

Lemma app_nil_inv (a b : string) : a ++ b = "" → a = "" ∧ b = "".
Proof. destruct a; [done|discriminate]. Qed.

Lemma ascii_eqb_eq a b : Ascii.eqb a b = true ↔ a = b.
Proof. apply Ascii.eqb_eq. Qed.

Lemma strip_prefix_Some p s r : strip_prefix p s = Some r ↔ s = p ++ r.
Proof.
  revert s. induction p as [|a p IH]; intros s; simpl.
  - split; congruence.
  - destruct s as [|b s]; [split; discriminate|].
    destruct (Ascii.eqb_spec a b) as [->|Hab].
    + rewrite IH. split; congruence.
    + split; [discriminate|]. intros [= ? ?]. by destruct Hab.
Qed.

Lemma strip_prefix_app p r : strip_prefix p (p ++ r) = Some r.
Proof. by apply strip_prefix_Some. Qed.

Lemma starts_with_spec p s : starts_with p s = true ↔ ∃ r, s = p ++ r.
Proof.
  unfold starts_with. destruct (strip_prefix p s) as [r|] eqn:E.
  - apply strip_prefix_Some in E as ->. naive_solver.
  - split; [discriminate|]. intros [r ->]. by rewrite strip_prefix_app in E.
Qed.

Lemma starts_with_refl s : starts_with s s = true.
Proof. apply starts_with_spec. exists "". by rewrite app_empty_r. Qed.

Lemma starts_with_app p r : starts_with p (p ++ r) = true.
Proof. apply starts_with_spec. eauto. Qed.

Lemma starts_with_length p s : starts_with p s = true → (String.length p ≤ String.length s)%nat.
Proof. intros [r ->]%starts_with_spec. rewrite length_app_str. lia. Qed.

Lemma strip_prefix_length p s r : strip_prefix p s = Some r → (String.length s = String.length p + String.length r)%nat.
Proof.
  revert s. induction p as [|a p IH]; intros s; simpl; [by intros [= ->]|].
  destruct s as [|b s]; [done|]. destruct (Ascii.eqb a b); [|done]. intros H%IH. simpl. lia.
Qed.

Lemma trim_start_pat_fuel_enough pat s n m :
  pat ≠ "" → (String.length s ≤ n)%nat → (String.length s ≤ m)%nat →
  trim_start_pat_fuel n pat s = trim_start_pat_fuel m pat s.
Proof.
  intros Hp. revert s m. induction n as [|n IH]; intros s m Hn Hm.
  - destruct s; [|simpl in Hn; lia]. destruct pat; [done|]. by destruct m.
  - destruct m as [|m].
    { destruct s; [|simpl in Hm; lia]. by destruct pat. }
    simpl. destruct (strip_prefix pat s) as [r|] eqn:E; [|done]. apply strip_prefix_length in E.
    apply IH; destruct pat; simpl in *; [done|lia|done|lia].
Qed.

(** An occurrence of the pattern at the start is removed, whatever follows. *)
Lemma trim_start_pat_app pat s : pat ≠ "" → trim_start_pat pat (pat ++ s) = trim_start_pat pat s.
Proof.
  intros Hp. unfold trim_start_pat.
  rewrite (trim_start_pat_fuel_enough pat (pat ++ s) _ (S (String.length (pat ++ s)))) by (done || lia).
  simpl. rewrite strip_prefix_app. apply trim_start_pat_fuel_enough; [done| |lia].
  rewrite length_app_str. lia.
Qed.

(** The pattern is removed once when it does not follow itself. *)
Lemma trim_start_pat_once pat s :
  pat = "" ∨ starts_with pat s = false → trim_start_pat pat (pat ++ s) = s.
Proof.
  intros H. destruct (decide (pat = "")) as [->|Hp].
  - simpl. unfold trim_start_pat. generalize (String.length s). intros n. by induction n.
  - destruct H as [|H]; [done|]. rewrite trim_start_pat_app by done. unfold trim_start_pat, starts_with in *.
    destruct s; [done|]. simpl. by destruct (strip_prefix pat _).
Qed.

(** Two prefixes of one string are comparable. *)
Lemma starts_with_comparable p q s :
  starts_with p s = true → starts_with q s = true → (String.length p ≤ String.length q)%nat →
  starts_with p q = true.
Proof.
  rewrite !starts_with_spec. intros [r ->] [r' H]. revert q r' H.
  induction p as [|a p IH]; intros q r' H Hlen; [by exists q|].
  destruct q as [|b q]; simpl in *; [lia|]. injection H as -> H.
  destruct (IH q r' H) as [w ->]; [lia|]. by exists w.
Qed.

Lemma starts_with_antisym p q :
  starts_with p q = true → (String.length q ≤ String.length p)%nat → p = q.
Proof.
  intros [r ->]%starts_with_spec. rewrite length_app_str.
  destruct r; simpl; [by rewrite app_empty_r | lia].
Qed.

Lemma starts_with_trans p q s :
  starts_with p q = true → starts_with q s = true → starts_with p s = true.
Proof.
  rewrite !starts_with_spec. intros [r ->] [r' ->]. exists (r ++ r'). by rewrite app_assoc_str.
Qed.

Lemma starts_with_app_l p q s : starts_with (p ++ q) (p ++ s) = starts_with q s.
Proof.
  apply eq_bool_prop_intro. rewrite !Is_true_true, !starts_with_spec. split.
  - intros [r Hr]. rewrite <- app_assoc_str in Hr. apply app_inj_l in Hr. eauto.
  - intros [r ->]. exists r. apply app_assoc_str.
Qed.

Lemma remove_first_prefix p r : remove_first p (p ++ r) = r.
Proof.
  destruct (p ++ r) eqn:E; simpl; rewrite <- E, strip_prefix_app; done.
Qed.

Lemma ends_with_spec suf s : ends_with suf s = true ↔ ∃ r, s = r ++ suf.
Proof.
  induction s as [|a s IH]; simpl.
  - rewrite orb_false_r, String.eqb_eq. split.
    + intros ->. by exists "".
    + intros [r Hr]. symmetry in Hr. by apply app_nil_inv in Hr as [_ ->].
  - rewrite orb_true_iff, String.eqb_eq, IH. split.
    + intros [->|[r ->]]; [by exists ""|by exists (String a r)].
    + intros [[|b r] Hr]; simpl in Hr; [by left|]. injection Hr as -> ->. right. eauto.
Qed.

Lemma contains_spec pat s : contains pat s = true ↔ ∃ l r, s = l ++ pat ++ r.
Proof.
  induction s as [|a s IH]; simpl.
  - rewrite orb_false_r, starts_with_spec. split.
    + intros [r ->]. by exists "", r.
    + intros (l & r & H). symmetry in H. apply app_nil_inv in H as [_ H].
      exists r. done.
  - rewrite orb_true_iff, starts_with_spec, IH. split.
    + intros [[r ->]|(l & r & ->)]; [by exists "", r | by exists (String a l), r].
    + intros ([|b l] & r & H); simpl in H; [left; eauto|]. injection H as -> ->. right. eauto.
Qed.

Lemma starts_with_char_spec c s : starts_with_char c s = true ↔ ∃ r, s = String c r.
Proof.
  destruct s as [|a s]; simpl; [naive_solver|]. rewrite Ascii.eqb_eq. naive_solver.
Qed.

Lemma ends_with_char_spec c s : ends_with_char c s = true ↔ ∃ r, s = r ++ String c "".
Proof.
  induction s as [|a s IH]; simpl.
  - split; [done|]. intros [[|] ?]; discriminate.
  - destruct s as [|b s].
    + rewrite Ascii.eqb_eq. split; [intros ->; by exists ""|].
      intros [[|d r] H]; simpl in H; [congruence|]. injection H as -> H.
      symmetry in H. apply app_nil_inv in H as [_ H]. discriminate.
    + rewrite IH. split; [intros [r ->]; by exists (String a r)|].
      intros [[|d r] H]; simpl in H; [discriminate|]. injection H as -> ->. eauto.
Qed.

Lemma drop_last_snoc s c : drop_last (s ++ String c "") = s.
Proof.
  induction s as [|a s IH]; [done|]. cbn [String.append].
  destruct (s ++ String c "") as [|b t] eqn:E.
  - destruct s; discriminate.
  - change (drop_last (String a (String b t))) with (String a (drop_last (String b t))).
    by rewrite IH.
Qed.

Lemma split_char_cons c s : ∃ w ws, split_char c s = w :: ws.
Proof.
  induction s as [|a s (w & ws & IH)]; simpl; [eauto|]. destruct (Ascii.eqb a c); [eauto|].
  rewrite IH. eauto.
Qed.

Lemma is_empty_spec s : is_empty s = true ↔ s = "".
Proof. destruct s; naive_solver. Qed.

Lemma sort_strings_perm l : sort_strings l ≡ₚ l.
Proof. apply merge_sort_Permutation. Qed.

Lemma sort_strings_sorted l : StronglySorted String.le (sort_strings l).
Proof. apply StronglySorted_merge_sort; apply _. Qed.

Create Rewrite HintDb rust_str.
#[export] Hint Rewrite app_empty_r strip_prefix_app starts_with_refl starts_with_app
  remove_first_prefix drop_last_snoc : rust_str.
#[export] Hint Resolve starts_with_refl starts_with_app : rust.

(** ** Lower case *)

Lemma lower_ascii_idem a : lower_ascii (lower_ascii a) = lower_ascii a.
Proof. by destruct a as [[] [] [] [] [] [] [] []]. Qed.

Lemma to_lowercase_idem s : to_lowercase (to_lowercase s) = to_lowercase s.
Proof. induction s as [|a s IH]; simpl; [done|]. by rewrite lower_ascii_idem, IH. Qed.

Lemma is_empty_false s : s ≠ "" → is_empty s = false.
Proof. by destruct s. Qed.
