(* ===== verification/Utils.v ===== *)
(** * JSON values and the helpers of src/src/utils

    [Value] is serde_json's value type.  [Module StringUtils] translates
    src/src/utils/string.rs, [Module PolicyUtils] src/src/utils/policy.rs,
    [Module Misc] the path and subset helpers of src/src/utils/mod.rs. *)

From stdpp Require Import base tactics list sets strings sorting.
From Stdlib Require Import ZArith Lia Ascii.
From S2P Require Import Prelude RustStr.

Local Open Scope string_scope.

(** ** JSON *)

(** Integers keep their value; a float keeps its 64 bits. An object is the
    association list of its entries in key order. *)
Inductive Value : Type :=
  | VNull
  | VBool (b : bool)
  | VInt (z : Z)
  | VFloat (bits : Z)
  | VStr (s : string)
  | VArray (l : list Value)
  | VObject (m : list (string * Value)).

Fixpoint value_eqb (a b : Value) {struct a} : bool :=
  match a, b with
  | VNull, VNull => true
  | VBool a, VBool b => Bool.eqb a b
  | VInt a, VInt b => Z.eqb a b
  | VFloat a, VFloat b => Z.eqb a b
  | VStr a, VStr b => String.eqb a b
  | VArray a, VArray b =>
      (fix go (a b : list Value) : bool :=
         match a, b with
         | [], [] => true
         | x :: a, y :: b => value_eqb x y && go a b
         | _, _ => false
         end) a b
  | VObject a, VObject b =>
      (fix go (a b : list (string * Value)) : bool :=
         match a, b with
         | [], [] => true
         | (k, x) :: a, (k', y) :: b => String.eqb k k' && value_eqb x y && go a b
         | _, _ => false
         end) a b
  | _, _ => false
  end.

Definition as_str (v : Value) : option string := match v with VStr s => Some s | _ => None end.

(** ** src/src/utils/string.rs *)
Module StringUtils.

Definition blank (s : string) : bool := is_empty (trim s).

(** The [while] loop of the stable mode: [seen] is the set of strings kept. *)
Fixpoint remove_duplicates_stable (lowercase : bool) (seen strings : list string) : list string :=
  match strings with
  | [] => []
  | s :: rest =>
      let s := if lowercase then to_lowercase s else s in
      if blank s || bool_decide (s ∈ seen) then remove_duplicates_stable lowercase seen rest
      else s :: remove_duplicates_stable lowercase (s :: seen) rest
  end.

(** [Vec::dedup]: drop consecutive repetitions. *)
Fixpoint dedup (l : list string) : list string :=
  match l with
  | [] => []
  | x :: rest =>
      match dedup rest with
      | y :: r => if String.eqb x y then y :: r else x :: y :: r
      | [] => [x]
      end
  end.

Definition remove_duplicates (strings : list string) (stable lowercase : bool) : list string :=
  if stable then remove_duplicates_stable lowercase [] strings
  else
    let strings := if lowercase then map to_lowercase strings else strings in
    dedup (sort_strings (List.filter (fun s => negb (blank s)) strings)).

Definition is_slash (a : ascii) : bool := Ascii.eqb a slash.

Definition ensure_trailing_slash (s : string) : string :=
  let s := trim s in
  if is_empty s then "" else if ends_with_char slash s then s else s ++ "/".

Definition ensure_no_trailing_slash (s : string) : string :=
  let s := trim s in
  if is_empty s then "" else trim_end_matches is_slash s.

Definition ensure_no_leading_slash (s : string) : string :=
  let s := trim s in
  if is_empty s then "" else trim_start_matches is_slash s.

(** [item[1..]] of a string starting with the one-byte character [*]. *)
Definition drop_first (s : string) : string :=
  match s with EmptyString => EmptyString | String _ s => s end.

Definition globbed_strings_match (item val : string) : bool :=
  if (String.length item <? 2)%nat then String.eqb item val
  else
    let has_prefix := starts_with_char star item in
    let has_suffix := ends_with_char star item in
    if has_prefix && has_suffix then contains (drop_last (drop_first item)) val
    else if has_prefix then ends_with (drop_first item) val
    else if has_suffix then starts_with (drop_last item) val
    else String.eqb item val.

Fixpoint glob_contains_loop (self items : list Value) (val : Value) : bool :=
  match items with
  | [] => false
  | VStr item :: rest =>
      if globbed_strings_match item (default "" (as_str val)) then true
      else glob_contains_loop self rest val
  | _ :: _ => existsb (value_eqb val) self
  end.

Definition glob_contains (self : list Value) (val : Value) : bool :=
  match self with
  | [] => true
  | _ => glob_contains_loop self self val
  end.

End StringUtils.

(** ** src/src/utils/policy.rs *)
Module PolicyUtils.
Import StringUtils.

(** The [for] loop of [sanitize_policies]: ([root] was found, [default] was found). *)
Fixpoint scan_policies (policies : list string) (default_found : bool) : bool * bool :=
  match policies with
  | [] => (false, default_found)
  | p :: rest =>
      let q := to_lowercase (trim p) in
      if is_empty q then scan_policies rest default_found
      else if String.eqb q "root" then (true, true)
      else scan_policies rest (default_found || String.eqb q "default")
  end.

Definition sanitize_policies (policies : list string) (add_default : bool) : list string :=
  let '(root_found, default_found) := scan_policies policies false in
  let policies := if root_found then ["root"] else policies in
  let policies :=
    if add_default && (negb default_found || match policies with [] => true | _ => false end)
    then (policies ++ ["default"])%list else policies in
  remove_duplicates policies false true.

Definition equivalent_policies (a b : list string) : bool :=
  match a, b with
  | [], [] => true
  | [], [x] => String.eqb x "default"
  | [x], [] => String.eqb x "default"
  | [], _ | _, [] => false
  | _, _ =>
      let filtered l := remove_dups (List.filter (fun s => negb (String.eqb s "default")) l) in
      bool_decide (sort_strings (filtered a) = sort_strings (filtered b))
  end.

End PolicyUtils.

(** ** src/src/utils/mod.rs *)
Module Misc.

Definition is_str_subset (sub superset : list string) : bool :=
  forallb (fun item => bool_decide (item ∈ superset)) sub.

Definition is_protect_path (protected paths : list string) : bool :=
  existsb (fun p => existsb (fun path => starts_with p path) paths) protected.

End Misc.

(** ** Lemmas *)
Section lemmas.
Import StringUtils PolicyUtils.

Lemma elem_of_dedup x l : x ∈ dedup l ↔ x ∈ l.
Proof.
  induction l as [|y l IH]; [done|]. simpl.
  destruct (dedup l) as [|z r] eqn:E.
  - set_solver.
  - destruct (String.eqb_spec y z) as [->|Hyz]; set_solver.
Qed.

Lemma dedup_sorted l :
  StronglySorted String.le l → StronglySorted String.le (dedup l) ∧ NoDup (dedup l).
Proof.
  induction l as [|y l IH]; intros Hs; [split; constructor|].
  apply StronglySorted_inv in Hs as [Hs Hy]. destruct (IH Hs) as [IHs IHn]. simpl.
  assert (Forall (String.le y) (dedup l)) as Hy'.
  { apply Forall_forall. intros x Hx. rewrite Forall_forall in Hy. apply Hy.
    by apply elem_of_dedup. }
  destruct (dedup l) as [|z r] eqn:E; [split; repeat constructor; set_solver|].
  destruct (String.eqb_spec y z) as [->|Hyz]; [done|].
  split; [by constructor|]. apply NoDup_cons. split; [|done].
  intros [->|Hin]%elem_of_cons; [done|].
  apply StronglySorted_inv in IHs as [_ Hz]. rewrite Forall_forall in Hz.
  apply Forall_cons in Hy' as [Hyz' _]. apply Hyz.
  by apply (anti_symm String.le); [|apply Hz].
Qed.

Lemma elem_of_unstable x l lowercase :
  x ∈ remove_duplicates l false lowercase ↔
  blank x = false ∧ ∃ s, s ∈ l ∧ x = if lowercase then to_lowercase s else s.
Proof.
  unfold remove_duplicates. rewrite elem_of_dedup, (sort_strings_perm _).
  rewrite list_elem_of_In, filter_In, <- list_elem_of_In, negb_true_iff.
  destruct lowercase.
  - rewrite list_elem_of_In, in_map_iff. setoid_rewrite list_elem_of_In. naive_solver.
  - naive_solver.
Qed.

Lemma scan_policies_spec policies d :
  (fst (scan_policies policies d) = true ↔
     ∃ p, p ∈ policies ∧ to_lowercase (trim p) = "root") ∧
  (fst (scan_policies policies d) = false →
     snd (scan_policies policies d) =
       d || existsb (fun p => String.eqb (to_lowercase (trim p)) "default") policies) ∧
  (fst (scan_policies policies d) = true → snd (scan_policies policies d) = true).
Proof.
  revert d. induction policies as [|p policies IH]; intros d; simpl.
  { rewrite orb_false_r. split_and!; [set_solver | done | done]. }
  destruct (is_empty (to_lowercase (trim p))) eqn:He.
  - apply is_empty_spec in He. rewrite He. simpl. destruct (IH d) as (H1 & H2 & H3).
    split_and!; [|done|done]. rewrite H1. setoid_rewrite elem_of_cons. naive_solver congruence.
  - destruct (String.eqb_spec (to_lowercase (trim p)) "root") as [Hr|Hr]; simpl.
    + split_and!; [|done|done]. split; [|done]. intros _. exists p. split; [by left|done].
    + destruct (IH (d || String.eqb (to_lowercase (trim p)) "default")) as (H1 & H2 & H3).
      split_and!; [|intros; rewrite H2 by done; by rewrite <- orb_assoc | done].
      rewrite H1. setoid_rewrite elem_of_cons. naive_solver.
Qed.

End lemmas.

(** ** Properties *)
Section properties.
Import StringUtils PolicyUtils.

(** [sanitize_policies] collapses to exactly [root] when any entry is
    [root] up to case and surrounding blanks; otherwise its result is sorted,
    without repetition, and consists of the lower-cased non-blank entries plus
    [default] exactly when [add_default] is set and no entry is [default] up to
    case and surrounding blanks. *)
Theorem sanitize_policies_spec (policies : list string) (add_default : bool) :
  let out := sanitize_policies policies add_default in
  let has name := existsb (fun p => String.eqb (to_lowercase (trim p)) name) policies in
  (has "root" = true → out = ["root"]) ∧
  (has "root" = false →
     StronglySorted String.le out ∧ NoDup out ∧
     ∀ x, x ∈ out ↔
       (blank x = false ∧ ∃ p, p ∈ policies ∧ x = to_lowercase p) ∨
       (x = "default" ∧ add_default = true ∧ has "default" = false)).
Proof.
  intros out has.
  assert (∀ name, has name = true ↔ ∃ p, p ∈ policies ∧ to_lowercase (trim p) = name) as Hhas.
  { intros name. unfold has. rewrite existsb_exists. setoid_rewrite <- list_elem_of_In.
    by setoid_rewrite String.eqb_eq. }
  destruct (scan_policies_spec policies false) as (H1 & H2 & H3).
  unfold out, sanitize_policies.
  destruct (scan_policies policies false) as [r d]. cbn [fst snd] in *. split.
  - intros Hr%Hhas%H1. subst r. rewrite H3 by done. by destruct add_default.
  - intros Hr. assert (r = false) as ->.
    { destruct r; [|done]. enough (has "root" = true) by congruence. by apply Hhas, H1. }
    rewrite (H2 eq_refl) in *. change (existsb _ policies) with (has "default").
    match goal with |- context [remove_duplicates ?l _ _] => set (l' := l) end.
    unfold remove_duplicates at 1 2. destruct (dedup_sorted _ (sort_strings_sorted
      (List.filter (λ s, negb (blank s)) (map to_lowercase l')))) as [Hs Hn].
    split_and!; [done..|]. intros x. rewrite elem_of_unstable. unfold l'.
    destruct add_default; cbn [andb]; [|naive_solver].
    destruct (has "default") eqn:Hd; cbn [orb negb].
    + destruct policies; [done|]. naive_solver.
    + split.
      * intros (Hx & s & [Hs'|Hs']%elem_of_app & ->); [left; eauto|].
        apply list_elem_of_singleton in Hs' as ->. by right.
      * intros [(Hx & p & Hp & ->)|(-> & _)].
        -- split; [done|]. exists p. split; [set_solver|done].
        -- split; [done|]. exists "default". split; [set_solver|done].
Qed.

(** The glob matcher is exactly the documented language: a pattern of
    the form [*w*] matches the strings containing [w], [*w] those ending in [w],
    [w*] those starting with [w], and a pattern without an outer star (or of
    length below two) only itself. *)
Theorem globbed_strings_match_spec (w val : string) :
  (starts_with_char star w = false → ends_with_char star w = false →
     globbed_strings_match w val = String.eqb w val) ∧
  (globbed_strings_match ("*" ++ w ++ "*") val = true ↔ ∃ l r, val = l ++ w ++ r) ∧
  (w ≠ "" → ends_with_char star w = false →
     globbed_strings_match ("*" ++ w) val = true ↔ ∃ l, val = l ++ w) ∧
  (w ≠ "" → starts_with_char star w = false →
     globbed_strings_match (w ++ "*") val = true ↔ ∃ r, val = w ++ r).
Proof.
  assert (∀ u, ends_with_char star (u ++ "*") = true) as Hend.
  { intros u. apply ends_with_char_spec. by exists u. }
  unfold globbed_strings_match. split_and!.
  - intros H1 H2. rewrite H1, H2. simpl. by destruct (_ <? 2)%nat.
  - rewrite (proj2 (Nat.ltb_ge _ _)) by (rewrite !length_app_str; simpl; lia).
    rewrite (app_assoc_str "*" w "*") at 2. rewrite Hend. simpl.
    change (String "*" w ++ "*") with (String "*" (w ++ "*")). simpl.
    rewrite drop_last_snoc. apply contains_spec.
  - intros Hw H1. rewrite (proj2 (Nat.ltb_ge _ _)) by (destruct w; [done|simpl; lia]).
    assert (ends_with_char star ("*" ++ w) = false) as ->.
    { destruct w as [|a w]; [done|]. by rewrite <- H1. }
    simpl. apply ends_with_spec.
  - intros Hw H1. rewrite (proj2 (Nat.ltb_ge _ _)) by (rewrite length_app_str; destruct w; [done|simpl; lia]).
    rewrite Hend. assert (starts_with_char star (w ++ "*") = false) as ->.
    { destruct w as [|a w]; [done|]. by rewrite <- H1. }
    simpl. rewrite drop_last_snoc. apply starts_with_spec.
Qed.
End properties.
