(* ===== verification/Lease.v ===== *)
(** * Leases and TTL computation (src/src/logical/lease.rs)

    A [Duration] is its number of nanoseconds, a [SystemTime] the nanoseconds
    since the Unix epoch (negative before it).  [Duration] addition and
    subtraction panic outside the representable range, as in std.  The current
    time is an argument of the functions that read the clock. *)

From stdpp Require Import base tactics strings.
From Stdlib Require Import ZArith Lia.
From S2P Require Import Prelude Errors.

Local Open Scope Z_scope.

(** ** std::time *)
Definition NANOS : Z := 1000000000.
Definition DURATION_MAX : Z := (2 ^ 64 - 1) * NANOS + (NANOS - 1).

Abbreviation Duration := Z (only parsing).
Abbreviation SystemTime := Z (only parsing).

Definition is_duration (d : Duration) : Prop := 0 <= d <= DURATION_MAX.

Definition from_secs (s : Z) : Duration := s * NANOS.
Definition as_secs (d : Duration) : Z := d / NANOS.
Definition UNIX_EPOCH : SystemTime := 0.

Definition dur_add (a b : Duration) : result Duration :=
  if a + b <=? DURATION_MAX then Ok (a + b) else Panic.
Definition dur_sub (a b : Duration) : result Duration :=
  if b <=? a then Ok (a - b) else Panic.

(** [t.duration_since(UNIX_EPOCH)]. *)
Definition since_epoch (t : SystemTime) : option Duration := if 0 <=? t then Some t else None.

Module Lease.

Record Lease := {
  ttl : Duration;
  max_ttl : Duration;
  renewable : bool;
  increment : Duration;
  issue_time : option SystemTime
}.

Definition enabled (self : Lease) : bool := 0 <? as_secs (ttl self).

(** [SystemTime + Duration]. *)
Definition expiration_time (now : SystemTime) (self : Lease) : SystemTime :=
  if enabled self then now + ttl self else UNIX_EPOCH.

Definition max_ttl_error : RvError := ErrString "max TTL must be greater than zero".
Definition past_max_ttl_error : RvError := ErrString "past the max TTL, cannot renew".

(** The two caps on the system's maximum TTL. *)
Definition effective_max_ttl (max_lease_ttl backend_max_ttl explicit_max_ttl : Duration) : Duration :=
  let max_ttl := max_lease_ttl in
  let max_ttl := if (0 <? backend_max_ttl) && (backend_max_ttl <? max_ttl)
                 then backend_max_ttl else max_ttl in
  if (0 <? explicit_max_ttl) && (explicit_max_ttl <? max_ttl) then explicit_max_ttl else max_ttl.

Definition calculate_ttl (now_time : SystemTime)
    (max_lease_ttl default_lease_ttl increment period backend_ttl backend_max_ttl
     explicit_max_ttl : Duration) (start_time : SystemTime) : result Duration :=
  let now := match since_epoch now_time with Some d => as_secs d | None => 0 end in
  let start_time := match since_epoch start_time with Some d => as_secs d | None => now end in
  let max_ttl := effective_max_ttl max_lease_ttl backend_max_ttl explicit_max_ttl in
  if max_ttl <=? 0 then Err max_ttl_error
  else
    let? (ttl, max_valid_time) :=
      (if 0 <? period then
         let ttl := if max_ttl <? period then max_ttl else period in
         if 0 <? explicit_max_ttl then
           let? m := dur_add (from_secs start_time) explicit_max_ttl in Ok (ttl, m)
         else Ok (ttl, 0)
       else
         let ttl := if 0 <? increment then increment
                    else if 0 <? backend_ttl then backend_ttl else default_lease_ttl in
         let? m := dur_add (from_secs start_time) max_ttl in Ok (ttl, m))
    in
    if max_valid_time =? 0 then Ok ttl
    else
      let? max_valid_ttl := dur_sub max_valid_time (from_secs now) in
      if max_valid_ttl <=? 0 then Err past_max_ttl_error
      else Ok (if max_valid_ttl <? ttl then max_valid_ttl else ttl).

(** ** Lemmas *)

Lemma effective_max_ttl_bounds m b e :
  0 <= m → 0 <= b → 0 <= e →
  let r := effective_max_ttl m b e in
  0 <= r <= m ∧ (0 < b → r <= b) ∧ (0 < e → r <= e) ∧ (r = 0 ↔ m = 0).
Proof.
  intros Hm Hb He r. unfold r, effective_max_ttl.
  repeat case_match; rewrite ?andb_true_iff, ?andb_false_iff, ?Z.ltb_lt, ?Z.ltb_ge in *; lia.
Qed.

Lemma as_secs_range d : is_duration d → 0 <= as_secs d <= 2 ^ 64 - 1.
Proof.
  unfold is_duration, as_secs, DURATION_MAX, NANOS. intros H. split.
  - apply Z.div_pos; lia.
  - apply Z.lt_succ_r, Z.div_lt_upper_bound; lia.
Qed.

Ltac lease_cases :=
  repeat (case_match; simplify_eq/=);
  rewrite ?Z.leb_le, ?Z.leb_gt, ?Z.ltb_lt, ?Z.ltb_ge, ?Z.eqb_eq, ?Z.eqb_neq in *.

(** ** Properties *)
Section properties.
Variables (now start : Z).
Variables (max_lease_ttl default_lease_ttl increment period backend_ttl backend_max_ttl
           explicit_max_ttl : Duration).
Hypothesis Hnow : is_duration now.
Hypothesis Hstart : is_duration start.
Hypothesis Hmax : is_duration max_lease_ttl.
Hypothesis Hbmax : is_duration backend_max_ttl.
Hypothesis Hemax : is_duration explicit_max_ttl.
Hypothesis Hperiod : is_duration period.

Let now_s := from_secs (as_secs now).
Let start_s := from_secs (as_secs start).
Let cap := effective_max_ttl max_lease_ttl backend_max_ttl explicit_max_ttl.
Let run := calculate_ttl now max_lease_ttl default_lease_ttl increment period backend_ttl
             backend_max_ttl explicit_max_ttl start.

(** C39: a granted TTL never outlives its limits: the end of a
    non-periodic lease is at most the issue time plus the smallest of the
    system, backend and explicit maximum TTLs (to the second); a periodic one
    gets at most the period and at most those maxima, and ends within an
    explicit maximum counted from the issue time. *)
Theorem calculate_ttl_bounded (ttl : Duration) :
  run = Ok ttl →
  (period = 0 → now_s + ttl <= start_s + cap ∧ cap <= max_lease_ttl ∧
     (0 < backend_max_ttl → cap <= backend_max_ttl) ∧
     (0 < explicit_max_ttl → cap <= explicit_max_ttl)) ∧
  (0 < period → ttl <= period ∧ ttl <= cap ∧
     (0 < explicit_max_ttl → now_s + ttl <= start_s + explicit_max_ttl)).
Proof.
  unfold run, calculate_ttl. fold cap.
  assert (since_epoch now = Some now) as ->
    by (unfold since_epoch; rewrite (proj2 (Z.leb_le _ _)); [done|apply Hnow]).
  assert (since_epoch start = Some start) as ->
    by (unfold since_epoch; rewrite (proj2 (Z.leb_le _ _)); [done|apply Hstart]).
  destruct (effective_max_ttl_bounds max_lease_ttl backend_max_ttl explicit_max_ttl)
    as (Hc1 & Hc2 & Hc3 & _); [apply Hmax|apply Hbmax|apply Hemax|]. fold cap in Hc1, Hc2, Hc3.
  fold now_s start_s. destruct Hperiod as [Hp _].
  assert (0 <= start_s) by (unfold start_s, from_secs, NANOS; pose proof (as_secs_range start Hstart); lia).
  unfold dur_add, dur_sub. intros Hrun. lease_cases; lia.
Qed.

(** What [calculate_ttl] does at and after the deadline: at the
    deadline it returns the documented error, but past it the subtraction of
    durations underflows, so renewing a lease beyond its maximum TTL panics
    instead of reporting "past the max TTL, cannot renew". *)
Theorem calculate_ttl_past_max :
  0 < cap → period = 0 → start_s + cap <= DURATION_MAX →
  (now_s = start_s + cap → run = Err past_max_ttl_error) ∧
  (start_s + cap < now_s → run = Panic) ∧
  (now_s < start_s + cap → ∃ ttl, run = Ok ttl).
Proof.
  intros Hcap Hper Hov. unfold run, calculate_ttl. fold cap.
  assert (since_epoch now = Some now) as ->
    by (unfold since_epoch; rewrite (proj2 (Z.leb_le _ _)); [done|apply Hnow]).
  assert (since_epoch start = Some start) as ->
    by (unfold since_epoch; rewrite (proj2 (Z.leb_le _ _)); [done|apply Hstart]).
  fold now_s start_s. rewrite Hper. simpl.
  assert (0 <= start_s) by (unfold start_s, from_secs, NANOS; pose proof (as_secs_range start Hstart); lia).
  unfold dur_add, dur_sub. rewrite (proj2 (Z.leb_gt _ _)) by lia.
  rewrite (proj2 (Z.leb_le (start_s + cap) _)) by lia.
  assert ((start_s + cap =? 0) = false) as -> by (apply Z.eqb_neq; lia).
  split_and!; intros Hn; lease_cases; try lia; try done; eauto.
Qed.
End properties.

(** A lease issued at second 1000 for one hour, renewed at second 2000. *)
Lemma calculate_ttl_bounded_witness :
  calculate_ttl (from_secs 2000) (from_secs 7200) (from_secs 3600) (from_secs 9000) 0 0
    (from_secs 3600) 0 (from_secs 1000) = Ok (from_secs 2600) ∧
  from_secs (as_secs (from_secs 2000)) + from_secs 2600 <=
    from_secs (as_secs (from_secs 1000)) + effective_max_ttl (from_secs 7200) (from_secs 3600) 0.
Proof.
  assert (∀ s, 0 <= s <= 10000 → is_duration (from_secs s)) as Hd.
  { unfold is_duration, from_secs, DURATION_MAX, NANOS. intros. lia. }
  split; [reflexivity|].
  destruct (calculate_ttl_bounded (from_secs 2000) (from_secs 1000) (from_secs 7200) (from_secs 3600)
    (from_secs 9000) 0 0 (from_secs 3600) 0) with (ttl := from_secs 2600) as [H _];
    [apply Hd; lia | apply Hd; lia | apply Hd; lia | apply Hd; lia | apply (Hd 0); lia
     | apply (Hd 0); lia | reflexivity |].
  by apply H.
Defined.

(** A one-hour lease issued at second 1000 and renewed at second 5000. *)
Lemma calculate_ttl_past_max_witness :
  calculate_ttl (from_secs 5000) (from_secs 3600) (from_secs 3600) 0 0 0 0 0 (from_secs 1000) = Panic.
Proof.
  assert (∀ s, 0 <= s <= 10000 → is_duration (from_secs s)) as Hd.
  { unfold is_duration, from_secs, DURATION_MAX, NANOS. intros. lia. }
  apply (calculate_ttl_past_max (from_secs 5000) (from_secs 1000) (from_secs 3600) (from_secs 3600)
    0 0 0 0 0); try (apply Hd; lia); try (apply (Hd 0); lia); by vm_compute.
Defined.

End Lease.
