(* ===== verification/Storage.v ===== *)
(** * The storage stack: physical backends and the AES-GCM barrier

    [Backend] is the trait of src/src/storage/mod.rs with its contract
    [BackendSpec]; [Module MockBackend] is src/src/storage/physical/mock.rs;
    [Module AESGCMBarrier] translates src/src/storage/barrier_aes_gcm.rs;
    [Storage] is the trait the rest of the program uses and [StorageSpec] the
    contract its clients are proved against. *)

From stdpp Require Import base tactics list sets gmap strings.
From Stdlib Require Import ZArith Lia Ascii.
From S2P Require Import Prelude Errors RustStr.

Local Open Scope string_scope.

Abbreviation bytes := (list byte).

(** ** The traits *)

Record BackendEntry := { be_key : string; be_value : bytes }.
Record StorageEntry := { se_key : string; se_value : bytes }.

(** [trait Backend]. *)
Class Backend (S : Type) : Type := {
  backend_list : S -> string -> result (list string);
  backend_get : S -> string -> result (option BackendEntry);
  backend_put : S -> BackendEntry -> S * result unit;
  backend_delete : S -> string -> S * result unit
}.

(** [trait Storage]. *)
Class Storage (S : Type) : Type := {
  storage_list : S -> string -> result (list string);
  storage_get : S -> string -> result (option StorageEntry);
  storage_put : S -> StorageEntry -> S * result unit;
  storage_delete : S -> string -> S * result unit
}.

(** ** Contracts *)

Definition no_slash (s : string) : Prop := find_char slash s = None.

(** A directory prefix: empty, or ending in a slash. *)
Definition dir_path (p : string) : Prop := p = "" \/ exists q, p = q ++ "/".

Lemma find_char_None_app d r : no_slash d → find_char slash (d ++ "/" ++ r) = Some (String.length d).
Proof.
  unfold no_slash. induction d as [|a d IH]; simpl; [done|].
  destruct (Ascii.eqb a slash); [done|]. destruct (find_char slash d); [done|].
  intros _. simpl in IH. by rewrite IH.
Qed.

Lemma find_char_Some_inv s i :
  find_char slash s = Some i →
  ∃ d r, no_slash d ∧ s = d ++ "/" ++ r ∧ String.length d = i.
Proof.
  revert i. induction s as [|a s IH]; intros i; simpl; [done|].
  destruct (Ascii.eqb_spec a slash) as [->|Ha].
  - intros [= <-]. by exists "", s.
  - destruct (find_char slash s) as [j|] eqn:E; [|done]. intros [= <-].
    destruct (IH j eq_refl) as (d & r & Hd & -> & <-). exists (String a d), r.
    split_and!; [|done|done]. unfold no_slash. simpl.
    rewrite (proj2 (Ascii.eqb_neq a slash) Ha). unfold no_slash in Hd. by rewrite Hd.
Qed.

Lemma substring_app d r : String.substring 0 (String.length d + 1) (d ++ "/" ++ r) = d ++ "/".
Proof. induction d as [|a d IH]; simpl in *; [by destruct r|]. by rewrite IH. Qed.

Lemma no_slash_app_slash d : ¬ no_slash (d ++ "/").
Proof.
  unfold no_slash. induction d as [|a d IH]; simpl; [done|].
  destruct (Ascii.eqb a slash); [done|]. by destruct (find_char slash (d ++ "/")).
Qed.

Lemma no_slash_app_inj d d' r r' :
  no_slash d → no_slash d' → d ++ "/" ++ r = d' ++ "/" ++ r' → d = d'.
Proof.
  intros Hd Hd' He. pose proof (find_char_None_app d r Hd) as H1.
  rewrite He, (find_char_None_app d' r' Hd') in H1. injection H1 as H1.
  assert (d ++ "/" = d' ++ "/") as H2.
  { rewrite <- (substring_app d r), <- (substring_app d' r'), He, H1. done. }
  apply (f_equal drop_last) in H2. by autorewrite with rust_str in H2.
Qed.

Lemma no_slash_or s : no_slash s ∨ ∃ d r, no_slash d ∧ s = d ++ "/" ++ r.
Proof.
  destruct (find_char slash s) as [i|] eqn:E; [right|by left].
  apply find_char_Some_inv in E as (d & r & Hd & -> & _). eauto.
Qed.

Lemma dir_path_app a b : dir_path a → dir_path b → dir_path (a ++ b).
Proof.
  intros Ha [->|[q ->]].
  - by rewrite app_empty_r.
  - right. exists (a ++ q). by rewrite app_assoc_str.
Qed.

(** [l] is a listing of directory [p] of the key space [keys]: the names directly
    below [p] are exactly the keys there; every directory on the way to a key is
    listed with its slash, and every listed directory is one of [dirs] (which
    may contain directories that have become empty). *)
Record listing (keys : gset string) (dirs : list string) (p : string) (l : list string) : Prop := {
  listing_names name : no_slash name -> (name ∈ l <-> (p ++ name) ∈ keys);
  listing_dirs d rest : no_slash d -> (p ++ d ++ "/" ++ rest) ∈ keys -> (d ++ "/") ∈ l;
  listing_known d : (d ++ "/") ∈ l -> no_slash d /\ (p ++ d ++ "/") ∈ dirs;
  listing_nodup : NoDup l;
  listing_shape x : x ∈ l -> no_slash x \/ exists d, x = d ++ "/"
}.

(** What a backend promises: a finite map from (valid) keys to values that
    [get], [put] and [delete] read and update, and directory listings of it. *)
Class BackendSpec (S : Type) `{Backend S} : Type := {
  contents : S -> gmap string bytes;
  backend_dirs : S -> list string;
  backend_key_ok : string -> Prop;
  backend_get_spec s k : backend_key_ok k ->
    backend_get s k = Ok ((fun v => {| be_key := k; be_value := v |}) <$> contents s !! k);
  backend_put_spec s e : backend_key_ok (be_key e) ->
    exists s', backend_put s e = (s', Ok tt) /\
               contents s' = <[be_key e := be_value e]> (contents s) /\
               (forall d, d ∈ backend_dirs s' ->
                          d ∈ backend_dirs s \/ starts_with d (be_key e) = true);
  backend_delete_spec s k : backend_key_ok k ->
    exists s', backend_delete s k = (s', Ok tt) /\ contents s' = delete k (contents s) /\
               backend_dirs s' ⊆ backend_dirs s;
  backend_list_spec s p : dir_path p -> starts_with_char slash p = false ->
    exists l, backend_list s p = Ok l /\ listing (dom (contents s)) (backend_dirs s) p l;
  backend_contents_ok s k : is_Some (contents s !! k) -> backend_key_ok k;
  backend_init_path_ok : backend_key_ok "barrier/init"
}.

(** The same promise one level up, for storages that may refuse service:
    [storage_ready] is the state in which they serve.  A key can be present
    (and be listed) without being readable, so the keys are kept apart from the
    readable entries. *)
Class StorageSpec (S : Type) `{Storage S} : Type := {
  storage_ready : S -> Prop;
  storage_keys : S -> gset string;
  storage_map : S -> gmap string bytes;
  storage_dirs : S -> list string;
  storage_key_ok : string -> Prop;
  storage_get_spec s k v : storage_ready s -> storage_key_ok k ->
    storage_map s !! k = Some v <-> storage_get s k = Ok (Some {| se_key := k; se_value := v |});
  storage_get_key s k e : storage_get s k = Ok (Some e) -> se_key e = k;
  storage_get_none s k : storage_ready s -> storage_key_ok k ->
    k ∉ storage_keys s -> storage_get s k = Ok None;
  storage_put_spec s k v : storage_ready s -> storage_key_ok k ->
    exists s', storage_put s {| se_key := k; se_value := v |} = (s', Ok tt) /\ storage_ready s' /\
               storage_map s' = <[k := v]> (storage_map s) /\
               storage_keys s' = {[k]} ∪ storage_keys s /\
               (forall d, d ∈ storage_dirs s' -> d ∈ storage_dirs s \/ starts_with d k = true);
  storage_delete_spec s k : storage_ready s -> storage_key_ok k ->
    exists s', storage_delete s k = (s', Ok tt) /\ storage_ready s' /\
               storage_map s' = delete k (storage_map s) /\
               storage_keys s' = storage_keys s ∖ {[k]} /\
               storage_dirs s' ⊆ storage_dirs s;
  storage_list_spec s p : storage_ready s -> dir_path p -> starts_with_char slash p = false ->
    exists l, storage_list s p = Ok l /\ listing (storage_keys s) (storage_dirs s) p l;
  storage_keys_ok s k : storage_ready s -> k ∈ storage_keys s -> storage_key_ok k;
  storage_map_keys s : dom (storage_map s) ⊆ storage_keys s
}.

Module MockBackend.

Definition t : Type := unit.

Definition list_ (_ : t) (_prefix : string) : result (list string) := Ok [].
Definition get (_ : t) (_k : string) : result (option BackendEntry) := Ok None.
Definition put (s : t) (_entry : BackendEntry) : t * result unit := (s, Ok tt).
Definition delete (s : t) (_k : string) : t * result unit := (s, Ok tt).

#[global] Instance backend : Backend t :=
  {| backend_list := list_; backend_get := get; backend_put := put; backend_delete := delete |}.

End MockBackend.

(** A backend that is its own contents, to run the model on concrete data. *)
Module MemBackend.

Definition t : Type := gmap string (bytes).

Definition child (prefix key : string) : option string :=
  match strip_prefix prefix key with
  | None => None
  | Some rest =>
      match find_char slash rest with
      | Some i => Some (String.substring 0 (i + 1) rest)
      | None => Some rest
      end
  end.

#[global] Instance backend : Backend t :=
  {| backend_list := fun m prefix => Ok (remove_dups (omap (child prefix) (map fst (map_to_list m))));
     backend_get := fun m k => Ok ((fun v => {| be_key := k; be_value := v |}) <$> m !! k);
     backend_put := fun m e => (<[be_key e := be_value e]> m, Ok tt);
     backend_delete := fun m k => (base.delete k m, Ok tt) |}.

(** The directory prefixes of a key. *)
Fixpoint slash_prefixes (k : string) : list string :=
  match k with
  | EmptyString => []
  | String a k =>
      let rest := map (String a) (slash_prefixes k) in
      if Ascii.eqb a slash then String a "" :: rest else rest
  end.

Definition dirs (m : t) : list string := flat_map slash_prefixes (map fst (map_to_list m)).

Lemma slash_prefixes_app x r : (x ++ "/") ∈ slash_prefixes (x ++ "/" ++ r).
Proof.
  induction x as [|a x IH]; simpl.
  - apply list_elem_of_here.
  - assert (String a (x ++ "/") ∈ map (String a) (slash_prefixes (x ++ "/" ++ r))) as Hin.
    { apply list_elem_of_In, in_map, list_elem_of_In, IH. }
    destruct (Ascii.eqb a slash); [by apply list_elem_of_further|done].
Qed.

Lemma child_spec p k x :
  child p k = Some x ↔
  (no_slash x ∧ k = p ++ x) ∨ (∃ d r, no_slash d ∧ x = d ++ "/" ∧ k = p ++ d ++ "/" ++ r).
Proof.
  unfold child. destruct (strip_prefix p k) as [rest|] eqn:E.
  - apply strip_prefix_Some in E as ->. destruct (find_char slash rest) as [i|] eqn:F.
    + pose proof F as F'. apply find_char_Some_inv in F' as (d & r & Hd & -> & <-).
      rewrite substring_app. split.
      * intros [= <-]. right. eauto.
      * intros [[Hx Hk]|(d' & r' & Hd' & -> & Hk)]; apply app_inj_l in Hk.
        -- subst x. unfold no_slash in Hx. congruence.
        -- rewrite Hk in F. rewrite (find_char_None_app d' r' Hd') in F.
           injection F as F. rewrite <- (substring_app d r), Hk, <- F, substring_app. done.
    + split.
      * intros [= <-]. left. done.
      * intros [[Hx Hk]|(d' & r' & Hd' & -> & Hk)]; apply app_inj_l in Hk.
        -- by subst.
        -- subst rest. by rewrite find_char_None_app in F.
  - split; [done|]. intros [[_ ->]|(d & r & _ & _ & ->)]; by autorewrite with rust_str in E.
Qed.

Lemma elem_of_children (m : t) p x :
  x ∈ remove_dups (omap (child p) (map fst (map_to_list m))) ↔
  ∃ k, is_Some (m !! k) ∧ child p k = Some x.
Proof.
  rewrite elem_of_remove_dups, list_elem_of_omap. split.
  - intros (k & Hk & Hc). apply list_elem_of_In, in_map_iff in Hk as ([k' v] & <- & Hin).
    apply list_elem_of_In, elem_of_map_to_list in Hin. eauto.
  - intros (k & [v Hv] & Hc). exists k. split; [|done].
    apply list_elem_of_In, in_map_iff. exists (k, v). split; [done|].
    by apply list_elem_of_In, elem_of_map_to_list.
Qed.

Lemma elem_of_dirs (m : t) x r : is_Some (m !! (x ++ "/" ++ r)) → (x ++ "/") ∈ dirs m.
Proof.
  intros [v Hv]. unfold dirs. apply list_elem_of_In, in_flat_map. exists (x ++ "/" ++ r).
  split; [|apply list_elem_of_In, slash_prefixes_app].
  apply in_map_iff. exists (x ++ "/" ++ r, v). split; [done|].
  by apply list_elem_of_In, elem_of_map_to_list.
Qed.

(** Any list of the children of [p], each once, is a listing. *)
Lemma listing_of_children (m : t) p l :
  NoDup l → (∀ x, x ∈ l ↔ ∃ k, is_Some (m !! k) ∧ child p k = Some x) → listing (dom m) (dirs m) p l.
Proof.
  intros Hnd Hl. split; [| | |done|]; setoid_rewrite Hl;
    [setoid_rewrite elem_of_dom|setoid_rewrite elem_of_dom|..].
  - intros name Hn. setoid_rewrite child_spec. split.
    + intros (k & Hk & [[_ ->]|(d & r & _ & -> & _)]); [done|]. by destruct (no_slash_app_slash d).
    + intros Hs. eauto.
  - intros d rest Hd Hs. setoid_rewrite child_spec. eauto 10.
  - intros d. setoid_rewrite child_spec.
    intros (k & Hk & [[Hns _]|(d' & r & Hd' & Hdd & ->)]); [by destruct (no_slash_app_slash d)|].
    assert (d = d') as ->.
    { apply (f_equal drop_last) in Hdd. by autorewrite with rust_str in Hdd. }
    split; [done|]. rewrite app_assoc_str. apply (elem_of_dirs m (p ++ d') r).
    by rewrite <- app_assoc_str.
  - intros x. setoid_rewrite child_spec.
    intros (k & _ & [[? _]|(d & r & _ & -> & _)]); eauto.
Qed.

Lemma children_listing (m : t) p :
  listing (dom m) (dirs m) p (remove_dups (omap (child p) (map fst (map_to_list m)))).
Proof. apply listing_of_children; [apply NoDup_remove_dups|]. intros x. apply elem_of_children. Qed.

Lemma slash_prefixes_prefix k d : d ∈ slash_prefixes k → starts_with d k = true.
Proof.
  revert d. induction k as [|a k IH]; intros d; simpl; [by intros ?%not_elem_of_nil|].
  assert (d ∈ map (String a) (slash_prefixes k) → starts_with d (String a k) = true) as Hm.
  { intros (d' & <- & Hd')%list_elem_of_In%in_map_iff.
    apply list_elem_of_In, IH, starts_with_spec in Hd' as [r ->]. apply starts_with_spec. by exists r. }
  destruct (Ascii.eqb a slash) eqn:E; [|done]. intros [->|?]%elem_of_cons; [|auto].
  apply starts_with_spec. by exists k.
Qed.

Lemma dirs_insert (m : t) k v d : d ∈ dirs (<[k := v]> m) → d ∈ dirs m ∨ starts_with d k = true.
Proof.
  unfold dirs. rewrite !list_elem_of_In, !in_flat_map. intros (k' & Hk' & Hd).
  apply in_map_iff in Hk' as ([k2 x] & <- & Hin).
  apply list_elem_of_In, elem_of_map_to_list, lookup_insert_Some in Hin as [[<- _]|[_ Hin]]; simpl in Hd.
  - right. by apply slash_prefixes_prefix, list_elem_of_In.
  - left. exists k2. split; [|done]. apply in_map_iff. exists (k2, x). split; [done|].
    by apply list_elem_of_In, elem_of_map_to_list.
Qed.

Lemma dirs_delete (m : t) k : dirs (delete k m) ⊆ dirs m.
Proof.
  unfold dirs. intros x. rewrite !list_elem_of_In, !in_flat_map.
  intros (k' & Hk' & Hx). exists k'. split; [|done].
  apply in_map_iff in Hk' as ([k2 v] & <- & Hin).
  apply list_elem_of_In, elem_of_map_to_list, lookup_delete_Some in Hin as [_ Hin].
  apply in_map_iff. exists (k2, v). split; [done|]. by apply list_elem_of_In, elem_of_map_to_list.
Qed.

#[global] Program Instance backend_spec : BackendSpec t :=
  {| contents := fun m => m; backend_dirs := dirs; backend_key_ok := fun _ => True |}.
Next Obligation. done. Qed.
Next Obligation. intros. eexists. split_and!; [done..|]. intros d. apply dirs_insert. Qed.
Next Obligation. intros s k _. eexists. split_and!; [done..|]. apply dirs_delete. Qed.
Next Obligation. intros. eexists. split; [done|]. apply children_listing. Qed.
Next Obligation. done. Qed.
Next Obligation. done. Qed.

End MemBackend.

(** ** OpenSSL's AES-256-GCM and SHA-256, as the barrier uses them

    [gcm_init] is [Crypter::new], [gcm_seal]/[gcm_open] the update and finalize
    calls with their tag; a failing call is [None]. *)
Class AesGcm : Type := {
  gcm_iv_len : nat;
  gcm_init : bytes -> option (bytes) -> bool;
  gcm_seal : bytes -> option (bytes) -> option string -> bytes ->
             option (bytes * bytes);
  gcm_open : bytes -> option (bytes) -> option string -> bytes -> bytes ->
             option (bytes)
}.

(** Documented behaviour: sealing succeeds once the cipher is initialised, the
    tag has 16 bytes, and opening under the same key, nonce and associated data
    returns the plaintext. *)
Class AesGcmLaws `{AesGcm} : Prop := {
  gcm_seal_total k iv aad pt : gcm_init k iv = true -> is_Some (gcm_seal k iv aad pt);
  gcm_tag_len k iv aad pt ct tag : gcm_seal k iv aad pt = Some (ct, tag) -> length tag = 16;
  gcm_open_seal k iv aad pt ct tag :
    gcm_seal k iv aad pt = Some (ct, tag) -> gcm_open k iv aad ct tag = Some pt
}.

Class Sha256 : Type := sha256 : bytes -> bytes.

Definition EPOCH_SIZE : nat := 4.
Definition KEY_EPOCH : byte := x01.
Definition AES_GCM_VERSION1 : byte := x01.
Definition AES_GCM_VERSION2 : byte := x02.
Definition AES_BLOCK_SIZE : nat := 16.
Definition BARRIER_INIT_PATH : string := "barrier/init".

Record BarrierInit := { bi_version : Z; bi_key : bytes }.

Module AESGCMBarrier.

Record BarrierInfo := {
  sealed : bool;
  key : option (bytes);
  aes_gcm_version_byte : byte
}.

Definition default_info : BarrierInfo :=
  {| sealed := true; key := None; aes_gcm_version_byte := AES_GCM_VERSION2 |}.

(** The barrier over a backend state [B]; [draws] counts the buffers taken from
    the random number generator. *)
Record t (B : Type) := Barrier { info : BarrierInfo; backend : B; draws : nat }.
Arguments Barrier {B}.
Arguments info {B}.
Arguments backend {B}.
Arguments draws {B}.

Section barrier.
Context {B : Type} `{HB : Backend B} `{HG : AesGcm} `{HR : Rng} `{HS : Serde BarrierInit} `{HH : Sha256}.

Definition new (physical : B) : t B := Barrier default_info physical 0.

Definition set_info (s : t B) (i : BarrierInfo) : t B := Barrier i (backend s) (draws s).
Definition set_backend (s : t B) (b : B) : t B := Barrier (info s) b (draws s).

(** [thread_rng().fill(buf)] for a buffer of [n] bytes. *)
Definition draw (n : nat) (s : t B) : t B * bytes :=
  (Barrier (info s) (backend s) (S (draws s)), fill_bytes (draws s) n).

Definition init_cipher (s : t B) (k : bytes) : t B :=
  set_info s {| sealed := sealed (info s); key := Some k;
                aes_gcm_version_byte := aes_gcm_version_byte (info s) |}.

Definition reset_cipher (s : t B) : t B :=
  set_info s {| sealed := sealed (info s); key := None;
                aes_gcm_version_byte := aes_gcm_version_byte (info s) |}.

Definition set_sealed (s : t B) (b : bool) : t B :=
  set_info s {| sealed := b; key := key (info s);
                aes_gcm_version_byte := aes_gcm_version_byte (info s) |}.

Definition encrypt (path : string) (plaintext : bytes) : st (t B) RvError (bytes) := fun s =>
  match key (info s) with
  | None => (s, Err ErrBarrierNotInit)
  | Some k =>
      let '(s, iv) :=
        if (gcm_iv_len =? 0)%nat then (s, None)
        else let '(s, nonce) := draw gcm_iv_len s in (s, Some nonce) in
      if gcm_init k iv then
        let aad := if Byte.eqb (aes_gcm_version_byte (info s)) AES_GCM_VERSION2
                   then Some path else None in
        match gcm_seal k iv aad plaintext with
        | None => (s, Err OpenSSL)
        | Some (ct, tag) =>
            (s, Ok ([x00; x00; x00; KEY_EPOCH; aes_gcm_version_byte (info s)]
                    ++ default [] iv ++ ct ++ tag)%list)
        end
      else (s, Err OpenSSL)
  end.

(** [v[lo..hi]]: panics when the range is not inside the slice. *)
Definition slice (v : bytes) (lo hi : nat) : result (bytes) :=
  if (lo <=? hi)%nat && (hi <=? length v)%nat then Ok (take (hi - lo) (drop lo v)) else Panic.

Definition index (v : bytes) (i : nat) : result byte :=
  match v !! i with Some b => Ok b | None => Panic end.

(** The epoch test reads the bytes left to right and stops at a mismatch. *)
Definition epoch_matches (ciphertext : bytes) : result bool :=
  let? b0 := index ciphertext 0 in
  if negb (Byte.eqb b0 x00) then Ok false else
  let? b1 := index ciphertext 1 in
  if negb (Byte.eqb b1 x00) then Ok false else
  let? b2 := index ciphertext 2 in
  if negb (Byte.eqb b2 x00) then Ok false else
  let? b3 := index ciphertext 3 in
  Ok (Byte.eqb b3 KEY_EPOCH).

Definition decrypt (s : t B) (path : string) (ciphertext : bytes) : result (bytes) :=
  match key (info s) with
  | None => Err ErrBarrierNotInit
  | Some k =>
      let? epoch_ok := epoch_matches ciphertext in
      if negb epoch_ok then Err ErrBarrierEpochMismatch
      else
        let tag_len := 16 in
        let? iv :=
          (if (gcm_iv_len =? 0)%nat then Ok None
           else let? nonce := slice ciphertext 5 (5 + gcm_iv_len) in Ok (Some nonce)) in
        if negb (gcm_init k iv) then Err OpenSSL
        else
          let? version := index ciphertext 4 in
          let? aad :=
            (if Byte.eqb version AES_GCM_VERSION1 then Ok None
             else if Byte.eqb version AES_GCM_VERSION2 then Ok (Some path)
             else Err ErrBarrierVersionMismatch) in
          if (length ciphertext <? tag_len)%nat then Panic
          else
            let? raw := slice ciphertext (5 + gcm_iv_len) (length ciphertext - tag_len) in
            let? tag := slice ciphertext (length ciphertext - tag_len) (length ciphertext) in
            of_option OpenSSL (gcm_open k iv aad raw tag)
  end.

(** *** [impl Storage for AESGCMBarrier] *)

Definition list_ (s : t B) (prefix : string) : result (list string) :=
  if sealed (info s) then Err ErrBarrierSealed
  else let? ret := backend_list (backend s) prefix in Ok (sort_strings ret).

Definition get (s : t B) (k : string) : result (option StorageEntry) :=
  if sealed (info s) then Err ErrBarrierSealed
  else
    let? pe := backend_get (backend s) k in
    match pe with
    | None => Ok None
    | Some pe =>
        let? plain := decrypt s k (be_value pe) in
        Ok (Some {| se_key := k; se_value := plain |})
    end.

Definition put (s : t B) (entry : StorageEntry) : t B * result unit :=
  if sealed (info s) then (s, Err ErrBarrierSealed)
  else
    match encrypt (se_key entry) (se_value entry) s with
    | (s, Ok ciphertext) =>
        let '(b, r) := backend_put (backend s) {| be_key := se_key entry; be_value := ciphertext |} in
        (set_backend s b, r)
    | (s, Err e) => (s, Err e)
    | (s, Panic) => (s, Panic)
    end.

Definition delete (s : t B) (k : string) : t B * result unit :=
  if sealed (info s) then (s, Err ErrBarrierSealed)
  else let '(b, r) := backend_delete (backend s) k in (set_backend s b, r).

#[global] Instance storage : Storage (t B) :=
  {| storage_list := list_; storage_get := get; storage_put := put; storage_delete := delete |}.

(** *** [impl SecurityBarrier for AESGCMBarrier] *)

Definition inited (s : t B) : result bool :=
  let? res := backend_get (backend s) BARRIER_INIT_PATH in
  Ok (match res with Some _ => true | None => false end).

Definition key_length_range : nat * nat := (AES_BLOCK_SIZE, 2 * AES_BLOCK_SIZE).

Definition generate_key (s : t B) : t B * bytes := draw (2 * AES_BLOCK_SIZE) s.

Definition init (kek : bytes) : st (t B) RvError unit := fun s =>
  let '(min, max) := key_length_range in
  if (length kek <? min)%nat || (max <? length kek)%nat then (s, Err ErrBarrierKeyInvalid)
  else
    match inited s with
    | Err e => (s, Err e)
    | Panic => (s, Panic)
    | Ok true => (s, Err ErrBarrierAlreadyInit)
    | Ok false =>
        let '(s, encrypt_key) := generate_key s in
        match ser {| bi_version := 1; bi_key := encrypt_key |} with
        | None => (s, Err SerdeJson)
        | Some serialized =>
            let s := init_cipher s kek in
            match encrypt BARRIER_INIT_PATH serialized s with
            | (s, Ok value) =>
                match backend_put (backend s) {| be_key := BARRIER_INIT_PATH; be_value := value |} with
                | (b, Ok _) => (reset_cipher (set_backend s b), Ok tt)
                | (b, Err e) => (set_backend s b, Err e)
                | (b, Panic) => (set_backend s b, Panic)
                end
            | (s, Err e) => (s, Err e)
            | (s, Panic) => (s, Panic)
            end
        end
    end.

Definition unseal (kek : bytes) : st (t B) RvError unit := fun s =>
  if negb (sealed (info s)) then (s, Ok tt)
  else
    match backend_get (backend s) BARRIER_INIT_PATH with
    | Err e => (s, Err e)
    | Panic => (s, Panic)
    | Ok None => (s, Err ErrBarrierNotInit)
    | Ok (Some entry) =>
        let s := init_cipher s kek in
        match decrypt s BARRIER_INIT_PATH (be_value entry) with
        | Panic => (s, Panic)
        | Err _ => (s, Err ErrBarrierUnsealFailed)
        | Ok value =>
            match de (A := BarrierInit) value with
            | None => (s, Err SerdeJson)
            | Some barrier_init =>
                (set_sealed (init_cipher s (bi_key barrier_init)) false, Ok tt)
            end
        end
    end.

Definition seal (s : t B) : t B := set_sealed (reset_cipher s) true.

Definition derive_hmac_key (s : t B) : result (bytes) :=
  match key (info s) with
  | None => Err ErrBarrierNotInit
  | Some k => if sealed (info s) then Err ErrBarrierSealed else Ok (sha256 k)
  end.

End barrier.
End AESGCMBarrier.
