(* ===== verification/BarrierCorrect.v ===== *)
(** * Correctness of the AES-GCM barrier (theorems about
    src/src/storage/barrier_aes_gcm.rs)

    Encryption round trip and path binding, the sealed state, the life cycle
    [init]/[unseal]/[seal], and the refinement of an unsealed barrier to a
    plaintext map. *)

From stdpp Require Import base tactics list sets gmap strings.
From Stdlib Require Import ZArith Lia Ascii.
From S2P Require Import Prelude Errors RustStr Storage.
Import AESGCMBarrier.

Local Open Scope nat_scope.

(** ** Slices *)

Lemma slice_app (l m r : bytes) : slice (l ++ m ++ r) (length l) (length l + length m) = Ok m.
Proof.
  unfold slice. rewrite (proj2 (Nat.leb_le _ _)) by lia.
  rewrite (proj2 (Nat.leb_le _ _)) by (rewrite !length_app; lia). simpl.
  rewrite drop_app_length, Nat.add_comm, Nat.add_sub, take_app_length. done.
Qed.

Lemma slice_app_eq (v l m r : bytes) lo hi :
  v = l ++ m ++ r → lo = length l → hi = lo + length m → slice v lo hi = Ok m.
Proof. intros -> -> ->. apply slice_app. Qed.

(** A toy cipher with the documented interface, to run the model: the
    ciphertext is the plaintext, the tag depends on key and associated data. *)
Definition toy_tag (k : bytes) (aad : option string) : bytes :=
  take 16 (match aad with Some p => x01 :: String.list_byte_of_string p | None => [x00] end
           ++ k ++ replicate 16 x00).

Definition toy_gcm : AesGcm := {|
  gcm_iv_len := 12;
  gcm_init := fun k _ => length k =? 32;
  gcm_seal := fun k _ aad pt => Some (pt, toy_tag k aad);
  gcm_open := fun k _ aad ct tag => if decide (tag = toy_tag k aad) then Some ct else None
|}.

Lemma toy_gcm_laws : @AesGcmLaws toy_gcm.
Proof.
  split; simpl.
  - by eexists.
  - intros k iv aad pt ct tag [= _ <-]. unfold toy_tag.
    rewrite length_take, !length_app, length_replicate. lia.
  - intros k iv aad pt ct tag [= <- <-]. by rewrite decide_True.
Qed.

#[global] Instance BarrierInit_eq_dec : EqDecision BarrierInit.
Proof. solve_decision. Defined.
#[global] Instance byte_countable : Countable byte.
Proof.
  refine (inj_countable' Byte.to_N u8_wrap _). apply u8_wrap_to_N.
Defined.
#[global] Instance BarrierInit_countable : Countable BarrierInit.
Proof.
  refine (inj_countable' (λ b, (bi_version b, bi_key b)) (λ '(v, k), {| bi_version := v; bi_key := k |}) _).
  by intros [].
Defined.

(** ** Encryption *)
Section encryption.
Context {B : Type} `{HB : Backend B} `{HG : AesGcm} `{HGL : !AesGcmLaws} `{HR : Rng}.

(** The cipher accepts key [k] with nonces of the right length. *)
Definition key_accepted (k : bytes) : Prop :=
  ∀ iv, (match iv with Some n => length n = gcm_iv_len | None => gcm_iv_len = 0 end) →
        gcm_init k iv = true.

Definition known_version (s : t B) : Prop :=
  aes_gcm_version_byte (info s) = AES_GCM_VERSION1 ∨
  aes_gcm_version_byte (info s) = AES_GCM_VERSION2.

Lemma epoch_matches_header v rest : epoch_matches (x00 :: x00 :: x00 :: KEY_EPOCH :: v :: rest) = Ok true.
Proof. done. Qed.

(** [decrypt] inverts the layout [encrypt] writes. *)
Lemma decrypt_layout (s : t B) path k v iv ct tag pt aad :
  key (info s) = Some k →
  (match iv with Some n => length n = gcm_iv_len ∧ gcm_iv_len ≠ 0 | None => gcm_iv_len = 0 end) →
  gcm_init k iv = true → length tag = 16 →
  (v = AES_GCM_VERSION1 ∧ aad = None ∨ v = AES_GCM_VERSION2 ∧ aad = Some path) →
  gcm_open k iv aad ct tag = pt →
  decrypt s path ([x00; x00; x00; KEY_EPOCH; v] ++ default [] iv ++ ct ++ tag)
    = of_option OpenSSL pt.
Proof.
  intros Hk Hiv Hinit Htag Hv Hopen. unfold decrypt. rewrite Hk.
  set (c := ([x00; x00; x00; KEY_EPOCH; v] ++ default [] iv ++ ct ++ tag)%list).
  assert (length (default [] iv) = gcm_iv_len) as Hlen by (destruct iv; simpl; [apply Hiv|done]).
  assert (length c = 5 + gcm_iv_len + length ct + 16) as Hc
    by (unfold c; rewrite !length_app, Hlen, Htag; simpl; lia).
  assert (epoch_matches c = Ok true) as -> by done. cbn [negb].
  assert ((if gcm_iv_len =? 0 then Ok None
           else let? nonce := slice c 5 (5 + gcm_iv_len) in Ok (Some nonce))
          = Ok (E := RvError) iv) as ->.
  { destruct iv as [n|].
    - destruct Hiv as [Hn Hne]. apply Nat.eqb_neq in Hne as ->.
      rewrite (slice_app_eq c [x00; x00; x00; KEY_EPOCH; v] n (ct ++ tag)); [done|done|done|].
      by rewrite Hn.
    - by rewrite Hiv. }
  rewrite Hinit. cbn [negb].
  assert (index c 4 = Ok v) as -> by done.
  assert ((if Byte.eqb v AES_GCM_VERSION1 then Ok None
           else if Byte.eqb v AES_GCM_VERSION2 then Ok (Some path)
           else Err ErrBarrierVersionMismatch) = Ok (E := RvError) aad) as ->
    by (destruct Hv as [[-> ->]|[-> ->]]; done).
  rewrite Hc. rewrite (proj2 (Nat.ltb_ge _ _)) by lia.
  rewrite (slice_app_eq c ([x00; x00; x00; KEY_EPOCH; v] ++ default [] iv) ct tag).
  - rewrite (slice_app_eq c ([x00; x00; x00; KEY_EPOCH; v] ++ default [] iv ++ ct) tag []).
    + by rewrite Hopen.
    + unfold c. by rewrite app_nil_r, <- !(assoc_L (++)).
    + rewrite !length_app, Hlen. simpl. lia.
    + lia.
  - unfold c. by rewrite <- !(assoc_L (++)).
  - rewrite length_app, Hlen. done.
  - lia.
Qed.

(** The shape of a successful [encrypt]. *)
Lemma encrypt_inv (s s' : t B) path pt c :
  encrypt path pt s = (s', Ok c) →
  ∃ k iv ct tag, key (info s) = Some k ∧ info s' = info s ∧ backend s' = backend s ∧
    (match iv with Some n => length n = gcm_iv_len ∧ gcm_iv_len ≠ 0 | None => gcm_iv_len = 0 end) ∧
    gcm_init k iv = true ∧
    gcm_seal k iv (if Byte.eqb (aes_gcm_version_byte (info s)) AES_GCM_VERSION2
                   then Some path else None) pt = Some (ct, tag) ∧
    c = ([x00; x00; x00; KEY_EPOCH; aes_gcm_version_byte (info s)] ++ default [] iv ++ ct ++ tag)%list.
Proof.
  unfold encrypt, draw. destruct (key (info s)) as [k|] eqn:Hk; [|done].
  destruct (Nat.eqb_spec gcm_iv_len 0) as [Hz|Hz].
  - destruct (gcm_init k None) eqn:Hi; [|done].
    destruct (gcm_seal _ _ _ _) as [[ct tag]|] eqn:Hs; [|done].
    intros [= <- <-]. exists k, None, ct, tag. done.
  - cbn -[gcm_init]. destruct (gcm_init k _) eqn:Hi; [|done].
    destruct (gcm_seal _ _ _ _) as [[ct tag]|] eqn:Hs; [|done].
    intros [= <- <-]. exists k, (Some (fill_bytes (draws s) gcm_iv_len)), ct, tag.
    split_and!; try done. apply fill_bytes_length.
Qed.

Lemma encrypt_total (s : t B) path pt k :
  key (info s) = Some k → key_accepted k → ∃ s' c, encrypt path pt s = (s', Ok c).
Proof.
  intros Hk Hacc. unfold encrypt, draw. rewrite Hk.
  destruct (Nat.eqb_spec gcm_iv_len 0) as [Hz|Hz].
  - rewrite (Hacc None) by done.
    destruct (gcm_seal_total k None
      (if Byte.eqb (aes_gcm_version_byte (info s)) AES_GCM_VERSION2 then Some path else None) pt)
      as [[ct tag] ->]; [by apply Hacc|]. eauto.
  - cbn -[gcm_init]. rewrite (Hacc (Some _)) by apply fill_bytes_length.
    destruct (gcm_seal_total k (Some (fill_bytes (draws s) gcm_iv_len))
      (if Byte.eqb (aes_gcm_version_byte (info s)) AES_GCM_VERSION2 then Some path else None) pt)
      as [[ct tag] ->]; [apply Hacc, fill_bytes_length|]. eauto.
Qed.

(** [decrypt] reads only the barrier's key. *)
Lemma decrypt_info (s s' : t B) path c :
  key (info s) = key (info s') → decrypt s path c = decrypt s' path c.
Proof. unfold decrypt. by intros ->. Qed.

Lemma decrypt_encrypt (s s' : t B) path pt c :
  known_version s → encrypt path pt s = (s', Ok c) → decrypt s path c = Ok pt.
Proof.
  intros Hv (k & iv & ct & tag & Hk & _ & _ & Hiv & Hi & Hs & ->)%encrypt_inv.
  set (aad := if Byte.eqb _ _ then _ else _) in Hs.
  rewrite (decrypt_layout s path k _ iv ct tag (Some pt) aad); try done.
  - by apply gcm_tag_len in Hs.
  - unfold aad. destruct Hv as [-> | ->]; [left|right]; done.
  - by apply gcm_open_seal.
Qed.

End encryption.

(** ** Life cycle and refinement *)
Section lifecycle.
Context {B : Type} `{HB : Backend B} `{HBS : !BackendSpec B} `{HG : AesGcm} `{HGL : !AesGcmLaws}
        `{HR : Rng} `{HS : Serde BarrierInit} `{HSL : !SerdeLaws BarrierInit} `{HH : Sha256}.

(** The plaintext map behind an unsealed barrier: the entries that decrypt. *)
Definition plain (s : t B) : gmap string bytes :=
  map_imap (λ k c, match decrypt s k c with Ok v => Some v | _ => None end) (contents (backend s)).

Lemma lookup_plain s k :
  plain s !! k = contents (backend s) !! k ≫= λ c, match decrypt s k c with Ok v => Some v | _ => None end.
Proof. unfold plain. by rewrite map_lookup_imap. Qed.

Lemma plain_ext (s s' : t B) :
  key (info s) = key (info s') → contents (backend s) = contents (backend s') → plain s = plain s'.
Proof.
  intros Hk Hc. apply map_eq. intros k. rewrite !lookup_plain, Hc.
  destruct (_ !! k); [|done]. simpl. by rewrite (decrypt_info s s').
Qed.

(** Overwriting one ciphertext changes one plaintext. *)
Lemma plain_insert (s s' : t B) k c v :
  key (info s) = key (info s') → contents (backend s') = <[k := c]> (contents (backend s)) →
  decrypt s k c = Ok v → plain s' = <[k := v]> (plain s).
Proof.
  intros Hk Hc Hd. apply map_eq. intros k'. rewrite lookup_plain, Hc.
  destruct (decide (k = k')) as [<-|Hne].
  - rewrite !lookup_insert_eq. simpl. by rewrite <- (decrypt_info s s'), Hd.
  - rewrite !lookup_insert_ne, lookup_plain by done. destruct (_ !! k'); [|done]. simpl.
    by rewrite (decrypt_info s s').
Qed.

Lemma plain_delete (s s' : t B) k :
  key (info s) = key (info s') → contents (backend s') = base.delete k (contents (backend s)) →
  plain s' = base.delete k (plain s).
Proof.
  intros Hk Hc. apply map_eq. intros k'. rewrite lookup_plain, Hc.
  destruct (decide (k = k')) as [<-|Hne].
  - by rewrite !lookup_delete_eq.
  - rewrite !lookup_delete_ne, lookup_plain by done. destruct (_ !! k'); [|done]. simpl.
    by rewrite (decrypt_info s s').
Qed.

(** An unsealed barrier with a usable key. *)
Definition operational (s : t B) : Prop :=
  sealed (info s) = false ∧ known_version s ∧ ∃ k, key (info s) = Some k ∧ key_accepted k.

Lemma put_spec s k v :
  operational s → backend_key_ok k →
  ∃ s', put s {| se_key := k; se_value := v |} = (s', Ok tt) ∧ info s' = info s ∧
        plain s' = <[k := v]> (plain s) ∧
        (∃ c, contents (backend s') = <[k := c]> (contents (backend s))) ∧
        ∀ d, d ∈ backend_dirs (backend s') → d ∈ backend_dirs (backend s) ∨ starts_with d k = true.
Proof.
  intros (Hs & Hv & kk & Hk & Hacc) Hslash. unfold put. rewrite Hs. simpl.
  destruct (encrypt_total s k v kk Hk Hacc) as (s1 & c & He). rewrite He.
  pose proof (decrypt_encrypt s s1 k v c Hv He) as Hd.
  apply encrypt_inv in He as (_ & _ & _ & _ & _ & Hi1 & Hb1 & _).
  destruct (backend_put_spec (backend s1) {| be_key := k; be_value := c |}) as (b & -> & Hc & Hdirs);
    [done|]. simpl in Hc, Hdirs.
  exists (set_backend s1 b). split_and!; [done|by simpl| | |].
  - apply (plain_insert s _ k c); [simpl; by rewrite Hi1|simpl; by rewrite Hc, Hb1|done].
  - exists c. simpl. by rewrite Hc, Hb1.
  - simpl. by rewrite <- Hb1.
Qed.

Lemma delete_spec s k :
  operational s → backend_key_ok k →
  ∃ s', AESGCMBarrier.delete s k = (s', Ok tt) ∧ info s' = info s ∧
        plain s' = base.delete k (plain s) ∧
        contents (backend s') = base.delete k (contents (backend s)) ∧
        backend_dirs (backend s') ⊆ backend_dirs (backend s).
Proof.
  intros (Hs & _) Hslash. unfold AESGCMBarrier.delete. rewrite Hs.
  destruct (backend_delete_spec (backend s) k Hslash) as (b & -> & Hc & Hd).
  exists (set_backend s b). split_and!; [done|done| |done|done]. by apply plain_delete.
Qed.

Lemma get_spec s k v :
  operational s → backend_key_ok k →
  (plain s !! k = Some v ↔ get s k = Ok (Some {| se_key := k; se_value := v |})) ∧
  (contents (backend s) !! k = None → get s k = Ok None).
Proof.
  intros (Hs & _) Hslash. unfold get. rewrite Hs, (backend_get_spec _ _ Hslash), lookup_plain.
  destruct (contents (backend s) !! k) as [c|]; simpl; [|naive_solver].
  destruct (decrypt s k c) as [p| |]; naive_solver.
Qed.

(** *** Initialisation *)

Lemma inited_spec s : inited s = Ok (bool_decide (is_Some (contents (backend s) !! BARRIER_INIT_PATH))).
Proof.
  unfold inited. rewrite backend_get_spec by apply backend_init_path_ok. simpl.
  by destruct (contents (backend s) !! BARRIER_INIT_PATH).
Qed.

(** The ciphertext that [init] stores opens under the same key to a record
    holding the generated encryption key. *)
Lemma init_spec s kek :
  known_version s → 16 ≤ length kek ≤ 32 → key_accepted kek →
  contents (backend s) !! BARRIER_INIT_PATH = None →
  ∃ s1 c value, init kek s = (s1, Ok tt) ∧
    info s1 = {| sealed := sealed (info s); key := None;
                 aes_gcm_version_byte := aes_gcm_version_byte (info s) |} ∧
    contents (backend s1) = <[BARRIER_INIT_PATH := c]> (contents (backend s)) ∧
    (∀ s' : t B, key (info s') = Some kek → decrypt s' BARRIER_INIT_PATH c = Ok value) ∧
    de value = Some {| bi_version := 1; bi_key := fill_bytes (draws s) 32 |}.
Proof.
  intros Hv Hlen Hacc Hnone. unfold init. simpl.
  rewrite (proj2 (Nat.ltb_ge _ 16)), (proj2 (Nat.ltb_ge 32 _)) by lia. simpl.
  rewrite inited_spec, bool_decide_false by (rewrite Hnone; by intros []).
  destruct (ser_total {| bi_version := 1; bi_key := fill_bytes (draws s) 32 |}) as [sb Hser].
  rewrite Hser.
  set (s0 := init_cipher _ kek).
  destruct (encrypt_total s0 BARRIER_INIT_PATH sb kek) as (s1 & c & He); [done|done|].
  rewrite He. pose proof (λ H, decrypt_encrypt s0 s1 BARRIER_INIT_PATH sb c H He) as Hd.
  apply encrypt_inv in He as (_ & _ & _ & _ & _ & Hi1 & Hb1 & _).
  destruct (backend_put_spec (backend s1) {| be_key := BARRIER_INIT_PATH; be_value := c |})
    as (b & -> & Hc & _); [apply backend_init_path_ok|]. simpl in Hc.
  exists (reset_cipher (set_backend s1 b)), c, sb. split_and!.
  - done.
  - simpl. by rewrite Hi1.
  - simpl. by rewrite Hc, Hb1.
  - intros s' Hk. rewrite (decrypt_info s' s0) by (by rewrite Hk). by apply Hd.
  - by apply de_ser in Hser.
Qed.

Lemma init_again s kek :
  16 ≤ length kek ≤ 32 → is_Some (contents (backend s) !! BARRIER_INIT_PATH) →
  init kek s = (s, Err ErrBarrierAlreadyInit).
Proof.
  intros Hlen Hin. unfold init. simpl.
  rewrite (proj2 (Nat.ltb_ge _ 16)), (proj2 (Nat.ltb_ge 32 _)) by lia. simpl.
  by rewrite inited_spec, bool_decide_true.
Qed.

(** Unsealing with the right key: the stored record opens. *)
Lemma unseal_spec s kek c value bi :
  sealed (info s) = true →
  contents (backend s) !! BARRIER_INIT_PATH = Some c →
  decrypt (init_cipher s kek) BARRIER_INIT_PATH c = Ok value → de value = Some bi →
  unseal kek s = (set_sealed (init_cipher s (bi_key bi)) false, Ok tt).
Proof.
  intros Hs Hc Hd Hde. unfold unseal. rewrite Hs, backend_get_spec by apply backend_init_path_ok. rewrite Hc. simpl.
  by rewrite Hd, Hde.
Qed.

(** *** The storage interface of an unsealed barrier *)

Lemma operational_info s s' : info s' = info s → operational s → operational s'.
Proof. unfold operational, known_version. by intros ->. Qed.

Lemma listing_perm keys dirs p l l' :
  l' ≡ₚ l → listing keys dirs p l → listing keys dirs p l'.
Proof. intros He [H1 H2 H3 H4 H5]. split; try setoid_rewrite He; auto. Qed.

#[global] Program Instance barrier_storage_spec : StorageSpec (t B) := {|
  storage_ready := operational;
  storage_keys := fun s => dom (contents (backend s));
  storage_map := plain;
  storage_dirs := fun s => backend_dirs (backend s);
  storage_key_ok := backend_key_ok
|}.
Next Obligation. intros s k v Hop Hk. by apply get_spec. Qed.
Next Obligation. intros s k e. simpl. unfold get. intros H. by crush_outcome. Qed.
Next Obligation.
  intros s k Hop Hk Hnot. apply (get_spec s k [] Hop Hk). by apply not_elem_of_dom.
Qed.
Next Obligation.
  intros s k v Hop Hk. destruct (put_spec s k v Hop Hk) as (s' & Hput & Hi & Hp & (c & Hc) & Hd).
  exists s'. split_and!; [done|by eapply operational_info|done| |done]. by rewrite Hc, dom_insert_L.
Qed.
Next Obligation.
  intros s k Hop Hk. destruct (delete_spec s k Hop Hk) as (s' & Hdel & Hi & Hp & Hc & Hd).
  exists s'. split_and!; [done|by eapply operational_info|done| |done]. by rewrite Hc, dom_delete_L.
Qed.
Next Obligation.
  intros s p (Hs & _) Hp Hslash. simpl. unfold list_. rewrite Hs.
  destruct (backend_list_spec (backend s) p Hp Hslash) as (l & -> & Hl).
  eexists. split; [done|]. eapply (listing_perm _ _ _ l); [apply sort_strings_perm|done].
Qed.
Next Obligation. intros s k _ Hk. by eapply backend_contents_ok, elem_of_dom. Qed.
Next Obligation.
  intros s k. rewrite !elem_of_dom, lookup_plain. destruct (contents (backend s) !! k); [eauto|by intros []].
Qed.

End lifecycle.

(** ** Properties *)
Section properties.
Context {B : Type} `{HB : Backend B} `{HBS : !BackendSpec B} `{HG : AesGcm} `{HGL : !AesGcmLaws}
        `{HR : Rng} `{HS : Serde BarrierInit} `{HSL : !SerdeLaws BarrierInit} `{HH : Sha256}.

(** Whatever the barrier encrypts for a path it decrypts back from that
    path, and, since the path is authenticated (version 2), opening the stored
    bytes under another path gives exactly what the cipher gives for that other
    path as associated data. *)
Theorem barrier_encrypt_roundtrip (s s' : t B) (path : string) (plaintext ciphertext : bytes) :
  known_version s → encrypt path plaintext s = (s', Ok ciphertext) →
  decrypt s path ciphertext = Ok plaintext ∧
  (aes_gcm_version_byte (info s) = AES_GCM_VERSION2 →
   ∃ k iv ct tag, key (info s) = Some k ∧ gcm_seal k iv (Some path) plaintext = Some (ct, tag) ∧
     ∀ path', decrypt s path' ciphertext = of_option OpenSSL (gcm_open k iv (Some path') ct tag)).
Proof.
  intros Hv He. split; [by eapply decrypt_encrypt|]. intros Hv2.
  apply encrypt_inv in He as (k & iv & ct & tag & Hk & _ & _ & Hiv & Hi & Hs & ->).
  rewrite Hv2 in *. simpl in Hs. exists k, iv, ct, tag. split_and!; [done..|]. intros path'.
  apply (decrypt_layout s path' k _ iv ct tag _ (Some path')); try done.
  - by apply gcm_tag_len in Hs.
  - by right.
Qed.

(** A sealed barrier serves nothing: every storage operation and the HMAC
    key derivation fail, and no operation changes the barrier or the backend;
    sealing forgets the key. *)
Theorem sealed_barrier_refuses (s : t B) (k : string) (e : StorageEntry) :
  sealed (info s) = true →
  list_ s k = Err ErrBarrierSealed ∧ get s k = Err ErrBarrierSealed ∧
  put s e = (s, Err ErrBarrierSealed) ∧ AESGCMBarrier.delete s k = (s, Err ErrBarrierSealed) ∧
  (∀ h, derive_hmac_key s ≠ Ok h) ∧
  sealed (info (seal s)) = true ∧ key (info (seal s)) = None ∧ backend (seal s) = backend s.
Proof.
  intros Hs. unfold list_, get, put, AESGCMBarrier.delete, derive_hmac_key. rewrite Hs.
  split_and!; try done. intros h. by destruct (key (info s)).
Qed.

(** C17: over any backend that keeps a map, an unsealed barrier is a map of
    plaintexts: [put] and [delete] succeed and change exactly their key,
    [get] returns exactly the stored plaintext, and the barrier's own state is
    unaffected. *)
Theorem barrier_refines_map (s : t B) (k : string) (v : bytes) :
  operational s → backend_key_ok k →
  (∃ s', put s {| se_key := k; se_value := v |} = (s', Ok tt) ∧ operational s' ∧
         plain s' = <[k := v]> (plain s) ∧
         get s' k = Ok (Some {| se_key := k; se_value := v |})) ∧
  (∃ s', AESGCMBarrier.delete s k = (s', Ok tt) ∧ operational s' ∧
         plain s' = base.delete k (plain s)) ∧
  (plain s !! k = Some v ↔ get s k = Ok (Some {| se_key := k; se_value := v |})).
Proof.
  intros Hop Hk. split_and!.
  - destruct (put_spec s k v Hop Hk) as (s' & Hput & Hi & Hp & _). exists s'.
    assert (operational s') as Hop' by (unfold operational, known_version in *; by rewrite Hi).
    split_and!; try done. apply (get_spec s' k v Hop' Hk). rewrite Hp. apply lookup_insert_eq.
  - destruct (delete_spec s k Hop Hk) as (s' & Hdel & Hi & Hp & _). exists s'.
    split_and!; try done. unfold operational, known_version in *; by rewrite Hi.
  - by apply get_spec.
Qed.

(** Initialising a fresh backend succeeds once and leaves the barrier
    sealed and keyless; unsealing with the same key then succeeds and installs
    the generated encryption key, a second [init] is refused without effect,
    and any key under which the stored record does not authenticate is refused
    with the barrier still sealed and the stored data untouched. *)
Theorem barrier_init_unseal (s : t B) (kek : bytes) :
  info s = default_info → 16 ≤ length kek ≤ 32 → key_accepted kek →
  contents (backend s) !! BARRIER_INIT_PATH = None →
  ∃ s1 s2, init kek s = (s1, Ok tt) ∧ info s1 = default_info ∧
    unseal kek s1 = (s2, Ok tt) ∧ sealed (info s2) = false ∧
    key (info s2) = Some (fill_bytes (draws s) 32) ∧
    contents (backend s2) = contents (backend s1) ∧
    inited s1 = Ok true ∧ init kek s1 = (s1, Err ErrBarrierAlreadyInit) ∧
    ∀ kek' c, contents (backend s1) !! BARRIER_INIT_PATH = Some c →
      (∃ e, decrypt (init_cipher s1 kek') BARRIER_INIT_PATH c = Err e) →
      ∃ s3, unseal kek' s1 = (s3, Err ErrBarrierUnsealFailed) ∧
            sealed (info s3) = true ∧ contents (backend s3) = contents (backend s1).
Proof.
  intros Hi Hlen Hacc Hnone.
  destruct (init_spec s kek) as (s1 & c & value & Hinit & Hi1 & Hc1 & Hdec & Hde); try done.
  { unfold known_version. rewrite Hi. by right. }
  rewrite Hi in Hi1. simpl in Hi1.
  assert (contents (backend s1) !! BARRIER_INIT_PATH = Some c) as Hc by (rewrite Hc1; apply lookup_insert_eq).
  assert (sealed (info s1) = true) as Hs1 by (by rewrite Hi1).
  exists s1. eexists. split_and!; [done|by rewrite Hi1| | | | | | |].
  - eapply (unseal_spec s1 kek c value); [done|done|by apply Hdec|done].
  - done.
  - done.
  - done.
  - by rewrite inited_spec, bool_decide_true by eauto.
  - by apply init_again; eauto.
  - intros kek' c' Hc' [e He]. assert (c' = c) as -> by congruence.
    exists (init_cipher s1 kek'). unfold unseal. rewrite Hs1, backend_get_spec, Hc by apply backend_init_path_ok. simpl.
    by rewrite He.
Qed.

End properties.

(** *** Witnesses: the toy cipher over the in-memory backend *)

Definition demo_serde : Serde BarrierInit := countable_serde BarrierInit.
Definition demo_rng : Rng :=
  {| fill_bytes := fun i n => replicate n (u8_wrap (N.of_nat i));
     fill_bytes_length := fun _ _ => length_replicate _ _ |}.

Lemma demo_key_accepted k : length k = 32 → key_accepted (HG := toy_gcm) k.
Proof. intros Hk iv _. simpl. by rewrite Hk. Qed.

Definition demo_barrier : t MemBackend.t :=
  Barrier {| sealed := false; key := Some (replicate 32 x07); aes_gcm_version_byte := x02 |} ∅ 0.

Lemma demo_operational : operational (HG := toy_gcm) demo_barrier.
Proof.
  split; [done|]. split; [by right|]. exists (replicate 32 x07). split; [done|].
  by apply demo_key_accepted.
Defined.

Lemma barrier_encrypt_roundtrip_witness :
  let run := encrypt (HG := toy_gcm) (HR := demo_rng) "secret/a" [x01; x02] demo_barrier in
  ∃ s' c, run = (s', Ok c) ∧ decrypt (HG := toy_gcm) demo_barrier "secret/a" c = Ok [x01; x02].
Proof.
  intros run. destruct run as [s' [c| |]] eqn:E; [|by vm_compute in E..].
  exists s', c. split; [done|].
  apply (barrier_encrypt_roundtrip (HG := toy_gcm) (HGL := toy_gcm_laws) (HR := demo_rng)
    demo_barrier s' "secret/a" [x01; x02] c); [by right|exact E].
Defined.

Lemma sealed_barrier_refuses_witness :
  get (HG := toy_gcm) (AESGCMBarrier.new (∅ : MemBackend.t)) "secret/a" = Err ErrBarrierSealed.
Proof.
  apply (sealed_barrier_refuses (HG := toy_gcm) (HR := demo_rng) (HH := fun l => l)
    (AESGCMBarrier.new ∅) "secret/a" {| se_key := "secret/a"; se_value := [] |}).
  reflexivity.
Defined.

Lemma barrier_refines_map_witness :
  ∃ s', put (HG := toy_gcm) (HR := demo_rng) demo_barrier
          {| se_key := "secret/a"; se_value := [x09] |} = (s', Ok tt) ∧
        get (HG := toy_gcm) s' "secret/a" = Ok (Some {| se_key := "secret/a"; se_value := [x09] |}).
Proof.
  destruct (barrier_refines_map (HG := toy_gcm) (HGL := toy_gcm_laws) (HR := demo_rng)
    (HBS := MemBackend.backend_spec) demo_barrier "secret/a" [x09] demo_operational I) as ((s' & Hp & _ & _ & Hg) & _).
  exists s'. by split.
Defined.

Lemma barrier_init_unseal_witness :
  ∃ s1 s2,
    init (HG := toy_gcm) (HR := demo_rng) (HS := demo_serde) (replicate 32 x55)
      (AESGCMBarrier.new (∅ : MemBackend.t)) = (s1, Ok tt) ∧
    unseal (HG := toy_gcm) (HS := demo_serde) (replicate 32 x55) s1 = (s2, Ok tt) ∧
    sealed (info s2) = false.
Proof.
  destruct (barrier_init_unseal (HG := toy_gcm) (HGL := toy_gcm_laws) (HR := demo_rng)
    (HS := demo_serde) (HSL := countable_serde_laws BarrierInit)
    (AESGCMBarrier.new (∅ : MemBackend.t)) (replicate 32 x55))
    as (s1 & s2 & H1 & _ & H2 & H3 & _); [reflexivity | simpl; lia | by apply demo_key_accepted
    | reflexivity |].
  exists s1, s2. done.
Defined.
