(* ===== verification/FileBackend.v ===== *)
(** * The file backend

    src/src/storage/physical/file.rs over a model of what it uses of
    [std::path] (Module StdPath) and [std::fs] (Module StdFs), and
    [new_backend] of src/src/storage/mod.rs.

    The file system is a tree without symbolic links whose operations fail for
    the reasons the tree gives: a missing or misplaced node, or a NUL byte in a
    path.  Errors of the device, permissions and length limits are left out.
    [read_dir] yields the entries in an unspecified order; the order of the map
    is used, and no theorem depends on it. *)

From stdpp Require Import base tactics list sets gmap strings.
From Stdlib Require Import ZArith Lia Ascii.
From S2P Require Import Prelude Errors RustStr Utils Storage.

Local Open Scope string_scope.

(** [std::path] on Unix. *)
Module StdPath.

Inductive component := RootDir | CurDir | ParentDir | Normal (s : string).

(** [Path::components]: empty segments vanish, and [.] is kept only at the
    start of a relative path. *)
Fixpoint seg_components (at_start : bool) (segs : list string) : list component :=
  match segs with
  | [] => []
  | s :: segs =>
      (if is_empty s then []
       else if (s =? ".") then if at_start then [CurDir] else []
       else if (s =? "..") then [ParentDir]
       else [Normal s]) ++ seg_components false segs
  end%list.

Definition components (s : string) : list component :=
  ((if starts_with_char slash s then [RootDir] else [])
   ++ seg_components true (split_char slash s))%list.

(** [PathBuf::push] and [Path::join] with a path written as a string. *)
Definition join (p k : string) : string :=
  if starts_with_char slash k then k
  else if is_empty p || ends_with_char slash p then p ++ k
  else p ++ "/" ++ k.

(** The last component with what is before it: [Path::parent] and
    [Path::file_name]. *)
Definition parent (p : list component) : option (list component) :=
  match last p with
  | None | Some RootDir => None
  | Some _ => Some (removelast p)
  end.

Definition file_name (p : list component) : option string :=
  match last p with Some (Normal n) => Some n | _ => None end.

End StdPath.

(** [std::fs] on a tree of directories and files. *)
Module StdFs.
Import StdPath.

Inductive node := Dir | File (data : bytes).

Inductive io_error := NotFound | NotADirectory | IsADirectory | AlreadyExists | InvalidInput.

(** Nodes by their path from the root, which is a directory of its own. *)
Record fs := { nodes : gmap (list string) node; cwd : list string }.

Definition set_nodes (f : fs) (ns : gmap (list string) node) : fs := {| nodes := ns; cwd := cwd f |}.

Definition lookup_node (f : fs) (p : list string) : option node :=
  match p with [] => Some Dir | _ => nodes f !! p end.

(** A path is followed from a directory; each step needs a directory to leave. *)
Definition step (cur : list string) (c : component) : list string :=
  match c with
  | RootDir => []
  | CurDir => cur
  | ParentDir => removelast cur
  | Normal n => (cur ++ [n])%list
  end.

Fixpoint walk (f : fs) (cur : list string) (p : list component) : outcome io_error (list string) :=
  match p with
  | [] => Ok cur
  | c :: p =>
      match lookup_node f cur with
      | Some Dir => walk f (step cur c) p
      | Some (File _) => Err NotADirectory
      | None => Err NotFound
      end
  end.

Definition has_nul (c : component) : bool :=
  match c with Normal n => contains (String "000" "") n | _ => false end.

Definition resolve (f : fs) (p : list component) : outcome io_error (list string) :=
  if existsb has_nul p then Err InvalidInput
  else match p with RootDir :: p => walk f [] p | _ => walk f (cwd f) p end.

Definition node_at (f : fs) (p : list component) : outcome io_error (list string * node) :=
  let? q := resolve f p in
  match lookup_node f q with Some n => Ok (q, n) | None => Err NotFound end.

Definition is_dir (f : fs) (p : list component) : bool :=
  match node_at f p with Ok (_, Dir) => true | _ => false end.

(** [Path::exists] on the text of a path: a trailing slash asks for a directory,
    and the empty path names nothing. *)
Definition exists_ (f : fs) (s : string) : bool :=
  negb (is_empty s) &&
  match node_at f (components s) with
  | Ok (_, Dir) => true
  | Ok (_, File _) => negb (ends_with "/" s || ends_with "/." s)
  | _ => false
  end.

(** The path below a directory. *)
Fixpoint below (q p : list string) : option (list string) :=
  match q, p with
  | [], _ => Some p
  | a :: q, b :: p => if a =? b then below q p else None
  | _ :: _, [] => None
  end.

Definition children (f : fs) (q : list string) : list string :=
  omap (fun p => match below q p with Some [n] => Some n | _ => None end) (map fst (map_to_list (nodes f))).

Definition read_dir (f : fs) (p : list component) : outcome io_error (list string) :=
  match node_at f p with
  | Ok (q, Dir) => Ok (children f q)
  | Ok (_, File _) => Err NotADirectory
  | Err e => Err e
  | Panic => Panic
  end.

(** [fs::create_dir]. *)
Definition mkdir (f : fs) (p : list component) : fs * outcome io_error unit :=
  match resolve f p with
  | Ok q =>
      match lookup_node f q with
      | Some _ => (f, Err AlreadyExists)
      | None => (set_nodes f (<[q := Dir]> (nodes f)), Ok tt)
      end
  | Err e => (f, Err e)
  | Panic => (f, Panic)
  end.

(** [fs::create_dir_all], on the components from the last to the first. *)
Fixpoint create_dir_all_rev (f : fs) (rp : list component) : fs * outcome io_error unit :=
  match rp with
  | [] => (f, Ok tt)
  | _ :: rp' =>
      let settle f r :=
        match r with
        | Err e => if is_dir f (rev rp) then (f, Ok tt) else (f, Err e)
        | r => (f, r)
        end in
      match mkdir f (rev rp) with
      | (f, Err NotFound) =>
          match create_dir_all_rev f rp' with
          | (f, Ok _) => let '(f, r) := mkdir f (rev rp) in settle f r
          | (f, r) => (f, r)
          end
      | (f, r) => settle f r
      end
  end.

Definition create_dir_all (f : fs) (p : list component) : fs * outcome io_error unit :=
  create_dir_all_rev f (rev p).

(** [File::create]: the file is there and empty afterwards. *)
Definition create (f : fs) (p : list component) : fs * outcome io_error (list string) :=
  match resolve f p with
  | Ok q =>
      match lookup_node f q with
      | Some Dir => (f, Err IsADirectory)
      | _ => (set_nodes f (<[q := File []]> (nodes f)), Ok q)
      end
  | Err e => (f, Err e)
  | Panic => (f, Panic)
  end.

Definition remove_file (f : fs) (p : list component) : fs * outcome io_error unit :=
  match node_at f p with
  | Ok (q, File _) => (set_nodes f (base.delete q (nodes f)), Ok tt)
  | Ok (_, Dir) => (f, Err IsADirectory)
  | Err e => (f, Err e)
  | Panic => (f, Panic)
  end.

End StdFs.

Definition is_utf8 (b : bytes) : bool := bool_decide (utf8_repair [] [] b = b).

Module FileBackend.
Import StdPath StdFs.

(** [poisoned]: a thread panicked while it held the lock; every later
    [lock().unwrap()] panics. *)
Record t := { path : string; files : fs; poisoned : bool }.

Definition set_files (s : t) (f : fs) : t := {| path := path s; files := f; poisoned := poisoned s |}.
Definition poison (s : t) : t := {| path := path s; files := files s; poisoned := true |}.

Definition new (conf : gmap string Value) (f : fs) : result t :=
  match conf !! "path" with
  | Some p =>
      match as_str p with
      | None => Err ErrPhysicalConfigItemMissing
      | Some p => Ok {| path := p; files := f; poisoned := false |}
      end
  | None => Err ErrPhysicalConfigItemMissing
  end.

(** Both [unwrap]s panic on a path without a last name. *)
Definition path_key (s : t) (k : string) : result (list component * string) :=
  let p := components (join (path s) k) in
  match parent p, file_name p with
  | Some parent, Some n => Ok (parent, "_" ++ n)
  | _, _ => Panic
  end.

Definition list_ (s : t) (prefix : string) : result (list string) :=
  if starts_with_char slash prefix then Err ErrPhysicalBackendPrefixInvalid
  else
    let p := if is_empty prefix then path s else join (path s) prefix in
    if poisoned s then Panic
    else if negb (exists_ (files s) p) then Ok []
    else match read_dir (files s) (components p) with
         | Ok entries =>
             Ok (map (fun entry =>
                        let name := from_utf8_lossy (String.list_byte_of_string entry) in
                        match strip_prefix "_" name with
                        | Some stripped => stripped
                        | None => name ++ "/"
                        end) entries)
         | Err _ => Err IO
         | Panic => Panic
         end.

Section entries.
Context `{HS : Serde BackendEntry}.

Definition get (s : t) (k : string) : result (option BackendEntry) :=
  if starts_with_char slash k then Err ErrPhysicalBackendKeyInvalid
  else
    let? pk := path_key s k in
    let '(parent, key) := pk in
    if poisoned s then Panic
    else match node_at (files s) (parent ++ [Normal key])%list with
         | Ok (_, File buffer) =>
             if is_utf8 buffer then let? entry := of_option SerdeJson (de buffer) in Ok (Some entry)
             else Err IO
         | Ok (_, Dir) => Err IO
         | Err NotFound => Ok None
         | Err _ => Err IO
         | Panic => Panic
         end.

Definition put (s : t) (entry : BackendEntry) : t * result unit :=
  let k := be_key entry in
  if starts_with_char slash k then (s, Err ErrPhysicalBackendKeyInvalid)
  else if poisoned s then (s, Panic)
  else match path_key s k with
       | Ok (parent, key) =>
           let '(f, r) := create_dir_all (files s) parent in
           let s := set_files s f in
           match r with
           | Ok _ =>
               let '(f, r) := create f (parent ++ [Normal key])%list in
               let s := set_files s f in
               match r with
               | Ok q =>
                   match ser entry with
                   | Some serialized_entry =>
                       (set_files s (set_nodes f (<[q := File serialized_entry]> (nodes f))), Ok tt)
                   | None => (s, Err SerdeJson)
                   end
               | Err _ => (s, Err IO)
               | Panic => (s, Panic)
               end
           | Err _ => (s, Err IO)
           | Panic => (s, Panic)
           end
       | Err e => (s, Err e)
       | Panic => (poison s, Panic)
       end.

Definition delete (s : t) (k : string) : t * result unit :=
  if starts_with_char slash k then (s, Err ErrPhysicalBackendKeyInvalid)
  else if poisoned s then (s, Panic)
  else match path_key s k with
       | Ok (parent, key) =>
           let '(f, r) := remove_file (files s) (parent ++ [Normal key])%list in
           let s := set_files s f in
           match r with
           | Ok _ | Err NotFound => (s, Ok tt)
           | Err _ => (s, Err IO)
           | Panic => (s, Panic)
           end
       | Err e => (s, Err e)
       | Panic => (poison s, Panic)
       end.

#[global] Instance backend : Backend t :=
  {| backend_list := list_; backend_get := get; backend_put := put; backend_delete := delete |}.

End entries.

End FileBackend.

(** ** [new_backend]: the physical backends of a default build *)
Inductive PhysicalBackend :=
  | FilePhysical (s : FileBackend.t)
  | MockPhysical (s : MockBackend.t).

Definition new_backend (t : string) (conf : gmap string Value) (f : StdFs.fs) : result PhysicalBackend :=
  if t =? "file" then let? b := FileBackend.new conf f in Ok (FilePhysical b)
  else if t =? "mock" then Ok (MockPhysical tt)
  else Err ErrPhysicalTypeInvalid.

#[global] Instance physical_backend `{Serde BackendEntry} : Backend PhysicalBackend :=
  {| backend_list := fun b prefix =>
       match b with
       | FilePhysical s => backend_list s prefix
       | MockPhysical s => backend_list s prefix
       end;
     backend_get := fun b k =>
       match b with FilePhysical s => backend_get s k | MockPhysical s => backend_get s k end;
     backend_put := fun b e =>
       match b with
       | FilePhysical s => let '(s, r) := backend_put s e in (FilePhysical s, r)
       | MockPhysical s => let '(s, r) := backend_put s e in (MockPhysical s, r)
       end;
     backend_delete := fun b k =>
       match b with
       | FilePhysical s => let '(s, r) := backend_delete s k in (FilePhysical s, r)
       | MockPhysical s => let '(s, r) := backend_delete s k in (MockPhysical s, r)
       end |}.
