(* ===== verification/FileCorrect.v ===== *)
(** * The file backend keeps a map

    On keys whose segments are plain names, and whose directories do not start
    with an underscore, the file backend behaves as a map from keys to values
    with directory listings ([file_backend_refines]), so the barrier over files
    answers as the barrier over such a map ([barrier_over_files]).  The keys
    left out misbehave: they poison the lock, alias other keys or collide with
    their files. *)

From stdpp Require Import base tactics list sets gmap strings.
From Stdlib Require Import ZArith Lia Ascii.
From S2P Require Import Prelude Errors RustStr Utils Storage FileBackend.

Import StdPath StdFs.
Local Open Scope string_scope.

(** ** Keys and their segments *)

(** [d1/d2/.../n]. *)
Definition path_str (ds : list string) (n : string) : string :=
  foldr (fun d r => d ++ "/" ++ r) n ds.

Definition seg_ok (n : string) : bool :=
  negb (is_empty n) && negb (n =? ".") && negb (n =? "..") && bool_decide (find_char slash n = None)
  && negb (contains (String "000" "") n) && (from_utf8_lossy (String.list_byte_of_string n) =? n).

Definition dir_ok (n : string) : bool := seg_ok n && negb (starts_with "_" n).

(** The keys the backend serves as a map does. *)
Definition file_key_ok (k : string) : bool :=
  forallb dir_ok (removelast (split_char slash k)) && seg_ok (List.last (split_char slash k) "").

Definition dirs_ok (ds : list string) : Prop := Forall (fun d => dir_ok d = true) ds.

Lemma path_str_cons d ds n : path_str (d :: ds) n = d ++ "/" ++ path_str ds n.
Proof. done. Qed.

Lemma split_char_no_slash n : no_slash n → split_char slash n = [n].
Proof.
  unfold no_slash. induction n as [|a n IH]; simpl; [done|].
  destruct (Ascii.eqb a slash); [done|]. destruct (find_char slash n); [done|].
  intros _. by rewrite IH.
Qed.

Lemma split_char_app a b : split_char slash (a ++ "/" ++ b) = (split_char slash a ++ split_char slash b)%list.
Proof.
  induction a as [|c a IH]; simpl; [done|]. simpl in IH. rewrite IH.
  destruct (Ascii.eqb c slash); [done|].
  destruct (split_char_cons slash a) as (w & ws & ->). done.
Qed.

Lemma split_path_str ds n :
  Forall no_slash ds → no_slash n → split_char slash (path_str ds n) = (ds ++ [n])%list.
Proof.
  intros Hds Hn. induction Hds as [|d ds Hd Hds IH]; [by apply split_char_no_slash|].
  rewrite path_str_cons, split_char_app, split_char_no_slash, IH by done. done.
Qed.

Lemma path_str_split s :
  ∃ ds n, split_char slash s = (ds ++ [n])%list ∧ Forall no_slash ds ∧ no_slash n ∧ s = path_str ds n.
Proof.
  induction s as [|a s IH]; [by exists [], ""|].
  destruct IH as (ds & n & Hs & Hds & Hn & ->). simpl. rewrite Hs.
  destruct (Ascii.eqb_spec a slash) as [->|Ha].
  - exists ("" :: ds), n. split_and!; [done|by constructor|done|done].
  - assert (∀ x, no_slash x → no_slash (String a x)) as Hcons.
    { intros x. unfold no_slash. simpl. rewrite (proj2 (Ascii.eqb_neq a slash) Ha). by intros ->. }
    destruct ds as [|d ds]; simpl.
    + exists [], (String a n). auto.
    + exists (String a d :: ds), n. inversion Hds; subst. split_and!; auto.
Qed.

Lemma path_str_app ds n : path_str ds "" ++ n = path_str ds n.
Proof.
  induction ds as [|d ds IH]; [done|].
  rewrite !path_str_cons, <- IH, <- !app_assoc_str. done.
Qed.

Lemma path_str_inj ds n ds' n' :
  Forall no_slash ds → no_slash n → Forall no_slash ds' → no_slash n' →
  path_str ds n = path_str ds' n' → ds = ds' ∧ n = n'.
Proof.
  intros H1 H2 H3 H4 He. apply (f_equal (split_char slash)) in He.
  rewrite !split_path_str in He by done. by apply app_inj_tail.
Qed.

Lemma seg_ok_spec n :
  seg_ok n = true ↔ n ≠ "" ∧ n ≠ "." ∧ n ≠ ".." ∧ no_slash n ∧ contains (String "000" "") n = false ∧
                    from_utf8_lossy (String.list_byte_of_string n) = n.
Proof.
  unfold seg_ok, no_slash. rewrite !andb_true_iff, !negb_true_iff, bool_decide_eq_true, !String.eqb_neq,
    String.eqb_eq, <- not_true_iff_false, is_empty_spec. tauto.
Qed.

Lemma dir_ok_seg n : dir_ok n = true → seg_ok n = true.
Proof. unfold dir_ok. by intros [? _]%andb_true_iff. Qed.

Lemma seg_ok_no_slash n : seg_ok n = true → no_slash n.
Proof. by intros (_ & _ & _ & ? & _)%seg_ok_spec. Qed.

Lemma dirs_ok_no_slash ds : dirs_ok ds → Forall no_slash ds.
Proof. intros H. eapply Forall_impl; [exact H|]. intros d Hd. by apply seg_ok_no_slash, dir_ok_seg. Qed.

Lemma dir_ok_underscore d : dir_ok d = true → starts_with "_" d = false.
Proof. unfold dir_ok. rewrite andb_true_iff, negb_true_iff. by intros [_ ?]. Qed.

#[local] Hint Resolve dir_ok_seg seg_ok_no_slash dirs_ok_no_slash : core.

Lemma dirs_ok_app ds ds' : dirs_ok (ds ++ ds')%list ↔ dirs_ok ds ∧ dirs_ok ds'.
Proof. apply Forall_app. Qed.

Lemma file_key_ok_spec k :
  file_key_ok k = true ↔ ∃ ds n, dirs_ok ds ∧ seg_ok n = true ∧ k = path_str ds n.
Proof.
  assert (∀ ds n, forallb dir_ok ds && seg_ok n = true ↔ dirs_ok ds ∧ seg_ok n = true) as Hb.
  { intros ds n. rewrite andb_true_iff, forallb_forall. unfold dirs_ok. rewrite Forall_forall.
    by setoid_rewrite list_elem_of_In. }
  unfold file_key_ok. split.
  - destruct (path_str_split k) as (ds & n & -> & _ & _ & ->).
    rewrite removelast_last, last_last. intros ?%Hb. naive_solver.
  - intros (ds & n & Hds & Hn & ->). rewrite split_path_str by auto.
    rewrite removelast_last, last_last. by apply Hb.
Qed.

(** ** Paths of keys *)

Lemma seg_components_app b l1 l2 :
  l1 ≠ [] → seg_components b (l1 ++ l2)%list = (seg_components b l1 ++ seg_components false l2)%list.
Proof.
  revert b. induction l1 as [|s l1 IH]; intros b; [done|]. intros _. simpl.
  destruct l1 as [|s' l1]; [simpl; by rewrite app_nil_r|].
  rewrite IH by done. by rewrite (assoc_L (++)%list).
Qed.

Lemma seg_components_ok b segs :
  Forall (λ n, seg_ok n = true) segs → seg_components b segs = Normal <$> segs.
Proof.
  intros H. revert b. induction H as [|n segs Hn _ IH]; intros b; simpl; [done|].
  apply seg_ok_spec in Hn as (Hn & Hdot & Hddot & _). rewrite IH, is_empty_false by done.
  by rewrite (proj2 (String.eqb_neq _ _) Hdot), (proj2 (String.eqb_neq _ _) Hddot).
Qed.

Lemma seg_components_root b segs : RootDir ∉ seg_components b segs.
Proof.
  revert b. induction segs as [|s segs IH]; intros b; simpl; [apply not_elem_of_nil|].
  rewrite not_elem_of_app. split; [|apply IH]. repeat case_match; set_solver.
Qed.

Lemma components_absolute s p :
  components s = RootDir :: p → ∃ r, s = "/" ++ r ∧ seg_components false (split_char slash r) = p.
Proof.
  unfold components. destruct s as [|a s]; [done|]. simpl.
  destruct (Ascii.eqb_spec a slash) as [->|Ha]; intros H.
  - injection H as H. eauto.
  - exfalso. destruct (split_char_cons slash s) as (w & ws & Hs). rewrite Hs in H.
    apply (seg_components_root true (String a w :: ws)). cbn [app] in H. rewrite H. apply list_elem_of_here.
Qed.

Lemma components_slash r : components ("/" ++ r) = RootDir :: seg_components false (split_char slash r).
Proof. done. Qed.

Lemma components_join root p k q :
  components root = RootDir :: p → starts_with_char slash k = false →
  seg_components false (split_char slash k) = q →
  components (StdPath.join root k) = RootDir :: (p ++ q)%list.
Proof.
  intros (r & -> & <-)%components_absolute Hk <-. unfold StdPath.join. rewrite Hk. simpl is_empty. cbn [orb].
  destruct (ends_with_char slash ("/" ++ r)) eqn:E.
  - apply ends_with_char_spec in E as [[|a x] E]; simpl in E.
    + injection E as ->. done.
    + injection E as <- ->. rewrite <- (app_assoc_str "/"), components_slash, <- app_assoc_str.
      change (String slash "" ++ k) with ("/" ++ k). rewrite split_char_app.
      change (String slash "") with ("/" ++ ""). rewrite split_char_app, !seg_components_app;
        [by rewrite app_nil_r|by destruct (split_char_cons slash x) as (? & ? & ->)..].
  - rewrite <- (app_assoc_str "/"), components_slash, split_char_app, seg_components_app; [done|].
    by destruct (split_char_cons slash r) as (? & ? & ->).
Qed.

(** ** Trees of files *)

#[global] Instance node_eq_dec : EqDecision node.
Proof. solve_decision. Defined.

(** Every node lies in a directory. *)
Definition closed (f : fs) : Prop :=
  ∀ p n, is_Some (nodes f !! (p ++ [n])%list) → lookup_node f p = Some Dir.

(** No file stands where [q] needs a directory. *)
Definition passable (f : fs) (q : list string) : Prop :=
  ∀ p d, p `prefix_of` q → lookup_node f p ≠ Some (File d).

Definition no_nul (q : list string) : Prop := Forall (λ n, contains (String "000" "") n = false) q.

Abbreviation absolute q := (RootDir :: (Normal <$> q)).

Lemma lookup_node_snoc f p n : lookup_node f (p ++ [n])%list = nodes f !! (p ++ [n])%list.
Proof. by destruct p. Qed.

Lemma lookup_node_ne f p : p ≠ [] → lookup_node f p = nodes f !! p.
Proof. by destruct p. Qed.

Lemma closed_prefix f p q :
  closed f → q ≠ [] → is_Some (lookup_node f (p ++ q)%list) → lookup_node f p = Some Dir.
Proof.
  intros Hc. induction q as [|n q IH] using rev_ind; [done|]. intros _.
  rewrite (assoc_L (++)%list), lookup_node_snoc. intros Hq%Hc.
  destruct q as [|m q]; [by rewrite app_nil_r in Hq|]. apply IH; [done|eauto].
Qed.

Lemma passable_app f p q : passable f (p ++ q)%list → passable f p.
Proof. intros H r d Hr. apply H. by apply prefix_app_r. Qed.

Lemma walk_snoc f cur q n :
  closed f → (∀ p d, p `prefix_of` q → lookup_node f (cur ++ p)%list ≠ Some (File d)) →
  walk f cur (Normal <$> (q ++ [n])%list) =
  if decide (lookup_node f (cur ++ q)%list = Some Dir) then Ok (cur ++ q ++ [n])%list else Err NotFound.
Proof.
  intros Hc. revert cur. induction q as [|m q IH]; intros cur Hp; simpl.
  - specialize (Hp [] ). rewrite app_nil_r in *. destruct (lookup_node f cur) as [[|d]|] eqn:E; simpl.
    + done.
    + by destruct (Hp d).
    + done.
  - destruct (lookup_node f cur) as [[|d]|] eqn:E; simpl.
    + rewrite IH, <- !(assoc_L (++)%list); [done|]. intros p d Hpq. rewrite <- (assoc_L (++)%list).
      apply Hp. by apply prefix_cons.
    + destruct (Hp [] d); [apply prefix_nil|]. by rewrite app_nil_r.
    + rewrite decide_False; [done|]. intros Hd.
      rewrite (closed_prefix f cur (m :: q)) in E; [done|done|done|by rewrite Hd].
Qed.

Lemma existsb_no_nul q : no_nul q → existsb has_nul (Normal <$> q) = false.
Proof. induction 1 as [|n q Hn _ IH]; simpl; [done|]. by rewrite Hn. Qed.

Lemma resolve_snoc f q n :
  closed f → no_nul (q ++ [n])%list → passable f q →
  resolve f (absolute (q ++ [n])%list) =
  if decide (lookup_node f q = Some Dir) then Ok (q ++ [n])%list else Err NotFound.
Proof.
  intros Hc Hn Hp. unfold resolve.
  change (existsb has_nul (absolute (q ++ [n])%list)) with (existsb has_nul (Normal <$> (q ++ [n])%list)).
  rewrite existsb_no_nul by done. by rewrite walk_snoc.
Qed.

Lemma node_at_absolute f q n :
  closed f → no_nul (q ++ [n])%list → passable f q →
  node_at f (absolute (q ++ [n])%list) =
  match nodes f !! (q ++ [n])%list with Some x => Ok ((q ++ [n])%list, x) | None => Err NotFound end.
Proof.
  intros Hc Hn Hp. unfold node_at. rewrite resolve_snoc by done.
  destruct (decide _) as [Hd|Hd]; [by rewrite lookup_node_snoc|].
  destruct (nodes f !! (q ++ [n])%list) eqn:E; [|done]. destruct Hd. apply (Hc q n). by rewrite E.
Qed.

Lemma node_at_dir f q :
  closed f → no_nul q → passable f q →
  node_at f (absolute q) = match lookup_node f q with Some x => Ok (q, x) | None => Err NotFound end.
Proof.
  destruct (list_eq_nil_or_snoc q) as [->|(p & n & ->)]; [done|]. intros Hc Hn Hp.
  rewrite node_at_absolute, lookup_node_snoc; [done..|by eapply passable_app].
Qed.

(** [create_dir_all] adds the missing directories on the way. *)
Definition with_dirs (q : list string) (ns : gmap (list string) node) (p : list string) : option node :=
  match ns !! p with
  | Some x => Some x
  | None => if decide (p ≠ [] ∧ p `prefix_of` q) then Some Dir else None
  end.

Definition made_dirs (f : fs) (q : list string) (f' : fs) : Prop :=
  cwd f' = cwd f ∧ ∀ p, nodes f' !! p = with_dirs q (nodes f) p.

Lemma made_dirs_refl f q : closed f → lookup_node f q = Some Dir → made_dirs f q f.
Proof.
  intros Hc Hq. split; [done|]. intros p. unfold with_dirs. destruct (nodes f !! p) eqn:E; [done|].
  destruct (decide _) as [[Hp [r ->]]|]; [|done]. rewrite <- lookup_node_ne in E by done.
  destruct r as [|n r]; [by rewrite app_nil_r, E in Hq|].
  by rewrite (closed_prefix f p (n :: r)) in E by eauto.
Qed.

Lemma made_dirs_lookup f q f' p :
  made_dirs f q f' → lookup_node f' p =
    match lookup_node f p with Some x => Some x | None => if decide (p `prefix_of` q) then Some Dir else None end.
Proof.
  intros [_ H]. destruct p as [|n p]; [done|]. rewrite !lookup_node_ne, H by done.
  unfold with_dirs. destruct (nodes f !! _); [done|]. apply decide_ext. naive_solver.
Qed.

Lemma made_dirs_closed f q f' : closed f → passable f q → made_dirs f q f' → closed f'.
Proof.
  intros Hc Hp Hm p n. rewrite <- lookup_node_snoc, !(made_dirs_lookup f q f') by done.
  rewrite lookup_node_snoc. destruct (nodes f !! _) eqn:E.
  - intros _. by rewrite (Hc p n) by eauto.
  - destruct (decide _) as [Hpre|]; [|by intros []]. intros _.
    assert (p `prefix_of` q) as Hpq by (etrans; [by apply prefix_app_r|done]).
    destruct (lookup_node f p) as [[|d]|] eqn:E'; [done| |by rewrite decide_True].
    by destruct (Hp p d).
Qed.

Lemma mkdir_absolute f q n :
  closed f → no_nul (q ++ [n])%list → passable f q →
  mkdir f (absolute (q ++ [n])%list) =
  if decide (lookup_node f q = Some Dir) then
    match nodes f !! (q ++ [n])%list with
    | Some _ => (f, Err AlreadyExists)
    | None => (set_nodes f (<[(q ++ [n])%list := Dir]> (nodes f)), Ok tt)
    end
  else (f, Err NotFound).
Proof.
  intros Hc Hn Hp. unfold mkdir. rewrite resolve_snoc by done.
  destruct (decide _); [|done]. by rewrite lookup_node_snoc.
Qed.

Lemma create_dir_all_snoc f p c :
  create_dir_all f (p ++ [c])%list =
  let settle f r :=
    match r with
    | Err e => if is_dir f (p ++ [c])%list then (f, Ok tt) else (f, Err e)
    | r => (f, r)
    end in
  match mkdir f (p ++ [c])%list with
  | (f, Err NotFound) =>
      match create_dir_all f p with
      | (f, Ok _) => let '(f, r) := mkdir f (p ++ [c])%list in settle f r
      | (f, r) => (f, r)
      end
  | (f, r) => settle f r
  end.
Proof.
  unfold create_dir_all. rewrite rev_app_distr. simpl. by rewrite rev_involutive.
Qed.

Lemma absolute_snoc q n : absolute (q ++ [n])%list = (absolute q ++ [Normal n])%list.
Proof. by rewrite fmap_app. Qed.

Lemma made_dirs_snoc f q n f' f'' :
  made_dirs f q f' → nodes f !! (q ++ [n])%list = None →
  f'' = set_nodes f' (<[(q ++ [n])%list := Dir]> (nodes f')) → made_dirs f (q ++ [n])%list f''.
Proof.
  intros [Hcwd Hm] Hnone ->. split; [done|]. intros p. simpl.
  destruct (decide (p = q ++ [n])%list) as [->|Hne].
  - rewrite lookup_insert_eq. unfold with_dirs. rewrite Hnone, decide_True; [done|].
    split; [by destruct q|done].
  - rewrite lookup_insert_ne, Hm by done. unfold with_dirs. destruct (nodes f !! p); [done|].
    apply decide_ext. split; intros [Hp Hpre]; split; try done; [by apply prefix_app_r|].
    destruct Hpre as [r Hr]. destruct (list_eq_nil_or_snoc r) as [->|(r' & m & ->)].
    + by rewrite app_nil_r in Hr.
    + rewrite (assoc_L (++)%list) in Hr. apply app_inj_tail in Hr as [-> _]. by exists r'.
Qed.

Lemma create_dir_all_ok f q :
  closed f → no_nul q → passable f q →
  ∃ f', create_dir_all f (absolute q) = (f', Ok tt) ∧ made_dirs f q f'.
Proof.
  intros Hc. induction q as [|n q IH] using rev_ind; intros Hn Hp.
  { exists f. split; [done|]. by apply made_dirs_refl. }
  assert (no_nul q) as Hnq by (by apply Forall_app in Hn as [? _]).
  assert (passable f q) as Hpq by (by eapply passable_app).
  rewrite absolute_snoc, create_dir_all_snoc, <- absolute_snoc, mkdir_absolute by done. cbv zeta.
  destruct (decide (lookup_node f q = Some Dir)) as [Hd|Hd].
  - destruct (nodes f !! (q ++ [n])%list) as [x|] eqn:E.
    + assert (lookup_node f (q ++ [n])%list = Some Dir) as Hx.
      { rewrite lookup_node_snoc. destruct x as [|d]; [done|].
        destruct (Hp (q ++ [n])%list d); [done|]. by rewrite lookup_node_snoc. }
      unfold is_dir. rewrite node_at_dir, Hx by done. exists f. split; [done|]. by apply made_dirs_refl.
    + eexists. split; [done|]. eapply made_dirs_snoc; [|done|done]. by apply made_dirs_refl.
  - destruct IH as (f' & -> & Hm); [done..|].
    assert (nodes f !! (q ++ [n])%list = None) as Hnone.
    { destruct (nodes f !! (q ++ [n])%list) eqn:E; [|done]. destruct Hd. apply (Hc q n). by rewrite E. }
    assert (lookup_node f' q = Some Dir) as Hd'.
    { rewrite (made_dirs_lookup f q f') by done. rewrite decide_True by done.
      destruct (lookup_node f q) as [[|d]|] eqn:E; [done| |done]. by destruct (Hpq q d). }
    rewrite mkdir_absolute, decide_True; [|done|by eapply made_dirs_closed|done|].
    + replace (nodes f' !! (q ++ [n])%list) with (@None node); [eexists; split; [done|by eapply made_dirs_snoc]|].
      destruct Hm as [_ Hm]. rewrite Hm. unfold with_dirs. rewrite Hnone, decide_False; [done|].
      intros [_ Hpre%prefix_length]. rewrite length_app in Hpre. simpl in Hpre. lia.
    + intros p d Hpre. rewrite (made_dirs_lookup f q f') by done. rewrite decide_True by done.
      destruct (lookup_node f p) eqn:E; [|done]. intros [= ->]. by destruct (Hpq p d).
Qed.

(** ** The relation between files and the map they keep *)

(** serde_json writes UTF-8. *)
Class SerdeUtf8 (A : Type) `{Serde A} : Prop :=
  ser_utf8 : ∀ a bs, ser a = Some bs → is_utf8 bs = true.

(** The name of the file of the entry [n], and its place. *)
Abbreviation under n := (String "_"%char n).
Abbreviation file_of base ds n := (base ++ ds ++ [under n])%list.

Section refinement.
Context `{HS : Serde BackendEntry} `{HSL : !SerdeLaws BackendEntry} `{HSU : !SerdeUtf8 BackendEntry}.

(** The backend's directory is [base]; below it, the files are exactly the
    entries of [m], each in the file its key names, and the directories have
    names that are no file's. *)
Record file_rel (base : list string) (s : FileBackend.t) (m : gmap string bytes) : Prop := {
  fr_lock : FileBackend.poisoned s = false;
  fr_root : components (FileBackend.path s) = absolute base;
  fr_nul : no_nul base;
  fr_closed : closed (FileBackend.files s);
  fr_base : passable (FileBackend.files s) base;
  fr_stored k v : m !! k = Some v →
    ∃ ds n bs, k = path_str ds n ∧ dirs_ok ds ∧ seg_ok n = true ∧
      ser {| be_key := k; be_value := v |} = Some bs ∧
      nodes (FileBackend.files s) !! file_of base ds n = Some (File bs);
  fr_files p d : nodes (FileBackend.files s) !! (base ++ p)%list = Some (File d) →
    ∃ ds n, p = (ds ++ [under n])%list ∧ dirs_ok ds ∧ seg_ok n = true ∧ is_Some (m !! path_str ds n);
  fr_dirs p : nodes (FileBackend.files s) !! (base ++ p)%list = Some Dir → p ≠ [] → dirs_ok p
}.

Lemma underscore_not_dir ds n : ¬ dirs_ok (ds ++ [under n])%list.
Proof.
  intros [_ H]%dirs_ok_app. inversion H as [|? ? Hd]; subst. by apply dir_ok_underscore in Hd.
Qed.

Lemma snoc_underscore_inj ds n ds' n' :
  (ds ++ [under n])%list = (ds' ++ [under n'])%list → ds = ds' ∧ n = n'.
Proof. intros [-> [= ->]]%app_inj_tail. done. Qed.

Lemma rel_passable base s m ds :
  file_rel base s m → dirs_ok ds → passable (FileBackend.files s) (base ++ ds)%list.
Proof.
  intros R Hds p d Hp Hf.
  destruct (decide (p `prefix_of` base)) as [Hb|Hb]; [by apply (fr_base _ _ _ R p d)|].
  destruct Hp as [k Hk]. apply app_eq_inv in Hk as [(r & -> & _)|(r & -> & ->)]; [by destruct Hb; exists r|].
  rewrite lookup_node_ne in Hf by (intros He; apply Hb; by rewrite He; apply prefix_nil).
  apply (fr_files _ _ _ R) in Hf as (ds' & n & -> & _). apply dirs_ok_app in Hds as [Hds _].
  by apply underscore_not_dir in Hds.
Qed.

(** The node a key names holds its value's entry, if it has a value. *)
Lemma rel_lookup base s m ds n :
  file_rel base s m → dirs_ok ds → seg_ok n = true →
  nodes (FileBackend.files s) !! file_of base ds n =
  File <$> (m !! path_str ds n ≫= λ v, ser {| be_key := path_str ds n; be_value := v |}).
Proof.
  intros R Hds Hn. destruct (nodes _ !! file_of base ds n) as [[|d]|] eqn:E.
  - apply (fr_dirs _ _ _ R) in E; [|by destruct ds]. by apply underscore_not_dir in E.
  - destruct (fr_files _ _ _ R _ _ E) as (ds' & n' & [<- <-]%snoc_underscore_inj & _ & _ & [v Hv]).
    destruct (fr_stored _ _ _ R _ _ Hv) as (ds' & n' & bs & Heq & Hds' & Hn' & Hser & Hnode).
    apply path_str_inj in Heq as [<- <-]; [|auto..]. rewrite Hv. simpl. rewrite Hser. simpl. congruence.
  - destruct (m !! path_str ds n) as [v|] eqn:Hv; [|done].
    destruct (fr_stored _ _ _ R _ _ Hv) as (ds' & n' & bs & Heq & Hds' & Hn' & Hser & Hnode).
    apply path_str_inj in Heq as [<- <-]; [|auto..]. congruence.
Qed.

Lemma seg_ok_no_nul n : seg_ok n = true → contains (String "000" "") n = false.
Proof. by intros (_ & _ & _ & _ & ? & _)%seg_ok_spec. Qed.

Lemma dirs_ok_no_nul ds : dirs_ok ds → no_nul ds.
Proof. intros H. eapply Forall_impl; [exact H|]. intros d Hd. by apply seg_ok_no_nul, dir_ok_seg. Qed.

Lemma rel_no_nul_dir base s m ds : file_rel base s m → dirs_ok ds → no_nul (base ++ ds)%list.
Proof. intros R Hds. apply Forall_app. split; [apply R|by apply dirs_ok_no_nul]. Qed.

Lemma rel_no_nul base s m ds n :
  file_rel base s m → dirs_ok ds → seg_ok n = true → no_nul ((base ++ ds) ++ [under n])%list.
Proof.
  intros R Hds Hn. apply Forall_app. split; [by eapply rel_no_nul_dir|].
  constructor; [|constructor]. cbn [contains]. by apply seg_ok_no_nul.
Qed.

Lemma dirs_ok_seg_ok ds : dirs_ok ds → Forall (λ d, seg_ok d = true) ds.
Proof. intros H. eapply Forall_impl; [exact H|]. eauto. Qed.

Lemma path_str_no_root ds n : Forall (λ d, seg_ok d = true) ds → no_slash n →
  starts_with_char slash (path_str ds n) = false.
Proof.
  intros [|d ds' Hd _]; simpl.
  - unfold no_slash. destruct n as [|a n]; simpl; [done|]. by destruct (Ascii.eqb a slash).
  - apply seg_ok_spec in Hd as (Hne & _ & _ & Hs & _). unfold no_slash in Hs.
    destruct d as [|a d]; [done|]. simpl in *. by destruct (Ascii.eqb a slash).
Qed.

Lemma path_key_segs base s m ds n :
  file_rel base s m → Forall (λ d, seg_ok d = true) ds → seg_ok n = true →
  FileBackend.path_key s (path_str ds n) = Ok (absolute (base ++ ds)%list, under n).
Proof.
  intros R Hds Hn. unfold FileBackend.path_key.
  assert (Forall no_slash ds) by (eapply Forall_impl; eauto).
  rewrite (components_join _ (Normal <$> base) _ (Normal <$> (ds ++ [n])%list)).
  - rewrite <- fmap_app, (assoc_L (++)%list), absolute_snoc.
    unfold parent, file_name. rewrite last_snoc. by rewrite removelast_last.
  - apply R.
  - apply path_str_no_root; auto.
  - rewrite split_path_str by auto. apply seg_components_ok, Forall_app.
    split; [done|by repeat constructor].
Qed.

Lemma path_key_ok base s m ds n :
  file_rel base s m → dirs_ok ds → seg_ok n = true →
  FileBackend.path_key s (path_str ds n) = Ok (absolute (base ++ ds)%list, under n).
Proof. intros R Hds Hn. eapply path_key_segs; [done|by apply dirs_ok_seg_ok|done]. Qed.

Lemma key_ok_no_root ds n : dirs_ok ds → seg_ok n = true → starts_with_char slash (path_str ds n) = false.
Proof. intros ? ?. apply path_str_no_root; [by apply dirs_ok_seg_ok|auto]. Qed.

Lemma file_get_spec base s m k :
  file_rel base s m → file_key_ok k = true →
  FileBackend.get s k = Ok ((fun v => {| be_key := k; be_value := v |}) <$> m !! k).
Proof.
  intros R (ds & n & Hds & Hn & ->)%file_key_ok_spec. unfold FileBackend.get.
  rewrite key_ok_no_root, (path_key_ok base s m), (fr_lock _ _ _ R) by done.
  rewrite <- absolute_snoc, node_at_absolute; [|apply R|by eapply rel_no_nul|by eapply rel_passable].
  rewrite <- (assoc_L (++)%list), (rel_lookup base s m) by done.
  destruct (m !! path_str ds n) as [v|]; [|done]. simpl.
  destruct (ser_total {| be_key := path_str ds n; be_value := v |}) as [bs Hbs]. rewrite Hbs. simpl.
  rewrite (ser_utf8 _ _ Hbs), (de_ser _ _ Hbs). done.
Qed.

(** What lies below the backend's directory, whoever else uses the tree. *)
Lemma file_rel_intro base s s' m m' :
  file_rel base s m → FileBackend.path s' = FileBackend.path s →
  FileBackend.poisoned s' = FileBackend.poisoned s → closed (FileBackend.files s') →
  passable (FileBackend.files s') base →
  (∀ k v, m' !! k = Some v → ∃ ds n bs, k = path_str ds n ∧ dirs_ok ds ∧ seg_ok n = true ∧
     ser {| be_key := k; be_value := v |} = Some bs ∧
     nodes (FileBackend.files s') !! file_of base ds n = Some (File bs)) →
  (∀ p d, nodes (FileBackend.files s') !! (base ++ p)%list = Some (File d) →
     ∃ ds n, p = (ds ++ [under n])%list ∧ dirs_ok ds ∧ seg_ok n = true ∧ is_Some (m' !! path_str ds n)) →
  (∀ p, nodes (FileBackend.files s') !! (base ++ p)%list = Some Dir → p ≠ [] → dirs_ok p) →
  file_rel base s' m'.
Proof. intros R Hp Hl. intros. split; try done; [by rewrite Hl; apply R|by rewrite Hp; apply R|apply R]. Qed.

Lemma file_of_ne_prefix base ds n p : p `prefix_of` (base ++ ds)%list → p ≠ file_of base ds n.
Proof.
  intros Hp%prefix_length ->. rewrite !length_app in Hp. simpl in Hp. lia.
Qed.

Lemma file_of_inj base ds n ds' n' : file_of base ds n = file_of base ds' n' → ds = ds' ∧ n = n'.
Proof. intros H%app_inv_head. by apply snoc_underscore_inj. Qed.

(** The directories on the way leave the files and the other directories alone. *)
Lemma rel_made_dirs base s m ds n f :
  file_rel base s m → dirs_ok ds → seg_ok n = true →
  made_dirs (FileBackend.files s) (base ++ ds)%list f →
  closed f ∧ lookup_node f (base ++ ds)%list = Some Dir ∧ lookup_node f (file_of base ds n) ≠ Some Dir ∧
  passable f (base ++ ds)%list ∧
  (∀ p d, nodes f !! p = Some (File d) ↔ nodes (FileBackend.files s) !! p = Some (File d)) ∧
  (∀ p, nodes f !! p = Some Dir → nodes (FileBackend.files s) !! p = Some Dir ∨ p `prefix_of` (base ++ ds)%list).
Proof.
  intros R Hds Hn Hm. pose proof (rel_passable base s m ds R Hds) as Hpass.
  assert (∀ p, p `prefix_of` (base ++ ds)%list → lookup_node f p = Some Dir) as Hpre.
  { intros p Hp. rewrite (made_dirs_lookup _ _ f p Hm), decide_True by done.
    destruct (lookup_node _ _) as [[|d]|] eqn:E; [done| |done]. by destruct (Hpass p d). }
  split_and!.
  - by eapply made_dirs_closed; [apply R| |].
  - by apply Hpre.
  - rewrite (made_dirs_lookup _ _ f _ Hm), decide_False.
    + rewrite lookup_node_ne, (rel_lookup base s m) by (done || by destruct base, ds).
      by destruct (_ ≫= _).
    + intros Hp. by apply (file_of_ne_prefix base ds n) in Hp.
  - intros p d Hp. by rewrite Hpre.
  - intros p d. rewrite (proj2 Hm p). unfold with_dirs. destruct (nodes _ !! p); [done|by case_decide].
  - intros p. rewrite (proj2 Hm p). unfold with_dirs. destruct (nodes _ !! p); [auto|].
    case_decide; [|done]. right. tauto.
Qed.

(** Writing an entry into directories that exist. *)
Lemma rel_insert base s m ds n v bs f :
  file_rel base s m → dirs_ok ds → seg_ok n = true →
  made_dirs (FileBackend.files s) (base ++ ds)%list f →
  ser {| be_key := path_str ds n; be_value := v |} = Some bs →
  file_rel base (FileBackend.set_files s (set_nodes f (<[file_of base ds n := File bs]> (nodes f))))
           (<[path_str ds n := v]> m).
Proof.
  intros R Hds Hn Hm Hser.
  destruct (rel_made_dirs base s m ds n f R Hds Hn Hm) as (Hcf & Hpar & Hqd & Hpass & Hfile & Hdir).
  set (q := file_of base ds n) in *.
  assert (∀ p, p ≠ q → lookup_node (set_nodes f (<[q := File bs]> (nodes f))) p = lookup_node f p) as Hne.
  { intros [|a p] Hp; [done|]. simpl. by rewrite lookup_insert_ne. }
  apply (file_rel_intro base s _ m); simpl; try done.
  - intros p x Hx. destruct (decide (p ++ [x] = q)%list) as [He|He].
    + unfold q in He. rewrite (assoc_L (++)%list) in He. apply app_inj_tail in He as [-> ->].
      by rewrite Hne by (by apply file_of_ne_prefix).
    + simpl in Hx. rewrite lookup_insert_ne in Hx by done. apply Hcf in Hx.
      rewrite Hne; [done|]. by intros ->.
  - intros p d Hp. rewrite Hne by (by apply file_of_ne_prefix, prefix_app_r).
    by apply Hpass, prefix_app_r.
  - intros k w [[<- <-]|[Hk Hw]]%lookup_insert_Some.
    + exists ds, n, bs. split_and!; try done. by rewrite lookup_insert_eq.
    + destruct (fr_stored _ _ _ R _ _ Hw) as (ds' & n' & bs' & -> & Hds' & Hn' & Hs' & Hnode).
      exists ds', n', bs'. split_and!; try done. rewrite lookup_insert_ne; [by apply Hfile|].
      intros [-> ->]%file_of_inj. done.
  - intros p d [[He _]|[Hne' Hp%Hfile]]%lookup_insert_Some.
    + apply app_inv_head in He as <-. exists ds, n. split_and!; try done. rewrite lookup_insert_eq. eauto.
    + destruct (fr_files _ _ _ R _ _ Hp) as (ds' & n' & -> & Hds' & Hn' & Hm').
      exists ds', n'. split_and!; try done. rewrite lookup_insert_is_Some'. by right.
  - intros p [[_ ?]|[_ [Hp|[r Hr]]%Hdir]]%lookup_insert_Some Hne'; [done|by apply (fr_dirs _ _ _ R)|].
    rewrite <- (assoc_L (++)%list) in Hr. apply app_inv_head in Hr as ->. by apply dirs_ok_app in Hds as [? _].
Qed.

Lemma file_put_spec base s m e :
  file_rel base s m → file_key_ok (be_key e) = true →
  ∃ s', FileBackend.put s e = (s', Ok tt) ∧ file_rel base s' (<[be_key e := be_value e]> m) ∧
    ∀ p, nodes (FileBackend.files s') !! p = Some Dir →
         nodes (FileBackend.files s) !! p = Some Dir ∨
         ∃ ds n, be_key e = path_str ds n ∧ dirs_ok ds ∧ seg_ok n = true ∧ p `prefix_of` (base ++ ds)%list.
Proof.
  intros R (ds & n & Hds & Hn & Hk)%file_key_ok_spec. unfold FileBackend.put. destruct e as [k v]; simpl in *; subst k.
  rewrite key_ok_no_root, (fr_lock _ _ _ R), (path_key_ok base s m) by done.
  destruct (create_dir_all_ok (FileBackend.files s) (base ++ ds)%list) as (f & -> & Hm);
    [apply R|by eapply rel_no_nul_dir|by eapply rel_passable|].
  destruct (rel_made_dirs base s m ds n f R Hds Hn Hm) as (Hcf & Hpar & Hqd & Hpass & Hfile & Hdir).
  destruct (ser_total {| be_key := path_str ds n; be_value := v |}) as [bs Hbs].
  exists (FileBackend.set_files s (set_nodes f (<[file_of base ds n := File bs]> (nodes f)))).
  split_and!; [|by apply rel_insert|].
  - unfold create. rewrite <- absolute_snoc, resolve_snoc, decide_True by (done || by eapply rel_no_nul).
    rewrite <- (assoc_L (++)%list). destruct (lookup_node f (file_of base ds n)) as [[|d]|] eqn:E; [done|..]; rewrite Hbs;
      unfold FileBackend.set_files, set_nodes; simpl; by rewrite insert_insert_eq.
  - simpl. intros p [[_ ?]|[_ [Hp|Hp]%Hdir]]%lookup_insert_Some; [done|by left|]. right. eauto 10.
Qed.

Lemma rel_delete base s m ds n :
  file_rel base s m → dirs_ok ds → seg_ok n = true →
  (∃ d, nodes (FileBackend.files s) !! file_of base ds n = Some (File d)) →
  file_rel base (FileBackend.set_files s
    (set_nodes (FileBackend.files s) (base.delete (file_of base ds n) (nodes (FileBackend.files s)))))
    (base.delete (path_str ds n) m).
Proof.
  intros R Hds Hn [d Hd]. set (q := file_of base ds n) in *.
  assert (∀ p x, lookup_node (FileBackend.files s) p = Some x → p ≠ q →
    lookup_node (set_nodes (FileBackend.files s) (base.delete q (nodes (FileBackend.files s)))) p = Some x) as Hne.
  { intros [|a p] x Hx Hp; [done|]. simpl in *. by rewrite lookup_delete_ne. }
  apply (file_rel_intro base s _ m); simpl; try done.
  - intros p x [y Hy]. simpl in Hy. apply lookup_delete_Some in Hy as [_ Hx].
    pose proof (fr_closed _ _ _ R p x (ex_intro _ y Hx)) as Hp. apply Hne; [done|].
    intros ->. unfold q in *. by rewrite lookup_node_ne in Hp by (by destruct base, ds); congruence.
  - intros p d' Hp Hl. apply (fr_base _ _ _ R p d' Hp). destruct p as [|a p]; [done|].
    simpl in *. by apply lookup_delete_Some in Hl as [_ ?].
  - intros k v [Hk Hv]%lookup_delete_Some.
    destruct (fr_stored _ _ _ R _ _ Hv) as (ds' & n' & bs' & -> & Hds' & Hn' & Hs' & Hnode).
    exists ds', n', bs'. split_and!; try done. rewrite lookup_delete_ne; [done|].
    by intros [-> ->]%file_of_inj.
  - intros p d' [Hp Hl]%lookup_delete_Some.
    destruct (fr_files _ _ _ R _ _ Hl) as (ds' & n' & -> & Hds' & Hn' & Hm').
    exists ds', n'. split_and!; try done. rewrite lookup_delete_ne; [done|].
    intros He. apply path_str_inj in He as [-> ->]; [done|auto..].
  - intros p [_ Hl]%lookup_delete_Some. by apply (fr_dirs _ _ _ R).
Qed.

Lemma file_delete_spec base s m k :
  file_rel base s m → file_key_ok k = true →
  ∃ s', FileBackend.delete s k = (s', Ok tt) ∧ file_rel base s' (base.delete k m) ∧
    ∀ p, nodes (FileBackend.files s') !! p = Some Dir → nodes (FileBackend.files s) !! p = Some Dir.
Proof.
  intros R (ds & n & Hds & Hn & ->)%file_key_ok_spec. unfold FileBackend.delete.
  rewrite key_ok_no_root, (fr_lock _ _ _ R), (path_key_ok base s m) by done.
  unfold remove_file. rewrite <- absolute_snoc, node_at_absolute;
    [|apply R|by eapply rel_no_nul|by eapply rel_passable].
  rewrite <- (assoc_L (++)%list), (rel_lookup base s m) by done.
  destruct (m !! path_str ds n) as [v|] eqn:Hv; simpl.
  - destruct (ser_total {| be_key := path_str ds n; be_value := v |}) as [bs Hbs]. rewrite Hbs. simpl.
    eexists. split_and!; [done| |].
    + apply rel_delete; try done. exists bs. rewrite (rel_lookup base s m), Hv by done. simpl. by rewrite Hbs.
    + simpl. by intros p [_ ?]%lookup_delete_Some.
  - exists (FileBackend.set_files s (FileBackend.files s)). split_and!; [done| |done].
    rewrite delete_id by done. by destruct s.
Qed.

(** *** Listings *)

Lemma below_Some q p r : below q p = Some r ↔ p = (q ++ r)%list.
Proof.
  revert p. induction q as [|a q IH]; intros p; simpl; [naive_solver|].
  destruct p as [|b p]; [done|]. destruct (String.eqb_spec a b) as [->|Hne].
  - rewrite IH. naive_solver.
  - naive_solver.
Qed.

Lemma elem_of_file_children f q n : n ∈ children f q ↔ is_Some (nodes f !! (q ++ [n])%list).
Proof.
  unfold children. rewrite list_elem_of_omap. split.
  - intros (p & Hp & Hn). destruct (below q p) as [r|] eqn:E; [|done].
    destruct r as [|? []]; [done| |done]. injection Hn as ->. apply below_Some in E as ->.
    apply list_elem_of_In, in_map_iff in Hp as ([? x] & <- & Hin%list_elem_of_In%elem_of_map_to_list). eauto.
  - intros [x Hx]. exists (q ++ [n])%list. split.
    + apply list_elem_of_In, in_map_iff. exists ((q ++ [n])%list, x).
      split; [done|]. by apply list_elem_of_In, elem_of_map_to_list.
    + by rewrite (proj2 (below_Some q _ [n]) eq_refl).
Qed.

Lemma NoDup_children f q : NoDup (children f q).
Proof.
  unfold children. pose proof (NoDup_fst_map_to_list (nodes f)) as H.
  change (map fst) with (fmap (M := list) (@fst (list string) node)).
  induction H as [|p l Hp _ IH]; simpl; [constructor|].
  destruct (below q p) as [[|n []]|] eqn:E; try done. apply below_Some in E as ->.
  constructor; [|done]. rewrite list_elem_of_omap. intros (p & Hin & Hn).
  destruct (below q p) as [[|? []]|] eqn:E; try done. injection Hn as ->. by apply below_Some in E as ->.
Qed.

Definition shown (entry : string) : string :=
  let name := from_utf8_lossy (String.list_byte_of_string entry) in
  match strip_prefix "_" name with Some stripped => stripped | None => name ++ "/" end.

Lemma shown_file n : seg_ok n = true → shown (under n) = n.
Proof.
  intros (_ & _ & _ & _ & _ & Hn)%seg_ok_spec. unfold shown.
  change (from_utf8_lossy (String.list_byte_of_string (under n)))
    with (under (from_utf8_lossy (String.list_byte_of_string n))).
  rewrite Hn. done.
Qed.

Lemma shown_dir d : dir_ok d = true → shown d = d ++ "/".
Proof.
  intros Hd. pose proof (dir_ok_underscore d Hd) as Hu.
  apply dir_ok_seg, seg_ok_spec in Hd as (_ & _ & _ & _ & _ & Hn). unfold shown. rewrite Hn.
  unfold starts_with in Hu. by destruct (strip_prefix "_" d).
Qed.

Lemma child_cases base s m ds n :
  file_rel base s m → dirs_ok ds → n ∈ children (FileBackend.files s) (base ++ ds)%list →
  (dir_ok n = true ∧ nodes (FileBackend.files s) !! (base ++ ds ++ [n])%list = Some Dir ∧ shown n = n ++ "/") ∨
  (∃ n', n = under n' ∧ seg_ok n' = true ∧ is_Some (m !! path_str ds n') ∧ shown n = n').
Proof.
  intros R Hds [x Hx]%elem_of_file_children. rewrite <- (assoc_L (++)%list) in Hx. destruct x as [|d].
  - left. assert (dir_ok n = true) as Hn.
    { apply (fr_dirs _ _ _ R) in Hx; [|by destruct ds]. apply dirs_ok_app in Hx as [_ Hx]. by inversion Hx. }
    split_and!; [done|done|by apply shown_dir].
  - right. destruct (fr_files _ _ _ R _ _ Hx) as (ds' & n' & He & _ & Hn' & Hm).
    apply app_inj_tail in He as [<- ->]. exists n'. split_and!; [done..|by apply shown_file].
Qed.

Lemma shown_inj base s m ds a b :
  file_rel base s m → dirs_ok ds →
  a ∈ children (FileBackend.files s) (base ++ ds)%list → b ∈ children (FileBackend.files s) (base ++ ds)%list →
  shown a = shown b → a = b.
Proof.
  intros R Hds Ha Hb.
  destruct (child_cases _ _ _ _ _ R Hds Ha) as [(_ & _ & ->)|(a' & -> & Ha' & _ & ->)],
    (child_cases _ _ _ _ _ R Hds Hb) as [(_ & _ & ->)|(b' & -> & Hb' & _ & ->)].
  - intros H%(f_equal drop_last). by autorewrite with rust_str in H.
  - intros <-. by apply seg_ok_no_slash, no_slash_app_slash in Hb'.
  - intros ->. by apply seg_ok_no_slash, no_slash_app_slash in Ha'.
  - by intros ->.
Qed.

(** The directories below the backend's directory, as prefixes of keys. *)
Definition file_dirs (base : list string) (s : FileBackend.t) : list string :=
  omap (fun '(p, x) => match x, below base p with
                       | Dir, Some (d :: r) => Some (path_str (d :: r) "")
                       | _, _ => None
                       end) (map_to_list (nodes (FileBackend.files s))).

Lemma elem_of_file_dirs base s x :
  x ∈ file_dirs base s ↔
  ∃ ds, ds ≠ [] ∧ nodes (FileBackend.files s) !! (base ++ ds)%list = Some Dir ∧ x = path_str ds "".
Proof.
  unfold file_dirs. rewrite list_elem_of_omap. split.
  - intros ([p y] & Hin%elem_of_map_to_list & Hx). destruct y; [|done].
    destruct (below base p) as [[|d r]|] eqn:E; try done. apply below_Some in E as ->.
    injection Hx as <-. by exists (d :: r).
  - intros (ds & Hne & Hin & ->). exists ((base ++ ds)%list, Dir). split; [by apply elem_of_map_to_list|].
    rewrite (proj2 (below_Some base _ ds) eq_refl). by destruct ds.
Qed.

Lemma path_str_snoc ds d x : path_str (ds ++ [d])%list x = path_str ds (d ++ "/" ++ x).
Proof. unfold path_str. by rewrite foldr_app. Qed.

Lemma stored_lookup base s m k v :
  file_rel base s m → m !! k = Some v →
  ∃ ds n, k = path_str ds n ∧ dirs_ok ds ∧ seg_ok n = true ∧
    is_Some (nodes (FileBackend.files s) !! file_of base ds n).
Proof.
  intros R Hv. destruct (fr_stored _ _ _ R _ _ Hv) as (ds & n & bs & -> & Hds & Hn & _ & Hx).
  exists ds, n. eauto.
Qed.

Lemma split_path_str_gen ds x :
  Forall no_slash ds → split_char slash (path_str ds x) = (ds ++ split_char slash x)%list.
Proof.
  induction 1 as [|d ds Hd _ IH]; [done|].
  by rewrite path_str_cons, split_char_app, (split_char_no_slash d), IH.
Qed.

(** The directories on the way to a stored key are there. *)
Lemma stored_dir base s m ds d rest :
  file_rel base s m → dirs_ok ds → no_slash d → is_Some (m !! path_str ds (d ++ "/" ++ rest)) →
  dir_ok d = true ∧ d ∈ children (FileBackend.files s) (base ++ ds)%list.
Proof.
  intros R Hds Hd [v Hv]. destruct (stored_lookup _ _ _ _ _ R Hv) as (ds' & n & He & Hds' & Hn & Hx).
  apply (f_equal (split_char slash)) in He.
  rewrite split_path_str_gen, split_char_app, (split_char_no_slash d), split_path_str in He by auto.
  destruct (list_eq_nil_or_snoc (split_char slash rest)) as [Hr|(l & y & Hr)].
  { by destruct (split_char_cons slash rest) as (? & ? & ?); congruence. }
  rewrite Hr in He. change ([d] ++ l ++ [y])%list with ((d :: l) ++ [y])%list in He.
  rewrite (assoc_L (++)%list) in He. apply app_inj_tail in He as [<- _].
  assert (dir_ok d = true) as Hdir by (apply dirs_ok_app in Hds' as [_ H]; by inversion H).
  split; [done|]. apply elem_of_file_children. rewrite <- lookup_node_snoc.
  rewrite (closed_prefix _ _ (l ++ [under n])%list); [done|apply R|by destruct l|].
  rewrite lookup_node_ne by (by destruct base, ds).
  replace ((base ++ ds) ++ [d])%list with (base ++ ds ++ [d])%list by (by rewrite (assoc_L (++)%list)).
  by rewrite <- !(assoc_L (++)%list) in *.
Qed.

Lemma file_children_listing base s m ds :
  file_rel base s m → dirs_ok ds →
  listing (dom m) (file_dirs base s) (path_str ds "")
          (shown <$> children (FileBackend.files s) (base ++ ds)%list).
Proof.
  intros R Hds. split.
  - intros name Hns. rewrite path_str_app, elem_of_dom, list_elem_of_fmap. split.
    + intros (n & -> & Hn). destruct (child_cases _ _ _ _ _ R Hds Hn) as [(_ & _ & He)|(n' & -> & _ & ? & He)].
      * rewrite He in Hns. by apply no_slash_app_slash in Hns.
      * by rewrite He.
    + intros [v Hv]. destruct (stored_lookup _ _ _ _ _ R Hv) as (ds' & n & He & Hds' & Hn & Hx).
      apply path_str_inj in He as [<- <-]; [|auto..]. exists (under name).
      rewrite shown_file by done. split; [done|]. apply elem_of_file_children. by rewrite <- (assoc_L (++)%list).
  - intros d rest Hns. rewrite path_str_app, elem_of_dom. intros Hs.
    destruct (stored_dir _ _ _ _ _ _ R Hds Hns Hs) as [Hd Hc].
    apply list_elem_of_fmap. exists d. by rewrite shown_dir.
  - intros d (n & He & Hn)%list_elem_of_fmap.
    destruct (child_cases _ _ _ _ _ R Hds Hn) as [(Hd & Hx & Hs)|(n' & -> & Hn' & _ & Hs)]; rewrite Hs in He.
    + assert (d = n) as <-.
      { apply (f_equal drop_last) in He. by autorewrite with rust_str in He. }
      split; [auto|]. apply elem_of_file_dirs. exists (ds ++ [d])%list.
      split_and!; [by destruct ds|done|]. by rewrite path_str_app, path_str_snoc.
    + rewrite <- He in Hn'. by apply seg_ok_no_slash, no_slash_app_slash in Hn'.
  - apply NoDup_fmap_2_strong; [|apply NoDup_children]. intros a b. by eapply shown_inj.
  - intros x (n & -> & Hn)%list_elem_of_fmap.
    destruct (child_cases _ _ _ _ _ R Hds Hn) as [(_ & _ & ->)|(n' & -> & Hn' & _ & ->)]; eauto.
Qed.

Lemma children_missing f q : closed f → lookup_node f q = None → children f q = [].
Proof.
  intros Hc Hq. destruct (children f q) as [|n l] eqn:E; [done|].
  assert (n ∈ children f q) as Hn%elem_of_file_children%Hc by (rewrite E; apply list_elem_of_here). congruence.
Qed.

(** Listing of the directory with the segments [ds]. *)
Lemma file_list_spec base s m ds :
  file_rel base s m → dirs_ok ds →
  FileBackend.list_ s (path_str ds "") = Ok (shown <$> children (FileBackend.files s) (base ++ ds)%list).
Proof.
  intros R Hds. unfold FileBackend.list_.
  rewrite path_str_no_root, (fr_lock _ _ _ R) by (done || by apply dirs_ok_seg_ok).
  set (p := if is_empty _ then _ else _).
  assert (components p = absolute (base ++ ds)%list) as Hp.
  { unfold p. destruct ds as [|d ds]; [simpl; rewrite app_nil_r; apply R|].
    rewrite is_empty_false by (simpl; by destruct d).
    rewrite (components_join _ (Normal <$> base) _ (Normal <$> d :: ds)); [by rewrite <- fmap_app|apply R| |].
    - apply path_str_no_root; [by apply dirs_ok_seg_ok|done].
    - rewrite split_path_str, seg_components_app by (done || by apply dirs_ok_no_slash).
      rewrite seg_components_ok by (by apply dirs_ok_seg_ok). by rewrite app_nil_r. }
  assert (is_empty p = false) as Hne by (by destruct p).
  unfold exists_, read_dir. rewrite Hne, Hp, node_at_dir;
    [|apply R|by eapply rel_no_nul_dir|by eapply rel_passable].
  destruct (lookup_node _ (base ++ ds)%list) as [[|d]|] eqn:E; simpl.
  - done.
  - by destruct (rel_passable base s m ds R Hds _ d (reflexivity _)).
  - by rewrite children_missing by (done || apply R).
Qed.

End refinement.
