(* ===== verification/FileProps.v ===== *)
(** * Properties of the file backend

    The refinement of a map by the files, the barrier over files against the
    barrier over a map, and the keys the file backend mishandles. *)

From stdpp Require Import base tactics list sets gmap strings.
From Stdlib Require Import ZArith Lia Ascii.
From S2P Require Import Prelude Errors RustStr Utils Storage BarrierCorrect FileBackend FileCorrect.

Import StdPath StdFs.
Local Open Scope string_scope.

(** ** Barriers over two backends that answer alike *)
Section simulation.
Context {B1 B2 : Type} `{HB1 : Backend B1} `{HB2 : Backend B2}.

(** [R] relates states of the backends that give the same answers on the keys
    accepted by [ok], and keep doing so. *)
Record backend_sim (ok : string → bool) (R : B1 → B2 → Prop) : Prop := {
  sim_get b1 b2 k : R b1 b2 → ok k = true → backend_get b1 k = backend_get b2 k;
  sim_put b1 b2 e : R b1 b2 → ok (be_key e) = true →
    R (backend_put b1 e).1 (backend_put b2 e).1 ∧ (backend_put b1 e).2 = (backend_put b2 e).2;
  sim_delete b1 b2 k : R b1 b2 → ok k = true →
    R (backend_delete b1 k).1 (backend_delete b2 k).1 ∧ (backend_delete b1 k).2 = (backend_delete b2 k).2
}.

Context `{HG : AesGcm} `{HR : Rng} `{HS : Serde BarrierInit} (ok : string → bool) (R : B1 → B2 → Prop).

(** The operations of the barrier that read or change its state. *)
Inductive barrier_op :=
  | OpInit (kek : bytes)
  | OpUnseal (kek : bytes)
  | OpSeal
  | OpPut (e : StorageEntry)
  | OpDelete (k : string)
  | OpGet (k : string).

Definition op_ok (o : barrier_op) : bool :=
  match o with OpPut e => ok (se_key e) | OpDelete k | OpGet k => ok k | _ => true end.

Inductive answer := Done (r : result unit) | Found (r : result (option StorageEntry)).

Definition barrier_step {B} `{Backend B} (o : barrier_op) (s : AESGCMBarrier.t B) : AESGCMBarrier.t B * answer :=
  match o with
  | OpInit kek => let '(s, r) := AESGCMBarrier.init kek s in (s, Done r)
  | OpUnseal kek => let '(s, r) := AESGCMBarrier.unseal kek s in (s, Done r)
  | OpSeal => (AESGCMBarrier.seal s, Done (Ok tt))
  | OpPut e => let '(s, r) := AESGCMBarrier.put s e in (s, Done r)
  | OpDelete k => let '(s, r) := AESGCMBarrier.delete s k in (s, Done r)
  | OpGet k => (s, Found (AESGCMBarrier.get s k))
  end.

(** The answers to a sequence of operations. *)
Fixpoint answers {B} `{Backend B} (ops : list barrier_op) (s : AESGCMBarrier.t B) : list answer :=
  match ops with
  | [] => []
  | o :: ops => let '(s, a) := barrier_step o s in a :: answers ops s
  end.

Definition barrier_sim (s1 : AESGCMBarrier.t B1) (s2 : AESGCMBarrier.t B2) : Prop :=
  AESGCMBarrier.info s1 = AESGCMBarrier.info s2 ∧ AESGCMBarrier.draws s1 = AESGCMBarrier.draws s2 ∧
  R (AESGCMBarrier.backend s1) (AESGCMBarrier.backend s2).

Lemma encrypt_sim path pt s1 s2 :
  barrier_sim s1 s2 →
  barrier_sim (AESGCMBarrier.encrypt path pt s1).1 (AESGCMBarrier.encrypt path pt s2).1 ∧
  (AESGCMBarrier.encrypt path pt s1).2 = (AESGCMBarrier.encrypt path pt s2).2.
Proof.
  destruct s1 as [i1 b1 n1], s2 as [i2 b2 n2]. intros (Hi & Hn & Hb). simpl in *. subst i2 n2.
  unfold AESGCMBarrier.encrypt. simpl. destruct (AESGCMBarrier.key i1); [|done].
  destruct (gcm_iv_len =? 0)%nat; simpl; (destruct (gcm_init _ _); [|done]);
    by destruct (gcm_seal _ _ _ _) as [[]|].
Qed.

Lemma decrypt_sim path c s1 s2 :
  barrier_sim s1 s2 → AESGCMBarrier.decrypt s1 path c = AESGCMBarrier.decrypt s2 path c.
Proof. intros (Hi & _). unfold AESGCMBarrier.decrypt. by rewrite Hi. Qed.

Context (Hsim : backend_sim ok R) (Hinit : ok BARRIER_INIT_PATH = true).

Lemma put_sim e s1 s2 :
  barrier_sim s1 s2 → ok (be_key e) = true →
  let r1 := backend_put (AESGCMBarrier.backend s1) e in
  let r2 := backend_put (AESGCMBarrier.backend s2) e in
  barrier_sim (AESGCMBarrier.set_backend s1 r1.1) (AESGCMBarrier.set_backend s2 r2.1) ∧ r1.2 = r2.2.
Proof. intros (Hi & Hn & Hb) Hk. destruct (sim_put _ _ Hsim _ _ e Hb Hk) as [HR' He]. done. Qed.

Lemma init_sim kek s1 s2 :
  barrier_sim s1 s2 →
  barrier_sim (AESGCMBarrier.init kek s1).1 (AESGCMBarrier.init kek s2).1 ∧
  (AESGCMBarrier.init kek s1).2 = (AESGCMBarrier.init kek s2).2.
Proof.
  intros Hs. unfold AESGCMBarrier.init. destruct AESGCMBarrier.key_length_range as [lo hi].
  destruct (_ || _); [done|].
  assert (AESGCMBarrier.inited s1 = AESGCMBarrier.inited s2) as ->.
  { unfold AESGCMBarrier.inited. by rewrite (sim_get _ _ Hsim _ _ _ (proj2 (proj2 Hs)) Hinit). }
  destruct (AESGCMBarrier.inited s2) as [[]| |]; [done| |done..].
  unfold AESGCMBarrier.generate_key, AESGCMBarrier.draw. destruct Hs as (Hi & Hn & Hb). rewrite Hi, Hn.
  destruct (ser _) as [v|]; [|done].
  set (i1 := AESGCMBarrier.init_cipher _ kek). set (i2 := AESGCMBarrier.init_cipher _ kek).
  assert (barrier_sim i1 i2) as Hs by done.
  destruct (encrypt_sim BARRIER_INIT_PATH v i1 i2 Hs) as [Hs' He].
  destruct (AESGCMBarrier.encrypt _ _ i1) as [e1 [c1|x1|]], (AESGCMBarrier.encrypt _ _ i2) as [e2 [c2|x2|]];
    simpl in *; simplify_eq; try done.
  destruct (put_sim {| be_key := BARRIER_INIT_PATH; be_value := c2 |} e1 e2 Hs' Hinit) as [Hp Hr].
  destruct (backend_put _ _) as [b1 r1], (backend_put _ _) as [b2 r2]. simpl in *. subst r2.
  destruct Hp as (Hpi & Hpn & Hpb). destruct r1; simpl in *; (split; [|done]); split_and!; simpl; congruence.
Qed.

Lemma unseal_sim kek s1 s2 :
  barrier_sim s1 s2 →
  barrier_sim (AESGCMBarrier.unseal kek s1).1 (AESGCMBarrier.unseal kek s2).1 ∧
  (AESGCMBarrier.unseal kek s1).2 = (AESGCMBarrier.unseal kek s2).2.
Proof.
  intros Hs. pose proof Hs as (Hi & Hn & Hb). unfold AESGCMBarrier.unseal.
  rewrite Hi, (sim_get _ _ Hsim _ _ _ Hb Hinit). destruct (negb _); [done|].
  destruct (backend_get _ _) as [[entry|]| |]; [|done..].
  assert (barrier_sim (AESGCMBarrier.init_cipher s1 kek) (AESGCMBarrier.init_cipher s2 kek)) as Hs'.
  { split_and!; simpl; congruence. }
  rewrite (decrypt_sim _ _ _ _ Hs'). destruct (AESGCMBarrier.decrypt _ _ _); [|done..].
  destruct (de _); [|done]. split; [|done]. split_and!; simpl; congruence.
Qed.

Lemma storage_put_sim e s1 s2 :
  barrier_sim s1 s2 → ok (se_key e) = true →
  barrier_sim (AESGCMBarrier.put s1 e).1 (AESGCMBarrier.put s2 e).1 ∧
  (AESGCMBarrier.put s1 e).2 = (AESGCMBarrier.put s2 e).2.
Proof.
  intros Hs Hk. unfold AESGCMBarrier.put. rewrite (proj1 Hs). destruct (AESGCMBarrier.sealed _); [done|].
  destruct (encrypt_sim (se_key e) (se_value e) s1 s2 Hs) as [Hs' He].
  destruct (AESGCMBarrier.encrypt _ _ s1) as [e1 [c1|x1|]], (AESGCMBarrier.encrypt _ _ s2) as [e2 [c2|x2|]];
    simpl in *; simplify_eq; try done.
  destruct (put_sim {| be_key := se_key e; be_value := c2 |} e1 e2 Hs' Hk) as [Hp Hr].
  by destruct (backend_put _ _) as [b1 r1], (backend_put _ _) as [b2 r2].
Qed.

Lemma storage_delete_sim k s1 s2 :
  barrier_sim s1 s2 → ok k = true →
  barrier_sim (AESGCMBarrier.delete s1 k).1 (AESGCMBarrier.delete s2 k).1 ∧
  (AESGCMBarrier.delete s1 k).2 = (AESGCMBarrier.delete s2 k).2.
Proof.
  intros (Hi & Hn & Hb) Hk. unfold AESGCMBarrier.delete. rewrite Hi. destruct (AESGCMBarrier.sealed _); [done|].
  destruct (sim_delete _ _ Hsim _ _ k Hb Hk) as [HR' He].
  by destruct (backend_delete _ _) as [b1 r1], (backend_delete _ _) as [b2 r2].
Qed.

Lemma storage_get_sim k s1 s2 :
  barrier_sim s1 s2 → ok k = true → AESGCMBarrier.get s1 k = AESGCMBarrier.get s2 k.
Proof.
  intros Hs Hk. pose proof Hs as (Hi & Hn & Hb). unfold AESGCMBarrier.get.
  rewrite Hi, (sim_get _ _ Hsim _ _ k Hb Hk). destruct (AESGCMBarrier.sealed _); [done|].
  destruct (backend_get _ _) as [[pe|]| |]; [|done..]. by rewrite (decrypt_sim _ _ _ _ Hs).
Qed.

Lemma step_sim o s1 s2 :
  barrier_sim s1 s2 → op_ok o = true →
  barrier_sim (barrier_step o s1).1 (barrier_step o s2).1 ∧ (barrier_step o s1).2 = (barrier_step o s2).2.
Proof.
  intros Hs Hk. destruct o as [kek|kek| |e|k|k]; simpl in *.
  - destruct (init_sim kek s1 s2 Hs). repeat destruct (AESGCMBarrier.init _ _). simpl in *. by subst.
  - destruct (unseal_sim kek s1 s2 Hs). repeat destruct (AESGCMBarrier.unseal _ _). simpl in *. by subst.
  - split; [|done]. destruct Hs as (Hi & Hn & Hb). split_and!; simpl; congruence.
  - destruct (storage_put_sim e s1 s2 Hs Hk). repeat destruct (AESGCMBarrier.put _ _). simpl in *. by subst.
  - destruct (storage_delete_sim k s1 s2 Hs Hk). repeat destruct (AESGCMBarrier.delete _ _). simpl in *. by subst.
  - by rewrite (storage_get_sim k s1 s2 Hs Hk).
Qed.

Lemma answers_sim ops s1 s2 :
  barrier_sim s1 s2 → forallb op_ok ops = true → answers ops s1 = answers ops s2.
Proof.
  revert s1 s2. induction ops as [|o ops IH]; intros s1 s2 Hs Hok; [done|].
  apply andb_true_iff in Hok as [Ho Hops]. destruct (step_sim o s1 s2 Hs Ho) as [Hs' He]. simpl.
  destruct (barrier_step o s1) as [t1 a1], (barrier_step o s2) as [t2 a2]. simpl in *. subst.
  by rewrite (IH t1 t2).
Qed.

End simulation.

Section properties.
Context `{HS : Serde BackendEntry} `{HSL : !SerdeLaws BackendEntry} `{HSU : !SerdeUtf8 BackendEntry}.

(** A directory with nothing below it keeps the empty map. *)
Lemma fresh_rel base s :
  FileBackend.poisoned s = false → components (FileBackend.path s) = absolute base → no_nul base →
  closed (FileBackend.files s) → passable (FileBackend.files s) base →
  (∀ p x, nodes (FileBackend.files s) !! (base ++ p)%list = Some x → p = [] ∧ x = Dir) → file_rel base s ∅.
Proof.
  intros Hl Hr Hn Hc Hb Hempty. split; try done.
  - by intros p d [_ ?]%Hempty.
  - by intros p [-> _]%Hempty ?.
Qed.

Lemma file_sim base : backend_sim (B2 := MemBackend.t) file_key_ok (file_rel base).
Proof.
  split.
  - intros s m k R Hk. exact (file_get_spec base s m k R Hk).
  - intros s m e R Hk. destruct (file_put_spec base s m e R Hk) as (s' & He & R' & _).
    change (backend_put s e) with (FileBackend.put s e). by rewrite He.
  - intros s m k R Hk. destruct (file_delete_spec base s m k R Hk) as (s' & He & R' & _).
    change (backend_delete s k) with (FileBackend.delete s k). by rewrite He.
Qed.

Lemma file_dirs_put base s s' k :
  (∀ p, nodes (FileBackend.files s') !! p = Some Dir →
     nodes (FileBackend.files s) !! p = Some Dir ∨
     ∃ ds n, k = path_str ds n ∧ dirs_ok ds ∧ seg_ok n = true ∧ p `prefix_of` (base ++ ds)%list) →
  ∀ d, d ∈ file_dirs base s' → d ∈ file_dirs base s ∨ starts_with d k = true.
Proof.
  intros H d (ds & Hne & [Hx|(ds' & n & -> & _ & _ & [r Hr])]%H & ->)%elem_of_file_dirs.
  - left. apply elem_of_file_dirs. eauto.
  - right. rewrite <- (assoc_L (++)%list) in Hr. apply app_inv_head in Hr as ->.
    unfold path_str. rewrite foldr_app. fold (path_str r n). apply starts_with_spec.
    exists (path_str r n). symmetry. apply (path_str_app ds).
Qed.

(** C18: on keys whose segments are plain names and whose directories do not
    start with an underscore, the file backend keeps a map: [get] returns the
    value last [put] and not [delete]d, both succeed and change their key
    alone, [list] shows exactly the names and directories of the stored keys,
    and the only directories that appear are those of the key written. *)
Theorem file_backend_refines (base : list string) (s : FileBackend.t) (m : gmap string bytes) :
  file_rel base s m →
  (∀ k, file_key_ok k = true →
     FileBackend.get s k = Ok ((λ v, {| be_key := k; be_value := v |}) <$> m !! k)) ∧
  (∀ e, file_key_ok (be_key e) = true →
     ∃ s', FileBackend.put s e = (s', Ok tt) ∧ file_rel base s' (<[be_key e := be_value e]> m) ∧
           ∀ d, d ∈ file_dirs base s' → d ∈ file_dirs base s ∨ starts_with d (be_key e) = true) ∧
  (∀ k, file_key_ok k = true →
     ∃ s', FileBackend.delete s k = (s', Ok tt) ∧ file_rel base s' (base.delete k m) ∧
           file_dirs base s' ⊆ file_dirs base s) ∧
  (∀ ds, dirs_ok ds →
     ∃ l, FileBackend.list_ s (path_str ds "") = Ok l ∧
          listing (dom m) (file_dirs base s) (path_str ds "") l).
Proof.
  intros R. split_and!.
  - intros k. by apply (file_get_spec base).
  - intros e Hk. destruct (file_put_spec base s m e R Hk) as (s' & He & R' & Hd).
    exists s'. split_and!; [done..|]. by eapply file_dirs_put.
  - intros k Hk. destruct (file_delete_spec base s m k R Hk) as (s' & He & R' & Hd).
    exists s'. split_and!; [done..|]. intros d (ds & ? & ?%Hd & ->)%elem_of_file_dirs.
    apply elem_of_file_dirs. eauto.
  - intros ds Hds. eexists. split; [by apply (file_list_spec base s m)|by apply file_children_listing].
Qed.

(** A barrier over an empty directory answers every sequence of
    initialisations, unsealings, sealings, writes, deletions and reads of such
    keys exactly as the same barrier over an empty map in memory. *)
Theorem barrier_over_files `{HG : AesGcm} `{HR : Rng} `{HI : Serde BarrierInit}
    (base : list string) (s : FileBackend.t) (ops : list barrier_op) :
  file_rel base s ∅ → forallb (op_ok file_key_ok) ops = true →
  answers ops (AESGCMBarrier.new s) = answers ops (AESGCMBarrier.new (∅ : MemBackend.t)).
Proof.
  intros R Hops. eapply (answers_sim file_key_ok (file_rel base)); [apply file_sim|done| |done].
  done.
Qed.

(** ** Keys outside the map *)

(** A key that ends in [..] names no file: writing or deleting it panics with
    the lock held, and every later operation of the backend panics. *)
Theorem dotdot_key_poisons_lock (s : FileBackend.t) (ds : list string) (v : bytes) :
  FileBackend.poisoned s = false → Forall no_slash ds →
  starts_with_char slash (path_str ds "..") = false →
  let k := path_str ds ".." in
  let '(s1, r1) := FileBackend.put s {| be_key := k; be_value := v |} in
  let '(s2, r2) := FileBackend.delete s k in
  r1 = Panic ∧ r2 = Panic ∧ s2 = s1 ∧
  ∀ k' v', starts_with_char slash k' = false →
    FileBackend.list_ s1 k' = Panic ∧ FileBackend.get s1 k' = Panic ∧
    FileBackend.put s1 {| be_key := k'; be_value := v' |} = (s1, Panic) ∧
    FileBackend.delete s1 k' = (s1, Panic).
Proof.
  intros Hl Hds Hk k. unfold FileBackend.put, FileBackend.delete. simpl be_key. subst k. rewrite Hk, Hl.
  assert (FileBackend.path_key s (path_str ds "..") = Panic) as ->.
  { assert (∃ l, split_char slash (join (FileBackend.path s) (path_str ds "..")) = (l ++ [".."])%list) as [l Hs].
    { pose proof (split_path_str ds ".." Hds eq_refl) as Hsp. unfold join. rewrite Hk.
      destruct (is_empty (FileBackend.path s)) eqn:He; [apply is_empty_spec in He; rewrite He; simpl; eauto|].
      cbn [orb]. destruct (ends_with_char slash (FileBackend.path s)) eqn:E.
      - apply ends_with_char_spec in E as [r ->]. rewrite <- app_assoc_str.
        change (String slash "" ++ path_str ds "..") with ("/" ++ path_str ds "..").
        rewrite split_char_app, Hsp, (assoc_L (++)%list). eauto.
      - rewrite split_char_app, Hsp, (assoc_L (++)%list). eauto. }
    unfold FileBackend.path_key, components. rewrite Hs.
    assert (∀ p, file_name (p ++ seg_components true (l ++ [".."]))%list = None) as Hf.
    { intros p. destruct l as [|x l]; [|rewrite seg_components_app by done]; simpl;
        rewrite ?(assoc_L (++)%list); unfold file_name; by rewrite last_snoc. }
    rewrite Hf. by destruct (parent _). }
  split_and!; [done..|]. intros k' v' Hk'. unfold FileBackend.list_, FileBackend.get. rewrite Hk'. simpl.
  split_and!; try done. by destruct (FileBackend.path_key _ _) as [[]| |] eqn:E;
    [| unfold FileBackend.path_key in E; repeat case_match|].
Qed.

Lemma components_trailing s : s ≠ "" → components (s ++ "/") = components s.
Proof.
  intros Hs. unfold components. change (s ++ "/") with (s ++ "/" ++ "").
  rewrite split_char_app, seg_components_app by (by destruct (split_char_cons slash s) as (? & ? & ->)).
  simpl. rewrite app_nil_r. by destruct s.
Qed.

(** A trailing slash is lost on the way to the file: [k/] and [k] are the same
    entry for reads and deletions. *)
Theorem trailing_slash_aliases (s : FileBackend.t) (k : string) :
  k ≠ "" → starts_with_char slash k = false →
  FileBackend.get s (k ++ "/") = FileBackend.get s k ∧
  FileBackend.delete s (k ++ "/") = FileBackend.delete s k.
Proof.
  intros Hne Hk. assert (starts_with_char slash (k ++ "/") = false) as Hk' by (by destruct k).
  assert (FileBackend.path_key s (k ++ "/") = FileBackend.path_key s k) as He.
  { unfold FileBackend.path_key.
    replace (join (FileBackend.path s) (k ++ "/")) with (join (FileBackend.path s) k ++ "/").
    - rewrite components_trailing; [done|]. unfold join. rewrite Hk.
      intros H. destruct (_ || _); apply app_nil_inv in H as [_ H]; [done|].
      by apply app_nil_inv in H as [_ H].
    - unfold join. rewrite Hk, Hk'. destruct (_ || _); by rewrite <- !app_assoc_str. }
  unfold FileBackend.get, FileBackend.delete. rewrite Hk, Hk', He. done.
Qed.

(** A directory whose name is an underscore and a stored name is that name's
    file: nothing can be stored in it. *)
Theorem underscore_directory_refused (base : list string) (s : FileBackend.t) (m : gmap string bytes)
    (ds : list string) (n x : string) (v : bytes) :
  file_rel base s m → dirs_ok ds → seg_ok n = true → seg_ok x = true → is_Some (m !! path_str ds n) →
  FileBackend.put s {| be_key := path_str (ds ++ [under n])%list x; be_value := v |} = (s, Err IO).
Proof.
  intros R Hds Hn Hx [v0 Hv0]. unfold FileBackend.put. simpl be_key.
  assert (seg_ok (under n) = true) as Hu.
  { apply seg_ok_spec in Hn as (Hne & _ & _ & Hs & Hnul & Hutf). apply seg_ok_spec. split_and!; try done.
    - unfold no_slash in *. simpl. by rewrite Hs.
    - change (from_utf8_lossy (String.list_byte_of_string (under n)))
        with (under (from_utf8_lossy (String.list_byte_of_string n))). by rewrite Hutf. }
  assert (Forall (λ d, seg_ok d = true) (ds ++ [under n])%list) as Hsegs.
  { apply Forall_app. split; [by apply dirs_ok_seg_ok|by repeat constructor]. }
  rewrite path_str_no_root, (fr_lock _ _ _ R), (path_key_segs base s m) by (done || by apply seg_ok_no_slash).
  rewrite (assoc_L (++)%list), absolute_snoc, create_dir_all_snoc, <- absolute_snoc.
  assert (∃ d, nodes (FileBackend.files s) !! ((base ++ ds) ++ [under n])%list = Some (File d)) as [d Hd].
  { rewrite <- (assoc_L (++)%list), (rel_lookup base s m), Hv0 by done. simpl.
    destruct (ser_total {| be_key := path_str ds n; be_value := v0 |}) as [bs ->]. eauto. }
  pose proof (rel_no_nul base s m ds n R Hds Hn) as Hnul. pose proof (rel_passable base s m ds R Hds) as Hp.
  pose proof (fr_closed _ _ _ R) as Hc. pose proof (Hc (base ++ ds)%list (under n)) as Hdir.
  rewrite mkdir_absolute, decide_True, Hd by (try done; apply Hdir; by rewrite Hd).
  unfold is_dir. rewrite node_at_absolute, Hd by done. by destruct s.
Qed.

End properties.

(** *** Witnesses: a directory [/data] and a serializer that writes ASCII *)

#[local] Instance backend_entry_eq_dec : EqDecision BackendEntry.
Proof. solve_decision. Defined.
#[local] Program Instance backend_entry_countable : Countable BackendEntry :=
  inj_countable' (λ e, (be_key e, be_value e)) (λ p, {| be_key := p.1; be_value := p.2 |}) _.
Next Obligation. by intros []. Qed.

Definition entry_serde : Serde BackendEntry := countable_serde BackendEntry.
#[local] Existing Instance entry_serde.

Lemma pos_bytes_utf8 p : utf8_repair [] [] (pos_bytes p) = pos_bytes p.
Proof. induction p as [p IH|p IH|]; simpl; [by rewrite IH..|done]. Qed.

#[local] Instance entry_serde_utf8 : SerdeUtf8 BackendEntry.
Proof. intros e bs [= <-]. apply bool_decide_eq_true_2, pos_bytes_utf8. Qed.

Definition demo_dir : FileBackend.t :=
  {| FileBackend.path := "/data";
     FileBackend.files := {| nodes := {[ ["data"] := Dir ]}; cwd := [] |};
     FileBackend.poisoned := false |}.

Lemma demo_dir_rel : file_rel ["data"] demo_dir ∅.
Proof.
  apply fresh_rel; try done.
  - by repeat constructor.
  - intros p n Hx. simpl in Hx. rewrite lookup_singleton_is_Some in Hx.
    destruct p as [|a p]; [done|]. simplify_list_eq. by destruct p.
  - intros p d Hp. destruct p as [|a p]; [done|]. simpl. rewrite lookup_singleton_Some. by intros [_ ?].
  - intros p x. simpl. rewrite lookup_singleton_Some. intros [He <-]. by simplify_list_eq.
Qed.

Lemma file_backend_refines_witness :
  ∃ s', FileBackend.put demo_dir {| be_key := "core/mounts"; be_value := [x07] |} = (s', Ok tt) ∧
        FileBackend.get s' "core/mounts" = Ok (Some {| be_key := "core/mounts"; be_value := [x07] |}).
Proof.
  destruct (file_backend_refines (HS := entry_serde) (HSL := countable_serde_laws BackendEntry) ["data"] demo_dir ∅ demo_dir_rel)
    as (_ & Hput & _).
  destruct (Hput {| be_key := "core/mounts"; be_value := [x07] |}) as (s' & Hs & R & _); [by vm_compute|].
  exists s'. split; [exact Hs|].
  destruct (file_backend_refines (HS := entry_serde) (HSL := countable_serde_laws BackendEntry) ["data"] s' _ R) as (Hget & _).
  rewrite Hget by (by vm_compute). by vm_compute.
Defined.

Lemma barrier_over_files_witness :
  answers (HG := toy_gcm) (HR := demo_rng) (HS := demo_serde)
    [OpInit (replicate 32 x55); OpUnseal (replicate 32 x55);
     OpPut {| se_key := "core/a"; se_value := [x01] |}; OpGet "core/a"] (AESGCMBarrier.new demo_dir) =
  [Done (Ok tt); Done (Ok tt); Done (Ok tt); Found (Ok (Some {| se_key := "core/a"; se_value := [x01] |}))].
Proof.
  rewrite (barrier_over_files (HS := entry_serde) (HSL := countable_serde_laws BackendEntry) (HG := toy_gcm) (HR := demo_rng)
    (HI := demo_serde) ["data"] demo_dir _ demo_dir_rel); by vm_compute.
Defined.

Lemma dotdot_key_poisons_lock_witness :
  snd (FileBackend.put demo_dir {| be_key := ".."; be_value := [] |}) = Panic ∧
  FileBackend.get (fst (FileBackend.put demo_dir {| be_key := ".."; be_value := [] |})) "core/a" = Panic.
Proof.
  destruct (dotdot_key_poisons_lock demo_dir [] [] eq_refl (List.Forall_nil _) eq_refl) as (H1 & _ & _ & H2).
  split; [exact H1|]. by apply (H2 "core/a" []).
Defined.

Lemma trailing_slash_aliases_witness :
  FileBackend.get demo_dir "certs/" = FileBackend.get demo_dir "certs".
Proof. apply (trailing_slash_aliases demo_dir "certs"); by vm_compute. Defined.

Lemma underscore_directory_refused_witness :
  let s := fst (FileBackend.put demo_dir {| be_key := "kv/a"; be_value := [x01] |}) in
  FileBackend.put s {| be_key := "kv/_a/b"; be_value := [x02] |} = (s, Err IO).
Proof.
  intros s.
  destruct (file_put_spec (HS := entry_serde) (HSL := countable_serde_laws BackendEntry) ["data"] demo_dir ∅
    {| be_key := "kv/a"; be_value := [x01] |} demo_dir_rel eq_refl) as (s' & Hs & R & _).
  assert (s = s') as -> by (unfold s; by rewrite Hs). simpl in R.
  apply (underscore_directory_refused (HS := entry_serde) (HSL := countable_serde_laws BackendEntry) ["data"] s'
    {[ "kv/a" := [x01] ]} ["kv"] "a" "b" [x02] R); [by repeat constructor|by vm_compute..|].
  by exists [x01].
Defined.
