(* ===== verification/Mysql.v ===== *)
(** * The MySQL backend

    src/src/storage/mysql/mysql_backend.rs and mod.rs, with the table of
    src/migrations.  The connection pool and the statements diesel runs are a
    parameter ([Database]); what the theorems use of the server is in
    [DatabaseLaws].  A reader that cannot get a connection panics while it holds
    the lock of the pool, so also [list] and [get] change the state. *)

From stdpp Require Import base tactics list sets gmap strings.
From Stdlib Require Import ZArith Lia Ascii.
From S2P Require Import Prelude Errors RustStr Utils Storage FileBackend.

Local Open Scope string_scope.

Record MysqlBackendEntry := { vault_key : string; vault_value : bytes }.

(** ** The database

    [db_pool] builds a pool for a URL, [db_reachable] tells whether it hands out
    a connection.  The statements are those of the backend on the table [vault];
    [None] is an error of the server, and [select_first] gives [Some None] for
    the [NotFound] of diesel. *)
Class Database (D : Type) : Type := {
  db_pool : string -> option D;
  db_reachable : D -> bool;
  select_like : D -> string -> option (list MysqlBackendEntry);
  select_first : D -> string -> option (option MysqlBackendEntry);
  replace_into : D -> MysqlBackendEntry -> D * option unit;
  delete_where : D -> string -> D * option unit
}.

(** The pattern language of [LIKE] on binary strings: [%] stands for any string,
    [_] for one character, a backslash takes the next character as it is. *)
Fixpoint sql_like (pat s : string) : bool :=
  match pat with
  | EmptyString => is_empty s
  | String a pat =>
      if Ascii.eqb a "%" then
        (fix any (s : string) : bool :=
           sql_like pat s || match s with EmptyString => false | String _ s => any s end) s
      else match s with
           | EmptyString => false
           | String c s =>
               if Ascii.eqb a "_" then sql_like pat s
               else if Ascii.eqb a "\" then
                 match pat with
                 | EmptyString => Ascii.eqb c "\" && is_empty s
                 | String b pat => Ascii.eqb b c && sql_like pat s
                 end
               else Ascii.eqb a c && sql_like pat s
           end
  end.

(** The columns of the table: varbinary(3072) and mediumblob. *)
Definition row_fits (e : MysqlBackendEntry) : bool :=
  (String.length (vault_key e) <=? 3072)%nat && (Z.of_nat (length (vault_value e)) <? 2 ^ 24)%Z.

(** What a server promises while it is reachable: the statements read and update
    a table with one row for each key; the rows of a [select] come in any order. *)
Class DatabaseLaws (D : Type) `{Database D} : Type := {
  rows : D -> gmap string bytes;
  select_like_spec d pat : db_reachable d = true ->
    exists l, select_like d pat = Some l /\ NoDup (map vault_key l) /\
      forall e, e ∈ l <-> rows d !! vault_key e = Some (vault_value e) /\ sql_like pat (vault_key e) = true;
  select_first_spec d k : db_reachable d = true ->
    select_first d k = Some ((fun v => {| vault_key := k; vault_value := v |}) <$> rows d !! k);
  replace_into_spec d e : db_reachable d = true -> row_fits e = true ->
    exists d', replace_into d e = (d', Some tt) /\ rows d' = <[vault_key e := vault_value e]> (rows d);
  delete_where_spec d k : db_reachable d = true ->
    exists d', delete_where d k = (d', Some tt) /\ rows d' = delete k (rows d)
}.

Module MysqlBackend.

Section ops.
Context {D : Type} `{HD : Database D}.

(** [poisoned]: a thread panicked while it held the lock of the pool. *)
Record t := { pool : D; poisoned : bool }.

Definition set_pool (d : D) (s : t) : t := {| pool := d; poisoned := poisoned s |}.
Definition poison (s : t) : t := {| pool := pool s; poisoned := true |}.

Definition conf_str (conf : gmap string Value) (k : string) : option string := conf !! k ≫= as_str.

Definition establish_mysql_connection (conf : gmap string Value) : result D :=
  let? address := of_option ErrDatabaseConnectionInfoInvalid (conf_str conf "address") in
  let database := default "vault" (conf_str conf "database") in
  let? username := of_option ErrDatabaseConnectionInfoInvalid (conf_str conf "username") in
  let? password := of_option ErrDatabaseConnectionInfoInvalid (conf_str conf "password") in
  let database_url := "mysql://" ++ username ++ ":" ++ password ++ "@" ++ address ++ "/" ++ database in
  of_option ErrConnectionPoolCreate (db_pool database_url).

Definition new (conf : gmap string Value) : result t :=
  let? pool := establish_mysql_connection conf in Ok {| pool := pool; poisoned := false |}.

(** [self.pool.lock().unwrap().get().unwrap()]: the second [unwrap] panics with
    the lock held. *)
Definition conn : st t RvError D := fun s =>
  if poisoned s then (s, Panic)
  else if db_reachable (pool s) then (s, Ok (pool s))
  else (poison s, Panic).

Definition push_key (prefix : string) (keys : list string) (entry : MysqlBackendEntry) : list string :=
  let key := trim_start_pat prefix (vault_key entry) in
  match find_char slash key with
  | Some i =>
      let key := String.substring 0 (i + 1) key in
      if existsb (String.eqb key) keys then keys else (keys ++ [key])%list
  | None => (keys ++ [key])%list
  end.

Definition list_ (prefix : string) : st t RvError (list string) :=
  if starts_with_char slash prefix then st_fail ErrPhysicalBackendPrefixInvalid
  else
    let! d := conn in
    let! entries := st_lift (of_option ErrDatabaseExecuteEntry (select_like d (prefix ++ "%"))) in
    st_ret (fold_left (push_key prefix) entries []).

Definition get (key : string) : st t RvError (option BackendEntry) :=
  if starts_with_char slash key then st_fail ErrPhysicalBackendKeyInvalid
  else
    let! d := conn in
    let! row := st_lift (of_option ErrDatabaseExecuteEntry (select_first d key)) in
    st_ret ((fun e => {| be_key := vault_key e; be_value := vault_value e |}) <$> row).

Definition put (entry : BackendEntry) : st t RvError unit :=
  if starts_with_char slash (be_key entry) then st_fail ErrPhysicalBackendKeyInvalid
  else
    let! d := conn in
    let '(d, r) := replace_into d {| vault_key := be_key entry; vault_value := be_value entry |} in
    fun s => (set_pool d s, of_option ErrDatabaseExecuteEntry r).

Definition delete (key : string) : st t RvError unit :=
  if starts_with_char slash key then st_fail ErrPhysicalBackendKeyInvalid
  else
    let! d := conn in
    let '(d, r) := delete_where d key in
    fun s => (set_pool d s, of_option ErrDatabaseExecuteEntry r).

End ops.
Arguments t : clear implicits.

End MysqlBackend.

(** [new_backend] of a build with the feature [storage_mysql]. *)
Definition new_backend_mysql {D} `{Database D} (ty : string) (conf : gmap string Value) (f : StdFs.fs)
  : result (PhysicalBackend + MysqlBackend.t D) :=
  if ty =? "mysql" then let? b := MysqlBackend.new conf in Ok (inr b)
  else let? b := new_backend ty conf f in Ok (inl b).
