(* ===== verification/MysqlCorrect.v ===== *)
(** * The MySQL backend as a map

    While the server is reachable the backend implements a map from keys to
    values, with the listings of [BackendSpec] for prefixes without pattern
    characters that do not follow themselves in a key; the other prefixes, and
    what an outage leaves behind. *)

From stdpp Require Import base tactics list sets gmap strings.
From Stdlib Require Import ZArith Lia Ascii.
From S2P Require Import Prelude Errors RustStr Utils Storage FileBackend Mysql.

Import MysqlBackend.
Local Open Scope string_scope.

(** ** Patterns *)

(** No character of the string has a meaning in a pattern. *)
Fixpoint literal (s : string) : bool :=
  match s with
  | EmptyString => true
  | String a s => negb (Ascii.eqb a "%" || Ascii.eqb a "_" || Ascii.eqb a "\") && literal s
  end.

Lemma sql_like_any s : sql_like "%" s = true.
Proof. induction s as [|a s IH]; [done|exact IH]. Qed.

Lemma sql_like_prefix p s : literal p = true → sql_like (p ++ "%") s = starts_with p s.
Proof.
  revert s. induction p as [|a p IH]; intros s.
  - intros _. simpl. rewrite sql_like_any. by destruct s.
  - simpl. intros [Ha Hp]%andb_true_iff. destruct (Ascii.eqb a "%"), (Ascii.eqb a "_"), (Ascii.eqb a "\"); try done.
    unfold starts_with. simpl. destruct s as [|c s]; [done|]. rewrite (IH s Hp).
    by destruct (Ascii.eqb a c).
Qed.

Section mysql.
Context {D : Type} `{HL : DatabaseLaws D}.
Implicit Types (s : t D) (m : gmap string bytes).

(** The listing loop takes the first segment of what follows the prefix. *)
Definition segment (key : string) : string :=
  match find_char slash key with Some i => String.substring 0 (i + 1) key | None => key end.

(** Rows without a repeated key give names that are not repeated. *)
Lemma push_keys_spec p l :
  (∀ e, e ∈ l → ∃ r, vault_key e = p ++ r ∧ trim_start_pat p (vault_key e) = r) → NoDup (map vault_key l) →
  NoDup (fold_left (push_key p) l []) ∧
  ∀ x, x ∈ fold_left (push_key p) l [] ↔ ∃ e, e ∈ l ∧ MemBackend.child p (vault_key e) = Some x.
Proof.
  induction l as [|e l IH] using rev_ind; intros Ht Hnd.
  { split; [constructor|]. intros x. split; [by intros ?%not_elem_of_nil|]. by intros (? & ?%not_elem_of_nil & _). }
  rewrite fold_left_app. simpl. rewrite map_app in Hnd. apply NoDup_app in Hnd as (Hnd & Hnew & _).
  destruct IH as [Hn Hin]; [intros e' He'; apply Ht, elem_of_app; by left|done|].
  set (keys := fold_left (push_key p) l []) in *.
  destruct (Ht e) as (r & Hk & Htr); [apply elem_of_app; right; by apply list_elem_of_singleton|].
  assert (∀ x, (x ∈ keys ∨ MemBackend.child p (vault_key e) = Some x) ↔
    ∃ e', e' ∈ (l ++ [e])%list ∧ MemBackend.child p (vault_key e') = Some x) as Hall.
  { intros x. rewrite Hin. setoid_rewrite elem_of_app. setoid_rewrite list_elem_of_singleton. naive_solver. }
  setoid_rewrite <- Hall. unfold push_key. rewrite Htr. unfold MemBackend.child. rewrite Hk, strip_prefix_app.
  destruct (find_char slash r) as [i|] eqn:Er.
  - destruct (existsb _ keys) eqn:Ex.
    + split; [done|]. intros x. split; [by left|]. intros [?|[= <-]]; [done|].
      apply existsb_exists in Ex as (y & Hy & ->%String.eqb_eq). by apply list_elem_of_In.
    + split; [|intros x; rewrite elem_of_app, list_elem_of_singleton; naive_solver].
      apply NoDup_app. split_and!; [done| |apply NoDup_singleton].
      intros x Hx ->%list_elem_of_singleton. apply not_true_iff_false in Ex. apply Ex, existsb_exists.
      exists (String.substring 0 (i + 1) r). split; [by apply list_elem_of_In|apply String.eqb_refl].
  - split; [|intros x; rewrite elem_of_app, list_elem_of_singleton; naive_solver].
    apply NoDup_app. split_and!; [done| |apply NoDup_singleton].
    intros x Hx ->%list_elem_of_singleton. apply Hin in Hx as (e' & He' & Hc).
    apply MemBackend.child_spec in Hc as [[_ Hk']|(d & q & _ & -> & _)].
    + apply (Hnew (vault_key e')); [by apply list_elem_of_In, in_map, list_elem_of_In|].
      rewrite Hk', <- Hk. by apply list_elem_of_singleton.
    + by destruct (no_slash_app_slash d).
Qed.

(** The backend is usable and its table holds [m]. *)
Definition holds s m : Prop := poisoned s = false ∧ rows (pool s) = m.

Lemma conn_ok s m : holds s m → db_reachable (pool s) = true → conn s = (s, Ok (pool s)).
Proof. intros [Hp _] Hr. unfold conn. by rewrite Hp, Hr. Qed.

(** A prefix no key repeats. *)
Definition unrepeated (p : string) m : Prop := p = "" ∨ ∀ r, m !! (p ++ p ++ r) = None.

Lemma unrepeated_trim p m r : unrepeated p m → is_Some (m !! (p ++ r)) → trim_start_pat p (p ++ r) = r.
Proof.
  intros Hu Hs. apply trim_start_pat_once. destruct Hu as [->|Hu]; [by left|right].
  destruct (starts_with p r) eqn:E; [|done]. apply starts_with_spec in E as [q ->].
  rewrite Hu in Hs. by destruct Hs.
Qed.

Lemma list_spec s m p :
  holds s m → db_reachable (pool s) = true → starts_with_char slash p = false →
  literal p = true → unrepeated p m →
  ∃ l, list_ p s = (s, Ok l) ∧ listing (dom m) (MemBackend.dirs m) p l.
Proof.
  intros Hh Hr Hroot Hlit Hu. pose proof Hh as [_ Hm].
  destruct (select_like_spec (pool s) (p ++ "%") Hr) as (l & Hl & Hnd & Hin).
  rewrite Hm in Hin. setoid_rewrite sql_like_prefix in Hin; [|done].
  destruct (push_keys_spec p l) as [Hn Hx]; [|done|].
  { intros e [He [r Hk]%starts_with_spec]%Hin. exists r. split; [done|]. rewrite Hk.
    apply (unrepeated_trim p m); [done|]. rewrite <- Hk. by eexists. }
  eexists. split.
  - unfold list_. rewrite Hroot, (st_bind_run _ _ _ _ _ (conn_ok s m Hh Hr)), Hl. done.
  - apply MemBackend.listing_of_children; [done|]. intros x. rewrite Hx. split.
    + intros (e & [He _]%Hin & Hc). exists (vault_key e). split; [by eexists|done].
    + intros (k & [v Hv] & Hc). exists {| vault_key := k; vault_value := v |}. simpl. split; [|done].
      apply Hin. simpl. split; [done|]. apply starts_with_spec.
      apply MemBackend.child_spec in Hc as [[_ ->]|(d & r & _ & _ & ->)]; eauto.
Qed.

(** Each row shows the first segment of its trimmed key. *)
Lemma push_key_mono p e keys x : x ∈ keys → x ∈ push_key p keys e.
Proof.
  intros Hx. unfold push_key. destruct (find_char _ _); [destruct (existsb _ _); [done|]|];
    apply elem_of_app; by left.
Qed.

Lemma push_key_segment p e keys : segment (trim_start_pat p (vault_key e)) ∈ push_key p keys e.
Proof.
  unfold push_key, segment. destruct (find_char _ _); [destruct (existsb _ _) eqn:Ex|];
    [|apply elem_of_app; right; by apply list_elem_of_singleton..].
  apply existsb_exists in Ex as (y & Hy & ->%String.eqb_eq). by apply list_elem_of_In.
Qed.

Lemma fold_push_key p e l keys :
  e ∈ l → segment (trim_start_pat p (vault_key e)) ∈ fold_left (push_key p) l keys.
Proof.
  assert (∀ l keys x, x ∈ keys → x ∈ fold_left (push_key p) l keys) as Hmono.
  { clear. induction l as [|e l IH]; [done|]. intros keys x Hx. simpl. by apply IH, push_key_mono. }
  revert keys. induction l as [|e' l IH]; intros keys; [by intros ?%not_elem_of_nil|]. simpl.
  intros [->|He]%elem_of_cons; [apply Hmono, push_key_segment|by apply IH].
Qed.

Lemma list_shows s m p k v :
  holds s m → db_reachable (pool s) = true → starts_with_char slash p = false →
  m !! k = Some v → sql_like (p ++ "%") k = true →
  ∃ l, list_ p s = (s, Ok l) ∧ segment (trim_start_pat p k) ∈ l.
Proof.
  intros Hh Hr Hroot Hk Hlike. pose proof Hh as [_ Hm].
  destruct (select_like_spec (pool s) (p ++ "%") Hr) as (l & Hl & _ & Hin). eexists. split.
  - unfold list_. rewrite Hroot, (st_bind_run _ _ _ _ _ (conn_ok s m Hh Hr)), Hl. done.
  - apply (fold_push_key p {| vault_key := k; vault_value := v |}), Hin. simpl. by rewrite Hm.
Qed.

Lemma get_holds s m k :
  holds s m → db_reachable (pool s) = true → starts_with_char slash k = false →
  get k s = (s, Ok ((λ v, {| be_key := k; be_value := v |}) <$> m !! k)).
Proof.
  intros Hh Hr Hk. pose proof Hh as [_ Hm].
  unfold get. rewrite Hk, (st_bind_run _ _ _ _ _ (conn_ok s m Hh Hr)), (select_first_spec _ k Hr), Hm.
  by destruct (m !! k).
Qed.

Lemma put_holds s m e :
  holds s m → db_reachable (pool s) = true → starts_with_char slash (be_key e) = false →
  row_fits {| vault_key := be_key e; vault_value := be_value e |} = true →
  ∃ s', put e s = (s', Ok tt) ∧ holds s' (<[be_key e := be_value e]> m).
Proof.
  intros Hh Hr Hk Hf. pose proof Hh as [Hp Hm]. destruct (replace_into_spec (pool s) _ Hr Hf) as (d' & Hd & Hrows).
  exists (set_pool d' s). unfold put. rewrite Hk, (st_bind_run _ _ _ _ _ (conn_ok s m Hh Hr)), Hd.
  split; [done|]. split; [done|]. simpl in *. by rewrite Hrows, Hm.
Qed.

Lemma delete_holds s m k :
  holds s m → db_reachable (pool s) = true → starts_with_char slash k = false →
  ∃ s', delete k s = (s', Ok tt) ∧ holds s' (base.delete k m).
Proof.
  intros Hh Hr Hk. pose proof Hh as [Hp Hm]. destruct (delete_where_spec (pool s) k Hr) as (d' & Hd & Hrows).
  exists (set_pool d' s). unfold delete. rewrite Hk, (st_bind_run _ _ _ _ _ (conn_ok s m Hh Hr)), Hd.
  split; [done|]. split; [done|]. simpl in *. by rewrite Hrows, Hm.
Qed.

(** C19: while its server is reachable, the MySQL backend implements a map from keys
    to values under [get], [put] and [delete], for keys that do not start with a
    slash and rows that fit the columns; it lists a directory of that map when
    the prefix has no pattern characters and does not follow itself in a key. *)
Theorem mysql_backend_refines s m :
  holds s m → db_reachable (pool s) = true →
  (∀ k, starts_with_char slash k = false →
     get k s = (s, Ok ((λ v, {| be_key := k; be_value := v |}) <$> m !! k)) ∧
     ∃ s', delete k s = (s', Ok tt) ∧ holds s' (base.delete k m)) ∧
  (∀ e, starts_with_char slash (be_key e) = false →
     row_fits {| vault_key := be_key e; vault_value := be_value e |} = true →
     ∃ s', put e s = (s', Ok tt) ∧ holds s' (<[be_key e := be_value e]> m)) ∧
  (∀ p, starts_with_char slash p = false → literal p = true → unrepeated p m →
     ∃ l, list_ p s = (s, Ok l) ∧ listing (dom m) (MemBackend.dirs m) p l).
Proof.
  intros Hh Hr. split_and!; intros.
  - split; [by apply get_holds|by apply delete_holds].
  - by apply put_holds.
  - by apply list_spec.
Qed.

(** A key that repeats the prefix is listed without both occurrences: under the
    prefix appears a name that is no key, and the list is not a listing. *)
Theorem repeated_prefix_not_a_listing s m p name v :
  holds s m → db_reachable (pool s) = true → starts_with_char slash p = false → literal p = true → p ≠ "" →
  no_slash name → starts_with p name = false →
  m !! (p ++ p ++ name) = Some v → m !! (p ++ name) = None →
  ∃ l, list_ p s = (s, Ok l) ∧ name ∈ l ∧ ¬ listing (dom m) (MemBackend.dirs m) p l.
Proof.
  intros Hh Hr Hroot Hlit Hne Hns Hnp Hk Hno.
  destruct (list_shows s m p (p ++ p ++ name) v) as (l & Hl & Hin); [done..| |].
  { rewrite sql_like_prefix by done. apply starts_with_app. }
  rewrite trim_start_pat_app, trim_start_pat_once in Hin by auto.
  unfold segment in Hin. unfold no_slash in Hns. rewrite Hns in Hin.
  exists l. split_and!; [done..|]. intros Hlist. apply (listing_names _ _ _ _ Hlist) in Hin; [|done].
  apply elem_of_dom in Hin as [? ?]. congruence.
Qed.

(** A prefix with a pattern character also lists rows that are not below it,
    under the first segment of their whole key. *)
Theorem pattern_prefix_lists_other_keys s m p k v :
  holds s m → db_reachable (pool s) = true → starts_with_char slash p = false →
  m !! k = Some v → sql_like (p ++ "%") k = true → starts_with p k = false →
  ∃ l, list_ p s = (s, Ok l) ∧ segment k ∈ l.
Proof.
  intros Hh Hr Hroot Hk Hlike Hnp. destruct (list_shows s m p k v) as (l & Hl & Hin); [done..|].
  exists l. split; [done|]. unfold trim_start_pat in Hin. unfold starts_with in Hnp.
  destruct (String.length k); simpl in Hin; [done|]. by destruct (strip_prefix p k).
Qed.

(** When no connection can be had, any operation on a valid key panics with the
    lock held, and from then on every one does, whether or not the server is
    back. *)
Theorem outage_poisons_backend s k d :
  db_reachable (pool s) = false → starts_with_char slash k = false →
  ∃ s1, get k s = (s1, Panic) ∧
    let later := {| pool := d; poisoned := poisoned s1 |} in
    (∀ k', starts_with_char slash k' = false → get k' later = (later, Panic) ∧ delete k' later = (later, Panic)) ∧
    (∀ e, starts_with_char slash (be_key e) = false → put e later = (later, Panic)) ∧
    (∀ p, starts_with_char slash p = false → list_ p later = (later, Panic)).
Proof.
  intros Hr Hk. exists (poison s). unfold get, delete, put, list_. rewrite Hk.
  unfold st_bind, conn. rewrite Hr. split; [by destruct s as [? []]|]. simpl.
  split_and!; [intros k' ->; done|intros e ->; done|intros p ->; done].
Qed.

End mysql.

(** ** A table in memory *)
Module TestDatabase.

Record db := { table : gmap string bytes; up : bool }.

Definition row (kv : string * bytes) : MysqlBackendEntry :=
  {| vault_key := fst kv; vault_value := snd kv |}.

#[local] Instance test_db : Database db := {|
  db_pool := λ _, Some {| table := ∅; up := true |};
  db_reachable := up;
  select_like := λ d pat, Some (List.filter (λ e, sql_like pat (vault_key e)) (map row (map_to_list (table d))));
  select_first := λ d k, Some ((λ v, {| vault_key := k; vault_value := v |}) <$> table d !! k);
  replace_into := λ d e,
    if row_fits e then ({| table := <[vault_key e := vault_value e]> (table d); up := up d |}, Some tt) else (d, None);
  delete_where := λ d k, ({| table := base.delete k (table d); up := up d |}, Some tt)
|}.

Lemma rows_nodup (m : gmap string bytes) : NoDup (map vault_key (map row (map_to_list m))).
Proof. rewrite map_map. apply NoDup_fst_map_to_list. Qed.

Lemma filter_map_nodup (f : MysqlBackendEntry → bool) l :
  NoDup (map vault_key l) → NoDup (map vault_key (List.filter f l)).
Proof.
  induction l as [|e l IH]; [done|]. simpl. intros [Hn Hd]%NoDup_cons. destruct (f e); [|auto].
  simpl. apply NoDup_cons. split; [|auto]. intros Hin. apply Hn.
  apply list_elem_of_In, in_map_iff in Hin as (e' & He & [Hin _]%filter_In).
  apply list_elem_of_In, in_map_iff. eauto.
Qed.

#[local] Program Instance test_laws : DatabaseLaws db := {| rows := table |}.
Next Obligation.
  intros d pat Hr. eexists. split; [done|]. split; [apply filter_map_nodup, rows_nodup|].
  intros e. rewrite list_elem_of_In, filter_In, in_map_iff. split.
  - intros [([k v] & <- & Hin) Hl]. simpl. split; [|done].
    by apply list_elem_of_In, elem_of_map_to_list in Hin.
  - intros [Hk Hl]. split; [|done]. exists (vault_key e, vault_value e). split; [by destruct e|].
    by apply list_elem_of_In, elem_of_map_to_list.
Qed.
Next Obligation. done. Qed.
Next Obligation. intros d e Hr Hf. simpl. rewrite Hf. eauto. Qed.
Next Obligation. intros. eexists. split; done. Qed.

Definition demo : t db :=
  {| pool := {| table := {["a/a/x" := [x01]; "a/b/y" := [x02]; "axb/z" := [x03]]}; up := true |}; poisoned := false |}.

Lemma mysql_backend_refines_witness :
  ∃ l, list_ "a/b/" demo = (demo, Ok l) ∧ "y" ∈ l.
Proof.
  destruct (mysql_backend_refines demo (table (pool demo))) as (_ & _ & Hlist).
  - split; reflexivity.
  - reflexivity.
  - destruct (Hlist "a/b/") as (l & Hl & Hs).
    + reflexivity.
    + reflexivity.
    + right. intros r. unfold demo. simpl. rewrite !lookup_insert_ne by (destruct r; discriminate).
      rewrite lookup_singleton_ne by discriminate. reflexivity.
    + exists l. split; [exact Hl|]. apply (listing_names _ _ _ _ Hs); [reflexivity|].
      apply elem_of_dom. vm_compute. eauto.
Defined.

Lemma repeated_prefix_not_a_listing_witness :
  ∃ l, list_ "a/" demo = (demo, Ok l) ∧ "x" ∈ l ∧ ¬ listing (dom (table (pool demo))) (MemBackend.dirs (table (pool demo))) "a/" l.
Proof.
  apply (repeated_prefix_not_a_listing demo (table (pool demo)) "a/" "x" [x01]);
    [split; reflexivity|reflexivity|reflexivity|reflexivity|discriminate|reflexivity|reflexivity|vm_compute; reflexivity|vm_compute; reflexivity].
Defined.

Lemma pattern_prefix_lists_other_keys_witness : ∃ l, list_ "a_b/" demo = (demo, Ok l) ∧ "axb/" ∈ l.
Proof.
  apply (pattern_prefix_lists_other_keys demo (table (pool demo)) "a_b/" "axb/z" [x03]);
    [split; reflexivity|reflexivity|reflexivity|vm_compute; reflexivity|reflexivity|reflexivity].
Defined.

Lemma outage_poisons_backend_witness :
  ∃ s1, get "k" {| pool := {| table := ∅; up := false |}; poisoned := false |} = (s1, Panic) ∧ poisoned s1 = true.
Proof.
  destruct (outage_poisons_backend {| pool := {| table := ∅; up := false |}; poisoned := false |} "k"
    {| table := ∅; up := true |}) as (s1 & Hg & _); [reflexivity|reflexivity|].
  exists s1. split; [exact Hg|]. vm_compute in Hg. by injection Hg as <-.
Defined.

End TestDatabase.
