(* ===== verification/BarrierView.v ===== *)
(** * Barrier views (src/src/storage/barrier_view.rs)

    A view gives a component the keys of the shared barrier below a prefix.
    The operations are translated over any [Storage]; their properties are
    proved against the interface [StorageSpec], which the unsealed barrier
    implements. *)

From stdpp Require Import base tactics list sets gmap strings sorting.
From Stdlib Require Import Lia Ascii.
From S2P Require Import Prelude Errors RustStr Storage BarrierCorrect.

Local Open Scope string_scope.

Module BarrierView.

(** The barrier is shared ([Arc]); its state is passed to each operation. *)
Record t := View { prefix : string }.

Definition sanity_check (key : string) : result unit :=
  if contains ".." key || starts_with_char slash key
  then Err ErrBarrierKeySanityCheckFailed else Ok tt.

Definition expand_key (v : t) (suffix : string) : string := prefix v ++ suffix.

Definition truncate_key (v : t) (full : string) : string :=
  match strip_prefix (prefix v) full with Some r => r | None => full end.

Definition new (prefix : string) : t := View prefix.

Definition new_sub_view (v : t) (p : string) : t := View (expand_key v p).

Section view.
Context {S : Type} `{HSt : Storage S}.

Definition list_ (v : t) (s : S) (p : string) : result (list string) :=
  let? _ := sanity_check p in storage_list s (expand_key v p).

Definition get (v : t) (s : S) (key : string) : result (option StorageEntry) :=
  let? _ := sanity_check key in
  let? storage_entry := storage_get s (expand_key v key) in
  match storage_entry with
  | Some entry => Ok (Some {| se_key := truncate_key v (se_key entry); se_value := se_value entry |})
  | None => Ok None
  end.

Definition put (v : t) (s : S) (entry : StorageEntry) : S * result unit :=
  match sanity_check (se_key entry) with
  | Ok _ => storage_put s {| se_key := expand_key v (se_key entry); se_value := se_value entry |}
  | Err e => (s, Err e)
  | Panic => (s, Panic)
  end.

Definition delete (v : t) (s : S) (key : string) : S * result unit :=
  match sanity_check key with
  | Ok _ => storage_delete s (expand_key v key)
  | Err e => (s, Err e)
  | Panic => (s, Panic)
  end.

(** The body of [for p in items]: directories go on the stack (its top is the
    head of the list), keys at the end of the result. *)
Definition push_item (curr : string) (acc : list string * list string) (p : string)
  : list string * list string :=
  let path := curr ++ p in
  if ends_with_char slash p then (path :: fst acc, snd acc) else (fst acc, (snd acc ++ [path])%list).

(** The [while !paths.is_empty()] loop; [None] when the fuel runs out. *)
Fixpoint get_keys_loop (fuel : nat) (v : t) (s : S) (paths keys : list string)
  : option (result (list string)) :=
  match fuel with
  | O => None
  | Datatypes.S fuel =>
      match paths with
      | [] => Some (Ok (sort_strings keys))
      | curr :: paths =>
          match list_ v s curr with
          | Ok items =>
              let '(paths, keys) := fold_left (push_item curr) items (paths, keys) in
              get_keys_loop fuel v s paths keys
          | Err e => Some (Err e)
          | Panic => Some Panic
          end
      end
  end.

Definition get_keys (fuel : nat) (v : t) (s : S) : option (result (list string)) :=
  get_keys_loop fuel v s [""] [].

Fixpoint delete_all (v : t) (s : S) (keys : list string) : S * result unit :=
  match keys with
  | [] => (s, Ok tt)
  | key :: keys =>
      match delete v s key with
      | (s, Ok _) => delete_all v s keys
      | r => r
      end
  end.

Definition clear (fuel : nat) (v : t) (s : S) : option (S * result unit) :=
  match get_keys fuel v s with
  | None => None
  | Some (Ok keys) => Some (delete_all v s keys)
  | Some (Err e) => Some (s, Err e)
  | Some Panic => Some (s, Panic)
  end.

#[global] Instance storage : Storage (t * S) :=
  {| storage_list := fun vs p => list_ (fst vs) (snd vs) p;
     storage_get := fun vs k => get (fst vs) (snd vs) k;
     storage_put := fun vs e => let '(s, r) := put (fst vs) (snd vs) e in ((fst vs, s), r);
     storage_delete := fun vs k => let '(s, r) := delete (fst vs) (snd vs) k in ((fst vs, s), r) |}.

End view.
End BarrierView.
Import BarrierView.

(** ** Keys *)

Definition sane (key : string) : Prop := sanity_check key = Ok tt.

Lemma sane_empty : sane "".
Proof. done. Qed.

Lemma sanity_cases key : sanity_check key = Ok tt ∨ sanity_check key = Err ErrBarrierKeySanityCheckFailed.
Proof. unfold sanity_check. destruct (_ || _); auto. Qed.

Lemma truncate_expand v key : truncate_key v (expand_key v key) = key.
Proof. unfold truncate_key, expand_key. by autorewrite with rust_str. Qed.

Lemma expand_inj v k k' : expand_key v k = expand_key v k' → k = k'.
Proof. apply app_inj_l. Qed.

Lemma expand_sub_view v p k : expand_key (new_sub_view v p) k = expand_key v (p ++ k).
Proof. unfold new_sub_view, expand_key. simpl. by rewrite app_assoc_str. Qed.

(** ** The directory walk *)

Definition covers (paths : list string) (x : string) : Prop :=
  ∃ q, q ∈ paths ∧ starts_with q x = true.

Lemma covers_cons q paths x : covers (q :: paths) x ↔ starts_with q x = true ∨ covers paths x.
Proof. unfold covers. setoid_rewrite elem_of_cons. naive_solver. Qed.

Lemma covers_nil x : ¬ covers [] x.
Proof. intros (q & H%not_elem_of_nil & _). done. Qed.

Lemma fold_push_item curr items paths keys :
  fold_left (push_item curr) items (paths, keys) =
  (rev (map (String.append curr) (List.filter (ends_with_char slash) items)) ++ paths,
   keys ++ map (String.append curr) (List.filter (λ p, negb (ends_with_char slash p)) items))%list.
Proof.
  revert paths keys. induction items as [|p items IH]; intros paths keys; simpl.
  - by rewrite app_nil_r.
  - unfold push_item at 2. simpl. destruct (ends_with_char slash p); simpl; rewrite IH.
    + by rewrite <- app_assoc.
    + by rewrite <- app_assoc.
Qed.

Lemma classify_item keys dirs p l x :
  listing keys dirs p l → x ∈ l →
  (ends_with_char slash x = false ∧ no_slash x) ∨
  (ends_with_char slash x = true ∧ ∃ d, x = d ++ "/" ∧ no_slash d ∧ (p ++ d ++ "/") ∈ dirs).
Proof.
  intros Hl Hx. destruct (listing_shape _ _ _ _ Hl x Hx) as [Hn|[d ->]].
  - left. split; [|done]. apply not_true_is_false. intros [d ->]%ends_with_char_spec.
    by apply (no_slash_app_slash d).
  - right. split; [by apply ends_with_char_spec; exists d|]. exists d.
    destruct (listing_known _ _ _ _ Hl d Hx). done.
Qed.

Section walk.
Context (v : t) (keys : gset string) (dirs : list string).

(** The invariant of the loop: the stack holds pairwise incomparable
    directories that cover the keys not collected yet. *)
Record walk_inv (paths acc : list string) : Prop := {
  wi_dir q : q ∈ paths → dir_path q;
  wi_known q : q ∈ paths → q = "" ∨ expand_key v q ∈ dirs;
  wi_anti q q' : q ∈ paths → q' ∈ paths → starts_with q q' = true → q = q';
  wi_nodup : NoDup paths;
  wi_acc_in k : k ∈ acc → expand_key v k ∈ keys;
  wi_acc_nodup : NoDup acc;
  wi_acc_uncovered k : k ∈ acc → ¬ covers paths k;
  wi_complete k : expand_key v k ∈ keys → k ∈ acc ∨ covers paths k
}.

Lemma walk_init : walk_inv [""] [].
Proof.
  split.
  - intros q ->%list_elem_of_singleton. by left.
  - intros q ->%list_elem_of_singleton. by left.
  - by intros q q' ->%list_elem_of_singleton ->%list_elem_of_singleton.
  - apply NoDup_singleton.
  - by intros k ?%not_elem_of_nil.
  - constructor.
  - by intros k ?%not_elem_of_nil.
  - intros k _. right. exists "". split; [apply list_elem_of_here|].
    by apply (starts_with_app "").
Qed.

(** The names of one listing, as paths. *)
Definition sub_dirs (curr : string) (l : list string) : list string :=
  rev (map (String.append curr) (List.filter (ends_with_char slash) l)).
Definition sub_keys (curr : string) (l : list string) : list string :=
  map (String.append curr) (List.filter (λ p, negb (ends_with_char slash p)) l).

Lemma elem_of_sub_dirs curr l x :
  listing keys dirs (expand_key v curr) l →
  x ∈ sub_dirs curr l ↔
  ∃ d, x = curr ++ d ++ "/" ∧ no_slash d ∧ (d ++ "/") ∈ l ∧ expand_key v x ∈ dirs.
Proof.
  intros Hl. unfold sub_dirs. rewrite list_elem_of_In, <- in_rev, in_map_iff. split.
  - intros (y & <- & Hy). apply filter_In in Hy as [Hy He]. apply list_elem_of_In in Hy.
    destruct (classify_item _ _ _ _ _ Hl Hy) as [[He' _]|(_ & d & -> & Hd & Hin)]; [congruence|].
    exists d. split_and!; [done..|]. unfold expand_key in *. by rewrite app_assoc_str.
  - intros (d & -> & Hd & Hin & _). exists (d ++ "/"). split; [done|].
    apply filter_In. split; [by apply list_elem_of_In|]. apply ends_with_char_spec. by exists d.
Qed.

Lemma elem_of_sub_keys curr l x :
  listing keys dirs (expand_key v curr) l →
  x ∈ sub_keys curr l ↔ ∃ name, x = curr ++ name ∧ no_slash name ∧ expand_key v x ∈ keys.
Proof.
  intros Hl. unfold sub_keys. rewrite list_elem_of_In, in_map_iff. split.
  - intros (y & <- & Hy). apply filter_In in Hy as [Hy He]. apply list_elem_of_In in Hy.
    destruct (classify_item _ _ _ _ _ Hl Hy) as [[_ Hn]|[He' _]]; [|by rewrite He' in He].
    exists y. split_and!; [done..|].
    apply (listing_names _ _ _ _ Hl y Hn) in Hy. unfold expand_key in *. by rewrite app_assoc_str.
  - intros (name & -> & Hn & Hin). exists name. split; [done|]. apply filter_In.
    assert (name ∈ l) as Hl'.
    { apply (listing_names _ _ _ _ Hl name Hn). unfold expand_key in *. by rewrite <- app_assoc_str. }
    split; [by apply list_elem_of_In|].
    destruct (classify_item _ _ _ _ _ Hl Hl') as [[-> _]|(_ & d & -> & _)]; [done|].
    by destruct (no_slash_app_slash d).
Qed.

Lemma NoDup_sub_dirs curr l : NoDup l → NoDup (sub_dirs curr l).
Proof.
  intros H. unfold sub_dirs. apply NoDup_ListNoDup, List.NoDup_rev, NoDup_ListNoDup.
  apply (NoDup_fmap_2 _). by apply NoDup_ListNoDup, List.NoDup_filter, NoDup_ListNoDup.
Qed.

Lemma NoDup_sub_keys curr l : NoDup l → NoDup (sub_keys curr l).
Proof.
  intros H. unfold sub_keys. apply (NoDup_fmap_2 _).
  by apply NoDup_ListNoDup, List.NoDup_filter, NoDup_ListNoDup.
Qed.

(** Directories off the stack's top stay incomparable with what is below. *)
Lemma anti_top curr paths acc q x :
  walk_inv (curr :: paths) acc → q ∈ paths → ¬ (starts_with q (curr ++ x) = true) ∧
  ¬ starts_with (curr ++ x) q = true.
Proof.
  intros Hi Hq. pose proof (wi_nodup _ _ Hi) as [Hni _]%NoDup_cons.
  assert (∀ y, starts_with curr (curr ++ y) = true) as Hc by (intros; auto with rust).
  assert (starts_with q curr = true → False) as H1.
  { intros H. apply Hni. rewrite <- (wi_anti _ _ Hi q curr); [done|set_solver|set_solver|done]. }
  assert (starts_with curr q = true → False) as H2.
  { intros H. apply Hni. rewrite (wi_anti _ _ Hi curr q); [done|set_solver|set_solver|done]. }
  split; intros H.
  - destruct (Nat.le_ge_cases (String.length q) (String.length curr)).
    + apply H1. by apply (starts_with_comparable q curr (curr ++ x)).
    + apply H2. by apply (starts_with_comparable curr q (curr ++ x)).
  - apply H2. by apply (starts_with_trans _ (curr ++ x)).
Qed.

Lemma walk_step curr paths acc l :
  listing keys dirs (expand_key v curr) l → walk_inv (curr :: paths) acc →
  walk_inv (sub_dirs curr l ++ paths)%list (acc ++ sub_keys curr l)%list.
Proof.
  intros Hl Hi. pose proof (wi_nodup _ _ Hi) as [Hni Hnd]%NoDup_cons.
  pose proof (λ x, elem_of_sub_dirs curr l x Hl) as Hd.
  pose proof (λ x, elem_of_sub_keys curr l x Hl) as Hk.
  split.
  - intros q [(d & -> & _)%Hd|Hq]%elem_of_app; [|apply (wi_dir _ _ Hi); set_solver].
    right. exists (curr ++ d). by rewrite app_assoc_str.
  - intros q [(d & -> & _ & _ & ?)%Hd|Hq]%elem_of_app; [by right|apply (wi_known _ _ Hi); set_solver].
  - intros q q' [(d & -> & Hdd & _)%Hd|Hq]%elem_of_app [(d' & -> & Hdd' & _)%Hd|Hq']%elem_of_app Hs.
    + rewrite starts_with_app_l in Hs. apply starts_with_spec in Hs as [r Hr].
      rewrite <- app_assoc_str in Hr. by rewrite (no_slash_app_inj d' d "" r Hdd' Hdd Hr).
    + by destruct (proj2 (anti_top curr paths acc q' (d ++ "/") Hi Hq') Hs).
    + by destruct (proj1 (anti_top curr paths acc q (d' ++ "/") Hi Hq) Hs).
    + apply (wi_anti _ _ Hi); [set_solver|set_solver|done].
  - apply NoDup_app. split_and!; [|intros x (d & -> & _)%Hd Hx|done].
    + apply NoDup_sub_dirs, (listing_nodup _ _ _ _ Hl).
    + destruct (proj1 (anti_top curr paths acc _ (d ++ "/") Hi Hx)). auto with rust.
  - intros k [Hacc|(name & _ & _ & ?)%Hk]%elem_of_app; [by apply (wi_acc_in _ _ Hi)|done].
  - apply NoDup_app. split_and!; [apply (wi_acc_nodup _ _ Hi)| |].
    + intros k Hacc (name & -> & _)%Hk. apply (wi_acc_uncovered _ _ Hi _ Hacc).
      apply covers_cons. left. auto with rust.
    + apply NoDup_sub_keys, (listing_nodup _ _ _ _ Hl).
  - intros k [Hacc|(name & -> & Hn & _)%Hk]%elem_of_app (q & [(d & -> & Hdd & _)%Hd|Hq]%elem_of_app & Hs).
    + apply (wi_acc_uncovered _ _ Hi _ Hacc). apply covers_cons. left.
      eapply starts_with_trans; [|done]. auto with rust.
    + apply (wi_acc_uncovered _ _ Hi _ Hacc). apply covers_cons. right. by exists q.
    + rewrite starts_with_app_l in Hs. apply starts_with_spec in Hs as [r ->].
      unfold no_slash in Hn. by rewrite <- app_assoc_str, find_char_None_app in Hn.
    + by destruct (proj1 (anti_top curr paths acc q name Hi Hq) Hs).
  - intros k Hin. setoid_rewrite elem_of_app.
    destruct (wi_complete _ _ Hi k Hin) as [|[Hc|Hc]%covers_cons]; [auto| |].
    + apply starts_with_spec in Hc as [r ->]. destruct (no_slash_or r) as [Hr|(d & r' & Hdr & ->)].
      * left. right. apply Hk. eauto.
      * right. exists (curr ++ d ++ "/"). split; [|].
        -- apply elem_of_app. left. apply Hd. exists d. 
           assert (d ++ "/" ∈ l) as Hdl.
           { apply (listing_dirs _ _ _ _ Hl d r' Hdr). unfold expand_key in *. by rewrite <- app_assoc_str. }
           split_and!; [done..|]. destruct (listing_known _ _ _ _ Hl d Hdl) as [_ ?].
           unfold expand_key in *. by rewrite app_assoc_str.
        -- apply starts_with_spec. exists r'. by rewrite <- !app_assoc_str.
    + right. destruct Hc as (q & Hq & Hs). exists q. split; [set_solver|done].
Qed.
(** The measure: the known directories the stack covers. *)
Definition universe : gset string := {[prefix v]} ∪ list_to_set dirs.
Definition under (paths : list string) (x : string) : bool :=
  existsb (λ q, starts_with (expand_key v q) x) paths.
Definition covered (paths : list string) : gset string :=
  filter (λ x, under paths x = true) universe.

Lemma under_spec paths x :
  under paths x = true ↔ ∃ q, q ∈ paths ∧ starts_with (expand_key v q) x = true.
Proof. unfold under. rewrite existsb_exists. by setoid_rewrite list_elem_of_In. Qed.

Lemma walk_measure curr paths acc l :
  listing keys dirs (expand_key v curr) l → walk_inv (curr :: paths) acc →
  (size (covered (sub_dirs curr l ++ paths)%list) < size (covered (curr :: paths)))%nat.
Proof.
  intros Hl Hi. apply subset_size. split.
  - intros x. unfold covered. rewrite !elem_of_filter, !under_spec.
    intros [(q & [Hq|Hq]%elem_of_app & Hs) Hu]; (split; [|done]).
    + apply (elem_of_sub_dirs curr l q Hl) in Hq as (d & -> & _). exists curr.
      split; [apply list_elem_of_here|]. eapply starts_with_trans; [|done].
      unfold expand_key. rewrite starts_with_app_l. auto with rust.
    + exists q. split; [by apply list_elem_of_further|done].
  - intros Hsub. assert (expand_key v curr ∈ covered (sub_dirs curr l ++ paths)%list) as Hc.
    { apply Hsub, elem_of_filter. split.
      - apply under_spec. exists curr. split; [apply list_elem_of_here|auto with rust].
      - unfold universe. destruct (wi_known _ _ Hi curr (list_elem_of_here _ _)) as [->|Hin].
        + apply elem_of_union_l, elem_of_singleton. apply app_empty_r.
        + by apply elem_of_union_r, elem_of_list_to_set. }
    apply elem_of_filter in Hc as [(q & [Hq|Hq]%elem_of_app & Hs)%under_spec _].
    + apply (elem_of_sub_dirs curr l q Hl) in Hq as (d & -> & _).
      unfold expand_key in Hs. rewrite starts_with_app_l in Hs.
      apply starts_with_length in Hs. rewrite !length_app_str in Hs. simpl in Hs. lia.
    + unfold expand_key in Hs. rewrite starts_with_app_l in Hs.
      apply (proj1 (anti_top curr paths acc q "" Hi Hq)). by rewrite app_empty_r.
Qed.

Lemma size_list_to_set_le (l : list string) : (size (list_to_set l : gset string) ≤ length l)%nat.
Proof.
  induction l as [|x l IH]; cbn -[union size]; [by rewrite size_empty|].
  rewrite size_union_alt, size_singleton.
  assert (size ((list_to_set l : gset string) ∖ {[x]}) ≤ size (list_to_set l : gset string))%nat;
    [apply subseteq_size; set_solver|lia].
Qed.

Lemma covered_bound paths : (size (covered paths) ≤ Datatypes.S (length dirs))%nat.
Proof.
  transitivity (size universe).
  - apply subseteq_size. intros x. unfold covered. rewrite elem_of_filter. by intros [_ ?].
  - apply (size_list_to_set_le (prefix v :: dirs)).
Qed.

End walk.

(** ** Views of a ready storage *)
Section spec.
Context {S : Type} `{HSt : Storage S} `{HSS : !StorageSpec S}.

(** A view on a directory of the barrier. *)
Definition dir_view (v : t) : Prop :=
  dir_path (prefix v) ∧ starts_with_char slash (prefix v) = false.

(** Everything below the view's prefix has a name that views accept. *)
Definition sane_below (v : t) (s : S) : Prop :=
  (∀ k, expand_key v k ∈ storage_keys s → sane k) ∧
  (∀ k, expand_key v k ∈ storage_dirs s → sane k).

Definition sane_belowb (v : t) (s : S) : bool :=
  forallb (λ x, match strip_prefix (prefix v) x with
                | Some k => is_ok (sanity_check k)
                | None => true
                end) (elements (storage_keys s) ++ storage_dirs s)%list.

Lemma sane_belowb_spec v s : sane_belowb v s = true → sane_below v s.
Proof.
  unfold sane_belowb. rewrite forallb_forall. intros H.
  assert (∀ k, expand_key v k ∈ (elements (storage_keys s) ++ storage_dirs s)%list → sane k) as Hk.
  { intros k Hin%list_elem_of_In%H. unfold expand_key in Hin. rewrite strip_prefix_app in Hin.
    unfold sane. destruct (sanity_cases k) as [|E]; [done|]. by rewrite E in Hin. }
  split; intros k Hin; apply Hk, elem_of_app; [left; by apply elem_of_elements|by right].
Qed.

Lemma expand_no_slash v k : dir_view v → sane k → starts_with_char slash (expand_key v k) = false.
Proof.
  intros [_ Hv] Hk. unfold expand_key, sane, sanity_check in *.
  destruct (prefix v) as [|a p]; [|done]. simpl.
  destruct (starts_with_char slash k); [|done]. by rewrite orb_true_r in Hk.
Qed.

Lemma list_ok v s p :
  storage_ready s → dir_view v → dir_path p → sane p →
  ∃ l, list_ v s p = Ok l ∧ listing (storage_keys s) (storage_dirs s) (expand_key v p) l.
Proof.
  intros Hr Hv Hp Hs. unfold list_. rewrite Hs.
  destruct (storage_list_spec s (expand_key v p)) as (l & -> & Hl); [done| | |eauto].
  - apply dir_path_app; [apply Hv|done].
  - by apply expand_no_slash.
Qed.

(** The loop terminates: the fuel only has to exceed the measure. *)
Lemma get_keys_loop_spec v s :
  storage_ready s → dir_view v → sane_below v s →
  ∀ fuel paths acc, walk_inv v (storage_keys s) (storage_dirs s) paths acc →
    (size (covered v (storage_dirs s) paths) < fuel)%nat →
    ∃ ks, get_keys_loop fuel v s paths acc = Some (Ok (sort_strings ks)) ∧
          walk_inv v (storage_keys s) (storage_dirs s) [] ks.
Proof.
  intros Hr Hv Hsane. induction fuel as [|fuel IH]; intros paths acc Hi Hf; [lia|].
  destruct paths as [|curr paths]; simpl; [eauto|].
  assert (sane curr) as Hc.
  { destruct (wi_known _ _ _ _ _ Hi curr (list_elem_of_here _ _)) as [->|Hin]; [done|].
    by apply Hsane. }
  destruct (list_ok v s curr Hr Hv (wi_dir _ _ _ _ _ Hi curr (list_elem_of_here _ _)) Hc)
    as (l & -> & Hl).
  rewrite fold_push_item. apply IH.
  - by apply walk_step.
  - pose proof (walk_measure v _ _ curr paths acc l Hl Hi) as Hm. unfold sub_dirs in Hm. lia.
Qed.

Lemma get_keys_ok v s fuel :
  storage_ready s → dir_view v → sane_below v s → (length (storage_dirs s) + 2 ≤ fuel)%nat →
  ∃ ks, get_keys fuel v s = Some (Ok ks) ∧ StronglySorted String.le ks ∧ NoDup ks ∧
        ∀ k, k ∈ ks ↔ expand_key v k ∈ storage_keys s.
Proof.
  intros Hr Hv Hs Hf.
  destruct (get_keys_loop_spec v s Hr Hv Hs fuel [""] [] (walk_init v _ _)) as (ks & He & Hi).
  { pose proof (covered_bound v (storage_dirs s) [""]). lia. }
  exists (sort_strings ks). split_and!; [done|apply sort_strings_sorted| |].
  - rewrite sort_strings_perm. apply (wi_acc_nodup _ _ _ _ _ Hi).
  - intros k. rewrite sort_strings_perm. split; [apply (wi_acc_in _ _ _ _ _ Hi)|].
    intros Hk. destruct (wi_complete _ _ _ _ _ Hi k Hk) as [|Hc]; [done|by apply covers_nil in Hc].
Qed.

Lemma delete_ok v s k :
  storage_ready s → sane k → storage_key_ok (expand_key v k) →
  ∃ s', delete v s k = (s', Ok tt) ∧ storage_ready s' ∧
    storage_map s' = base.delete (expand_key v k) (storage_map s) ∧
    storage_keys s' = storage_keys s ∖ {[expand_key v k]}.
Proof.
  intros Hr Hk Hok. unfold delete. rewrite Hk.
  destruct (storage_delete_spec s _ Hr Hok) as (s' & -> & ? & ? & ? & _). eauto 10.
Qed.

Lemma delete_all_ok v ks s :
  storage_ready s → (∀ k, k ∈ ks → sane k ∧ storage_key_ok (expand_key v k)) →
  ∃ s', delete_all v s ks = (s', Ok tt) ∧ storage_ready s' ∧
    storage_keys s' = storage_keys s ∖ list_to_set (expand_key v <$> ks) ∧
    ∀ x, storage_map s' !! x = if decide (x ∈ expand_key v <$> ks) then None else storage_map s !! x.
Proof.
  revert s. induction ks as [|k ks IH]; intros s Hr Hk; cbn -[decide].
  - exists s. split_and!; [done|done|set_solver|]. intros x.
    destruct (decide _) as [H|]; [by apply not_elem_of_nil in H|done].
  - destruct (delete_ok v s k Hr) as (s1 & -> & Hr1 & Hm1 & Hk1); [apply Hk; set_solver..|].
    destruct (IH s1 Hr1) as (s2 & -> & Hr2 & Hk2 & Hm2); [intros; apply Hk; set_solver|].
    exists s2. split_and!; [done|done|rewrite Hk2, Hk1; set_solver|]. intros x. rewrite Hm2, Hm1.
    destruct (decide (x = expand_key v k)) as [->|Hne].
    + rewrite lookup_delete_eq. destruct (decide (_ ∈ _ :: _)) as [|[]]; [|apply list_elem_of_here].
      by destruct (decide _).
    + rewrite lookup_delete_ne by done. apply decide_ext. rewrite elem_of_cons. naive_solver.
Qed.

Lemma get_ok v s k x :
  storage_ready s → sane k → storage_key_ok (expand_key v k) →
  get v s k = Ok (Some {| se_key := k; se_value := x |}) ↔ storage_map s !! expand_key v k = Some x.
Proof.
  intros Hr Hk Hok. rewrite (storage_get_spec s _ x Hr Hok). unfold get. rewrite Hk.
  destruct (storage_get s (expand_key v k)) as [[[k' x']|]| |] eqn:E; [|naive_solver..].
  apply storage_get_key in E. simpl in *. subst k'. rewrite truncate_expand. naive_solver.
Qed.

Lemma incomparable_expand v v' k k' :
  starts_with (prefix v) (prefix v') = false → starts_with (prefix v') (prefix v) = false →
  expand_key v k ≠ expand_key v' k'.
Proof.
  intros H1 H2 He. unfold expand_key in He.
  assert (starts_with (prefix v) (prefix v ++ k) = true) as Ha by auto with rust.
  assert (starts_with (prefix v') (prefix v ++ k) = true) as Hb by (rewrite He; auto with rust).
  destruct (Nat.le_ge_cases (String.length (prefix v)) (String.length (prefix v'))).
  - by rewrite (starts_with_comparable _ _ _ Ha Hb) in H1.
  - by rewrite (starts_with_comparable _ _ _ Hb Ha) in H2.
Qed.

(** ** Properties *)

(** C27: a view reads back what it writes; a view on an incomparable prefix sees
    no difference, and neither does any view at any other full key.  A key that
    fails the sanity check (parent references, leading slash) reaches the
    barrier through no operation. *)
Theorem view_isolation (v : t) (s : S) (k : string) (x : bytes) :
  storage_ready s → storage_key_ok (expand_key v k) →
  (sane k →
   ∃ s', put v s {| se_key := k; se_value := x |} = (s', Ok tt) ∧ storage_ready s' ∧
     get v s' k = Ok (Some {| se_key := k; se_value := x |}) ∧
     ∀ v' k' x', sane k' → storage_key_ok (expand_key v' k') →
       (starts_with (prefix v) (prefix v') = false ∧ starts_with (prefix v') (prefix v) = false
        ∨ expand_key v' k' ≠ expand_key v k) →
       get v' s' k' = Ok (Some {| se_key := k'; se_value := x' |}) ↔
       get v' s k' = Ok (Some {| se_key := k'; se_value := x' |})) ∧
  (¬ sane k →
   put v s {| se_key := k; se_value := x |} = (s, Err ErrBarrierKeySanityCheckFailed) ∧
   delete v s k = (s, Err ErrBarrierKeySanityCheckFailed) ∧
   get v s k = Err ErrBarrierKeySanityCheckFailed ∧
   list_ v s k = Err ErrBarrierKeySanityCheckFailed).
Proof.
  intros Hr Hok. split.
  - intros Hk. unfold put. simpl. rewrite Hk.
    destruct (storage_put_spec s (expand_key v k) x Hr Hok) as (s' & -> & Hr' & Hm & _).
    exists s'. split_and!; [done|done| |].
    + apply get_ok; [done..|]. rewrite Hm. apply lookup_insert_eq.
    + intros v' k' x' Hk' Hok' Hdiff. rewrite !get_ok, Hm by done.
      rewrite lookup_insert_ne; [done|]. destruct Hdiff as [[]|]; [|done]. by apply incomparable_expand.
  - intros Hk. unfold put, delete, get, list_. simpl.
    destruct (sanity_cases k) as [|H]; [done|]. by rewrite H.
Qed.

(** C28: the directory walk behind [get_keys] terminates (one iteration per
    directory below the prefix, plus the last test) and returns, sorted and
    without duplicates, exactly the keys below the view's prefix. *)
Theorem view_get_keys_exact (v : t) (s : S) (fuel : nat) :
  storage_ready s → dir_view v → sane_below v s → (length (storage_dirs s) + 2 ≤ fuel)%nat →
  ∃ ks, get_keys fuel v s = Some (Ok ks) ∧ StronglySorted String.le ks ∧ NoDup ks ∧
        ∀ k, k ∈ ks ↔ expand_key v k ∈ storage_keys s.
Proof. apply get_keys_ok. Qed.

(** [clear] succeeds and deletes exactly the keys below the view's prefix:
    none is left there, and every other entry of the barrier is as before. *)
Theorem view_clear_exact (v : t) (s : S) (fuel : nat) :
  storage_ready s → dir_view v → sane_below v s → (length (storage_dirs s) + 2 ≤ fuel)%nat →
  ∃ s', clear fuel v s = Some (s', Ok tt) ∧ storage_ready s' ∧
    (∀ k, expand_key v k ∉ storage_keys s') ∧
    (∀ x, starts_with (prefix v) x = false →
          (x ∈ storage_keys s' ↔ x ∈ storage_keys s) ∧ storage_map s' !! x = storage_map s !! x).
Proof.
  intros Hr Hv Hs Hf. destruct (get_keys_ok v s fuel Hr Hv Hs Hf) as (ks & Hg & _ & _ & Hks).
  destruct (delete_all_ok v ks s Hr) as (s' & Hd & Hr' & Hk' & Hm').
  { intros k Hk%Hks. split; [by apply (proj1 Hs)|by eapply storage_keys_ok]. }
  exists s'. unfold clear. rewrite Hg, Hd. split_and!; [done|done| |].
  - intros k. rewrite Hk', elem_of_difference, elem_of_list_to_set.
    intros [Hin Hnot]. apply Hnot, list_elem_of_fmap. exists k. by rewrite Hks.
  - intros x Hx. assert (x ∉ expand_key v <$> ks) as Hnot.
    { intros (k & -> & _)%list_elem_of_fmap. unfold expand_key in Hx. by autorewrite with rust_str in Hx. }
    rewrite Hk', Hm', elem_of_difference, elem_of_list_to_set. split; [by split; [intros []|]|].
    by destruct (decide (x ∈ expand_key v <$> ks)).
Qed.

End spec.

(** *** Witnesses: views of the barrier over the in-memory backend *)

Lemma demo_ready (s : AESGCMBarrier.t MemBackend.t) :
  AESGCMBarrier.info s = AESGCMBarrier.info demo_barrier →
  storage_ready (StorageSpec := barrier_storage_spec (HG := toy_gcm) (HGL := toy_gcm_laws)
                                  (HR := demo_rng) (HBS := MemBackend.backend_spec)) s.
Proof. intros H. by eapply operational_info, demo_operational. Defined.

(** A barrier with three entries below two prefixes, written through views. *)
Definition demo_put (s : AESGCMBarrier.t MemBackend.t) (p k : string) : AESGCMBarrier.t MemBackend.t :=
  fst (put (HSt := AESGCMBarrier.storage (HG := toy_gcm) (HR := demo_rng)) (View p) s
         {| se_key := k; se_value := [x2a] |}).
Definition demo_store : AESGCMBarrier.t MemBackend.t :=
  demo_put (demo_put (demo_put demo_barrier "logical/1/" "a/b") "logical/1/" "c") "logical/2/" "a".

Abbreviation demo_spec := (barrier_storage_spec (HG := toy_gcm) (HGL := toy_gcm_laws)
                             (HR := demo_rng) (HBS := MemBackend.backend_spec)).

Lemma view_isolation_witness :
  ∃ s', put (HSt := AESGCMBarrier.storage (HG := toy_gcm) (HR := demo_rng)) (View "logical/1/")
          demo_store {| se_key := "c"; se_value := [x01] |} = (s', Ok tt).
Proof.
  destruct (view_isolation (HSS := demo_spec) (View "logical/1/") demo_store "c" [x01])
    as [(s' & Hp & _) _]; [by apply demo_ready|exact I|reflexivity|]. by exists s'.
Defined.

Lemma view_get_keys_exact_witness :
  get_keys (HSt := AESGCMBarrier.storage (HG := toy_gcm) (HR := demo_rng)) 20 (View "logical/1/") demo_store
    = Some (Ok ["a/b"; "c"]) ∧
  ∃ ks, get_keys (HSt := AESGCMBarrier.storage (HG := toy_gcm) (HR := demo_rng)) 20
          (View "logical/1/") demo_store = Some (Ok ks) ∧ NoDup ks.
Proof.
  split; [by vm_compute|].
  destruct (view_get_keys_exact (HSS := demo_spec) (View "logical/1/") demo_store 20)
    as (ks & Hg & _ & Hnd & _);
    [by apply demo_ready|split; [right; by exists "logical/1"|reflexivity]
    |apply sane_belowb_spec; by vm_compute|vm_compute; lia|].
  exists ks. exact (conj Hg Hnd).
Defined.

Lemma view_clear_exact_witness :
  ∃ s', clear (HSt := AESGCMBarrier.storage (HG := toy_gcm) (HR := demo_rng)) 20 (View "logical/1/") demo_store
    = Some (s', Ok tt).
Proof.
  destruct (view_clear_exact (HSS := demo_spec) (View "logical/1/") demo_store 20)
    as (s' & Hg & _);
    [by apply demo_ready|split; [right; by exists "logical/1"|reflexivity]
    |apply sane_belowb_spec; by vm_compute|vm_compute; lia|].
  exists s'. exact Hg.
Defined.
