(* ===== verification/Logical.v ===== *)
(** * Requests, responses, fields (src/src/logical)

    The data types of src/src/logical/{mod,auth,connection,secret,response,
    path,field,request}.rs and the operations on them.  [Module FieldTrait] is
    the trait of field.rs on JSON values, [Module FieldOps] the methods of
    [Field], [Module RequestOps] those of [Request]. *)

From stdpp Require Import base tactics list gmap strings pretty.
From Stdlib Require Import ZArith Lia Ascii.
From S2P Require Import Prelude Errors RustStr Utils Lease Storage BarrierView.

Local Open Scope string_scope.

(** ** Data *)

Inductive Operation := List | Read | Write | Delete | Help | Renew | Revoke | Rollback.

#[global] Instance Operation_eq_dec : EqDecision Operation.
Proof. solve_decision. Defined.

Inductive HandlePhase := PreAuth | PostAuth | PreRoute | Route | PostRoute | Log.

Inductive FieldType := Str | SecretStr | Int | Bool | Map | Array | DurationSecond | CommaStringSlice.

#[global] Instance FieldType_eq_dec : EqDecision FieldType.
Proof. solve_decision. Defined.

Record Field := {
  required : bool;
  field_type : FieldType;
  field_default : Value;
  description : string
}.

(** The part of [Path] that a request carries: the operations with their
    handlers belong to the backend. *)
Record Path := {
  pattern : string;
  fields : gmap string Field;
  path_help : string
}.

Record PolicyInfo := {
  pi_name : string;
  namespace_id : string;
  namespace_path : string;
  policy_type : string
}.

Record PolicyResults := { allowed : bool; granting_policies : list PolicyInfo }.

Record Auth := {
  auth_lease : Lease.Lease;
  auth_client_token : string;
  display_name : string;
  policies : list string;
  token_policies : list string;
  no_default_policy : bool;
  auth_internal_data : gmap string string;
  metadata : gmap string string;
  policy_results : option PolicyResults;
  period : Duration;
  auth_explicit_max_ttl : Duration
}.

Record SecretData := {
  secret_lease : Lease.Lease;
  lease_id : string;
  secret_internal_data : gmap string Value
}.

(** The certificates of the peer, by their DER encoding. *)
Record Connection := { peer_addr : string; peer_tls_cert : option (list bytes) }.

Record Response := {
  request_id : string;
  resp_headers : option (gmap string string);
  resp_data : option (gmap string Value);
  resp_auth : option Auth;
  resp_secret : option SecretData;
  redirect : string;
  warnings : list string
}.

(** A request; the bound handler is known by its name. *)
Record Request := {
  req_id : string;
  req_name : string;
  operation : Operation;
  path : string;
  match_path : option Path;
  headers : option (gmap string string);
  body : option (gmap string Value);
  data : option (gmap string Value);
  client_token : string;
  storage : option BarrierView.t;
  connection : option Connection;
  secret : option SecretData;
  auth : option Auth;
  handler : option string;
  handle_phase : HandlePhase
}.

Definition set_req_name (x : string) (r : Request) : Request :=
    {| req_id := req_id r; req_name := x; operation := operation r; path := path r; match_path :=
     match_path r; headers := headers r; body := body r; data := data r; client_token :=
     client_token r; storage := storage r; connection := connection r; secret := secret r; auth :=
     auth r; handler := handler r; handle_phase := handle_phase r |}.
Definition set_operation (x : Operation) (r : Request) : Request :=
    {| req_id := req_id r; req_name := req_name r; operation := x; path := path r; match_path :=
     match_path r; headers := headers r; body := body r; data := data r; client_token :=
     client_token r; storage := storage r; connection := connection r; secret := secret r; auth :=
     auth r; handler := handler r; handle_phase := handle_phase r |}.
Definition set_path (x : string) (r : Request) : Request :=
    {| req_id := req_id r; req_name := req_name r; operation := operation r; path := x; match_path
     := match_path r; headers := headers r; body := body r; data := data r; client_token :=
     client_token r; storage := storage r; connection := connection r; secret := secret r; auth :=
     auth r; handler := handler r; handle_phase := handle_phase r |}.
Definition set_match_path (x : option Path) (r : Request) : Request :=
    {| req_id := req_id r; req_name := req_name r; operation := operation r; path := path r;
     match_path := x; headers := headers r; body := body r; data := data r; client_token :=
     client_token r; storage := storage r; connection := connection r; secret := secret r; auth :=
     auth r; handler := handler r; handle_phase := handle_phase r |}.
Definition set_body (x : option (gmap string Value)) (r : Request) : Request :=
    {| req_id := req_id r; req_name := req_name r; operation := operation r; path := path r;
     match_path := match_path r; headers := headers r; body := x; data := data r; client_token :=
     client_token r; storage := storage r; connection := connection r; secret := secret r; auth :=
     auth r; handler := handler r; handle_phase := handle_phase r |}.
Definition set_data (x : option (gmap string Value)) (r : Request) : Request :=
    {| req_id := req_id r; req_name := req_name r; operation := operation r; path := path r;
     match_path := match_path r; headers := headers r; body := body r; data := x; client_token :=
     client_token r; storage := storage r; connection := connection r; secret := secret r; auth :=
     auth r; handler := handler r; handle_phase := handle_phase r |}.
Definition set_client_token (x : string) (r : Request) : Request :=
    {| req_id := req_id r; req_name := req_name r; operation := operation r; path := path r;
     match_path := match_path r; headers := headers r; body := body r; data := data r; client_token
     := x; storage := storage r; connection := connection r; secret := secret r; auth := auth r;
     handler := handler r; handle_phase := handle_phase r |}.
Definition set_storage (x : option BarrierView.t) (r : Request) : Request :=
    {| req_id := req_id r; req_name := req_name r; operation := operation r; path := path r;
     match_path := match_path r; headers := headers r; body := body r; data := data r; client_token
     := client_token r; storage := x; connection := connection r; secret := secret r; auth := auth
     r; handler := handler r; handle_phase := handle_phase r |}.
Definition set_connection (x : option Connection) (r : Request) : Request :=
    {| req_id := req_id r; req_name := req_name r; operation := operation r; path := path r;
     match_path := match_path r; headers := headers r; body := body r; data := data r; client_token
     := client_token r; storage := storage r; connection := x; secret := secret r; auth := auth r;
     handler := handler r; handle_phase := handle_phase r |}.
Definition set_secret (x : option SecretData) (r : Request) : Request :=
    {| req_id := req_id r; req_name := req_name r; operation := operation r; path := path r;
     match_path := match_path r; headers := headers r; body := body r; data := data r; client_token
     := client_token r; storage := storage r; connection := connection r; secret := x; auth := auth
     r; handler := handler r; handle_phase := handle_phase r |}.
Definition set_auth (x : option Auth) (r : Request) : Request :=
    {| req_id := req_id r; req_name := req_name r; operation := operation r; path := path r;
     match_path := match_path r; headers := headers r; body := body r; data := data r; client_token
     := client_token r; storage := storage r; connection := connection r; secret := secret r; auth
     := x; handler := handler r; handle_phase := handle_phase r |}.
Definition set_handler (x : option string) (r : Request) : Request :=
    {| req_id := req_id r; req_name := req_name r; operation := operation r; path := path r;
     match_path := match_path r; headers := headers r; body := body r; data := data r; client_token
     := client_token r; storage := storage r; connection := connection r; secret := secret r; auth
     := auth r; handler := x; handle_phase := handle_phase r |}.
Definition set_handle_phase (x : HandlePhase) (r : Request) : Request :=
    {| req_id := req_id r; req_name := req_name r; operation := operation r; path := path r;
     match_path := match_path r; headers := headers r; body := body r; data := data r; client_token
     := client_token r; storage := storage r; connection := connection r; secret := secret r; auth
     := auth r; handler := handler r; handle_phase := x |}.


(** [impl Default for Lease] (derived): zero durations, issued now. *)
Definition default_lease (now : SystemTime) : Lease.Lease :=
  {| Lease.ttl := 0; Lease.max_ttl := 0; Lease.renewable := true; Lease.increment := 0;
     Lease.issue_time := Some now |}.

Module ResponseOps.

Definition new : Response :=
  {| request_id := ""; resp_headers := None; resp_data := None; resp_auth := None;
     resp_secret := None; redirect := ""; warnings := [] |}.

Definition set_data (d : option (gmap string Value)) (r : Response) : Response :=
  {| request_id := request_id r; resp_headers := resp_headers r; resp_data := d;
     resp_auth := resp_auth r; resp_secret := resp_secret r; redirect := redirect r;
     warnings := warnings r |}.

Definition set_secret (x : option SecretData) (r : Response) : Response :=
  {| request_id := request_id r; resp_headers := resp_headers r; resp_data := resp_data r;
     resp_auth := resp_auth r; resp_secret := x; redirect := redirect r; warnings := warnings r |}.

Definition set_auth (x : option Auth) (r : Response) : Response :=
  {| request_id := request_id r; resp_headers := resp_headers r; resp_data := resp_data r;
     resp_auth := x; resp_secret := resp_secret r; redirect := redirect r; warnings := warnings r |}.

Definition data_response (d : option (gmap string Value)) : Response := set_data d new.

Definition list_response (keys : list string) : Response :=
  set_data (Some {["keys" := VArray (map VStr keys)]}) new.

Definition help_response (text : string) (see_also : list string) : Response :=
  set_data (Some (<["help" := VStr text]> {["sea_also" := VArray (map VStr see_also)]})) new.

Definition error_response (text : string) : Response :=
  set_data (Some {["error" := VStr text]}) new.

(** [raw] is the JSON value of the wrapped response. *)
Definition respond_with_status_code (raw : option Value) (code : Z) : Response :=
  let d := <["http_content_type" := VStr "application/json"]> {["http_status_code" := VInt code]} in
  let d := match raw with Some v => <["http_raw_body" := v]> d | None => d end in
  set_data (Some d) new.

Definition add_warning (w : string) (r : Response) : Response :=
  {| request_id := request_id r; resp_headers := resp_headers r; resp_data := resp_data r;
     resp_auth := resp_auth r; resp_secret := resp_secret r; redirect := redirect r;
     warnings := (warnings r ++ [w])%list |}.

Definition set_request_id (id : string) (r : Response) : Response :=
  {| request_id := id; resp_headers := resp_headers r; resp_data := resp_data r;
     resp_auth := resp_auth r; resp_secret := resp_secret r; redirect := redirect r;
     warnings := warnings r |}.

End ResponseOps.

(** ** Third-party parsers: humantime's durations and serde_json *)
Class Humantime : Type := parse_duration : string -> option Duration.
Class JsonParser : Type := json_from_str : string -> option Value.

(** ** [str::parse] for integers *)

Definition digit (a : ascii) : option Z :=
  let n := Z.of_nat (nat_of_ascii a) in
  if ((48 <=? n) && (n <=? 57))%Z then Some (n - 48)%Z else None.

Fixpoint digits (acc : Z) (s : string) : option Z :=
  match s with
  | EmptyString => Some acc
  | String a s => match digit a with Some d => digits (acc * 10 + d) s | None => None end
  end.

Definition unsigned (s : string) : option Z := if is_empty s then None else digits 0 s.

Definition I64_MIN : Z := - 2 ^ 63.
Definition I64_MAX : Z := 2 ^ 63 - 1.
Definition U64_MAX : Z := 2 ^ 64 - 1.

Definition in_range (lo hi : Z) (z : Z) : option Z :=
  if ((lo <=? z) && (z <=? hi))%Z then Some z else None.

Definition parse_u64 (s : string) : option Z :=
  let s := match s with String "+" s => s | _ => s end in
  match unsigned s with Some z => in_range 0 U64_MAX z | None => None end.

Definition parse_i64 (s : string) : option Z :=
  match s with
  | String "-" s => match unsigned s with Some z => in_range I64_MIN I64_MAX (- z) | None => None end
  | String "+" s => match unsigned s with Some z => in_range I64_MIN I64_MAX z | None => None end
  | _ => match unsigned s with Some z => in_range I64_MIN I64_MAX z | None => None end
  end.

(** ** serde_json accessors *)

Definition as_i64 (v : Value) : option Z :=
  match v with VInt z => in_range I64_MIN I64_MAX z | _ => None end.
Definition as_u64 (v : Value) : option Z :=
  match v with VInt z => in_range 0 U64_MAX z | _ => None end.
Definition is_i64 (v : Value) : bool := bool_decide (is_Some (as_i64 v)).
Definition as_array (v : Value) : option (list Value) := match v with VArray l => Some l | _ => None end.
Definition as_object (v : Value) : option (list (string * Value)) :=
  match v with VObject m => Some m | _ => None end.
Definition is_string (v : Value) : bool := match v with VStr _ => true | _ => false end.
Definition is_boolean (v : Value) : bool := match v with VBool _ => true | _ => false end.
Definition is_array (v : Value) : bool := match v with VArray _ => true | _ => false end.
Definition is_object (v : Value) : bool := match v with VObject _ => true | _ => false end.
Definition is_null (v : Value) : bool := match v with VNull => true | _ => false end.

Module FieldTrait.
Section trait.
Context `{HH : Humantime} `{HJ : JsonParser}.

Definition is_int (v : Value) : bool :=
  if is_i64 v then true
  else match as_str v with
       | None => false
       | Some s => match parse_i64 s with None => false | Some _ => true end
       end.

Definition is_duration (v : Value) : bool :=
  if is_i64 v then true
  else match as_str v with
       | Some s => bool_decide (is_Some (parse_u64 s)) || bool_decide (is_Some (parse_duration s))
       | None => false
       end.

(** The loop over the items of an array. *)
Fixpoint slice_items (l : list Value) : bool :=
  match l with
  | [] => true
  | item :: l =>
      match as_str item with
      | Some _ => slice_items l
      | None => match as_i64 item with Some _ => slice_items l | None => false end
      end
  end.

Definition is_comma_string_slice (v : Value) : bool :=
  match as_array v with
  | Some l => slice_items l
  | None =>
      match as_i64 v with
      | Some _ => true
      | None => match as_str v with Some _ => true | None => false end
      end
  end.

Definition is_map (v : Value) : bool :=
  if is_object v then true
  else match as_str v with
       | None => false
       | Some s => match json_from_str s with Some m => is_object m | None => false end
       end.

Definition as_int (v : Value) : option Z :=
  match as_i64 v with
  | Some z => Some z
  | None => match as_str v with Some s => parse_i64 s | None => None end
  end.

Definition as_duration (v : Value) : option Duration :=
  match as_u64 v with
  | Some secs => Some (from_secs secs)
  | None =>
      match as_str v with
      | Some s =>
          match parse_u64 s with
          | Some secs => Some (from_secs secs)
          | None => parse_duration s
          end
      | None => None
      end
  end.

Fixpoint comma_items (ret : list string) (l : list Value) : option (list string) :=
  match l with
  | [] => Some ret
  | item :: l =>
      match as_str item with
      | Some s => comma_items (ret ++ [trim s])%list l
      | None =>
          match as_i64 item with
          | Some z => comma_items (ret ++ [pretty z])%list l
          | None => None
          end
      end
  end.

Definition as_comma_string_slice (v : Value) : option (list string) :=
  match as_array v with
  | Some l => comma_items [] l
  | None =>
      match as_i64 v with
      | Some z => Some [pretty z]
      | None =>
          match as_str v with
          | Some s => Some (List.filter (λ w, negb (is_empty w)) (map trim (split_char "," s)))
          | None => None
          end
      end
  end.

(** The string-valued entries of an object. *)
Definition string_entries (m : list (string * Value)) : gmap string string :=
  fold_left (λ ret '(k, v), match as_str v with Some s => <[k := s]> ret | None => ret end) m ∅.

(** [serde_json::from_str::<HashMap<String, String>>]: an object all of whose
    values are strings. *)
Definition string_map_of (v : Value) : option (gmap string string) :=
  match as_object v with
  | Some m => if forallb (λ kv, is_string (snd kv)) m then Some (string_entries m) else None
  | None => None
  end.

Definition as_map (v : Value) : option (gmap string string) :=
  match as_object v with
  | Some m => Some (string_entries m)
  | None =>
      match as_str v with
      | Some s => Some (default ∅ (json_from_str s ≫= string_map_of))
      | None => None
      end
  end.

End trait.
End FieldTrait.

Module FieldOps.
Section ops.
Context `{HH : Humantime} `{HJ : JsonParser}.

Definition new : Field :=
  {| required := false; field_type := Str; field_default := VNull; description := "" |}.

Definition check_data_type (self : Field) (d : Value) : bool :=
  match field_type self with
  | SecretStr | Str => is_string d
  | Int => FieldTrait.is_int d
  | Bool => is_boolean d
  | Array => is_array d
  | Map => is_object d
  | DurationSecond => FieldTrait.is_duration d
  | CommaStringSlice => FieldTrait.is_comma_string_slice d
  end.

Definition zero_value (ty : FieldType) : Value :=
  match ty with
  | SecretStr | Str => VStr ""
  | Int => VInt 0
  | Bool => VBool false
  | Array => VArray []
  | Map => VObject []
  | DurationSecond => VInt 0
  | CommaStringSlice => VArray []
  end.

Definition get_default (self : Field) : result Value :=
  let d := field_default self in
  let keep_if (b : bool) := if b then Ok d else Err ErrRustDowncastFailed in
  let parse_if_str :=
    match as_str d with
    | Some s => of_option SerdeJson (json_from_str s)
    | None => Err ErrRustDowncastFailed
    end in
  if is_null d then Ok (zero_value (field_type self))
  else
    match field_type self with
    | SecretStr | Str => keep_if (is_string d)
    | Int => keep_if (is_i64 d)
    | Bool => keep_if (is_boolean d)
    | Array => if is_array d then Ok d else parse_if_str
    | Map => if is_object d then Ok d else parse_if_str
    | DurationSecond => keep_if (FieldTrait.is_duration d)
    | CommaStringSlice => keep_if (FieldTrait.is_comma_string_slice d)
    end.

End ops.
End FieldOps.

Module RequestOps.

Definition new (p : string) : Request :=
  {| req_id := ""; req_name := ""; operation := Read; path := p; match_path := None; headers := None;
     body := None; data := None; client_token := ""; storage := None; connection := None;
     secret := None; auth := None; handler := None; handle_phase := PreRoute |}.

Definition new_revoke_request (p : string) (s : option SecretData) (d : option (gmap string Value))
  : Request := set_data d (set_secret s (set_operation Revoke (new p))).
Definition new_renew_request (p : string) (s : option SecretData) (d : option (gmap string Value))
  : Request := set_data d (set_secret s (set_operation Renew (new p))).
Definition new_renew_auth_request (p : string) (a : option Auth) (d : option (gmap string Value))
  : Request := set_data d (set_auth a (set_operation Renew (new p))).

Definition bind_handler (h : string) (self : Request) : Request := set_handler (Some h) self.
Definition get_handler (self : Request) : option string := handler self.

Definition get_field (p : Path) (key : string) : option Field := fields p !! key.

Section data.
Context `{HH : Humantime} `{HJ : JsonParser}.

(** One of the two data sources: a present entry decides, invalid or not. *)
Definition lookup_checked (f : Field) (m : option (gmap string Value)) (key : string)
  : option (result Value) :=
  match m ≫= lookup key with
  | Some d => Some (if FieldOps.check_data_type f d then Ok d else Err ErrRequestFieldInvalid)
  | None => None
  end.

(** [match_path.unwrap()] panics on a request that was not matched. *)
Definition get_data_raw (self : Request) (key : string) (use_default : bool) : result Value :=
  match match_path self with
  | None => Panic
  | Some mp =>
      match get_field mp key with
      | None => Err ErrRequestNoDataField
      | Some f =>
          match lookup_checked f (data self) key with
          | Some r => r
          | None =>
              match lookup_checked f (body self) key with
              | Some r => r
              | None =>
                  if use_default then
                    if required f then Err ErrRequestFieldNotFound else FieldOps.get_default f
                  else Err ErrRequestFieldNotFound
              end
          end
      end
  end.

Definition ready_for_data (self : Request) : result unit :=
  match match_path self with
  | None => Err ErrRequestNotReady
  | Some _ =>
      match data self, body self with
      | None, None => Err ErrRequestNoData
      | _, _ => Ok tt
      end
  end.

Definition get_data (self : Request) (key : string) : result Value :=
  let? _ := ready_for_data self in get_data_raw self key false.

Definition get_data_or_default (self : Request) (key : string) : result Value :=
  let? _ := ready_for_data self in get_data_raw self key true.

Fixpoint first_data (self : Request) (keys : list string) : result Value :=
  match keys with
  | [] => Err ErrRequestFieldNotFound
  | key :: keys =>
      match get_data_raw self key false with
      | Ok raw => Ok raw
      | Err e => if RvError_eq e ErrRequestFieldNotFound then first_data self keys else Err e
      | Panic => Panic
      end
  end.

Definition get_data_or_next (self : Request) (keys : list string) : result Value :=
  let? _ := ready_for_data self in first_data self keys.

Definition get_data_as_str (self : Request) (key : string) : result string :=
  let? v := get_data self key in
  match as_str v with
  | None => Err ErrRequestFieldInvalid
  | Some s => if is_empty (trim s) then Err (ErrResponse ("missing " ++ key)) else Ok (trim s)
  end.

Definition get_field_default_or_zero (self : Request) (key : string) : result Value :=
  match match_path self with
  | None => Err ErrRequestNotReady
  | Some mp =>
      match get_field mp key with
      | None => Err ErrRequestNoDataField
      | Some f => FieldOps.get_default f
      end
  end.

End data.

(** Blank the string stored under [key], if there is one. *)
Definition blank_entry (key : string) (m : gmap string Value) : gmap string Value :=
  match m !! key with Some (VStr _) => <[key := VStr ""]> m | _ => m end.

Definition clear_data (key : string) (self : Request) : Request :=
  let self := match data self with Some m => set_data (Some (blank_entry key m)) self | None => self end in
  match body self with Some m => set_body (Some (blank_entry key m)) self | None => self end.

Section storage.
Context {S : Type} `{HSt : Storage S}.

Definition storage_list (self : Request) (s : S) (prefix : string) : result (list string) :=
  match storage self with
  | None => Err ErrRequestNotReady
  | Some v => BarrierView.list_ v s prefix
  end.

Definition storage_get (self : Request) (s : S) (key : string) : result (option StorageEntry) :=
  match storage self with
  | None => Err ErrRequestNotReady
  | Some v => BarrierView.get v s key
  end.

Definition storage_put (self : Request) (s : S) (entry : StorageEntry) : S * result unit :=
  match storage self with
  | None => (s, Err ErrRequestNotReady)
  | Some v => BarrierView.put v s entry
  end.

Definition storage_delete (self : Request) (s : S) (key : string) : S * result unit :=
  match storage self with
  | None => (s, Err ErrRequestNotReady)
  | Some v => BarrierView.delete v s key
  end.

End storage.
End RequestOps.

(** ** Fields: validation agrees with conversion *)
Section field_laws.
Context `{HH : Humantime} `{HJ : JsonParser}.

Lemma in_range_Some lo hi z z' : in_range lo hi z = Some z' ↔ z' = z ∧ (lo ≤ z ≤ hi)%Z.
Proof.
  unfold in_range. destruct (Z.leb_spec lo z), (Z.leb_spec z hi); simpl; naive_solver lia.
Qed.

Lemma is_i64_spec v : is_i64 v = true ↔ is_Some (as_i64 v).
Proof. apply bool_decide_eq_true. Qed.

Lemma is_int_as_int v : FieldTrait.is_int v = true ↔ is_Some (FieldTrait.as_int v).
Proof.
  unfold FieldTrait.is_int, FieldTrait.as_int, is_i64.
  destruct (as_i64 v); simpl; [naive_solver|]. destruct (as_str v) as [s|]; [|naive_solver].
  destruct (parse_i64 s); naive_solver.
Qed.

Lemma comma_items_ok ret l : FieldTrait.slice_items l = bool_decide (is_Some (FieldTrait.comma_items ret l)).
Proof.
  revert ret. induction l as [|v l IH]; intros ret; simpl; [done|].
  destruct (as_str v); [apply IH|]. destruct (as_i64 v); [apply IH|done].
Qed.

Lemma is_comma_as_comma v :
  FieldTrait.is_comma_string_slice v = true ↔ is_Some (FieldTrait.as_comma_string_slice v).
Proof.
  unfold FieldTrait.is_comma_string_slice, FieldTrait.as_comma_string_slice.
  destruct (as_array v) as [l|].
  - rewrite (comma_items_ok [] l). apply bool_decide_eq_true.
  - destruct (as_i64 v); [naive_solver|]. destruct (as_str v); naive_solver.
Qed.

Lemma as_i64_int v z : as_i64 v = Some z ↔ v = VInt z ∧ (I64_MIN ≤ z ≤ I64_MAX)%Z.
Proof. destruct v; simpl; try naive_solver. rewrite in_range_Some. naive_solver. Qed.

(** A duration that validates converts, unless it is a negative integer. *)
Lemma is_duration_converts v :
  FieldTrait.is_duration v = true →
  is_Some (FieldTrait.as_duration v) ∨
  (∃ z, v = VInt z ∧ (z < 0)%Z ∧ FieldTrait.as_duration v = None).
Proof.
  unfold FieldTrait.is_duration, FieldTrait.as_duration, is_i64.
  destruct (as_i64 v) as [z|] eqn:E.
  - intros _. apply as_i64_int in E as [-> Hz]. simpl. unfold in_range.
    destruct (Z.leb_spec 0 z) as [H0|H0]; simpl.
    + left. rewrite (proj2 (Z.leb_le z U64_MAX)); [eauto|]. unfold I64_MAX, U64_MAX in *. lia.
    + right. eauto.
  - rewrite bool_decide_false by (by intros []). destruct v; try done. simpl.
    destruct (parse_u64 s); [eauto|]. simpl. rewrite bool_decide_eq_true. eauto.
Qed.

Lemma is_i64_is_int v : is_i64 v = true → FieldTrait.is_int v = true.
Proof. unfold FieldTrait.is_int. by intros ->. Qed.

(** A default is a value of the field's type; only arrays and maps given as JSON
    text are not checked. *)
Lemma get_default_typed f d :
  FieldOps.get_default f = Ok d →
  FieldOps.check_data_type f d = true ∨
  (is_string (field_default f) = true ∧ (field_type f = Array ∨ field_type f = Map)).
Proof.
  unfold FieldOps.get_default, FieldOps.check_data_type.
  destruct (is_null (field_default f)) eqn:En.
  - intros [= <-]. left. by destruct (field_type f).
  - destruct (field_type f) eqn:Et; intros H.
    all: try (left; crush_outcome; by auto using is_i64_is_int).
    all: destruct (field_default f) as [| | | | | |]; simpl in *; try done; simplify_eq/=; auto.
Qed.

(** C40: validation and conversion of request fields agree: a value that
    [check_data_type] accepts for a field is converted by the accessor of the
    field's type, the one exception being negative integers, which validate as
    durations and do not convert; and a field's default has the field's type
    unless it is JSON text. *)
Theorem field_validation_sound (f : Field) (d : Value) :
  (FieldOps.check_data_type f d = true →
   match field_type f with
   | Str | SecretStr => is_Some (as_str d)
   | Int => is_Some (FieldTrait.as_int d)
   | Bool => ∃ b, d = VBool b
   | Array => is_Some (as_array d)
   | Map => is_Some (FieldTrait.as_map d)
   | DurationSecond => is_Some (FieldTrait.as_duration d) ∨
                       ∃ z, d = VInt z ∧ (z < 0)%Z ∧ FieldTrait.as_duration d = None
   | CommaStringSlice => is_Some (FieldTrait.as_comma_string_slice d)
   end) ∧
  (FieldOps.get_default f = Ok d →
   FieldOps.check_data_type f d = true ∨
   (is_string (field_default f) = true ∧ (field_type f = Array ∨ field_type f = Map))).
Proof.
  split; [|apply get_default_typed]. unfold FieldOps.check_data_type. destruct (field_type f).
  - destruct d; simpl; try done; eauto.
  - destruct d; simpl; try done; eauto.
  - apply is_int_as_int.
  - destruct d; simpl; try done; eauto.
  - destruct d; simpl; try done; eauto.
  - destruct d; simpl; try done; eauto.
  - apply is_duration_converts.
  - apply is_comma_as_comma.
Qed.

(** [get_data] reads a declared field only: the path's captures win over the
    body, a present value of the wrong type is an error even when the other
    source has a valid one, and what is returned always has the field's type. *)
Theorem get_data_spec (r : Request) (key : string) :
  RequestOps.get_data r key =
    match match_path r with
    | None => Err ErrRequestNotReady
    | Some mp =>
        if bool_decide (data r = None ∧ body r = None) then Err ErrRequestNoData
        else
          match fields mp !! key with
          | None => Err ErrRequestNoDataField
          | Some f =>
              match (data r ≫= lookup key) ∪ (body r ≫= lookup key) with
              | None => Err ErrRequestFieldNotFound
              | Some d => if FieldOps.check_data_type f d then Ok d else Err ErrRequestFieldInvalid
              end
          end
    end.
Proof.
  unfold RequestOps.get_data, RequestOps.ready_for_data, RequestOps.get_data_raw,
    RequestOps.lookup_checked, RequestOps.get_field.
  destruct (match_path r) as [mp|]; [|done].
  case_bool_decide as Hd.
  - by destruct Hd as [-> ->].
  - assert (match data r with
            | Some _ => Ok tt
            | None => match body r with Some _ => Ok tt | None => Err ErrRequestNoData end
            end = Ok tt (E := RvError)) as -> by (destruct (data r), (body r); naive_solver).
    destruct (fields mp !! key) as [f|]; [|done].
    destruct (data r ≫= lookup key) as [d|]; simpl; [by destruct (body r ≫= lookup key)|].
    by destruct (body r ≫= lookup key).
Qed.

End field_laws.

(** A list of names given as text validates as a comma separated slice and
    converts; an integer default is a valid integer. *)
Lemma field_validation_sound_witness :
  is_Some (FieldTrait.as_comma_string_slice (VStr "a,b")) ∧
  FieldOps.check_data_type (HH := λ _, None)
    {| required := false; field_type := Int; field_default := VInt 3; description := "" |} (VInt 3) = true.
Proof.
  split.
  - refine (proj1 (field_validation_sound (HH := λ _, None) (HJ := λ _, None)
      {| required := false; field_type := CommaStringSlice; field_default := VNull; description := "" |}
      (VStr "a,b")) _). reflexivity.
  - destruct (proj2 (field_validation_sound (HH := λ _, None) (HJ := λ _, None)
      {| required := false; field_type := Int; field_default := VInt 3; description := "" |} (VInt 3)) eq_refl)
      as [H|[H _]]; [exact H|discriminate H].
Defined.

(** *** [clear_data] *)

Lemma blank_entry_lookup key k m :
  RequestOps.blank_entry key m !! k =
  (if decide (k = key) then (λ v, match v with VStr _ => VStr "" | v => v end) <$> m !! k else m !! k).
Proof.
  unfold RequestOps.blank_entry. destruct (decide (k = key)) as [->|Hne].
  - destruct (m !! key) as [v|] eqn:E; [|by rewrite E].
    destruct v; rewrite ?lookup_insert_eq, ?E; done.
  - destruct (m !! key) as [[]|]; rewrite ?lookup_insert_ne by done; done.
Qed.

(** No readable secret is left under [key] in a data source. *)
Definition blanked (key : string) (m : option (gmap string Value)) : Prop :=
  ∀ s, m ≫= lookup key = Some (VStr s) → s = "".

Lemma blank_entry_blanked key k m :
  blanked key (Some m) ∨ k = key → blanked key (Some (RequestOps.blank_entry k m)).
Proof.
  intros H s. simpl. rewrite blank_entry_lookup. destruct (decide (key = k)) as [->|Hne].
  - destruct (m !! k) as [[]|]; simpl; naive_solver.
  - destruct H as [H|]; [apply H|done].
Qed.

Lemma clear_data_eq k r :
  RequestOps.clear_data k r =
  set_body (RequestOps.blank_entry k <$> body r) (set_data (RequestOps.blank_entry k <$> data r) r).
Proof.
  unfold RequestOps.clear_data. destruct r; simpl. destruct data0, body0; done.
Qed.

Lemma clear_data_blanked key k r :
  (blanked key (data r) ∧ blanked key (body r)) ∨ k = key →
  blanked key (data (RequestOps.clear_data k r)) ∧ blanked key (body (RequestOps.clear_data k r)).
Proof.
  rewrite clear_data_eq. simpl. intros H.
  split; (destruct (data r), (body r)); simpl; try (by intros s);
    apply blank_entry_blanked; naive_solver.
Qed.
