(* ===== verification/LogicalBackend.v ===== *)
(** * The backend framework (src/src/logical/backend.rs and secret.rs)

    A [LogicalBackend] dispatches a request to the handler of the first path
    whose regular expression matches.  Handlers run in the state monad over the
    world [W] the backend can reach and the request, which they may change.
    Regular expressions are the [regex] crate's, a parameter here. *)

From stdpp Require Import base tactics list gmap strings.
From Stdlib Require Import ZArith Lia Ascii.
From S2P Require Import Prelude Errors RustStr Utils Lease Storage BarrierView Logical.

Local Open Scope string_scope.

(** The [regex] crate: the groups of a match (group 0 is the whole match, an
    optional group that did not take part is [None]) and the groups' names. *)
Class RegexEngine (R : Type) : Type := {
  regex_new : string -> option R;
  regex_captures : R -> string -> option (list (option string));
  capture_names : R -> list (option string)
}.

(** A handler, already applied to its backend. *)
Abbreviation handler_fn W := (st (W * Request) RvError (option Response)).

Record PathOperation (W : Type) := { op : Operation; op_handler : handler_fn W }.
Arguments op {W}.
Arguments op_handler {W}.

Record Secret (W : Type) := {
  secret_type : string;
  default_duration : Duration;
  renew_handler : option (handler_fn W);
  revoke_handler : option (handler_fn W)
}.
Arguments secret_type {W}.
Arguments default_duration {W}.
Arguments renew_handler {W}.
Arguments revoke_handler {W}.

Record LogicalBackend (R W : Type) := {
  paths : list (Path * list (PathOperation W));
  paths_re : list R;
  root_paths : list string;
  unauth_paths : list string;
  backend_help : string;
  secrets : list (Secret W);
  auth_renew_handler : option (handler_fn W)
}.
Arguments paths {R W}.
Arguments paths_re {R W}.
Arguments root_paths {R W}.
Arguments unauth_paths {R W}.
Arguments backend_help {R W}.
Arguments secrets {R W}.
Arguments auth_renew_handler {R W}.

Module SecretOps.
Section ops.
Context {W : Type}.

Definition renewable (self : Secret W) : bool := bool_decide (is_Some (renew_handler self)).

Definition response (now : SystemTime) (self : Secret W)
    (d internal : option (gmap string Value)) : Response :=
  let l := default_lease now in
  let l := {| Lease.ttl := default_duration self; Lease.max_ttl := Lease.max_ttl l;
              Lease.renewable := renewable self; Lease.increment := Lease.increment l;
              Lease.issue_time := Lease.issue_time l |} in
  let secret := {| secret_lease := l; lease_id := "";
                   secret_internal_data :=
                     <["secret_type" := VStr (secret_type self)]> (default ∅ internal) |} in
  ResponseOps.set_secret (Some secret) (ResponseOps.set_data d ResponseOps.new).

Definition renew (self : Secret W) : handler_fn W :=
  match renew_handler self with
  | None => st_fail ErrLogicalOperationUnsupported
  | Some h => if renewable self then h else st_fail ErrLogicalOperationUnsupported
  end.

Definition revoke (self : Secret W) : handler_fn W :=
  match revoke_handler self with
  | None => st_fail ErrLogicalOperationUnsupported
  | Some h => h
  end.

End ops.
End SecretOps.

Module Backend.
Section backend.
Context {R W : Type} `{HRe : RegexEngine R}.
(** Recording the matched path in the backend's context. *)
Context (ctx_set_path : Path -> W -> W).

Definition new : LogicalBackend R W :=
  {| paths := []; paths_re := []; root_paths := []; unauth_paths := []; backend_help := "";
     secrets := []; auth_renew_handler := None |}.

Definition set_paths_re (b : LogicalBackend R W) (l : list R) : LogicalBackend R W :=
  {| paths := paths b; paths_re := l; root_paths := root_paths b; unauth_paths := unauth_paths b;
     backend_help := backend_help b; secrets := secrets b;
     auth_renew_handler := auth_renew_handler b |}.

Definition anchored (pattern : string) : string :=
  let p := if starts_with_char "^" pattern then pattern else "^" ++ pattern in
  if ends_with_char "$" pattern then p else p ++ "$".

(** The loop of [init]; the expressions pushed before a failure stay. *)
Fixpoint init_loop (acc : list R) (l : list (Path * list (PathOperation W)))
  : list R * result unit :=
  match l with
  | [] => (acc, Ok tt)
  | (p, _) :: l =>
      match regex_new (anchored (pattern p)) with
      | Some re => init_loop (acc ++ [re])%list l
      | None => (acc, Err Regex)
      end
  end.

Definition init (b : LogicalBackend R W) : LogicalBackend R W * result unit :=
  if (length (paths b) =? length (paths_re b))%nat then (b, Ok tt)
  else let '(res, r) := init_loop (paths_re b) (paths b) in (set_paths_re b res, r).

(** [matches[i]] panics on a group that took no part in the match. *)
Fixpoint named_captures (i : nat) (names : list (option string)) (groups : list (option string))
    (acc : gmap string string) : result (gmap string string) :=
  match names with
  | [] => Ok acc
  | None :: names => named_captures (S i) names groups acc
  | Some name :: names =>
      match groups !! i with
      | Some (Some text) => named_captures (S i) names groups (<[name := text]> acc)
      | _ => Panic
      end
  end.

Fixpoint match_path_loop (b : LogicalBackend R W) (i : nat) (res : list R) (p : string)
  : result (option (Path * list (PathOperation W) * gmap string string)) :=
  match res with
  | [] => Ok None
  | re :: res =>
      match regex_captures re p with
      | Some groups =>
          match paths b !! i with
          | Some (path, ops) =>
              let? captures := named_captures 0 (capture_names re) groups ∅ in
              Ok (Some (path, ops, captures))
          | None => Panic
          end
      | None => match_path_loop b (S i) res p
      end
  end.

Definition match_path (b : LogicalBackend R W) (p : string)
  : result (option (Path * list (PathOperation W) * gmap string string)) :=
  match_path_loop b 0 (paths_re b) p.

(** The names of the secret fields of every path, in some order. *)
Definition secret_fields (b : LogicalBackend R W) : list string :=
  flat_map (λ p, map fst (List.filter (λ kf, bool_decide (field_type (snd kf) = SecretStr))
                                      (map_to_list (fields (fst p))))) (paths b).

Definition clear_secret_field (b : LogicalBackend R W) (req : Request) : Request :=
  fold_left (λ req key, RequestOps.clear_data key req) (secret_fields b) req.

Definition find_secret (b : LogicalBackend R W) (key : string) : option (Secret W) :=
  List.find (λ s, String.eqb (secret_type s) key) (secrets b).

Definition handle_auth_renew (b : LogicalBackend R W) : handler_fn W :=
  match auth_renew_handler b with
  | None => st_fail ErrLogicalOperationUnsupported
  | Some h => h
  end.

Definition handle_revoke_renew (b : LogicalBackend R W) : handler_fn W := fun '(w, req) =>
  if bool_decide (operation req = Renew) && bool_decide (is_Some (auth req)) then
    handle_auth_renew b (w, req)
  else
    match secret req with
    | None => ((w, req), Ok None)
    | Some sd =>
        match (secret_internal_data sd !! "secret_type" ≫= as_str) ≫= find_secret b with
        | None => ((w, req), Ok None)
        | Some s =>
            match operation req with
            | Renew => SecretOps.renew s (w, req)
            | Revoke => SecretOps.revoke s (w, req)
            | _ => ((w, req), Ok None)
            end
        end
    end.

Definition handle_root_help (b : LogicalBackend R W) : handler_fn W := st_ret None.

(** The captured groups as request data. *)
Definition captured_data (captures : gmap string string) (req : Request) : Request :=
  if bool_decide (captures = ∅) then req else set_data (Some (VStr <$> captures)) req.

Definition run_operation (b : LogicalBackend R W) (p : Path) (o : PathOperation W) : handler_fn W :=
  fun '(w, req) =>
    match op_handler o (ctx_set_path p w, req) with
    | (wr, Panic) => (wr, Panic)
    | ((w, req), ret) => ((w, clear_secret_field b req), ret)
    end.

Definition handle_request (b : LogicalBackend R W) : handler_fn W := fun '(w, req) =>
  match storage req with
  | None => ((w, req), Err ErrRequestNotReady)
  | Some _ =>
      match operation req with
      | Renew | Revoke => handle_revoke_renew b (w, req)
      | _ =>
          if is_empty (path req) && bool_decide (operation req = Help) then
            handle_root_help b (w, req)
          else
            match match_path b (path req) with
            | Ok (Some (p, ops, captures)) =>
                let req := set_match_path (Some p) (captured_data captures req) in
                match List.find (λ o, bool_decide (op o = operation req)) ops with
                | Some o => run_operation b p o (w, req)
                | None => ((w, req), Err ErrLogicalOperationUnsupported)
                end
            | Ok None => ((w, req), Err ErrLogicalPathUnsupported)
            | Err e => ((w, req), Err e)
            | Panic => ((w, req), Panic)
            end
      end
  end.

End backend.
End Backend.

(** ** Dispatch *)
Section dispatch.
Context {R W : Type} `{HRe : RegexEngine R} (ctx_set_path : Path -> W -> W).

Lemma init_loop_ok acc (l : list (Path * list (PathOperation W))) res :
  Backend.init_loop acc l = (res, Ok tt) →
  ∃ new, res = (acc ++ new)%list ∧
         Forall2 (λ re p, regex_new (Backend.anchored (pattern p.1)) = Some re) new l.
Proof.
  revert acc. induction l as [|[p ops] l IH]; intros acc; simpl.
  - intros [= <-]. exists []. by rewrite app_nil_r.
  - destruct (regex_new _) as [re|] eqn:E; [|done]. intros (new & -> & Hn)%IH.
    exists (re :: new). rewrite <- app_assoc. split; [done|]. by constructor.
Qed.

(** The expressions are those of the paths, in order. *)
Definition compiled (b : LogicalBackend R W) : Prop :=
  Forall2 (λ re p, regex_new (Backend.anchored (pattern p.1)) = Some re) (paths_re b) (paths b).

Lemma init_compiles (b b' : LogicalBackend R W) :
  paths_re b = [] → Backend.init b = (b', Ok tt) → compiled b' ∧ paths b' = paths b.
Proof.
  intros Hre. unfold Backend.init. rewrite Hre. destruct (Nat.eqb_spec (length (paths b)) 0) as [H0|].
  - simpl. rewrite H0. intros [= <-]. split; [|done]. unfold compiled.
    destruct (paths b) eqn:E; [|done]. rewrite Hre. by constructor.
  - simpl length. rewrite (proj2 (Nat.eqb_neq _ _)) by done.
    destruct (Backend.init_loop [] (paths b)) as [res r] eqn:E. intros [= <- ->].
    apply init_loop_ok in E as (new & -> & Hn). split; [|done]. by unfold compiled.
Qed.

(** The index of the first expression that matches. *)
Fixpoint first_match (res : list R) (p : string) : option (nat * R * list (option string)) :=
  match res with
  | [] => None
  | re :: res =>
      match regex_captures re p with
      | Some groups => Some (0, re, groups)
      | None => (λ '(i, re, g), (S i, re, g)) <$> first_match res p
      end
  end.

Lemma match_path_loop_first (b : LogicalBackend R W) i res p :
  Backend.match_path_loop b i res p =
  match first_match res p with
  | None => Ok None
  | Some (j, re, groups) =>
      match paths b !! (i + j) with
      | Some (path, ops) =>
          let? captures := Backend.named_captures 0 (capture_names re) groups ∅ in
          Ok (Some (path, ops, captures))
      | None => Panic
      end
  end.
Proof.
  revert i. induction res as [|re res IH]; intros i; simpl; [done|].
  destruct (regex_captures re p); [by rewrite Nat.add_0_r|]. rewrite IH.
  destruct (first_match res p) as [[[j re'] g]|]; simpl; [|done]. by rewrite Nat.add_succ_r.
Qed.

Lemma first_match_lookup res p j re g :
  first_match res p = Some (j, re, g) → res !! j = Some re ∧ regex_captures re p = Some g ∧
    ∀ j' re', j' < j → res !! j' = Some re' → regex_captures re' p = None.
Proof.
  revert j. induction res as [|r res IH]; intros j; simpl; [done|].
  destruct (regex_captures r p) as [g'|] eqn:E.
  - intros [= <- -> ->]. split_and!; [done|done|lia].
  - destruct (first_match res p) as [[[j' re'] g']|]; simpl; [|done]. intros [= <- -> ->].
    destruct (IH j' eq_refl) as (H1 & H2 & H3). split_and!; [done|done|].
    intros [|k] re' Hk; simpl; [by intros [= <-]|]. apply H3. lia.
Qed.

Lemma clear_secret_keeps keys key req :
  blanked key (data req) ∧ blanked key (body req) →
  let req' := fold_left (λ req key, RequestOps.clear_data key req) keys req in
  blanked key (data req') ∧ blanked key (body req').
Proof.
  revert req. induction keys as [|k keys IH]; intros req H; simpl; [done|].
  apply IH, clear_data_blanked. by left.
Qed.

Lemma clear_secret_blanked keys key req :
  key ∈ keys →
  let req' := fold_left (λ req key, RequestOps.clear_data key req) keys req in
  blanked key (data req') ∧ blanked key (body req').
Proof.
  revert req. induction keys as [|k keys IH]; intros req; simpl; [by intros ?%not_elem_of_nil|].
  intros [<-|Hin]%elem_of_cons; [|by apply IH].
  apply clear_secret_keeps, clear_data_blanked. by right.
Qed.

Lemma elem_of_secret_fields (b : LogicalBackend R W) p ops key f :
  (p, ops) ∈ paths b → fields p !! key = Some f → field_type f = SecretStr →
  key ∈ Backend.secret_fields b.
Proof.
  intros Hp Hf Ht. unfold Backend.secret_fields. apply list_elem_of_In, in_flat_map.
  exists (p, ops). split; [by apply list_elem_of_In|]. apply in_map_iff. exists (key, f).
  split; [done|]. apply filter_In. split; [by apply list_elem_of_In, elem_of_map_to_list|].
  simpl. by apply bool_decide_eq_true.
Qed.

Lemma first_match_first res p j re g :
  res !! j = Some re → regex_captures re p = Some g →
  (∀ j' re', j' < j → res !! j' = Some re' → regex_captures re' p = None) →
  first_match res p = Some (j, re, g).
Proof.
  revert j. induction res as [|r res IH]; intros j; [done|]. destruct j as [|j]; simpl.
  - intros [= ->] Hg _. by rewrite Hg.
  - intros Hj Hg Hlt. rewrite (Hlt 0 r ltac:(lia) eq_refl). rewrite (IH j Hj Hg); [done|].
    intros j' re' Hj' Hl. apply (Hlt (S j') re'); [lia|done].
Qed.

Lemma first_match_none res p :
  (∀ re, re ∈ res → regex_captures re p = None) → first_match res p = None.
Proof.
  induction res as [|r res IH]; intros H; simpl; [done|].
  rewrite (H r) by apply list_elem_of_here. rewrite IH; [done|].
  intros re Hin. apply H. by apply list_elem_of_further.
Qed.

(** A request for one of the backend's own paths. *)
Definition routable (req : Request) : Prop :=
  is_Some (storage req) ∧ operation req ≠ Renew ∧ operation req ≠ Revoke ∧
  (path req ≠ "" ∨ operation req ≠ Help).

Lemma handle_routable b w req :
  routable req →
  Backend.handle_request ctx_set_path b (w, req) =
    match Backend.match_path b (path req) with
    | Ok (Some (p, ops, captures)) =>
        let req := set_match_path (Some p) (Backend.captured_data captures req) in
        match List.find (λ o, bool_decide (op o = operation req)) ops with
        | Some o => Backend.run_operation ctx_set_path b p o (w, req)
        | None => ((w, req), Err ErrLogicalOperationUnsupported)
        end
    | Ok None => ((w, req), Err ErrLogicalPathUnsupported)
    | Err e => ((w, req), Err e)
    | Panic => ((w, req), Panic)
    end.
Proof.
  intros ([v Hv] & H1 & H2 & H3). unfold Backend.handle_request. rewrite Hv.
  assert (is_empty (path req) && bool_decide (operation req = Help) = false) as ->.
  { destruct H3 as [H3|H3].
    - destruct (path req); [done|done].
    - rewrite (bool_decide_false (_ = Help)) by done. apply andb_false_r. }
  by destruct (operation req).
Qed.

(** Once its expressions are compiled, a backend serves a request with the
    first path whose expression matches, and with that path's first entry for
    the request's operation; the handler sees the matched path and the captured
    groups.  An operation the path lacks and a path nothing matches are errors
    with no effect on the world. *)
Theorem dispatch_first_match (b : LogicalBackend R W) (w : W) (req : Request) :
  compiled b → routable req →
  (∀ j re groups captures,
     paths_re b !! j = Some re → regex_captures re (path req) = Some groups →
     (∀ j' re', j' < j → paths_re b !! j' = Some re' → regex_captures re' (path req) = None) →
     Backend.named_captures 0 (capture_names re) groups ∅ = Ok captures →
     ∃ p ops, paths b !! j = Some (p, ops) ∧ regex_new (Backend.anchored (pattern p)) = Some re ∧
       Backend.handle_request ctx_set_path b (w, req) =
         let req' := set_match_path (Some p) (Backend.captured_data captures req) in
         match List.find (λ o, bool_decide (op o = operation req)) ops with
         | Some o => Backend.run_operation ctx_set_path b p o (w, req')
         | None => ((w, req'), Err ErrLogicalOperationUnsupported)
         end) ∧
  ((∀ re, re ∈ paths_re b → regex_captures re (path req) = None) →
   Backend.handle_request ctx_set_path b (w, req) = ((w, req), Err ErrLogicalPathUnsupported)).
Proof.
  intros Hc Hr. rewrite (handle_routable b w req Hr). unfold Backend.match_path.
  rewrite match_path_loop_first. split.
  - intros j re groups captures Hre Hg Hlt Hcap.
    destruct (Forall2_lookup_l _ _ _ j re Hc Hre) as ([p ops] & Hp & Hnew).
    exists p, ops. split_and!; [done..|].
    rewrite (first_match_first _ _ j re groups) by done. cbn [Nat.add]. rewrite Hp, Hcap. cbv zeta.
    assert (operation (set_match_path (Some p) (Backend.captured_data captures req)) = operation req)
      as -> by (unfold Backend.captured_data; by case_bool_decide).
    done.
  - intros Hnone. by rewrite first_match_none.
Qed.

(** When a handler returns, with a result or an error, the backend has
    blanked every secret-string field any of its paths declares: none is
    readable in the request's data or body afterwards. *)
Theorem secret_fields_cleared (b : LogicalBackend R W) (w w' : W) (req req' : Request)
    (q : Path) (o : PathOperation W) (ret : result (option Response))
    (p : Path) (ops : list (PathOperation W)) (key : string) (f : Field) :
  Backend.run_operation ctx_set_path b q o (w, req) = ((w', req'), ret) → ret ≠ Panic →
  (p, ops) ∈ paths b → fields p !! key = Some f → field_type f = SecretStr →
  blanked key (data req') ∧ blanked key (body req').
Proof.
  intros Hrun Hnp Hp Hf Ht. unfold Backend.run_operation in Hrun.
  assert (∃ r, req' = Backend.clear_secret_field b r) as [r ->].
  { destruct (op_handler o _) as [[w1 r1] []]; simplify_eq; eauto. }
  apply clear_secret_blanked. by eapply elem_of_secret_fields.
Qed.

End dispatch.

(** *** Witnesses: literal patterns *)
Definition literal_regex : RegexEngine string := {|
  regex_new := Some;
  regex_captures := fun re p => if String.eqb re ("^" ++ p ++ "$") then Some [Some p] else None;
  capture_names := fun _ => [None]
|}.

Definition demo_field : Field :=
  {| required := false; field_type := SecretStr; field_default := VNull; description := "password" |}.
Definition demo_path : Path :=
  {| pattern := "login"; fields := {["password" := demo_field]}; path_help := "" |}.
Definition demo_op : PathOperation unit := {| op := Write; op_handler := st_ret None |}.
Definition demo_backend : LogicalBackend string unit :=
  {| paths := [(demo_path, [demo_op])]; paths_re := ["^login$"]; root_paths := []; unauth_paths := [];
     backend_help := ""; secrets := []; auth_renew_handler := None |}.
Definition demo_request : Request :=
  set_body (Some {["password" := VStr "hunter2"]})
    (set_storage (Some (BarrierView.new "logical/1/")) (set_operation Write (RequestOps.new "login"))).

Lemma dispatch_first_match_witness :
  snd (Backend.handle_request (HRe := literal_regex) (fun _ w => w) demo_backend (tt, demo_request)) = Ok None.
Proof.
  destruct (dispatch_first_match (HRe := literal_regex) (fun _ w => w) demo_backend tt demo_request)
    as [H _].
  - by repeat constructor.
  - split_and!; [by eexists|done|done|by left].
  - destruct (H 0 "^login$" [Some "login"] ∅) as (p & ops & Hp & _ & ->); [reflexivity..|lia|reflexivity|].
    simplify_eq/=. reflexivity.
Defined.

Lemma secret_fields_cleared_witness :
  blanked "password" (body (snd (fst (Backend.run_operation (fun _ w => w) demo_backend demo_path demo_op
                                        (tt, demo_request))))).
Proof.
  apply (secret_fields_cleared (fun _ w => w) demo_backend tt tt demo_request _
           demo_path demo_op (Ok None) demo_path [demo_op] "password" demo_field).
  - reflexivity.
  - discriminate.
  - apply list_elem_of_here.
  - reflexivity.
  - reflexivity.
Defined.
