(* ===== verification/Router.v ===== *)
(** * Routing of requests to mounted backends (src/src/router.rs)

    The router's tree is the [radix_trie] crate's, a parameter with its
    documented laws: a map from strings, and a lookup of the longest stored
    prefix of a key. *)

From stdpp Require Import base tactics list gmap strings.
From Stdlib Require Import ZArith Lia Ascii.
From S2P Require Import Prelude Errors RustStr Storage BarrierView Logical LogicalBackend.

Local Open Scope string_scope.

(** ** The [radix_trie] crate *)

Class RadixTrie (T : Type -> Type) : Type := {
  trie_new V : T V;
  trie_insert {V} : string -> V -> T V -> T V;
  trie_remove {V} : string -> T V -> T V;
  trie_get {V} : string -> T V -> option V;
  (** the closest ancestor that holds a value, with its key *)
  trie_get_ancestor {V} : string -> T V -> option (string * V)
}.

(** [p] with value [v] is the longest key of [m] that is a prefix of [k]. *)
Definition longest_prefix {V} (m : gmap string V) (k : string) (p : string) (v : V) : Prop :=
  m !! p = Some v /\ starts_with p k = true /\
  forall q, is_Some (m !! q) -> starts_with q k = true -> (String.length q <= String.length p)%nat.

Class RadixTrieLaws (T : Type -> Type) `{RadixTrie T} : Type := {
  trie_map {V} : T V -> gmap string V;
  trie_map_new V : trie_map (trie_new V) = ∅;
  trie_map_insert {V} k (v : V) t : trie_map (trie_insert k v t) = <[k := v]> (trie_map t);
  trie_map_remove {V} k (t : T V) : trie_map (trie_remove k t) = delete k (trie_map t);
  trie_get_spec {V} k (t : T V) : trie_get k t = trie_map t !! k;
  trie_get_ancestor_some {V} k (t : T V) p v :
    trie_get_ancestor k t = Some (p, v) -> longest_prefix (trie_map t) k p v;
  trie_get_ancestor_none {V} k (t : T V) q :
    trie_get_ancestor k t = None -> is_Some (trie_map t !! q) -> starts_with q k = false
}.

(** ** The router *)

(** [Arc<dyn Backend>], as far as the router uses it. *)
Record DynBackend (W : Type) := {
  get_unauth_paths : option (list string);
  get_root_paths : option (list string);
  backend_handle_request : handler_fn W
}.
Arguments get_unauth_paths {W}.
Arguments get_root_paths {W}.
Arguments backend_handle_request {W}.

(** The mount entry is shared with the mount table: [mount_entry] is its
    reference. *)
Record RouterEntry (T : Type -> Type) (W : Type) := {
  tainted : bool;
  re_backend : DynBackend W;
  view : BarrierView.t;
  re_root_paths : T bool;
  re_unauth_paths : T bool;
  mount_entry : nat
}.
Arguments tainted {T W}.
Arguments re_backend {T W}.
Arguments view {T W}.
Arguments re_root_paths {T W}.
Arguments re_unauth_paths {T W}.
Arguments mount_entry {T W}.

Module Router.
Section router.
Context {T : Type -> Type} `{HT : RadixTrie T} {W : Type}.

Abbreviation t := (T (RouterEntry T W)).

Definition salt_id (e : RouterEntry T W) (id : string) : string := id.

Definition star : ascii := "*".

Definition add_path (radix_paths : T bool) (path : string) : T bool :=
  let prefix_match := ends_with_char star path in
  let path := if prefix_match then drop_last path else path in
  trie_insert path prefix_match radix_paths.

Definition new_radix_from_paths (paths : list string) : T bool :=
  fold_left add_path paths (trie_new bool).

Definition new : t := trie_new (RouterEntry T W).

Definition mount (backend : DynBackend W) (prefix : string) (me : nat) (v : BarrierView.t) (root : t)
  : t * result unit :=
  match trie_get_ancestor prefix root with
  | Some _ => (root, Err ErrRouterMountConflict)
  | None =>
      let unauth := default [] (get_unauth_paths backend) in
      let roots := default [] (get_root_paths backend) in
      let router_entry :=
        {| tainted := false; re_backend := backend; view := v;
           re_root_paths := new_radix_from_paths roots;
           re_unauth_paths := new_radix_from_paths unauth; mount_entry := me |} in
      (trie_insert prefix router_entry root, Ok tt)
  end.

Definition unmount (prefix : string) (root : t) : t * result unit := (trie_remove prefix root, Ok tt).

Definition remount (dst src : string) (root : t) : t * result unit :=
  match trie_get src root with
  | Some raw => (trie_insert dst raw (trie_remove src root), Ok tt)
  | None => (root, Err ErrRouterMountNotFound)
  end.

Definition set_tainted (b : bool) (e : RouterEntry T W) : RouterEntry T W :=
  {| tainted := b; re_backend := re_backend e; view := view e; re_root_paths := re_root_paths e;
     re_unauth_paths := re_unauth_paths e; mount_entry := mount_entry e |}.

Definition taint (path : string) (root : t) : t * result unit :=
  match trie_get path root with
  | Some raw => (trie_insert path (set_tainted true raw) root, Ok tt)
  | None => (root, Err ErrRouterMountNotFound)
  end.

Definition untaint (path : string) (root : t) : t * result unit :=
  match trie_get path root with
  | Some raw => (trie_insert path (set_tainted false raw) root, Ok tt)
  | None => (root, Err ErrRouterMountNotFound)
  end.

Definition matching_mount (path : string) (root : t) : string :=
  match trie_get_ancestor path root with Some (k, _) => k | None => "" end.

Definition matching_mount_entry (path : string) (root : t) : option nat :=
  match trie_get_ancestor path root with Some (_, e) => Some (mount_entry e) | None => None end.

Definition matching_view (path : string) (root : t) : option BarrierView.t :=
  match trie_get_ancestor path root with Some (_, e) => Some (view e) | None => None end.

(** The common tail of [is_unauth_path] and [is_root_path]. *)
Definition special_path (special : T bool) (remain : string) : bool :=
  match trie_get_ancestor remain special with
  | None => false
  | Some (path_match, true) => starts_with path_match remain
  | Some (path_match, false) => String.eqb remain path_match
  end.

Definition is_unauth_path (path : string) (root : t) : bool :=
  match trie_get_ancestor path root with
  | None => false
  | Some (mount, me) => special_path (re_unauth_paths me) (remove_first mount path)
  end.

Definition is_root_path (path : string) (root : t) : bool :=
  match trie_get_ancestor path root with
  | None => false
  | Some (mount, me) => special_path (re_root_paths me) (remove_first mount path)
  end.

Definition normalize (req : Request) : Request :=
  if contains "/" (path req) then req else set_path (path req ++ "/") req.

(** The request as the backend sees it. *)
Definition enter_mount (mount : string) (me : RouterEntry T W) (req : Request) : Request :=
  let p := remove_first mount (path req) in
  let p := if String.eqb p "/" then "" else p in
  let req := set_storage (Some (view me)) (set_path p req) in
  if starts_with "auth/token/" p then req
  else set_client_token (salt_id me (client_token req)) req.

Definition revoke_or_rollback (o : Operation) : bool :=
  match o with Revoke | Rollback => true | _ => false end.

(** A failing backend leaves the request as it is; the root is read before the
    backend runs and its lock released. *)
Definition handle_request (root : t) : handler_fn W := fun '(w, req) =>
  let req := normalize req in
  let original := path req in
  let unauth := is_unauth_path (path req) root in
  let original_conn := if unauth then None else connection req in
  let req := if unauth then req else set_connection None req in
  let token := client_token req in
  match trie_get_ancestor (path req) root with
  | None => ((w, req), Err ErrRouterMountNotFound)
  | Some (mount, me) =>
      if tainted me && negb (revoke_or_rollback (operation req)) then
        ((w, req), Err ErrRouterMountNotFound)
      else
        match backend_handle_request (re_backend me) (w, enter_mount mount me req) with
        | ((w, req), Ok response) =>
            ((w, set_client_token token
                   (set_storage None (set_connection original_conn (set_path original req)))),
             Ok response)
        | failed => failed
        end
  end.

End router.
End Router.

(** ** Routing *)
Section laws.
Context {T : Type -> Type} `{HT : RadixTrie T} `{HTL : !RadixTrieLaws T} {W : Type}.
Import Router.

Lemma longest_prefix_unique {V} (m : gmap string V) k p v p' v' :
  longest_prefix m k p v → longest_prefix m k p' v' → p = p' ∧ v = v'.
Proof.
  intros (H1 & H2 & H3) (H1' & H2' & H3').
  assert (p = p') as ->.
  { apply starts_with_antisym; [|by apply H3; eauto].
    apply (starts_with_comparable p p' k); [done..|]. apply H3'; eauto. }
  split; congruence.
Qed.

Lemma get_ancestor_iff {V} (t : T V) k p v :
  trie_get_ancestor k t = Some (p, v) ↔ longest_prefix (trie_map t) k p v.
Proof.
  split; [apply trie_get_ancestor_some|]. intros Hl.
  destruct (trie_get_ancestor k t) as [[p' v']|] eqn:E.
  - apply trie_get_ancestor_some in E. by destruct (longest_prefix_unique _ _ _ _ _ _ Hl E) as [-> ->].
  - destruct Hl as (H1 & H2 & _). rewrite (trie_get_ancestor_none k t p E) in H2; [done|eauto].
Qed.

Lemma get_ancestor_none_iff {V} (t : T V) k :
  trie_get_ancestor k t = None ↔ ∀ q, is_Some (trie_map t !! q) → starts_with q k = false.
Proof.
  split; [intros E q Hq; by eapply trie_get_ancestor_none|].
  intros H. destruct (trie_get_ancestor k t) as [[p v]|] eqn:E; [|done].
  apply trie_get_ancestor_some in E as (H1 & H2 & _). rewrite H in H2; [done|eauto].
Qed.

(** The lookup depends on the stored map only. *)
Lemma get_ancestor_ext {V} (t t' : T V) k :
  (∀ q, starts_with q k = true → trie_map t !! q = trie_map t' !! q) →
  trie_get_ancestor k t = trie_get_ancestor k t'.
Proof.
  intros H. destruct (trie_get_ancestor k t') as [[p v]|] eqn:E.
  - apply get_ancestor_iff in E as (H1 & H2 & H3). apply get_ancestor_iff.
    split_and!; [by rewrite H|done|]. intros q Hq Hs. apply H3; [|done]. by rewrite <- H.
  - apply get_ancestor_none_iff. intros q Hq. destruct (starts_with q k) eqn:Hs; [|done].
    rewrite (H q Hs) in Hq. by rewrite (proj1 (get_ancestor_none_iff t' k) E q Hq) in Hs.
Qed.

(** *** Special paths *)

(** What a declared path stands for: [foo*] the paths below [foo], [foo] itself
    only. *)
Definition path_key (p : string) : string := if ends_with_char star p then drop_last p else p.
Definition declared_match (p remain : string) : bool :=
  if ends_with_char star p then starts_with (drop_last p) remain else String.eqb remain p.

Lemma declared_match_key p remain :
  declared_match p remain = true → starts_with (path_key p) remain = true.
Proof.
  unfold declared_match, path_key. destruct (ends_with_char star p); [done|].
  intros ->%String.eqb_eq. auto with rust.
Qed.

Lemma radix_lookup ps k b :
  trie_map (new_radix_from_paths ps) !! k = Some b →
  ∃ p, p ∈ ps ∧ path_key p = k ∧ ends_with_char star p = b.
Proof.
  unfold new_radix_from_paths. induction ps as [|p l IH] using rev_ind.
  - simpl. rewrite trie_map_new. done.
  - rewrite fold_left_app. simpl. unfold add_path at 1. rewrite trie_map_insert. fold (path_key p).
    destruct (decide (path_key p = k)) as [Hk|Hne].
    + rewrite Hk, lookup_insert_eq. intros [= <-]. exists p. split_and!; [|done|done].
      apply elem_of_app. right. apply list_elem_of_here.
    + rewrite lookup_insert_ne by done. intros (q & Hq & Hk & Hb)%IH. exists q.
      split_and!; [|done|done]. apply elem_of_app. by left.
Qed.

Lemma radix_dom ps p : p ∈ ps → is_Some (trie_map (new_radix_from_paths ps) !! path_key p).
Proof.
  unfold new_radix_from_paths.
  induction ps as [|q l IH] using rev_ind; [by intros ?%not_elem_of_nil|].
  rewrite fold_left_app. simpl. unfold add_path at 1. rewrite trie_map_insert. fold (path_key q).
  intros [Hp|Hp]%elem_of_app.
  - destruct (decide (path_key q = path_key p)) as [->|Hne]; [rewrite lookup_insert_eq; eauto|].
    rewrite lookup_insert_ne by done. by apply IH.
  - apply list_elem_of_singleton in Hp as ->. rewrite lookup_insert_eq. eauto.
Qed.

Lemma special_path_sound ps remain :
  special_path (new_radix_from_paths ps) remain = true →
  ∃ p, p ∈ ps ∧ declared_match p remain = true.
Proof.
  unfold special_path. destruct (trie_get_ancestor _ _) as [[k b]|] eqn:E; [|done].
  apply get_ancestor_iff in E as (Hk & Hs & _). apply radix_lookup in Hk as (p & Hp & <- & Hb).
  intros H. exists p. split; [done|]. unfold declared_match, path_key in *. rewrite Hb in *.
  destruct b; done.
Qed.

(** No declared path extends another one. *)
Definition incomparable_paths (ps : list string) : Prop :=
  ∀ p q, p ∈ ps → q ∈ ps → starts_with (path_key p) (path_key q) = true → p = q.

Lemma special_path_complete ps p remain :
  incomparable_paths ps → p ∈ ps → declared_match p remain = true →
  special_path (new_radix_from_paths ps) remain = true.
Proof.
  intros Hinc Hp Hm. unfold special_path. pose proof (declared_match_key p remain Hm) as Hs.
  destruct (trie_get_ancestor _ _) as [[k b]|] eqn:E.
  - apply get_ancestor_iff in E as (Hk & Hks & Hmax).
    pose proof (Hmax _ (radix_dom ps p Hp) Hs) as Hlen.
    apply radix_lookup in Hk as (q & Hq & <- & Hb).
    assert (p = q) as <-.
    { apply Hinc; [done..|]. by apply (starts_with_comparable _ _ remain). }
    unfold declared_match, path_key in *. rewrite Hb in *. by destruct b.
  - by rewrite (proj1 (get_ancestor_none_iff _ _) E _ (radix_dom ps p Hp)) in Hs.
Qed.

(** *** Properties *)

Lemma remove_mount (root : T (RouterEntry T W)) k mount me :
  longest_prefix (trie_map root) k mount me → k = mount ++ remove_first mount k.
Proof. intros (_ & [r ->]%starts_with_spec & _). by autorewrite with rust_str. Qed.

(** A path is exempt from authentication (or reserved to root) only when a
    path the mounted backend declares covers it, after the mount's prefix is
    removed; and every declared path takes effect when no declared path extends
    another.  Outside every mount nothing is exempt. *)
Theorem special_paths_exact (root : T (RouterEntry T W)) (k mount : string) (me : RouterEntry T W)
    (unauth roots : list string) :
  longest_prefix (trie_map root) k mount me →
  re_unauth_paths me = new_radix_from_paths unauth →
  re_root_paths me = new_radix_from_paths roots →
  ∃ remain, k = mount ++ remain ∧
    (is_unauth_path k root = true → ∃ p, p ∈ unauth ∧ declared_match p remain = true) ∧
    (is_root_path k root = true → ∃ p, p ∈ roots ∧ declared_match p remain = true) ∧
    (incomparable_paths unauth → ∀ p, p ∈ unauth → declared_match p remain = true →
     is_unauth_path k root = true) ∧
    (incomparable_paths roots → ∀ p, p ∈ roots → declared_match p remain = true →
     is_root_path k root = true).
Proof.
  intros Hl Hu Hr. exists (remove_first mount k). split; [by eapply remove_mount|].
  unfold is_unauth_path, is_root_path. rewrite (proj2 (get_ancestor_iff _ _ _ _) Hl), Hu, Hr.
  split_and!; [apply special_path_sound..| |]; intros Hi p Hp Hm; by eapply special_path_complete.
Qed.

(** C37: a request is served by the mount with the longest matching prefix, if
    that is not tainted.  Its backend sees the path without the prefix, the
    mount's own view as storage, the client's token, and the peer's connection
    only on paths exempt from authentication.  When it succeeds the router gives
    the caller its path and token back, resets the storage to none, and gives the
    connection back on the paths that need authentication; body and auth are as
    the backend left them.  A failure of the backend is returned as it is. *)
Theorem route_longest_prefix (root : T (RouterEntry T W)) (w : W) (req : Request)
    (mount rest : string) (me : RouterEntry T W) :
  contains "/" (path req) = true → path req = mount ++ rest →
  longest_prefix (trie_map root) (path req) mount me →
  tainted me = false ∨ revoke_or_rollback (operation req) = true →
  ∃ inner,
    path inner = (if String.eqb rest "/" then "" else rest) ∧ storage inner = Some (view me) ∧
    connection inner = (if is_unauth_path (path req) root then connection req else None) ∧
    client_token inner = client_token req ∧ operation inner = operation req ∧
    body inner = body req ∧ data inner = data req ∧ auth inner = auth req ∧
    match backend_handle_request (re_backend me) (w, inner) with
    | ((w', out), Ok resp) =>
        ∃ final, handle_request root (w, req) = ((w', final), Ok resp) ∧
          path final = path req ∧ client_token final = client_token req ∧ storage final = None ∧
          (is_unauth_path (path req) root = false → connection final = connection req) ∧
          body final = body out ∧ auth final = auth out
    | failed => handle_request root (w, req) = failed
    end.
Proof.
  intros Hc Hp Hl Ht. set (unauth := is_unauth_path (path req) root).
  exists (enter_mount mount me (if unauth then req else set_connection None req)).
  assert (path (if unauth then req else set_connection None req) = path req) as Hpath
    by (by destruct unauth).
  assert (remove_first mount (path req) = rest) as Hrest by (rewrite Hp; apply remove_first_prefix).
  unfold handle_request, normalize. rewrite Hc. fold unauth. rewrite Hpath.
  rewrite (proj2 (get_ancestor_iff _ _ _ _) Hl).
  assert (operation (if unauth then req else set_connection None req) = operation req) as ->
    by (by destruct unauth).
  assert (tainted me && negb (revoke_or_rollback (operation req)) = false) as ->
    by (by destruct Ht as [-> | ->]; rewrite ?andb_false_r).
  assert (client_token (if unauth then req else set_connection None req) = client_token req) as ->
    by (by destruct unauth).
  unfold enter_mount. rewrite Hpath, Hrest. set (p := if String.eqb rest "/" then "" else rest).
  split_and!; try (by destruct (starts_with "auth/token/" p), unauth).
  destruct (backend_handle_request _ _) as [[w' out] [resp| |]]; [|done..].
  eexists. split; [done|]. simpl. split_and!; try done. by intros ->.
Qed.

(** Without a matching mount, and on a mount that is being removed (tainted)
    unless the request revokes or rolls back, no backend runs: the world is
    unchanged and the path is reported as not found. *)
Theorem unrouted_requests_fail (root : T (RouterEntry T W)) (w : W) (req : Request) :
  contains "/" (path req) = true →
  (∀ q, is_Some (trie_map root !! q) → starts_with q (path req) = false) ∨
  (∃ mount me, longest_prefix (trie_map root) (path req) mount me ∧ tainted me = true ∧
               revoke_or_rollback (operation req) = false) →
  ∃ req', handle_request root (w, req) = ((w, req'), Err ErrRouterMountNotFound).
Proof.
  intros Hc H. unfold handle_request, normalize. rewrite Hc.
  set (unauth := is_unauth_path (path req) root).
  assert (path (if unauth then req else set_connection None req) = path req) as ->
    by (by destruct unauth).
  destruct H as [H|(mount & me & Hl & Ht & Ho)].
  - rewrite (proj2 (get_ancestor_none_iff _ _) H). eauto.
  - rewrite (proj2 (get_ancestor_iff _ _ _ _) Hl), Ht.
    assert (operation (if unauth then req else set_connection None req) = operation req) as ->
      by (by destruct unauth).
    rewrite Ho. simpl. eauto.
Qed.

(** Mounting is refused exactly when a mounted prefix contains the new one.
    A successful mount changes the routing of paths below the new prefix only,
    takes those no longer mount claims, and unmounting it restores the routing
    of every path. *)
Theorem mount_unmount_spec (root : T (RouterEntry T W)) (b : DynBackend W) (prefix : string)
    (me : nat) (v : BarrierView.t) :
  (mount b prefix me v root = (root, Err ErrRouterMountConflict) ∧
   ∃ q, is_Some (trie_map root !! q) ∧ starts_with q prefix = true) ∨
  (∃ root', mount b prefix me v root = (root', Ok tt) ∧
     (∀ q, is_Some (trie_map root !! q) → starts_with q prefix = false) ∧
     (∀ k, starts_with prefix k = false → trie_get_ancestor k root' = trie_get_ancestor k root) ∧
     (∀ k, starts_with prefix k = true →
           (∀ q, is_Some (trie_map root !! q) → starts_with q k = false) →
           matching_mount k root' = prefix ∧ matching_view k root' = Some v ∧
           matching_mount_entry k root' = Some me) ∧
     ∀ k, trie_get_ancestor k (fst (unmount prefix root')) = trie_get_ancestor k root).
Proof.
  unfold mount. destruct (trie_get_ancestor prefix root) as [[q e]|] eqn:E.
  - left. split; [done|]. apply get_ancestor_iff in E as (H1 & H2 & _). eauto.
  - right. pose proof (proj1 (get_ancestor_none_iff _ _) E) as Hn.
    set (e := {| tainted := false |}). exists (trie_insert prefix e root). split; [done|].
    split_and!; [done| | |].
    + intros k Hk. apply get_ancestor_ext. intros q Hq. rewrite trie_map_insert.
      apply lookup_insert_ne. intros <-. congruence.
    + intros k Hk Hno. unfold matching_mount, matching_view, matching_mount_entry.
      rewrite (proj2 (get_ancestor_iff _ k prefix e)); [done|].
      rewrite trie_map_insert. split_and!; [apply lookup_insert_eq|done|].
      intros q Hq Hs. destruct (decide (q = prefix)) as [->|Hne]; [done|].
      rewrite lookup_insert_ne in Hq by done. by rewrite (Hno q Hq) in Hs.
    + intros k. apply get_ancestor_ext. intros q _. simpl. rewrite trie_map_remove, trie_map_insert.
      rewrite delete_insert_eq, delete_id; [done|].
      destruct (trie_map root !! prefix) eqn:Ep; [|done].
      assert (starts_with prefix prefix = false) as Hf by (apply Hn; eauto).
      by autorewrite with rust_str in Hf.
Qed.

End laws.

(** ** Witnesses: a finite map as the tree *)

(** The stored prefixes of a key, longest first. *)
Fixpoint longest_in {V} (m : gmap string V) (k : string) (n : nat) : option (string * V) :=
  let p := String.substring 0 n k in
  match m !! p with
  | Some v => Some (p, v)
  | None => match n with O => None | S n => longest_in m k n end
  end.

#[global] Instance gmap_trie : RadixTrie (gmap string) := {|
  trie_new := fun V => ∅;
  trie_insert := fun V k v m => <[k := v]> m;
  trie_remove := fun V k m => delete k m;
  trie_get := fun V k m => m !! k;
  trie_get_ancestor := fun V k m => longest_in m k (String.length k)
|}.

Lemma substring_prefix k n : (n <= String.length k)%nat →
  starts_with (String.substring 0 n k) k = true ∧ String.length (String.substring 0 n k) = n.
Proof.
  revert n. induction k as [|a k IH]; intros [|n] Hn; simpl in *; try done; [lia|].
  destruct (IH n) as [H1 H2]; [lia|]. apply starts_with_spec in H1 as [r Hr]. split; [|lia].
  apply starts_with_spec. exists r. simpl. by rewrite <- Hr.
Qed.

Lemma prefix_substring p k : starts_with p k = true → String.substring 0 (String.length p) k = p.
Proof.
  intros Hp. pose proof (starts_with_length p k Hp) as Hl.
  destruct (substring_prefix k (String.length p) Hl) as [H1 H2].
  apply starts_with_antisym; [|lia]. apply (starts_with_comparable _ _ k); [done..|lia].
Qed.

Lemma longest_in_some {V} (m : gmap string V) k n p v :
  (n <= String.length k)%nat → longest_in m k n = Some (p, v) →
  m !! p = Some v ∧ starts_with p k = true ∧
  ∀ q, is_Some (m !! q) → starts_with q k = true → (String.length q <= n)%nat →
       (String.length q <= String.length p)%nat.
Proof.
  induction n as [|n IH]; intros Hn; simpl.
  - destruct (m !! _) eqn:E; [|done]. intros [= <- <-]. destruct (substring_prefix k 0 Hn).
    split_and!; [done..|]. intros. lia.
  - destruct (m !! String.substring 0 (S n) k) eqn:E.
    + intros [= <- <-]. destruct (substring_prefix k (S n) Hn) as [? Hl]. split_and!; [done..|].
      intros q _ _ ?. rewrite Hl. done.
    + intros H. destruct (IH ltac:(lia) H) as (? & ? & Hmax). split_and!; [done..|].
      intros q Hq Hs Hlen. apply Hmax; [done..|].
      destruct (decide (String.length q = S n)) as [Heq|]; [|lia].
      rewrite <- Heq, (prefix_substring q k Hs) in E. rewrite E in Hq. by destruct Hq.
Qed.

Lemma longest_in_none {V} (m : gmap string V) k n q :
  longest_in m k n = None → is_Some (m !! q) → starts_with q k = true → (n < String.length q)%nat.
Proof.
  intros H [v Hq] Hs. apply Nat.nle_gt. intros Hle. revert H.
  induction n as [|n IH]; cbn [longest_in].
  - rewrite <- (prefix_substring q k Hs) in Hq.
    replace (String.length q) with 0%nat in Hq by lia. by rewrite Hq.
  - destruct (m !! String.substring 0 (S n) k) eqn:E; [done|]. intros H.
    destruct (decide (String.length q = S n)) as [Heq|]; [|apply IH; [lia|done]].
    rewrite <- Heq, (prefix_substring q k Hs) in E. congruence.
Qed.

#[global] Program Instance gmap_trie_laws : RadixTrieLaws (gmap string) := {| trie_map := fun V m => m |}.
Next Obligation. done. Qed.
Next Obligation. done. Qed.
Next Obligation. done. Qed.
Next Obligation. done. Qed.
Next Obligation.
  intros V k m p v H. apply longest_in_some in H as (? & ? & Hmax); [|done].
  split_and!; [done..|]. intros q Hq Hs. apply Hmax; [done..|]. by apply starts_with_length.
Qed.
Next Obligation.
  intros V k m q H Hq. destruct (starts_with q k) eqn:E; [|done].
  pose proof (longest_in_none m k _ q H Hq E). apply starts_with_length in E. lia.
Qed.

Definition demo_dyn : DynBackend nat :=
  {| get_unauth_paths := Some ["login/*"]; get_root_paths := Some ["rotate"];
     backend_handle_request := fun '(w, req) => ((S w, req), Ok None) |}.
Definition demo_router : gmap string (RouterEntry (gmap string) nat) :=
  fst (Router.mount demo_dyn "auth/userpass/" 0 (BarrierView.new "auth/1/") Router.new).
Definition demo_routed : Request := RequestOps.new "auth/userpass/login/bob".
Definition demo_entry : RouterEntry (gmap string) nat :=
  {| tainted := false; re_backend := demo_dyn; view := BarrierView.new "auth/1/";
     re_root_paths := Router.new_radix_from_paths ["rotate"];
     re_unauth_paths := Router.new_radix_from_paths ["login/*"]; mount_entry := 0 |}.

Lemma demo_longest : longest_prefix (trie_map demo_router) (path demo_routed) "auth/userpass/" demo_entry.
Proof. apply get_ancestor_iff. by vm_compute. Defined.

Lemma special_paths_exact_witness :
  ∃ remain, path demo_routed = "auth/userpass/" ++ remain ∧
    (Router.is_root_path (path demo_routed) demo_router = true →
     ∃ p, p ∈ ["rotate"] ∧ declared_match p remain = true).
Proof.
  destruct (special_paths_exact demo_router (path demo_routed) "auth/userpass/" demo_entry
              ["login/*"] ["rotate"] demo_longest eq_refl eq_refl) as (remain & H1 & _ & H2 & _).
  by exists remain.
Defined.

Lemma route_longest_prefix_witness :
  ∃ final, Router.handle_request demo_router (0, demo_routed) = ((1, final), Ok None).
Proof.
  destruct (route_longest_prefix demo_router 0 demo_routed "auth/userpass/" "login/bob" demo_entry)
    as (inner & _ & _ & _ & _ & _ & _ & _ & _ & H);
    [reflexivity|reflexivity|exact demo_longest|by left|].
  simpl in H. destruct H as (final & H & _). exists final. exact H.
Defined.

Lemma unrouted_requests_fail_witness :
  ∃ req', Router.handle_request demo_router (0, RequestOps.new "secret/foo")
          = ((0, req'), Err ErrRouterMountNotFound).
Proof.
  apply (unrouted_requests_fail demo_router 0 (RequestOps.new "secret/foo")); [reflexivity|].
  left. apply get_ancestor_none_iff. by vm_compute.
Defined.
