(* ===== verification/Policy.v ===== *)
(** * Policies and permissions (src/src/modules/policy/policy.rs)

    A policy is a list of path rules; a rule carries the permissions its path
    grants.  Capabilities are bits of a 32-bit word.  The HCL parser is the
    [hcl] crate's, a parameter. *)

From stdpp Require Import base tactics list gmap strings.
From Stdlib Require Import ZArith Lia Ascii.
From S2P Require Import Prelude Errors RustStr Utils Lease Logical.
Import StringUtils.

Local Open Scope string_scope.

Inductive PolicyType := Acl | Rgp | Egp | Token.

#[global] Instance PolicyType_eq_dec : EqDecision PolicyType.
Proof. solve_decision. Defined.

Module OldPathPolicy.
Inductive t := Deny | Read | Write | Sudo.
End OldPathPolicy.

Module Capability.
Inductive t := Deny | Create | Read | Update | Delete | List | Sudo | Patch.

(** [EnumIter]: declaration order. *)
Definition iter : list t := [Deny; Create; Read; Update; Delete; List; Sudo; Patch].

(** The discriminants [1 << 0] to [1 << 7]. *)
Definition to_bits (c : t) : N :=
  match c with
  | Deny => N.shiftl 1 0
  | Create => N.shiftl 1 1
  | Read => N.shiftl 1 2
  | Update => N.shiftl 1 3
  | Delete => N.shiftl 1 4
  | List => N.shiftl 1 5
  | Sudo => N.shiftl 1 6
  | Patch => N.shiftl 1 7
  end.

Definition to_string (c : t) : string :=
  match c with
  | Deny => "deny" | Create => "create" | Read => "read" | Update => "update"
  | Delete => "delete" | List => "list" | Sudo => "sudo" | Patch => "patch"
  end.
End Capability.

#[global] Instance Capability_eq_dec : EqDecision Capability.t.
Proof. solve_decision. Defined.

(** Bit tests as the code writes them: [value & cap.to_bits() != 0]. *)
Definition has_cap (value : N) (c : Capability.t) : bool :=
  negb (N.eqb (N.land value (Capability.to_bits c)) 0).

Abbreviation param_map := (gmap string (list Value)).

Record Permissions := {
  capabilities_bitmap : N;
  min_wrapping_ttl : Duration;
  max_wrapping_ttl : Duration;
  allowed_parameters : param_map;
  denied_parameters : param_map;
  required_parameters : list string;
  granting_policies_map : gmap N (list PolicyInfo)
}.

Record PolicyPathRules := {
  rule_path : string;
  permissions : Permissions;
  capabilities : list Capability.t;
  is_prefix : bool;
  has_segment_wildcards : bool;
  rule_min_wrapping_ttl : Duration;
  rule_max_wrapping_ttl : Duration
}.

Record Policy := {
  policy_name : string;
  policy_paths : list PolicyPathRules;
  raw : string;
  policy_ty : PolicyType;
  templated : bool
}.

Record PolicyPathConfig := {
  pc_policy : option OldPathPolicy.t;
  pc_capabilities : list Capability.t;
  pc_min_wrapping_ttl : Duration;
  pc_max_wrapping_ttl : Duration;
  pc_allowed_parameters : param_map;
  pc_denied_parameters : param_map;
  pc_required_parameters : list string
}.

Record PolicyConfig := { cfg_name : string; cfg_path : gmap string PolicyPathConfig }.

Record ACLResults := {
  acl_allowed : bool;
  root_privs : bool;
  is_root : bool;
  acl_capabilities_bitmap : N;
  acl_granting_policies : list PolicyInfo
}.

Definition default_results : ACLResults :=
  {| acl_allowed := false; root_privs := false; is_root := false; acl_capabilities_bitmap := 0;
     acl_granting_policies := [] |}.

Definition default_policy_info : PolicyInfo :=
  {| pi_name := ""; namespace_id := ""; namespace_path := ""; policy_type := "acl" |}.

(** ** The HCL parser *)

(** A parsed document: its string attributes (other expressions are [None]) and
    its blocks with identifier, labels and body; a body deserializes to the
    configuration of a path, or fails. *)
Record HclBlock := {
  identifier : string;
  labels : list string;
  block_config : option PolicyPathConfig
}.
Record HclBody := { attributes : list (string * option string); blocks : list HclBlock }.
Class HclParser : Type := hcl_from_str : string -> option HclBody.

Module PolicyOps.

Definition is_nil {A} (l : list A) : bool := match l with [] => true | _ => false end.

(** Adding the values [value] for [key], in the loops of [parse] ([insert_key]
    lowercases again) and [merge] ([insert_key] is the identity). *)
Definition merge_param (insert_key : string -> string) (dst : param_map) (kv : string * list Value)
  : param_map :=
  let '(key, value) := kv in
  match dst !! key with
  | Some dst_vec =>
      if is_nil value then <[key := []]> dst
      else if is_nil dst_vec then dst
      else <[key := (dst_vec ++ value)%list]> dst
  | None => <[insert_key key := value]> dst
  end.

Definition merge_params (insert_key : string -> string) (dst src : param_map) : param_map :=
  fold_left (merge_param insert_key) (map_to_list src) dst.

(** [iter().map(|(key, value)| (key.to_lowercase(), value.clone())).collect()]. *)
Definition lowercase_keys (m : param_map) : param_map :=
  fold_left (λ acc '(k, v), <[to_lowercase k := v]> acc) (map_to_list m) ∅.

Definition merge_required (dst src : list string) : list string :=
  (dst ++ List.filter (λ x, negb (existsb (String.eqb x) dst)) src)%list.

(** A second block for a path: only its parameters are merged. *)
Definition merge_path_config (existing pc : PolicyPathConfig) : PolicyPathConfig :=
  {| pc_policy := pc_policy existing;
     pc_capabilities := pc_capabilities existing;
     pc_min_wrapping_ttl := pc_min_wrapping_ttl existing;
     pc_max_wrapping_ttl := pc_max_wrapping_ttl existing;
     pc_allowed_parameters :=
       merge_params to_lowercase (pc_allowed_parameters existing) (pc_allowed_parameters pc);
     pc_denied_parameters :=
       merge_params to_lowercase (pc_denied_parameters existing) (pc_denied_parameters pc);
     pc_required_parameters :=
       merge_required (pc_required_parameters existing) (pc_required_parameters pc) |}.

Definition wildcard_error (p : string) : RvError :=
  ErrString ("path " ++ p ++ ": invalid use of wildcards ('+*' is forbidden)").

Definition lowercase_config (pc : PolicyPathConfig) : PolicyPathConfig :=
  {| pc_policy := pc_policy pc; pc_capabilities := pc_capabilities pc;
     pc_min_wrapping_ttl := pc_min_wrapping_ttl pc; pc_max_wrapping_ttl := pc_max_wrapping_ttl pc;
     pc_allowed_parameters := lowercase_keys (pc_allowed_parameters pc);
     pc_denied_parameters := lowercase_keys (pc_denied_parameters pc);
     pc_required_parameters := pc_required_parameters pc |}.

Definition add_block (cfg : gmap string PolicyPathConfig) (b : HclBlock)
  : result (gmap string PolicyPathConfig) :=
  if negb (String.eqb (identifier b) "path") then Ok cfg
  else
    match labels b with
    | [] => Ok cfg
    | path_str :: _ =>
        if contains "+*" path_str then Err (wildcard_error path_str)
        else
          match block_config b with
          | None => Err Hcl
          | Some pc =>
              let pc := lowercase_config pc in
              match cfg !! path_str with
              | Some existing => Ok (<[path_str := merge_path_config existing pc]> cfg)
              | None => Ok (<[path_str := pc]> cfg)
              end
          end
    end.

Fixpoint add_blocks (cfg : gmap string PolicyPathConfig) (bs : list HclBlock)
  : result (gmap string PolicyPathConfig) :=
  match bs with
  | [] => Ok cfg
  | b :: bs => let? cfg := add_block cfg b in add_blocks cfg bs
  end.

(** The last string attribute called [name]. *)
Definition config_name (attrs : list (string * option string)) : string :=
  fold_left (λ acc '(k, v), if String.eqb k "name" then default acc v else acc) attrs "".

Definition parse `{HclParser} (s : string) : result PolicyConfig :=
  match hcl_from_str s with
  | None => Err Hcl
  | Some body =>
      let? cfg := add_blocks ∅ (blocks body) in
      Ok {| cfg_name := config_name (attributes body); cfg_path := cfg |}
  end.

Definition old_capabilities (p : option OldPathPolicy.t) (caps : list Capability.t)
  : list Capability.t :=
  match p with
  | None => caps
  | Some OldPathPolicy.Deny => [Capability.Deny]
  | Some OldPathPolicy.Read => (caps ++ [Capability.Read; Capability.List])%list
  | Some OldPathPolicy.Write =>
      (caps ++ [Capability.Read; Capability.List; Capability.Create; Capability.Update;
                Capability.Delete])%list
  | Some OldPathPolicy.Sudo =>
      (caps ++ [Capability.Read; Capability.List; Capability.Create; Capability.Update;
                Capability.Delete; Capability.Sudo])%list
  end.

Definition bitmap_of (caps : list Capability.t) : N :=
  fold_left (λ acc cap, N.lor acc (Capability.to_bits cap)) caps 0%N.

Definition is_star (a : ascii) : bool := Ascii.eqb a "*".

(** One iteration of [init]. *)
Definition path_rules (path : string) (pc : PolicyPathConfig) : PolicyPathRules :=
  let p := ensure_no_leading_slash path in
  let wildcards := String.eqb p "+" || contains "/+" p || starts_with "+/" p in
  let prefix := ends_with_char "*" p && negb wildcards in
  let p := if prefix then trim_end_matches is_star p else p in
  let caps := old_capabilities (pc_policy pc) (pc_capabilities pc) in
  let bitmap := bitmap_of caps in
  let deny := has_cap bitmap Capability.Deny in
  {| rule_path := p;
     permissions :=
       {| capabilities_bitmap := if deny then Capability.to_bits Capability.Deny else bitmap;
          min_wrapping_ttl := pc_min_wrapping_ttl pc; max_wrapping_ttl := pc_max_wrapping_ttl pc;
          allowed_parameters := pc_allowed_parameters pc;
          denied_parameters := pc_denied_parameters pc;
          required_parameters := pc_required_parameters pc;
          granting_policies_map := ∅ |};
     capabilities := if deny then [Capability.Deny] else caps;
     is_prefix := prefix;
     has_segment_wildcards := wildcards;
     rule_min_wrapping_ttl := pc_min_wrapping_ttl pc;
     rule_max_wrapping_ttl := pc_max_wrapping_ttl pc |}.

Definition init (cfg : PolicyConfig) : list PolicyPathRules :=
  map (λ '(p, pc), path_rules p pc) (map_to_list (cfg_path cfg)).

Definition from_str `{HclParser} (s : string) : result Policy :=
  let? cfg := parse s in
  Ok {| policy_name := cfg_name cfg; policy_paths := init cfg; raw := s; policy_ty := Acl;
        templated := false |}.

End PolicyOps.

Module PermissionsOps.
Import PolicyOps.

Definition data_iter (req : Request) : list (string * Value) :=
  (default [] (map_to_list <$> data req) ++ default [] (map_to_list <$> body req))%list.

Definition has_parameter (req : Request) (key : string) : bool :=
  bool_decide (is_Some (data req ≫= lookup key)) || bool_decide (is_Some (body req ≫= lookup key)).

Definition no_data (m : option (gmap string Value)) : bool :=
  match m with None => true | Some m => bool_decide (m = ∅) end.

Definition param_denied (self : Permissions) (kv : string * Value) : bool :=
  match denied_parameters self !! to_lowercase (fst kv) with
  | Some l => glob_contains l (snd kv)
  | None => false
  end.

Definition param_allowed (self : Permissions) (allowed_all : bool) (kv : string * Value) : bool :=
  match allowed_parameters self !! to_lowercase (fst kv) with
  | Some l => glob_contains l (snd kv)
  | None => allowed_all
  end.

(** The parameter checks of reads and writes. *)
Definition params_ok (self : Permissions) (req : Request) : bool :=
  if negb (forallb (λ p, has_parameter req (to_lowercase p)) (required_parameters self)) then false
  else if no_data (data req) && no_data (body req) then true
  else if bool_decide (is_Some (denied_parameters self !! "*")) then false
  else if existsb (param_denied self) (data_iter req) then false
  else
    let allowed_all := bool_decide (is_Some (allowed_parameters self !! "*")) in
    if bool_decide (allowed_parameters self = ∅) ||
       (allowed_all && (size (allowed_parameters self) =? 1)%nat) then true
    else forallb (param_allowed self allowed_all) (data_iter req).

(** The capability an operation needs; [None] for [Help]. *)
Definition required_cap (o : Operation) : option Capability.t :=
  match o with
  | Read => Some Capability.Read
  | List => Some Capability.List
  | Write => Some Capability.Update
  | Delete => Some Capability.Delete
  | Renew | Revoke | Rollback => Some Capability.Update
  | Help => None
  end.

Definition check (self : Permissions) (req : Request) (check_only : bool) : ACLResults :=
  let bitmap := capabilities_bitmap self in
  let sudo := has_cap bitmap Capability.Sudo in
  let ret allowed bits granting :=
    {| acl_allowed := allowed; root_privs := sudo; is_root := false;
       acl_capabilities_bitmap := bits; acl_granting_policies := granting |} in
  if check_only then ret false bitmap []
  else
    match required_cap (operation req) with
    | None => ret false 0%N []
    | Some cap =>
        if negb (has_cap bitmap cap) &&
           (negb (bool_decide (operation req = Write)) || negb (has_cap bitmap Capability.Create))
        then ret false 0%N []
        else
          let granting := default [] (granting_policies_map self !! Capability.to_bits cap) in
          if negb (Z.eqb (min_wrapping_ttl self) 0) && negb (Z.eqb (max_wrapping_ttl self) 0) &&
             Z.ltb (max_wrapping_ttl self) (min_wrapping_ttl self)
          then ret false 0%N granting
          else
            match operation req with
            | Read | Write =>
                if params_ok self req then ret true bitmap granting else ret false 0%N granting
            | _ => ret true bitmap granting
            end
    end.

Definition merge_ttl (self other : Duration) : Duration :=
  if Z.ltb 0 other && (Z.eqb self 0 || Z.ltb self other) then other else self.

Definition merge_param_map (self other : param_map) : param_map :=
  if bool_decide (other = ∅) then self
  else if bool_decide (self = ∅) then other
  else merge_params id self other.

Definition push_required (acc : list string) (p : string) : list string :=
  if existsb (String.eqb p) acc then acc else (acc ++ [p])%list.

Definition merge (self other : Permissions) : Permissions :=
  if has_cap (capabilities_bitmap self) Capability.Deny then self
  else if has_cap (capabilities_bitmap other) Capability.Deny then
    {| capabilities_bitmap := Capability.to_bits Capability.Deny;
       min_wrapping_ttl := min_wrapping_ttl self; max_wrapping_ttl := max_wrapping_ttl self;
       allowed_parameters := ∅; denied_parameters := ∅;
       required_parameters := required_parameters self;
       granting_policies_map := granting_policies_map self |}
  else
    {| capabilities_bitmap := N.lor (capabilities_bitmap self) (capabilities_bitmap other);
       min_wrapping_ttl := merge_ttl (min_wrapping_ttl self) (min_wrapping_ttl other);
       max_wrapping_ttl := merge_ttl (max_wrapping_ttl self) (max_wrapping_ttl other);
       allowed_parameters := merge_param_map (allowed_parameters self) (allowed_parameters other);
       denied_parameters := merge_param_map (denied_parameters self) (denied_parameters other);
       required_parameters :=
         fold_left push_required (required_parameters other) (required_parameters self);
       granting_policies_map := granting_policies_map self |}.

Definition add_granting_policy_to_map (self : Permissions) (policy_name : string) (bitmap : N)
  : Permissions :=
  let pi := {| pi_name := policy_name; namespace_id := ""; namespace_path := "";
               policy_type := "acl" |} in
  let add m cap :=
    if has_cap bitmap cap
    then <[Capability.to_bits cap := (default [] (m !! Capability.to_bits cap) ++ [pi])%list]> m
    else m in
  {| capabilities_bitmap := capabilities_bitmap self; min_wrapping_ttl := min_wrapping_ttl self;
     max_wrapping_ttl := max_wrapping_ttl self; allowed_parameters := allowed_parameters self;
     denied_parameters := denied_parameters self; required_parameters := required_parameters self;
     granting_policies_map := fold_left add Capability.iter (granting_policies_map self) |}.

Definition to_granting_capabilities (value : N) : list string :=
  if has_cap value Capability.Deny then [Capability.to_string Capability.Deny]
  else map Capability.to_string (List.filter (has_cap value) Capability.iter).

Definition get_granting_capabilities (self : Permissions) : list string :=
  to_granting_capabilities (capabilities_bitmap self).

End PermissionsOps.

(** ** Capabilities as bits *)

Definition cap_index (c : Capability.t) : N :=
  match c with
  | Capability.Deny => 0 | Capability.Create => 1 | Capability.Read => 2 | Capability.Update => 3
  | Capability.Delete => 4 | Capability.List => 5 | Capability.Sudo => 6 | Capability.Patch => 7
  end.

Lemma to_bits_pow c : Capability.to_bits c = (2 ^ cap_index c)%N.
Proof. by destruct c. Qed.

Lemma has_cap_testbit v c : has_cap v c = N.testbit v (cap_index c).
Proof.
  unfold has_cap. rewrite to_bits_pow.
  destruct (N.testbit v (cap_index c)) eqn:E.
  - apply negb_true_iff, N.eqb_neq. intros H.
    apply (f_equal (λ x, N.testbit x (cap_index c))) in H.
    rewrite N.land_spec, E, N.pow2_bits_true in H. done.
  - apply negb_false_iff, N.eqb_eq, N.bits_inj_0. intros n. rewrite N.land_spec.
    destruct (N.eq_dec n (cap_index c)) as [->|Hne]; [by rewrite E|].
    rewrite N.pow2_bits_false by done. apply andb_false_r.
Qed.

Lemma has_cap_lor a b c : has_cap (N.lor a b) c = has_cap a c || has_cap b c.
Proof. rewrite !has_cap_testbit. apply N.lor_spec. Qed.

Lemma has_cap_single c d : has_cap (Capability.to_bits c) d = bool_decide (c = d).
Proof. by destruct c, d. Qed.

Lemma has_cap_bitmap_of caps c :
  has_cap (PolicyOps.bitmap_of caps) c = existsb (λ d, bool_decide (d = c)) caps.
Proof.
  unfold PolicyOps.bitmap_of. induction caps as [|d caps IH] using rev_ind; [by destruct c|].
  rewrite fold_left_app, existsb_app. simpl.
  by rewrite has_cap_lor, IH, has_cap_single, orb_false_r.
Qed.

Lemma has_cap_lt v c : has_cap v c = true → v ≠ 0%N.
Proof. intros H ->. by destruct c. Qed.

(** ** Rules of a parsed policy *)

(** A rule with [deny] has no other capability. *)
Definition normal (p : Permissions) : Prop :=
  has_cap (capabilities_bitmap p) Capability.Deny = true →
  capabilities_bitmap p = Capability.to_bits Capability.Deny.

Lemma path_rules_normal path pc : normal (permissions (PolicyOps.path_rules path pc)).
Proof.
  unfold normal, PolicyOps.path_rules. cbn [permissions capabilities_bitmap].
  destruct (has_cap (PolicyOps.bitmap_of _) _) eqn:E; [done|congruence].
Qed.

(** A parsed rule grants exactly the capabilities it lists, with the
    expansion of an old-style policy, except that [deny] alone remains as soon
    as it is among them; the rule's kind follows its path: a [+] segment makes a
    wildcard rule that keeps its trailing star, a trailing star otherwise makes
    a prefix rule without it. *)
Theorem rule_capabilities_spec (path : string) (pc : PolicyPathConfig) (c : Capability.t) :
  let caps := PolicyOps.old_capabilities (pc_policy pc) (pc_capabilities pc) in
  let r := PolicyOps.path_rules path pc in
  has_cap (capabilities_bitmap (permissions r)) c = true ↔
  ((Capability.Deny ∈ caps ∧ c = Capability.Deny) ∨ ((Capability.Deny ∉ caps) ∧ c ∈ caps)).
Proof.
  intros caps r. unfold r, PolicyOps.path_rules. cbn [permissions capabilities_bitmap]. fold caps.
  assert (∀ d, has_cap (PolicyOps.bitmap_of caps) d = true ↔ d ∈ caps) as Hb.
  { intros d. rewrite has_cap_bitmap_of, existsb_exists. setoid_rewrite bool_decide_eq_true.
    setoid_rewrite <- list_elem_of_In. naive_solver. }
  destruct (has_cap (PolicyOps.bitmap_of caps) Capability.Deny) eqn:Hd.
  - apply Hb in Hd. rewrite has_cap_single, bool_decide_eq_true. naive_solver.
  - rewrite Hb. assert (Capability.Deny ∉ caps) by (rewrite <- Hb; congruence). naive_solver.
Qed.

(** When a policy text repeats a path, the later block's capabilities are
    dropped, a [deny] included: only its parameter rules are merged. *)
Theorem repeated_path_block_capabilities_dropped (cfg : gmap string PolicyPathConfig)
    (first second : PolicyPathConfig) (p : string) :
  contains "+*" p = false → cfg !! p = Some first →
  ∃ merged,
    PolicyOps.add_block cfg {| identifier := "path"; labels := [p]; block_config := Some second |}
      = Ok (<[p := merged]> cfg) ∧
    capabilities_bitmap (permissions (PolicyOps.path_rules p merged)) =
    capabilities_bitmap (permissions (PolicyOps.path_rules p first)).
Proof.
  intros Hc Hp. unfold PolicyOps.add_block. simpl. rewrite Hc, Hp. eauto.
Qed.

Definition demo_config (c : Capability.t) : PolicyPathConfig :=
  {| pc_policy := None; pc_capabilities := [c]; pc_min_wrapping_ttl := 0; pc_max_wrapping_ttl := 0;
     pc_allowed_parameters := ∅; pc_denied_parameters := ∅; pc_required_parameters := [] |}.

Lemma repeated_path_block_capabilities_dropped_witness :
  ∃ merged,
    PolicyOps.add_block {["secret/*" := demo_config Capability.Read]}
      {| identifier := "path"; labels := ["secret/*"];
         block_config := Some (demo_config Capability.Deny) |}
      = Ok (<["secret/*" := merged]> {["secret/*" := demo_config Capability.Read]}) ∧
    capabilities_bitmap (permissions (PolicyOps.path_rules "secret/*" merged)) =
    Capability.to_bits Capability.Read.
Proof.
  apply (repeated_path_block_capabilities_dropped {["secret/*" := demo_config Capability.Read]}
           (demo_config Capability.Read) (demo_config Capability.Deny) "secret/*"); reflexivity.
Defined.

(** ** Checking a request against permissions *)
Section check.
Import PermissionsOps.

Definition cap_granted (bitmap : N) (o : Operation) : Prop :=
  ∃ cap, required_cap o = Some cap ∧
         (has_cap bitmap cap = true ∨ (o = Write ∧ has_cap bitmap Capability.Create = true)).

(** What a read or write request's parameters must satisfy. *)
Definition params_spec (self : Permissions) (req : Request) : Prop :=
  (∀ p, p ∈ required_parameters self → has_parameter req (to_lowercase p) = true) ∧
  (no_data (data req) = true ∧ no_data (body req) = true ∨
   denied_parameters self !! "*" = None ∧
   (∀ k v l, (k, v) ∈ data_iter req → denied_parameters self !! to_lowercase k = Some l →
             glob_contains l v = false) ∧
   (allowed_parameters self = ∅ ∨
    (is_Some (allowed_parameters self !! "*") ∧ size (allowed_parameters self) = 1) ∨
    ∀ k v, (k, v) ∈ data_iter req →
      match allowed_parameters self !! to_lowercase k with
      | Some l => glob_contains l v = true
      | None => is_Some (allowed_parameters self !! "*")
      end)).

Lemma params_ok_spec self req : params_ok self req = true ↔ params_spec self req.
Proof.
  unfold params_ok, params_spec.
  assert (forallb (λ p, has_parameter req (to_lowercase p)) (required_parameters self) = true ↔
          ∀ p, p ∈ required_parameters self → has_parameter req (to_lowercase p) = true) as Hreq.
  { rewrite forallb_forall. by setoid_rewrite list_elem_of_In. }
  assert (existsb (param_denied self) (data_iter req) = false ↔
          ∀ k v l, (k, v) ∈ data_iter req → denied_parameters self !! to_lowercase k = Some l →
                   glob_contains l v = false) as Hden.
  { rewrite <- not_true_iff_false, existsb_exists. unfold param_denied. split.
    - intros H k v l Hin Hl. apply not_true_is_false. intros Hg. apply H. exists (k, v).
      split; [by apply list_elem_of_In|]. simpl. by rewrite Hl.
    - intros H ([k v] & Hin & Hd). simpl in Hd. destruct (_ !! _) as [l|] eqn:El; [|done].
      by rewrite (H k v l) in Hd; [|apply list_elem_of_In|]. }
  assert (forallb (param_allowed self (bool_decide (is_Some (allowed_parameters self !! "*")))) (data_iter req) = true ↔
          ∀ k v, (k, v) ∈ data_iter req →
            match allowed_parameters self !! to_lowercase k with
            | Some l => glob_contains l v = true
            | None => is_Some (allowed_parameters self !! "*")
            end) as Hall.
  { rewrite forallb_forall. unfold param_allowed. split.
    - intros H k v Hin. specialize (H (k, v) (proj1 (list_elem_of_In _ _) Hin)). simpl in H.
      destruct (_ !! to_lowercase k); [done|]. by apply bool_decide_eq_true in H.
    - intros H [k v] Hin. specialize (H k v (proj2 (list_elem_of_In _ _) Hin)). simpl.
      destruct (_ !! to_lowercase k); [done|]. by apply bool_decide_eq_true. }
  destruct (forallb _ (required_parameters self)) eqn:E1; simpl; [|naive_solver].
  rewrite <- Hreq, <- Hden, <- Hall. clear Hreq Hden Hall.
  destruct (no_data (data req)), (no_data (body req)); simpl; [naive_solver|..].
  all: 
    destruct (bool_decide (is_Some (denied_parameters self !! "*"))) eqn:Hs;
    [apply bool_decide_eq_true in Hs as [? Hs]; rewrite Hs; naive_solver|].
  all: apply bool_decide_eq_false, eq_None_not_Some in Hs; destruct (existsb _ _);
    [naive_solver|]; simpl.
  all: destruct (bool_decide (allowed_parameters self = ∅)) eqn:Ee; simpl;
    [apply bool_decide_eq_true in Ee; naive_solver|apply bool_decide_eq_false in Ee].
  all: destruct (bool_decide (is_Some (allowed_parameters self !! "*"))) eqn:Ha;
    [apply bool_decide_eq_true in Ha|apply bool_decide_eq_false in Ha]; simpl;
    [destruct (Nat.eqb_spec (size (allowed_parameters self)) 1)|]; naive_solver.
Qed.

Definition wrap_conflict (self : Permissions) : bool :=
  negb (Z.eqb (min_wrapping_ttl self) 0) && negb (Z.eqb (max_wrapping_ttl self) 0) &&
  Z.ltb (max_wrapping_ttl self) (min_wrapping_ttl self).

Definition reads_or_writes (o : Operation) : bool :=
  match o with Read | Write => true | _ => false end.

Lemma check_allowed_eq self req :
  acl_allowed (check self req false) =
  match required_cap (operation req) with
  | None => false
  | Some cap =>
      (has_cap (capabilities_bitmap self) cap ||
       (bool_decide (operation req = Write) && has_cap (capabilities_bitmap self) Capability.Create)) &&
      negb (wrap_conflict self) && (negb (reads_or_writes (operation req)) || params_ok self req)
  end.
Proof.
  unfold check. destruct (required_cap (operation req)) as [cap|]; [|done].
  fold (wrap_conflict self).
  destruct (has_cap _ cap), (bool_decide _), (has_cap _ Capability.Create), (wrap_conflict self);
    simpl; try done; destruct (operation req); simpl; try done; by destruct (params_ok self req).
Qed.

Lemma wrap_conflict_spec self :
  wrap_conflict self = true ↔
  (min_wrapping_ttl self ≠ 0 ∧ max_wrapping_ttl self ≠ 0 ∧
   max_wrapping_ttl self < min_wrapping_ttl self)%Z.
Proof.
  unfold wrap_conflict.
  rewrite !andb_true_iff, !negb_true_iff, !Z.eqb_neq, Z.ltb_lt. tauto.
Qed.

Lemma granted_spec bm o :
  cap_granted bm o ↔
  match required_cap o with
  | None => False
  | Some cap => has_cap bm cap || (bool_decide (o = Write) && has_cap bm Capability.Create) = true
  end.
Proof.
  unfold cap_granted. destruct (required_cap o) as [cap|]; [|naive_solver].
  rewrite orb_true_iff, andb_true_iff, bool_decide_eq_true. naive_solver.
Qed.

Lemma check_allowed_spec (self : Permissions) (req : Request) (check_only : bool) :
  acl_allowed (check self req check_only) = true ↔
  (check_only = false ∧ cap_granted (capabilities_bitmap self) (operation req) ∧
   ¬ (min_wrapping_ttl self ≠ 0 ∧ max_wrapping_ttl self ≠ 0 ∧
      max_wrapping_ttl self < min_wrapping_ttl self)%Z ∧
   (operation req = Read ∨ operation req = Write → params_spec self req)).
Proof.
  destruct check_only; [naive_solver|]. rewrite check_allowed_eq, granted_spec, <- wrap_conflict_spec.
  rewrite <- params_ok_spec, not_true_iff_false.
  assert (operation req = Read ∨ operation req = Write ↔ reads_or_writes (operation req) = true) as ->
    by (destruct (operation req); naive_solver).
  destruct (required_cap (operation req)); [|naive_solver].
  rewrite !andb_true_iff, orb_true_iff, !negb_true_iff.
  destruct (reads_or_writes (operation req)); intuition done.
Qed.

(** A check allows a request exactly when the permissions hold the capability
    its operation needs (a write is also allowed by [create]), the wrapping
    bounds are not contradictory, and, for reads and writes, every required
    parameter is present, no denied one is, and all are allowed when the
    permissions restrict them.  [Help] and [check_only] never allow. *)
Theorem check_allowed_iff (self : Permissions) (req : Request) (check_only : bool) :
  acl_allowed (check self req check_only) = true ↔
  (check_only = false ∧ cap_granted (capabilities_bitmap self) (operation req) ∧
   ¬ (min_wrapping_ttl self ≠ 0 ∧ max_wrapping_ttl self ≠ 0 ∧
      max_wrapping_ttl self < min_wrapping_ttl self)%Z ∧
   (operation req = Read ∨ operation req = Write → params_spec self req)).
Proof. apply check_allowed_spec. Qed.

End check.
