(* ===== verification/AclModel.v ===== *)
(** * Access control lists (src/src/modules/policy/acl.rs)

    An ACL is built from a token's policies: rules for exact paths, for
    prefixes and for paths with [+] segments.  [allow_operation] finds the most
    specific rule for a request and checks its permissions. *)

From stdpp Require Import base tactics list gmap strings sorting.
From Stdlib Require Import ZArith Lia Ascii.
From S2P Require Import Prelude Errors RustStr Utils Logical Router Policy.
Import StringUtils.

Local Open Scope string_scope.

Record SentinelResults := { sentinel_granting_policies : list PolicyInfo }.

Record AuthResults := {
  acl_results : ACLResults;
  sentinel_results : SentinelResults;
  auth_allowed : bool;
  auth_root_privs : bool;
  denied_error : bool
}.

Record ACL (T : Type -> Type) := {
  exact_rules : T Permissions;
  prefix_rules : T Permissions;
  segment_wildcard_paths : gmap string Permissions;
  rgp_policies : list Policy;
  root : bool
}.
Arguments exact_rules {T}.
Arguments prefix_rules {T}.
Arguments segment_wildcard_paths {T}.
Arguments rgp_policies {T}.
Arguments root {T}.

(** A candidate rule for a path that has no exact rule. *)
Record WcPathDescr := {
  first_wc_or_glob : Z;
  wc_path : string;
  wc_is_prefix : bool;
  wildcards : nat;
  perms : option Permissions
}.

(** [impl Ord for WcPathDescr]. *)
Definition bool_compare (a b : bool) : comparison := Nat.compare (Nat.b2n a) (Nat.b2n b).

Definition then_with (c d : comparison) : comparison := match c with Eq => d | _ => c end.

Definition wc_cmp (self other : WcPathDescr) : comparison :=
  then_with (Z.compare (first_wc_or_glob self) (first_wc_or_glob other))
    (then_with (bool_compare (wc_is_prefix other) (wc_is_prefix self))
      (then_with (Nat.compare (wildcards other) (wildcards self))
        (then_with (Nat.compare (String.length (wc_path self)) (String.length (wc_path other)))
           (String.compare (wc_path self) (wc_path other))))).

Definition wc_le (a b : WcPathDescr) : Prop := wc_cmp a b ≠ Gt.

#[global] Instance wc_le_dec : RelDecision wc_le.
Proof. intros a b. unfold wc_le. solve_decision. Defined.

Module Acl.
Section acl.
Context {T : Type -> Type} `{HT : RadixTrie T} `{HP : Profile}.

Definition empty : ACL T :=
  {| exact_rules := trie_new Permissions; prefix_rules := trie_new Permissions;
     segment_wildcard_paths := ∅; rgp_policies := []; root := false |}.

Definition get_permissions (self : ACL T) (pr : PolicyPathRules) : option Permissions :=
  if has_segment_wildcards pr then segment_wildcard_paths self !! rule_path pr
  else trie_get (rule_path pr) (if is_prefix pr then prefix_rules self else exact_rules self).

Definition insert_permissions (self : ACL T) (pr : PolicyPathRules) (perm : Permissions) : ACL T :=
  if has_segment_wildcards pr then
    {| exact_rules := exact_rules self; prefix_rules := prefix_rules self;
       segment_wildcard_paths := <[rule_path pr := perm]> (segment_wildcard_paths self);
       rgp_policies := rgp_policies self; root := root self |}
  else if is_prefix pr then
    {| exact_rules := exact_rules self;
       prefix_rules := trie_insert (rule_path pr) perm (prefix_rules self);
       segment_wildcard_paths := segment_wildcard_paths self;
       rgp_policies := rgp_policies self; root := root self |}
  else
    {| exact_rules := trie_insert (rule_path pr) perm (exact_rules self);
       prefix_rules := prefix_rules self; segment_wildcard_paths := segment_wildcard_paths self;
       rgp_policies := rgp_policies self; root := root self |}.

(** The body of [for pr in policy.paths.iter()]. *)
Definition add_rule (name : string) (acl : ACL T) (pr : PolicyPathRules) : ACL T :=
  match get_permissions acl pr with
  | Some existing =>
      if has_cap (capabilities_bitmap existing) Capability.Deny then acl
      else
        let merged := PermissionsOps.merge existing (permissions pr) in
        insert_permissions acl pr
          (PermissionsOps.add_granting_policy_to_map merged name (capabilities_bitmap (permissions pr)))
  | None =>
      insert_permissions acl pr
        (PermissionsOps.add_granting_policy_to_map (permissions pr) name
           (capabilities_bitmap (permissions pr)))
  end.

Definition set_root (acl : ACL T) : ACL T :=
  {| exact_rules := exact_rules acl; prefix_rules := prefix_rules acl;
     segment_wildcard_paths := segment_wildcard_paths acl; rgp_policies := rgp_policies acl;
     root := true |}.

Definition push_rgp (acl : ACL T) (p : Policy) : ACL T :=
  {| exact_rules := exact_rules acl; prefix_rules := prefix_rules acl;
     segment_wildcard_paths := segment_wildcard_paths acl;
     rgp_policies := (rgp_policies acl ++ [p])%list; root := root acl |}.

Fixpoint new_loop (count : nat) (acl : ACL T) (policies : list Policy) : result (ACL T) :=
  match policies with
  | [] => Ok acl
  | policy :: policies =>
      match policy_ty policy with
      | Rgp => new_loop count (push_rgp acl policy) policies
      | Acl =>
          if String.eqb (policy_name policy) "root" && negb (count =? 1)%nat then
            Err (ErrString "other policies present along with root")
          else
            let acl := if String.eqb (policy_name policy) "root" then set_root acl else acl in
            new_loop count (fold_left (add_rule (policy_name policy)) (policy_paths policy) acl) policies
      | _ => Err (ErrString "unable to parse policy (wrong type)")
      end
  end.

Definition new (policies : list Policy) : result (ACL T) := new_loop (length policies) empty policies.

(** What the scan of one wildcard rule ends with. *)
Inductive scan := Skip | Found (p : Permissions) | Keep (pd : WcPathDescr).

Definition set_wildcards (pd : WcPathDescr) (n : nat) : WcPathDescr :=
  {| first_wc_or_glob := first_wc_or_glob pd; wc_path := wc_path pd;
     wc_is_prefix := wc_is_prefix pd; wildcards := n; perms := perms pd |}.

Definition set_perms (pd : WcPathDescr) (p : Permissions) : WcPathDescr :=
  {| first_wc_or_glob := first_wc_or_glob pd; wc_path := wc_path pd;
     wc_is_prefix := wc_is_prefix pd; wildcards := wildcards pd; perms := Some p |}.

(** [bare_mount && i == path_parts.len() - 2]: the subtraction underflows on a
    path of one segment. *)
Definition at_mount_end (bare_mount : bool) (i len : nat) : result bool :=
  if negb bare_mount then Ok false
  else if (len <? 2)%nat then (if overflow_checks then Panic else Ok false)
  else Ok (i =? len - 2)%nat.

(** The loop over the segments of one rule. *)
Fixpoint scan_parts (bare_mount : bool) (path : string) (path_parts : list string)
    (permissions : Permissions) (total : nat) (i : nat) (pd : WcPathDescr) (segments : list string)
    (parts : list string) : result scan :=
  match parts with
  | [] => Ok (Keep (set_perms pd permissions))
  | acl_part :: parts =>
      match path_parts !! i with
      | None => Panic
      | Some pp =>
          let step (pd : WcPathDescr) (segments : list string) :=
            let? last := at_mount_end bare_mount i (length path_parts) in
            if last then
              let joined_path := join "/" segments ++ "/" in
              if starts_with path joined_path &&
                 negb (has_cap (capabilities_bitmap permissions) Capability.Deny) &&
                 (0 <? capabilities_bitmap permissions)%N
              then Ok (Found permissions) else Ok Skip
            else scan_parts bare_mount path path_parts permissions total (S i) pd segments parts in
          if String.eqb acl_part "+" then
            step (set_wildcards pd (S (wildcards pd))) (segments ++ [pp])%list
          else if String.eqb acl_part pp then step pd (segments ++ [pp])%list
          else if wc_is_prefix pd && (i =? total - 1)%nat && starts_with acl_part pp then
            step pd (segments ++ drop i path_parts)%list
          else if negb bare_mount then Ok Skip
          else step pd segments
      end
  end.

Definition plus : ascii := "+".

(** One iteration over [segment_wildcard_paths]. *)
Definition scan_rule (bare_mount : bool) (path : string) (path_parts : list string)
    (full_wc_path : string) (permissions : Permissions) : result scan :=
  if is_empty full_wc_path then Ok Skip
  else
    let first := match find_char plus full_wc_path with Some i => Z.of_nat i | None => (-1)%Z end in
    let prefix := ends_with_char "*" full_wc_path in
    let curr_wc_path := if prefix then drop_last full_wc_path else full_wc_path in
    let pd := {| first_wc_or_glob := first; wc_path := curr_wc_path; wc_is_prefix := prefix;
                 wildcards := 0; perms := None |} in
    let split_curr := split_char slash curr_wc_path in
    if negb bare_mount && (length path_parts <? length split_curr)%nat then Ok Skip
    else if negb bare_mount && negb prefix && negb (length split_curr =? length path_parts)%nat then
      Ok Skip
    else scan_parts bare_mount path path_parts permissions (length split_curr) 0 pd [] split_curr.

Fixpoint scan_rules (bare_mount : bool) (path : string) (path_parts : list string)
    (descrs : list WcPathDescr) (rules : list (string * Permissions))
  : result (Permissions + list WcPathDescr) :=
  match rules with
  | [] => Ok (inr descrs)
  | (full_wc_path, permissions) :: rules =>
      let? s := scan_rule bare_mount path path_parts full_wc_path permissions in
      match s with
      | Skip => scan_rules bare_mount path path_parts descrs rules
      | Found p => Ok (inl p)
      | Keep pd => scan_rules bare_mount path path_parts (descrs ++ [pd])%list rules
      end
  end.

(** The prefix rule that applies, as a candidate. *)
Definition prefix_descr (prefix : string) (p : Permissions) : WcPathDescr :=
  {| first_wc_or_glob := Z.of_nat (String.length prefix); wc_path := prefix; wc_is_prefix := true;
     wildcards := 0; perms := Some p |}.

Definition get_none_exact_paths_permissions (self : ACL T) (path : string) (bare_mount : bool)
  : result (option Permissions) :=
  let item := trie_get_ancestor path (prefix_rules self) in
  if bool_decide (segment_wildcard_paths self = ∅) then Ok (snd <$> item)
  else
    let descrs := match item with Some (k, p) => [prefix_descr k p] | None => [] end in
    let path_parts := split_char slash path in
    let? r := scan_rules bare_mount path path_parts descrs (map_to_list (segment_wildcard_paths self)) in
    match r with
    | inl p => Ok (Some p)
    | inr descrs =>
        if bare_mount then Ok None
        else Ok (List.last (map Some (merge_sort wc_le descrs)) None ≫= perms)
    end.

Definition root_results : ACLResults :=
  {| acl_allowed := true; root_privs := true; is_root := true; acl_capabilities_bitmap := 0;
     acl_granting_policies :=
       [{| pi_name := "root"; namespace_id := "root"; namespace_path := ""; policy_type := "acl" |}] |}.

Definition help_results : ACLResults :=
  {| acl_allowed := true; root_privs := false; is_root := false; acl_capabilities_bitmap := 0;
     acl_granting_policies := [] |}.

Definition allow_operation (self : ACL T) (req : Request) (check_only : bool) : result ACLResults :=
  if root self then Ok root_results
  else if bool_decide (operation req = Help) then Ok help_results
  else
    let path := ensure_no_leading_slash (path req) in
    match trie_get path (exact_rules self) with
    | Some perm => Ok (PermissionsOps.check perm req check_only)
    | None =>
        match (if bool_decide (operation req = List)
               then trie_get (trim_end_matches is_slash path) (exact_rules self) else None) with
        | Some perm => Ok (PermissionsOps.check perm req check_only)
        | None =>
            let? perm := get_none_exact_paths_permissions self path false in
            match perm with
            | Some perm => Ok (PermissionsOps.check perm req check_only)
            | None => Ok default_results
            end
        end
    end.

End acl.
End Acl.
