(* ===== verification/AclCorrect.v ===== *)
(** * Correctness of access control lists (theorems about
    src/src/modules/policy/acl.rs)

    The order on candidate rules is total, the scan of the wildcard rules
    selects the rules that match segment by segment, the bits of a rule slot
    are the union of its rules unless one denies, and an allowed request is
    covered by a rule that grants it. *)

From stdpp Require Import base tactics list gmap strings sorting.
From Stdlib Require Import ZArith Lia Ascii.
From S2P Require Import Prelude Errors RustStr Utils Logical Router Policy AclModel.
Import StringUtils.

Local Open Scope string_scope.

(** ** Lexicographic comparisons *)

Class GoodCmp {A} (cmp : A -> A -> comparison) : Prop := {
  cmp_opp a b : cmp b a = CompOpp (cmp a b);
  cmp_lt_trans a b c : cmp a b = Lt → cmp b c = Lt → cmp a c = Lt;
  cmp_eq_l a b c : cmp a b = Eq → cmp a c = cmp b c
}.

#[global] Instance Z_good : GoodCmp Z.compare.
Proof.
  split; intros *.
  - apply Z.compare_antisym.
  - rewrite !Z.compare_lt_iff. lia.
  - by intros ->%Z.compare_eq.
Qed.

#[global] Instance nat_good : GoodCmp Nat.compare.
Proof.
  split; intros *.
  - apply Nat.compare_antisym.
  - rewrite !Nat.compare_lt_iff. lia.
  - by intros ->%Nat.compare_eq.
Qed.

Lemma then_good {A} (c d : A -> A -> comparison) :
  GoodCmp c → GoodCmp d → GoodCmp (λ x y, then_with (c x y) (d x y)).
Proof.
  intros Hc Hd. split.
  - intros x y. rewrite (cmp_opp (cmp := c) x y), (cmp_opp (cmp := d) x y). by destruct (c x y).
  - intros x y z. unfold then_with. destruct (c x y) eqn:E1, (c y z) eqn:E2; try done.
    + rewrite (cmp_eq_l x y z E1), E2. apply cmp_lt_trans.
    + by rewrite (cmp_eq_l x y z E1), E2.
    + intros _ _. assert (c y z = Eq) as E3 by done.
      assert (c z y = Eq) as E4 by (by rewrite (cmp_opp (cmp := c) y z), E3).
      assert (c z x = c y x) as E5 by (by apply cmp_eq_l).
      rewrite (cmp_opp (cmp := c) z x), E5, (cmp_opp (cmp := c) x y), E1. done.
    + by rewrite (cmp_lt_trans x y z E1 E2).
  - intros x y z. unfold then_with. destruct (c x y) eqn:E1; try done. intros E2.
    rewrite (cmp_eq_l x y z E1). destruct (c y z); [by apply cmp_eq_l|done..].
Qed.

Lemma proj_good {A B} (f : A -> B) (c : B -> B -> comparison) :
  GoodCmp c → GoodCmp (λ x y, c (f x) (f y)).
Proof. intros Hc. split; intros *; [apply cmp_opp|apply cmp_lt_trans|apply cmp_eq_l]. Qed.

Lemma flip_good {A} (c : A -> A -> comparison) : GoodCmp c → GoodCmp (λ x y, c y x).
Proof.
  intros Hc. split; intros *.
  - apply cmp_opp.
  - intros H1 H2. by eapply cmp_lt_trans.
  - intros H. rewrite (cmp_opp (cmp := c) a c0), (cmp_opp (cmp := c) b c0). f_equal.
    apply cmp_eq_l. by rewrite (cmp_opp (cmp := c) b a), H.
Qed.

#[global] Instance string_good : GoodCmp String.compare.
Proof.
  split.
  - intros a b. apply String.compare_antisym.
  - intros a b c Hab Hbc. assert (String.le a c) as Hac.
    { transitivity b; unfold String.le, String.leb; by rewrite ?Hab, ?Hbc. }
    unfold String.le, String.leb in Hac. destruct (String.compare a c) eqn:E; [|done|done].
    apply String.compare_eq_iff in E as ->. rewrite String.compare_antisym, Hab in Hbc. done.
  - by intros a b c ->%String.compare_eq_iff.
Qed.

#[global] Instance wc_good : GoodCmp wc_cmp.
Proof.
  unfold wc_cmp, bool_compare.
  repeat apply then_good.
  - apply (proj_good first_wc_or_glob), _.
  - apply (flip_good (λ x y, Nat.compare (Nat.b2n (wc_is_prefix x)) (Nat.b2n (wc_is_prefix y)))).
    apply (proj_good (λ x, Nat.b2n (wc_is_prefix x))), _.
  - apply (flip_good (λ x y, Nat.compare (wildcards x) (wildcards y))), (proj_good wildcards), _.
  - apply (proj_good (λ x, String.length (wc_path x))), _.
  - apply (proj_good wc_path), _.
Qed.

#[global] Instance wc_le_trans : Transitive wc_le.
Proof.
  intros a b c. unfold wc_le. destruct (wc_cmp a b) eqn:E1; [|destruct (wc_cmp b c) eqn:E2|done].
  - by rewrite (cmp_eq_l a b c E1).
  - intros _ _. assert (wc_cmp c a = wc_cmp b a) as E3.
    { apply cmp_eq_l. by rewrite (cmp_opp (cmp := wc_cmp) b c), E2. }
    rewrite (cmp_opp (cmp := wc_cmp) c a), E3, (cmp_opp (cmp := wc_cmp) a b), E1. done.
  - by rewrite (cmp_lt_trans a b c E1 E2).
  - done.
Qed.

#[global] Instance wc_le_total : Total wc_le.
Proof. intros a b. unfold wc_le. rewrite (cmp_opp (cmp := wc_cmp) a b). destruct (wc_cmp a b); auto. Qed.

(** Which of two rules for a path is the more specific one, criterion by
    criterion: the first [+] or the final [*] stands further right; it does not
    end in [*]; it has fewer [+] segments; it is longer; it is later in the
    alphabet. *)
Inductive more_specific (a b : WcPathDescr) : Prop :=
  | wildcard_later :
      (first_wc_or_glob b < first_wc_or_glob a)%Z -> more_specific a b
  | no_glob :
      first_wc_or_glob a = first_wc_or_glob b ->
      wc_is_prefix a = false -> wc_is_prefix b = true -> more_specific a b
  | fewer_wildcards :
      first_wc_or_glob a = first_wc_or_glob b -> wc_is_prefix a = wc_is_prefix b ->
      (wildcards a < wildcards b)%nat -> more_specific a b
  | longer_path :
      first_wc_or_glob a = first_wc_or_glob b -> wc_is_prefix a = wc_is_prefix b -> wildcards a = wildcards b ->
      (String.length (wc_path b) < String.length (wc_path a))%nat -> more_specific a b
  | later_path :
      first_wc_or_glob a = first_wc_or_glob b -> wc_is_prefix a = wc_is_prefix b -> wildcards a = wildcards b ->
      String.length (wc_path a) = String.length (wc_path b) ->
      String.ltb (wc_path b) (wc_path a) = true -> more_specific a b.

(** Descriptors of the same rule. *)
Definition same_rule (a b : WcPathDescr) : Prop :=
  first_wc_or_glob a = first_wc_or_glob b ∧ wc_is_prefix a = wc_is_prefix b ∧ wildcards a = wildcards b ∧
  wc_path a = wc_path b.

Lemma wc_le_specific a b : wc_le a b → same_rule a b ∨ more_specific b a.
Proof.
  unfold wc_le, wc_cmp, then_with, bool_compare.
  destruct (Z.compare_spec (first_wc_or_glob a) (first_wc_or_glob b)) as [E1|E1|E1]; [|right; by apply wildcard_later|done].
  destruct (wc_is_prefix a) eqn:Ea, (wc_is_prefix b) eqn:Eb; simpl; try done.
  2: { intros _. right. by apply no_glob. }
  all: destruct (Nat.compare_spec (wildcards b) (wildcards a)) as [E2|E2|E2]; [|right; apply fewer_wildcards; congruence|done].
  all: destruct (Nat.compare_spec (String.length (wc_path a)) (String.length (wc_path b))) as [E3|E3|E3];
    [|right; apply longer_path; congruence|done].
  all: destruct (String.compare (wc_path a) (wc_path b)) eqn:E4; [| |done]; intros _.
  1,3: left; apply String.compare_eq_iff in E4; split_and!; congruence.
  all: right; apply later_path; try congruence; unfold String.ltb; by rewrite E4.
Qed.

(** The last element after sorting is a greatest one. *)
Lemma last_sorted_max (l : list WcPathDescr) :
  match List.last (map Some (merge_sort wc_le l)) None with
  | None => l = []
  | Some pd => pd ∈ l ∧ ∀ pd', pd' ∈ l → wc_le pd' pd
  end.
Proof.
  pose proof (merge_sort_Permutation wc_le l) as Hp.
  pose proof (StronglySorted_merge_sort wc_le l) as Hs.
  destruct (list_eq_nil_or_snoc (merge_sort wc_le l)) as [E|(l' & x & E)]; rewrite E in *.
  - by apply Permutation_nil_l in Hp.
  - rewrite map_app. cbn [map]. rewrite last_last. split.
    + rewrite <- Hp. apply elem_of_app. right. apply list_elem_of_here.
    + intros y. rewrite <- Hp. intros [Hy|Hy]%elem_of_app.
      * rewrite StronglySorted_app in Hs. destruct Hs as (H & _ & _). apply H; [done|].
        apply list_elem_of_here.
      * apply list_elem_of_singleton in Hy as ->.
        destruct (wc_le_total x x); done.
Qed.

(** ** Matching of wildcard rules *)

(** The reference: a rule's segments against a path's, [+] for any segment; the
    last segment of a rule ending in a star may be a prefix. *)
Fixpoint parts_match (prefix : bool) (parts pps : list string) : bool :=
  match parts, pps with
  | [], _ => true
  | _ :: _, [] => false
  | a :: parts, p :: pps =>
      (String.eqb a "+" || String.eqb a p ||
       (prefix && match parts with [] => true | _ => false end && starts_with a p))
      && parts_match prefix parts pps
  end.

Definition wc_rule_matches (full path : string) : bool :=
  let prefix := ends_with_char "*" full in
  let parts := split_char slash (if prefix then drop_last full else full) in
  let pps := split_char slash path in
  negb (is_empty full) &&
  (if prefix then (length parts <=? length pps)%nat else (length parts =? length pps)%nat) &&
  parts_match prefix parts pps.

Definition count_plus (parts : list string) : nat := length (List.filter (String.eqb "+") parts).

(** The candidate a matching rule gives. *)
Definition wc_descr (full : string) (p : Permissions) : WcPathDescr :=
  let prefix := ends_with_char "*" full in
  let curr := if prefix then drop_last full else full in
  {| first_wc_or_glob := match find_char Acl.plus full with Some i => Z.of_nat i | None => (-1)%Z end;
     wc_path := curr; wc_is_prefix := prefix;
     wildcards := count_plus (split_char slash curr); perms := Some p |}.

Section scan.
Context `{HP : Profile}.
Import Acl.

Lemma scan_parts_match path pps p total i pd segs parts :
  (i + length parts = total)%nat → (total <= length pps)%nat →
  scan_parts false path pps p total i pd segs parts =
  Ok (if parts_match (wc_is_prefix pd) parts (drop i pps)
      then Keep (set_perms (set_wildcards pd (wildcards pd + count_plus parts)) p) else Skip).
Proof.
  revert i pd segs. induction parts as [|a parts IH]; intros i pd segs Hi Hlen; simpl.
  - rewrite Nat.add_0_r. by destruct pd.
  - destruct (lookup_lt_is_Some_2 pps i) as [pp Hpp]; [simpl in Hi; lia|].
    rewrite Hpp, (drop_S pps pp i Hpp).
    assert ((i =? total - 1)%nat = match parts with [] => true | _ => false end) as ->.
    { simpl in Hi. destruct parts; simpl in *; [apply Nat.eqb_eq|apply Nat.eqb_neq]; lia. }
    assert (∀ pd' segs', scan_parts false path pps p total (S i) pd' segs' parts =
      Ok (if parts_match (wc_is_prefix pd') parts (drop (S i) pps)
          then Keep (set_perms (set_wildcards pd' (wildcards pd' + count_plus parts)) p) else Skip)) as Hstep.
    { intros pd' segs'. apply IH; [simpl in Hi; lia|done]. }
    unfold count_plus in *. cbn [List.filter]. rewrite (String.eqb_sym a "+").
    destruct (String.eqb "+" a) eqn:Ea; cbn [orb andb negb].
    + rewrite Hstep. simpl. rewrite Nat.add_succ_r. done.
    + destruct (String.eqb a pp) eqn:Eap; cbn [orb andb]; [by rewrite Hstep|].
      destruct (wc_is_prefix pd && _ && starts_with a pp) eqn:Ep; [|done]. by rewrite Hstep.
Qed.

Lemma scan_rule_match path full p :
  scan_rule false path (split_char slash path) full p =
  Ok (if wc_rule_matches full path then Keep (wc_descr full p) else Skip).
Proof.
  unfold scan_rule, wc_rule_matches, wc_descr. destruct (is_empty full); simpl; [done|].
  set (curr := if ends_with_char "*" full then drop_last full else full).
  set (parts := split_char slash curr). set (pps := split_char slash path).
  destruct (Nat.ltb_spec (length pps) (length parts)) as [Hlt|Hge].
  - assert ((if ends_with_char "*" full then (length parts <=? length pps)%nat
             else (length parts =? length pps)%nat) = false) as ->; [|done].
    destruct (ends_with_char "*" full); [apply Nat.leb_gt|apply Nat.eqb_neq]; lia.
  - rewrite (proj2 (Nat.leb_le _ _)) by done.
    destruct (ends_with_char "*" full) eqn:Es; simpl.
    + by rewrite scan_parts_match.
    + destruct (Nat.eqb_spec (length parts) (length pps)); simpl; [|done]. by rewrite scan_parts_match.
Qed.

Lemma scan_rules_match path descrs rules :
  scan_rules false path (split_char slash path) descrs rules =
  Ok (inr (descrs ++ map (λ '(f, p), wc_descr f p)
                         (List.filter (λ fp, wc_rule_matches (fst fp) path) rules))%list).
Proof.
  revert descrs. induction rules as [|[full p] rules IH]; intros descrs; simpl.
  - by rewrite app_nil_r.
  - rewrite scan_rule_match. destruct (wc_rule_matches full path); rewrite IH; [|done].
    by rewrite <- app_assoc.
Qed.

End scan.

(** ** The most specific rule *)
Section best.
Context {T : Type -> Type} `{HT : RadixTrie T} `{HTL : !RadixTrieLaws T} `{HP : Profile}.
Import Acl.

(** The candidates for a path: its longest prefix rule and the wildcard rules
    that match. *)
Definition candidate (self : ACL T) (path : string) (pd : WcPathDescr) : Prop :=
  (∃ k p, longest_prefix (trie_map (prefix_rules self)) path k p ∧ pd = prefix_descr k p) ∨
  (∃ full p, segment_wildcard_paths self !! full = Some p ∧ wc_rule_matches full path = true ∧
             pd = wc_descr full p).

Lemma none_exact_best (self : ACL T) path :
  ∃ r, get_none_exact_paths_permissions self path false = Ok r ∧
    match r with
    | None => ∀ pd, ¬ candidate self path pd
    | Some p => ∃ pd, candidate self path pd ∧ perms pd = Some p ∧
                      ∀ pd', candidate self path pd' → wc_le pd' pd
    end.
Proof.
  unfold get_none_exact_paths_permissions.
  set (item := trie_get_ancestor path (prefix_rules self)).
  set (pre := match item with Some (k, p) => [prefix_descr k p] | None => [] end).
  set (wcs := map (λ '(f, p), wc_descr f p)
                (List.filter (λ fp, wc_rule_matches fp.1 path) (map_to_list (segment_wildcard_paths self)))).
  assert (∀ pd, pd ∈ pre ↔ ∃ k p, longest_prefix (trie_map (prefix_rules self)) path k p ∧ pd = prefix_descr k p) as Hpre.
  { intros pd. unfold pre. destruct item as [[k p]|] eqn:E; unfold item in E.
    - rewrite list_elem_of_singleton. apply get_ancestor_iff in E. split; [intros ->; eauto|].
      intros (k' & p' & Hl & ->). by destruct (longest_prefix_unique _ _ _ _ _ _ E Hl) as [-> ->].
    - split; [by intros ?%not_elem_of_nil|]. intros (k & p & Hl & _).
      apply get_ancestor_iff in Hl. congruence. }
  assert (∀ pd, pd ∈ wcs ↔ ∃ full p, segment_wildcard_paths self !! full = Some p ∧
            wc_rule_matches full path = true ∧ pd = wc_descr full p) as Hwcs.
  { intros pd. unfold wcs. rewrite list_elem_of_In, in_map_iff. setoid_rewrite filter_In.
    setoid_rewrite <- list_elem_of_In. split.
    - intros ([f p] & <- & Hin & Hm). apply elem_of_map_to_list in Hin. eauto.
    - intros (f & p & Hin & Hm & ->). exists (f, p). by rewrite elem_of_map_to_list. }
  assert (∀ pd, candidate self path pd ↔ pd ∈ (pre ++ wcs)%list) as Hcand.
  { intros pd. by rewrite elem_of_app, Hpre, Hwcs. }
  case_bool_decide as He.
  - assert (wcs = []) as Hnil by (unfold wcs; by rewrite He, map_to_list_empty).
    rewrite Hnil in Hcand. eexists. split; [done|]. unfold pre in Hcand.
    destruct item as [[k p]|]; simpl in *.
    + exists (prefix_descr k p). split_and!; [apply Hcand, list_elem_of_here|done|].
      intros pd' ->%Hcand%list_elem_of_singleton.
      destruct (wc_le_total (prefix_descr k p) (prefix_descr k p)); done.
    + by intros pd ?%Hcand%not_elem_of_nil.
  - rewrite scan_rules_match. fold wcs. pose proof (last_sorted_max (pre ++ wcs)%list) as Hlast.
    eexists. split; [done|]. destruct (List.last _ None) as [pd|]; simpl.
    + destruct Hlast as [Hin Hmax]. apply Hcand in Hin.
      assert (∃ p, perms pd = Some p) as [p Hp].
      { destruct Hin as [(?&?&_&->)|(?&?&_&_&->)]; simpl; eauto. }
      rewrite Hp. exists pd. split_and!; [done|done|]. intros pd' ?%Hcand. by apply Hmax.
    + rewrite Hlast in Hcand. by intros pd ?%Hcand%not_elem_of_nil.
Qed.

End best.

(** ** The permissions of a rule slot *)
Section slots.
Context {T : Type -> Type} `{HT : RadixTrie T} `{HTL : !RadixTrieLaws T} `{HP : Profile}.
Import Acl.

(** Two rules for the same entry of the ACL. *)
Definition same_slot (a b : PolicyPathRules) : bool :=
  Bool.eqb (has_segment_wildcards a) (has_segment_wildcards b) &&
  (has_segment_wildcards a || Bool.eqb (is_prefix a) (is_prefix b)) &&
  String.eqb (rule_path a) (rule_path b).

Lemma get_insert (acl : ACL T) pr pr' p :
  get_permissions (insert_permissions acl pr p) pr' =
  if same_slot pr pr' then Some p else get_permissions acl pr'.
Proof.
  unfold get_permissions, insert_permissions, same_slot.
  destruct (has_segment_wildcards pr), (has_segment_wildcards pr'), (is_prefix pr), (is_prefix pr');
    simpl; rewrite ?trie_get_spec, ?trie_map_insert; try done;
    destruct (String.eqb_spec (rule_path pr) (rule_path pr')) as [->|Hne];
    rewrite ?lookup_insert_eq, ?lookup_insert_ne by done; done.
Qed.

Lemma same_slot_get (acl : ACL T) a b :
  same_slot a b = true → get_permissions acl a = get_permissions acl b.
Proof.
  unfold same_slot, get_permissions. rewrite !andb_true_iff. intros [[H1 H2] ->%String.eqb_eq].
  apply eqb_prop in H1. rewrite H1 in *. destruct (has_segment_wildcards b); [done|].
  simpl in H2. by apply eqb_prop in H2 as ->.
Qed.

Lemma same_slot_refl a : same_slot a a = true.
Proof. unfold same_slot. rewrite !eqb_reflx, String.eqb_refl, orb_true_r. done. Qed.

Lemma same_slot_trans a b c : same_slot a b = true → same_slot b c = true → same_slot a c = true.
Proof.
  unfold same_slot. rewrite !andb_true_iff, !orb_true_iff.
  intros [[H1%eqb_prop H2] H3%String.eqb_eq] [[H4%eqb_prop H5] H6%String.eqb_eq].
  rewrite H1, H4 in *. rewrite H3, H6, eqb_reflx, String.eqb_refl. split_and!; [done| |done].
  destruct H2 as [H2|H2%eqb_prop]; [by left|]. by rewrite H2.
Qed.

Definition bits (acl : ACL T) (pr : PolicyPathRules) : option N :=
  capabilities_bitmap <$> get_permissions acl pr.

Definition rule_bits (pr : PolicyPathRules) : N := capabilities_bitmap (permissions pr).

(** Adding a rule's bits to those of its slot. *)
Definition combine (e : option N) (b : N) : N :=
  match e with
  | None => b
  | Some e =>
      if has_cap e Capability.Deny then e
      else if has_cap b Capability.Deny then Capability.to_bits Capability.Deny
      else N.lor e b
  end.

Lemma bits_add_rule name acl pr pr' :
  bits (add_rule name acl pr) pr' =
  if same_slot pr pr' then Some (combine (bits acl pr') (rule_bits pr)) else bits acl pr'.
Proof.
  unfold bits, add_rule. destruct (same_slot pr pr') eqn:Es.
  - rewrite (same_slot_get acl pr pr' Es).
    destruct (get_permissions acl pr') as [e|] eqn:Eg; cbn [fmap option_fmap option_map combine].
    + destruct (has_cap (capabilities_bitmap e) Capability.Deny) eqn:Ed; [by rewrite Eg|].
      rewrite get_insert, Es. simpl. unfold PermissionsOps.merge. rewrite Ed.
      unfold rule_bits. by destruct (has_cap (capabilities_bitmap (permissions pr)) _).
    + by rewrite get_insert, Es.
  - destruct (get_permissions acl pr); [|by rewrite get_insert, Es].
    destruct (has_cap _ _); [done|]. by rewrite get_insert, Es.
Qed.

Lemma bits_add_rules name acl prs pr' :
  bits (fold_left (add_rule name) prs acl) pr' =
  fold_left (λ e pr, Some (combine e (rule_bits pr)))
            (List.filter (λ pr, same_slot pr pr') prs) (bits acl pr').
Proof.
  revert acl. induction prs as [|pr prs IH]; intros acl; simpl; [done|].
  rewrite IH, bits_add_rule. by destruct (same_slot pr pr').
Qed.

(** The rules a list of policies contributes, in order. *)
Definition acl_rules (policies : list Policy) : list PolicyPathRules :=
  flat_map (λ p, match policy_ty p with Acl => policy_paths p | _ => [] end) policies.

Lemma bits_new_loop count policies : ∀ acl acl' pr',
  new_loop count acl policies = Ok acl' →
  bits acl' pr' = fold_left (λ e pr, Some (combine e (rule_bits pr)))
                    (List.filter (λ pr, same_slot pr pr') (acl_rules policies)) (bits acl pr').
Proof.
  induction policies as [|p policies IH]; intros acl acl' pr'; simpl; [by intros [= <-]|].
  destruct (policy_ty p) eqn:Ety; simpl; try done.
  - destruct (String.eqb _ _ && _); [done|]. intros H%(IH _ _ pr').
    rewrite H, bits_add_rules, List.filter_app, fold_left_app. f_equal.
    by destruct (String.eqb (policy_name p) "root").
  - intros H%(IH _ _ pr'). by rewrite H.
Qed.

Lemma root_add_rules name prs (acl : ACL T) : root (fold_left (add_rule name) prs acl) = root acl.
Proof.
  revert acl. induction prs as [|pr prs IH]; intros acl; simpl; [done|]. rewrite IH.
  unfold add_rule, insert_permissions.
  destruct (get_permissions acl pr), (has_segment_wildcards pr), (is_prefix pr);
    try destruct (has_cap _ _); done.
Qed.

Lemma root_new_loop count policies (acl acl' : ACL T) :
  new_loop count acl policies = Ok acl' →
  root acl' = true ↔ root acl = true ∨
    (count = 1 ∧ ∃ p, p ∈ policies ∧ policy_ty p = Acl ∧ policy_name p = "root").
Proof.
  revert acl. induction policies as [|p policies IH]; intros acl; simpl.
  - intros [= <-]. split; [auto|]. intros [|[_ (q & Hq%not_elem_of_nil & _)]]; done.
  - assert (policy_ty p ≠ Acl ∨ policy_name p ≠ "root" →
            (∃ q, q ∈ p :: policies ∧ policy_ty q = Acl ∧ policy_name q = "root") ↔
            (∃ q, q ∈ policies ∧ policy_ty q = Acl ∧ policy_name q = "root")) as Hskip.
    { intros Hd. split; intros (q & Hq & Ht & Hn); exists q; (split; [|done]).
      - apply elem_of_cons in Hq as [->|Hq]; [|done]. destruct Hd; congruence.
      - by apply list_elem_of_further. }
    destruct (policy_ty p) eqn:Ety; try done.
    + destruct (String.eqb_spec (policy_name p) "root") as [En|En]; simpl.
      * destruct (Nat.eqb_spec count 1) as [->|]; simpl; [|done].
        intros H%IH. rewrite H, root_add_rules. simpl. split; [|auto]. intros _. right.
        split; [done|]. exists p. split; [apply list_elem_of_here|auto].
      * intros H%IH. by rewrite H, root_add_rules, (Hskip (or_intror En)).
    + intros H%IH. by rewrite H, Hskip by (by left).
Qed.

(** With normal rules, the bits of a slot are the union of its rules' bits, or
    [deny] alone. *)
Definition slot_bits (rs : list PolicyPathRules) : option N :=
  match rs with
  | [] => None
  | _ => Some (if existsb (λ r, has_cap (rule_bits r) Capability.Deny) rs
               then Capability.to_bits Capability.Deny
               else fold_left (λ acc r, N.lor acc (rule_bits r)) rs 0%N)
  end.

Lemma has_cap_union rs acc c :
  has_cap (fold_left (λ acc r, N.lor acc (rule_bits r)) rs acc) c =
  has_cap acc c || existsb (λ r, has_cap (rule_bits r) c) rs.
Proof.
  revert acc. induction rs as [|r rs IH]; intros acc; simpl; [by rewrite orb_false_r|].
  by rewrite IH, has_cap_lor, orb_assoc.
Qed.

Lemma slot_bits_snoc rs r :
  normal (permissions r) → slot_bits (rs ++ [r])%list = Some (combine (slot_bits rs) (rule_bits r)).
Proof.
  intros Hr. destruct rs as [|y rs].
  - simpl. rewrite orb_false_r. destruct (has_cap (rule_bits r) Capability.Deny) eqn:Ed; [|done].
    f_equal. symmetry. by apply Hr.
  - change ((y :: rs) ++ [r])%list with (y :: (rs ++ [r]))%list. unfold slot_bits, combine.
    change (y :: (rs ++ [r]))%list with ((y :: rs) ++ [r])%list. f_equal.
    rewrite existsb_app, fold_left_app.
    pose proof (has_cap_union (y :: rs) 0%N Capability.Deny) as Hf.
    set (ex := existsb _ (y :: rs)) in *. set (un := fold_left _ (y :: rs) 0%N) in *.
    cbn [existsb fold_left]. rewrite orb_false_r.
    destruct ex; cbn [orb]; [by rewrite has_cap_single|].
    rewrite Hf. by destruct (has_cap (rule_bits r) Capability.Deny).
Qed.

Lemma slot_bits_fold rs :
  (∀ r, r ∈ rs → normal (permissions r)) →
  fold_left (λ e pr, Some (combine e (rule_bits pr))) rs None = slot_bits rs.
Proof.
  induction rs as [|r rs IH] using rev_ind; intros H; [done|].
  rewrite fold_left_app. simpl. rewrite IH, slot_bits_snoc; [done|apply H|intros; apply H];
    apply elem_of_app; [right; apply list_elem_of_here|by left].
Qed.

Lemma bits_empty pr : bits empty pr = None.
Proof.
  unfold bits, get_permissions, empty. simpl. destruct (has_segment_wildcards pr); [done|].
  rewrite trie_get_spec. destruct (is_prefix pr); by rewrite trie_map_new.
Qed.

Lemma bits_new policies acl pr :
  Acl.new policies = Ok acl → (∀ r, r ∈ acl_rules policies → normal (permissions r)) →
  bits acl pr = slot_bits (List.filter (λ r, same_slot r pr) (acl_rules policies)).
Proof.
  intros H Hn. rewrite (bits_new_loop _ _ _ _ pr H), bits_empty. apply slot_bits_fold.
  intros r Hr. apply Hn. apply list_elem_of_In in Hr. apply filter_In in Hr as [Hr _].
  by apply list_elem_of_In.
Qed.

(** *** Rules behind a granted capability *)

Lemma deny_grants_nothing o : ¬ cap_granted (Capability.to_bits Capability.Deny) o.
Proof.
  intros (cap & Hc & H). rewrite !has_cap_single, !bool_decide_eq_true in H.
  destruct H as [<-|[_ ?]]; [by destruct o|done].
Qed.

Lemma slot_sound policies acl pr bm o :
  Acl.new policies = Ok acl → (∀ r, r ∈ acl_rules policies → normal (permissions r)) →
  bits acl pr = Some bm → cap_granted bm o →
  ∃ r, r ∈ acl_rules policies ∧ same_slot r pr = true ∧ cap_granted (rule_bits r) o ∧
       ∀ r', r' ∈ acl_rules policies → same_slot r' pr = true →
             has_cap (rule_bits r') Capability.Deny = false.
Proof.
  intros Hnew Hn Hb Hg. rewrite (bits_new policies acl pr Hnew Hn) in Hb.
  set (rs := List.filter (λ r, same_slot r pr) (acl_rules policies)) in *.
  assert (∀ r, r ∈ rs ↔ r ∈ acl_rules policies ∧ same_slot r pr = true) as Hrs.
  { intros r. unfold rs. by rewrite !list_elem_of_In, filter_In. }
  unfold slot_bits in Hb. destruct rs as [|x rs'] eqn:E; [done|]. rewrite <- E in *.
  injection Hb as Hb. destruct (existsb _ rs) eqn:Ex; [by subst bm; apply deny_grants_nothing in Hg|].
  assert (∀ c, has_cap bm c = true → ∃ r, r ∈ rs ∧ has_cap (rule_bits r) c = true) as Hc.
  { intros c. rewrite <- Hb, has_cap_union. simpl. rewrite existsb_exists.
    setoid_rewrite <- list_elem_of_In. done. }
  destruct Hg as (cap & Hcap & H).
  assert (∃ r, r ∈ rs ∧ cap_granted (rule_bits r) o) as (r & Hr & Hg).
  { destruct H as [(r & Hr & Hh)%Hc|[-> (r & Hr & Hh)%Hc]]; exists r; split; try done;
      exists cap; split; auto. }
  exists r. apply Hrs in Hr as [? ?]. split_and!; [done..|]. intros r' Hr' Hs.
  apply not_true_is_false. intros Hd. rewrite (proj2 (existsb_exists _ _)) in Ex; [done|].
  exists r'. split; [|done]. apply list_elem_of_In, Hrs. done.
Qed.

(** A rule of a given kind, to name a slot. *)
Definition slot_rule (wc pre : bool) (p : string) : PolicyPathRules :=
  {| rule_path := p;
     permissions := {| capabilities_bitmap := 0; min_wrapping_ttl := 0; max_wrapping_ttl := 0;
                       allowed_parameters := ∅; denied_parameters := ∅; required_parameters := [];
                       granting_policies_map := ∅ |};
     capabilities := []; is_prefix := pre; has_segment_wildcards := wc;
     rule_min_wrapping_ttl := 0; rule_max_wrapping_ttl := 0 |}.

(** The paths a rule is for. *)
Definition rule_covers (pr : PolicyPathRules) (path : string) (o : Operation) : Prop :=
  if has_segment_wildcards pr then wc_rule_matches (rule_path pr) path = true
  else if is_prefix pr then starts_with (rule_path pr) path = true
  else rule_path pr = path ∨ (o = List ∧ rule_path pr = trim_end_matches is_slash path).

Lemma slot_covers r wc pre p path o :
  same_slot r (slot_rule wc pre p) = true →
  rule_covers (slot_rule wc pre p) path o → rule_covers r path o.
Proof.
  unfold same_slot, rule_covers. simpl. rewrite !andb_true_iff.
  intros [[H1 H2] ->%String.eqb_eq]. apply eqb_prop in H1. rewrite H1 in *. destruct wc; [done|].
  simpl in H2. by apply eqb_prop in H2 as ->.
Qed.

Lemma check_allowed_granted p req co :
  acl_allowed (PermissionsOps.check p req co) = true →
  cap_granted (capabilities_bitmap p) (operation req).
Proof. by intros (_ & ? & _)%check_allowed_spec. Qed.

(** The slots [allow_operation] reads. *)
Lemma exact_slot (acl : ACL T) p perm :
  trie_get p (exact_rules acl) = Some perm →
  bits acl (slot_rule false false p) = Some (capabilities_bitmap perm).
Proof. intros H. unfold bits, get_permissions. simpl. by rewrite H. Qed.

Lemma candidate_slot (acl : ACL T) path pd p o :
  candidate acl path pd → perms pd = Some p →
  ∃ wc pre k, bits acl (slot_rule wc pre k) = Some (capabilities_bitmap p) ∧
              rule_covers (slot_rule wc pre k) path o.
Proof.
  intros [(k & q & (Hk & Hs & _) & ->)|(full & q & Hf & Hm & ->)] [= <-].
  - exists false, true, k. unfold bits, get_permissions. simpl. by rewrite trie_get_spec, Hk.
  - exists true, false, full. unfold bits, get_permissions. simpl. by rewrite Hf.
Qed.

(** The rule a request is checked against. *)
Lemma allow_operation_checks (acl : ACL T) req co :
  root acl = false → operation req ≠ Help →
  (∃ p wc pre k, allow_operation acl req co = Ok (PermissionsOps.check p req co) ∧
     bits acl (slot_rule wc pre k) = Some (capabilities_bitmap p) ∧
     rule_covers (slot_rule wc pre k) (ensure_no_leading_slash (path req)) (operation req)) ∨
  allow_operation acl req co = Ok default_results.
Proof.
  intros Hr Ho. unfold allow_operation. rewrite Hr, bool_decide_false by done.
  set (path := ensure_no_leading_slash (path req)).
  destruct (trie_get path (exact_rules acl)) as [p|] eqn:E1.
  { left. exists p, false, false, path. split_and!; [done|by apply exact_slot|by left]. }
  destruct (if bool_decide _ then _ else _) as [p|] eqn:E2.
  { left. case_bool_decide as Hl; [|done]. exists p, false, false, (trim_end_matches is_slash path).
    split_and!; [done|by apply exact_slot|right; by split]. }
  destruct (none_exact_best acl path) as (r & -> & Hbest). destruct r as [p|]; [|by right]. left.
  destruct Hbest as (pd & Hc & Hp & _).
  destruct (candidate_slot acl path pd p (operation req) Hc Hp) as (wc & pre & k & ? & ?).
  exists p, wc, pre, k. done.
Qed.

End slots.

(** ** Properties *)
Section properties.
Context {T : Type -> Type} `{HT : RadixTrie T} `{HTL : !RadixTrieLaws T} `{HP : Profile}.
Import Acl.

(** C21: no access without a grant.  For a token without the root policy,
    [allow_operation] always answers, and it allows a request (other than help)
    only when a rule of one of the token's ACL policies covers the path and
    grants the capability the operation needs, and no rule for the same entry
    denies. *)
Theorem allow_operation_sound (policies : list Policy) (acl : ACL T) (req : Request) (co : bool) :
  Acl.new policies = Ok acl → (∀ r, r ∈ acl_rules policies → normal (permissions r)) →
  root acl = false → operation req ≠ Help →
  ∃ res, allow_operation acl req co = Ok res ∧
    (acl_allowed res = true →
     ∃ r, r ∈ acl_rules policies ∧
          rule_covers r (ensure_no_leading_slash (path req)) (operation req) ∧
          cap_granted (rule_bits r) (operation req) ∧
          ∀ r', r' ∈ acl_rules policies → same_slot r' r = true →
                has_cap (rule_bits r') Capability.Deny = false).
Proof.
  intros Hnew Hn Hr Ho.
  destruct (allow_operation_checks acl req co Hr Ho) as [(p & wc & pre & k & -> & Hb & Hcov)| ->];
    eexists; (split; [done|]); [|done].
  intros Hg%check_allowed_granted.
  destruct (slot_sound policies acl _ _ _ Hnew Hn Hb Hg) as (r & Hr' & Hs & Hcap & Hd).
  exists r. split_and!; [done|by eapply slot_covers|done|]. intros r' Hin Hs'. apply Hd; [done|].
  by eapply same_slot_trans.
Qed.

(** An explicit deny wins.  When a rule for exactly the requested path
    denies, the request is refused whatever the other rules and policies
    grant. *)
Theorem exact_deny_wins (policies : list Policy) (acl : ACL T) (req : Request) (co : bool)
    (pr : PolicyPathRules) :
  Acl.new policies = Ok acl → (∀ r, r ∈ acl_rules policies → normal (permissions r)) →
  root acl = false → operation req ≠ Help →
  pr ∈ acl_rules policies → has_segment_wildcards pr = false → is_prefix pr = false →
  rule_path pr = ensure_no_leading_slash (path req) → has_cap (rule_bits pr) Capability.Deny = true →
  ∃ res, allow_operation acl req co = Ok res ∧ acl_allowed res = false.
Proof.
  intros Hnew Hn Hr Ho Hin Hw Hp Hpath Hd. unfold allow_operation.
  rewrite Hr, bool_decide_false by done. rewrite <- Hpath.
  assert (same_slot pr pr = true) as Hself by apply same_slot_refl.
  pose proof (bits_new policies acl pr Hnew Hn) as Hb.
  unfold bits, get_permissions in Hb. rewrite Hw, Hp in Hb.
  destruct (trie_get (rule_path pr) (exact_rules acl)) as [perm|] eqn:E.
  - eexists. split; [done|]. apply not_true_is_false. intros Hg%check_allowed_granted.
    destruct (slot_sound policies acl pr (capabilities_bitmap perm) (operation req) Hnew Hn)
      as (r & _ & _ & _ & Hno); [|done|].
    + unfold bits, get_permissions. by rewrite Hw, Hp, E.
    + by rewrite (Hno pr Hin Hself) in Hd.
  - exfalso. simpl in Hb. unfold slot_bits in Hb.
    assert (pr ∈ List.filter (λ r, same_slot r pr) (acl_rules policies)) as Hf.
    { apply list_elem_of_In, filter_In. split; [by apply list_elem_of_In|done]. }
    destruct (List.filter _ _); [by apply not_elem_of_nil in Hf|done].
Qed.

(** The entry of the ACL for a path holds the union of the capabilities that
    the token's policies give for that path, or [deny] alone as soon as one of
    them denies; it exists exactly when some policy has a rule for it. *)
Theorem acl_entry_is_union (policies : list Policy) (acl : ACL T) (pr : PolicyPathRules) :
  Acl.new policies = Ok acl → (∀ r, r ∈ acl_rules policies → normal (permissions r)) →
  capabilities_bitmap <$> get_permissions acl pr =
  slot_bits (List.filter (λ r, same_slot r pr) (acl_rules policies)).
Proof. apply bits_new. Qed.

(** C22: for a path without an exact rule (for a list request also without one
    for the path less its final slashes) the most specific candidate decides:
    among the longest prefix rule and the wildcard rules that match segment by
    segment, the one that is more specific than every other, by the position of
    the first wildcard, then by not ending in [*], fewer wildcards, a longer
    path, and the alphabet; without a candidate the request is refused. *)
Theorem most_specific_rule_decides (acl : ACL T) (req : Request) (co : bool) :
  root acl = false → operation req ≠ Help →
  trie_get (ensure_no_leading_slash (path req)) (exact_rules acl) = None →
  (operation req = List →
     trie_get (trim_end_matches is_slash (ensure_no_leading_slash (path req))) (exact_rules acl) = None) →
  (∃ pd p, candidate acl (ensure_no_leading_slash (path req)) pd ∧ perms pd = Some p ∧
     (∀ pd', candidate acl (ensure_no_leading_slash (path req)) pd' → same_rule pd' pd ∨ more_specific pd pd') ∧
     allow_operation acl req co = Ok (PermissionsOps.check p req co)) ∨
  ((∀ pd, ¬ candidate acl (ensure_no_leading_slash (path req)) pd) ∧
   allow_operation acl req co = Ok default_results).
Proof.
  intros Hr Ho He Hl. unfold allow_operation. rewrite Hr, (bool_decide_false (operation req = Help)), He by done.
  assert ((if bool_decide (operation req = List)
           then trie_get (trim_end_matches is_slash (ensure_no_leading_slash (path req))) (exact_rules acl)
           else None) = None) as -> by (case_bool_decide; auto).
  destruct (none_exact_best acl (ensure_no_leading_slash (path req))) as (r & -> & H).
  destruct r as [p|]; [left|by right]. destruct H as (pd & Hc & Hp & Hmax). exists pd, p.
  split_and!; [done..| |done]. intros pd' Hc'. by apply wc_le_specific, Hmax.
Qed.

(** Only a token whose single policy is the ACL policy named [root] gets a
    root ACL; together with other policies it is an error. *)
Theorem root_policy_exclusive (policies : list Policy) (acl : ACL T) :
  Acl.new policies = Ok acl →
  root acl = true ↔ ∃ p, policies = [p] ∧ policy_ty p = Acl ∧ policy_name p = "root".
Proof.
  intros H. unfold Acl.new in H. rewrite (root_new_loop _ _ _ _ H). simpl. split.
  - intros [?|[Hlen (p & Hp & Ht & Hnm)]]; [done|]. exists p.
    destruct policies as [|q [|]]; [done| |done]. by apply list_elem_of_singleton in Hp as ->.
  - intros (p & -> & Ht & Hnm). right. split; [done|]. exists p.
    split; [apply list_elem_of_here|done].
Qed.

End properties.

(** *** Witnesses: a policy with a prefix rule, a wildcard rule and a deny *)
Definition demo_policy : Policy :=
  {| policy_name := "dev";
     policy_paths := [PolicyOps.path_rules "secret/*" (demo_config Capability.Read);
                      PolicyOps.path_rules "secret/+/data" (demo_config Capability.Update);
                      PolicyOps.path_rules "secret/top" (demo_config Capability.Deny)];
     raw := ""; policy_ty := Acl; templated := false |}.
Definition demo_acl : ACL (gmap string) :=
  match Acl.new [demo_policy] with Ok a => a | _ => Acl.empty end.

Lemma demo_acl_new : Acl.new [demo_policy] = Ok demo_acl.
Proof. by vm_compute. Qed.

Lemma demo_normal r : r ∈ acl_rules [demo_policy] → normal (permissions r).
Proof.
  simpl. rewrite !elem_of_cons.
  intros [->|[->|[->|[]%not_elem_of_nil]]]; apply path_rules_normal.
Qed.

Lemma allow_operation_sound_witness :
  ∃ res, Acl.allow_operation (HP := true) demo_acl (RequestOps.new "secret/a") false = Ok res ∧
         (acl_allowed res = true → ∃ r, r ∈ acl_rules [demo_policy] ∧ cap_granted (rule_bits r) Read).
Proof.
  destruct (allow_operation_sound (HP := true) [demo_policy] demo_acl (RequestOps.new "secret/a") false
              demo_acl_new demo_normal) as (res & Hres & Hg); [by vm_compute|discriminate|].
  exists res. split; [exact Hres|]. intros (r & H1 & _ & H2 & _)%Hg. exists r. exact (conj H1 H2).
Defined.

Example demo_allows :
  acl_allowed <$> (match Acl.allow_operation (HP := true) demo_acl (RequestOps.new "secret/a") false with
                   | Ok r => Some r | _ => None end) = Some true.
Proof. by vm_compute. Qed.

Lemma exact_deny_wins_witness :
  ∃ res, Acl.allow_operation (HP := true) demo_acl (RequestOps.new "secret/top") false = Ok res ∧
         acl_allowed res = false.
Proof.
  apply (exact_deny_wins (HP := true) [demo_policy] demo_acl (RequestOps.new "secret/top") false
           (PolicyOps.path_rules "secret/top" (demo_config Capability.Deny)) demo_acl_new demo_normal);
    [by vm_compute|discriminate| |by vm_compute..].
  apply list_elem_of_further, list_elem_of_further, list_elem_of_here.
Defined.

Lemma acl_entry_is_union_witness :
  capabilities_bitmap <$> Acl.get_permissions demo_acl
    (PolicyOps.path_rules "secret/*" (demo_config Capability.Read)) = Some 4%N.
Proof.
  rewrite (acl_entry_is_union [demo_policy] demo_acl _ demo_acl_new demo_normal). by vm_compute.
Defined.

Lemma most_specific_rule_decides_witness :
  (∃ p, Acl.allow_operation (HP := true) demo_acl (RequestOps.new "secret/a/data") false =
        Ok (PermissionsOps.check p (RequestOps.new "secret/a/data") false)) ∨
  Acl.allow_operation (HP := true) demo_acl (RequestOps.new "secret/a/data") false = Ok default_results.
Proof.
  destruct (most_specific_rule_decides (HP := true) demo_acl (RequestOps.new "secret/a/data") false)
    as [(pd & p & _ & _ & _ & H)|[_ H]]; [by vm_compute|discriminate|by vm_compute|discriminate|..].
  - left. exists p. exact H.
  - right. exact H.
Defined.

Lemma root_policy_exclusive_witness : root demo_acl ≠ true.
Proof.
  intros (p & Hp & _ & Hn)%(root_policy_exclusive [demo_policy] demo_acl demo_acl_new).
  injection Hp as <-. discriminate.
Defined.
