(* ===== verification/Mount.v ===== *)
(** * The mount table and the core's state (src/src/mount.rs, and the state of
    src/src/core.rs)

    Mount entries are shared between the table and the router (an
    [Arc<RwLock<MountEntry>>]): they live in a heap, and both hold references.
    The [Core] record is the state of [struct Core] that the operations of
    mount.rs and core.rs read and change; [W] is the world the mounted backends
    act on. *)

From stdpp Require Import base tactics list gmap strings sorting.
From Stdlib Require Import ZArith Lia Ascii.
From S2P Require Import Prelude Errors RustStr Utils Storage BarrierView Logical LogicalBackend Router.

Local Open Scope string_scope.

Definition CORE_MOUNT_CONFIG_PATH : string := "core/mounts".
Definition LOGICAL_BARRIER_PREFIX : string := "logical/".
Definition SYSTEM_BARRIER_PREFIX : string := "sys/".
Definition MOUNT_TABLE_TYPE : string := "mounts".
Definition PROTECTED_MOUNTS : list string := ["audit/"; "auth/"; "sys/"].

Record MountEntry := {
  table : string;
  me_tainted : bool;
  uuid : string;
  me_path : string;
  logical_type : string;
  me_description : string;
  options : option (gmap string string);
  hmac : string
}.

Inductive MountEntryHMACLevel := HmacNone | Compat | High.

#[global] Instance MountEntryHMACLevel_eq_dec : EqDecision MountEntryHMACLevel.
Proof. solve_decision. Defined.

(** ** Other crates: OpenSSL's HMAC, hex, uuid *)

(** [hmac_sign] is the [Signer], [hmac_verify] the [Verifier]; [None] is an
    OpenSSL error. *)
Class HmacSha256 : Type := {
  hmac_sign : bytes -> bytes -> option bytes;
  hmac_verify : bytes -> bytes -> bytes -> option bool
}.
Class HexCodec : Type := hex_encode : bytes -> string.
Class HexDecode : Type := hex_decode : string -> option bytes.
(** The [i]-th generated UUID; the first three are those of the static default
    mounts. *)
Class UuidGen : Type := generate_uuid : nat -> string.

Definition str_bytes (s : string) : bytes := String.list_byte_of_string s.

Module MountEntryOps.
Section ops.
Context `{HH : HmacSha256} `{HX : HexCodec}.

Definition new (table path logical_type desc : string) : MountEntry :=
  {| table := table; me_tainted := false; uuid := ""; me_path := path; logical_type := logical_type;
     me_description := desc; options := None; hmac := "" |}.

Definition set_hmac (h : string) (e : MountEntry) : MountEntry :=
  {| table := table e; me_tainted := me_tainted e; uuid := uuid e; me_path := me_path e;
     logical_type := logical_type e; me_description := me_description e; options := options e;
     hmac := h |}.
Definition set_taint (b : bool) (e : MountEntry) : MountEntry :=
  {| table := table e; me_tainted := b; uuid := uuid e; me_path := me_path e;
     logical_type := logical_type e; me_description := me_description e; options := options e;
     hmac := hmac e |}.
Definition set_me_path (p : string) (e : MountEntry) : MountEntry :=
  {| table := table e; me_tainted := me_tainted e; uuid := uuid e; me_path := p;
     logical_type := logical_type e; me_description := me_description e; options := options e;
     hmac := hmac e |}.
Definition set_table (x : string) (e : MountEntry) : MountEntry :=
  {| table := x; me_tainted := me_tainted e; uuid := uuid e; me_path := me_path e;
     logical_type := logical_type e; me_description := me_description e; options := options e;
     hmac := hmac e |}.
Definition set_uuid (x : string) (e : MountEntry) : MountEntry :=
  {| table := table e; me_tainted := me_tainted e; uuid := x; me_path := me_path e;
     logical_type := logical_type e; me_description := me_description e; options := options e;
     hmac := hmac e |}.

(** The options in key order, as the [BTreeMap] lists them. *)
Definition sorted_options (m : gmap string string) : list (string * string) :=
  omap (λ k, (λ v, (k, v)) <$> m !! k) (sort_strings (map fst (map_to_list m))).

Definition get_hmac_msg (self : MountEntry) : string :=
  let msg := table self ++ "-" ++ me_path self ++ "-" ++ logical_type self ++ "-" ++
             me_description self in
  match options self with
  | None => msg
  | Some m => fold_left (λ msg '(k, v), msg ++ "-" ++ k ++ ":" ++ v) (sorted_options m) msg
  end.

Definition calc_hmac (key : bytes) (self : MountEntry) : result MountEntry :=
  match hmac_sign key (str_bytes (get_hmac_msg self)) with
  | Some h => Ok (set_hmac (hex_encode h) self)
  | None => Err OpenSSL
  end.

Definition verify_hmac (key : bytes) (self : MountEntry) : result bool :=
  of_option OpenSSL (hmac_verify key (str_bytes (get_hmac_msg self)) (str_bytes (hmac self))).

End ops.
End MountEntryOps.
Import MountEntryOps.

(** ** The core's state *)

(** The entries of the mount table by reference, and the entries themselves. *)
Record MountTable := { entries : gmap string nat; heap : gmap nat MountEntry; next_ref : nat }.

Record Core (B : Type) (T : Type -> Type) (W : Type) := {
  barrier : AESGCMBarrier.t B;
  system_view : option BarrierView.t;
  mounts : MountTable;
  router : T (RouterEntry T W);
  logical_backends : gmap string (result (DynBackend W));
  core_sealed : bool;
  unseal_key_shares : list bytes;
  hmac_key : bytes;
  mount_entry_hmac_level : MountEntryHMACLevel;
  uuids : nat
}.
Arguments barrier {B T W}.
Arguments system_view {B T W}.
Arguments mounts {B T W}.
Arguments router {B T W}.
Arguments logical_backends {B T W}.
Arguments core_sealed {B T W}.
Arguments unseal_key_shares {B T W}.
Arguments hmac_key {B T W}.
Arguments mount_entry_hmac_level {B T W}.
Arguments uuids {B T W}.

Section setters.
Context {B : Type} {T : Type -> Type} {W : Type}.
Definition set_barrier (x : AESGCMBarrier.t B) (c : Core B T W) : Core B T W :=
  {| barrier := x; system_view := system_view c; mounts := mounts c; router := router c;
     logical_backends := logical_backends c; core_sealed := core_sealed c; unseal_key_shares :=
     unseal_key_shares c; hmac_key := hmac_key c; mount_entry_hmac_level :=
     mount_entry_hmac_level c; uuids := uuids c |}.
Definition set_system_view (x : option BarrierView.t) (c : Core B T W) : Core B T W :=
  {| barrier := barrier c; system_view := x; mounts := mounts c; router := router c;
     logical_backends := logical_backends c; core_sealed := core_sealed c; unseal_key_shares :=
     unseal_key_shares c; hmac_key := hmac_key c; mount_entry_hmac_level :=
     mount_entry_hmac_level c; uuids := uuids c |}.
Definition set_mounts (x : MountTable) (c : Core B T W) : Core B T W :=
  {| barrier := barrier c; system_view := system_view c; mounts := x; router := router c;
     logical_backends := logical_backends c; core_sealed := core_sealed c; unseal_key_shares :=
     unseal_key_shares c; hmac_key := hmac_key c; mount_entry_hmac_level :=
     mount_entry_hmac_level c; uuids := uuids c |}.
Definition set_router (x : T (RouterEntry T W)) (c : Core B T W) : Core B T W :=
  {| barrier := barrier c; system_view := system_view c; mounts := mounts c; router := x;
     logical_backends := logical_backends c; core_sealed := core_sealed c; unseal_key_shares :=
     unseal_key_shares c; hmac_key := hmac_key c; mount_entry_hmac_level :=
     mount_entry_hmac_level c; uuids := uuids c |}.
Definition set_logical_backends (x : gmap string (result (DynBackend W))) (c : Core B T W) : Core B T W :=
  {| barrier := barrier c; system_view := system_view c; mounts := mounts c; router := router c;
     logical_backends := x; core_sealed := core_sealed c; unseal_key_shares := unseal_key_shares
     c; hmac_key := hmac_key c; mount_entry_hmac_level := mount_entry_hmac_level c; uuids :=
     uuids c |}.
Definition set_core_sealed (x : bool) (c : Core B T W) : Core B T W :=
  {| barrier := barrier c; system_view := system_view c; mounts := mounts c; router := router c;
     logical_backends := logical_backends c; core_sealed := x; unseal_key_shares :=
     unseal_key_shares c; hmac_key := hmac_key c; mount_entry_hmac_level :=
     mount_entry_hmac_level c; uuids := uuids c |}.
Definition set_unseal_key_shares (x : list bytes) (c : Core B T W) : Core B T W :=
  {| barrier := barrier c; system_view := system_view c; mounts := mounts c; router := router c;
     logical_backends := logical_backends c; core_sealed := core_sealed c; unseal_key_shares :=
     x; hmac_key := hmac_key c; mount_entry_hmac_level := mount_entry_hmac_level c; uuids :=
     uuids c |}.
Definition set_hmac_key (x : bytes) (c : Core B T W) : Core B T W :=
  {| barrier := barrier c; system_view := system_view c; mounts := mounts c; router := router c;
     logical_backends := logical_backends c; core_sealed := core_sealed c; unseal_key_shares :=
     unseal_key_shares c; hmac_key := x; mount_entry_hmac_level := mount_entry_hmac_level c;
     uuids := uuids c |}.
Definition set_uuids (x : nat) (c : Core B T W) : Core B T W :=
  {| barrier := barrier c; system_view := system_view c; mounts := mounts c; router := router c;
     logical_backends := logical_backends c; core_sealed := core_sealed c; unseal_key_shares :=
     unseal_key_shares c; hmac_key := hmac_key c; mount_entry_hmac_level :=
     mount_entry_hmac_level c; uuids := x |}.
End setters.

Module MountTableOps.
Section ops.
Context `{HH : HmacSha256} `{HX : HexCodec} `{HU : UuidGen} `{HSM : Serde (gmap string MountEntry)}.

Definition DEFAULT_CORE_MOUNTS : list MountEntry :=
  [ {| table := MOUNT_TABLE_TYPE; me_tainted := false; uuid := generate_uuid 0; me_path := "secret/";
       logical_type := "kv"; me_description := "key/value secret storage"; options := None;
       hmac := "" |};
    {| table := MOUNT_TABLE_TYPE; me_tainted := false; uuid := generate_uuid 1; me_path := "sys/";
       logical_type := "system";
       me_description := "system endpoints used for control, policy and debugging";
       options := None; hmac := "" |} ].

Definition new : MountTable := {| entries := ∅; heap := ∅; next_ref := 0 |}.

Definition deref (t : MountTable) (r : nat) : option MountEntry := heap t !! r.

Definition get (path : string) (t : MountTable) : option MountEntry := entries t !! path ≫= deref t.

Definition delete (path : string) (t : MountTable) : MountTable * bool :=
  ({| entries := base.delete path (entries t); heap := heap t; next_ref := next_ref t |},
   bool_decide (is_Some (entries t !! path))).

(** Writing through a reference. *)
Definition write (r : nat) (e : MountEntry) (t : MountTable) : MountTable :=
  {| entries := entries t; heap := <[r := e]> (heap t); next_ref := next_ref t |}.

Definition set_taint (path : string) (value : bool) (t : MountTable) : MountTable * bool :=
  match entries t !! path with
  | Some r =>
      match deref t r with
      | Some e => (write r (MountEntryOps.set_taint value e) t, true)
      | None => (t, false)
      end
  | None => (t, false)
  end.

(** [Arc::new(RwLock::new(entry))]. *)
Definition alloc (e : MountEntry) (t : MountTable) : MountTable * nat :=
  ({| entries := entries t; heap := <[next_ref t := e]> (heap t); next_ref := S (next_ref t) |},
   next_ref t).

Definition insert_ref (path : string) (r : nat) (t : MountTable) : MountTable :=
  {| entries := <[path := r]> (entries t); heap := heap t; next_ref := next_ref t |}.

Definition insert_entry (path : string) (e : MountEntry) (t : MountTable) : MountTable :=
  let '(t, r) := alloc e t in insert_ref path r t.

Fixpoint set_default (l : list MountEntry) (key : option bytes) (t : MountTable)
  : MountTable * result unit :=
  match l with
  | [] => (t, Ok tt)
  | e :: l =>
      match (match key with Some k => calc_hmac k e | None => Ok e end) with
      | Ok e => set_default l key (insert_entry (me_path e) e t)
      | Err err => (t, Err err)
      | Panic => (t, Panic)
      end
  end.

(** What serde writes: the entries, dereferenced. *)
Definition snapshot (t : MountTable) : gmap string MountEntry := omap (deref t) (entries t).

Definition keep_entry (level : MountEntryHMACLevel) (key : option bytes) (e : MountEntry) : bool :=
  match key with
  | Some k =>
      if decide (level = HmacNone) then true
      else match verify_hmac k e with Ok b => b | _ => false end
  | None => true
  end.

(** The loaded entries, each in a fresh cell. *)
Definition load_entries (l : list (string * MountEntry)) (t : MountTable) : MountTable :=
  fold_left (λ t '(p, e), insert_entry p e t) l t.

Section storage.
Context {S : Type} `{HSt : Storage S}.

Definition persist (to : string) (t : MountTable) (s : S) : S * result unit :=
  match ser (snapshot t) with
  | None => (s, Err SerdeJson)
  | Some value => storage_put s {| se_key := to; se_value := value |}
  end.

Definition load (path : string) (key : option bytes) (level : MountEntryHMACLevel)
    (t : MountTable) (s : S) : MountTable * result unit :=
  match storage_get s path with
  | Err e => (t, Err e)
  | Panic => (t, Panic)
  | Ok None => (t, Err ErrConfigLoadFailed)
  | Ok (Some entry) =>
      match de (A := gmap string MountEntry) (se_value entry) with
      | None => (t, Err SerdeJson)
      | Some new_entries =>
          let kept := List.filter (λ pe, keep_entry level key (snd pe)) (map_to_list new_entries) in
          (load_entries kept {| entries := ∅; heap := heap t; next_ref := next_ref t |}, Ok tt)
      end
  end.

(** The loop of [mount_update] over the references of the table, with the
    table type it fills in. *)
Fixpoint update_entries (ty : string) (key : option bytes) (level : MountEntryHMACLevel) (need : bool)
    (refs : list nat) (t : MountTable) : MountTable * result bool :=
  match refs with
  | [] => (t, Ok need)
  | r :: refs =>
      match deref t r with
      | None => update_entries ty key level need refs t
      | Some e =>
          let '(e, need) := if is_empty (table e) then (set_table ty e, true)
                            else (e, need) in
          let t := write r e t in
          match key with
          | Some k =>
              if is_empty (hmac e) && bool_decide (level = Compat) then
                match calc_hmac k e with
                | Ok e => update_entries ty key level true refs (write r e t)
                | Err err => (t, Err err)
                | Panic => (t, Panic)
                end
              else update_entries ty key level need refs t
          | None => update_entries ty key level need refs t
          end
      end
  end.

Definition mount_update (key : option bytes) (level : MountEntryHMACLevel) (t : MountTable) (s : S)
  : MountTable * S * result unit :=
  match update_entries MOUNT_TABLE_TYPE key level false (map snd (map_to_list (entries t))) t with
  | (t, Ok true) => let '(s, r) := persist CORE_MOUNT_CONFIG_PATH t s in (t, s, r)
  | (t, Ok false) => (t, s, Ok tt)
  | (t, Err e) => (t, s, Err e)
  | (t, Panic) => (t, s, Panic)
  end.

Definition load_or_default (key : option bytes) (level : MountEntryHMACLevel) (t : MountTable) (s : S)
  : MountTable * S * result unit :=
  match storage_get s CORE_MOUNT_CONFIG_PATH with
  | Err e => (t, s, Err e)
  | Panic => (t, s, Panic)
  | Ok None =>
      match set_default DEFAULT_CORE_MOUNTS key t with
      | (t, Ok _) => let '(s, r) := persist CORE_MOUNT_CONFIG_PATH t s in (t, s, r)
      | (t, Err e) => (t, s, Err e)
      | (t, Panic) => (t, s, Panic)
      end
  | Ok (Some _) =>
      match load CORE_MOUNT_CONFIG_PATH key level t s with
      | (t, Ok _) => mount_update key level t s
      | (t, Err e) => (t, s, Err e)
      | (t, Panic) => (t, s, Panic)
      end
  end.

End storage.
End ops.
End MountTableOps.

(** ** The mount operations of [Core] *)
Module CoreMounts.
Section core.
Context {B : Type} `{HB : Backend B} `{HG : AesGcm} `{HR : Rng}.
Context {T : Type -> Type} `{HT : RadixTrie T} {W : Type}.
Context `{HH : HmacSha256} `{HX : HexCodec} `{HU : UuidGen} `{HSM : Serde (gmap string MountEntry)}.

Abbreviation core := (Core B T W).
Abbreviation m := (st core RvError).

(** Operations on the parts of the core. *)
Definition with_mounts {A} (f : MountTable -> MountTable * A) : m A := fun c =>
  let '(t, a) := f (mounts c) in (set_mounts t c, Ok a).
Definition with_router {A} (f : T (RouterEntry T W) -> T (RouterEntry T W) * result A) : m A := fun c =>
  let '(r, a) := f (router c) in (set_router r c, a).
Definition with_barrier {A} (f : AESGCMBarrier.t B -> AESGCMBarrier.t B * result A) : m A := fun c =>
  let '(b, a) := f (barrier c) in (set_barrier b c, a).

Definition persist_mounts : m unit :=
  fun c => with_barrier (MountTableOps.persist CORE_MOUNT_CONFIG_PATH (mounts c)) c.

Definition get_logical_backend (lt : string) : m (DynBackend W) := fun c =>
  (c, match logical_backends c !! lt with
      | Some r => r
      | None => Err ErrCoreLogicalBackendNoExist
      end).

Definition add_slash (p : string) : string := if ends_with_char slash p then p else p ++ "/".

Definition guard (b : bool) (e : RvError) : m unit := if b then st_fail e else st_ret tt.

Definition mount (me : MountEntry) : m unit :=
  let entry := set_me_path (add_slash (me_path me)) me in
  let! _ := guard (Misc.is_protect_path PROTECTED_MOUNTS [me_path entry]) ErrMountPathProtected in
  let entry := if is_empty (table entry) then set_table MOUNT_TABLE_TYPE entry else entry in
  let! c := st_get in
  let! _ := guard (negb (is_empty (Router.matching_mount (me_path entry) (router c)))) ErrMountPathExist in
  let! backend := get_logical_backend (logical_type me) in
  let! _ := st_put (set_uuids (S (uuids c)) c) in
  let entry := set_uuid (generate_uuid (3 + uuids c)) entry in
  let view := BarrierView.new (LOGICAL_BARRIER_PREFIX ++ uuid entry ++ "/") in
  let! entry := st_lift (calc_hmac (hmac_key c) entry) in
  let! r := with_mounts (MountTableOps.alloc entry) in
  let! _ := with_router (Router.mount backend (me_path entry) r view) in
  let! _ := with_mounts (λ t, (MountTableOps.insert_ref (me_path entry) r t, tt)) in
  persist_mounts.

Definition taint_mount_entry (path : string) : m unit :=
  let! found := with_mounts (MountTableOps.set_taint path true) in
  if found : bool then persist_mounts else st_ret tt.

Definition remove_mount_entry (path : string) : m unit :=
  let! found := with_mounts (MountTableOps.delete path) in
  if found : bool then persist_mounts else st_ret tt.

(** [view.clear()] with the fuel of its directory walk; [Panic] stands for a
    walk cut short. *)
Definition clear_view (fuel : nat) (v : BarrierView.t) : m unit :=
  with_barrier (λ b, default (b, Panic) (BarrierView.clear fuel v b)).

Definition unmount (fuel : nat) (path : string) : m unit :=
  let path := add_slash path in
  let! _ := guard (Misc.is_protect_path PROTECTED_MOUNTS [path]) ErrMountPathProtected in
  let! c := st_get in
  let match_mount := Router.matching_mount path (router c) in
  let! _ := guard (is_empty match_mount || negb (String.eqb match_mount path)) ErrMountNotMatch in
  let view := Router.matching_view path (router c) in
  let! _ := taint_mount_entry path in
  let! _ := with_router (Router.taint path) in
  let! _ := with_router (Router.unmount path) in
  let! _ := match view with Some v => clear_view fuel v | None => st_ret tt end in
  remove_mount_entry path.

(** Changing a mount entry through its reference. *)
Definition modify_entry (r : nat) (f : MountEntry -> result MountEntry) : m unit := fun c =>
  match MountTableOps.deref (mounts c) r with
  | None => (c, Panic)
  | Some e =>
      match f e with
      | Ok e => (set_mounts (MountTableOps.write r e (mounts c)) c, Ok tt)
      | Err err => (c, Err err)
      | Panic => (c, Panic)
      end
  end.

Definition remount (src dst : string) : m unit :=
  let src := add_slash src in
  let dst := add_slash dst in
  let! _ := guard (Misc.is_protect_path PROTECTED_MOUNTS [src; dst]) ErrMountPathProtected in
  let! c := st_get in
  let! _ := guard (negb (is_empty (Router.matching_mount dst (router c)))) ErrMountPathExist in
  match Router.matching_mount_entry src (router c) with
  | None => st_fail ErrMountNotMatch
  | Some r =>
      let! _ := modify_entry r (λ e, Ok (MountEntryOps.set_taint true e)) in
      let! _ := with_router (Router.taint src) in
      let! c1 := st_get in
      let! _ := guard (negb (is_empty (Router.matching_mount dst (router c1)))) ErrMountPathExist in
      let src_path := match MountTableOps.deref (mounts c1) r with Some e => me_path e | None => "" end in
      let! _ := modify_entry r (λ e, Ok (MountEntryOps.set_taint false (set_me_path dst e))) in
      let! _ := modify_entry r (calc_hmac (hmac_key c)) in
      fun c2 =>
        match persist_mounts c2 with
        | (c3, Err e) =>
            (let! _ := modify_entry r (λ e, Ok (MountEntryOps.set_taint true (set_me_path src_path e))) in
             let! _ := modify_entry r (calc_hmac (hmac_key c)) in
             st_fail e) c3
        | (c3, Panic) => (c3, Panic)
        | (c3, Ok _) =>
            (let! _ := with_router (Router.remount dst src) in
             with_router (Router.untaint dst)) c3
        end
  end.

(** One iteration of [setup_mounts]. *)
Definition setup_mount (r : nat) : m unit := fun c =>
  match MountTableOps.deref (mounts c) r with
  | None => (c, Panic)
  | Some entry =>
      let system := String.eqb (logical_type entry) "system" in
      let barrier_path := if system then SYSTEM_BARRIER_PREFIX
                          else LOGICAL_BARRIER_PREFIX ++ uuid entry ++ "/" in
      let view := BarrierView.new barrier_path in
      (let! backend := get_logical_backend (logical_type entry) in
       let! _ := with_router (Router.mount backend (me_path entry) r view) in
       let! _ := (fun c => ((if system then set_system_view (Some view) c else c), Ok tt)) in
       if me_tainted entry then with_router (Router.taint (me_path entry)) else st_ret tt) c
  end.

Fixpoint setup_loop (refs : list nat) : m unit :=
  match refs with
  | [] => st_ret tt
  | r :: refs => let! _ := setup_mount r in setup_loop refs
  end.

Definition setup_mounts : m unit := fun c => setup_loop (map snd (map_to_list (entries (mounts c)))) c.

Definition unload_mounts : m unit := fun c =>
  (set_system_view None (set_mounts MountTableOps.new (set_router Router.new c)), Ok tt).

End core.
End CoreMounts.
