(* ===== verification/MountCorrect.v ===== *)
(** * Correctness of the mount operations (theorems about src/src/mount.rs)

    A mounted entry is persisted and comes back when the table is loaded again;
    remounting leaves the table keyed by the old path, with the consequences
    that has. *)

From stdpp Require Import base tactics list gmap strings sorting.
From Stdlib Require Import ZArith Lia Ascii.
From S2P Require Import Prelude Errors RustStr Utils Storage BarrierCorrect BarrierView Logical LogicalBackend Router Mount.
Import MountEntryOps.

Local Open Scope string_scope.

(** ** The table and its serialization *)
Section table.

(** Every reference of the table is allocated. *)
Definition table_ok (t : MountTable) : Prop :=
  (∀ p r, entries t !! p = Some r → (r < next_ref t)%nat ∧ is_Some (heap t !! r)).

Lemma lookup_snapshot t p : MountTableOps.snapshot t !! p = MountTableOps.get p t.
Proof. unfold MountTableOps.snapshot, MountTableOps.get. by rewrite lookup_omap. Qed.

Lemma get_insert_entry t p e p' :
  table_ok t →
  MountTableOps.get p' (MountTableOps.insert_entry p e t) =
  if decide (p = p') then Some e else MountTableOps.get p' t.
Proof.
  intros Hok. unfold MountTableOps.get, MountTableOps.insert_entry, MountTableOps.deref. simpl.
  destruct (decide (p = p')) as [<-|Hne].
  - rewrite lookup_insert_eq. simpl. by rewrite lookup_insert_eq.
  - rewrite lookup_insert_ne by done. destruct (entries t !! p') as [r|] eqn:Er; [|done]. simpl.
    destruct (Hok p' r Er) as [Hlt _]. rewrite lookup_insert_ne by lia. done.
Qed.

Lemma table_ok_insert_entry t p e : table_ok t → table_ok (MountTableOps.insert_entry p e t).
Proof.
  intros Hok p' r. simpl. destruct (decide (p = p')) as [<-|Hne].
  - rewrite lookup_insert_eq. intros [= <-]. rewrite lookup_insert_eq. split; [lia|eauto].
  - rewrite lookup_insert_ne by done. intros [Hlt Hs]%Hok. split; [lia|].
    destruct (decide (next_ref t = r)) as [<-|]; [rewrite lookup_insert_eq; eauto|].
    by rewrite lookup_insert_ne.
Qed.

Lemma get_load_entries l t p :
  table_ok t → NoDup (map fst l) →
  MountTableOps.get p (MountTableOps.load_entries l t) =
  match (list_to_map l : gmap string MountEntry) !! p with
  | Some e => Some e
  | None => MountTableOps.get p t
  end.
Proof.
  revert t. induction l as [|[q e] l IH]; intros t Hok Hnd; simpl; [done|].
  apply NoDup_cons in Hnd as [Hni Hnd]. unfold MountTableOps.load_entries in *. simpl.
  rewrite IH by auto using table_ok_insert_entry. rewrite get_insert_entry by done.
  destruct (decide (q = p)) as [<-|Hne].
  - rewrite lookup_insert_eq. rewrite not_elem_of_list_to_map_1; [done|done].
  - by rewrite lookup_insert_ne.
Qed.

End table.

(** A mounted prefix routes to its own entry. *)
Lemma router_mount_routes {T} `{HT : RadixTrie T} `{HTL : !RadixTrieLaws T} {W : Type}
    (b : DynBackend W) prefix me v (root : T (RouterEntry T W)) :
  snd (Router.mount b prefix me v root) = Ok tt →
  Router.matching_mount prefix (fst (Router.mount b prefix me v root)) = prefix ∧
  Router.matching_view prefix (fst (Router.mount b prefix me v root)) = Some v ∧
  Router.matching_mount_entry prefix (fst (Router.mount b prefix me v root)) = Some me.
Proof.
  unfold Router.mount. destruct (trie_get_ancestor prefix root) eqn:E; [done|]. intros _. simpl.
  set (e := {| tainted := false |}).
  assert (trie_get_ancestor prefix (trie_insert prefix e root) = Some (prefix, e)) as He.
  { apply get_ancestor_iff. rewrite trie_map_insert.
    split_and!; [apply lookup_insert_eq|auto with rust|].
    intros q _ Hq. by apply starts_with_length. }
  unfold Router.matching_mount, Router.matching_view, Router.matching_mount_entry. by rewrite He.
Qed.

Section core.
Context {B : Type} `{HB : Backend B} `{HBS : !BackendSpec B} `{HG : AesGcm} `{HGL : !AesGcmLaws} `{HR : Rng}.
Context {T : Type -> Type} `{HT : RadixTrie T} `{HTL : !RadixTrieLaws T} {W : Type}.
Context `{HH : HmacSha256} `{HX : HexCodec} `{HU : UuidGen}.
Context `{HSM : Serde (gmap string MountEntry)} `{HSML : !SerdeLaws (gmap string MountEntry)}.
Import CoreMounts.

Lemma guard_ok b e (c c' : Core B T W) a : guard b e c = (c', Ok a) → c' = c ∧ b = false.
Proof. unfold guard. destruct b; [done|]. by intros [= -> _]. Qed.

Lemma get_logical_backend_ok lt (c c' : Core B T W) b :
  get_logical_backend lt c = (c', Ok b) → c' = c.
Proof. unfold get_logical_backend. by intros [= -> _]. Qed.

Lemma calc_hmac_ok key e e' :
  calc_hmac key e = Ok e' → me_path e' = me_path e ∧ uuid e' = uuid e ∧ me_tainted e' = me_tainted e.
Proof. unfold calc_hmac. destruct (hmac_sign _ _); [|done]. by intros [= <-]. Qed.

Lemma with_mounts_ok {A} (f : MountTable -> MountTable * A) (c c' : Core B T W) a :
  with_mounts f c = (c', Ok a) → c' = set_mounts (fst (f (mounts c))) c ∧ a = snd (f (mounts c)).
Proof. unfold with_mounts. destruct (f (mounts c)). by intros [= <- <-]. Qed.

Lemma with_router_ok {A} (f : T (RouterEntry T W) -> T (RouterEntry T W) * result A) (c c' : Core B T W) a :
  with_router f c = (c', Ok a) → c' = set_router (fst (f (router c))) c ∧ snd (f (router c)) = Ok a.
Proof. unfold with_router. destruct (f (router c)). by intros [= <- ->]. Qed.

Lemma with_barrier_ok {A} (f : AESGCMBarrier.t B -> AESGCMBarrier.t B * result A) (c c' : Core B T W) a :
  with_barrier f c = (c', Ok a) → c' = set_barrier (fst (f (barrier c))) c ∧ snd (f (barrier c)) = Ok a.
Proof. unfold with_barrier. destruct (f (barrier c)). by intros [= <- ->]. Qed.

Lemma persist_mounts_ok (c c' : Core B T W) a :
  persist_mounts c = (c', Ok a) →
  ∃ b, MountTableOps.persist CORE_MOUNT_CONFIG_PATH (mounts c) (barrier c) = (b, Ok a) ∧
       c' = set_barrier b c.
Proof.
  unfold persist_mounts. intros [-> H]%with_barrier_ok.
  destruct (MountTableOps.persist _ _ _) as [b r]. simpl in H. subst r. eauto.
Qed.

(** The entries of a table that a load keeps. *)
Definition kept (level : MountEntryHMACLevel) (key : option bytes) (m : gmap string MountEntry) : gmap string MountEntry :=
  filter (λ pe, MountTableOps.keep_entry level key pe.2 = true) m.

Lemma kept_none key m : kept HmacNone key m = m.
Proof. apply map_filter_id. intros p e _. unfold MountTableOps.keep_entry. by destruct key. Qed.

Lemma kept_list level key m :
  (list_to_map (List.filter (λ pe, MountTableOps.keep_entry level key pe.2) (map_to_list m)) : gmap string MountEntry)
  = kept level key m ∧
  NoDup (List.filter (λ pe, MountTableOps.keep_entry level key pe.2) (map_to_list m)).*1.
Proof.
  assert (List.filter (λ pe, MountTableOps.keep_entry level key pe.2) (map_to_list m)
          = filter (λ pe, MountTableOps.keep_entry level key pe.2 = true) (map_to_list m)) as ->.
  { induction (map_to_list m) as [|x l IH]; [done|]. simpl. rewrite list.filter_cons, IH.
    by destruct (MountTableOps.keep_entry level key x.2). }
  split; [unfold kept; by rewrite map_filter_alt|]. eapply sublist_NoDup; [apply (NoDup_fst_map_to_list m)|].
  apply fmap_sublist, sublist_filter.
Qed.

(** The table written by [persist] is the one [load] reads, less the entries
    that the level of HMAC checking refuses. *)
Lemma persist_load (to : string) (t t0 : MountTable) (s s' : AESGCMBarrier.t B) key level :
  operational s → backend_key_ok to →
  MountTableOps.persist to t s = (s', Ok tt) →
  ∃ t', MountTableOps.load to key level t0 s' = (t', Ok tt) ∧
        MountTableOps.snapshot t' = kept level key (MountTableOps.snapshot t).
Proof.
  intros Hop Hk. unfold MountTableOps.persist.
  destruct (ser_total (MountTableOps.snapshot t)) as [v Hv]. rewrite Hv. simpl.
  destruct (put_spec s to v Hop Hk) as (s1 & -> & Hi & Hp & _). intros [= <-].
  assert (operational s1) as Hop1 by (by eapply operational_info).
  assert (storage_get s1 to =
          Ok (Some {| se_key := to; se_value := v |})) as Hg.
  { apply (get_spec s1 _ v Hop1 Hk). rewrite Hp. apply lookup_insert_eq. }
  unfold MountTableOps.load. rewrite Hg. simpl. rewrite (de_ser _ _ Hv). eexists. split; [done|].
  destruct (kept_list level key (MountTableOps.snapshot t)) as [Hl Hnd].
  apply map_eq. intros p. rewrite lookup_snapshot, get_load_entries, Hl.
  - by destruct (kept level key _ !! p).
  - intros q r. simpl. by rewrite lookup_empty.
  - exact Hnd.
Qed.

Lemma persist_load_all (to : string) (t t0 : MountTable) (s s' : AESGCMBarrier.t B) key :
  operational s → backend_key_ok to → MountTableOps.persist to t s = (s', Ok tt) →
  ∃ t', MountTableOps.load to key HmacNone t0 s' = (t', Ok tt) ∧ MountTableOps.snapshot t' = MountTableOps.snapshot t.
Proof.
  intros Hop Hk Hp. destruct (persist_load to t t0 s s' key HmacNone Hop Hk Hp) as (t' & Hl & Hs).
  exists t'. by rewrite Hs, kept_none.
Qed.

(** C26: a successful mount creates one entry, with a fresh UUID, at the (slash
    terminated) path: the router sends the path to a view below
    [logical/<uuid>/], the other entries are as before, and loading the persisted
    table again gives, at each level of HMAC checking, the entries whose HMAC
    the level accepts: the same table when the checking is off. *)
Theorem mount_persisted (c c' : Core B T W) (me : MountEntry) (key : option bytes) :
  operational (barrier c) → backend_key_ok CORE_MOUNT_CONFIG_PATH → table_ok (mounts c) →
  mount me c = (c', Ok tt) →
  ∃ e, me_path e = add_slash (me_path me) ∧ uuid e = generate_uuid (3 + uuids c) ∧
    MountTableOps.get (me_path e) (mounts c') = Some e ∧
    Router.matching_mount (me_path e) (router c') = me_path e ∧
    Router.matching_view (me_path e) (router c') =
      Some (BarrierView.new (LOGICAL_BARRIER_PREFIX ++ uuid e ++ "/")) ∧
    (∀ p, p ≠ me_path e → MountTableOps.get p (mounts c') = MountTableOps.get p (mounts c)) ∧
    ∀ level, ∃ t', MountTableOps.load CORE_MOUNT_CONFIG_PATH key level MountTableOps.new (barrier c')
            = (t', Ok tt) ∧
          MountTableOps.snapshot t' = kept level key (MountTableOps.snapshot (mounts c')) ∧
          (level = HmacNone → MountTableOps.snapshot t' = MountTableOps.snapshot (mounts c')).
Proof.
  intros Hop Hk Hok H. unfold mount in H. inv_steps.
  apply guard_ok in Hstep as [-> _]. injection Hstep0 as <- <-. apply guard_ok in Hstep1 as [-> _].
  apply get_logical_backend_ok in Hstep2 as ->. injection Hstep3 as <-.
  injection Hstep4 as <- Hcalc. set (e0 := set_uuid _ _) in *.
  apply calc_hmac_ok in Hcalc as (Hp & Hu & _).
  assert (me_path e0 = add_slash (me_path me)) as Hp0 by (unfold e0; simpl; by destruct (is_empty _)).
  rewrite Hp0 in Hp. change (uuid e0) with (generate_uuid (3 + uuids c)) in *.
  apply with_mounts_ok in Hstep5 as [-> ->]. apply with_router_ok in Hstep6 as [-> Hr].
  apply with_mounts_ok in Hstep7 as [-> ->]. apply persist_mounts_ok in H as (b & Hb & ->).
  destruct a6. rewrite Hp in Hr, Hb.
  cbn -[Router.mount MountTableOps.persist BarrierView.new Nat.add String.append] in *.
  destruct (router_mount_routes _ _ _ _ _ Hr) as (Hr1 & Hr2 & _).
  exists a4. rewrite Hp, Hu. split_and!; [done|done| |done|done| |].
  - unfold MountTableOps.get, MountTableOps.deref. simpl. rewrite lookup_insert_eq. simpl.
    by rewrite lookup_insert_eq.
  - intros p Hne. unfold MountTableOps.get, MountTableOps.deref. simpl.
    rewrite lookup_insert_ne by done. destruct (entries (mounts c) !! p) as [r|] eqn:Er; [|done].
    simpl. destruct (Hok p r Er). by rewrite lookup_insert_ne by lia.
  - intros level. destruct (persist_load _ _ MountTableOps.new _ b key level Hop Hk Hb) as (t' & Hl & Hs).
    exists t'. split_and!; [exact Hl|exact Hs|]. intros ->. by rewrite Hs, kept_none.
Qed.

(** *** Remounting *)

Lemma modify_entry_ok r f (c c' : Core B T W) a :
  modify_entry r f c = (c', Ok a) →
  ∃ e e', MountTableOps.deref (mounts c) r = Some e ∧ f e = Ok e' ∧
          c' = set_mounts (MountTableOps.write r e' (mounts c)) c.
Proof.
  unfold modify_entry. destruct (MountTableOps.deref _ r) as [e|]; [|done].
  destruct (f e) as [e'| |] eqn:E; [|done..]. intros [= <- _]. eauto.
Qed.

(** A successful remount rewrites the entry in place. *)
Lemma remount_ok src dst (c c' : Core B T W) r :
  Router.matching_mount_entry (add_slash src) (router c) = Some r →
  remount src dst c = (c', Ok tt) →
  entries (mounts c') = entries (mounts c) ∧
  ∃ e, heap (mounts c') !! r = Some e ∧ me_path e = add_slash dst ∧ me_tainted e = false.
Proof.
  intros Hr H. unfold remount in H. inv_steps.
  apply guard_ok in Hstep as [-> _]. injection Hstep0 as <- <-. apply guard_ok in Hstep1 as [-> _].
  rewrite Hr in H. inv_steps.
  apply modify_entry_ok in Hstep as (e1 & e1' & He1 & [= <-] & ->).
  apply with_router_ok in Hstep0 as [-> _]. injection Hstep1 as <- <-.
  apply guard_ok in Hstep2 as [-> _].
  apply modify_entry_ok in Hstep3 as (e2 & e2' & He2 & [= <-] & ->).
  apply modify_entry_ok in Hstep4 as (e3 & e3' & He3 & Hcalc & ->).
  destruct (persist_mounts _) as [c4 [[]| |]] eqn:Hp; [|inv_steps; done|done]. inv_steps.
  apply persist_mounts_ok in Hp as (b & _ & ->).
  apply with_router_ok in Hstep as [-> _]. apply with_router_ok in H as [-> _].
  split; [done|]. exists e3'. apply calc_hmac_ok in Hcalc as (Hpath & _ & Htaint).
  simpl in He3. unfold MountTableOps.deref, MountTableOps.write in He3. simpl in He3.
  rewrite lookup_insert_eq in He3. injection He3 as <-.
  split; [simpl; apply lookup_insert_eq|]. by rewrite Hpath, Htaint.
Qed.

(** Unmounting a path the table has no key for leaves the table alone. *)
Lemma unmount_unknown fuel p (c c' : Core B T W) :
  entries (mounts c) !! add_slash p = None → unmount fuel p c = (c', Ok tt) → mounts c' = mounts c.
Proof.
  intros Hno H. unfold unmount in H. inv_steps.
  apply guard_ok in Hstep as [-> _]. injection Hstep0 as <- <-. apply guard_ok in Hstep1 as [-> _].
  assert (c3 = c) as ->.
  { unfold taint_mount_entry in Hstep2. inv_steps. apply with_mounts_ok in Hstep as [-> ->].
    unfold MountTableOps.set_taint in Hstep2. rewrite Hno in Hstep2. simpl in Hstep2.
    injection Hstep2 as <- _. by destruct c. }
  apply with_router_ok in Hstep3 as [-> _]. apply with_router_ok in Hstep4 as [-> _].
  assert (mounts c6 = mounts c) as Hm.
  { destruct (Router.matching_view _ _).
    - unfold clear_view in Hstep5. by apply with_barrier_ok in Hstep5 as [-> _].
    - by injection Hstep5 as <- _. }
  unfold remove_mount_entry in H. inv_steps. apply with_mounts_ok in Hstep as [-> ->].
  unfold MountTableOps.delete in H. rewrite Hm, Hno in H. simpl in H. injection H as <-. simpl.
  destruct (mounts c) as [es h n]. simpl in *. rewrite delete_id by done. done.
Qed.

(** A remounted mount keeps its old key in the mount table.  Unmounting it at
    its new path succeeds, yet its entry stays in the table: it is persisted
    there and mounted again, at the new path, by the next unseal. *)
Theorem unmount_after_remount_keeps_entry (c c1 c2 : Core B T W) (src dst : string) (r fuel : nat) :
  Router.matching_mount_entry (add_slash src) (router c) = Some r →
  entries (mounts c) !! add_slash src = Some r → entries (mounts c) !! add_slash dst = None →
  remount src dst c = (c1, Ok tt) → unmount fuel dst c1 = (c2, Ok tt) →
  ∃ e, MountTableOps.snapshot (mounts c2) !! add_slash src = Some e ∧ me_path e = add_slash dst ∧
       me_tainted e = false.
Proof.
  intros Hr Hsrc Hdst Hre Hun. destruct (remount_ok src dst c c1 r Hr Hre) as (He & e & Hh & Hp & Ht).
  rewrite <- He in Hdst, Hsrc. rewrite (unmount_unknown fuel dst c1 c2 Hdst Hun).
  exists e. split; [|done]. rewrite lookup_snapshot. unfold MountTableOps.get. by rewrite Hsrc.
Qed.

(** Remounting a path that is only below a mount fails, but not without
    effect: the entry of the enclosing mount is left tainted in the table, to be
    persisted with the next change and refused service after the next unseal. *)
Theorem failed_remount_taints_enclosing (c : Core B T W) (src dst mnt : string)
    (re : RouterEntry T W) (e : MountEntry) :
  Misc.is_protect_path PROTECTED_MOUNTS [add_slash src; add_slash dst] = false →
  Router.matching_mount (add_slash dst) (router c) = "" →
  longest_prefix (trie_map (router c)) (add_slash src) mnt re → mnt ≠ add_slash src →
  heap (mounts c) !! mount_entry re = Some e →
  ∃ c', remount src dst c = (c', Err ErrRouterMountNotFound) ∧
        heap (mounts c') !! mount_entry re = Some (MountEntryOps.set_taint true e).
Proof.
  intros Hprot Hdst Hl Hne He. unfold remount. rewrite Hprot. cbn [guard]. unfold st_bind at 1.
  cbn [st_ret]. unfold st_bind at 1. cbn [st_get]. rewrite Hdst. cbn [is_empty negb guard].
  unfold st_bind at 1. cbn [st_ret].
  pose proof (proj2 (get_ancestor_iff _ _ _ _) Hl) as Ha.
  unfold Router.matching_mount_entry. rewrite Ha.
  set (c1 := set_mounts (MountTableOps.write (mount_entry re) (MountEntryOps.set_taint true e)
                           (mounts c)) c).
  rewrite (st_bind_run _ _ c c1 tt) by (unfold modify_entry, MountTableOps.deref; by rewrite He).
  rewrite (st_bind_err _ _ c1 (set_router (router c) c1) ErrRouterMountNotFound).
  { eexists. split; [done|]. apply lookup_insert_eq. }
  unfold with_router, Router.taint. simpl. rewrite trie_get_spec.
  destruct (trie_map (router c) !! add_slash src) as [x|] eqn:E; [|done]. exfalso.
  destruct Hl as (_ & Hs & Hmax). apply Hne. apply starts_with_antisym; [done|].
  apply Hmax; [eauto|auto with rust].
Qed.

End core.

(** *** Witnesses: a core over the in-memory backend *)

#[global] Instance MountEntry_eq_dec : EqDecision MountEntry.
Proof. solve_decision. Defined.
#[global] Instance MountEntry_countable : Countable MountEntry.
Proof.
  refine (inj_countable'
    (λ e, (table e, me_tainted e, uuid e, me_path e, logical_type e, me_description e, options e, hmac e))
    (λ '(a, b, c, d, e, f, g, h),
       {| table := a; me_tainted := b; uuid := c; me_path := d; logical_type := e;
          me_description := f; options := g; hmac := h |}) _).
  by intros [].
Defined.

Definition demo_hmac : HmacSha256 :=
  {| hmac_sign := fun k m => Some (k ++ m)%list; hmac_verify := fun k m h => None |}.
Definition demo_hex : HexCodec := String.string_of_list_byte.
Definition demo_uuid : UuidGen := fun i => "uuid" ++ String.string_of_list_byte [u8_wrap (48 + N.of_nat i)].
Definition demo_table_serde : Serde (gmap string MountEntry) := countable_serde (gmap string MountEntry).

Definition demo_core : Core MemBackend.t (gmap string) nat :=
  {| barrier := demo_barrier; system_view := None; mounts := MountTableOps.new; router := Router.new;
     logical_backends := {["kv" := Ok demo_dyn]}; core_sealed := false; unseal_key_shares := [];
     hmac_key := [x01]; mount_entry_hmac_level := HmacNone; uuids := 0 |}.

Abbreviation demo_mount := (CoreMounts.mount (HG := toy_gcm) (HR := demo_rng) (HH := demo_hmac)
  (HX := demo_hex) (HU := demo_uuid) (HSM := demo_table_serde)).
Abbreviation demo_remount := (CoreMounts.remount (HG := toy_gcm) (HR := demo_rng) (HH := demo_hmac)
  (HX := demo_hex) (HSM := demo_table_serde)).
Abbreviation demo_unmount := (CoreMounts.unmount (HG := toy_gcm) (HR := demo_rng)
  (HSM := demo_table_serde)).

Definition demo_entry_in : MountEntry := MountEntryOps.new "" "kv1" "kv" "".
Definition demo_mounted : Core MemBackend.t (gmap string) nat := fst (demo_mount demo_entry_in demo_core).

Lemma pair_of_snd {A B} (p : A * B) b : snd p = b → p = (fst p, b).
Proof. by destruct p; simpl; intros ->. Qed.

Lemma mount_persisted_witness :
  ∃ e, MountTableOps.get "kv1/" (mounts demo_mounted) = Some e ∧
    ∃ t', MountTableOps.load (HH := demo_hmac) (HSM := demo_table_serde)
            (HSt := AESGCMBarrier.storage (HG := toy_gcm) (HR := demo_rng))
            CORE_MOUNT_CONFIG_PATH None HmacNone MountTableOps.new (barrier demo_mounted) = (t', Ok tt).
Proof.
  destruct (mount_persisted (HBS := MemBackend.backend_spec) (HG := toy_gcm) (HGL := toy_gcm_laws)
      (HR := demo_rng) (HH := demo_hmac) (HX := demo_hex) (HU := demo_uuid) (HSM := demo_table_serde)
      (HSML := countable_serde_laws (gmap string MountEntry))
      demo_core demo_mounted demo_entry_in None demo_operational I)
    as (e & Hp & _ & Hg & _ & _ & _ & Hall).
  - intros p r. simpl. rewrite lookup_empty. discriminate.
  - unfold demo_mounted. apply pair_of_snd. by vm_compute.
  - exists e. rewrite Hp in Hg. split; [exact Hg|]. destruct (Hall HmacNone) as (t' & Hl & _). exists t'. exact Hl.
Defined.

Definition demo_remounted : Core MemBackend.t (gmap string) nat :=
  fst (demo_remount "kv1" "kv2" demo_mounted).

Lemma unmount_after_remount_keeps_entry_witness :
  ∃ e, MountTableOps.snapshot (mounts (fst (demo_unmount 10 "kv2" demo_remounted))) !! "kv1/" = Some e ∧
       me_path e = "kv2/".
Proof.
  destruct (unmount_after_remount_keeps_entry (HG := toy_gcm) (HR := demo_rng) (HH := demo_hmac)
      (HX := demo_hex) (HSM := demo_table_serde) demo_mounted demo_remounted
      (fst (demo_unmount 10 "kv2" demo_remounted)) "kv1" "kv2" 0 10) as (e & He & Hp & _).
  - by vm_compute.
  - by vm_compute.
  - by vm_compute.
  - unfold demo_remounted. apply pair_of_snd. by vm_compute.
  - apply pair_of_snd. by vm_compute.
  - exists e. exact (conj He Hp).
Defined.

Lemma failed_remount_taints_enclosing_witness :
  ∃ c' e, demo_remount "kv1/sub" "kv2" demo_mounted = (c', Err ErrRouterMountNotFound) ∧
          heap (mounts c') !! 0 = Some (MountEntryOps.set_taint true e).
Proof.
  destruct (trie_get_ancestor "kv1/sub/" (router demo_mounted)) as [[mnt re]|] eqn:E;
    [|by vm_compute in E].
  destruct (heap (mounts demo_mounted) !! 0) as [e|] eqn:Eh; [|by vm_compute in Eh].
  assert (mnt = "kv1/") as -> by (vm_compute in E; congruence).
  assert (mount_entry re = 0) as Hre.
  { assert (mount_entry <$> (snd <$> trie_get_ancestor "kv1/sub/" (router demo_mounted)) = Some 0)
      as H by (by vm_compute). rewrite E in H. by injection H. }
  destruct (failed_remount_taints_enclosing (HG := toy_gcm) (HR := demo_rng) (HH := demo_hmac)
      (HX := demo_hex) (HSM := demo_table_serde) demo_mounted "kv1/sub" "kv2" "kv1/" re e)
    as (c' & Hc & Hh).
  - by vm_compute.
  - by vm_compute.
  - by apply get_ancestor_iff.
  - discriminate.
  - rewrite Hre. exact Eh.
  - exists c', e. rewrite Hre in Hh. exact (conj Hc Hh).
Defined.
