(* ===== verification/AuthMount.v ===== *)
(** * Authentication mounts (src/src/modules/auth/mod.rs)

    The auth module keeps a mount table of its own beside the core's, routes
    its mounts below [auth/] through the core's router, and builds their
    backends from constructors registered by type.  The mount entries of both
    tables live in one heap, since the router refers to both kinds. *)

From stdpp Require Import base tactics list gmap strings sorting.
From Stdlib Require Import ZArith Lia Ascii.
From S2P Require Import Prelude Errors RustStr Utils Storage BarrierCorrect BarrierView Logical LogicalBackend Router Mount MountCorrect.
Import MountEntryOps.

Local Open Scope string_scope.

Definition AUTH_CONFIG_PATH : string := "core/auth".
Definition AUTH_BARRIER_PREFIX : string := "auth/".
Definition AUTH_ROUTER_PREFIX : string := "auth/".
Definition AUTH_TABLE_TYPE : string := "auth".
Definition PROTECTED_AUTHS : list string := ["auth/token"].

(** [struct AuthModule], with the core it works in.  [auth_router] is the
    router of the [router_store]: [None] is the one the core has. *)
Record AuthModule (B : Type) (T : Type -> Type) (W : Type) := {
  am_core : Core B T W;
  auth_entries : gmap string nat;
  auth_router : option (T (RouterEntry T W));
  auth_backends : gmap string (result (DynBackend W))
}.
Arguments am_core {B T W}.
Arguments auth_entries {B T W}.
Arguments auth_router {B T W}.
Arguments auth_backends {B T W}.

Module AuthMounts.
Section auth.
Context {B : Type} `{HB : Backend B} `{HG : AesGcm} `{HR : Rng}.
Context {T : Type -> Type} `{HT : RadixTrie T} {W : Type}.
Context `{HH : HmacSha256} `{HX : HexCodec} `{HU : UuidGen} `{HSM : Serde (gmap string MountEntry)}.

Abbreviation module := (AuthModule B T W).
Abbreviation m := (st module RvError).

Definition DEFAULT_AUTH_MOUNTS : list MountEntry :=
  [ {| table := AUTH_TABLE_TYPE; me_tainted := false; uuid := generate_uuid 2; me_path := "token/";
       logical_type := "token"; me_description := "token based credentials"; options := None;
       hmac := "" |} ].

Definition new (c : Core B T W) : module :=
  {| am_core := c; auth_entries := ∅; auth_router := None; auth_backends := ∅ |}.

(** *** The parts of the state *)

Definition set_core (c : Core B T W) (s : module) : module :=
  {| am_core := c; auth_entries := auth_entries s; auth_router := auth_router s;
     auth_backends := auth_backends s |}.
Definition set_backends (x : gmap string (result (DynBackend W))) (s : module) : module :=
  {| am_core := am_core s; auth_entries := auth_entries s; auth_router := auth_router s;
     auth_backends := x |}.

(** [router_store.mounts]. *)
Definition auth_table (s : module) : MountTable :=
  {| entries := auth_entries s; heap := heap (mounts (am_core s)); next_ref := next_ref (mounts (am_core s)) |}.
Definition set_auth_table (t : MountTable) (s : module) : module :=
  {| am_core := set_mounts {| entries := entries (mounts (am_core s)); heap := heap t; next_ref := next_ref t |}
                  (am_core s);
     auth_entries := entries t; auth_router := auth_router s; auth_backends := auth_backends s |}.

(** [router_store.router]. *)
Definition the_router (s : module) : T (RouterEntry T W) := default (router (am_core s)) (auth_router s).
Definition set_the_router (r : T (RouterEntry T W)) (s : module) : module :=
  match auth_router s with
  | None => set_core (set_router r (am_core s)) s
  | Some _ => {| am_core := am_core s; auth_entries := auth_entries s; auth_router := Some r;
                 auth_backends := auth_backends s |}
  end.

Definition with_table {A} (f : MountTable -> MountTable * A) : m A := fun s =>
  let '(t, a) := f (auth_table s) in (set_auth_table t s, Ok a).
Definition with_router {A} (f : T (RouterEntry T W) -> T (RouterEntry T W) * result A) : m A := fun s =>
  let '(r, a) := f (the_router s) in (set_the_router r s, a).
Definition with_barrier {A} (f : AESGCMBarrier.t B -> AESGCMBarrier.t B * result A) : m A := fun s =>
  let '(b, a) := f (barrier (am_core s)) in (set_core (set_barrier b (am_core s)) s, a).

Definition guard (b : bool) (e : RvError) : m unit := if b then st_fail e else st_ret tt.

Definition next_uuid : m string := fun s =>
  (set_core (set_uuids (S (uuids (am_core s))) (am_core s)) s, Ok (generate_uuid (3 + uuids (am_core s)))).

Definition in_use (path : string) : RvError := ErrResponseStatus 409 ("path is already in use at " ++ path).

(** *** The operations *)

Definition persist_auth : m unit :=
  fun s => with_barrier (MountTableOps.persist AUTH_CONFIG_PATH (auth_table s)) s.

Definition get_auth_backend (lt : string) : m (DynBackend W) := fun s =>
  (s, match auth_backends s !! lt with
      | Some r => r
      | None => Err ErrCoreLogicalBackendNoExist
      end).

Definition add_auth_backend (lt : string) (b : result (DynBackend W)) : m unit := fun s =>
  match auth_backends s !! lt with
  | Some _ => (s, Err ErrCoreLogicalBackendExist)
  | None => (set_backends (<[lt := b]> (auth_backends s)) s, Ok tt)
  end.

Definition delete_auth_backend (lt : string) : m unit := fun s =>
  (set_backends (base.delete lt (auth_backends s)) s, Ok tt).

(** The entries of the auth table that overlap with a path. *)
Definition overlaps (path : string) (s : module) : bool :=
  existsb (λ ent, starts_with path (me_path ent) || starts_with (me_path ent) path)
    (map snd (map_to_list (MountTableOps.snapshot (auth_table s)))).

Definition enable_auth (me : MountEntry) : m unit :=
  let entry := set_me_path (CoreMounts.add_slash (me_path me)) me in
  let! _ := guard (String.eqb (me_path entry) "/") ErrMountPathProtected in
  let! _ := guard (String.eqb (logical_type entry) "token") ErrMountFailed in
  let! _ := guard (Misc.is_protect_path PROTECTED_AUTHS [me_path entry]) ErrMountPathProtected in
  let! s := st_get in
  let! _ := guard (overlaps (me_path entry) s) (in_use (me_path entry)) in
  let match_mount_path := Router.matching_mount (me_path entry) (the_router s) in
  let! _ := guard (negb (is_empty match_mount_path)) (in_use match_mount_path) in
  let! backend := get_auth_backend (logical_type entry) in
  let! id := next_uuid in
  let entry := set_uuid id entry in
  let view := BarrierView.new (AUTH_BARRIER_PREFIX ++ uuid entry ++ "/") in
  let! r := with_table (MountTableOps.alloc entry) in
  let! _ := with_router (Router.mount backend (AUTH_ROUTER_PREFIX ++ me_path entry) r view) in
  let! _ := with_table (λ t, (MountTableOps.insert_ref (me_path entry) r t, tt)) in
  persist_auth.

Definition remove_auth_entry (path : string) : m unit :=
  let! found := with_table (MountTableOps.delete path) in
  if found : bool then persist_auth else st_ret tt.

Definition taint_auth_entry (path : string) : m unit :=
  let! found := with_table (MountTableOps.set_taint path true) in
  if found : bool then persist_auth else st_ret tt.

(** [view.clear()], with the fuel of its directory walk. *)
Definition clear_view (fuel : nat) (v : BarrierView.t) : m unit :=
  with_barrier (λ b, default (b, Panic) (BarrierView.clear fuel v b)).

Definition disable_auth (fuel : nat) (path : string) : m unit :=
  let path := CoreMounts.add_slash path in
  let! _ := guard (String.eqb path "token/") ErrMountPathProtected in
  let full_path := AUTH_ROUTER_PREFIX ++ path in
  let! s := st_get in
  let view := Router.matching_view full_path (the_router s) in
  let! _ := taint_auth_entry path in
  let! _ := with_router (Router.taint full_path) in
  let! _ := with_router (Router.unmount full_path) in
  let! _ := match view with Some v => clear_view fuel v | None => st_ret tt end in
  remove_auth_entry path.

(** Writing a mount entry through its reference. *)
Definition write_entry (r : nat) (f : MountEntry -> MountEntry) : m unit := fun s =>
  match MountTableOps.deref (auth_table s) r with
  | None => (s, Panic)
  | Some e => (set_auth_table (MountTableOps.write r (f e) (auth_table s)) s, Ok tt)
  end.

Definition remount_auth (src dst : string) : m unit :=
  let src := CoreMounts.add_slash src in
  let dst := CoreMounts.add_slash dst in
  let! _ := guard (negb (starts_with AUTH_ROUTER_PREFIX src))
              (ErrResponseStatus 400 ("cannot remount non-auth mount " ++ src)) in
  let! _ := guard (negb (starts_with AUTH_ROUTER_PREFIX dst))
              (ErrResponseStatus 400 ("cannot remount auth mount to non-auth mount " ++ dst)) in
  let! _ := guard (Misc.is_protect_path PROTECTED_AUTHS [src; dst]) ErrMountPathProtected in
  let! s := st_get in
  let! _ := guard (negb (is_empty (Router.matching_mount dst (the_router s)))) ErrMountPathExist in
  match Router.matching_mount_entry src (the_router s) with
  | None => st_fail ErrMountNotMatch
  | Some r =>
      let! _ := write_entry r (MountEntryOps.set_taint true) in
      let! _ := with_router (Router.taint src) in
      let! s1 := st_get in
      let! _ := guard (negb (is_empty (Router.matching_mount dst (the_router s1)))) ErrMountPathExist in
      let src_path := match MountTableOps.deref (auth_table s1) r with Some e => me_path e | None => "" end in
      let! _ := write_entry r (λ e, MountEntryOps.set_taint false
                                      (set_me_path (trim_start_pat AUTH_ROUTER_PREFIX dst) e)) in
      fun s2 =>
        match persist_auth s2 with
        | (s3, Err e) =>
            (let! _ := write_entry r (λ e, MountEntryOps.set_taint true (set_me_path src_path e)) in
             st_fail e) s3
        | (s3, Panic) => (s3, Panic)
        | (s3, Ok _) =>
            (let! _ := with_router (Router.remount dst src) in
             with_router (Router.untaint dst)) s3
        end
  end.

Definition teardown_auth : m unit := fun s =>
  ({| am_core := am_core s; auth_entries := ∅; auth_router := Some Router.new;
      auth_backends := auth_backends s |}, Ok tt).

Definition update_auth_mount (key : option bytes) (level : MountEntryHMACLevel) : m unit :=
  let! need_persist := fun s =>
    let '(t, r) := MountTableOps.update_entries AUTH_TABLE_TYPE key level false
                     (map snd (map_to_list (entries (auth_table s)))) (auth_table s) in
    (set_auth_table t s, r) in
  if need_persist : bool then persist_auth else st_ret tt.

Definition load_auth (key : option bytes) (level : MountEntryHMACLevel) : m unit :=
  let! loaded := (fun s =>
    let '(t, r) := MountTableOps.load AUTH_CONFIG_PATH key level (auth_table s) (barrier (am_core s)) in
    match r with
    | Panic => (set_auth_table t s, Panic)
    | Ok _ => (set_auth_table t s, Ok true)
    | Err _ => (set_auth_table t s, Ok false)
    end) in
  let! _ :=
    if loaded : bool then st_ret tt
    else
      let! _ := fun s =>
        let '(t, r) := MountTableOps.set_default DEFAULT_AUTH_MOUNTS key (auth_table s) in
        (set_auth_table t s, r) in
      persist_auth in
  update_auth_mount key level.

(** One iteration of [setup_auth]. *)
Definition setup_auth_mount (r : nat) : m unit := fun s =>
  match MountTableOps.deref (auth_table s) r with
  | None => (s, Panic)
  | Some entry =>
      let view := BarrierView.new (AUTH_BARRIER_PREFIX ++ uuid entry ++ "/") in
      (let! backend := get_auth_backend (logical_type entry) in
       let! _ := with_router (Router.mount backend (AUTH_ROUTER_PREFIX ++ me_path entry) r view) in
       if me_tainted entry then with_router (Router.taint (me_path entry)) else st_ret tt) s
  end.

Fixpoint setup_auth_loop (refs : list nat) : m unit :=
  match refs with
  | [] => st_ret tt
  | r :: refs => let! _ := setup_auth_mount r in setup_auth_loop refs
  end.

Definition setup_auth : m unit := fun s => setup_auth_loop (map snd (map_to_list (auth_entries s))) s.

(** *** The [Module] trait *)

Definition setup : m unit := fun s =>
  ({| am_core := am_core s; auth_entries := auth_entries s; auth_router := None;
      auth_backends := auth_backends s |}, Ok tt).

(** The mounts of [init], given the backend of the token store. *)
Definition init_mounts (token_backend : result (DynBackend W)) : m unit :=
  let! _ := add_auth_backend "token" token_backend in
  let! s := st_get in
  let! _ := load_auth (Some (hmac_key (am_core s))) (mount_entry_hmac_level (am_core s)) in
  setup_auth.

(** The mounts of [cleanup]. *)
Definition cleanup_mounts : m unit :=
  let! _ := delete_auth_backend "token" in
  teardown_auth.

End auth.
End AuthMounts.
