(* ===== verification/AuthMountCorrect.v ===== *)
(** * Correctness of the authentication mounts (theorems about
    src/src/modules/auth/mod.rs)

    An enabled auth method is routed below [auth/] and survives a restart; a
    tainted one, which an interrupted disable leaves behind, keeps the module
    from starting; an unreadable table is replaced by the default one. *)

From stdpp Require Import base tactics list gmap strings sorting.
From Stdlib Require Import ZArith Lia Ascii.
From S2P Require Import Prelude Errors RustStr Utils Storage BarrierCorrect BarrierView Logical LogicalBackend Router Mount MountCorrect AuthMount.
Import MountEntryOps.

Local Open Scope string_scope.

Section auth.
Context {B : Type} `{HB : Backend B} `{HBS : !BackendSpec B} `{HG : AesGcm} `{HGL : !AesGcmLaws} `{HR : Rng}.
Context {T : Type -> Type} `{HT : RadixTrie T} `{HTL : !RadixTrieLaws T} {W : Type}.
Context `{HH : HmacSha256} `{HX : HexCodec} `{HU : UuidGen}.
Context `{HSM : Serde (gmap string MountEntry)} `{HSML : !SerdeLaws (gmap string MountEntry)}.
Import AuthMounts.

(** ** Inversion of the steps *)

Lemma auth_guard_ok b e (s s' : AuthModule B T W) a : guard b e s = (s', Ok a) → s' = s ∧ b = false.
Proof. unfold guard. destruct b; [done|]. by intros [= -> _]. Qed.

Lemma auth_with_table_ok {A} (f : MountTable -> MountTable * A) (s s' : AuthModule B T W) a :
  with_table f s = (s', Ok a) → s' = set_auth_table (fst (f (auth_table s))) s ∧ a = snd (f (auth_table s)).
Proof. unfold with_table. destruct (f (auth_table s)). by intros [= <- <-]. Qed.

Lemma auth_with_router_ok {A} (f : T (RouterEntry T W) -> T (RouterEntry T W) * result A)
    (s s' : AuthModule B T W) a :
  with_router f s = (s', Ok a) →
  s' = set_the_router (fst (f (the_router s))) s ∧ snd (f (the_router s)) = Ok a.
Proof. unfold with_router. destruct (f (the_router s)). by intros [= <- ->]. Qed.

Lemma persist_auth_ok (s s' : AuthModule B T W) a :
  persist_auth s = (s', Ok a) →
  ∃ b, MountTableOps.persist AUTH_CONFIG_PATH (auth_table s) (barrier (am_core s)) = (b, Ok a) ∧
       s' = set_core (set_barrier b (am_core s)) s.
Proof.
  unfold persist_auth, with_barrier. destruct (MountTableOps.persist _ _ _) as [b r] eqn:E.
  intros [= <- ->]. eauto.
Qed.

Lemma the_router_set r (s : AuthModule B T W) : the_router (set_the_router r s) = r.
Proof. unfold the_router, set_the_router. by destruct (auth_router s) eqn:E; simpl; rewrite ?E. Qed.

Lemma auth_table_set_router r (s : AuthModule B T W) : auth_table (set_the_router r s) = auth_table s.
Proof. unfold auth_table, set_the_router. by destruct (auth_router s). Qed.

Lemma barrier_set_router r (s : AuthModule B T W) :
  barrier (am_core (set_the_router r s)) = barrier (am_core s).
Proof. unfold set_the_router. by destruct (auth_router s). Qed.

Lemma auth_table_set_table t (s : AuthModule B T W) : auth_table (set_auth_table t s) = t.
Proof. by destruct t. Qed.

Lemma the_router_set_table t (s : AuthModule B T W) : the_router (set_auth_table t s) = the_router s.
Proof. done. Qed.

Lemma auth_table_set_barrier b (s : AuthModule B T W) :
  auth_table (set_core (set_barrier b (am_core s)) s) = auth_table s.
Proof. done. Qed.

Lemma the_router_set_barrier b (s : AuthModule B T W) :
  the_router (set_core (set_barrier b (am_core s)) s) = the_router s.
Proof. done. Qed.

Lemma barrier_set_table t (s : AuthModule B T W) :
  barrier (am_core (set_auth_table t s)) = barrier (am_core s).
Proof. done. Qed.

Lemma barrier_set_barrier b (s : AuthModule B T W) :
  barrier (am_core (set_core (set_barrier b (am_core s)) s)) = b.
Proof. done. Qed.

Create Rewrite HintDb auth_parts.
#[local] Hint Rewrite the_router_set auth_table_set_router barrier_set_router auth_table_set_table
  the_router_set_table auth_table_set_barrier the_router_set_barrier barrier_set_table
  barrier_set_barrier : auth_parts.


(** ** Enabling an auth method *)

(** A successful enable creates one entry, with a fresh UUID and no HMAC of its
    own, at the (slash terminated) path; the router sends the path below [auth/]
    to a view below [auth/<uuid>/]; the other entries are as before, and the
    persisted table loads as it is. *)
Theorem enable_auth_persisted (s s' : AuthModule B T W) (me : MountEntry) (key : option bytes) (t0 : MountTable) :
  operational (barrier (am_core s)) → backend_key_ok AUTH_CONFIG_PATH → table_ok (auth_table s) →
  enable_auth me s = (s', Ok tt) →
  ∃ e, e = set_uuid (generate_uuid (3 + uuids (am_core s))) (set_me_path (CoreMounts.add_slash (me_path me)) me) ∧
    MountTableOps.get (me_path e) (auth_table s') = Some e ∧
    Router.matching_mount (AUTH_ROUTER_PREFIX ++ me_path e) (the_router s') = AUTH_ROUTER_PREFIX ++ me_path e ∧
    Router.matching_view (AUTH_ROUTER_PREFIX ++ me_path e) (the_router s') =
      Some (BarrierView.new (AUTH_BARRIER_PREFIX ++ uuid e ++ "/")) ∧
    (∀ p, p ≠ me_path e → MountTableOps.get p (auth_table s') = MountTableOps.get p (auth_table s)) ∧
    ∃ t', MountTableOps.load AUTH_CONFIG_PATH key HmacNone t0 (barrier (am_core s')) = (t', Ok tt) ∧
          MountTableOps.snapshot t' = MountTableOps.snapshot (auth_table s').
Proof.
  intros Hop Hk Hok H. unfold enable_auth in H. inv_steps.
  apply auth_guard_ok in Hstep as [-> _]. apply auth_guard_ok in Hstep0 as [-> _].
  apply auth_guard_ok in Hstep1 as [-> _]. injection Hstep2 as <- <-.
  apply auth_guard_ok in Hstep3 as [-> _]. apply auth_guard_ok in Hstep4 as [-> _].
  unfold get_auth_backend in Hstep5. injection Hstep5 as <- _.
  unfold next_uuid in Hstep6. injection Hstep6 as <- <-.
  apply auth_with_table_ok in Hstep7 as [-> ->]. apply auth_with_router_ok in Hstep8 as [-> Hr].
  apply auth_with_table_ok in Hstep9 as [-> ->]. destruct a8.
  apply persist_auth_ok in H as (b & Hb & ->).
  set (e := set_uuid _ _) in *. exists e. split; [done|].
  destruct (router_mount_routes _ _ _ _ _ Hr) as (Hr1 & Hr2 & _).
  autorewrite with auth_parts in *. cbn [fst snd] in *. split_and!; [|done|done| |].
  - unfold MountTableOps.get. simpl. rewrite lookup_insert_eq. simpl.
    unfold MountTableOps.deref. simpl. apply lookup_insert_eq.
  - intros p Hne. unfold MountTableOps.get, MountTableOps.deref. simpl.
    rewrite lookup_insert_ne by done. destruct (auth_entries s !! p) as [r|] eqn:Er; [|done].
    simpl. destruct (Hok p r Er). simpl in *. by rewrite lookup_insert_ne by lia.
  - exact (persist_load_all _ _ _ _ b key Hop Hk Hb).
Qed.

(** ** A tainted auth mount *)

(** The same keys, and references to entries of the same path and taint. *)
Definition same_mounts (t t' : MountTable) : Prop :=
  entries t' = entries t ∧
  ∀ r e, MountTableOps.deref t r = Some e →
    ∃ e', MountTableOps.deref t' r = Some e' ∧ me_path e' = me_path e ∧ me_tainted e' = me_tainted e.

#[local] Instance same_mounts_preorder : PreOrder same_mounts.
Proof.
  split; [intros t; unfold same_mounts; eauto|]. intros t1 t2 t3 [He1 H1] [He2 H2].
  split; [congruence|]. intros r e (e1 & Hr & Hp & Ht)%H1.
  destruct (H2 r e1 Hr) as (e2 & ? & ? & ?). exists e2. split_and!; congruence.
Qed.

Lemma write_same_mounts t r e e' :
  MountTableOps.deref t r = Some e → me_path e' = me_path e → me_tainted e' = me_tainted e →
  same_mounts t (MountTableOps.write r e' t).
Proof.
  intros Hr Hp Ht. split; [done|]. intros r0 e0 H0. unfold MountTableOps.deref, MountTableOps.write in *.
  simpl. destruct (decide (r0 = r)) as [->|Hne].
  - rewrite lookup_insert_eq. exists e'. split_and!; congruence.
  - rewrite lookup_insert_ne by done. eauto.
Qed.

Lemma deref_write t r e : MountTableOps.deref (MountTableOps.write r e t) r = Some e.
Proof. apply lookup_insert_eq. Qed.

Lemma update_entries_same ty key level refs : ∀ need t t' b,
  MountTableOps.update_entries ty key level need refs t = (t', Ok b) → same_mounts t t'.
Proof.
  induction refs as [|r refs IH]; simpl; intros need t t' b H; [by injection H as <- _|].
  destruct (MountTableOps.deref t r) as [e|] eqn:Er; [|by eapply IH].
  destruct (if is_empty (table e) then _ else _) as [e1 need1] eqn:E1.
  assert (me_path e1 = me_path e ∧ me_tainted e1 = me_tainted e) as [Hp Ht]
    by (destruct (is_empty (table e)); by injection E1 as <- _).
  assert (same_mounts t (MountTableOps.write r e1 t)) as Hs by (by eapply write_same_mounts).
  destruct key as [k|]; [|by etrans; [|eapply IH]].
  destruct (_ && _); [|by etrans; [|eapply IH]].
  destruct (calc_hmac k e1) as [e2| |] eqn:E2; [|done..]. apply calc_hmac_ok in E2 as (Hp2 & _ & Ht2).
  etrans; [done|]. etrans; [|by eapply IH].
  by eapply write_same_mounts; [apply deref_write|..].
Qed.

(** One iteration of [setup_auth] adds a route below [auth/] and leaves the
    table alone; it fails on a tainted entry, whose path has no route. *)
Lemma setup_auth_mount_ok r (s s' : AuthModule B T W) a :
  setup_auth_mount r s = (s', Ok a) →
  auth_table s' = auth_table s ∧
  ∀ p, starts_with AUTH_ROUTER_PREFIX p = false → trie_map (the_router s) !! p = None →
    trie_map (the_router s') !! p = None ∧
    ∀ e, MountTableOps.deref (auth_table s) r = Some e → me_path e = p → me_tainted e = false.
Proof.
  unfold setup_auth_mount. destruct (MountTableOps.deref (auth_table s) r) as [e|]; [|done]. intros H.
  inv_steps. unfold get_auth_backend in Hstep. injection Hstep as <- _.
  apply auth_with_router_ok in Hstep0 as [-> Hm].
  unfold Router.mount in *. destruct (trie_get_ancestor _ (the_router s)); [done|]. cbn [fst] in *.
  set (re := {| tainted := false |}) in *. destruct (me_tainted e) eqn:Et.
  - apply auth_with_router_ok in H as [-> Hr]. autorewrite with auth_parts in *. split; [done|].
    intros p Hp Hn. unfold Router.taint in *.
    destruct (trie_get _ _) as [re'|] eqn:Eg; [|done]. rewrite trie_get_spec, trie_map_insert in Eg.
    assert (starts_with AUTH_ROUTER_PREFIX (AUTH_ROUTER_PREFIX ++ me_path e) = true) as Ha
      by apply starts_with_app.
    assert (me_path e ≠ p) as Hne.
    { intros Heq. rewrite Heq, lookup_insert_ne in Eg by congruence. congruence. }
    cbn [fst]. rewrite !trie_map_insert, !lookup_insert_ne by congruence.
    split; [done|]. by intros e' [= <-].
  - injection H as <-. autorewrite with auth_parts. split; [done|]. intros p Hp Hn.
    rewrite trie_map_insert. split; [|by intros e' [= <-]].
    rewrite lookup_insert_ne; [done|]. intros Heq. change (AUTH_ROUTER_PREFIX ++ me_path e = p) in Heq.
    by rewrite <- Heq, starts_with_app in Hp.
Qed.

Lemma setup_auth_loop_tainted r e refs : ∀ (s s' : AuthModule B T W) a,
  r ∈ refs → MountTableOps.deref (auth_table s) r = Some e → me_tainted e = true →
  starts_with AUTH_ROUTER_PREFIX (me_path e) = false →
  trie_map (the_router s) !! me_path e = None →
  setup_auth_loop refs s ≠ (s', Ok a).
Proof.
  induction refs as [|r' refs IH]; simpl; intros s s' a Hin Hr Ht Hp Hn H; [by apply elem_of_nil in Hin|].
  inv_steps. apply setup_auth_mount_ok in Hstep as [Htab Hst].
  destruct (Hst _ Hp Hn) as [Hn' Hbad]. apply elem_of_cons in Hin as [->|Hin].
  - by rewrite (Hbad e Hr eq_refl) in Ht.
  - rewrite <- Htab in Hr. by eapply IH.
Qed.

Lemma with_barrier_table {A} (f : AESGCMBarrier.t B -> AESGCMBarrier.t B * result A) (s s' : AuthModule B T W) r :
  with_barrier f s = (s', r) → auth_table s' = auth_table s ∧ the_router s' = the_router s.
Proof. unfold with_barrier. destruct (f _). by intros [= <- _]. Qed.

(** Loading the table written at [AUTH_CONFIG_PATH], and the update after it. *)
Lemma load_auth_same (s s' : AuthModule B T W) key level t r a :
  MountTableOps.load AUTH_CONFIG_PATH key level (auth_table s) (barrier (am_core s)) = (t, Ok r) →
  load_auth key level s = (s', Ok a) →
  same_mounts t (auth_table s') ∧ the_router s' = the_router s.
Proof.
  intros Hl H. unfold load_auth in H. inv_steps. rewrite Hl in Hstep. injection Hstep as <- <-.
  injection Hstep0 as <- _. unfold update_auth_mount in H. inv_steps.
  autorewrite with auth_parts in Hstep.
  destruct (MountTableOps.update_entries _ _ _ _ _ _) as [t1 r1] eqn:Eu. injection Hstep as <- ->.
  apply update_entries_same in Eu. destruct a0.
  - apply with_barrier_table in H as [-> ->]. by autorewrite with auth_parts.
  - injection H as <- _. by autorewrite with auth_parts.
Qed.

(** The first step of disabling an auth method, [taint_auth_entry], writes the
    taint to the stored table.  If the server stops before the last step (or the
    view cannot be cleared), the module does not start any more: at every later
    unseal, [init] loads the tainted entry, and [setup_auth] taints its path
    without the [auth/] prefix the route has, which fails. *)
Theorem interrupted_disable_blocks_unseal (s s1 s2 s' : AuthModule B T W) (path : string) (r : nat)
    (e : MountEntry) (tb : result (DynBackend W)) :
  operational (barrier (am_core s)) → backend_key_ok AUTH_CONFIG_PATH →
  auth_entries s !! path = Some r → MountTableOps.deref (auth_table s) r = Some e →
  starts_with AUTH_ROUTER_PREFIX (me_path e) = false →
  taint_auth_entry path s = (s1, Ok tt) →
  barrier (am_core s2) = barrier (am_core s1) → mount_entry_hmac_level (am_core s2) = HmacNone →
  trie_map (the_router s2) !! me_path e = None →
  init_mounts tb s2 ≠ (s', Ok tt).
Proof.
  intros Hop Hk Hp Hr Hpre Htaint Hbar Hlev Hroute H.
  unfold taint_auth_entry in Htaint. inv_steps. apply auth_with_table_ok in Hstep as [-> ->].
  unfold MountTableOps.set_taint in Htaint. cbn [entries auth_table] in Htaint. rewrite Hp, Hr in Htaint.
  cbn [fst snd] in Htaint. apply persist_auth_ok in Htaint as (b & Hb & ->).
  autorewrite with auth_parts in *. unfold init_mounts in H. inv_steps.
  unfold add_auth_backend in Hstep. destruct (auth_backends s2 !! _); [done|]. injection Hstep as <- <-.
  injection Hstep0 as <- <-.
  set (s3 := set_backends _ s2) in *.
  destruct (persist_load_all AUTH_CONFIG_PATH _ (auth_table s3) _ b (Some (hmac_key (am_core s3))) Hop Hk Hb)
    as (t' & Hl & Hsnap).
  replace b with (barrier (am_core s3)) in Hl by (rewrite <- Hbar; done).
  rewrite <- Hlev in Hl. destruct (load_auth_same _ _ _ _ _ _ _ Hl Hstep1) as [[He Hs] Hrt].
  assert (MountTableOps.get path t' = Some (MountEntryOps.set_taint true e)) as Hg.
  { rewrite <- lookup_snapshot, Hsnap, lookup_snapshot. unfold MountTableOps.get. simpl. rewrite Hp. simpl.
    apply deref_write. }
  unfold MountTableOps.get in Hg. destruct (entries t' !! path) as [r'|] eqn:Er; [|done].
  destruct (Hs r' _ Hg) as (e' & Hr' & Hpath & Ht).
  refine (setup_auth_loop_tainted r' e' _ _ _ _ _ Hr' Ht _ _ H).
  - apply list_elem_of_fmap. exists (path, r'). split; [done|]. apply elem_of_map_to_list.
    change (entries (auth_table c1) !! path = Some r'). by rewrite He.
  - by rewrite Hpath.
  - by rewrite Hrt, Hpath.
Qed.

(** ** An unreadable table *)

(** [update_entries] changes nothing in a table whose entries name their type,
    when no HMAC is asked for. *)
Lemma update_entries_id ty key refs : ∀ t,
  (∀ r e, r ∈ refs → MountTableOps.deref t r = Some e → is_empty (table e) = false) →
  MountTableOps.update_entries ty key HmacNone false refs t = (t, Ok false).
Proof.
  induction refs as [|r refs IH]; simpl; intros t Ht; [done|].
  destruct (MountTableOps.deref t r) as [e|] eqn:Er; [|apply IH; set_solver].
  rewrite (Ht r e) by (done || set_solver).
  assert (MountTableOps.write r e t = t) as ->.
  { unfold MountTableOps.write, MountTableOps.deref in *. rewrite insert_id by done. by destruct t. }
  destruct key; rewrite ?andb_false_r; apply IH; set_solver.
Qed.

Lemma update_auth_mount_id key (s s' : AuthModule B T W) a :
  (∀ p e, MountTableOps.get p (auth_table s) = Some e → is_empty (table e) = false) →
  update_auth_mount key HmacNone s = (s', Ok a) →
  auth_table s' = auth_table s ∧ barrier (am_core s') = barrier (am_core s).
Proof.
  intros Ht H. unfold update_auth_mount in H. inv_steps. rewrite update_entries_id in Hstep.
  - injection Hstep as <- <-. injection H as <- _. by autorewrite with auth_parts.
  - intros r e ([p r'] & -> & Hin%elem_of_map_to_list)%list_elem_of_fmap Hr. apply (Ht p).
    unfold MountTableOps.get. by rewrite Hin.
Qed.

Lemma set_default_token key t t' a :
  MountTableOps.set_default DEFAULT_AUTH_MOUNTS key t = (t', Ok a) →
  ∃ e, t' = MountTableOps.insert_entry "token/" e t ∧
       table e = AUTH_TABLE_TYPE ∧ me_path e = "token/" ∧ logical_type e = "token".
Proof.
  unfold DEFAULT_AUTH_MOUNTS, MountTableOps.set_default, calc_hmac. intros H.
  destruct key as [k|]; [destruct (hmac_sign _ _); [|done]|]; injection H as <- _; eexists;
    (split; [reflexivity|done]).
Qed.

Lemma snapshot_single p e t :
  entries t = ∅ → MountTableOps.snapshot (MountTableOps.insert_entry p e t) = {[p := e]}.
Proof.
  intros Hemp. apply map_eq. intros q. rewrite lookup_snapshot, get_insert_entry.
  - unfold MountTableOps.get. rewrite Hemp. destruct (decide (p = q)) as [<-|Hne].
    + by rewrite lookup_singleton_eq.
    + by rewrite lookup_singleton_ne.
  - intros q' r. by rewrite Hemp, lookup_empty.
Qed.

(** A stored table that cannot be read (here, a value that is not JSON of a
    mount table) is not an error of [load_auth]: the default table, the token
    method alone, takes its place, and is written over the stored one. *)
Theorem unreadable_auth_table_replaced (s s' : AuthModule B T W) (key : option bytes) (entry : StorageEntry)
    (t0 : MountTable) :
  operational (barrier (am_core s)) → backend_key_ok AUTH_CONFIG_PATH → auth_entries s = ∅ →
  storage_get (barrier (am_core s)) AUTH_CONFIG_PATH = Ok (Some entry) →
  de (A := gmap string MountEntry) (se_value entry) = None →
  load_auth key HmacNone s = (s', Ok tt) →
  ∃ e, me_path e = "token/" ∧ logical_type e = "token" ∧
    MountTableOps.snapshot (auth_table s') = {["token/" := e]} ∧
    ∃ t', MountTableOps.load AUTH_CONFIG_PATH key HmacNone t0 (barrier (am_core s')) = (t', Ok tt) ∧
          MountTableOps.snapshot t' = {["token/" := e]}.
Proof.
  intros Hop Hk Hemp Hget Hde H. unfold load_auth in H. inv_steps.
  unfold MountTableOps.load in Hstep. rewrite Hget, Hde in Hstep. injection Hstep as <- <-.
  inv_steps. autorewrite with auth_parts in *.
  destruct (MountTableOps.set_default _ _ _) as [t1 r1] eqn:Ed. injection Hstep as <- ->.
  apply set_default_token in Ed as (e & -> & Htab & Hp & Hl). exists e.
  apply persist_auth_ok in Hstep0 as (b & Hb & ->). autorewrite with auth_parts in *.
  set (t1 := MountTableOps.insert_entry "token/" e (auth_table s)) in *.
  assert (MountTableOps.snapshot t1 = {["token/" := e]}) as Hsnap by (by apply snapshot_single).
  apply update_auth_mount_id in H as [Ht Hbar]; autorewrite with auth_parts in *.
  - rewrite Ht, Hbar. split_and!; [done|done|done|]. rewrite <- Hsnap. destruct a0. by eapply persist_load_all.
  - intros p e'. rewrite <- lookup_snapshot, Hsnap. intros [_ <-]%lookup_singleton_Some. by rewrite Htab.
Qed.

End auth.

(** *** Witnesses: an auth module over the in-memory backend *)

Definition demo_auth : AuthModule MemBackend.t (gmap string) nat :=
  {| am_core := demo_core; auth_entries := ∅; auth_router := None;
     auth_backends := {["userpass" := Ok demo_dyn]} |}.

Abbreviation demo_enable := (AuthMounts.enable_auth (HG := toy_gcm) (HR := demo_rng)
  (HU := demo_uuid) (HSM := demo_table_serde)).
Abbreviation demo_taint := (AuthMounts.taint_auth_entry (HG := toy_gcm) (HR := demo_rng)
  (HSM := demo_table_serde)).
Abbreviation demo_load_auth := (AuthMounts.load_auth (HG := toy_gcm) (HR := demo_rng) (HH := demo_hmac)
  (HX := demo_hex) (HU := demo_uuid) (HSM := demo_table_serde)).
Abbreviation demo_init_auth := (AuthMounts.init_mounts (HG := toy_gcm) (HR := demo_rng) (HH := demo_hmac)
  (HX := demo_hex) (HU := demo_uuid) (HSM := demo_table_serde)).

Definition demo_method : MountEntry := MountEntryOps.new "auth" "userpass" "userpass" "".
Definition demo_enabled : AuthModule MemBackend.t (gmap string) nat := fst (demo_enable demo_method demo_auth).

Lemma enable_auth_persisted_witness :
  ∃ e, MountTableOps.get "userpass/" (AuthMounts.auth_table demo_enabled) = Some e ∧
       Router.matching_mount "auth/userpass/" (AuthMounts.the_router demo_enabled) = "auth/userpass/".
Proof.
  destruct (enable_auth_persisted (HBS := MemBackend.backend_spec) (HG := toy_gcm) (HGL := toy_gcm_laws)
      (HR := demo_rng) (HH := demo_hmac) (HU := demo_uuid) (HSM := demo_table_serde)
      (HSML := countable_serde_laws (gmap string MountEntry))
      demo_auth demo_enabled demo_method None MountTableOps.new demo_operational I)
    as (e & -> & Hg & Hm & _).
  - intros p r. simpl. rewrite lookup_empty. discriminate.
  - unfold demo_enabled. apply pair_of_snd. by vm_compute.
  - eexists. exact (conj Hg Hm).
Defined.

Definition demo_interrupted : AuthModule MemBackend.t (gmap string) nat :=
  fst (demo_taint "userpass/" demo_enabled).

(** The module of the next start, over the storage the interrupted disable left. *)
Definition demo_start (b : AESGCMBarrier.t MemBackend.t) : AuthModule MemBackend.t (gmap string) nat :=
  {| am_core := set_barrier b demo_core; auth_entries := ∅; auth_router := None;
     auth_backends := {["userpass" := Ok demo_dyn]} |}.
Definition demo_restarted : AuthModule MemBackend.t (gmap string) nat :=
  demo_start (barrier (am_core demo_interrupted)).

Lemma demo_start_barrier b : barrier (am_core (demo_start b)) = b.
Proof. done. Defined.
Lemma demo_start_level b : mount_entry_hmac_level (am_core (demo_start b)) = HmacNone.
Proof. done. Defined.

Lemma interrupted_disable_blocks_unseal_witness :
  demo_init_auth (Ok demo_dyn) demo_restarted ≠ (fst (demo_init_auth (Ok demo_dyn) demo_restarted), Ok tt).
Proof.
  apply (interrupted_disable_blocks_unseal (HBS := MemBackend.backend_spec) (HG := toy_gcm)
      (HGL := toy_gcm_laws) (HR := demo_rng) (HH := demo_hmac) (HU := demo_uuid) (HX := demo_hex)
      (HSM := demo_table_serde) (HSML := countable_serde_laws (gmap string MountEntry))
      demo_enabled demo_interrupted demo_restarted _ "userpass/" 0
      (set_uuid "uuid3" (set_me_path "userpass/" demo_method)) (Ok demo_dyn)).
  - apply demo_ready. by vm_compute.
  - exact I.
  - by vm_compute.
  - by vm_compute.
  - by vm_compute.
  - unfold demo_interrupted. apply pair_of_snd. by vm_compute.
  - apply demo_start_barrier.
  - apply demo_start_level.
  - by vm_compute.
Defined.

(** A module over a barrier that holds garbage in place of the table. *)
Definition demo_garbage : AuthModule MemBackend.t (gmap string) nat :=
  {| am_core := set_barrier (fst (AESGCMBarrier.put (HG := toy_gcm) (HR := demo_rng) demo_barrier
                               {| se_key := AUTH_CONFIG_PATH; se_value := [x00] |})) demo_core;
     auth_entries := ∅; auth_router := None; auth_backends := ∅ |}.

Lemma unreadable_auth_table_replaced_witness :
  ∃ e, MountTableOps.snapshot (AuthMounts.auth_table (fst (demo_load_auth None HmacNone demo_garbage)))
       = {["token/" := e]}.
Proof.
  destruct (unreadable_auth_table_replaced (HBS := MemBackend.backend_spec) (HG := toy_gcm)
      (HGL := toy_gcm_laws) (HR := demo_rng) (HH := demo_hmac) (HU := demo_uuid) (HX := demo_hex)
      (HSM := demo_table_serde) (HSML := countable_serde_laws (gmap string MountEntry))
      demo_garbage (fst (demo_load_auth None HmacNone demo_garbage)) None
      {| se_key := AUTH_CONFIG_PATH; se_value := [x00] |} MountTableOps.new) as (e & _ & _ & He & _).
  - apply demo_ready. by vm_compute.
  - exact I.
  - reflexivity.
  - by vm_compute.
  - by vm_compute.
  - apply pair_of_snd. by vm_compute.
  - exists e. exact He.
Defined.
