(* ===== verification/VaultCore.v ===== *)
(** * The core: initialisation, unsealing, sealing, request phases
    (src/src/core.rs, src/src/module_manager.rs, the traits of handler.rs)

    [Module ModuleManager] runs the modules' hooks; [Module CoreOps] translates
    the life cycle operations of [Core] over the state of [Mount]; [Module
    Phases] is [handle_request] with its four phases. *)

From stdpp Require Import base tactics list gmap strings.
From Stdlib Require Import ZArith Lia.
From S2P Require Import Prelude Errors Shamir RustStr Utils Storage BarrierView Logical LogicalBackend Router Mount.

Local Open Scope string_scope.

Definition SEAL_CONFIG_PATH : string := "core/seal-config".

Record SealConfig := { secret_shares : byte; secret_threshold : byte }.

Record InitResult := { init_shares : list bytes; root_token : string }.

Definition validate (self : SealConfig) : result unit :=
  if (u8 (secret_shares self) <? u8 (secret_threshold self))%nat then Err ErrCoreSealConfigInvalid
  else Ok tt.

(** A module of the vault (trait [Module]) acting on a state [C]. *)
Record VaultModule (C : Type) := {
  module_name : string;
  module_setup : st C RvError unit;
  module_init : st C RvError unit;
  module_cleanup : st C RvError unit
}.
Arguments module_name {C}.
Arguments module_setup {C}.
Arguments module_init {C}.
Arguments module_cleanup {C}.

Module ModuleManager.
Section manager.
Context {C : Type}.

Abbreviation t := (list (VaultModule C)).

Definition new : t := [].

Definition get_module (self : t) (name : string) : option (VaultModule C) :=
  List.find (λ m, String.eqb (module_name m) name) self.

Definition add_module (self : t) (m : VaultModule C) : t * result unit :=
  match get_module self (module_name m) with
  | Some _ => (self, Err ErrModuleConflict)
  | None => ((self ++ [m])%list, Ok tt)
  end.

Definition remove_module (self : t) (name : string) : t :=
  List.filter (λ m, negb (String.eqb (module_name m) name)) self.

(** A hook of every module in order, up to the first failure. *)
Fixpoint run_all (hook : VaultModule C -> st C RvError unit) (self : t) : st C RvError unit :=
  match self with
  | [] => st_ret tt
  | m :: self => let! _ := hook m in run_all hook self
  end.

Definition setup (self : t) : st C RvError unit := run_all module_setup self.
Definition init (self : t) : st C RvError unit := run_all module_init self.
Definition cleanup (self : t) : st C RvError unit := run_all module_cleanup self.

End manager.
End ModuleManager.

(** Random numbers drawn after the first [n]. *)
Definition later_rng (n : nat) (HR : Rng) : Rng :=
  {| fill_bytes := fun i => fill_bytes (n + i);
     fill_bytes_length := fun i => fill_bytes_length (n + i) |}.

Module CoreOps.
Section core.
Context {B : Type} `{HB : Backend B} `{HG : AesGcm} `{HR : Rng} `{HS : Serde BarrierInit} `{HSha : Sha256}.
Context {T : Type -> Type} `{HT : RadixTrie T} {W : Type}.
Context `{HH : HmacSha256} `{HX : HexCodec} `{HU : UuidGen} `{HSM : Serde (gmap string MountEntry)}.
Context `{HSC : Serde SealConfig} `{HP : Profile}.

Abbreviation core := (Core B T W).
Abbreviation m := (st core RvError).

(** The modules, and the root token the auth module's token store creates. *)
Context (modules : list (VaultModule core)) (create_root_token : option (m string)).

Definition inited : m bool := fun c => (c, AESGCMBarrier.inited (barrier c)).

Definition barrier_sealed (c : core) : bool := AESGCMBarrier.sealed (AESGCMBarrier.info (barrier c)).

(** [self.physical.put]: the barrier's own backend. *)
Definition physical_put (e : BackendEntry) : m unit :=
  CoreMounts.with_barrier (λ b,
    let '(p, r) := backend_put (AESGCMBarrier.backend b) e in (AESGCMBarrier.set_backend b p, r)).

Definition seal_config : m SealConfig := fun c =>
  (c, let? pe := backend_get (AESGCMBarrier.backend (barrier c)) SEAL_CONFIG_PATH in
      match pe with
      | None => Err ErrCoreSealConfigNotFound
      | Some pe =>
          let? config := of_option SerdeJson (de (be_value pe)) in
          let? _ := validate config in
          Ok config
      end).

Definition derive_hmac_key : m unit := fun c =>
  match AESGCMBarrier.derive_hmac_key (barrier c) with
  | Ok k => (set_hmac_key k c, Ok tt)
  | Err e => (c, Err e)
  | Panic => (c, Panic)
  end.

Definition load_mounts : m unit := fun c =>
  let '(t, b, r) := MountTableOps.load_or_default (Some (hmac_key c)) (mount_entry_hmac_level c)
                      (mounts c) (barrier c) in
  (set_mounts t (set_barrier b c), r).

Definition post_unseal : m unit :=
  let! _ := ModuleManager.setup modules in
  let! _ := derive_hmac_key in
  let! _ := load_mounts in
  let! _ := CoreMounts.setup_mounts in
  ModuleManager.init modules.

Definition pre_seal : m unit :=
  let! _ := ModuleManager.cleanup modules in
  CoreMounts.unload_mounts.

Definition seal_barrier (c : core) : core := set_barrier (AESGCMBarrier.seal (barrier c)) c.

(** [defer!]: the barrier is sealed again whatever the outcome. *)
Definition defer_seal {A} (body : m A) : m A := fun c =>
  let '(c, r) := body c in (seal_barrier c, r).

Definition init (config : SealConfig) : m InitResult :=
  let! already := inited in
  let! _ := CoreMounts.guard already ErrBarrierAlreadyInit in
  let! _ := st_lift (validate config) in
  let! serialized := st_lift (of_option SerdeJson (ser config)) in
  let! _ := physical_put {| be_key := SEAL_CONFIG_PATH; be_value := serialized |} in
  let! master_key := CoreMounts.with_barrier (λ b,
    let '(b, k) := AESGCMBarrier.generate_key b in (b, Ok k)) in
  let! _ := CoreMounts.with_barrier (AESGCMBarrier.init master_key) in
  let! c := st_get in
  let! shares := st_lift
    (if (u8 (secret_shares config) =? 1)%nat then Ok [master_key]
     else ShamirSecret.split (H0 := later_rng (AESGCMBarrier.draws (barrier c)) HR)
            master_key (secret_shares config) (secret_threshold config)) in
  let! _ := CoreMounts.with_barrier (AESGCMBarrier.unseal master_key) in
  defer_seal
    (let! _ := post_unseal in
     let! token := match create_root_token with Some f => f | None => st_ret "" end in
     let! _ := pre_seal in
     st_ret {| init_shares := shares; root_token := token |}).

Definition unseal_progress (c : core) : nat := length (unseal_key_shares c).

Definition clear_shares : m unit := fun c => (set_unseal_key_shares [] c, Ok tt).

(** The master key from the collected shares, which are then forgotten. *)
Definition recover_master_key (config : SealConfig) : m bytes := fun c =>
  if (u8 (secret_threshold config) =? 1)%nat then
    match unseal_key_shares c with
    | k :: _ => (set_unseal_key_shares [] c, Ok k)
    | [] => (c, Panic)
    end
  else
    match ShamirSecret.combine (unseal_key_shares c) with
    | Ok (Some k) => (set_unseal_key_shares [] c, Ok k)
    | Ok None => (set_unseal_key_shares [] c, Err ErrBarrierKeyInvalid)
    | Err e => (c, Err e)
    | Panic => (c, Panic)
    end.

Definition unseal (key : bytes) : m bool :=
  let! already := inited in
  let! _ := CoreMounts.guard (negb already) ErrBarrierNotInit in
  let! c := st_get in
  let! _ := CoreMounts.guard (negb (barrier_sealed c)) ErrBarrierUnsealed in
  let '(min, max) := AESGCMBarrier.key_length_range in
  let max := (max + ShamirSecret.SHAMIR_OVERHEAD)%nat in
  let! _ := CoreMounts.guard ((length key <? min)%nat || (max <? length key)%nat) ErrBarrierKeyInvalid in
  let! config := seal_config in
  if existsb (λ v, bool_decide (v = key)) (unseal_key_shares c) then st_ret false
  else
    let! _ := st_put (set_unseal_key_shares (unseal_key_shares c ++ [key])%list c) in
    let! c := st_get in
    if (length (unseal_key_shares c) <? u8 (secret_threshold config))%nat then st_ret false
    else
      let! master_key := recover_master_key config in
      let! _ := CoreMounts.with_barrier (AESGCMBarrier.unseal master_key) in
      let! _ := post_unseal in
      fun c => (set_core_sealed false c, Ok true).

Definition seal : m unit :=
  let! already := inited in
  let! _ := CoreMounts.guard (negb already) ErrBarrierNotInit in
  let! c := st_get in
  let! _ := CoreMounts.guard (barrier_sealed c) ErrBarrierSealed in
  let! _ := pre_seal in
  fun c => (seal_barrier (set_core_sealed true c), Ok tt).

(** Registration of backends. *)
Definition add_logical_backend (lt : string) (b : result (DynBackend W)) : m unit := fun c =>
  match logical_backends c !! lt with
  | Some _ => (c, Err ErrCoreLogicalBackendExist)
  | None => (set_logical_backends (<[lt := b]> (logical_backends c)) c, Ok tt)
  end.

Definition delete_logical_backend (lt : string) : m unit := fun c =>
  (set_logical_backends (delete lt (logical_backends c)) c, Ok tt).

End core.
End CoreOps.

(** ** Request handling in phases *)

(** [trait Handler]: the hooks; a default hook fails with [ErrHandlerDefault]. *)
Record Handler (W : Type) := {
  handler_name : string;
  pre_route : st (W * Request) RvError (option Response);
  route : st (W * Request) RvError (option Response);
  post_route : st (W * Request * option Response) RvError unit;
  log_ : Request -> option Response -> st W RvError unit
}.
Arguments handler_name {W}.
Arguments pre_route {W}.
Arguments route {W}.
Arguments post_route {W}.
Arguments log_ {W}.

Module Phases.
Section phases.
Context {W : Type}.
(** The handler bound to a request, by its name. *)
Context (bound_handler : string -> option (Handler W)).

Definition add_handler (handlers : list (Handler W)) (h : Handler W) : list (Handler W) * result unit :=
  if existsb (λ x, String.eqb (handler_name x) (handler_name h)) handlers
  then (handlers, Err ErrCoreHandlerExist) else ((handlers ++ [h])%list, Ok tt).

Definition delete_handler (handlers : list (Handler W)) (h : Handler W) : list (Handler W) :=
  List.filter (λ x, negb (String.eqb (handler_name x) (handler_name h))) handlers.

Definition set_phase (p : HandlePhase) : st (W * Request) RvError unit :=
  fun '(w, req) => ((w, set_handle_phase p req), Ok tt).

Definition bound (req : Request) : option (Handler W) := RequestOps.get_handler req ≫= bound_handler.

(** The loop shared by the pre-route and route phases: the first response or
    error other than the default one ends it. *)
Fixpoint first_response (hook : Handler W -> st (W * Request) RvError (option Response))
    (handlers : list (Handler W)) : st (W * Request) RvError (option Response) :=
  match handlers with
  | [] => st_ret None
  | h :: handlers => fun s =>
      match hook h s with
      | (s, Ok (Some res)) => (s, Ok (Some res))
      | (s, Err e) => if RvError_eq e ErrHandlerDefault then first_response hook handlers s else (s, Err e)
      | (s, Ok None) => first_response hook handlers s
      | (s, Panic) => (s, Panic)
      end
  end.

Definition handle_pre_route_phase (handlers : list (Handler W))
  : st (W * Request) RvError (option Response) :=
  let! _ := set_phase PreRoute in first_response pre_route handlers.

Definition handle_route_phase (handlers : list (Handler W))
  : st (W * Request) RvError (option Response) :=
  let! _ := set_phase Route in
  fun s =>
    match bound (snd s) with
    | None => first_response route handlers s
    | Some b =>
        match route b s with
        | (s, Ok res) => (s, Ok res)
        | (s, Err e) => if RvError_eq e ErrHandlerDefault then first_response route handlers s else (s, Err e)
        | (s, Panic) => (s, Panic)
        end
    end.

Fixpoint run_post_route (handlers : list (Handler W)) : st (W * Request * option Response) RvError unit :=
  match handlers with
  | [] => st_ret tt
  | h :: handlers => fun s =>
      match post_route h s with
      | (s, Err e) => if RvError_eq e ErrHandlerDefault then run_post_route handlers s else (s, Err e)
      | (s, Ok _) => run_post_route handlers s
      | (s, Panic) => (s, Panic)
      end
  end.

Definition handle_post_route_phase (handlers : list (Handler W))
  : st (W * Request * option Response) RvError unit := fun '(w, req, resp) =>
  let s := (w, set_handle_phase PostRoute req, resp) in
  match bound req with
  | None => run_post_route handlers s
  | Some b =>
      match post_route b s with
      | (s, Ok _) => (s, Ok tt)
      | (s, Err e) => if RvError_eq e ErrHandlerDefault then run_post_route handlers s else (s, Err e)
      | (s, Panic) => (s, Panic)
      end
  end.

Fixpoint run_log (handlers : list (Handler W)) (req : Request) (resp : option Response)
  : st W RvError unit :=
  match handlers with
  | [] => st_ret tt
  | h :: handlers => fun w =>
      match log_ h req resp w with
      | (w, Err e) => if RvError_eq e ErrHandlerDefault then run_log handlers req resp w else (w, Err e)
      | (w, Ok _) => run_log handlers req resp w
      | (w, Panic) => (w, Panic)
      end
  end.

Definition handle_log_phase (handlers : list (Handler W)) (resp : option Response)
  : st (W * Request) RvError unit := fun '(w, req) =>
  let req := set_handle_phase Log req in
  let '(w, r) :=
    match bound req with
    | None => run_log handlers req resp w
    | Some b =>
        match log_ b req resp w with
        | (w, Ok _) => (w, Ok tt)
        | (w, Err e) => if RvError_eq e ErrHandlerDefault then run_log handlers req resp w else (w, Err e)
        | (w, Panic) => (w, Panic)
        end
    end in
  ((w, req), r).

(** The route and post-route phases, run when the pre-route phase gave neither
    a response nor an error. *)
Definition route_and_post (handlers : list (Handler W)) : st (W * Request) RvError (option Response) :=
  let! resp := handle_route_phase handlers in
  fun '(w, req) =>
    match handle_post_route_phase handlers (w, req, resp) with
    | ((w, req, resp), Ok _) => ((w, req), Ok resp)
    | ((w, req, resp), Err e) => ((w, req), Err e)
    | ((w, req, resp), Panic) => ((w, req), Panic)
    end.

Definition handle_request (sealed : bool) (handlers : list (Handler W))
  : st (W * Request) RvError (option Response) :=
  if sealed then st_fail ErrBarrierSealed
  else
    let! resp := handle_pre_route_phase handlers in
    let! resp := match resp with
                 | Some r => st_ret (Some r)
                 | None => route_and_post handlers
                 end in
    let! _ := handle_log_phase handlers resp in
    st_ret resp.

End phases.
End Phases.
