(* ===== verification/VaultCorrect.v ===== *)
(** * Correctness of the vault's life cycle (theorems about src/src/core.rs)

    Unsealing with a threshold of shares, initialisation with a bad
    configuration, sealing, and the order of the request phases. *)

From stdpp Require Import base tactics list gmap strings.
From Stdlib Require Import ZArith Lia.
From S2P Require Import Prelude Errors Shamir ShamirCorrect RustStr Utils Storage BarrierCorrect BarrierView Logical LogicalBackend Router Mount MountCorrect VaultCore.

Section lifecycle.
Context {B : Type} `{HB : Backend B} `{HBS : !BackendSpec B} `{HG : AesGcm} `{HGL : !AesGcmLaws}
        `{HR : Rng} `{HS : Serde BarrierInit} `{HSL : !SerdeLaws BarrierInit} `{HSha : Sha256}.
Context {T : Type -> Type} `{HT : RadixTrie T} `{HTL : !RadixTrieLaws T} {W : Type}.
Context `{HH : HmacSha256} `{HX : HexCodec} `{HU : UuidGen} `{HSM : Serde (gmap string MountEntry)}.
Context `{HSC : Serde SealConfig} `{HSCL : !SerdeLaws SealConfig} `{HP : Profile}.
Context (modules : list (VaultModule (Core B T W))) (token : option (st (Core B T W) RvError string)).

(** A sealed vault whose barrier was initialised with [master] and whose seal
    configuration is [config]. *)
Record sealed_with (c : Core B T W) (master : bytes) (config : SealConfig) (enc : bytes) : Prop := {
  sw_sealed : CoreOps.barrier_sealed c = true;
  sw_shares : unseal_key_shares c = [];
  sw_init : ∃ ct value version,
    contents (AESGCMBarrier.backend (barrier c)) !! BARRIER_INIT_PATH = Some ct ∧
    (∀ s, AESGCMBarrier.key (AESGCMBarrier.info s) = Some master →
          AESGCMBarrier.decrypt (B := B) s BARRIER_INIT_PATH ct = Ok value) ∧
    de value = Some {| bi_version := version; bi_key := enc |};
  sw_config_ok : backend_key_ok SEAL_CONFIG_PATH;
  sw_config : ∃ bs, contents (AESGCMBarrier.backend (barrier c)) !! SEAL_CONFIG_PATH = Some bs ∧
                    de bs = Some config;
  sw_valid : validate config = Ok tt
}.

Section unsealing.
Context (c : Core B T W) (master enc : bytes) (config : SealConfig).
Hypothesis Hsw : sealed_with c master config enc.

Lemma inited_true ks : AESGCMBarrier.inited (barrier (set_unseal_key_shares ks c)) = Ok true.
Proof.
  destruct (sw_init _ _ _ _ Hsw) as (ct & value & v & Hct & _). simpl.
  rewrite inited_spec, bool_decide_true by eauto. done.
Qed.

Lemma config_read ks :
  CoreOps.seal_config (set_unseal_key_shares ks c) = (set_unseal_key_shares ks c, Ok config).
Proof.
  unfold CoreOps.seal_config. simpl. rewrite backend_get_spec by apply Hsw.
  destruct (sw_config _ _ _ _ Hsw) as (bs & -> & Hde). simpl. rewrite Hde. simpl.
  by rewrite (sw_valid _ _ _ _ Hsw).
Qed.

(** [unseal] on a new share of acceptable length. *)
Lemma unseal_step ks k :
  16 ≤ length k ≤ 33 → k ∉ ks →
  CoreOps.unseal modules k (set_unseal_key_shares ks c) =
    let c1 := set_unseal_key_shares (ks ++ [k]) c in
    if length (ks ++ [k]) <? u8 (secret_threshold config) then (c1, Ok false)
    else
      (let! master_key := CoreOps.recover_master_key config in
       let! _ := CoreMounts.with_barrier (AESGCMBarrier.unseal master_key) in
       let! _ := CoreOps.post_unseal modules in
       fun c => (set_core_sealed false c, Ok true)) c1.
Proof.
  intros Hlen Hnew. unfold CoreOps.unseal.
  rewrite (st_bind_run _ _ _ (set_unseal_key_shares ks c) true)
    by (unfold CoreOps.inited; by rewrite inited_true).
  rewrite (st_bind_run _ _ _ (set_unseal_key_shares ks c) tt) by done.
  rewrite (st_bind_run _ _ _ (set_unseal_key_shares ks c) (set_unseal_key_shares ks c)) by done.
  rewrite (st_bind_run _ _ _ (set_unseal_key_shares ks c) tt).
  2: { unfold CoreOps.barrier_sealed. simpl. pose proof (sw_sealed _ _ _ _ Hsw) as H.
       unfold CoreOps.barrier_sealed in H. by rewrite H. }
  cbn -[CoreOps.seal_config st_bind CoreOps.post_unseal CoreOps.recover_master_key Nat.ltb].
  rewrite (st_bind_run _ _ _ (set_unseal_key_shares ks c) tt).
  2: { assert ((length k <? 16) || (33 <? length k) = false) as E.
       { apply orb_false_iff. rewrite !Nat.ltb_ge. lia. }
       unfold CoreMounts.guard. change (_ || _) with ((length k <? 16) || (33 <? length k)). by rewrite E. }
  rewrite (st_bind_run _ _ _ _ config) by apply config_read.
  assert (existsb (λ v, bool_decide (v = k)) ks = false) as ->.
  { apply not_true_is_false. intros (v & Hv & ->%bool_decide_eq_true)%existsb_exists.
    by apply Hnew, list_elem_of_In. }
  set (c1 := set_unseal_key_shares (ks ++ [k]) c).
  rewrite (st_bind_run _ _ _ c1 tt) by done. rewrite (st_bind_run _ _ _ c1 c1) by done.
  cbv zeta. change (unseal_key_shares c1) with (ks ++ [k]).
  by destruct (length (ks ++ [k]) <? u8 (secret_threshold config)).
Qed.

(** The core after the barrier is opened. *)
Definition opened : Core B T W :=
  set_barrier (AESGCMBarrier.set_sealed (AESGCMBarrier.init_cipher (barrier c) enc) false)
    (set_unseal_key_shares [] c).

Lemma unseal_last ks k :
  16 ≤ length k ≤ 33 → k ∉ ks → u8 (secret_threshold config) ≤ length (ks ++ [k]) →
  CoreOps.recover_master_key config (set_unseal_key_shares (ks ++ [k]) c)
    = (set_unseal_key_shares [] c, Ok master) →
  CoreOps.unseal modules k (set_unseal_key_shares ks c) =
    (let! _ := CoreOps.post_unseal modules in fun c => (set_core_sealed false c, Ok true)) opened.
Proof.
  intros Hlen Hnew Ht Hrec. rewrite unseal_step by done. cbv zeta.
  rewrite (proj2 (Nat.ltb_ge _ _)) by done. rewrite (st_bind_run _ _ _ _ _ Hrec).
  rewrite (st_bind_run _ _ _ opened tt); [done|].
  destruct (sw_init _ _ _ _ Hsw) as (ct & value & v & Hct & Hdec & Hde).
  unfold CoreMounts.with_barrier. simpl.
  rewrite (unseal_spec (barrier c) master ct value _ (sw_sealed _ _ _ _ Hsw) Hct (Hdec (AESGCMBarrier.init_cipher (barrier c) master) eq_refl) Hde).
  done.
Qed.

End unsealing.

(** The steps of unsealing with the shares of a split. *)
Lemma shares_unseal (c : Core B T W) (master enc : bytes) (config : SealConfig)
    (shares keys : list bytes) (n : nat) :
  sealed_with c master config enc → length master = 32 →
  2 ≤ u8 (secret_threshold config) → secret_shares config ≠ xff →
  ShamirSecret.split (H0 := later_rng n HR) master (secret_shares config) (secret_threshold config) = Ok shares →
  NoDup keys → (∀ k, k ∈ keys → k ∈ shares) → length keys = u8 (secret_threshold config) →
  (∀ ks k rest, keys = ks ++ k :: rest → rest ≠ [] →
     CoreOps.unseal modules k (set_unseal_key_shares ks c) =
       (set_unseal_key_shares (ks ++ [k]) c, Ok false)) ∧
  (∀ ks k, keys = ks ++ [k] →
     CoreOps.unseal modules k (set_unseal_key_shares ks c) =
       (let! _ := CoreOps.post_unseal modules in fun c => (set_core_sealed false c, Ok true))
         (opened c enc)).
Proof.
  intros Hsw Hm Ht Hff Hsplit Hnd Hsub Hlen.
  assert (u8 (secret_threshold config) ≤ u8 (secret_shares config)) as Hle.
  { pose proof (sw_valid _ _ _ _ Hsw) as Hv. unfold validate in Hv.
    destruct (Nat.ltb_spec (u8 (secret_shares config)) (u8 (secret_threshold config))); [done|lia]. }
  destruct (split_shares (H0 := later_rng n HR) master (secret_shares config) (secret_threshold config))
    as (shares' & Hs & _ & Hshare & Hcomb); [lia|done|].
  rewrite Hsplit in Hs. injection Hs as <-.
  assert (∀ k, k ∈ keys → 16 ≤ length k ≤ 33) as Hklen.
  { intros k Hk%Hsub%Hshare. rewrite Hk, Hm. unfold ShamirSecret.SHAMIR_OVERHEAD. lia. }
  split.
  - intros ks k rest -> Hrest. apply NoDup_app in Hnd as (_ & Hdis & _).
    rewrite (unseal_step c master enc config Hsw).
    + cbv zeta. rewrite (proj2 (Nat.ltb_lt _ _)); [done|]. rewrite <- Hlen, !length_app. simpl.
      destruct rest; [done|]. simpl. lia.
    + apply Hklen. set_solver.
    + intros Hk. apply (Hdis k Hk), list_elem_of_here.
  - intros ks k ->. pose proof Hnd as (_ & Hdis & _)%NoDup_app.
    apply (unseal_last c master enc config Hsw).
    + apply Hklen. set_solver.
    + intros Hk. apply (Hdis k Hk), list_elem_of_here.
    + lia.
    + unfold CoreOps.recover_master_key. rewrite (proj2 (Nat.eqb_neq _ 1)) by lia. simpl.
      rewrite (Hcomb (ks ++ [k])) by (done || lia). done.
Qed.

(** C3: unsealing with a threshold of shares.  For a vault whose master key was
    split into shares with threshold [t], entering any [t] distinct shares one
    after the other, in any order, works: every share but the last is recorded
    and reported as progress, changing nothing else; the last one recovers the
    master key, forgets the shares, opens the barrier with the stored encryption
    key and runs the setup of the vault. *)
Theorem unseal_with_threshold_shares (c : Core B T W) (master enc : bytes) (config : SealConfig)
    (shares keys : list bytes) (n : nat) :
  sealed_with c master config enc → length master = 32 →
  2 ≤ u8 (secret_threshold config) → secret_shares config ≠ xff →
  ShamirSecret.split (H0 := later_rng n HR) master (secret_shares config) (secret_threshold config) = Ok shares →
  NoDup keys → (∀ k, k ∈ keys → k ∈ shares) → length keys = u8 (secret_threshold config) →
  (∀ ks k rest, keys = ks ++ k :: rest → rest ≠ [] →
     CoreOps.unseal modules k (set_unseal_key_shares ks c) =
       (set_unseal_key_shares (ks ++ [k]) c, Ok false)) ∧
  (∀ ks k, keys = ks ++ [k] →
     CoreOps.unseal modules k (set_unseal_key_shares ks c) =
       (let! _ := CoreOps.post_unseal modules in fun c => (set_core_sealed false c, Ok true))
         (opened c enc)) ∧
  CoreOps.barrier_sealed (opened c enc) = false ∧
  AESGCMBarrier.key (AESGCMBarrier.info (barrier (opened c enc))) = Some enc ∧
  unseal_key_shares (opened c enc) = [].
Proof.
  intros Hsw Hm Ht Hff Hsplit Hnd Hsub Hlen.
  destruct (shares_unseal c master enc config shares keys n) as [Hrec Hlast]; [done..|]. by split_and!.
Qed.

Lemma inited_run (c : Core B T W) :
  CoreOps.inited c =
  (c, Ok (bool_decide (is_Some (contents (AESGCMBarrier.backend (barrier c)) !! BARRIER_INIT_PATH)))).
Proof. unfold CoreOps.inited. by rewrite inited_spec. Qed.

Lemma physical_put_run (c : Core B T W) e :
  backend_key_ok (be_key e) →
  ∃ b, CoreOps.physical_put e c = (set_barrier (AESGCMBarrier.set_backend (barrier c) b) c, Ok tt) ∧
       contents b = <[be_key e := be_value e]> (contents (AESGCMBarrier.backend (barrier c))).
Proof.
  intros Hk. unfold CoreOps.physical_put, CoreMounts.with_barrier.
  destruct (backend_put_spec (AESGCMBarrier.backend (barrier c)) e Hk) as (b & -> & Hb & _). eauto.
Qed.

(** A seal configuration with a threshold below two and two or more shares
    passes validation; [init] then fails only after the barrier is initialised
    under a master key that no one has received: the vault stays initialised
    for good, every later [init] is refused. *)
Theorem init_bad_threshold_loses_master_key (c : Core B T W) (config : SealConfig) :
  2 ≤ u8 (secret_shares config) → u8 (secret_threshold config) < 2 →
  AESGCMBarrier.info (barrier c) = AESGCMBarrier.default_info →
  contents (AESGCMBarrier.backend (barrier c)) !! BARRIER_INIT_PATH = None →
  backend_key_ok SEAL_CONFIG_PATH →
  key_accepted (fill_bytes (AESGCMBarrier.draws (barrier c)) 32) →
  validate config = Ok tt ∧
  ∃ c', CoreOps.init modules token config c = (c', Err ErrShamirShareCountInvalid) ∧
        is_Some (contents (AESGCMBarrier.backend (barrier c')) !! BARRIER_INIT_PATH) ∧
        ∀ config', CoreOps.init modules token config' c' = (c', Err ErrBarrierAlreadyInit).
Proof.
  intros Hn Ht Hi Hnone Hk Hacc.
  assert (validate config = Ok tt) as Hval.
  { unfold validate. by rewrite (proj2 (Nat.ltb_ge _ _)) by lia. }
  split; [done|]. unfold CoreOps.init at 1.
  rewrite (st_bind_run _ _ _ _ _ (inited_run c)), Hnone.
  rewrite bool_decide_false by (by intros []). rewrite (st_bind_run _ _ _ c tt) by done.
  rewrite Hval, (st_bind_run _ _ _ c tt) by done.
  destruct (ser_total config) as [bs Hbs]. rewrite (st_bind_run _ _ _ c bs) by (by rewrite Hbs).
  destruct (physical_put_run c {| be_key := SEAL_CONFIG_PATH; be_value := bs |} Hk) as (b & Hput & Hb).
  rewrite (st_bind_run _ _ _ _ _ Hput). set (c1 := set_barrier _ c).
  set (kek := fill_bytes (AESGCMBarrier.draws (barrier c)) 32) in *.
  set (b2 := fst (AESGCMBarrier.generate_key (barrier c1))).
  rewrite (st_bind_run _ _ c1 (set_barrier b2 c1) kek) by done.
  destruct (init_spec b2 kek) as (b3 & ct & value & Hinit & _ & Hb3 & _).
  { unfold known_version. simpl. rewrite Hi. by right. }
  { unfold kek. rewrite fill_bytes_length. lia. }
  { done. }
  { simpl. rewrite Hb. simpl. by rewrite lookup_insert_ne. }
  rewrite (st_bind_run _ _ _ (set_barrier b3 c1) tt)
    by (unfold CoreMounts.with_barrier; simpl; by rewrite Hinit).
  set (c2 := set_barrier b3 c1). rewrite (st_bind_run _ _ c2 c2 c2) by done.
  rewrite (st_bind_err _ _ c2 c2 ErrShamirShareCountInvalid).
  2: { rewrite (proj2 (Nat.eqb_neq _ 1)) by lia. unfold ShamirSecret.split.
       rewrite (proj2 (Nat.ltb_lt _ 2) Ht), orb_true_r. done. }
  assert (is_Some (contents (AESGCMBarrier.backend (barrier c2)) !! BARRIER_INIT_PATH)) as Hsome.
  { simpl. rewrite Hb3, lookup_insert_eq. eauto. }
  exists c2. split_and!; [done|done|]. intros config'. unfold CoreOps.init.
  rewrite (st_bind_run _ _ _ _ _ (inited_run c2)), bool_decide_true by done. done.
Qed.

(** C23: sealing, whatever the modules do, leaves nothing to serve from: the core
    and its barrier are sealed, the barrier has forgotten its key, no path is
    routed, the mount table and the system view are gone, and every request is
    refused. *)
Theorem seal_forgets_everything (c c' : Core B T W) :
  CoreOps.seal modules c = (c', Ok tt) →
  core_sealed c' = true ∧ CoreOps.barrier_sealed c' = true ∧
  AESGCMBarrier.key (AESGCMBarrier.info (barrier c')) = None ∧
  (∀ p, trie_get_ancestor p (router c') = None) ∧
  entries (mounts c') = ∅ ∧ system_view c' = None ∧
  ∀ bound handlers s,
    Phases.handle_request (W := W) bound (core_sealed c') handlers s = (s, Err ErrBarrierSealed).
Proof.
  intros H. unfold CoreOps.seal in H. inv_steps. unfold CoreOps.pre_seal in Hstep3. inv_steps.
  unfold CoreMounts.unload_mounts in Hstep3. injection Hstep3 as <- _. injection H as <-. simpl.
  split_and!; try done. intros p. apply get_ancestor_none_iff. intros q. unfold Router.new.
  rewrite trie_map_new, lookup_empty. by intros [].
Qed.

End lifecycle.

(** ** Request phases *)
Section phases.
Context {W : Type} (bnd : string -> option (Handler W)).
Import Phases.

(** A refusal in the pre-route phase is the outcome of the request. *)
Lemma pre_route_ends hs (s s' : W * Request) r :
  handle_pre_route_phase hs s = (s', r) → (∀ x, r ≠ Ok x) → handle_request bnd false hs s = (s', r).
Proof.
  intros Hpre Hr. unfold handle_request. destruct r as [x|e|]; [by destruct (Hr x)|by apply st_bind_err|].
  unfold st_bind. by rewrite Hpre.
Qed.

Lemma first_response_ext hook (hs hs' : list (Handler W)) s :
  Forall2 (λ h h', hook h = hook h') hs hs' → first_response hook hs s = first_response hook hs' s.
Proof.
  intros HF. revert s. induction HF as [|h h' hs hs' Hh _ IH]; intros s; [done|]. simpl. rewrite Hh.
  destruct (hook h' s) as [s' [[|]|e|]]; [done|apply IH| |done].
  destruct (RvError_eq e ErrHandlerDefault); [apply IH|done].
Qed.

(** Nothing is routed before the pre-route phase lets it pass.  When a
    pre-route hook refuses a request (or answers it), the outcome does not
    depend on any routing hook: replacing the route and post-route hooks of all
    handlers, which includes the mounted backends, changes nothing; a refusal
    also skips the log hooks. *)
Theorem pre_route_gates_routing (hs hs' : list (Handler W)) (w : W) (req : Request) :
  Forall2 (λ h h', pre_route h = pre_route h') hs hs' →
  let pre := handle_pre_route_phase hs (w, req) in
  (∀ s e, pre = (s, Err e) →
     handle_request bnd false hs (w, req) = (s, Err e) ∧
     handle_request bnd false hs' (w, req) = (s, Err e)) ∧
  (∀ s r, pre = (s, Ok (Some r)) → Forall2 (λ h h', log_ h = log_ h') hs hs' →
     (∀ name, bnd name = None) →
     handle_request bnd false hs (w, req) = handle_request bnd false hs' (w, req)).
Proof.
  intros HF pre. assert (handle_pre_route_phase hs' (w, req) = pre) as Hpre.
  { unfold pre, handle_pre_route_phase, st_bind. simpl. symmetry. by apply first_response_ext. }
  split.
  - intros s e He. unfold handle_request. split; apply st_bind_err; [done|by rewrite Hpre].
  - intros [w' req'] r He HL Hnb. unfold handle_request.
    rewrite (st_bind_run _ _ _ _ _ He). rewrite He in Hpre. rewrite (st_bind_run _ _ _ _ _ Hpre).
    assert (∀ q, Phases.bound bnd q = None) as Hb
      by (intros q; unfold Phases.bound; destruct (RequestOps.get_handler q); simpl; auto).
    assert (∀ q x v, run_log hs q x v = run_log hs' q x v) as Hlog.
    { clear -HL. intros q x. induction HL as [|h h' l l' Hh _ IH]; intros v; [done|]. simpl. rewrite Hh.
      destruct (log_ h' q x v) as [v' [|e|]]; [apply IH| |done].
      destruct (RvError_eq e ErrHandlerDefault); [apply IH|done]. }
    unfold st_bind. simpl. unfold handle_log_phase. rewrite Hb. by rewrite Hlog.
Qed.

End phases.

(** *** Witnesses: a vault over the in-memory backend *)

#[global] Instance SealConfig_eq_dec : EqDecision SealConfig.
Proof. solve_decision. Defined.
#[global] Instance SealConfig_countable : Countable SealConfig.
Proof.
  refine (inj_countable' (λ c, (secret_shares c, secret_threshold c))
            (λ '(a, b), {| secret_shares := a; secret_threshold := b |}) _).
  by intros [].
Defined.

Definition demo_seal_config : SealConfig := {| secret_shares := x03; secret_threshold := x02 |}.
Definition demo_config_serde : Serde SealConfig := countable_serde SealConfig.
Definition demo_master : bytes := replicate 32 x55.

Definition demo_vault_of (b : AESGCMBarrier.t MemBackend.t) : Core MemBackend.t (gmap string) nat :=
  {| barrier := b; system_view := None; mounts := MountTableOps.new; router := Router.new;
     logical_backends := {["kv" := Ok demo_dyn]}; core_sealed := true; unseal_key_shares := [];
     hmac_key := []; mount_entry_hmac_level := HmacNone; uuids := 0 |}.

Definition demo_init_barrier : AESGCMBarrier.t MemBackend.t :=
  fst (AESGCMBarrier.init (HG := toy_gcm) (HR := demo_rng) (HS := demo_serde) demo_master
         (AESGCMBarrier.new ({[SEAL_CONFIG_PATH := default [] (@ser _ demo_config_serde demo_seal_config)]}
                              : MemBackend.t))).
Definition demo_vault : Core MemBackend.t (gmap string) nat := demo_vault_of demo_init_barrier.

Definition demo_ct : bytes := default [] ((AESGCMBarrier.backend demo_init_barrier : MemBackend.t) !! BARRIER_INIT_PATH).
Definition demo_record : bytes :=
  match AESGCMBarrier.decrypt (HG := toy_gcm) (AESGCMBarrier.init_cipher demo_init_barrier demo_master)
          BARRIER_INIT_PATH demo_ct with
  | Ok v => v | _ => [] end.

Lemma demo_sealed_with :
  sealed_with (HBS := MemBackend.backend_spec) (HG := toy_gcm) (HS := demo_serde) (HSC := demo_config_serde)
    demo_vault demo_master demo_seal_config (replicate 32 x00).
Proof.
  split.
  - by vm_compute.
  - reflexivity.
  - exists demo_ct, demo_record, 1%Z. split_and!; [by vm_compute| |by vm_compute].
    intros s Hs.
    rewrite (decrypt_info s (AESGCMBarrier.init_cipher demo_init_barrier demo_master)) by (by rewrite Hs).
    by vm_compute.
  - exact I.
  - exists (default [] (@ser _ demo_config_serde demo_seal_config)). split; by vm_compute.
  - by vm_compute.
Qed.

Definition demo_shares : list bytes :=
  match ShamirSecret.split (H := true) (H0 := later_rng 3 demo_rng) demo_master x03 x02 with
  | Ok l => l | _ => [] end.

Lemma unseal_with_threshold_shares_witness :
  CoreOps.unseal (HG := toy_gcm) (HR := demo_rng) (HS := demo_serde) (HSha := fun l => l)
    (HH := demo_hmac) (HX := demo_hex) (HU := demo_uuid) (HSM := demo_table_serde)
    (HSC := demo_config_serde) [] (nth 2 demo_shares []) (set_unseal_key_shares [] demo_vault)
  = (set_unseal_key_shares [nth 2 demo_shares []] demo_vault, Ok false).
Proof.
  destruct (unseal_with_threshold_shares (HBS := MemBackend.backend_spec) (HG := toy_gcm)
      (HGL := toy_gcm_laws) (HR := demo_rng) (HS := demo_serde)
      (HSL := countable_serde_laws BarrierInit) (HSCL := countable_serde_laws SealConfig) (HSha := fun l => l) (HH := demo_hmac) (HX := demo_hex)
      (HU := demo_uuid) (HSM := demo_table_serde) (HSC := demo_config_serde) (HP := true)
      [] demo_vault demo_master (replicate 32 x00) demo_seal_config demo_shares
      [nth 2 demo_shares []; nth 0 demo_shares []] 3 demo_sealed_with) as [H _].
  - reflexivity.
  - vm_compute. lia.
  - discriminate.
  - by vm_compute.
  - apply (bool_decide_eq_true_1 _). by vm_compute.
  - assert (∀ k, k ∈ [nth 2 demo_shares []; nth 0 demo_shares []] → k ∈ demo_shares) as Hin; [|exact Hin].
    apply Forall_forall. apply (bool_decide_eq_true_1 _). by vm_compute.
  - reflexivity.
  - apply (H [] (nth 2 demo_shares []) [nth 0 demo_shares []]); [reflexivity|discriminate].
Defined.

Lemma init_bad_threshold_loses_master_key_witness :
  ∃ c', CoreOps.init (HG := toy_gcm) (HR := demo_rng) (HS := demo_serde) (HSha := fun l => l)
          (HH := demo_hmac) (HX := demo_hex) (HU := demo_uuid) (HSM := demo_table_serde)
          (HSC := demo_config_serde) (HP := true) [] None
          {| secret_shares := x05; secret_threshold := x01 |} (demo_vault_of (AESGCMBarrier.new ∅))
        = (c', Err ErrShamirShareCountInvalid).
Proof.
  destruct (init_bad_threshold_loses_master_key (HBS := MemBackend.backend_spec) (HG := toy_gcm)
      (HGL := toy_gcm_laws) (HR := demo_rng) (HS := demo_serde)
      (HSL := countable_serde_laws BarrierInit) (HSha := fun l => l) (HH := demo_hmac)
      (HX := demo_hex) (HU := demo_uuid) (HSM := demo_table_serde) (HSC := demo_config_serde)
      (HSCL := countable_serde_laws SealConfig) (HP := true) [] None
      (demo_vault_of (AESGCMBarrier.new ∅)) {| secret_shares := x05; secret_threshold := x01 |})
    as [_ (c' & Hc & _)].
  - vm_compute. lia.
  - vm_compute. lia.
  - reflexivity.
  - by vm_compute.
  - exact I.
  - apply demo_key_accepted. by vm_compute.
  - exists c'. exact Hc.
Defined.

Definition demo_open : Core MemBackend.t (gmap string) nat :=
  demo_vault_of (fst (AESGCMBarrier.unseal (HG := toy_gcm) (HS := demo_serde) demo_master demo_init_barrier)).

Lemma seal_forgets_everything_witness :
  core_sealed (fst (CoreOps.seal [] demo_open)) = true.
Proof.
  apply (seal_forgets_everything [] demo_open (fst (CoreOps.seal [] demo_open))).
  apply pair_of_snd. by vm_compute.
Defined.

Definition demo_deny : Handler nat :=
  {| handler_name := "auth"; pre_route := st_fail ErrPermissionDenied; route := st_fail ErrHandlerDefault;
     post_route := st_fail ErrHandlerDefault; log_ := fun _ _ => st_fail ErrHandlerDefault |}.

Lemma pre_route_gates_routing_witness :
  snd (Phases.handle_request (fun _ => None) false [demo_deny] (0, RequestOps.new "secret/a"))
  = Err ErrPermissionDenied.
Proof.
  destruct (pre_route_gates_routing (fun _ => None) [demo_deny] [demo_deny] 0 (RequestOps.new "secret/a"))
    as [H _]; [by repeat constructor|].
  destruct (H _ ErrPermissionDenied eq_refl) as [-> _]. reflexivity.
Defined.
