(* ===== verification/Lifecycle.v ===== *)
(** * The life of a vault as a state machine (src/src/core.rs)

    The transitions of [Core] between sealed and open: initialisation,
    unsealing share by share, sealing, and what the handlers of served
    requests and the hooks of the modules do in between.  [Module Life] gives
    the step relation, the states reachable from a core just started, the
    invariant of all of them, and the fate of the records that initialisation
    writes. *)

From stdpp Require Import base tactics list gmap strings relations.
From Stdlib Require Import ZArith Lia.
From S2P Require Import Prelude Errors Shamir ShamirCorrect RustStr Utils Storage BarrierCorrect BarrierView Logical LogicalBackend Router Mount MountCorrect VaultCore VaultCorrect.

Local Open Scope string_scope.

(** The keys that [Core::init] writes.  The handlers of [sys/raw] take any key
    (src/src/modules/system/mod.rs), these two included; no other handler and no
    module writes them. *)
Definition reserved : list string := [BARRIER_INIT_PATH; SEAL_CONFIG_PATH].
Definition unreserved (k : string) : Prop := k ∉ reserved.

Module Life.
Section life.
Context {B : Type} `{HB : Backend B} `{HBS : !BackendSpec B} `{HG : AesGcm} `{HGL : !AesGcmLaws}
        `{HR : Rng} `{HS : Serde BarrierInit} `{HSL : !SerdeLaws BarrierInit} `{HSha : Sha256}.
Context {T : Type -> Type} `{HT : RadixTrie T} `{HTL : !RadixTrieLaws T} {W : Type}.
Context `{HH : HmacSha256} `{HX : HexCodec} `{HU : UuidGen} `{HSM : Serde (gmap string MountEntry)}.
Context `{HSC : Serde SealConfig} `{HSCL : !SerdeLaws SealConfig} `{HP : Profile}.

Abbreviation core := (Core B T W).
Abbreviation m := (st core RvError).

Implicit Types c : core.

(** ** Effects through a shared reference

    A handler has the core by [&self]: it reaches the router, the mount table,
    the registry of backends and the storage behind the barrier, never the
    fields [sealed] and [unseal_key_shares].  [touch] are the keys of the
    barrier it may write or delete. *)
Inductive effect (touch : string -> Prop) : core -> core -> Prop :=
  | eff_router c x : effect touch c (set_router x c)
  | eff_mounts c x : effect touch c (set_mounts x c)
  | eff_system_view c x : effect touch c (set_system_view x c)
  | eff_backends c x : effect touch c (set_logical_backends x c)
  | eff_hmac_key c x : effect touch c (set_hmac_key x c)
  | eff_uuids c x : effect touch c (set_uuids x c)
  | eff_put c k v :
      backend_key_ok k -> touch k ->
      effect touch c (set_barrier (fst (AESGCMBarrier.put (barrier c) {| se_key := k; se_value := v |})) c)
  | eff_delete c k :
      backend_key_ok k -> touch k ->
      effect touch c (set_barrier (fst (AESGCMBarrier.delete (barrier c) k)) c).

(** A computation made of effects, whatever its outcome, on keys of its own. *)
Definition effectful {A} (f : m A) : Prop := forall c, rtc (effect unreserved) c (fst (f c)).

(** ** The transitions *)
Context (modules : list (VaultModule core)) (token : option (m string)).

(** Served requests write the keys in [touch]. *)
Inductive step (touch : string -> Prop) : core -> core -> Prop :=
  | step_init c config : step touch c (fst (CoreOps.init modules token config c))
  | step_unseal c key : step touch c (fst (CoreOps.unseal modules key c))
  | step_seal c : step touch c (fst (CoreOps.seal modules c))
  | step_serve c c' : core_sealed c = false -> effect touch c c' -> step touch c c'.

(** A core as a starting server makes it, over a backend that may hold the data
    of an earlier run. *)
Definition started c : Prop :=
  core_sealed c = true /\ unseal_key_shares c = [] /\
  AESGCMBarrier.info (barrier c) = AESGCMBarrier.default_info.

Definition reachable (touch : string -> Prop) c : Prop := exists c0, started c0 /\ rtc (step touch) c0 c.

Definition stored c (k : string) : option bytes := contents (AESGCMBarrier.backend (barrier c)) !! k.

Definition initialised c : Prop := is_Some (stored c BARRIER_INIT_PATH).

(** ** What effects keep *)
Record frame (touch : string -> Prop) c c' : Prop := {
  frame_sealed : core_sealed c' = core_sealed c;
  frame_shares : unseal_key_shares c' = unseal_key_shares c;
  frame_info : AESGCMBarrier.info (barrier c') = AESGCMBarrier.info (barrier c);
  frame_stored k : ~ touch k -> stored c' k = stored c k
}.

#[local] Instance frame_preorder touch : PreOrder (frame touch).
Proof.
  split; [by constructor|]. intros a b c [] []. split; try congruence. intros k Hk.
  transitivity (stored b k); auto.
Qed.

Lemma barrier_put_frame (b : AESGCMBarrier.t B) k v :
  backend_key_ok k →
  let b' := fst (AESGCMBarrier.put b {| se_key := k; se_value := v |}) in
  AESGCMBarrier.info b' = AESGCMBarrier.info b ∧
  ∀ q, q ≠ k →
    contents (AESGCMBarrier.backend b') !! q = contents (AESGCMBarrier.backend b) !! q.
Proof.
  intros Hk. unfold AESGCMBarrier.put. destruct (AESGCMBarrier.sealed _); [done|]. simpl.
  unfold AESGCMBarrier.encrypt. destruct (AESGCMBarrier.key _); [|done]. simpl.
  destruct (gcm_iv_len =? 0)%nat; simpl; (destruct (gcm_init _ _); [|done]);
    (destruct (gcm_seal _ _ _ _) as [[ct tag]|]; [|done]); simpl.
  all: match goal with |- context [backend_put ?s ?e] =>
         destruct (backend_put_spec s e Hk) as (s' & -> & Hc & _) end.
  all: simpl; split; [done|]; intros q Hq; by rewrite Hc, lookup_insert_ne.
Qed.

Lemma barrier_delete_frame (b : AESGCMBarrier.t B) k :
  backend_key_ok k →
  let b' := fst (AESGCMBarrier.delete b k) in
  AESGCMBarrier.info b' = AESGCMBarrier.info b ∧
  ∀ q, q ≠ k →
    contents (AESGCMBarrier.backend b') !! q = contents (AESGCMBarrier.backend b) !! q.
Proof.
  intros Hk. unfold AESGCMBarrier.delete. destruct (AESGCMBarrier.sealed _); [done|].
  destruct (backend_delete_spec (AESGCMBarrier.backend b) k Hk) as (s' & -> & Hc & _). simpl.
  split; [done|]. intros q Hq. by rewrite Hc, lookup_delete_ne.
Qed.

Lemma effect_frame touch c c' : effect touch c c' → frame touch c c'.
Proof.
  destruct 1; try by constructor.
  - destruct (barrier_put_frame (barrier c) k v) as [Hi Hs]; [done|]. split; try done.
    intros q Hq. apply Hs. by intros ->.
  - destruct (barrier_delete_frame (barrier c) k) as [Hi Hs]; [done|]. split; try done.
    intros q Hq. apply Hs. by intros ->.
Qed.

Lemma effects_frame touch c c' : rtc (effect touch) c c' → frame touch c c'.
Proof. induction 1 as [|a b d Hab _ IH]; [reflexivity|]. etransitivity; [by apply effect_frame|done]. Qed.

Lemma effectful_frame {A} (f : m A) c : effectful f → frame unreserved c (fst (f c)).
Proof. intros Hf. apply effects_frame, Hf. Qed.

Lemma frame_reserved c c' k : frame unreserved c c' → k ∈ reserved → stored c' k = stored c k.
Proof. intros Hf Hk. apply (frame_stored _ _ _ Hf). by intros Hn. Qed.

(** ** Computations made of effects *)
Lemma eff_bind_at {A A'} (f : m A) (k : A → m A') c :
  rtc (effect unreserved) c (fst (f c)) → (∀ a, snd (f c) = Ok a → rtc (effect unreserved) (fst (f c)) (fst (k a (fst (f c))))) →
  rtc (effect unreserved) c (fst (st_bind f k c)).
Proof.
  unfold st_bind. destruct (f c) as [c1 [a|e|]]; simpl; intros H1 H2; [|done..].
  etransitivity; [done|by apply H2].
Qed.

Lemma effectful_bind {A A'} (f : m A) (k : A → m A') :
  effectful f → (∀ a, effectful (k a)) → effectful (st_bind f k).
Proof. intros Hf Hk c. apply eff_bind_at; [apply Hf|]. intros a _. apply Hk. Qed.

Lemma effectful_at {A} (f : m A) c : effectful f → rtc (effect unreserved) c (fst (f c)).
Proof. intros Hf. apply Hf. Qed.

Lemma effectful_pure {A} (f : m A) : (∀ c, fst (f c) = c) → effectful f.
Proof. intros Hf c. by rewrite Hf. Qed.

Lemma effectful_guard b e : effectful (CoreMounts.guard b e).
Proof. apply effectful_pure. intros c. by destruct b. Qed.

Lemma effectful_with_router {A} (f : T (RouterEntry T W) → T (RouterEntry T W) * result A) :
  effectful (CoreMounts.with_router f).
Proof.
  intros c. unfold CoreMounts.with_router. destruct (f (router c)) as [x r]. apply rtc_once, eff_router.
Qed.

Lemma effectful_with_mounts {A} (f : MountTable → MountTable * A) :
  effectful (CoreMounts.with_mounts (B := B) (T := T) (W := W) f).
Proof.
  intros c. unfold CoreMounts.with_mounts. destruct (f (mounts c)) as [x r]. apply rtc_once, eff_mounts.
Qed.

Lemma effectful_get_logical_backend lt : effectful (CoreMounts.get_logical_backend lt).
Proof. by apply effectful_pure. Qed.

Lemma effectful_modify_entry r f : effectful (CoreMounts.modify_entry r f).
Proof.
  intros c. unfold CoreMounts.modify_entry. destruct (MountTableOps.deref _ _) as [e|]; [|done].
  destruct (f e); [apply rtc_once, eff_mounts|done..].
Qed.

Lemma effectful_run_all hook (ms : list (VaultModule core)) :
  (∀ x, x ∈ ms → effectful (hook x)) → effectful (ModuleManager.run_all hook ms).
Proof.
  induction ms as [|x ms IH]; intros Hh; simpl; [by apply effectful_pure|].
  apply effectful_bind; [apply Hh, list_elem_of_here|]. intros _. apply IH. intros y Hy.
  by apply Hh, list_elem_of_further.
Qed.

Create HintDb effects.
#[local] Hint Resolve effectful_guard effectful_with_router effectful_with_mounts
  effectful_get_logical_backend effectful_modify_entry : effects.
#[local] Hint Extern 1 (effectful (st_ret _)) => by apply effectful_pure : effects.
#[local] Hint Extern 1 (effectful (st_fail _)) => by apply effectful_pure : effects.
#[local] Hint Extern 1 (effectful (st_lift _)) => by apply effectful_pure : effects.
#[local] Hint Extern 2 (effectful (st_bind _ _)) => apply effectful_bind; [|intros ?] : effects.
#[local] Hint Extern 3 (effectful (if ?b then _ else _)) => destruct b : effects.

(** The table of mounts is stored under a key of its own. *)
Hypothesis Hmounts : backend_key_ok CORE_MOUNT_CONFIG_PATH.

Lemma mounts_not_reserved : CORE_MOUNT_CONFIG_PATH ∉ reserved.
Proof. apply (bool_decide_eq_true_1 _). by vm_compute. Qed.

Lemma eff_persist t t' c :
  rtc (effect unreserved) c (set_mounts t' (set_barrier (fst (MountTableOps.persist CORE_MOUNT_CONFIG_PATH t (barrier c))) c)).
Proof.
  etransitivity; [|apply rtc_once, eff_mounts].
  unfold MountTableOps.persist. destruct (ser _) as [v|]; simpl; [|by destruct c].
  apply rtc_once, eff_put; [done|apply mounts_not_reserved].
Qed.

Lemma effectful_persist_mounts : effectful CoreMounts.persist_mounts.
Proof.
  intros c. unfold CoreMounts.persist_mounts, CoreMounts.with_barrier.
  pose proof (eff_persist (mounts c) (mounts c) c) as H.
  destruct (MountTableOps.persist _ _ _) as [b r]. simpl in *. by destruct c.
Qed.

Lemma effectful_load_mounts : effectful CoreOps.load_mounts.
Proof.
  intros c. unfold CoreOps.load_mounts, MountTableOps.load_or_default, MountTableOps.mount_update.
  assert (∀ t, rtc (effect unreserved) c (set_mounts t (set_barrier (barrier c) c))) as Hsame.
  { intros t. destruct c. apply rtc_once, (eff_mounts _ (Build_Core _ _ _ _ _ _ _ _ _ _ _ _ _)). }
  pose proof (λ t, eff_persist t t c) as Hp.
  destruct (storage_get _ _) as [[e|]| |]; try by simpl; auto.
  - destruct (MountTableOps.load _ _ _ _) as [t [[]|err|]]; try by simpl; auto.
    destruct (MountTableOps.update_entries _ _ _ _ _ _) as [t' [[|]|err|]]; try by simpl; auto.
    specialize (Hp t'). by destruct (MountTableOps.persist _ _ _).
  - destruct (MountTableOps.set_default _ _ _) as [t [[]|err|]]; try by simpl; auto.
    specialize (Hp t). by destruct (MountTableOps.persist _ _ _).
Qed.

Lemma effectful_derive_hmac_key : effectful CoreOps.derive_hmac_key.
Proof.
  intros c. unfold CoreOps.derive_hmac_key.
  destruct (AESGCMBarrier.derive_hmac_key _); [apply rtc_once, eff_hmac_key|done..].
Qed.

Lemma effectful_setup_mount r : effectful (CoreMounts.setup_mount r).
Proof.
  intros c. unfold CoreMounts.setup_mount. destruct (MountTableOps.deref _ _) as [e|]; [|done].
  cbv zeta. apply effectful_at. apply effectful_bind; [auto with effects|]. intros be.
  apply effectful_bind; [auto with effects|]. intros _. apply effectful_bind; [|auto with effects].
  intros c1. destruct (String.eqb _ _); [apply rtc_once, eff_system_view|done].
Qed.

Lemma effectful_setup_loop refs : effectful (CoreMounts.setup_loop refs).
Proof.
  induction refs as [|r refs IH]; simpl; [auto with effects|].
  apply effectful_bind; [apply effectful_setup_mount|done].
Qed.

Lemma effectful_setup_mounts : effectful CoreMounts.setup_mounts.
Proof. intros c. apply effectful_setup_loop. Qed.

Lemma effectful_unload_mounts : effectful CoreMounts.unload_mounts.
Proof.
  intros c. unfold CoreMounts.unload_mounts. simpl. etransitivity; [apply rtc_once, eff_router|].
  etransitivity; [apply rtc_once, eff_mounts|]. apply rtc_once, eff_system_view.
Qed.

#[local] Hint Resolve effectful_persist_mounts effectful_load_mounts effectful_derive_hmac_key
  effectful_setup_mounts effectful_unload_mounts : effects.

(** Mounting and remounting are made of effects, so [step_serve] covers the
    requests that do them. *)
Lemma effectful_mount me : effectful (CoreMounts.mount me).
Proof.
  unfold CoreMounts.mount. cbv zeta. apply effectful_bind; [auto with effects|]. intros _ c.
  apply eff_bind_at; [done|]. intros ? [= <-]. simpl.
  apply eff_bind_at; [apply effectful_guard|]. intros [] Hg.
  assert (∀ b e, fst (CoreMounts.guard (B := B) (T := T) (W := W) b e c) = c) as -> by (by intros []).
  apply eff_bind_at; [done|]. intros be _. simpl.
  apply eff_bind_at; [apply rtc_once, eff_uuids|]. intros _ _. simpl.
  generalize (set_uuids (S (uuids c)) c). intros c'. apply effectful_at. auto 10 with effects.
Qed.

Lemma effectful_remount src dst : effectful (CoreMounts.remount src dst).
Proof.
  unfold CoreMounts.remount. cbv zeta. apply effectful_bind; [auto with effects|]. intros _.
  apply effectful_bind; [by apply effectful_pure|]. intros c0.
  apply effectful_bind; [auto with effects|]. intros _.
  destruct (Router.matching_mount_entry _ _) as [r|]; [|auto with effects].
  do 2 (apply effectful_bind; [auto with effects|]; intros _).
  apply effectful_bind; [by apply effectful_pure|]. intros c1.
  do 3 (apply effectful_bind; [auto with effects|]; intros _). intros c2.
  pose proof (effectful_persist_mounts c2) as Hp.
  destruct (CoreMounts.persist_mounts c2) as [c3 [[]|e|]]; simpl in Hp; [| |done].
  - etransitivity; [exact Hp|]. apply effectful_at. auto 10 with effects.
  - etransitivity; [exact Hp|]. apply effectful_at. auto 10 with effects.
Qed.

(** ** The hooks of the modules and the root token are made of effects *)
Class EffectfulModules : Prop := {
  hooks_effectful x : x ∈ modules ->
    effectful (module_setup x) /\ effectful (module_init x) /\ effectful (module_cleanup x);
  token_effectful f : token = Some f -> effectful f
}.
Context `{HM : !EffectfulModules}.

Lemma effectful_post_unseal : effectful (CoreOps.post_unseal modules).
Proof.
  unfold CoreOps.post_unseal. apply effectful_bind; [apply effectful_run_all; apply HM|]. intros _.
  do 3 (apply effectful_bind; [auto with effects|]; intros _). apply effectful_run_all; apply HM.
Qed.

Lemma effectful_pre_seal : effectful (CoreOps.pre_seal modules).
Proof.
  unfold CoreOps.pre_seal. apply effectful_bind; [apply effectful_run_all; apply HM|].
  auto with effects.
Qed.

(** ** The invariant *)
Record life_ok c : Prop := {
  life_open : core_sealed c = false -> CoreOps.barrier_sealed c = false;
  life_key : CoreOps.barrier_sealed c = false ->
    is_Some (AESGCMBarrier.key (AESGCMBarrier.info (barrier c))) /\ initialised c /\
    unseal_key_shares c = [];
  life_uninit : unseal_key_shares c <> [] -> initialised c;
  life_distinct : NoDup (unseal_key_shares c);
  life_lengths k : k ∈ unseal_key_shares c -> (16 <= length k <= 33)%nat;
  life_progress config : snd (CoreOps.seal_config c) = Ok config ->
    unseal_key_shares c = [] \/ (length (unseal_key_shares c) < u8 (secret_threshold config))%nat
}.

Hypothesis Hseal : backend_key_ok SEAL_CONFIG_PATH.

Lemma seal_config_stored c c' :
  stored c' SEAL_CONFIG_PATH = stored c SEAL_CONFIG_PATH →
  snd (CoreOps.seal_config c') = snd (CoreOps.seal_config c).
Proof.
  unfold stored, CoreOps.seal_config. simpl. intros He.
  by rewrite !backend_get_spec, He by done.
Qed.

(** A core with the barrier sealed, no share entered and the flag set is fine
    whatever else it holds. *)
Lemma life_ok_idle c :
  core_sealed c = true → CoreOps.barrier_sealed c = true → unseal_key_shares c = [] → life_ok c.
Proof.
  intros Hs Hb Hk. split; rewrite ?Hs, ?Hb, ?Hk; try done; [constructor|set_solver|by left].
Qed.

Lemma started_ok c : started c → life_ok c.
Proof.
  intros (Hs & Hk & Hi). apply life_ok_idle; [done| |done]. unfold CoreOps.barrier_sealed. by rewrite Hi.
Qed.

Lemma frame_ok c c' : frame unreserved c c' → life_ok c → life_ok c'.
Proof.
  intros Hf [O K U D L P]. pose proof Hf as [Fs Fk Fi _].
  assert (stored c' BARRIER_INIT_PATH = stored c BARRIER_INIT_PATH) as Hinit
    by (apply frame_reserved; [done|set_solver]).
  split; unfold CoreOps.barrier_sealed, initialised in *; rewrite ?Fs, ?Fk, ?Fi, ?Hinit; try done.
  intros config. rewrite (seal_config_stored c c') by (apply frame_reserved; [done|set_solver]). apply P.
Qed.

(** A served request may even write the seal configuration: the shares that it
    counts are entered while no request is served. *)
Lemma serve_ok touch c c' :
  ~ touch BARRIER_INIT_PATH → core_sealed c = false → frame touch c c' → life_ok c → life_ok c'.
Proof.
  intros Ht Hs [Fs Fk Fi Fc] [O K U D L P]. destruct (K (O Hs)) as (Hkey & Hi & Hk).
  specialize (Fc _ Ht).
  split; unfold CoreOps.barrier_sealed, initialised in *; rewrite ?Fs, ?Fk, ?Fi, ?Fc, ?Hk; try done; [constructor|set_solver|by left].
Qed.

(** Steps of the monad that a rewrite can take. *)
Lemma bind_guard {A} b e (k : unit → m A) c :
  st_bind (CoreMounts.guard b e) k c = if b then (c, Err e) else k tt c.
Proof. by destruct b. Qed.

Lemma bind_get {A} (k : core → m A) c : st_bind st_get k c = k c c.
Proof. done. Qed.

(** Opening the barrier: the backend is untouched, and it opens exactly when
    the call succeeds. *)
Lemma barrier_unseal_cases k (b b' : AESGCMBarrier.t B) r :
  AESGCMBarrier.unseal k b = (b', r) → AESGCMBarrier.sealed (AESGCMBarrier.info b) = true →
  AESGCMBarrier.backend b' = AESGCMBarrier.backend b ∧
  if r is Ok _ then AESGCMBarrier.sealed (AESGCMBarrier.info b') = false ∧
                    is_Some (AESGCMBarrier.key (AESGCMBarrier.info b'))
  else AESGCMBarrier.sealed (AESGCMBarrier.info b') = true.
Proof.
  unfold AESGCMBarrier.unseal. intros H Hs. rewrite Hs in H. simpl in H.
  repeat case_match; simplify_eq/=; done.
Qed.


(** With enough shares, recovering the master key forgets them all. *)
Lemma recover_forgets config c :
  unseal_key_shares c ≠ [] →
  ∃ r, CoreOps.recover_master_key config c = (set_unseal_key_shares [] c, r).
Proof.
  intros Hne. unfold CoreOps.recover_master_key. destruct (_ =? 1)%nat.
  - destruct (unseal_key_shares c); [done|eauto].
  - destruct (combine_total (unseal_key_shares c)) as [[_ [k ->]]|[_ ->]]; eauto.
Qed.

(** *** Sealing *)
Lemma seal_frame c :
  frame unreserved c (fst (CoreOps.seal modules c)) ∨
  ∃ c1, frame unreserved c c1 ∧ fst (CoreOps.seal modules c) = CoreOps.seal_barrier (set_core_sealed true c1) ∧
        CoreOps.barrier_sealed c = false.
Proof.
  unfold CoreOps.seal. rewrite (st_bind_run _ _ _ _ _ (inited_run c)), bind_guard.
  destruct (bool_decide _); simpl; [|by left]. rewrite bind_get, bind_guard.
  destruct (CoreOps.barrier_sealed c) eqn:Hb; [by left|].
  pose proof (effectful_frame _ c effectful_pre_seal) as Hf.
  unfold st_bind. destruct (CoreOps.pre_seal modules c) as [c1 [[]|e|]]; simpl in *; [|by left..].
  right. by exists c1.
Qed.

Lemma seal_ok c : life_ok c → life_ok (fst (CoreOps.seal modules c)).
Proof.
  intros Hok. destruct (seal_frame c) as [Hf|(c1 & Hf & -> & Hb)]; [by eapply frame_ok|].
  apply life_ok_idle; [done|done|]. simpl. rewrite (frame_shares _ _ _ Hf). by apply Hok.
Qed.

(** *** Unsealing

    A call of [unseal] does one of three things to the core: nothing, recording
    one more share, or forgetting the shares, with the barrier and, if all went
    well, the core opened. *)
Inductive unseal_outcome (key : bytes) c : core -> Prop :=
  | unseal_nothing : unseal_outcome key c c
  | unseal_recorded config :
      CoreOps.barrier_sealed c = true -> initialised c ->
      key ∉ unseal_key_shares c -> (16 <= length key <= 33)%nat ->
      snd (CoreOps.seal_config c) = Ok config ->
      (S (length (unseal_key_shares c)) < u8 (secret_threshold config))%nat ->
      unseal_outcome key c (set_unseal_key_shares (unseal_key_shares c ++ [key])%list c)
  | unseal_failed b :
      CoreOps.barrier_sealed c = true -> initialised c ->
      AESGCMBarrier.backend b = AESGCMBarrier.backend (barrier c) ->
      AESGCMBarrier.sealed (AESGCMBarrier.info b) = true ->
      unseal_outcome key c (set_barrier b (set_unseal_key_shares [] c))
  | unseal_opened b c1 flag :
      CoreOps.barrier_sealed c = true -> initialised c ->
      AESGCMBarrier.backend b = AESGCMBarrier.backend (barrier c) ->
      AESGCMBarrier.sealed (AESGCMBarrier.info b) = false ->
      is_Some (AESGCMBarrier.key (AESGCMBarrier.info b)) ->
      frame unreserved (set_barrier b (set_unseal_key_shares [] c)) c1 ->
      unseal_outcome key c (set_core_sealed (core_sealed c && flag) c1).

(** The part of [unseal] after a threshold of shares. *)
Lemma unseal_tail key config c k :
  CoreOps.barrier_sealed c = true → initialised c → (unseal_key_shares c ++ [k])%list ≠ [] →
  unseal_outcome key c (fst ((
    let! master_key := CoreOps.recover_master_key config in
    let! _ := CoreMounts.with_barrier (AESGCMBarrier.unseal master_key) in
    let! _ := CoreOps.post_unseal modules in
    fun c => (set_core_sealed false c, Ok true))
      (set_unseal_key_shares (unseal_key_shares c ++ [k])%list c))).
Proof.
  intros Hb Hi Hne. set (c0 := set_unseal_key_shares _ c).
  destruct (recover_forgets config c0) as [r Hr]; [done|].
  assert (set_unseal_key_shares [] c0 = set_unseal_key_shares [] c) as E by done. rewrite E in Hr.
  assert (∀ c1, set_barrier (barrier c) (set_unseal_key_shares [] c) = c1 → unseal_outcome key c c1)
    as Hstop by (intros ? <-; by apply unseal_failed).
  unfold st_bind at 1. rewrite Hr. destruct r as [mk|e|]; [|by apply Hstop; destruct c..].
  unfold st_bind at 1, CoreMounts.with_barrier.
  destruct (AESGCMBarrier.unseal mk _) as [b r] eqn:Hu.
  apply barrier_unseal_cases in Hu as [Hbk Ho]; [|done]. simpl in Hbk.
  destruct r as [[]|e|]; [|by apply unseal_failed..]. destruct Ho as [Hopen Hkey].
  set (c1 := set_barrier b (set_unseal_key_shares [] c)).
  pose proof (effectful_frame _ c1 effectful_post_unseal) as Hf.
  unfold st_bind. destruct (CoreOps.post_unseal modules c1) as [c2 [[]|e|]]; simpl in *.
  - replace false with (core_sealed c && false) by apply andb_false_r. by eapply unseal_opened.
  - assert (c2 = set_core_sealed (core_sealed c && true) c2) as ->.
    { rewrite andb_true_r, <- (frame_sealed _ _ _ Hf : core_sealed c2 = core_sealed c). by destruct c2. }
    by eapply unseal_opened.
  - assert (c2 = set_core_sealed (core_sealed c && true) c2) as ->.
    { rewrite andb_true_r, <- (frame_sealed _ _ _ Hf : core_sealed c2 = core_sealed c). by destruct c2. }
    by eapply unseal_opened.
Qed.

Lemma unseal_cases key c : unseal_outcome key c (fst (CoreOps.unseal modules key c)).
Proof.
  unfold CoreOps.unseal. rewrite (st_bind_run _ _ _ _ _ (inited_run c)), bind_guard.
  destruct (bool_decide _) eqn:Hi; simpl negb; cbn [fst]; [|apply unseal_nothing].
  apply bool_decide_eq_true_1 in Hi. rewrite bind_get, bind_guard.
  destruct (CoreOps.barrier_sealed c) eqn:Hb; simpl negb; [|apply unseal_nothing].
  unfold AESGCMBarrier.key_length_range. rewrite bind_guard.
  destruct (_ || _)%bool eqn:Hlen; [apply unseal_nothing|].
  apply orb_false_iff in Hlen as [Hlo%Nat.ltb_ge Hhi%Nat.ltb_ge].
  destruct (snd (CoreOps.seal_config c)) as [config|e|] eqn:Hc.
  2,3: unfold st_bind; unfold CoreOps.seal_config in *; simpl in *; rewrite Hc; apply unseal_nothing.
  rewrite (st_bind_run _ _ _ c config) by (unfold CoreOps.seal_config in *; simpl in *; by rewrite Hc).
  destruct (existsb _ _) eqn:Hex; [apply unseal_nothing|].
  set (c1 := set_unseal_key_shares _ c).
  rewrite (st_bind_run _ _ _ c1 tt) by done. rewrite bind_get.
  destruct (_ <? _)%nat eqn:Ht.
  - apply Nat.ltb_lt in Ht. simpl in Ht. rewrite length_app in Ht. simpl in Ht.
    eapply unseal_recorded; [done|done| |split; [exact Hlo|exact Hhi]|done|lia].
    intros Hin. apply not_true_iff_false in Hex. apply Hex, existsb_exists.
    exists key. split; [by apply list_elem_of_In|by apply bool_decide_eq_true_2].
  - apply unseal_tail; [done|done|]. by destruct (unseal_key_shares c).
Qed.

Lemma unseal_ok key c : life_ok c → life_ok (fst (CoreOps.unseal modules key c)).
Proof.
  intros Hok. assert (CoreOps.barrier_sealed c = true → core_sealed c = true) as Hflag.
  { intros Hb. destruct (core_sealed c) eqn:Hs; [done|]. rewrite (life_open c Hok Hs) in Hb. done. }
  destruct (unseal_cases key c) as [|config Hb Hi Hnew Hlen Hc Ht|b Hb Hi Hbk Hs|b c1 flag Hb Hi Hbk Hs Hk Hf].
  - done.
  - split; simpl.
    + rewrite (Hflag Hb). done.
    + intros Hopen. unfold CoreOps.barrier_sealed in *. simpl in Hopen. congruence.
    + done.
    + apply NoDup_app. split_and!; [apply Hok| |apply NoDup_singleton].
      intros k Hk ->%list_elem_of_singleton. done.
    + intros k [Hk| ->%list_elem_of_singleton]%elem_of_app; [by apply Hok|done].
    + intros config' Hc'. right. change (snd (CoreOps.seal_config c) = Ok config') in Hc'.
      rewrite length_app. simpl. assert (config' = config) as -> by congruence. lia.
  - apply life_ok_idle; [by apply Hflag|done|done].
  - assert (life_ok c1) as Hok1.
    { eapply frame_ok; [exact Hf|]. split; simpl; try done.
      - intros _. split_and!; [done| |done]. unfold initialised, stored in *. simpl. by rewrite Hbk.
      - constructor.
      - set_solver.
      - by left. }
    destruct Hok1 as [O K U D L P]. split; simpl; try done. intros _.
    unfold CoreOps.barrier_sealed in *. simpl. by rewrite (frame_info _ _ _ Hf).
Qed.

(** *** Initialisation *)
Lemma init_refused config c :
  initialised c → CoreOps.init modules token config c = (c, Err ErrBarrierAlreadyInit).
Proof.
  intros Hi. unfold CoreOps.init.
  by rewrite (st_bind_run _ _ _ _ _ (inited_run c)), bool_decide_true by done.
Qed.

(** The states before and after an initialisation. *)
Definition idle c : Prop :=
  core_sealed c = true /\ CoreOps.barrier_sealed c = true /\ unseal_key_shares c = [].

Definition keeps_idle {A} (f : m A) : Prop := forall c, idle c -> idle (fst (f c)).

Lemma life_bind {A A'} (f : m A) (k : A → m A') :
  keeps_idle f → (∀ a, keeps_idle (k a)) → keeps_idle (st_bind f k).
Proof.
  intros Hf Hk c Hc. specialize (Hf c Hc). unfold st_bind.
  destruct (f c) as [c1 [a|e|]]; simpl in *; [|done..]. by apply Hk.
Qed.

Lemma life_pure {A} (f : m A) : (∀ c, fst (f c) = c) → keeps_idle f.
Proof. intros Hf c. by rewrite Hf. Qed.

Lemma keeps_barrier {A} (f : AESGCMBarrier.t B → AESGCMBarrier.t B * result A) :
  (∀ b, AESGCMBarrier.sealed (AESGCMBarrier.info (fst (f b))) = AESGCMBarrier.sealed (AESGCMBarrier.info b)) →
  keeps_idle (CoreMounts.with_barrier f).
Proof.
  intros Hf c (Hs & Hb & Hk). unfold CoreMounts.with_barrier. specialize (Hf (barrier c)).
  destruct (f (barrier c)) as [b r]. split_and!; [done| |done]. unfold CoreOps.barrier_sealed in *.
  simpl in *. congruence.
Qed.

Lemma encrypt_info path pt (b : AESGCMBarrier.t B) :
  AESGCMBarrier.info (fst (AESGCMBarrier.encrypt path pt b)) = AESGCMBarrier.info b.
Proof.
  unfold AESGCMBarrier.encrypt. destruct (AESGCMBarrier.key _); [|done].
  destruct (gcm_iv_len =? 0)%nat; simpl; (destruct (gcm_init _ _); [|done]);
    by destruct (gcm_seal _ _ _ _) as [[ct tag]|].
Qed.

Lemma barrier_init_sealed k (b : AESGCMBarrier.t B) :
  AESGCMBarrier.sealed (AESGCMBarrier.info (fst (AESGCMBarrier.init k b))) =
  AESGCMBarrier.sealed (AESGCMBarrier.info b).
Proof.
  unfold AESGCMBarrier.init, AESGCMBarrier.key_length_range. destruct (_ || _)%bool; [done|].
  destruct (AESGCMBarrier.inited b) as [[|]| |]; try done. simpl. destruct (ser _) as [v|]; [|done].
  set (b1 := AESGCMBarrier.init_cipher _ k). pose proof (encrypt_info BARRIER_INIT_PATH v b1) as He.
  destruct (AESGCMBarrier.encrypt _ _ b1) as [b2 [ct| |]]; simpl in *; [|by rewrite He..].
  destruct (backend_put _ _) as [b3 [[]| |]]; simpl; by rewrite He.
Qed.

(** The barrier is sealed again whatever the body does to it. *)
Lemma keeps_reseal {A} k (body : m A) :
  effectful body →
  keeps_idle (let! _ := CoreMounts.with_barrier (AESGCMBarrier.unseal k) in CoreOps.defer_seal body).
Proof.
  intros Hbody c (Hs & Hb & Hk). unfold st_bind, CoreMounts.with_barrier.
  destruct (AESGCMBarrier.unseal k (barrier c)) as [b r] eqn:Hu.
  apply barrier_unseal_cases in Hu as [_ Ho]; [|done]. destruct r as [[]|e|]; [|by split_and!..].
  pose proof (effectful_frame _ (set_barrier b c) Hbody) as Hf. unfold CoreOps.defer_seal.
  destruct (body (set_barrier b c)) as [c1 r]. simpl in *.
  split_and!; [|done|]; simpl; [by rewrite (frame_sealed _ _ _ Hf)|by rewrite (frame_shares _ _ _ Hf)].
Qed.

(** What [init] does with the barrier open. *)
Lemma effectful_init_body shares :
  effectful (let! _ := CoreOps.post_unseal modules in
             let! token := match token with Some f => f | None => st_ret "" end in
             let! _ := CoreOps.pre_seal modules in
             st_ret {| init_shares := shares; root_token := token |}).
Proof.
  apply effectful_bind; [apply effectful_post_unseal|]. intros _. apply effectful_bind.
  { destruct token as [f|] eqn:Ht; [by apply token_effectful|auto with effects]. }
  intros tk. apply effectful_bind; [apply effectful_pre_seal|auto with effects].
Qed.


Lemma keeps_init config : keeps_idle (CoreOps.init modules token config).
Proof.
  unfold CoreOps.init. apply life_bind; [by apply life_pure|]. intros already.
  apply life_bind; [by apply life_pure; destruct already|]. intros _.
  apply life_bind; [by apply life_pure|]. intros _.
  apply life_bind; [by apply life_pure|]. intros serialized.
  apply life_bind; [apply keeps_barrier; intros b; by destruct (backend_put _ _)|]. intros _.
  apply life_bind; [by apply keeps_barrier|]. intros master.
  apply life_bind; [apply keeps_barrier, barrier_init_sealed|]. intros _.
  apply life_bind; [by apply life_pure|]. intros c0.
  apply life_bind; [by apply life_pure|]. intros shares.
  apply keeps_reseal, effectful_init_body.
Qed.

Lemma init_ok config c : life_ok c → life_ok (fst (CoreOps.init modules token config c)).
Proof.
  intros Hok. destruct (decide (initialised c)) as [Hi|Hi]; [by rewrite init_refused|].
  destruct (keeps_init config c) as (Hs & Hb & Hk); [|by apply life_ok_idle].
  assert (CoreOps.barrier_sealed c = true) as Hb.
  { destruct (CoreOps.barrier_sealed c) eqn:Hb; [done|]. by destruct (life_key c Hok Hb) as (_ & ? & _). }
  split_and!; [|done|].
  - destruct (core_sealed c) eqn:Hs; [done|]. rewrite (life_open c Hok Hs) in Hb. done.
  - destruct (unseal_key_shares c) eqn:Hk; [done|]. exfalso. apply Hi, (life_uninit c Hok). by rewrite Hk.
Qed.

(** *** All steps *)
Lemma step_ok touch c c' : ~ touch BARRIER_INIT_PATH → step touch c c' → life_ok c → life_ok c'.
Proof.
  intros Ht. destruct 1 as [c config|c key|c|c c' Hs He];
    [apply init_ok|apply unseal_ok|apply seal_ok|by eapply serve_ok, effect_frame].
Qed.

Lemma steps_ok touch c c' : ~ touch BARRIER_INIT_PATH → rtc (step touch) c c' → life_ok c → life_ok c'.
Proof. intros Ht. induction 1 as [|a b d Hab _ IH]; [done|]. intros Ha. by eapply IH, step_ok. Qed.

Lemma reachable_ok touch c : ~ touch BARRIER_INIT_PATH → reachable touch c → life_ok c.
Proof. intros Ht (c0 & Hs & Hsteps). eapply steps_ok; [done..|by apply started_ok]. Qed.








(** C5: the invariant of the vault's life.  In every state that a started vault
    reaches by initialisation, key shares, sealing and served requests that
    leave the record [barrier/init] alone (only the raw endpoint of the system
    module can write or delete it), in any order and with any failures: requests
    are served only while the barrier is open; an open barrier has its key,
    belongs to an initialised vault and no share is left in memory; a vault that
    is not initialised is closed and holds no shares; the recorded shares are
    distinct, of a length a share can have, and fewer than the threshold; and a
    further initialisation of an initialised vault is refused without effect.
    Requests and modules write keys the backend is specified for, the modules
    other ones than the two that [init] writes. *)
Theorem vault_life_invariant c :
  reachable (λ k, k ≠ BARRIER_INIT_PATH) c →
  (∀ bound handlers s, CoreOps.barrier_sealed c = true →
     Phases.handle_request (W := W) bound (core_sealed c) handlers s = (s, Err ErrBarrierSealed)) ∧
  (CoreOps.barrier_sealed c = false →
     is_Some (AESGCMBarrier.key (AESGCMBarrier.info (barrier c))) ∧ initialised c ∧
     unseal_key_shares c = []) ∧
  (¬ initialised c → core_sealed c = true ∧ CoreOps.barrier_sealed c = true ∧ unseal_key_shares c = []) ∧
  NoDup (unseal_key_shares c) ∧
  (∀ k, k ∈ unseal_key_shares c → 16 ≤ length k ≤ 33)%nat ∧
  (∀ config, snd (CoreOps.seal_config c) = Ok config →
     unseal_key_shares c = [] ∨ (CoreOps.unseal_progress c < u8 (secret_threshold config))%nat) ∧
  (initialised c → ∀ config, CoreOps.init modules token config c = (c, Err ErrBarrierAlreadyInit)).
Proof.
  intros Hok%reachable_ok; [|by intros H]. split_and!.
  - intros bound handlers s Hb. destruct (core_sealed c) eqn:Hs; [done|].
    by rewrite (life_open c Hok Hs) in Hb.
  - apply Hok.
  - intros Hi. destruct (CoreOps.barrier_sealed c) eqn:Hb; [|by destruct (life_key c Hok Hb) as (_ & ? & _)].
    split_and!; [|done|].
    + destruct (core_sealed c) eqn:Hs; [done|]. by rewrite (life_open c Hok Hs) in Hb.
    + destruct (unseal_key_shares c) eqn:Hk; [done|]. destruct Hi. apply (life_uninit c Hok). by rewrite Hk.
  - apply Hok.
  - apply Hok.
  - apply Hok.
  - intros Hi config. by apply init_refused.
Qed.


(** Why [barrier/init] has to be left alone: when a request deletes it from an
    open vault, the vault can neither be sealed nor take a share from then on. *)
Theorem raw_delete_disarms_seal c :
  CoreOps.barrier_sealed c = false →
  let c' := set_barrier (fst (AESGCMBarrier.delete (barrier c) BARRIER_INIT_PATH)) c in
  effect (λ _, True) c c' ∧ ¬ initialised c' ∧
  CoreOps.seal modules c' = (c', Err ErrBarrierNotInit) ∧
  ∀ key, CoreOps.unseal modules key c' = (c', Err ErrBarrierNotInit).
Proof.
  intros Hb c'. assert (backend_key_ok BARRIER_INIT_PATH) as Hk by apply backend_init_path_ok.
  assert (¬ initialised c') as Hi.
  { unfold initialised, stored, c'. unfold AESGCMBarrier.delete. unfold CoreOps.barrier_sealed in Hb. rewrite Hb.
    destruct (backend_delete_spec (AESGCMBarrier.backend (barrier c)) BARRIER_INIT_PATH Hk) as (s' & -> & Hc & _). simpl.
    rewrite Hc, lookup_delete_eq. by intros []. }
  split_and!; [by apply eff_delete|done| |intros key].
  - unfold CoreOps.seal. by rewrite (st_bind_run _ _ _ _ _ (inited_run c')), bool_decide_false by done.
  - unfold CoreOps.unseal. by rewrite (st_bind_run _ _ _ _ _ (inited_run c')), bool_decide_false by done.
Qed.

End life.
End Life.

(** *** Witnesses: a vault over the in-memory backend through a whole cycle *)
#[local] Existing Instance MemBackend.backend_spec.
#[local] Existing Instance toy_gcm.
#[local] Existing Instance toy_gcm_laws.
#[local] Existing Instance demo_rng.
#[local] Existing Instance demo_serde.
#[local] Existing Instance demo_hmac.
#[local] Existing Instance demo_hex.
#[local] Existing Instance demo_uuid.
#[local] Existing Instance demo_table_serde.
#[local] Existing Instance demo_config_serde.
#[local] Instance plain_digest : Sha256 := fun l => l.
#[local] Instance checked_profile : Profile := true.
#[local] Instance init_serde_laws : SerdeLaws BarrierInit (H := demo_serde) := countable_serde_laws BarrierInit.
#[local] Instance config_serde_laws : SerdeLaws SealConfig (H := demo_config_serde) :=
  countable_serde_laws SealConfig.

Abbreviation demo_core := (Core MemBackend.t (gmap string) nat).

(** Modules that register a backend and take it back. *)
Definition registering (name : string) : VaultModule demo_core :=
  {| module_name := name;
     module_setup := CoreOps.add_logical_backend name (Ok demo_dyn);
     module_init := st_ret tt;
     module_cleanup := CoreOps.delete_logical_backend name |}.

Definition demo_modules : list (VaultModule demo_core) := [registering "kv"; registering "system"].

Lemma registering_effectful name :
  Life.effectful (module_setup (registering name)) ∧ Life.effectful (module_init (registering name)) ∧
  Life.effectful (module_cleanup (registering name)).
Proof.
  split_and!.
  - intros c. simpl. unfold CoreOps.add_logical_backend.
    destruct (logical_backends c !! name); [done|]. apply rtc_once, Life.eff_backends.
  - by apply Life.effectful_pure.
  - intros c. apply rtc_once, Life.eff_backends.
Qed.

#[local] Instance demo_modules_effectful : Life.EffectfulModules demo_modules None.
Proof.
  split; [|done]. intros x [->|[->|[]%not_elem_of_nil]%elem_of_cons]%elem_of_cons; apply registering_effectful.
Qed.

Definition life_start : demo_core :=
  {| barrier := AESGCMBarrier.new (∅ : MemBackend.t); system_view := None; mounts := MountTableOps.new;
     router := Router.new; logical_backends := ∅; core_sealed := true; unseal_key_shares := [];
     hmac_key := []; mount_entry_hmac_level := HmacNone; uuids := 0 |}.

Definition life_init : demo_core * result InitResult :=
  CoreOps.init demo_modules None demo_seal_config life_start.
Definition life_result : InitResult :=
  match snd life_init with Ok r => r | _ => {| init_shares := []; root_token := "" |} end.
Definition life_share (i : nat) : bytes := nth i (init_shares life_result) [].
Definition life_opened : demo_core :=
  fst (CoreOps.unseal demo_modules (life_share 0)
         (fst (CoreOps.unseal demo_modules (life_share 2) (fst life_init)))).


Lemma life_opened_steps touch : rtc (Life.step demo_modules None touch) (fst life_init) life_opened.
Proof.
  eapply rtc_l; [apply (Life.step_unseal _ _ _ _ (life_share 2))|].
  apply rtc_once, (Life.step_unseal _ _ _ _ (life_share 0)).
Qed.

Lemma life_started : Life.started life_start.
Proof. by split_and!. Qed.

Lemma vault_life_invariant_witness :
  core_sealed life_opened = false ∧ unseal_key_shares life_opened = [] ∧
  is_Some (AESGCMBarrier.key (AESGCMBarrier.info (barrier life_opened))).
Proof.
  destruct (Life.vault_life_invariant (HBS := MemBackend.backend_spec) demo_modules None I I life_opened) as (_ & Hopen & _).
  - exists life_start. split; [exact life_started|].
    eapply rtc_l; [apply (Life.step_init _ _ _ _ demo_seal_config)|]. apply life_opened_steps.
  - split; [vm_compute; reflexivity|].
    destruct Hopen as (Hkey & _ & Hsh); [vm_compute; reflexivity|]. split; [exact Hsh|exact Hkey].
Defined.

