(* ===== verification/World.v ===== *)
(** * The world of the modules

    What a request handler of the auth, policy, kv and credential modules can
    reach besides its request: the barrier, the clock, the generator of UUIDs,
    the queue of leases of the expiration manager and the caches of the policy
    store.  The data types stored by those modules ([TokenEntry],
    [LeaseEntry]) and the JSON conventions of src/src/utils/mod.rs are here,
    with the operations of the state monad over the world. *)

From stdpp Require Import base tactics list gmap strings.
From Stdlib Require Import ZArith Lia Ascii.
From S2P Require Import Prelude Errors RustStr Utils Lease Storage BarrierView Logical LogicalBackend Policy Mount.

Local Open Scope string_scope.

(** ** Other code: the clock, SHA-1 *)

(** The [i]-th reading of [SystemTime::now()]; nothing says it is monotone. *)
Class Clock : Type := clock_at : nat -> SystemTime.

Class Sha1Digest : Type := sha1_digest : bytes -> bytes.

(** [utils::sha1]. *)
Definition sha1 `{HX : HexCodec} `{H1 : Sha1Digest} (data : bytes) : string := hex_encode (sha1_digest data).

Definition is_hex (a : ascii) : bool :=
  let n := nat_of_ascii a in ((48 <=? n) && (n <=? 57) || (97 <=? n) && (n <=? 102))%nat.

Fixpoint str_forall (f : ascii -> bool) (s : string) : bool :=
  match s with EmptyString => true | String a s => f a && str_forall f s end.

(** SHA-1 digests have 20 bytes; hex encoding gives two digits per byte. *)
Class Sha1Laws `{HX : HexCodec} `{H1 : Sha1Digest} : Prop := {
  sha1_digest_length x : length (sha1_digest x) = 20%nat;
  hex_encode_length x : String.length (hex_encode x) = (2 * length x)%nat;
  hex_encode_digits x : str_forall is_hex (hex_encode x) = true
}.

(** ** JSON of durations (utils/mod.rs) *)

(** [timestamp as i64]. *)
Definition as_i64_wrap (z : Z) : Z := if (z <=? I64_MAX)%Z then z else (z - 2 ^ 64)%Z.

Definition serialize_duration (d : Duration) : Value := VInt (as_i64_wrap (as_secs d)).

(** The visitor accepts unsigned numbers and duration texts only. *)
Definition deserialize_duration `{HH : Humantime} (v : Value) : option Duration :=
  match v with
  | VInt z => from_secs <$> in_range 0 U64_MAX z
  | VStr s => parse_duration s
  | _ => None
  end.

(** ** Data of the auth module *)

Record TokenEntry := {
  te_id : string;
  te_parent : string;
  te_policies : list string;
  te_path : string;
  te_meta : gmap string string;
  te_display_name : string;
  te_num_uses : Z;
  te_ttl : Z;
  te_creation_time : SystemTime;
  te_period : Duration;
  te_explicit_max_ttl : Duration
}.

Definition te_set_num_uses (n : Z) (e : TokenEntry) : TokenEntry :=
  {| te_id := te_id e; te_parent := te_parent e; te_policies := te_policies e; te_path := te_path e;
     te_meta := te_meta e; te_display_name := te_display_name e; te_num_uses := n; te_ttl := te_ttl e;
     te_creation_time := te_creation_time e; te_period := te_period e;
     te_explicit_max_ttl := te_explicit_max_ttl e |}.

Definition te_set_id (i : string) (e : TokenEntry) : TokenEntry :=
  {| te_id := i; te_parent := te_parent e; te_policies := te_policies e; te_path := te_path e;
     te_meta := te_meta e; te_display_name := te_display_name e; te_num_uses := te_num_uses e;
     te_ttl := te_ttl e; te_creation_time := te_creation_time e; te_period := te_period e;
     te_explicit_max_ttl := te_explicit_max_ttl e |}.

Definition te_set_durations (p m : Duration) (e : TokenEntry) : TokenEntry :=
  {| te_id := te_id e; te_parent := te_parent e; te_policies := te_policies e; te_path := te_path e;
     te_meta := te_meta e; te_display_name := te_display_name e; te_num_uses := te_num_uses e;
     te_ttl := te_ttl e; te_creation_time := te_creation_time e; te_period := p;
     te_explicit_max_ttl := m |}.

Record LeaseEntry := {
  le_lease_id : string;
  le_client_token : string;
  le_path : string;
  le_data : gmap string Value;
  le_secret : option SecretData;
  le_auth : option Auth;
  le_issue_time : SystemTime;
  le_expire_time : SystemTime;
  le_revoke_err : string
}.

Definition le_set_expire_time (t : SystemTime) (e : LeaseEntry) : LeaseEntry :=
  {| le_lease_id := le_lease_id e; le_client_token := le_client_token e; le_path := le_path e;
     le_data := le_data e; le_secret := le_secret e; le_auth := le_auth e;
     le_issue_time := le_issue_time e; le_expire_time := t; le_revoke_err := le_revoke_err e |}.

(** *** What JSON keeps of a stored entry *)

(** serde_json on a [TokenEntry]: [Serde TokenEntry] is the codec of the record
    with its durations already turned into the seconds that are written. *)
Section token_json.
Context `{HS : Serde TokenEntry} `{HH : Humantime}.

Definition te_encode (e : TokenEntry) : option bytes :=
  ser (te_set_durations (as_i64_wrap (as_secs (te_period e)))
                        (as_i64_wrap (as_secs (te_explicit_max_ttl e))) e).

Definition te_decode (b : bytes) : option TokenEntry :=
  match de b with
  | None => None
  | Some e =>
      match deserialize_duration (VInt (te_period e)), deserialize_duration (VInt (te_explicit_max_ttl e)) with
      | Some p, Some m => Some (te_set_durations p m e)
      | _, _ => None
      end
  end.
End token_json.

(** The fields [max_ttl], [increment] and [issue_time] of a lease are marked
    [serde(skip)]: they are not written, and read back as their defaults. *)
Definition lease_skip (l : Lease.Lease) : Lease.Lease :=
  {| Lease.ttl := Lease.ttl l; Lease.max_ttl := 0; Lease.renewable := Lease.renewable l;
     Lease.increment := 0; Lease.issue_time := None |}.

Definition auth_set_lease (l : Lease.Lease) (a : Auth) : Auth :=
  {| auth_lease := l; auth_client_token := auth_client_token a; display_name := display_name a;
     policies := policies a; token_policies := token_policies a;
     no_default_policy := no_default_policy a; auth_internal_data := auth_internal_data a;
     metadata := metadata a; policy_results := policy_results a; period := period a;
     auth_explicit_max_ttl := auth_explicit_max_ttl a |}.

Definition secret_set_lease (l : Lease.Lease) (s : SecretData) : SecretData :=
  {| secret_lease := l; lease_id := lease_id s; secret_internal_data := secret_internal_data s |}.

Definition le_encode `{HS : Serde LeaseEntry} (e : LeaseEntry) : option bytes :=
  ser {| le_lease_id := le_lease_id e; le_client_token := le_client_token e; le_path := le_path e;
         le_data := le_data e;
         le_secret := (λ s, secret_set_lease (lease_skip (secret_lease s)) s) <$> le_secret e;
         le_auth := (λ a, auth_set_lease (lease_skip (auth_lease a)) a) <$> le_auth e;
         le_issue_time := le_issue_time e; le_expire_time := le_expire_time e;
         le_revoke_err := le_revoke_err e |}.

(** ** The crates [priority_queue] and [stretto] *)

(** [PriorityQueue<Arc<LeaseEntry>, Reverse<u128>>]: two entries with equal
    lease id, token and path are the same item; pushing an item again changes
    its priority; [peek] gives an item of the smallest number. *)
Class LeaseQueue (Q : Type) : Type := {
  q_new : Q;
  q_push : LeaseEntry -> Z -> Q -> Q;
  q_peek : Q -> option (LeaseEntry * Z);
  q_pop : Q -> Q;
  q_len : Q -> nat
}.

Definition le_key (e : LeaseEntry) : string * string * string :=
  (le_lease_id e, le_client_token e, le_path e).

Class LeaseQueueLaws (Q : Type) `{LeaseQueue Q} : Type := {
  q_items : Q -> gmap (string * string * string) Z;
  q_items_new : q_items q_new = ∅;
  q_items_push e p q : q_items (q_push e p q) = <[le_key e := p]> (q_items q);
  q_peek_none q : q_peek q = None -> q_items q = ∅;
  q_peek_some q e p : q_peek q = Some (e, p) ->
    q_items q !! le_key e = Some p /\ forall k p', q_items q !! k = Some p' -> (p <= p')%Z;
  q_items_pop q e p : q_peek q = Some (e, p) -> q_items (q_pop q) = delete (le_key e) (q_items q);
  q_len_spec q : q_len q = size (q_items q)
}.

(** [stretto::Cache<String, Arc<Policy>>]: an admitted entry may be evicted and
    an insertion dropped ([false]) at any time. *)
Class PolicyCache (C : Type) : Type := {
  cache_new : C;
  cache_get : C -> string -> option Policy;
  cache_insert : C -> string -> Policy -> C * bool;
  cache_remove : C -> string -> C
}.

(** What a cache promises: it only returns what was inserted last for the key
    and not removed since. *)
Class PolicyCacheLaws (C : Type) `{PolicyCache C} : Type := {
  cache_map : C -> gmap string Policy;
  cache_map_new : cache_map cache_new = ∅;
  cache_get_sound c k p : cache_get c k = Some p -> cache_map c !! k = Some p;
  cache_map_insert c k p : cache_map (cache_insert c k p).1 ⊆ <[k := p]> (cache_map c);
  cache_map_remove c k : cache_map (cache_remove c k) ⊆ delete k (cache_map c)
}.

(** ** The world *)

Record World (S Q C : Type) := {
  w_store : S;
  w_ticks : nat;
  w_uuids : nat;
  w_queue : Q;
  (** the write lock of the queue is held by the thread that revokes expired leases *)
  w_queue_held : bool;
  (** that lock was asked for while it was held *)
  w_deadlock : bool;
  w_policy_types : gmap string PolicyType;
  w_token_policies_lru : C;
  w_egp_lru : C
}.
Arguments w_store {S Q C}.
Arguments w_ticks {S Q C}.
Arguments w_uuids {S Q C}.
Arguments w_queue {S Q C}.
Arguments w_queue_held {S Q C}.
Arguments w_deadlock {S Q C}.
Arguments w_policy_types {S Q C}.
Arguments w_token_policies_lru {S Q C}.
Arguments w_egp_lru {S Q C}.

Section world.
Context {S Q C : Type} `{HSt : Storage S} `{HCl : Clock} `{HU : UuidGen}.

Abbreviation W := (World S Q C).
Abbreviation M := (st W RvError).

Definition set_store (s : S) (w : W) : W :=
  {| w_store := s; w_ticks := w_ticks w; w_uuids := w_uuids w; w_queue := w_queue w;
     w_queue_held := w_queue_held w; w_deadlock := w_deadlock w; w_policy_types := w_policy_types w;
     w_token_policies_lru := w_token_policies_lru w; w_egp_lru := w_egp_lru w |}.

Definition set_queue (q : Q) (w : W) : W :=
  {| w_store := w_store w; w_ticks := w_ticks w; w_uuids := w_uuids w; w_queue := q;
     w_queue_held := w_queue_held w; w_deadlock := w_deadlock w; w_policy_types := w_policy_types w;
     w_token_policies_lru := w_token_policies_lru w; w_egp_lru := w_egp_lru w |}.

Definition set_queue_held (b : bool) (w : W) : W :=
  {| w_store := w_store w; w_ticks := w_ticks w; w_uuids := w_uuids w; w_queue := w_queue w;
     w_queue_held := b; w_deadlock := w_deadlock w; w_policy_types := w_policy_types w;
     w_token_policies_lru := w_token_policies_lru w; w_egp_lru := w_egp_lru w |}.

Definition set_deadlock (w : W) : W :=
  {| w_store := w_store w; w_ticks := w_ticks w; w_uuids := w_uuids w; w_queue := w_queue w;
     w_queue_held := w_queue_held w; w_deadlock := true; w_policy_types := w_policy_types w;
     w_token_policies_lru := w_token_policies_lru w; w_egp_lru := w_egp_lru w |}.

Definition set_policy_types (m : gmap string PolicyType) (w : W) : W :=
  {| w_store := w_store w; w_ticks := w_ticks w; w_uuids := w_uuids w; w_queue := w_queue w;
     w_queue_held := w_queue_held w; w_deadlock := w_deadlock w; w_policy_types := m;
     w_token_policies_lru := w_token_policies_lru w; w_egp_lru := w_egp_lru w |}.

Definition set_token_policies_lru (c : C) (w : W) : W :=
  {| w_store := w_store w; w_ticks := w_ticks w; w_uuids := w_uuids w; w_queue := w_queue w;
     w_queue_held := w_queue_held w; w_deadlock := w_deadlock w; w_policy_types := w_policy_types w;
     w_token_policies_lru := c; w_egp_lru := w_egp_lru w |}.

Definition set_egp_lru (c : C) (w : W) : W :=
  {| w_store := w_store w; w_ticks := w_ticks w; w_uuids := w_uuids w; w_queue := w_queue w;
     w_queue_held := w_queue_held w; w_deadlock := w_deadlock w; w_policy_types := w_policy_types w;
     w_token_policies_lru := w_token_policies_lru w; w_egp_lru := c |}.

(** [SystemTime::now()]. *)
Definition now : M SystemTime := fun w =>
  ({| w_store := w_store w; w_ticks := Datatypes.S (w_ticks w); w_uuids := w_uuids w;
      w_queue := w_queue w; w_queue_held := w_queue_held w; w_deadlock := w_deadlock w; w_policy_types := w_policy_types w;
      w_token_policies_lru := w_token_policies_lru w; w_egp_lru := w_egp_lru w |},
   Ok (clock_at (w_ticks w))).

Definition fresh_uuid : M string := fun w =>
  ({| w_store := w_store w; w_ticks := w_ticks w; w_uuids := Datatypes.S (w_uuids w);
      w_queue := w_queue w; w_queue_held := w_queue_held w; w_deadlock := w_deadlock w; w_policy_types := w_policy_types w;
      w_token_policies_lru := w_token_policies_lru w; w_egp_lru := w_egp_lru w |},
   Ok (generate_uuid (w_uuids w))).

(** Operations of a view of the barrier. *)
Definition on_store {A} (f : S -> S * result A) : M A := fun w =>
  let '(s, r) := f (w_store w) in (set_store s w, r).
Definition view_get (v : BarrierView.t) (k : string) : M (option StorageEntry) :=
  fun w => (w, BarrierView.get v (w_store w) k).
Definition view_list (v : BarrierView.t) (p : string) : M (list string) :=
  fun w => (w, BarrierView.list_ v (w_store w) p).
Definition view_put (v : BarrierView.t) (k : string) (x : bytes) : M unit :=
  on_store (λ s, BarrierView.put v s {| se_key := k; se_value := x |}).
Definition view_delete (v : BarrierView.t) (k : string) : M unit :=
  on_store (λ s, BarrierView.delete v s k).
(** A walk that runs out of fuel is a [Panic]. *)
Definition view_get_keys (fuel : nat) (v : BarrierView.t) : M (list string) := fun w =>
  (w, match BarrierView.get_keys fuel v (w_store w) with Some r => r | None => Panic end).

End world.

(** [for x in l { body(x)?; }]. *)
Fixpoint st_iter {St E A} (body : A -> st St E unit) (l : list A) : st St E unit :=
  match l with
  | [] => st_ret tt
  | x :: l => let! _ := body x in st_iter body l
  end.

(** An operation on the world as part of a request handler. *)
Definition on_world {W A} (m : st W RvError A) : st (W * Request) RvError A := fun '(w, req) =>
  let '(w, r) := m w in ((w, req), r).
Definition get_req {W} : st (W * Request) RvError Request := fun '(w, req) => ((w, req), Ok req).
Definition put_req {W} (req : Request) : st (W * Request) RvError unit := fun '(w, _) => ((w, req), Ok tt).

Definition st_guard {St} (b : bool) (e : RvError) : st St RvError unit :=
  if b then st_fail e else st_ret tt.

(** [l.contains(&x)]. *)
Definition str_in (x : string) (l : list string) : bool := existsb (String.eqb x) l.

(** Storage of a request: the view of the mount it was routed to. *)
Section request_storage.
Context {S Q C : Type} `{HSt : Storage S}.
Abbreviation W := (World S Q C).
Abbreviation H := (st (W * Request) RvError).

Definition req_get (k : string) : H (option StorageEntry) := fun '(w, req) =>
  ((w, req), RequestOps.storage_get req (w_store w) k).
Definition req_list (p : string) : H (list string) := fun '(w, req) =>
  ((w, req), RequestOps.storage_list req (w_store w) p).
Definition req_put (k : string) (x : bytes) : H unit := fun '(w, req) =>
  let '(s, r) := RequestOps.storage_put req (w_store w) {| se_key := k; se_value := x |} in
  ((set_store s w, req), r).
Definition req_delete (k : string) : H unit := fun '(w, req) =>
  let '(s, r) := RequestOps.storage_delete req (w_store w) k in ((set_store s w, req), r).
End request_storage.

(** ** Declarations of paths: the macros [new_fields!] and [new_path!] *)

Definition plain_field (ty : FieldType) (desc : string) : Field :=
  {| required := false; field_type := ty; field_default := VNull; description := desc |}.
Definition required_field (ty : FieldType) (desc : string) : Field :=
  {| required := true; field_type := ty; field_default := VNull; description := desc |}.
Definition default_field (ty : FieldType) (dflt : Value) (desc : string) : Field :=
  {| required := false; field_type := ty; field_default := dflt; description := desc |}.

Definition path_with {W} (pat help : string) (fs : list (string * Field))
    (ops : list (Operation * handler_fn W)) : Path * list (PathOperation W) :=
  ({| pattern := pat; fields := list_to_map fs; path_help := help |},
   map (λ '(o, h), {| op := o; op_handler := h |}) ops).

(** [if let Ok(v) = r { .. }]: an error means the value was not given. *)
Definition if_given {A B} (r : result A) (f : A -> result B) (dflt : B) : result B :=
  match r with Ok v => f v | Err _ => Ok dflt | Panic => Panic end.
