(* ===== verification/WorldLaws.v ===== *)
(** * Reasoning about the world of the modules

    Views of a barrier whose keys are all readable ([clean]) behave as a map;
    keys made of SHA-1 digests pass the sanity check of a view.  The lemmas
    reduce the operations of [World] to the map [storage_map]. *)

From stdpp Require Import base tactics list gmap strings.
From Stdlib Require Import ZArith Lia Ascii.
From S2P Require Import Prelude Errors RustStr Utils Lease Storage BarrierView Logical LogicalBackend Policy Mount World.
Import BarrierView.

Local Open Scope string_scope.

(** ** Strings of digests *)

Lemma str_forall_app f a b : str_forall f (a ++ b) = str_forall f a && str_forall f b.
Proof. induction a as [|c a IH]; simpl; [done|]. by rewrite IH, andb_assoc. Qed.

Lemma str_forall_impl (f g : ascii → bool) s :
  (∀ a, f a = true → g a = true) → str_forall f s = true → str_forall g s = true.
Proof.
  intros Hfg. induction s as [|c s IH]; simpl; [done|].
  intros [Hc Hs]%andb_true_iff. by rewrite (Hfg _ Hc), IH.
Qed.

Definition not_char (c a : ascii) : bool := negb (Ascii.eqb a c).

Lemma no_slash_forall s : str_forall (not_char slash) s = true → no_slash s.
Proof.
  unfold no_slash, not_char. induction s as [|c s IH]; simpl; [done|].
  destruct (Ascii.eqb c slash); simpl; [done|]. intros Hs. by rewrite (IH Hs).
Qed.

Lemma not_contains_dots s : str_forall (not_char ".") s = true → contains ".." s = false.
Proof.
  intros Hs. destruct (contains ".." s) eqn:E; [|done].
  apply contains_spec in E as (l & r & ->). rewrite !str_forall_app in Hs.
  rewrite !andb_true_iff in Hs. by destruct Hs as (_ & ? & _).
Qed.

(** A key without dots that does not start with a slash is sane. *)
Lemma sane_intro k :
  str_forall (not_char ".") k = true → starts_with_char slash k = false → sane k.
Proof. intros Hd Hs. unfold sane, sanity_check. by rewrite (not_contains_dots _ Hd), Hs. Qed.

Lemma hex_not_char c s :
  is_hex c = false → str_forall is_hex s = true → str_forall (not_char c) s = true.
Proof.
  intros Hc. apply str_forall_impl. intros a Ha. unfold not_char.
  destruct (Ascii.eqb_spec a c) as [->|]; [congruence|done].
Qed.

Lemma hex_no_slash s : str_forall is_hex s = true → no_slash s.
Proof. intros H. by apply no_slash_forall, hex_not_char. Qed.

Lemma hex_no_dot s : str_forall is_hex s = true → str_forall (not_char ".") s = true.
Proof. intros H. by apply hex_not_char. Qed.

Section digests.
Context `{HX : HexCodec} `{H1 : Sha1Digest} `{HL : !Sha1Laws}.

Lemma sha1_hex x : str_forall is_hex (sha1 x) = true.
Proof. apply hex_encode_digits. Qed.

Lemma sha1_length x : String.length (sha1 x) = 40.
Proof. unfold sha1. by rewrite hex_encode_length, sha1_digest_length. Qed.
End digests.

#[export] Hint Resolve sha1_hex hex_no_slash hex_no_dot : rust.

(** ** Bytes of strings *)

Lemma string_of_str_bytes s : String.string_of_list_byte (str_bytes s) = s.
Proof. apply String.string_of_list_byte_of_string. Qed.

Lemma str_bytes_inj a b : str_bytes a = str_bytes b → a = b.
Proof. intros H. by rewrite <- (string_of_str_bytes a), H, string_of_str_bytes. Qed.

(** ** JSON of durations *)

Lemma deserialize_serialize `{HH : Humantime} d :
  (0 <= as_secs d <= I64_MAX)%Z →
  deserialize_duration (serialize_duration d) = Some (from_secs (as_secs d)).
Proof.
  intros Hd. unfold serialize_duration, as_i64_wrap. rewrite (proj2 (Z.leb_le _ _)) by lia. simpl.
  unfold in_range. rewrite (proj2 (Z.leb_le 0 _)) by lia.
  rewrite (proj2 (Z.leb_le _ U64_MAX)); [done|]. unfold I64_MAX, U64_MAX in *. lia.
Qed.

(** ** Clean stores *)
Section clean.
Context {S : Type} `{HSt : Storage S} `{HSS : !StorageSpec S}.

(** The store serves, and every key is readable. *)
Definition clean (s : S) : Prop := storage_ready s ∧ storage_keys s = dom (storage_map s).

(** The backend accepts every sane key of the view. *)
Definition keys_ok (v : t) : Prop := ∀ k, sane k → storage_key_ok (expand_key v k).

Abbreviation sm := storage_map.

Lemma clean_get v s k :
  clean s → sane k → keys_ok v →
  BarrierView.get v s k
  = Ok ((λ x, {| se_key := k; se_value := x |}) <$> sm s !! expand_key v k).
Proof.
  intros [Hr Hk] Hs Hv. destruct (sm s !! expand_key v k) as [x|] eqn:E; simpl.
  - apply (get_ok v s k x); auto.
  - unfold BarrierView.get. rewrite Hs. rewrite storage_get_none; [done|done|auto|].
    rewrite Hk. by apply not_elem_of_dom.
Qed.

Lemma clean_put v s k x :
  clean s → sane k → keys_ok v →
  ∃ s', BarrierView.put v s {| se_key := k; se_value := x |} = (s', Ok tt) ∧ clean s' ∧
        sm s' = <[expand_key v k := x]> (sm s) ∧
        ∀ d, d ∈ storage_dirs s' → d ∈ storage_dirs s ∨ starts_with d (expand_key v k) = true.
Proof.
  intros [Hr Hk] Hs Hv. unfold BarrierView.put. simpl. rewrite Hs.
  destruct (storage_put_spec s (expand_key v k) x Hr (Hv k Hs)) as (s' & -> & Hr' & Hm & Hk' & Hd).
  exists s'. split_and!; [done| |done|done]. split; [done|]. by rewrite Hk', Hm, Hk, dom_insert_L.
Qed.

Lemma clean_delete v s k :
  clean s → sane k → keys_ok v →
  ∃ s', BarrierView.delete v s k = (s', Ok tt) ∧ clean s' ∧
        sm s' = base.delete (expand_key v k) (sm s) ∧ storage_dirs s' ⊆ storage_dirs s.
Proof.
  intros [Hr Hk] Hs Hv. unfold BarrierView.delete. rewrite Hs.
  destruct (storage_delete_spec s (expand_key v k) Hr (Hv k Hs)) as (s' & -> & Hr' & Hm & Hk' & Hd).
  exists s'. split_and!; [done| |done|done]. split; [done|]. by rewrite Hk', Hm, Hk, dom_delete_L.
Qed.

Lemma clean_list v s p :
  clean s → sane p → dir_path (expand_key v p) → starts_with_char slash (expand_key v p) = false →
  ∃ l, BarrierView.list_ v s p = Ok l ∧
       listing (dom (sm s)) (storage_dirs s) (expand_key v p) l.
Proof.
  intros [Hr Hk] Hs Hd Hsl. unfold BarrierView.list_. rewrite Hs.
  destruct (storage_list_spec s _ Hr Hd Hsl) as (l & -> & Hl). exists l. by rewrite <- Hk.
Qed.
End clean.

Section ops.
Context {S Q C : Type} `{HSt : Storage S} `{HSS : !StorageSpec S}.
Abbreviation W := (World S Q C).
Implicit Types w : W.

Lemma view_get_run v k w :
  clean (w_store w) → sane k → keys_ok v →
  view_get v k w
  = (w, Ok ((λ x, {| se_key := k; se_value := x |}) <$> storage_map (w_store w) !! expand_key v k)).
Proof. intros. unfold view_get. by rewrite clean_get. Qed.

Lemma view_put_run v k x w :
  clean (w_store w) → sane k → keys_ok v →
  ∃ s', view_put v k x w = (set_store s' w, Ok tt) ∧ clean s' ∧
        storage_map s' = <[expand_key v k := x]> (storage_map (w_store w)) ∧
        ∀ d, d ∈ storage_dirs s' →
             d ∈ storage_dirs (w_store w) ∨ starts_with d (expand_key v k) = true.
Proof.
  intros Hc Hs Hv. unfold view_put, on_store.
  destruct (clean_put v (w_store w) k x Hc Hs Hv) as (s' & -> & H). by exists s'.
Qed.

Lemma view_delete_run v k w :
  clean (w_store w) → sane k → keys_ok v →
  ∃ s', view_delete v k w = (set_store s' w, Ok tt) ∧ clean s' ∧
        storage_map s' = base.delete (expand_key v k) (storage_map (w_store w)) ∧
        storage_dirs s' ⊆ storage_dirs (w_store w).
Proof.
  intros Hc Hs Hv. unfold view_delete, on_store.
  destruct (clean_delete v (w_store w) k Hc Hs Hv) as (s' & -> & H). by exists s'.
Qed.
End ops.

(** *** Through a request *)
Section request_ops.
Context {S Q C : Type} `{HSt : Storage S} `{HSS : !StorageSpec S}.
Abbreviation W := (World S Q C).
Implicit Types w : W.

Lemma req_get_run v k w req :
  Logical.storage req = Some v → clean (w_store w) → sane k → keys_ok v →
  req_get k (w, req)
  = ((w, req), Ok ((λ x, {| se_key := k; se_value := x |}) <$> storage_map (w_store w) !! expand_key v k)).
Proof. intros Hv Hc Hs Hk. unfold req_get, RequestOps.storage_get. by rewrite Hv, clean_get. Qed.

Lemma req_put_run v k x w req :
  Logical.storage req = Some v → clean (w_store w) → sane k → keys_ok v →
  ∃ w', req_put k x (w, req) = ((w', req), Ok tt) ∧ clean (w_store w') ∧
        storage_map (w_store w') = <[expand_key v k := x]> (storage_map (w_store w)).
Proof.
  intros Hv Hc Hs Hk. unfold req_put, RequestOps.storage_put. rewrite Hv.
  destruct (clean_put v (w_store w) k x Hc Hs Hk) as (s' & -> & Hc' & Hm & _). by exists (set_store s' w).
Qed.

Lemma req_delete_run v k w req :
  Logical.storage req = Some v → clean (w_store w) → sane k → keys_ok v →
  ∃ w', req_delete k (w, req) = ((w', req), Ok tt) ∧ clean (w_store w') ∧
        storage_map (w_store w') = base.delete (expand_key v k) (storage_map (w_store w)).
Proof.
  intros Hv Hc Hs Hk. unfold req_delete, RequestOps.storage_delete. rewrite Hv.
  destruct (clean_delete v (w_store w) k Hc Hs Hk) as (s' & -> & Hc' & Hm & _). by exists (set_store s' w).
Qed.

Lemma req_list_run v p w req :
  Logical.storage req = Some v → clean (w_store w) → sane p → dir_path (expand_key v p) →
  starts_with_char slash (expand_key v p) = false →
  ∃ l, req_list p (w, req) = ((w, req), Ok l) ∧
       listing (dom (storage_map (w_store w))) (storage_dirs (w_store w)) (expand_key v p) l.
Proof.
  intros Hv Hc Hs Hd Hsl. unfold req_list, RequestOps.storage_list. rewrite Hv.
  destruct (clean_list v (w_store w) p Hc Hs Hd Hsl) as (l & -> & Hl). by exists l.
Qed.

(** The operations leave the request as it is. *)
Lemma req_put_req k x w req s' u : req_put k x (w, req) = (s', Ok u) → snd s' = req.
Proof. unfold req_put. destruct (RequestOps.storage_put _ _ _). by intros [= <- _]. Qed.

Lemma req_delete_req k w req s' u : req_delete k (w, req) = (s', Ok u) → snd s' = req.
Proof. unfold req_delete. destruct (RequestOps.storage_delete _ _ _). by intros [= <- _]. Qed.
End request_ops.

(** ** Successful runs *)

Lemma st_guard_ok {St} b e (s s' : St) u : st_guard b e s = (s', Ok u) → b = false ∧ s' = s.
Proof. unfold st_guard. destruct b; [done|]. by intros [= <-]. Qed.

Lemma st_lift_ok {St E A} (r : outcome E A) (s s' : St) a : st_lift r s = (s', Ok a) → r = Ok a ∧ s' = s.
Proof. unfold st_lift. by intros [= <- ->]. Qed.

Lemma st_lift_option_ok {St E A} (e : E) (o : option A) (s s' : St) x :
  st_lift (of_option e o) s = (s', Ok x) → o = Some x ∧ s' = s.
Proof. unfold st_lift. destruct o; [|done]. by intros [= <- <-]. Qed.

Lemma st_ret_ok {St E A} (x : A) (s s' : St) a : st_ret (E := E) x s = (s', Ok a) → x = a ∧ s' = s.
Proof. by intros [= <- <-]. Qed.

Lemma on_world_ok {W A} (m : st W RvError A) w req s' a :
  on_world m (w, req) = (s', Ok a) → ∃ w', s' = (w', req) ∧ m w = (w', Ok a).
Proof. unfold on_world. destruct (m w) as [w' r]. intros [= <- ->]. by exists w'. Qed.

Lemma on_world_last {W A} (m : st W RvError A) w req w' req' a :
  on_world m (w, req) = ((w', req'), Ok a) → req' = req ∧ m w = (w', Ok a).
Proof. unfold on_world. destruct (m w) as [w1 r]. by intros [= <- <- ->]. Qed.

Lemma get_req_ok {W} (w : W) req s' r : get_req (w, req) = (s', Ok r) → s' = (w, req) ∧ r = req.
Proof. by intros [= <- <-]. Qed.

Lemma put_req_ok {W} (w : W) req0 req s' u : put_req req (w, req0) = (s', Ok u) → s' = (w, req).
Proof. by intros [= <-]. Qed.

(** Decompose a successful run of a handler. *)
Ltac inv_run :=
  repeat first
  [ progress inv_steps
  | match goal with
    | H : st_guard _ _ _ = (_, Ok _) |- _ => apply st_guard_ok in H as [? ->]
    | H : st_lift _ _ = (_, Ok _) |- _ => apply st_lift_ok in H as [? ->]
    | H : st_ret _ _ = (_, Ok _) |- _ => apply st_ret_ok in H as [? ->]
    | H : get_req (_, _) = (_, Ok _) |- _ => apply get_req_ok in H as [-> ->]
    | H : put_req _ (_, _) = (_, Ok _) |- _ => apply put_req_ok in H as ->
    | H : on_world _ (_, _) = ((_, _), Ok _) |- _ => apply on_world_last in H as [-> H]
    | H : on_world _ (_, _) = (_, Ok _) |- _ =>
        let w := fresh "w" in let Hw := fresh "Hrun" in apply on_world_ok in H as (w & -> & Hw)
    | H : st_fail _ _ = (_, Ok _) |- _ => discriminate H
    end ].

(** ** Lists of strings *)

Lemma str_in_spec x l : str_in x l = true ↔ x ∈ l.
Proof.
  unfold str_in. rewrite existsb_exists. split.
  - intros (y & Hy & ->%String.eqb_eq). by apply list_elem_of_In.
  - intros Hx%list_elem_of_In. exists x. by rewrite String.eqb_refl.
Qed.

Lemma is_str_subset_spec sub l : Misc.is_str_subset sub l = true ↔ sub ⊆ l.
Proof.
  unfold Misc.is_str_subset. rewrite forallb_forall. split.
  - intros H x Hx%list_elem_of_In. by eapply bool_decide_eq_true, H.
  - intros H x Hx%list_elem_of_In. by apply bool_decide_eq_true, H.
Qed.
