(* ===== verification/TokenStore.v ===== *)
(** * Tokens and leases (src/src/modules/auth/token_store.rs, expiration.rs)

    [Module ExpirationManager] and [Module TokenStore] translate the two
    structures, which call each other: revoking a token revokes the leases of
    its secrets, and revoking the lease of a token revokes the token with its
    descendants.  The recursion is cut at [revoke_tree_salted], which takes the
    depth of the call stack as fuel: running out of it is the stack overflow
    (a [Panic]).  The expiration functions take the revocation of a token tree
    as an argument. *)

From stdpp Require Import base tactics list gmap strings.
From Stdlib Require Import ZArith Lia Ascii.
From S2P Require Import Prelude Errors RustStr Utils Lease Storage BarrierView Logical LogicalBackend Router Policy Mount World.

Local Open Scope string_scope.

Definition TOKEN_LOOKUP_PREFIX : string := "id/".
Definition TOKEN_PARENT_PREFIX : string := "parent/".
Definition TOKEN_SALT_LOCATION : string := "salt".
Definition TOKEN_SUB_PATH : string := "token/".
Definition LEASE_VIEW_PREFIX : string := "id/".
Definition TOKEN_VIEW_PREFIX : string := "token/".
Definition MAX_LEASE_DURATION_SECS : Duration := from_secs (30 * 24 * 60 * 60).
Definition DEFAULT_LEASE_DURATION_SECS : Duration := from_secs (24 * 60 * 60).
(** utils/token_util.rs *)
Definition DEFAULT_LEASE_TTL : Duration := from_secs (24 * 60 * 60).
Definition MAX_LEASE_TTL : Duration := from_secs (30 * 24 * 60 * 60).

(** [struct ExpirationManager]; [em_token_store] says whether the weak reference
    to the token store can still be upgraded. *)
Record ExpirationManager := {
  id_view : BarrierView.t;
  token_view : BarrierView.t;
  em_token_store : bool
}.

(** [struct TokenStore]. *)
Record TokenStore := {
  ts_view : option BarrierView.t;
  salt : string;
  expiration : ExpirationManager
}.

(** [struct OldLeaseEntry], the previous format of a stored lease. *)
Record OldLeaseEntry := {
  ole_lease_id : string;
  ole_client_token : string;
  ole_path : string;
  ole_data : option (gmap string Value);
  ole_secret : option SecretData;
  ole_auth : option Auth;
  ole_issue_time : SystemTime;
  ole_expire_time : SystemTime
}.

Definition salt_id `{HX : HexCodec} `{H1 : Sha1Digest} (self : TokenStore) (id : string) : string :=
  sha1 (str_bytes (salt self ++ id)).

(** [String::from_utf8_lossy] on the bytes of a string that was stored. *)
Definition utf8_lossy (b : bytes) : string := String.string_of_list_byte b.

Definition lease_set_ttl (t : Duration) (l : Lease.Lease) : Lease.Lease :=
  {| Lease.ttl := t; Lease.max_ttl := Lease.max_ttl l; Lease.renewable := Lease.renewable l;
     Lease.increment := Lease.increment l; Lease.issue_time := Lease.issue_time l |}.
Definition lease_set_issue (t : SystemTime) (l : Lease.Lease) : Lease.Lease :=
  {| Lease.ttl := Lease.ttl l; Lease.max_ttl := Lease.max_ttl l; Lease.renewable := Lease.renewable l;
     Lease.increment := Lease.increment l; Lease.issue_time := Some t |}.
Definition lease_set_increment (i : Duration) (l : Lease.Lease) : Lease.Lease :=
  {| Lease.ttl := Lease.ttl l; Lease.max_ttl := Lease.max_ttl l; Lease.renewable := Lease.renewable l;
     Lease.increment := i; Lease.issue_time := Lease.issue_time l |}.
Definition auth_set_token (t : string) (a : Auth) : Auth :=
  {| auth_lease := auth_lease a; auth_client_token := t; display_name := display_name a;
     policies := policies a; token_policies := token_policies a;
     no_default_policy := no_default_policy a; auth_internal_data := auth_internal_data a;
     metadata := metadata a; policy_results := policy_results a; period := period a;
     auth_explicit_max_ttl := auth_explicit_max_ttl a |}.
Definition secret_set_lease_id (i : string) (s : SecretData) : SecretData :=
  {| secret_lease := secret_lease s; lease_id := i; secret_internal_data := secret_internal_data s |}.

Module ExpirationManager.
Section expiration.
Context {S Q C : Type} `{HSt : Storage S} `{HQ : LeaseQueue Q} `{HCl : Clock} `{HU : UuidGen}
        `{HX : HexCodec} `{H1 : Sha1Digest} `{HSL : Serde LeaseEntry} `{HSO : Serde OldLeaseEntry}.
Abbreviation W := (World S Q C).
Abbreviation M := (st W RvError).

(** The router the manager holds, and the fuel of directory walks. *)
Context (route : handler_fn W) (walk_fuel : nat).
Context (ts : TokenStore).

Let self := expiration ts.

(** [self.token_store.read()?.upgrade().ok_or(ErrBarrierSealed)?]. *)
Definition upgrade : M unit := st_guard (negb (em_token_store self)) ErrBarrierSealed.

(** [impl LeaseEntry]. *)
Definition le_renewable (le : LeaseEntry) : M bool :=
  let! t := now in
  st_ret ((t <=? le_expire_time le)%Z &&
          match le_secret le with None => true | Some s => Lease.renewable (secret_lease s) end &&
          match le_auth le with None => true | Some a => Lease.renewable (auth_lease a) end).

Definition is_non_expiring (le : LeaseEntry) : bool :=
  match le_auth le with
  | Some a => Lease.enabled (auth_lease a) && bool_decide (policies a = ["root"])
  | None => false
  end.

Definition is_irrevocable (le : LeaseEntry) : bool := negb (is_empty (le_revoke_err le)).

Definition is_incorrectly_non_expiring (le : LeaseEntry) : bool :=
  Z.eqb (le_expire_time le) UNIX_EPOCH && negb (is_non_expiring le).

(** [Lease::expiration_time] reads the clock only for an enabled lease. *)
Definition expiration_time (l : Lease.Lease) : M SystemTime :=
  if Lease.enabled l then let! t := now in st_ret (Lease.expiration_time t l) else st_ret UNIX_EPOCH.

Definition as_millis (d : Duration) : Z := (d / 1000000)%Z.

(** The write lock of the queue is not reentrant: a thread that asks for it while
    it holds it waits for ever, or panics. *)
Definition register_lease_entry (le : LeaseEntry) : M unit := fun w =>
  match since_epoch (le_expire_time le) with
  | None => (w, Err SystemTimeError)
  | Some d =>
      if w_queue_held w then (set_deadlock w, Panic)
      else (set_queue (q_push le (as_millis d) (w_queue w)) w, Ok tt)
  end.

Definition persist_lease_entry (le : LeaseEntry) : M unit :=
  let! value := st_lift (of_option SerdeJson (le_encode le)) in
  view_put (id_view self) (le_lease_id le) value.

Definition from_old (ole : OldLeaseEntry) : LeaseEntry :=
  {| le_lease_id := ole_lease_id ole; le_client_token := ole_client_token ole; le_path := ole_path ole;
     le_data := default ∅ (ole_data ole); le_secret := ole_secret ole; le_auth := ole_auth ole;
     le_issue_time := ole_issue_time ole; le_expire_time := ole_expire_time ole; le_revoke_err := "" |}.

Definition load_lease_entry (lease_id : string) : M (option LeaseEntry) :=
  let! raw := view_get (id_view self) lease_id in
  match raw with
  | None => st_ret None
  | Some raw =>
      match de (A := LeaseEntry) (se_value raw) with
      | Some le => st_ret (Some le)
      | None =>
          match de (A := OldLeaseEntry) (se_value raw) with
          | Some ole =>
              let le := from_old ole in
              let! _ := persist_lease_entry le in st_ret (Some le)
          | None => st_ret None
          end
      end
  end.

Definition delete_lease_entry (lease_id : string) : M unit := view_delete (id_view self) lease_id.

Definition index_key (token lease_id : string) : string :=
  salt_id ts token ++ "/" ++ salt_id ts lease_id.

Definition create_index_by_token (token lease_id : string) : M unit :=
  let! _ := upgrade in view_put (token_view self) (index_key token lease_id) (str_bytes lease_id).

Definition remove_index_by_token (token lease_id : string) : M unit :=
  let! _ := upgrade in view_delete (token_view self) (index_key token lease_id).

Definition index_by_token (token lease_id : string) : M (option StorageEntry) :=
  let! _ := upgrade in view_get (token_view self) (index_key token lease_id).

Fixpoint lookup_by_token_loop (prefix : string) (subs ret : list string) : M (list string) :=
  match subs with
  | [] => st_ret ret
  | sub :: subs =>
      let! raw := view_get (token_view self) (prefix ++ sub) in
      match raw with
      | None => lookup_by_token_loop prefix subs ret
      | Some raw => lookup_by_token_loop prefix subs (ret ++ [utf8_lossy (se_value raw)])%list
      end
  end.

Definition lookup_by_token (token : string) : M (list string) :=
  let! _ := upgrade in
  let prefix := salt_id ts token ++ "/" in
  let! sub_keys := view_list (token_view self) prefix in
  lookup_by_token_loop prefix sub_keys [].

(** A request sent to the router; the error is logged by the callers. *)
Definition send (req : Request) : M (option Response) := fun w =>
  let '((w, _), r) := route (w, req) in (w, r).

Section revoke.
(** [token_store.revoke_tree]. *)
Context (revoke_tree : string -> M unit).

Definition revoke_lease_entry (le : LeaseEntry) : M unit :=
  let! _ := upgrade in
  match le_auth le with
  | Some a => revoke_tree (auth_client_token a)
  | None =>
      let d := if bool_decide (le_data le = ∅) then None else Some (le_data le) in
      fun w =>
        match send (RequestOps.new_revoke_request (le_path le) (le_secret le) d) w with
        | (w, Panic) => (w, Panic)
        | (w, _) => (w, Ok tt)
        end
  end.

Definition revoke_lease_id (lease_id : string) (register : bool) : M unit :=
  let! le := load_lease_entry lease_id in
  match le with
  | None => st_ret tt
  | Some le =>
      let! _ := revoke_lease_entry le in
      let! _ := delete_lease_entry lease_id in
      let! _ := match le_secret le with
                | Some _ => remove_index_by_token (le_client_token le) (le_lease_id le)
                | None => st_ret tt
                end in
      if register then register_lease_entry (le_set_expire_time UNIX_EPOCH le) else st_ret tt
  end.

Definition add_slash (p : string) : string := if ends_with_char slash p then p else p ++ "/".

Definition revoke_prefix (prefix : string) : M unit :=
  let prefix := add_slash prefix in
  let! existing := view_get_keys walk_fuel (BarrierView.new_sub_view (id_view self) prefix) in
  st_iter (λ suffix, revoke_lease_id (prefix ++ suffix) true) existing.

Definition revoke_by_token (te : TokenEntry) : M unit :=
  let! existing := lookup_by_token (te_id te) in
  st_iter (λ lease_id, revoke_lease_id lease_id true) existing.

(** *** One tick of the thread that revokes expired leases *)

(** [duration_since(UNIX_EPOCH).map(as_millis).unwrap_or(0)]. *)
Definition now_millis : M Z :=
  let! t := now in st_ret (match since_epoch t with Some d => as_millis d | None => 0%Z end).

(** The inner loop, under the write lock; every turn but the last one pops. *)
Fixpoint expire_loop (fuel : nat) : M unit :=
  match fuel with
  | O => fun w => (w, Panic)
  | Datatypes.S fuel =>
      let! t := now_millis in
      fun w =>
        match q_peek (w_queue w) with
        | None => (w, Ok tt)
        | Some (le, priority) =>
            if (t <? priority)%Z then (w, Ok tt)
            else
              let pop (w : W) := expire_loop fuel (set_queue (q_pop (w_queue w)) w) in
              if Z.eqb priority 0 then pop w
              else
                match revoke_lease_id (le_lease_id le) false w with
                | (w, Ok _) => pop w
                | (w, Err _) => (w, Ok tt)
                | (w, Panic) => (w, Panic)
                end
        end
  end.

Definition check_expired_lease_entries : M unit :=
  let! t := now_millis in
  fun w =>
    match q_peek (w_queue w) with
    | Some (_, priority) =>
        if (priority <? t)%Z then
          match expire_loop (Datatypes.S (q_len (w_queue w))) (set_queue_held true w) with
          | (w, Panic) => (w, Panic)
          | (w, r) => (set_queue_held false w, r)
          end
        else (w, Ok tt)
    | None => (w, Ok tt)
    end.

End revoke.

Definition stop_check_expired_lease_entries : M unit := fun w =>
  if w_queue_held w then (set_deadlock w, Panic) else (set_queue q_new w, Ok tt).

Definition get_lease_count (w : W) : nat := q_len (w_queue w).

Definition restore_one (lease_id : string) : M unit :=
  let! le := load_lease_entry lease_id in
  match le with None => st_ret tt | Some le => register_lease_entry le end.

Definition restore : M unit :=
  let! existing := view_get_keys walk_fuel (id_view self) in
  st_iter restore_one existing.

(** *** Renewal *)

Definition renew_secret_lease_entry (le : LeaseEntry) (increment : Duration) : M (option Response) :=
  let s := (λ s, secret_set_lease (lease_set_issue (le_issue_time le)
                   (lease_set_increment increment (secret_lease s))) (secret_set_lease_id "" s))
             <$> le_secret le in
  let d := if bool_decide (le_data le = ∅) then None else Some (le_data le) in
  send (RequestOps.new_renew_request (le_path le) s d).

Definition renew_auth_lease_entry (le : LeaseEntry) (increment : Duration) : M (option Response) :=
  let a := (λ a,
    let t := if starts_with "auth/token/" (le_path le) then le_client_token le else "" in
    auth_set_lease (lease_set_issue (le_issue_time le) (lease_set_increment increment (auth_lease a)))
      (auth_set_token t a)) <$> le_auth le in
  send (RequestOps.new_renew_auth_request (le_path le) a None).

Definition calc_ttl (increment period backend_ttl backend_max explicit : Duration) (start : SystemTime)
  : M Duration :=
  let! t := now in
  st_lift (Lease.calculate_ttl t MAX_LEASE_TTL DEFAULT_LEASE_TTL increment period backend_ttl
             backend_max explicit start).

Definition renew (lid : string) (increment : Duration) : M (option Response) :=
  let! le := load_lease_entry lid in
  match le with
  | None => st_fail ErrLeaseNotFound
  | Some le =>
      let! ok := le_renewable le in
      let! _ := st_guard (negb ok) ErrLeaseNotRenewable in
      let! resp := renew_secret_lease_entry le increment in
      match resp with
      | None => st_ret None
      | Some resp =>
          match resp_secret resp with
          | None => st_ret (Some resp)
          | Some sec =>
              if negb (Lease.enabled (secret_lease sec)) then st_ret (Some resp)
              else
                let! ttl := calc_ttl increment 0 (Lease.ttl (secret_lease sec))
                              (Lease.max_ttl (secret_lease sec)) 0 (le_issue_time le) in
                let sec := secret_set_lease_id lid (secret_set_lease (lease_set_ttl ttl (secret_lease sec)) sec) in
                let resp := ResponseOps.set_secret (Some sec) resp in
                let! expire := expiration_time (secret_lease sec) in
                let le := {| le_lease_id := le_lease_id le; le_client_token := le_client_token le;
                             le_path := le_path le; le_data := default ∅ (resp_data resp);
                             le_secret := Some sec; le_auth := le_auth le;
                             le_issue_time := le_issue_time le; le_expire_time := expire;
                             le_revoke_err := le_revoke_err le |} in
                let! _ := persist_lease_entry le in
                let! _ := register_lease_entry le in
                st_ret (Some resp)
          end
      end
  end.

Definition renew_token (te : TokenEntry) (increment : Duration) : M (option Response) :=
  let! _ := upgrade in
  let lid := te_path te ++ "/" ++ salt_id ts (te_id te) in
  let! le := load_lease_entry lid in
  match le with
  | None => st_fail ErrLeaseNotFound
  | Some le =>
      let! ok := le_renewable le in
      let! _ := st_guard (negb ok) ErrLeaseNotRenewable in
      let! resp := renew_auth_lease_entry le increment in
      match resp ≫= resp_auth with
      | None => st_ret None
      | Some a =>
          let! ttl := calc_ttl increment (period a) (Lease.ttl (auth_lease a))
                        (Lease.max_ttl (auth_lease a)) (auth_explicit_max_ttl a) (le_issue_time le) in
          let a := auth_set_token (te_id te) (auth_set_lease (lease_set_ttl ttl (auth_lease a)) a) in
          let! expire := expiration_time (auth_lease a) in
          let le := {| le_lease_id := le_lease_id le; le_client_token := le_client_token le;
                       le_path := le_path le; le_data := le_data le; le_secret := le_secret le;
                       le_auth := Some a; le_issue_time := le_issue_time le; le_expire_time := expire;
                       le_revoke_err := le_revoke_err le |} in
          let! _ := persist_lease_entry le in
          let! _ := register_lease_entry le in
          st_ret (Some (ResponseOps.set_auth (Some a) ResponseOps.new))
      end
  end.

(** *** Registration *)

(** The two adjustments of a TTL before it is registered. *)
Definition clamp_ttl (t : Duration) : Duration :=
  let t := if Z.eqb (as_secs t) 0 then DEFAULT_LEASE_DURATION_SECS else t in
  if (MAX_LEASE_DURATION_SECS <? t)%Z then MAX_LEASE_DURATION_SECS else t.

Definition register_secret (req : Request) (resp : Response) : M (Response * string) :=
  match resp_secret resp with
  | None => st_ret (resp, "")
  | Some sec =>
      let l := lease_set_ttl (clamp_ttl (Lease.ttl (secret_lease sec))) (secret_lease sec) in
      let! t := now in
      let l := lease_set_issue t l in
      let! u := fresh_uuid in
      let lid := path req ++ "/" ++ u in
      let sec := secret_set_lease_id lid (secret_set_lease l sec) in
      let! expire := expiration_time l in
      let le := {| le_lease_id := lid; le_client_token := client_token req; le_path := path req;
                   le_data := default ∅ (resp_data resp); le_secret := Some sec; le_auth := None;
                   le_issue_time := t; le_expire_time := expire; le_revoke_err := "" |} in
      let! _ := persist_lease_entry le in
      let! _ := create_index_by_token (le_client_token le) (le_lease_id le) in
      let! _ := st_guard (expire <? t)%Z SystemTimeError in
      let sec := secret_set_lease (lease_set_ttl (expire - t) l) sec in
      let! _ := register_lease_entry le in
      st_ret (ResponseOps.set_secret (Some sec) resp, lid)
  end.

Definition register_auth (te : TokenEntry) (a : Auth) : M Auth :=
  let! expired :=
    (if Z.eqb (te_ttl te) 0
     then let! e := expiration_time (auth_lease a) in st_ret (Z.eqb e UNIX_EPOCH)
     else st_ret false) in
  let! _ := st_guard (expired && negb (bool_decide (te_policies te = ["root"])))
              (ErrString "refusing to register a lease for a non-root token with no TTL") in
  let! _ := st_guard (is_empty (auth_client_token a))
              (ErrString "cannot register an auth lease with an empty token") in
  let! _ := st_guard (contains ".." (te_path te))
              (ErrString "cannot register an auth lease with n token entry whose path contains parent references") in
  let! _ := upgrade in
  let lid := te_path te ++ "/" ++ salt_id ts (auth_client_token a) in
  let! t := now in
  let a := auth_set_lease (lease_set_issue t (auth_lease a)) a in
  let! expire := expiration_time (auth_lease a) in
  let le := {| le_lease_id := lid; le_client_token := auth_client_token a; le_path := te_path te;
               le_data := ∅; le_secret := None; le_auth := Some a; le_issue_time := t;
               le_expire_time := expire; le_revoke_err := "" |} in
  let! _ := persist_lease_entry le in
  let! _ := register_lease_entry le in
  st_ret a.

End expiration.
End ExpirationManager.

(** ** The body of a token creation request *)

Record TokenReqData := {
  trd_id : string;
  trd_policies : list string;
  trd_meta : gmap string string;
  trd_no_parent : bool;
  trd_lease : string;
  trd_ttl : string;
  trd_display_name : string;
  trd_num_uses : Z;
  trd_renewable : bool;
  trd_period : Duration;
  trd_explicit_max_ttl : Duration
}.

Module TokenReq.
Section decode.
Context `{HH : Humantime}.

(** A field with [serde(default)]: absent, or present with the right type. *)
Definition field {A} (m : gmap string Value) (key : string) (dflt : A) (conv : Value -> option A)
  : result A :=
  match m !! key with
  | None => Ok dflt
  | Some v => of_option SerdeJson (conv v)
  end.

Definition as_bool (v : Value) : option bool := match v with VBool b => Some b | _ => None end.
Definition as_u32 (v : Value) : option Z :=
  match v with VInt z => in_range 0 (2 ^ 32 - 1) z | _ => None end.
Definition as_strings (v : Value) : option (list string) :=
  match v with VArray l => mapM as_str l | _ => None end.

(** [serde_json::from_value::<TokenReqData>]. *)
Definition from_value (m : gmap string Value) : result TokenReqData :=
  let? id := field m "id" "" as_str in
  let? policies := field m "policies" [] as_strings in
  let? meta := field m "meta" ∅ FieldTrait.string_map_of in
  let? no_parent := field m "no_parent" false as_bool in
  let? lease := field m "lease" "" as_str in
  let? ttl := field m "ttl" "" as_str in
  let? display_name := field m "display_name" "" as_str in
  let? num_uses := field m "num_uses" 0%Z as_u32 in
  let? renewable := field m "renewable" false as_bool in
  let? period := field m "period" 0%Z deserialize_duration in
  let? explicit_max_ttl := field m "explicit_max_ttl" 0%Z deserialize_duration in
  Ok {| trd_id := id; trd_policies := policies; trd_meta := meta; trd_no_parent := no_parent;
        trd_lease := lease; trd_ttl := ttl; trd_display_name := display_name;
        trd_num_uses := num_uses; trd_renewable := renewable; trd_period := period;
        trd_explicit_max_ttl := explicit_max_ttl |}.
End decode.

(** [DISPLAY_NAME_SANITIZE.replace_all(s, "-")]: every character outside
    [a-zA-Z0-9-] becomes a dash. *)
Definition name_char (a : ascii) : bool :=
  let n := nat_of_ascii a in
  ((48 <=? n) && (n <=? 57) || (65 <=? n) && (n <=? 90) || (97 <=? n) && (n <=? 122) || (n =? 45))%nat.
Fixpoint sanitize_chars (s : string) : string :=
  match s with
  | EmptyString => ""
  | String a s => String (if name_char a then a else "-"%char) (sanitize_chars s)
  end.
Definition sanitize_display_name (name : string) : string :=
  trim_end_matches (Ascii.eqb "-") (sanitize_chars ("token-" ++ name)).
End TokenReq.

(** policy_store.rs *)
Definition NON_ASSIGNABLE_POLICIES : list string := ["response-wrapping"; "control-group"].

Module TokenStore.
Section token_store.
Context {S Q C : Type} `{HSt : Storage S} `{HQ : LeaseQueue Q} `{HCl : Clock} `{HU : UuidGen}
        `{HX : HexCodec} `{H1 : Sha1Digest} `{HST : Serde TokenEntry} `{HSL : Serde LeaseEntry}
        `{HSO : Serde OldLeaseEntry} `{HH : Humantime} `{HJ : JsonParser}.
Abbreviation W := (World S Q C).
Abbreviation M := (st W RvError).
Abbreviation H := (st (W * Request) RvError).

Context (route : handler_fn W) (walk_fuel stack : nat).
Context (self : TokenStore).

(** [self.view.as_ref()], an error before the module is initialised. *)
Definition get_view : M BarrierView.t :=
  match ts_view self with Some v => st_ret v | None => st_fail ErrModuleNotInit end.

Definition id_key (salted_id : string) : string := TOKEN_LOOKUP_PREFIX ++ salted_id.
Definition parent_key (parent salted_id : string) : string :=
  TOKEN_PARENT_PREFIX ++ salt_id self parent ++ "/" ++ salted_id.

Definition lookup_salted (salted_id : string) : M (option TokenEntry) :=
  let! view := get_view in
  let! raw := view_get view (id_key salted_id) in
  match raw with
  | None => st_ret None
  | Some raw => let! e := st_lift (of_option SerdeJson (te_decode (se_value raw))) in st_ret (Some e)
  end.

Definition lookup (id : string) : M (option TokenEntry) :=
  if is_empty id then st_fail ErrAuthTokenIdInvalid else lookup_salted (salt_id self id).

(** The entry is completed with an id when it has none. *)
Definition create (entry : TokenEntry) : M TokenEntry :=
  let! view := get_view in
  let! entry := (if is_empty (te_id entry)
                 then let! u := fresh_uuid in st_ret (te_set_id u entry) else st_ret entry) in
  let salted_id := salt_id self (te_id entry) in
  let! value := st_lift (of_option SerdeJson (te_encode entry)) in
  let! _ :=
    (if is_empty (te_parent entry) then st_ret tt
     else
       let! parent := lookup (te_parent entry) in
       match parent with
       | None => st_fail ErrAuthTokenNotFound
       | Some _ => view_put view (parent_key (te_parent entry) salted_id) []
       end) in
  let! _ := view_put view (id_key salted_id) value in
  st_ret entry.

(** [TokenEntry::default()]. *)
Definition default_entry : M TokenEntry :=
  let! u := fresh_uuid in
  let! t := now in
  st_ret {| te_id := u; te_parent := ""; te_policies := []; te_path := ""; te_meta := ∅;
            te_display_name := ""; te_num_uses := 0; te_ttl := 0; te_creation_time := t;
            te_period := 0; te_explicit_max_ttl := 0 |}.

Definition root_token : M TokenEntry :=
  let! te := default_entry in
  create {| te_id := te_id te; te_parent := te_parent te; te_policies := ["root"];
            te_path := "auth/token/root"; te_meta := te_meta te; te_display_name := "root";
            te_num_uses := te_num_uses te; te_ttl := te_ttl te;
            te_creation_time := te_creation_time te; te_period := te_period te;
            te_explicit_max_ttl := te_explicit_max_ttl te |}.

(** *** Revocation *)

Section revoke.
Context (revoke_tree : string -> M unit).

Definition revoke_salted_ (salted_id : string) : M unit :=
  let! view := get_view in
  let! entry := lookup_salted salted_id in
  let! _ := view_delete view (id_key salted_id) in
  match entry with
  | None => st_ret tt
  | Some entry =>
      let! _ := (if is_empty (te_parent entry) then st_ret tt
                 else view_delete view (parent_key (te_parent entry) salted_id)) in
      ExpirationManager.revoke_by_token route self revoke_tree entry
  end.
End revoke.

Fixpoint revoke_tree_salted (depth : nat) (salted_id : string) : M unit :=
  match depth with
  | O => fun w => (w, Panic)
  | Datatypes.S depth =>
      let! view := get_view in
      let! children := view_list view (TOKEN_PARENT_PREFIX ++ salted_id ++ "/") in
      let! _ := st_iter (revoke_tree_salted depth) children in
      revoke_salted_ (λ id, if is_empty id then st_fail ErrAuthTokenIdInvalid
                            else revoke_tree_salted depth (salt_id self id)) salted_id
  end.

Definition revoke_tree (id : string) : M unit :=
  if is_empty id then st_fail ErrAuthTokenIdInvalid else revoke_tree_salted stack (salt_id self id).

Definition revoke_salted : string -> M unit := revoke_salted_ revoke_tree.

Definition revoke (id : string) : M unit :=
  if is_empty id then st_fail ErrAuthTokenIdInvalid else revoke_salted (salt_id self id).

(** The entry with its use counted. *)
Definition use_token (entry : TokenEntry) : M TokenEntry :=
  let! view := get_view in
  if Z.eqb (te_num_uses entry) 0 then st_ret entry
  else
    let entry := te_set_num_uses (te_num_uses entry - 1) entry in
    if Z.eqb (te_num_uses entry) 0 then let! _ := revoke (te_id entry) in st_ret entry
    else
      let! value := st_lift (of_option SerdeJson (te_encode entry)) in
      let! _ := view_put view (id_key (salt_id self (te_id entry))) value in
      st_ret entry.

(** [Auth::default()] with the fields [check_token] sets. *)
Definition default_auth (t : SystemTime) : Auth :=
  {| auth_lease := default_lease t; auth_client_token := ""; display_name := ""; policies := [];
     token_policies := []; no_default_policy := false; auth_internal_data := ∅; metadata := ∅;
     policy_results := None; period := 0; auth_explicit_max_ttl := 0 |}.

Definition check_token (_path token : string) : M (option Auth) :=
  let! _ := st_guard (is_empty token) ErrRequestClientTokenMissing in
  let! te := lookup token in
  match te with
  | None => st_fail ErrPermissionDenied
  | Some entry =>
      let! entry := use_token entry in
      let! t := now in
      let a := default_auth t in
      st_ret (Some {| auth_lease := auth_lease a; auth_client_token := token;
                      display_name := te_display_name entry;
                      policies := PolicyUtils.sanitize_policies (te_policies entry) false;
                      token_policies := te_policies entry; no_default_policy := no_default_policy a;
                      auth_internal_data := auth_internal_data a; metadata := te_meta entry;
                      policy_results := policy_results a; period := period a;
                      auth_explicit_max_ttl := auth_explicit_max_ttl a |})
  end.

(** *** Handlers *)

(** The TTL of a new token: the requested or leased duration, limited by
    [calculate_ttl] unless the token is a root token without one. *)
Definition requested_ttl (data : TokenReqData) : result Z :=
  if negb (is_empty (trd_ttl data)) then
    let? d := of_option HumantimeDuration (parse_duration (trd_ttl data)) in Ok (as_secs d)
  else if negb (is_empty (trd_lease data)) then
    let? d := of_option HumantimeDuration (parse_duration (trd_lease data)) in Ok (as_secs d)
  else Ok 0%Z.

Definition new_token_ttl (data : TokenReqData) (policies : list string) (creation : SystemTime) : M Z :=
  let! ttl := st_lift (requested_ttl data) in
  let! ttl :=
    (if (0 <? as_secs (trd_period data))%Z || (0 <? ttl)%Z || (Z.eqb ttl 0 && negb (str_in "root" policies)) then
       let! d := ExpirationManager.calc_ttl 0 (trd_period data) (from_secs ttl) 0
                   (trd_explicit_max_ttl data) creation in
       st_ret (as_secs d)
     else st_ret ttl) in
  st_ret (if Z.eqb ttl 0 && (0 <? as_secs (trd_explicit_max_ttl data))%Z
          then as_secs (trd_explicit_max_ttl data) else ttl).

Fixpoint first_non_assignable (l : list string) : option string :=
  match l with
  | [] => None
  | p :: l => if str_in p NON_ASSIGNABLE_POLICIES then Some p else first_non_assignable l
  end.

(** The policies of the child, checked against the parent's. *)
Definition child_policies (parent : TokenEntry) (data : TokenReqData) : result (list string) :=
  let is_root := str_in "root" (te_policies parent) in
  let policies := match trd_policies data with
                  | [] => PolicyUtils.sanitize_policies (te_policies parent) false
                  | l => l
                  end in
  if negb is_root && negb (Misc.is_str_subset policies (te_policies parent)) then Err ErrRequestInvalid
  else
    match first_non_assignable policies with
    | Some p => Err (ErrResponse ("cannot assign policy " ++ p))
    | None =>
        if str_in "root" policies && negb is_root
        then Err (ErrResponse "root tokens may not be created without parent token being root")
        else Ok policies
    end.

Definition handle_create : H (option Response) :=
  let! req := get_req in
  match body req with
  | None => st_fail ErrRequestInvalid
  | Some b =>
      let! parent := on_world (lookup (client_token req)) in
      match parent with
      | None => st_fail ErrRequestInvalid
      | Some parent =>
          let! _ := st_guard (0 <? te_num_uses parent)%Z ErrRequestInvalid in
          let is_root := str_in "root" (te_policies parent) in
          let! data := st_lift (TokenReq.from_value b) in
          let! te := on_world default_entry in
          let! _ := st_guard (negb (is_empty (trd_id data)) && negb is_root) ErrRequestInvalid in
          let! policies := st_lift (child_policies parent data) in
          let! _ := st_guard (trd_no_parent data && negb is_root) ErrRequestInvalid in
          let! ttl := on_world (new_token_ttl data policies (te_creation_time te)) in
          let! _ := st_guard (Z.eqb ttl 0 && negb (Z.eqb (te_ttl parent) 0))
                      (ErrResponse "expiring root tokens cannot create non-expiring root tokens") in
          let renewable := if Z.eqb ttl 0 then false else trd_renewable data in
          let entry :=
            {| te_id := if is_empty (trd_id data) then te_id te else trd_id data;
               te_parent := if trd_no_parent data then "" else client_token req;
               te_policies := policies; te_path := "auth/token/create"; te_meta := trd_meta data;
               te_display_name := if is_empty (trd_display_name data) then "token"
                                  else TokenReq.sanitize_display_name (trd_display_name data);
               te_num_uses := trd_num_uses data; te_ttl := ttl;
               te_creation_time := te_creation_time te; te_period := trd_period data;
               te_explicit_max_ttl := trd_explicit_max_ttl data |} in
          let! entry := on_world (create entry) in
          let! t := on_world now in
          let a := default_auth t in
          let l := {| Lease.ttl := from_secs (te_ttl entry); Lease.max_ttl := 0;
                      Lease.renewable := renewable; Lease.increment := 0; Lease.issue_time := Some t |} in
          let auth := {| auth_lease := l; auth_client_token := te_id entry;
                         display_name := te_display_name entry; policies := te_policies entry;
                         token_policies := token_policies a; no_default_policy := no_default_policy a;
                         auth_internal_data := auth_internal_data a; metadata := te_meta entry;
                         policy_results := policy_results a; period := te_period entry;
                         auth_explicit_max_ttl := te_explicit_max_ttl entry |} in
          st_ret (Some (ResponseOps.set_auth (Some auth) ResponseOps.new))
      end
  end.

Definition data_as_str (key : string) : H string :=
  let! req := get_req in st_lift (RequestOps.get_data_as_str req key).

Definition handle_revoke_tree : H (option Response) :=
  let! id := data_as_str "token" in
  let! _ := st_guard (is_empty id) ErrRequestInvalid in
  let! _ := on_world (revoke_tree id) in st_ret None.

Definition handle_revoke_orphan : H (option Response) :=
  let! id := data_as_str "token" in
  let! _ := st_guard (is_empty id) ErrRequestInvalid in
  let! _ := on_world (revoke id) in st_ret None.

Definition lookup_data (te : TokenEntry) : gmap string Value :=
  let d : gmap string Value := list_to_map [
    ("id", VStr (te_id te)); ("policies", VArray (map VStr (te_policies te)));
    ("path", VStr (te_path te)); ("meta", VObject (prod_map id VStr <$> map_to_list (te_meta te)));
    ("display_name", VStr (te_display_name te)); ("num_uses", VInt (te_num_uses te));
    ("ttl", VInt 0);
    ("creation_time", VInt (match since_epoch (te_creation_time te) with
                            | Some d => as_secs d | None => 0 end));
    ("creation_ttl", VInt (te_ttl te));
    ("explicit_max_ttl", VInt (as_secs (te_explicit_max_ttl te)))] in
  if (0 <? as_secs (te_period te))%Z then <["period" := VInt (as_secs (te_period te))]> d else d.

Definition handle_lookup : H (option Response) :=
  let! id := data_as_str "token" in
  let! req := get_req in
  let id := if is_empty id then client_token req else id in
  let! _ := st_guard (is_empty id) ErrRequestInvalid in
  let! te := on_world (lookup id) in
  match te with
  | None => st_ret None
  | Some te => st_ret (Some (ResponseOps.data_response (Some (lookup_data te))))
  end.

Definition handle_lookup_self : H (option Response) :=
  let! req := get_req in
  let! _ := put_req (set_data (Some (<["token" := VStr (client_token req)]> (default ∅ (data req)))) req) in
  handle_lookup.

(** [serde_json::from_value::<i32>], then [as u64]. *)
Definition as_increment (v : Value) : result Duration :=
  match v with
  | VInt z =>
      match in_range (- 2 ^ 31) (2 ^ 31 - 1) z with
      | Some z => Ok (from_secs (if (z <? 0)%Z then z + 2 ^ 64 else z)%Z)
      | None => Err SerdeJson
      end
  | _ => Err SerdeJson
  end.

Definition handle_renew : H (option Response) :=
  let! id := data_as_str "token" in
  let! _ := st_guard (is_empty id) ErrRequestInvalid in
  let! te := on_world (lookup id) in
  match te with
  | None => st_fail ErrRequestInvalid
  | Some te =>
      let! req := get_req in
      let! v := st_lift (RequestOps.get_data req "increment") in
      let! increment := st_lift (as_increment v) in
      on_world (ExpirationManager.renew_token route self te increment)
  end.

Definition auth_set_limits (p m : Duration) (a : Auth) : Auth :=
  {| auth_lease := auth_lease a; auth_client_token := auth_client_token a;
     display_name := display_name a; policies := policies a; token_policies := token_policies a;
     no_default_policy := no_default_policy a; auth_internal_data := auth_internal_data a;
     metadata := metadata a; policy_results := policy_results a; period := p;
     auth_explicit_max_ttl := m |}.

Definition auth_renew : H (option Response) :=
  let! req := get_req in
  match auth req with
  | None => st_fail (ErrString "request auth is nil")
  | Some a =>
      let! te := on_world (lookup (auth_client_token a)) in
      match te with
      | None => st_fail (ErrString "no token entry found during lookup")
      | Some te =>
          let a := auth_set_limits (te_period te) (te_explicit_max_ttl te) a in
          let! _ := put_req (set_auth (Some a) req) in
          st_ret (Some (ResponseOps.set_auth (Some a) ResponseOps.new))
      end
  end.

(** *** The paths of the backend *)

Definition token_field (desc : string) : string * Field := ("token", plain_field Str desc).

Definition new_backend {R} : LogicalBackend R W :=
  {| paths := [
       path_with "create*" "The token create path is used to create new tokens."
         [("num_uses", plain_field Int "Max number of uses for this token");
          ("period", plain_field Str "Renew period");
          ("ttl", plain_field DurationSecond "Time to live for this token");
          ("renewable", {| required := false; field_type := Bool; field_default := VBool true;
             description := "Allow token to be renewed past its initial TTL up to system/mount maximum TTL" |});
          ("policies", plain_field Array "List of policies for the token")]
         [(Write, handle_create)];
       path_with "lookup/(?P<token>.+)" "This endpoint will lookup a token and its properties."
         [token_field "Token to lookup"] [(Read, handle_lookup)];
       path_with "lookup-self$" "This endpoint will lookup a token and its properties."
         [token_field "Token to lookup"] [(Read, handle_lookup_self)];
       path_with "revoke/(?P<token>.+)" "This endpoint will delete the token and all of its child tokens."
         [token_field "Token to revoke"] [(Write, handle_revoke_tree)];
       path_with "revoke-orphan/(?P<token>.+)" "This endpoint will delete the token and orphan its child tokens."
         [token_field "Token to revoke (request body)"] [(Write, handle_revoke_orphan)];
       path_with "renew/(?P<token>.+)" "This endpoint will renew the token and prevent expiration."
         [token_field "Token to renew (request body)";
          ("increment", plain_field Int "The desired increment in seconds to the token expiration")]
         [(Write, handle_renew)]];
     paths_re := []; root_paths := ["revoke-orphan/*"]; unauth_paths := []; backend_help := "TODO";
     secrets := []; auth_renew_handler := Some auth_renew |}.

End token_store.

(** [TokenStore::new]: the salt is read, or generated and stored. *)
Section create_store.
Context {S Q C : Type} `{HSt : Storage S} `{HU : UuidGen}.

Definition new_expiration (system_view : option BarrierView.t) : result ExpirationManager :=
  match system_view with
  | None => Err ErrBarrierSealed
  | Some v => Ok {| id_view := BarrierView.new_sub_view v LEASE_VIEW_PREFIX;
                    token_view := BarrierView.new_sub_view v TOKEN_VIEW_PREFIX;
                    em_token_store := false |}
  end.

Definition new (system_view : option BarrierView.t) (em : ExpirationManager)
  : st (World S Q C) RvError TokenStore :=
  match system_view with
  | None => st_fail ErrBarrierSealed
  | Some sv =>
      let view := BarrierView.new_sub_view sv TOKEN_SUB_PATH in
      let! raw := view_get view TOKEN_SALT_LOCATION in
      let stored := match raw with Some e => utf8_lossy (se_value e) | None => "" end in
      let! s := (if is_empty stored then
                   let! u := fresh_uuid in
                   let! _ := view_put view TOKEN_SALT_LOCATION (str_bytes u) in st_ret u
                 else st_ret stored) in
      st_ret {| ts_view := Some view; salt := s; expiration := em |}
  end.

(** [expiration.set_token_store]. *)
Definition set_token_store (ts : TokenStore) : TokenStore :=
  {| ts_view := ts_view ts; salt := salt ts;
     expiration := {| id_view := id_view (expiration ts); token_view := token_view (expiration ts);
                      em_token_store := true |} |}.
End create_store.
End TokenStore.
