(* ===== verification/WorldDemo.v ===== *)
(** * A concrete world

    Instances of the parameters of the modules (SHA-1, hexadecimal, JSON, the
    lease queue, the policy cache) with proofs of the laws the theorems assume
    of them, and a small unsealed store, so that the hypotheses of the theorems
    can be discharged by evaluation. *)

From stdpp Require Import base tactics list gmap strings countable.
From Stdlib Require Import ZArith Lia Ascii.
From Stdlib.Strings Require Import Byte.
From S2P Require Import Prelude Errors RustStr Utils Lease Storage BarrierCorrect BarrierView Logical LogicalBackend Policy Mount MountCorrect World WorldLaws TokenStore.

Local Open Scope string_scope.

(** ** Hexadecimal and SHA-1 *)

Definition hex_digit (n : N) : ascii :=
  ascii_of_N (if (n <? 10)%N then 48 + n else 87 + n)%N.

Fixpoint hex_of (l : bytes) : string :=
  match l with
  | [] => ""
  | b :: l => String (hex_digit (Byte.to_N b / 16)) (String (hex_digit (Byte.to_N b mod 16)) (hex_of l))
  end.

Definition lower_hex : HexCodec := hex_of.

(** Not a hash, but of the right length. *)
Definition toy_sha1 : Sha1Digest := fun x => take 20 (x ++ replicate 20 x00)%list.

Lemma hex_digit_hex n : (n < 16)%N → is_hex (hex_digit n) = true.
Proof.
  intros Hn. assert (n ∈ map N.of_nat (seq 0 16)) as Hin.
  { apply list_elem_of_fmap. exists (N.to_nat n). rewrite N2Nat.id. split; [done|]. apply elem_of_seq. lia. }
  refine (proj1 (list.Forall_forall (λ m, is_hex (hex_digit m) = true) _) _ n Hin). by repeat constructor.
Qed.

Lemma toy_sha1_laws : @Sha1Laws lower_hex toy_sha1.
Proof.
  split.
  - intros x. unfold sha1_digest, toy_sha1. rewrite length_take, length_app, length_replicate. lia.
  - intros x. unfold hex_encode, lower_hex. induction x as [|b x IH]; [done|]. simpl in *. lia.
  - intros x. unfold hex_encode, lower_hex. induction x as [|b x IH]; [done|]. simpl.
    pose proof (Byte.to_N_bounded b). rewrite IH, !hex_digit_hex; [done| |].
    + by apply N.mod_lt.
    + apply N.Div0.div_lt_upper_bound. lia.
Qed.

(** ** JSON *)

#[global] Instance TokenEntry_eq_dec : EqDecision TokenEntry.
Proof. solve_decision. Defined.

Definition te_fields (e : TokenEntry) : list positive :=
  [encode (te_id e); encode (te_parent e); encode (te_policies e); encode (te_path e); encode (te_meta e);
   encode (te_display_name e); encode (te_num_uses e); encode (te_ttl e); encode (te_creation_time e);
   encode (te_period e); encode (te_explicit_max_ttl e)].

Definition te_of_fields (l : list positive) : option TokenEntry :=
  match l with
  | [p1; p2; p3; p4; p5; p6; p7; p8; p9; p10; p11] =>
      x1 ← decode p1; x2 ← decode p2; x3 ← decode p3; x4 ← decode p4; x5 ← decode p5; x6 ← decode p6;
      x7 ← decode p7; x8 ← decode p8; x9 ← decode p9; x10 ← decode p10; x11 ← decode p11;
      Some {| te_id := x1; te_parent := x2; te_policies := x3; te_path := x4; te_meta := x5;
              te_display_name := x6; te_num_uses := x7; te_ttl := x8; te_creation_time := x9;
              te_period := x10; te_explicit_max_ttl := x11 |}
  | _ => None
  end.

#[global] Program Instance TokenEntry_countable : Countable TokenEntry := inj_countable te_fields te_of_fields _.
Next Obligation. intros []. unfold te_fields, te_of_fields. cbn -[encode decode]. by rewrite !decode_encode. Qed.

Definition token_serde : Serde TokenEntry := countable_serde TokenEntry.
Definition token_serde_laws : SerdeLaws TokenEntry (H := token_serde) := countable_serde_laws TokenEntry.

(** *** Values *)

Abbreviation leaf := (bool + (Z + Z) + option string)%type.

Fixpoint value_tree (v : Value) : gen_tree leaf :=
  match v with
  | VNull => GenLeaf (inr None)
  | VBool b => GenLeaf (inl (inl b))
  | VInt z => GenLeaf (inl (inr (inl z)))
  | VFloat z => GenLeaf (inl (inr (inr z)))
  | VStr s => GenLeaf (inr (Some s))
  | VArray l => GenNode 0 (map value_tree l)
  | VObject m => GenNode 1 (map (λ kv, GenNode 2 [GenLeaf (inr (Some kv.1)); value_tree kv.2]) m)
  end.

Fixpoint tree_value (t : gen_tree leaf) : Value :=
  match t with
  | GenLeaf (inr None) => VNull
  | GenLeaf (inl (inl b)) => VBool b
  | GenLeaf (inl (inr (inl z))) => VInt z
  | GenLeaf (inl (inr (inr z))) => VFloat z
  | GenLeaf (inr (Some s)) => VStr s
  | GenNode 0 l => VArray (map tree_value l)
  | GenNode _ l =>
      VObject (map (λ t, match t with
                         | GenNode _ [GenLeaf (inr (Some k)); v] => (k, tree_value v)
                         | _ => ("", VNull)
                         end) l)
  end.

Lemma tree_value_tree v : tree_value (value_tree v) = v.
Proof.
  revert v. fix IH 1. intros [| | | | |l|m]; try reflexivity; cbn [value_tree tree_value]; f_equal; rewrite List.map_map.
  - induction l as [|x l IHl]; [done|]. cbn [map]. by rewrite IH, IHl.
  - induction m as [|[k x] m IHm]; [done|]. cbn [map fst snd]. by rewrite IH, IHm.
Qed.

#[global] Instance Value_eq_dec : EqDecision Value.
Proof.
  intros v1 v2. destruct (decide (value_tree v1 = value_tree v2)) as [E|E].
  - left. by rewrite <- (tree_value_tree v1), E, tree_value_tree.
  - right. congruence.
Defined.

#[global] Instance Value_countable : Countable Value := inj_countable' value_tree tree_value tree_value_tree.

Definition json_map : Serde (gmap string Value) := countable_serde (gmap string Value).
Definition json_map_laws : SerdeLaws (gmap string Value) (H := json_map) := countable_serde_laws _.

(** A codec for the old format, which is never written. *)
Definition no_old_lease_serde : Serde OldLeaseEntry := {| ser := fun _ => None; de := fun _ => None |}.
(** A codec that writes every lease and can read none. *)
Definition blank_lease_serde : Serde LeaseEntry := {| ser := fun _ => Some []; de := fun _ => None |}.
Definition no_durations : Humantime := fun _ => None.
Definition no_json : JsonParser := fun _ => None.

(** ** The queue of leases *)

Definition LeaseList := list (LeaseEntry * Z).

Fixpoint least (l : list (LeaseEntry * Z)) : option (LeaseEntry * Z) :=
  match l with
  | [] => None
  | x :: l => match least l with
              | Some y => if (x.2 <=? y.2)%Z then Some x else Some y
              | None => Some x
              end
  end.

Definition without (k : string * string * string) (l : list (LeaseEntry * Z)) : list (LeaseEntry * Z) :=
  filter (λ x, le_key x.1 ≠ k) l.

(** The first entry of each key counts. *)
Fixpoint distinct (l : list (LeaseEntry * Z)) : list (LeaseEntry * Z) :=
  match l with [] => [] | x :: l => x :: without (le_key x.1) (distinct l) end.

Definition lease_list : LeaseQueue LeaseList := {|
  q_new := [];
  q_push e p q := (e, p) :: q;
  q_peek q := least (distinct q);
  q_pop q := match least (distinct q) with Some x => without (le_key x.1) q | None => q end;
  q_len q := length (distinct q)
|}.

Definition keyed (l : list (LeaseEntry * Z)) : list (string * string * string * Z) := (λ x, (le_key x.1, x.2)) <$> l.
Definition lease_items (l : list (LeaseEntry * Z)) : gmap (string * string * string) Z := list_to_map (keyed (distinct l)).

Lemma least_spec l x : least l = Some x → x ∈ l ∧ ∀ y, y ∈ l → (x.2 <= y.2)%Z.
Proof.
  revert x. induction l as [|z l IH]; intros x; simpl; [done|].
  destruct (least l) as [m|] eqn:E.
  - destruct (IH m eq_refl) as [Hm Hle].
    destruct (Z.leb_spec z.2 m.2) as [Hz|Hz]; intros [= <-].
    + split; [apply list_elem_of_here|]. intros y [->|Hy]%elem_of_cons; [lia|]. specialize (Hle y Hy). lia.
    + split; [by apply list_elem_of_further|]. intros y [->|Hy]%elem_of_cons; [lia|]. by apply Hle.
  - destruct l as [|y l]; [|simpl in E; by repeat case_match]. intros [= <-].
    split; [apply list_elem_of_here|]. intros y [->|?%not_elem_of_nil]%elem_of_cons; [lia|done].
Qed.

Lemma least_None l : least l = None → l = [].
Proof. destruct l as [|x l]; [done|]. simpl. by repeat case_match. Qed.

Lemma without_keys k l y : y ∈ (keyed (without k l)).*1 ↔ y ∈ (keyed l).*1 ∧ y ≠ k.
Proof.
  unfold keyed, without. rewrite <- !list_fmap_compose, !list_elem_of_fmap. split.
  - intros (x & -> & [? ?]%list_elem_of_filter). simpl in *. eauto.
  - intros [(x & -> & ?) ?]. exists x. split; [done|]. by apply list_elem_of_filter.
Qed.

Lemma without_nodup k l : NoDup (keyed l).*1 → NoDup (keyed (without k l)).*1.
Proof.
  unfold keyed, without. rewrite <- !list_fmap_compose. intros Hn. induction l as [|x l IH]; [done|].
  apply list.NoDup_cons in Hn as [Hx Hn]. rewrite list.filter_cons. case_decide; [|by apply IH].
  cbn. apply list.NoDup_cons. split; [|by apply IH]. intros (y & He & [_ Hy]%list_elem_of_filter)%list_elem_of_fmap.
  apply Hx, list_elem_of_fmap. eauto.
Qed.

Lemma distinct_nodup l : NoDup (keyed (distinct l)).*1.
Proof.
  induction l as [|x l IH]; [constructor|]. cbn. apply list.NoDup_cons. split; [|by apply without_nodup].
  intros [_ H]%without_keys. by apply H.
Qed.

Lemma without_items k l : (list_to_map (keyed (without k l)) : gmap _ Z) = base.delete k (list_to_map (keyed l)).
Proof.
  induction l as [|[e p] l IH]; [cbn; by rewrite delete_empty|]. unfold without in *. rewrite list.filter_cons.
  case_decide as Hk; cbn; fold (keyed l) in *; fold keyed in *.
  - unfold keyed in *. cbn in *. rewrite IH. by rewrite delete_insert_ne.
  - cbn in Hk. rewrite <- Hk, delete_insert_eq. by rewrite <- Hk in IH.
Qed.

Lemma without_without k k' l : without k (without k' l) = without k' (without k l).
Proof. unfold without. rewrite !list_filter_filter. apply list_filter_iff. tauto. Qed.

Lemma without_twice k l : without k (without k l) = without k l.
Proof. unfold without. rewrite list_filter_filter. apply list_filter_iff. tauto. Qed.

Lemma without_cons k x l : without k (x :: l) = if decide (le_key x.1 = k) then without k l else x :: without k l.
Proof.
  unfold without. rewrite list.filter_cons. destruct (decide (le_key x.1 = k)); by repeat case_decide.
Qed.

Lemma without_distinct k l : distinct (without k l) = without k (distinct l).
Proof.
  induction l as [|x l IH]; [done|]. cbn [distinct]. rewrite !without_cons. destruct (decide _) as [<-|Hk].
  - by rewrite IH, without_twice.
  - cbn [distinct]. by rewrite IH, without_without.
Qed.

(** The list keeps what the queue promises. *)
Definition lease_list_laws : @LeaseQueueLaws LeaseList lease_list.
Proof.
  refine {| q_items := lease_items : LeaseList → _ |}.
  - done.
  - intros e p q. unfold lease_items. cbn. fold (keyed (without (le_key e) (distinct q))).
    rewrite without_items. by rewrite insert_delete_eq.
  - intros q H%least_None. unfold lease_items. by rewrite H.
  - intros q e p [Hin Hmin]%least_spec. unfold lease_items. split.
    + apply elem_of_list_to_map_1; [apply distinct_nodup|]. apply list_elem_of_fmap. by exists (e, p).
    + intros k p' (x & [= -> ->] & Hx)%elem_of_list_to_map_2%list_elem_of_fmap. by apply (Hmin x).
  - intros q e p H. unfold lease_items, q_pop, lease_list. cbn in H. rewrite H, without_distinct. apply without_items.
  - intros q. unfold lease_items, q_len, lease_list.
    rewrite <- size_dom, dom_list_to_map_L, size_list_to_set by apply distinct_nodup.
    unfold keyed. by rewrite !length_fmap.
Defined.

(** ** The cache of policies *)

Definition policy_map : PolicyCache (gmap string Policy) := {|
  cache_new := ∅;
  cache_get c k := c !! k;
  cache_insert c k p := (<[k := p]> c, true);
  cache_remove c k := base.delete k c
|}.

Definition policy_map_laws : @PolicyCacheLaws (gmap string Policy) policy_map.
Proof.
  refine {| cache_map := λ c, c : gmap string Policy |}; simpl; auto.
Defined.

(** ** An unsealed store *)

Definition DemoStore := AESGCMBarrier.t MemBackend.t.
Definition DemoWorld := World DemoStore LeaseList (gmap string Policy).

Definition demo_storage : Storage DemoStore := AESGCMBarrier.storage (HG := toy_gcm) (HR := demo_rng).
Definition demo_storage_spec : StorageSpec DemoStore (H := demo_storage) :=
  barrier_storage_spec (HG := toy_gcm) (HGL := toy_gcm_laws) (HR := demo_rng) (HBS := MemBackend.backend_spec).

Definition demo_clock : Clock := fun i => Z.of_nat i.
Definition demo_sys : BarrierView.t := BarrierView.new "sys/".

Definition demo_world : DemoWorld :=
  {| w_store := demo_barrier; w_ticks := 0; w_uuids := 0; w_queue := []; w_queue_held := false; w_deadlock := false;
     w_policy_types := ∅; w_token_policies_lru := ∅; w_egp_lru := ∅ |}.

Definition demo_ts : TokenStore :=
  {| ts_view := Some (BarrierView.new_sub_view demo_sys "token/"); salt := "s";
     expiration := {| id_view := BarrierView.new_sub_view demo_sys "id/";
                      token_view := BarrierView.new_sub_view demo_sys "token/"; em_token_store := true |} |}.

(** A router that serves nothing. *)
Definition no_route : handler_fn DemoWorld := fun '(w, req) => ((w, req), Err ErrRouterMountNotFound).

Section demo_facts.
#[local] Existing Instance demo_storage.
#[local] Existing Instance demo_storage_spec.

Lemma demo_keys_ok v : keys_ok (S := DemoStore) v.
Proof. intros k _. exact I. Qed.

Lemma demo_clean : clean (w_store demo_world).
Proof. split; [exact demo_operational|]. by vm_compute. Qed.
End demo_facts.

(** The response of an outcome that has one. *)
Definition answered (o : result (option Response)) : bool := match o with Ok (Some _) => true | _ => false end.
Definition answer_of (o : result (option Response)) : Response :=
  match o with Ok (Some r) => r | _ => ResponseOps.new end.
Lemma answered_of o : answered o = true → o = Ok (Some (answer_of o)).
Proof. by destruct o as [[r|]| |]. Defined.
