(* ===== verification/TokenCorrect.v ===== *)
(** * Correctness of the token store (theorems about
    src/src/modules/auth/token_store.rs and expiration.rs)

    The invariant [store_wf] relates the token entries, the parent index and
    the leases indexed by token.  Creating, using and revoking tokens preserve
    it; under it, revoking a token tree terminates and removes exactly the
    token and its descendants. *)

From stdpp Require Import base tactics list gmap strings.
From Stdlib Require Import ZArith Lia Ascii.
From S2P Require Import Prelude Errors RustStr Utils Lease Storage BarrierView Logical LogicalBackend Policy Mount World WorldLaws TokenStore.
Import BarrierView.

Local Open Scope string_scope.

Section tokens.
Context {S Q C : Type} `{HSt : Storage S} `{HSS : !StorageSpec S} `{HQ : LeaseQueue Q} `{HCl : Clock}
        `{HU : UuidGen} `{HX : HexCodec} `{H1 : Sha1Digest} `{HL1 : !Sha1Laws}
        `{HST : Serde TokenEntry} `{HSTL : !SerdeLaws TokenEntry}
        `{HSL : Serde LeaseEntry} `{HSO : Serde OldLeaseEntry} `{HH : Humantime} `{HJ : JsonParser}.
Abbreviation W := (World S Q C).
Context (route : handler_fn W) (stack : nat) (ts : TokenStore) (sv : t).
Implicit Types w : W.

Abbreviation sm w := (storage_map (w_store w)).
Abbreviation TV := (new_sub_view sv "token/").
Abbreviation IV := (new_sub_view sv "id/").

(** The token store of an unsealed vault, linked with its expiration manager. *)
Definition configured : Prop :=
  ts_view ts = Some TV ∧ id_view (expiration ts) = IV ∧ token_view (expiration ts) = TV ∧
  em_token_store (expiration ts) = true ∧ dir_path (prefix sv) ∧
  starts_with_char slash (prefix sv) = false ∧ keys_ok TV ∧ keys_ok IV.
Context (Hcfg : configured).

(** ** Keys of the store *)

Definition idk (x : string) : string := expand_key TV (TokenStore.id_key x).
Definition pk (p x : string) : string := expand_key TV ("parent/" ++ p ++ "/" ++ x).
Definition ik (t l : string) : string := expand_key TV (t ++ "/" ++ l).
Definition lk (l : string) : string := expand_key IV l.
Definition hex (x : string) : Prop := str_forall is_hex x = true.
Definition digest (x : string) : Prop := hex x ∧ String.length x = 40.

Lemma salt_digest id : digest (salt_id ts id).
Proof. split; [apply sha1_hex|apply sha1_length]. Qed.

Lemma digest_no_slash x : digest x → no_slash x.
Proof. intros [? _]. auto with rust. Qed.

Lemma idk_inj x y : idk x = idk y → x = y.
Proof. unfold idk, expand_key, TokenStore.id_key. intros H. by do 2 apply app_inj_l in H. Qed.

Lemma pk_inj p x p' x' : no_slash p → no_slash p' → pk p x = pk p' x' → p = p' ∧ x = x'.
Proof.
  unfold pk, expand_key. intros Hp Hp' H. do 2 apply app_inj_l in H.
  assert (p = p') as -> by (by eapply no_slash_app_inj). split; [done|].
  by do 2 apply app_inj_l in H.
Qed.

Lemma idk_pk x p y : idk x ≠ pk p y.
Proof. unfold idk, pk, expand_key. intros H. by apply app_inj_l in H. Qed.

Lemma digest_head t l d r : digest t → no_slash d → String.length d ≠ 40 → t ++ "/" ++ l ≠ d ++ "/" ++ r.
Proof.
  intros Ht Hd Hl He. assert (t = d) as <-; [|by destruct Ht].
  eapply no_slash_app_inj; [by apply digest_no_slash|done|exact He].
Qed.

Lemma ik_idk t l x : digest t → ik t l ≠ idk x.
Proof.
  unfold ik, idk, expand_key. intros Ht H. apply app_inj_l in H.
  by apply (digest_head t l "id" x) in Ht.
Qed.

Lemma ik_pk t l p x : digest t → ik t l ≠ pk p x.
Proof.
  unfold ik, pk, expand_key. intros Ht H. apply app_inj_l in H.
  by apply (digest_head t l "parent" (p ++ "/" ++ x)) in Ht.
Qed.

Lemma lk_TV l k : lk l ≠ expand_key TV k.
Proof.
  unfold lk, expand_key, new_sub_view. cbn [prefix]. unfold expand_key. intros H.
  rewrite <- !app_assoc_str in H. by apply app_inj_l in H.
Qed.

Lemma sane_id_key x : hex x → sane (TokenStore.id_key x).
Proof.
  intros Hx. apply sane_intro; [|done]. unfold TokenStore.id_key, TOKEN_LOOKUP_PREFIX.
  rewrite str_forall_app. apply andb_true_iff. split; [done|]. by apply hex_no_dot.
Qed.

Lemma sane_parent p x : hex p → hex x → sane ("parent/" ++ p ++ "/" ++ x).
Proof.
  intros Hp Hx. apply sane_intro; [|done]. rewrite !str_forall_app.
  by rewrite (hex_no_dot _ Hp), (hex_no_dot _ Hx).
Qed.

Lemma sane_index t l : digest t → hex l → sane (t ++ "/" ++ l).
Proof.
  intros [Ht Hlen] Hl. apply sane_intro.
  - rewrite !str_forall_app. by rewrite (hex_no_dot _ Ht), (hex_no_dot _ Hl).
  - destruct t as [|c t]; [done|]. simpl in *. apply andb_true_iff in Ht as [Hc _].
    by destruct (Ascii.eqb_spec c slash) as [->|].
Qed.

(** ** The abstract store *)

Definition token_at (m : gmap string bytes) (x : string) : option TokenEntry := m !! idk x ≫= te_decode.

Definition child_of (m : gmap string bytes) (p x : string) : Prop :=
  ∃ te, token_at m x = Some te ∧ te_parent te ≠ "" ∧ salt_id ts (te_parent te) = p.

(** A lease indexed by a token: a secret's, in the current format. *)
Definition lease_ok (m : gmap string bytes) (l : string) : Prop :=
  sane l ∧ ∀ b, m !! lk l = Some b → ∃ le, de b = Some le ∧ le_auth le = None.

(** What the JSON of an entry keeps. *)
Definition normal (te : TokenEntry) : TokenEntry :=
  te_set_durations (from_secs (as_secs (te_period te))) (from_secs (as_secs (te_explicit_max_ttl te))) te.

(** Durations that the JSON keeps, and a count of uses that is a [u32]. *)
Definition representable (te : TokenEntry) : Prop :=
  (0 <= te_num_uses te < 2 ^ 32)%Z ∧
  (0 <= as_secs (te_period te) <= I64_MAX)%Z ∧ (0 <= as_secs (te_explicit_max_ttl te) <= I64_MAX)%Z.

Record map_wf (m : gmap string bytes) : Prop := {
  wf_tokens x b : m !! idk x = Some b → ∃ te, te_decode b = Some te ∧ te_id te ≠ "" ∧ salt_id ts (te_id te) = x ∧
    representable te;
  wf_parent_sound p x : no_slash p → no_slash x → is_Some (m !! pk p x) → child_of m p x;
  wf_parent_complete p x : child_of m p x → is_Some (m !! pk p x);
  wf_rank : ∃ rank : string → nat, ∀ p x, child_of m p x → (rank p < rank x)%nat;
  wf_index t l b : digest t → no_slash l → m !! ik t l = Some b →
    digest l ∧ ∃ lid, b = str_bytes lid ∧ lease_ok m lid
}.

(** No directory below a token in either index. *)
Definition dirs_wf (dirs : list string) : Prop :=
  ∀ a d, no_slash d → (digest a → ik a (d ++ "/") ∉ dirs) ∧ (no_slash a → pk a (d ++ "/") ∉ dirs).

Record store_wf w : Prop := {
  wf_clean : clean (w_store w);
  wf_map : map_wf (sm w);
  wf_dirs : dirs_wf (storage_dirs (w_store w));
  (** while the queue is locked no token has leases *)
  wf_lock : w_queue_held w = true → ∀ t l, digest t → no_slash l → sm w !! ik t l = None
}.

Lemma token_hex m x te : map_wf m → token_at m x = Some te → digest x.
Proof.
  intros Hm. unfold token_at. destruct (m !! idk x) as [b|] eqn:E; simpl; [|done].
  destruct (wf_tokens _ Hm x b E) as (te' & _ & _ & <- & _). intros _. apply salt_digest.
Qed.

Lemma child_hex m p x : map_wf m → child_of m p x → digest p ∧ digest x.
Proof. intros Hm (te & Ht & _ & <-). split; [apply salt_digest|by eapply token_hex]. Qed.

(** ** Evolution: system keys are only deleted, and only those in [D] *)

Record evolves (D : string → Prop) w w' : Prop := {
  ev_clean : clean (w_store w');
  ev_held : w_queue_held w' = w_queue_held w;
  ev_ticks : (w_ticks w <= w_ticks w')%nat;
  ev_queue : w_queue_held w = true → w_queue w' = w_queue w;
  ev_types : w_policy_types w' = w_policy_types w;
  ev_lru : w_token_policies_lru w' = w_token_policies_lru w;
  ev_keys k : starts_with (prefix sv) k = true → sm w' !! k = sm w !! k ∨ D k ∧ sm w' !! k = None;
  ev_dirs d : starts_with (prefix sv) d = true → d ∈ storage_dirs (w_store w') → d ∈ storage_dirs (w_store w)
}.

Lemma evolves_refl D w : clean (w_store w) → evolves D w w.
Proof. intros. split; auto. Qed.

Lemma evolves_trans D D' w1 w2 w3 : evolves D w1 w2 → evolves D' w2 w3 → evolves (λ k, D k ∨ D' k) w1 w3.
Proof.
  intros [C1 H1' I1 Q1 T1 L1 K1 D1] [C2 H2' I2 Q2 T2 L2 K2 D2].
  split; [done|congruence|lia| |congruence|congruence|..].
  - intros Hh. rewrite Q2 by congruence. auto.
  - intros k Hk. destruct (K2 k Hk) as [E2|[? E2]], (K1 k Hk) as [E1|[? E1]]; rewrite E2; auto.
  - auto.
Qed.

Lemma evolves_weaken (D D' : string → Prop) w w' :
  (∀ k, D k → D' k) → evolves D w w' → evolves D' w w'.
Proof.
  intros Hd [C1 H1' I1 Q1 T1 L1 K1 D1]. split; [done..| |done].
  intros k Hk. destruct (K1 k Hk) as [|[? ?]]; auto.
Qed.

Lemma evolves_sub D w w' k b :
  evolves D w w' → starts_with (prefix sv) k = true → sm w' !! k = Some b → sm w !! k = Some b.
Proof. intros He Hk. destruct (ev_keys _ _ _ He k Hk) as [->|[_ ->]]; [done|done]. Qed.

Lemma sys_TV k : starts_with (prefix sv) (expand_key TV k) = true.
Proof. unfold expand_key, new_sub_view. cbn [prefix]. unfold expand_key. rewrite <- app_assoc_str. auto with rust. Qed.

Lemma sys_IV k : starts_with (prefix sv) (lk k) = true.
Proof. unfold lk, expand_key, new_sub_view. cbn [prefix]. unfold expand_key. rewrite <- app_assoc_str. auto with rust. Qed.

Lemma evolves_token D w w' x :
  evolves D w w' → token_at (sm w') x = token_at (sm w) x ∨ D (idk x) ∧ token_at (sm w') x = None.
Proof.
  intros He. unfold token_at. destruct (ev_keys _ _ _ He (idk x) (sys_TV _)) as [->|[? ->]]; auto.
Qed.

Lemma evolves_token_sub D w w' x te :
  evolves D w w' → token_at (sm w') x = Some te → token_at (sm w) x = Some te.
Proof. intros He. destruct (evolves_token _ _ _ x He) as [->|[_ ->]]; [done|done]. Qed.

Lemma evolves_child D w w' p x : evolves D w w' → child_of (sm w') p x → child_of (sm w) p x.
Proof. intros He (te & Ht & ?). exists te. split; [by eapply evolves_token_sub|done]. Qed.

(** Keys of leases and of the index of leases. *)
Definition index_keys (k : string) : Prop := ∃ t l, digest t ∧ k = ik t l.
Definition lease_keys (k : string) : Prop := (∃ l, k = lk l) ∨ index_keys k.

Lemma lease_keys_token k x : lease_keys k → k ≠ idk x.
Proof. intros [[l ->]|(t & l & Ht & ->)]; [apply lk_TV|by apply ik_idk]. Qed.

Lemma lease_keys_parent k p x : lease_keys k → k ≠ pk p x.
Proof. intros [[l ->]|(t & l & Ht & ->)]; [apply lk_TV|by apply ik_pk]. Qed.

(** The invariant survives deletions that keep index and tokens in step. *)
Lemma evolves_wf D w w' :
  store_wf w → evolves D w w' →
  (∀ p x, child_of (sm w) p x → sm w' !! idk x = None ↔ sm w' !! pk p x = None) →
  store_wf w'.
Proof.
  intros [Hc Hm Hd Hl] He Hstep. split; [by apply He| | |].
  - split.
    + intros x b Hb. eapply (wf_tokens _ Hm), evolves_sub; [done|apply sys_TV|done].
    + intros p x Hp Hx [b Hb].
      assert (child_of (sm w) p x) as Hch.
      { eapply (wf_parent_sound _ Hm); [done..|]. exists b. by eapply evolves_sub; [|apply sys_TV|]. }
      destruct Hch as (te & Ht & Hne & Hs). exists te. split; [|done].
      destruct (ev_keys _ _ _ He (idk x) (sys_TV _)) as [E|[_ Hnone]]; [unfold token_at; by rewrite E|].
      rewrite (proj1 (Hstep p x (ex_intro _ te (conj Ht (conj Hne Hs)))) Hnone) in Hb. done.
    + intros p x Hch. pose proof (evolves_child _ _ _ _ _ He Hch) as Hch0.
      destruct (wf_parent_complete _ Hm p x Hch0) as [b Hb].
      destruct (ev_keys _ _ _ He (pk p x) (sys_TV _)) as [->|[HD Hnone]]; [eauto|].
      destruct Hch as (te & Ht & _). unfold token_at in Ht.
      by rewrite (proj2 (Hstep p x Hch0) Hnone) in Ht.
    + destruct (wf_rank _ Hm) as [rank Hr]. exists rank. intros p x Hch. by eapply Hr, evolves_child.
    + intros t l b Ht Hl' Hb.
      destruct (wf_index _ Hm t l b Ht Hl') as (Hdl & lid & -> & Hs & Hle);
        [by eapply evolves_sub; [|apply sys_TV|]|].
      split; [done|]. exists lid. split; [done|]. split; [done|]. intros b' Hb'. apply Hle.
      eapply evolves_sub; [done|apply sys_IV|done].
  - intros a d Hn. split.
    + intros Ha Hin. apply (proj1 (Hd a d Hn) Ha). eapply (ev_dirs _ _ _ He); [apply sys_TV|done].
    + intros Ha Hin. apply (proj2 (Hd a d Hn) Ha). eapply (ev_dirs _ _ _ He); [apply sys_TV|done].
  - intros Hh t l Ht Hl'. destruct (sm w' !! ik t l) as [b|] eqn:E; [|done].
    rewrite <- (Hl (eq_trans (eq_sym (ev_held _ _ _ He)) Hh) t l Ht Hl'). symmetry.
    eapply evolves_sub; [done|apply sys_TV|done].
Qed.

(** Backends that revoke a secret stay away from the system keys. *)
Definition revokes_apart : Prop := ∀ w req w' req' r,
  operation req = Revoke → clean (w_store w) → route (w, req) = ((w', req'), r) →
  r ≠ Panic ∧ evolves (λ _, False) w w'.
Context (Hroute : revokes_apart).

(** ** Single operations *)

Lemma get_view_run w : TokenStore.get_view ts w = (w, Ok TV).
Proof. destruct Hcfg as (Hv & _). unfold TokenStore.get_view. by rewrite Hv. Qed.

Lemma upgrade_run w : ExpirationManager.upgrade ts w = (w, Ok tt).
Proof. destruct Hcfg as (_ & _ & _ & Hu & _). unfold ExpirationManager.upgrade. by rewrite Hu. Qed.

Lemma tv_keys_ok : keys_ok TV.
Proof. apply Hcfg. Qed.

Lemma iv_keys_ok : keys_ok IV.
Proof. apply Hcfg. Qed.

Lemma lookup_salted_run w x :
  store_wf w → hex x → TokenStore.lookup_salted ts x w = (w, Ok (token_at (sm w) x)).
Proof.
  intros Hw Hx. unfold TokenStore.lookup_salted. rewrite (st_bind_run _ _ _ _ _ (get_view_run w)).
  rewrite (st_bind_run _ _ _ _ _ (view_get_run TV _ w (wf_clean _ Hw) (sane_id_key x Hx) tv_keys_ok)).
  unfold token_at. fold (idk x). destruct (sm w !! idk x) as [b|] eqn:E; simpl; [|done].
  destruct (wf_tokens _ (wf_map _ Hw) x b E) as (te & -> & _). done.
Qed.

Lemma lookup_run w id :
  store_wf w → id ≠ "" → TokenStore.lookup ts id w = (w, Ok (token_at (sm w) (salt_id ts id))).
Proof.
  intros Hw Hid. unfold TokenStore.lookup. destruct (is_empty id) eqn:E; [by apply is_empty_spec in E|].
  apply lookup_salted_run; [done|apply salt_digest].
Qed.

(** A deletion through a view, as evolution. *)
Lemma delete_evolves v k w :
  clean (w_store w) → sane k → keys_ok v → starts_with (prefix sv) (expand_key v k) = true →
  ∃ w', view_delete v k w = (w', Ok tt) ∧ evolves (eq (expand_key v k)) w w' ∧
        sm w' = base.delete (expand_key v k) (sm w).
Proof.
  intros Hc Hk Hv Hp. destruct (view_delete_run v k w Hc Hk Hv) as (s' & Hrun & Hc' & Hm & Hd).
  exists (set_store s' w). split_and!; [done| |done]. split; simpl; [done..| |auto].
  intros k' _. rewrite Hm. destruct (decide (expand_key v k = k')) as [<-|Hne].
  - right. by rewrite lookup_delete_eq.
  - left. by rewrite lookup_delete_ne.
Qed.

(** ** Leases of a token *)

Abbreviation EM_revoke_lease_id rt := (ExpirationManager.revoke_lease_id route ts rt).

(** The stored lease, in the current format. *)
Definition lease_at (m : gmap string bytes) (l : string) : option LeaseEntry := m !! lk l ≫= de.

(** A lease id whose record, if there is one, is readable. *)
Definition readable (m : gmap string bytes) (l : string) : Prop :=
  sane l ∧ ∀ b, m !! lk l = Some b → is_Some (de (A := LeaseEntry) b).

Lemma lease_ok_readable m l : lease_ok m l → readable m l ∧ ∀ le, lease_at m l = Some le → le_auth le = None.
Proof.
  intros [Hs Hl]. split; [split; [done|]|].
  - intros b Hb. destruct (Hl b Hb) as (le & ? & _). by exists le.
  - intros le. unfold lease_at. destruct (m !! lk l) as [b|]; [|done]. simpl.
    destruct (Hl b eq_refl) as (le' & -> & Ha). by intros [= <-].
Qed.

Lemma readable_none m l : readable m l → lease_at m l = None → m !! lk l = None.
Proof.
  intros [_ Hl]. unfold lease_at. destruct (m !! lk l) as [b|]; [|done]. simpl.
  destruct (Hl b eq_refl) as [le ->]. done.
Qed.

Lemma load_lease_run w l :
  clean (w_store w) → readable (sm w) l →
  ExpirationManager.load_lease_entry ts l w = (w, Ok (lease_at (sm w) l)).
Proof.
  intros Hc [Hs Hle]. unfold ExpirationManager.load_lease_entry, lease_at.
  replace (id_view (expiration ts)) with IV by (symmetry; apply Hcfg).
  rewrite (st_bind_run _ _ _ _ _ (view_get_run IV l w Hc Hs iv_keys_ok)). fold (lk l).
  destruct (sm w !! lk l) as [b|] eqn:E; simpl; [|done].
  by destruct (Hle b eq_refl) as [le ->].
Qed.

Lemma revoke_lease_entry_run rt le w :
  clean (w_store w) → le_auth le = None →
  ∃ w', ExpirationManager.revoke_lease_entry route ts rt le w = (w', Ok tt) ∧ evolves (λ _, False) w w'.
Proof.
  intros Hc Ha. unfold ExpirationManager.revoke_lease_entry.
  rewrite (st_bind_run _ _ _ _ _ (upgrade_run w)), Ha. unfold ExpirationManager.send.
  set (req := RequestOps.new_revoke_request _ _ _).
  destruct (route (w, req)) as [[w' req'] r] eqn:E.
  destruct (Hroute w req w' req' r eq_refl Hc E) as [Hr He]. exists w'. split; [|done]. by destruct r.
Qed.

Lemma remove_index_run t l w :
  clean (w_store w) →
  ∃ w', ExpirationManager.remove_index_by_token ts t l w = (w', Ok tt) ∧ evolves index_keys w w'.
Proof.
  intros Hc. unfold ExpirationManager.remove_index_by_token.
  rewrite (st_bind_run _ _ _ _ _ (upgrade_run w)).
  replace (token_view (expiration ts)) with TV by (symmetry; apply Hcfg).
  destruct (delete_evolves TV (ExpirationManager.index_key ts t l) w Hc) as (w' & Hrun & He & _).
  - apply sane_index; apply salt_digest.
  - apply tv_keys_ok.
  - apply sys_TV.
  - exists w'. split; [done|]. eapply evolves_weaken; [|exact He]. intros k <-.
    exists (salt_id ts t), (salt_id ts l). split; [apply salt_digest|done].
Qed.

Lemma register_epoch_run le w :
  w_queue_held w = false → clean (w_store w) →
  ∃ w', ExpirationManager.register_lease_entry (le_set_expire_time UNIX_EPOCH le) w = (w', Ok tt) ∧
        evolves (λ _, False) w w'.
Proof.
  intros Hh Hc. unfold ExpirationManager.register_lease_entry. simpl. rewrite Hh. eexists. split; [done|].
  split; simpl; auto. by rewrite Hh.
Qed.

(** The record of a lease and its index entry. *)
Definition own_keys (l k : string) : Prop := k = lk l ∨ index_keys k.

Lemma forget_lease_run le l w :
  clean (w_store w) → sane l →
  ∃ w', (let! _ := ExpirationManager.delete_lease_entry ts l in
         match le_secret le with
         | Some _ => ExpirationManager.remove_index_by_token ts (le_client_token le) (le_lease_id le)
         | None => st_ret tt
         end) w = (w', Ok tt) ∧ evolves (own_keys l) w w' ∧ sm w' !! lk l = None.
Proof.
  intros Hc Hs. unfold ExpirationManager.delete_lease_entry.
  replace (id_view (expiration ts)) with IV by (symmetry; apply Hcfg).
  destruct (delete_evolves IV l w Hc Hs iv_keys_ok (sys_IV l)) as (w1 & Hr1 & E1 & Hm1).
  rewrite (st_bind_run _ _ _ _ _ Hr1). fold (lk l) in E1, Hm1.
  assert (∃ w2, match le_secret le with
                | Some _ => ExpirationManager.remove_index_by_token ts (le_client_token le) (le_lease_id le)
                | None => st_ret tt end w1 = (w2, Ok tt) ∧ evolves index_keys w1 w2) as (w2 & Hr2 & E2).
  { destruct (le_secret le); [apply remove_index_run, (ev_clean _ _ _ E1)|].
    exists w1. split; [done|apply evolves_refl, (ev_clean _ _ _ E1)]. }
  exists w2. split_and!; [done| |].
  - eapply evolves_weaken; [|exact (evolves_trans _ _ _ _ _ E1 E2)]. intros k [<-|?]; [by left|by right].
  - destruct (ev_keys _ _ _ E2 (lk l) (sys_IV l)) as [->|[_ ->]]; [|done]. by rewrite Hm1, lookup_delete_eq.
Qed.

(** Revoking a lease whose holder [revoke_lease_entry] handles. *)
Lemma revoke_lease_id_step rt l le reg D w w1 :
  clean (w_store w) → readable (sm w) l → lease_at (sm w) l = Some le →
  ExpirationManager.revoke_lease_entry route ts rt le w = (w1, Ok tt) → evolves D w w1 →
  ∃ w2, EM_revoke_lease_id rt l reg w
        = (if reg then ExpirationManager.register_lease_entry (le_set_expire_time UNIX_EPOCH le) else st_ret tt) w2 ∧
        evolves (own_keys l) w1 w2 ∧ sm w2 !! lk l = None.
Proof.
  intros Hc Hl Hle Hr1 E1. unfold ExpirationManager.revoke_lease_id.
  rewrite (st_bind_run _ _ _ _ _ (load_lease_run w l Hc Hl)), Hle, (st_bind_run _ _ _ _ _ Hr1).
  destruct (forget_lease_run le l w1 (ev_clean _ _ _ E1) (proj1 Hl)) as (w2 & Hr2 & E2 & Hn).
  exists w2. split; [|done]. apply st_bind_ok in Hr2 as (w' & u & Ha & Hb).
  rewrite (st_bind_run _ _ _ _ _ Ha). by rewrite (st_bind_run _ _ _ _ _ Hb).
Qed.

Lemma revoke_lease_id_gone rt l reg w :
  clean (w_store w) → readable (sm w) l → lease_at (sm w) l = None →
  EM_revoke_lease_id rt l reg w = (w, Ok tt).
Proof.
  intros Hc Hl Hle. unfold ExpirationManager.revoke_lease_id.
  by rewrite (st_bind_run _ _ _ _ _ (load_lease_run w l Hc Hl)), Hle.
Qed.

Lemma revoke_lease_id_run rt l w :
  clean (w_store w) → w_queue_held w = false → lease_ok (sm w) l →
  ∃ w', EM_revoke_lease_id rt l true w = (w', Ok tt) ∧ evolves lease_keys w w'.
Proof.
  intros Hc Hh [Hl Ha]%lease_ok_readable. destruct (lease_at (sm w) l) as [le|] eqn:Hle.
  2: { exists w. split; [by apply revoke_lease_id_gone|by apply evolves_refl]. }
  destruct (revoke_lease_entry_run rt le w Hc (Ha le eq_refl)) as (w1 & Hr1 & E1).
  destruct (revoke_lease_id_step rt l le true _ w w1 Hc Hl Hle Hr1 E1) as (w2 & -> & E2 & _).
  destruct (register_epoch_run le w2) as (w3 & Hr3 & E3).
  { by rewrite (ev_held _ _ _ E2), (ev_held _ _ _ E1). }
  { apply (ev_clean _ _ _ E2). }
  exists w3. split; [done|].
  eapply evolves_weaken; [|exact (evolves_trans _ _ _ _ _ (evolves_trans _ _ _ _ _ E1 E2) E3)].
  intros k. simpl. intros [[[]|[->|?]]|[]]; [left; by exists l|by right].
Qed.

Lemma lease_ok_evolves D w w' l : evolves D w w' → lease_ok (sm w) l → lease_ok (sm w') l.
Proof.
  intros He [Hs Hl]. split; [done|]. intros b Hb. apply Hl. eapply evolves_sub; [done|apply sys_IV|done].
Qed.

Lemma revoke_leases_run rt ls w :
  clean (w_store w) → w_queue_held w = false → Forall (lease_ok (sm w)) ls →
  ∃ w', st_iter (λ l, EM_revoke_lease_id rt l true) ls w = (w', Ok tt) ∧ evolves lease_keys w w'.
Proof.
  revert w. induction ls as [|l ls IH]; intros w Hc Hh Hls; simpl.
  - exists w. split; [done|by apply evolves_refl].
  - apply Forall_cons in Hls as [Hl Hls].
    destruct (revoke_lease_id_run rt l w Hc Hh Hl) as (w1 & Hr1 & E1).
    rewrite (st_bind_run _ _ _ _ _ Hr1).
    destruct (IH w1) as (w2 & Hr2 & E2); [apply (ev_clean _ _ _ E1)|by rewrite (ev_held _ _ _ E1)| |].
    { eapply Forall_impl; [exact Hls|]. intros x. by apply (lease_ok_evolves lease_keys w). }
    exists w2. split; [done|]. eapply evolves_weaken; [|exact (evolves_trans _ _ _ _ _ E1 E2)].
    simpl. tauto.
Qed.

(** Reading the index entries of a token. *)
Lemma lookup_loop_run t subs ret w :
  store_wf w → digest t → (∀ x, x ∈ subs → digest x ∧ is_Some (sm w !! ik t x)) → Forall (lease_ok (sm w)) ret →
  ∃ ls, ExpirationManager.lookup_by_token_loop ts (t ++ "/") subs ret w = (w, Ok ls) ∧
        Forall (lease_ok (sm w)) ls ∧ (subs = [] → ls = ret) ∧
        (∀ lid, lid ∈ ls ↔ lid ∈ ret ∨ ∃ x, x ∈ subs ∧ sm w !! ik t x = Some (str_bytes lid)).
Proof.
  intros Hw Ht. revert ret. induction subs as [|x subs IH]; intros ret Hsub Hret; simpl.
  - exists ret. split_and!; [done..|]. intros lid. split; [by left|]. by intros [|(x & ?%not_elem_of_nil & _)].
  - destruct (Hsub x) as [Hx [b Hb]]; [by apply list_elem_of_here|].
    replace (token_view (expiration ts)) with TV by (symmetry; apply Hcfg).
    assert (sane ((t ++ "/") ++ x)) as Hs.
    { rewrite <- app_assoc_str. apply sane_index; [done|apply Hx]. }
    rewrite (st_bind_run _ _ _ _ _ (view_get_run TV _ w (wf_clean _ Hw) Hs tv_keys_ok)).
    rewrite <- app_assoc_str. fold (ik t x). rewrite Hb. simpl.
    destruct (wf_index _ (wf_map _ Hw) t x b Ht) as (_ & lid & -> & Hok); [by apply digest_no_slash|done|].
    unfold utf8_lossy. rewrite string_of_str_bytes.
    destruct (IH (ret ++ [lid])%list) as (ls & Hrun & Hls & _ & Hin).
    { intros y Hy. apply Hsub. by apply list_elem_of_further. }
    { apply Forall_app. split; [done|]. by apply Forall_singleton. }
    exists ls. split_and!; [done..|]. intros lid'. rewrite Hin, elem_of_app, list_elem_of_singleton. split.
    + intros [[?| ->]|(y & Hy & ?)]; [by left|right..].
      * exists x. split; [apply list_elem_of_here|done].
      * exists y. split; [by apply list_elem_of_further|done].
    + intros [?|(y & [->|Hy]%elem_of_cons & He)]; [by left; left| |right; by exists y].
      left; right. rewrite Hb in He. injection He as He. by apply str_bytes_inj.
Qed.

(** A listing below a token holds the entries of the index and nothing else. *)
Lemma index_listing w t l :
  store_wf w → digest t →
  listing (dom (sm w)) (storage_dirs (w_store w)) (expand_key TV (t ++ "/")) l →
  ∀ x, x ∈ l → digest x ∧ is_Some (sm w !! ik t x).
Proof.
  intros Hw Ht Hl x Hx. destruct (listing_shape _ _ _ _ Hl x Hx) as [Hn|[d ->]].
  - apply (listing_names _ _ _ _ Hl x Hn), elem_of_dom in Hx. unfold expand_key in Hx.
    rewrite <- !app_assoc_str in Hx. fold (expand_key TV (t ++ "/" ++ x)) in Hx. fold (ik t x) in Hx.
    destruct Hx as [b Hb]. split; [|eauto]. by destruct (wf_index _ (wf_map _ Hw) t x b Ht Hn Hb).
  - destruct (listing_known _ _ _ _ Hl d Hx) as [Hn Hd]. exfalso.
    apply (proj1 (wf_dirs _ Hw t d Hn) Ht). unfold ik, expand_key in *. by rewrite <- !app_assoc_str in *.
Qed.

Lemma expand_dir p : dir_path p → dir_path (expand_key TV p) ∧ starts_with_char slash (expand_key TV p) = false.
Proof.
  intros Hp. destruct Hcfg as (_ & _ & _ & _ & Hd & Hs & _). unfold expand_key, new_sub_view. cbn [prefix].
  unfold expand_key. split.
  - apply dir_path_app; [|done]. apply dir_path_app; [done|]. right. by exists "token".
  - by destruct (prefix sv).
Qed.

(** The leases that the index lists for a token. *)
Lemma lookup_by_token_run id w :
  store_wf w →
  ∃ ls, ExpirationManager.lookup_by_token ts id w = (w, Ok ls) ∧ Forall (lease_ok (sm w)) ls ∧
    ∀ lid, lid ∈ ls ↔ ∃ x, no_slash x ∧ sm w !! ik (salt_id ts id) x = Some (str_bytes lid).
Proof.
  intros Hw. unfold ExpirationManager.lookup_by_token.
  pose proof (salt_digest id) as Ht. set (t := salt_id ts id) in *.
  replace (token_view (expiration ts)) with TV by (symmetry; apply Hcfg).
  assert (sane (t ++ "/")) as Hs.
  { replace (t ++ "/") with (t ++ "/" ++ "") by done. by apply sane_index. }
  destruct (expand_dir (t ++ "/")) as [Hd1 Hd2]; [right; by exists t|].
  destruct (clean_list TV (w_store w) (t ++ "/") (wf_clean _ Hw) Hs Hd1 Hd2) as (l & Hlist & Hl).
  pose proof (index_listing w t l Hw Ht Hl) as Hin.
  destruct (lookup_loop_run t l [] w Hw Ht Hin (Forall_nil_2 _)) as (ls & Hloop & Hls & _ & Hall).
  rewrite (st_bind_run _ _ _ _ _ (upgrade_run w)). unfold st_bind at 1, view_list. rewrite Hlist.
  exists ls. split_and!; [done..|]. intros lid. rewrite Hall. split.
  - intros [?%not_elem_of_nil|(x & Hx & He)]; [done|]. exists x.
    split; [apply digest_no_slash, (Hin x Hx)|done].
  - intros (x & Hn & He). right. exists x. split; [|done]. apply (listing_names _ _ _ _ Hl x Hn), elem_of_dom.
    unfold expand_key. rewrite <- !app_assoc_str. fold (expand_key TV (t ++ "/" ++ x)). fold (ik t x). by exists (str_bytes lid).
Qed.

Lemma revoke_by_token_run rt te w :
  store_wf w →
  ∃ w', ExpirationManager.revoke_by_token route ts rt te w = (w', Ok tt) ∧ evolves lease_keys w w' ∧
        (w_queue_held w = true → w' = w).
Proof.
  intros Hw. unfold ExpirationManager.revoke_by_token.
  destruct (lookup_by_token_run (te_id te) w Hw) as (ls & Hrun & Hls & Hin).
  rewrite (st_bind_run _ _ _ _ _ Hrun).
  destruct (w_queue_held w) eqn:Hh.
  - assert (ls = []) as ->.
    { destruct ls as [|lid ls]; [done|]. destruct (proj1 (Hin lid) (list_elem_of_here _ _)) as (x & Hx & He).
      by rewrite (wf_lock _ Hw Hh _ x (salt_digest _) Hx) in He. }
    exists w. split_and!; [done|apply evolves_refl, Hw|done].
  - destruct (revoke_leases_run rt ls w (wf_clean _ Hw) Hh Hls) as (w' & ? & ?). by exists w'.
Qed.

(** ** Revoking one token *)

(** What the deletion of token [x] may remove. *)
Definition token_keys (x k : string) : Prop :=
  lease_keys k ∨ k = idk x ∨ ∃ p, no_slash p ∧ k = pk p x.

(** The token's entry and its entry in the index of its parent. *)
Definition unlink (x : string) (te : TokenEntry) : st W RvError unit :=
  let! _ := view_delete TV (TokenStore.id_key x) in
  if is_empty (te_parent te) then st_ret tt else view_delete TV (TokenStore.parent_key ts (te_parent te) x).

Definition link_keys (x k : string) : Prop := k = idk x ∨ ∃ p, no_slash p ∧ k = pk p x.

Lemma unlink_parent_run x te w :
  clean (w_store w) → digest x →
  ∃ w', (if is_empty (te_parent te) then st_ret tt
         else view_delete TV (TokenStore.parent_key ts (te_parent te) x)) w = (w', Ok tt) ∧
        evolves (λ k, ∃ p, no_slash p ∧ k = pk p x) w w' ∧
        (∀ k, sm w' !! k = if decide (te_parent te ≠ "" ∧ k = pk (salt_id ts (te_parent te)) x)
                           then None else sm w !! k).
Proof.
  intros Hc Hx. destruct (is_empty (te_parent te)) eqn:Ep.
  - apply is_empty_spec in Ep. exists w. split_and!; [done|by apply evolves_refl|].
    intros k. rewrite decide_False; [done|]. by intros [].
  - assert (te_parent te ≠ "") as Hne by (intros Hp; by rewrite Hp in Ep).
    destruct (delete_evolves TV (TokenStore.parent_key ts (te_parent te) x) w) as (w2 & Hr2 & E2 & Hm2).
    + done.
    + apply sane_parent; [apply salt_digest|apply Hx].
    + apply tv_keys_ok.
    + apply sys_TV.
    + fold (pk (salt_id ts (te_parent te)) x) in E2, Hm2. exists w2. split_and!; [done| |].
      * eapply evolves_weaken; [|exact E2]. intros k <-. exists (salt_id ts (te_parent te)).
        split; [apply digest_no_slash, salt_digest|done].
      * intros k. rewrite Hm2. destruct (decide _) as [[_ ->]|Hn]; [apply lookup_delete_eq|].
        apply lookup_delete_ne. intros <-. by apply Hn.
Qed.

Lemma unlink_run x te w :
  store_wf w → digest x → token_at (sm w) x = Some te →
  ∃ w', unlink x te w = (w', Ok tt) ∧ store_wf w' ∧ evolves (link_keys x) w w' ∧ sm w' !! idk x = None.
Proof.
  intros Hw Hx Hte. unfold unlink.
  destruct (delete_evolves TV (TokenStore.id_key x) w (wf_clean _ Hw) (sane_id_key x (proj1 Hx))
    tv_keys_ok (sys_TV _)) as (w1 & Hr1 & E1 & Hm1). fold (idk x) in E1, Hm1.
  rewrite (st_bind_run _ _ _ _ _ Hr1).
  destruct (unlink_parent_run x te w1 (ev_clean _ _ _ E1) Hx) as (w2 & Hr2 & E2 & Hm2).
  exists w2. split_and!; [done| | |].
  - eapply evolves_wf; [done|exact (evolves_trans _ _ _ _ _ E1 E2)|].
    intros p y Hch. pose proof (child_hex _ _ _ (wf_map _ Hw) Hch) as [Hp Hy].
    pose proof (wf_parent_complete _ (wf_map _ Hw) p y Hch) as Hpk.
    destruct Hch as (te' & Hy' & Hne & Hs). rewrite !Hm2.
    rewrite (decide_False (P := _ ∧ idk y = _)) by (intros [_ ?]; by apply (idk_pk y (salt_id ts (te_parent te)) x)).
    rewrite Hm1. destruct (decide (x = y)) as [<-|Hxy].
    + rewrite lookup_delete_eq. assert (te' = te) as -> by congruence.
      rewrite decide_True by (by rewrite Hs). done.
    + rewrite lookup_delete_ne by (by intros ?%idk_inj).
      rewrite decide_False, lookup_delete_ne; [|apply idk_pk|].
      * split; intros Hn; [|destruct Hpk; congruence]. unfold token_at in Hy'. by rewrite Hn in Hy'.
      * intros [_ He%pk_inj]; [by destruct He|apply digest_no_slash, Hp|apply digest_no_slash, salt_digest].
  - eapply evolves_weaken; [|exact (evolves_trans _ _ _ _ _ E1 E2)]. intros k [<-|?]; [by left|by right].
  - rewrite Hm2, decide_False by (intros [_ ?%idk_pk]; done). by rewrite Hm1, lookup_delete_eq.
Qed.

(** The entry of an unknown token: nothing is removed. *)
Lemma delete_missing_run x w :
  store_wf w → digest x → token_at (sm w) x = None →
  ∃ w', view_delete TV (TokenStore.id_key x) w = (w', Ok tt) ∧ store_wf w' ∧ evolves (λ k, k = idk x) w w' ∧
        sm w' !! idk x = None.
Proof.
  intros Hw Hx Hte.
  destruct (delete_evolves TV (TokenStore.id_key x) w (wf_clean _ Hw) (sane_id_key x (proj1 Hx))
    tv_keys_ok (sys_TV _)) as (w1 & Hr1 & E1 & Hm1). fold (idk x) in E1, Hm1.
  exists w1. split_and!; [done| |by eapply evolves_weaken; [|exact E1]|by rewrite Hm1, lookup_delete_eq].
  eapply evolves_wf; [done|exact E1|]. intros p y Hch. pose proof Hch as (te & Hy & _). rewrite Hm1.
  assert (x ≠ y) by congruence. rewrite lookup_delete_ne by (by intros ?%idk_inj).
  rewrite lookup_delete_ne by apply idk_pk. split; intros Hn.
  - unfold token_at in Hy. by rewrite Hn in Hy.
  - destruct (wf_parent_complete _ (wf_map _ Hw) p y Hch). congruence.
Qed.

(** Deleting leases keeps the tokens in step with their index. *)
Lemma evolves_leases_wf w w' : store_wf w → evolves lease_keys w w' → store_wf w'.
Proof.
  intros Hw He. eapply evolves_wf; [done|exact He|]. intros p y Hch.
  pose proof (wf_parent_complete _ (wf_map _ Hw) p y Hch) as [b Hb].
  destruct (ev_keys _ _ _ He (idk y) (sys_TV _)) as [Hk|[Hk _]]; [|by apply (lease_keys_token _ y) in Hk].
  destruct (ev_keys _ _ _ He (pk p y) (sys_TV _)) as [->|[Hk' _]]; [|by apply (lease_keys_parent _ p y) in Hk'].
  rewrite Hk, Hb. split; [|done]. destruct Hch as (te' & Hy' & _). unfold token_at in Hy'. intros Hn.
  by rewrite Hn in Hy'.
Qed.

(** Under the lock of the queue the leases stay. *)
Definition leases_kept w w' : Prop := w_queue_held w = true → ∀ l, sm w' !! lk l = sm w !! lk l.

Lemma link_keys_lease x w w' l : evolves (link_keys x) w w' → sm w' !! lk l = sm w !! lk l.
Proof.
  intros He. destruct (ev_keys _ _ _ He (lk l) (sys_IV l)) as [?|[[Hk|(p & _ & Hk)] _]]; [done|..].
  - by apply lk_TV in Hk.
  - by apply lk_TV in Hk.
Qed.

Lemma revoke_salted_run rt x w :
  store_wf w → digest x →
  ∃ w', TokenStore.revoke_salted_ route ts rt x w = (w', Ok tt) ∧ store_wf w' ∧
        evolves (token_keys x) w w' ∧ token_at (sm w') x = None ∧ leases_kept w w'.
Proof.
  intros Hw Hx. unfold TokenStore.revoke_salted_.
  rewrite (st_bind_run _ _ _ _ _ (get_view_run w)).
  rewrite (st_bind_run _ _ _ _ _ (lookup_salted_run w x Hw (proj1 Hx))).
  destruct (token_at (sm w) x) as [te|] eqn:Hte.
  - destruct (unlink_run x te w Hw Hx Hte) as (w2 & Hr2 & Hw2 & E2 & Hn2).
    apply st_bind_ok in Hr2 as (w1 & u & Hr1 & Hr2). rewrite (st_bind_run _ _ _ _ _ Hr1), (st_bind_run _ _ _ _ _ Hr2).
    destruct (revoke_by_token_run rt te w2 Hw2) as (w3 & Hr3 & E3 & Hsame).
    exists w3. split_and!; [done|by eapply evolves_leases_wf| | |].
    + eapply evolves_weaken; [|exact (evolves_trans _ _ _ _ _ E2 E3)]. intros k [?|?]; [by right|by left].
    + unfold token_at. destruct (ev_keys _ _ _ E3 (idk x) (sys_TV _)) as [->|[_ ->]]; [by rewrite Hn2|done].
    + intros Hh l. rewrite Hsame by (by rewrite (ev_held _ _ _ E2)). by eapply link_keys_lease.
  - destruct (delete_missing_run x w Hw Hx Hte) as (w1 & Hr1 & Hw1 & E1 & Hn1).
    rewrite (st_bind_run _ _ _ _ _ Hr1). exists w1. split_and!; [done|done| |unfold token_at; by rewrite Hn1|].
    + eapply evolves_weaken; [|exact E1]. intros k ->. right. by left.
    + intros _ l. eapply link_keys_lease, evolves_weaken, E1. intros k ->. by left.
Qed.

(** ** Revoking a tree *)

(** [y] is [x] or a descendant of [x]. *)
Inductive desc (m : gmap string bytes) (x : string) : string → Prop :=
  | desc_refl : desc m x x
  | desc_step z y : desc m x z → child_of m z y → desc m x y.

Lemma desc_trans m x y z : desc m x y → desc m y z → desc m x z.
Proof. intros Hxy Hyz. induction Hyz as [|u v _ IH Hch]; [done|]. by econstructor. Qed.

Lemma desc_first m x y : desc m x y → x = y ∨ ∃ c, child_of m x c ∧ desc m c y.
Proof.
  induction 1 as [|z y _ [<-|(c & Hc & Hd)] Hch]; [by left|right..].
  - exists y. split; [done|constructor].
  - exists c. split; [done|]. by econstructor.
Qed.

Lemma desc_evolves D w w' x y : evolves D w w' → desc (sm w') x y → desc (sm w) x y.
Proof. intros He. induction 1 as [|z y _ IH Hch]; [constructor|]. econstructor; [done|]. by eapply evolves_child. Qed.

(** What a completed revocation of a set of roots did to the tokens. *)
Record cut (X : string → Prop) w w' : Prop := {
  cut_wf : store_wf w';
  cut_ev : evolves (λ k, lease_keys k ∨ ∃ y, k = idk y ∨ ∃ p, k = pk p y) w w';
  cut_gone x y : X x → desc (sm w) x y → token_at (sm w') y = None;
  cut_only y te : token_at (sm w) y = Some te → token_at (sm w') y = None →
    ∃ x, X x ∧ desc (sm w) x y
}.

(** A path to a token that survives a cut survives it. *)
Lemma cut_path X w1 w2 x y te :
  cut X w1 w2 → desc (sm w1) x y → token_at (sm w2) y = Some te → desc (sm w2) x y.
Proof.
  intros [_ E1 G1 O1] Hd. revert te. induction Hd as [|z y Hd IH Hch]; intros te Hy; [constructor|].
  assert (child_of (sm w2) z y) as Hch2.
  { destruct Hch as (te' & Hy' & H). exists te'. split; [|done].
    pose proof (evolves_token_sub _ _ _ y te E1 Hy). congruence. }
  destruct (token_at (sm w2) z) as [tz|] eqn:Hz; [by econstructor; [eapply IH|]|].
  destruct (token_at (sm w1) z) as [tz|] eqn:Hz1.
  - destruct (O1 z tz Hz1 Hz) as (x1 & Hx1 & Hd1).
    rewrite (G1 x1 y Hx1) in Hy; [done|]. by econstructor.
  - (* a path only passes through tokens after its start *)
    inversion Hd; subst; [econstructor; [constructor|done]|]. destruct H0 as (tz & Htz & _). congruence.
Qed.

Lemma cut_trans X X' w1 w2 w3 : cut X w1 w2 → cut X' w2 w3 → cut (λ x, X x ∨ X' x) w1 w3.
Proof.
  intros C1 [Hw3 E2 G2 O2]. pose proof C1 as [Hw2 E1 G1 O1]. split; [done| | |].
  - eapply evolves_weaken; [|exact (evolves_trans _ _ _ _ _ E1 E2)]. simpl. tauto.
  - intros x y Hx Hd. destruct (evolves_token _ _ _ y E2) as [Heq|[_ ->]]; [|done]. rewrite Heq.
    destruct Hx as [Hx|Hx]; [by eapply G1|].
    destruct (token_at (sm w2) y) as [te|] eqn:Hy; [|done]. exfalso.
    pose proof (G2 x y Hx (cut_path _ _ _ _ _ _ C1 Hd Hy)). congruence.
  - intros y te Hy Hn. destruct (token_at (sm w2) y) as [te2|] eqn:Hy2.
    + destruct (O2 y te2 Hy2 Hn) as (x & Hx & Hd). exists x. split; [by right|].
      by eapply desc_evolves.
    + destruct (O1 y te Hy Hy2) as (x & Hx & Hd). exists x. auto.
Qed.

(** The children of a token and then the token itself. *)
Lemma cut_root x w w1 w2 :
  cut (child_of (sm w) x) w w1 → store_wf w2 → evolves (token_keys x) w1 w2 → token_at (sm w2) x = None →
  cut (eq x) w w2.
Proof.
  intros C1 Hw2 E2 Hgone. split; [done| | |].
  - eapply evolves_weaken; [|exact (evolves_trans _ _ _ _ _ (cut_ev _ _ _ C1) E2)].
    intros k. simpl. unfold token_keys. intros [?|[?|[?|(p & _ & ?)]]]; eauto 10.
  - intros ? y <- Hd. destruct (desc_first _ _ _ Hd) as [<-|(c & Hc & Hd')]; [done|].
    pose proof (cut_gone _ _ _ C1 c y Hc Hd') as Hn.
    destruct (evolves_token _ _ _ y E2) as [->|[_ ->]]; done.
  - intros y te Hy Hn. exists x. split; [done|].
    destruct (token_at (sm w1) y) as [te1|] eqn:Hy1.
    + destruct (evolves_token _ _ _ y E2) as [He|[Hk _]]; [congruence|].
      destruct Hk as [Hk|[<-%idk_inj|(p & _ & Hk)]]; [|constructor|].
      * by apply (lease_keys_token _ y) in Hk.
      * by apply idk_pk in Hk.
    + destruct (cut_only _ _ _ C1 y te Hy Hy1) as (c & Hc & Hd).
      eapply desc_trans; [|exact Hd]. econstructor; [constructor|done].
Qed.

Lemma cut_iff (X X' : string → Prop) w w' : (∀ x, X x ↔ X' x) → cut X w w' → cut X' w w'.
Proof.
  intros Hx [Hw He Hg Ho]. split; [done|done| |].
  - intros x y Hx'%Hx. by apply Hg.
  - intros y te Hy Hn. destruct (Ho y te Hy Hn) as (x & Hx'%Hx & ?). by exists x.
Qed.

Lemma leases_kept_trans w1 w2 w3 :
  w_queue_held w2 = w_queue_held w1 → leases_kept w1 w2 → leases_kept w2 w3 → leases_kept w1 w3.
Proof. intros He L1 L2 Hh l. rewrite L2 by congruence. by apply L1. Qed.

(** A bound on the depth of the tree below [x]. *)
Definition token_ids (m : gmap string bytes) : gset string :=
  list_to_set (omap (strip_prefix (idk "")) (elements (dom m))).

Lemma elem_of_token_ids m x : x ∈ token_ids m ↔ is_Some (m !! idk x).
Proof.
  assert (∀ y, idk y = idk "" ++ y) as Hidk.
  { intros y. unfold idk, expand_key, TokenStore.id_key.
    change (TOKEN_LOOKUP_PREFIX ++ "") with TOKEN_LOOKUP_PREFIX. apply app_assoc_str. }
  unfold token_ids. rewrite elem_of_list_to_set, list_elem_of_omap, (Hidk x). split.
  - intros (k & Hk & He%strip_prefix_Some). subst k. by apply elem_of_elements, elem_of_dom in Hk.
  - intros Hs. exists (idk "" ++ x). split; [by apply elem_of_elements, elem_of_dom|].
    apply strip_prefix_app.
Qed.

Definition above (rank : string → nat) (m : gmap string bytes) (x : string) : nat :=
  size (filter (λ y, (rank x < rank y)%nat) (token_ids m)).

Lemma token_in_ids m x te : token_at m x = Some te → x ∈ token_ids m.
Proof. intros Ht. apply elem_of_token_ids. unfold token_at in Ht. destruct (m !! idk x); [eauto|done]. Qed.

Lemma above_child rank m x y :
  (∀ p c, child_of m p c → (rank p < rank c)%nat) → child_of m x y → (above rank m y < above rank m x)%nat.
Proof.
  intros Hr Hch. apply subset_size. pose proof (Hr x y Hch). destruct Hch as (te & Hte & _).
  apply token_in_ids in Hte. split.
  - intros z [? ?]%elem_of_filter. apply elem_of_filter. split; [lia|done].
  - intros Hsub. assert (y ∈ filter (λ z, (rank x < rank z)%nat) (token_ids m)) as Hy
      by (apply elem_of_filter; done). apply Hsub, elem_of_filter in Hy as [? _]. lia.
Qed.

Lemma above_evolves rank D w w' x : evolves D w w' → (above rank (sm w') x <= above rank (sm w) x)%nat.
Proof.
  intros He. apply subseteq_size. intros z [? [b Hb]%elem_of_token_ids]%elem_of_filter.
  apply elem_of_filter. split; [done|]. apply elem_of_token_ids. exists b.
  eapply evolves_sub; [done|apply sys_TV|done].
Qed.

(** The listing of the children of a token. *)
Lemma children_list s x :
  clean s → dirs_wf (storage_dirs s) → digest x →
  ∃ l, list_ TV s ("parent/" ++ x ++ "/") = Ok l ∧ NoDup l ∧
       ∀ y, y ∈ l ↔ no_slash y ∧ is_Some (storage_map s !! pk x y).
Proof.
  intros Hc Hdw Hx. pose proof (digest_no_slash x Hx) as Hnx.
  assert (sane ("parent/" ++ x ++ "/")) as Hs.
  { replace ("parent/" ++ x ++ "/") with ("parent/" ++ x ++ "/" ++ "") by done.
    apply sane_parent; [apply Hx|done]. }
  destruct (expand_dir ("parent/" ++ x ++ "/")) as [Hd1 Hd2].
  { right. exists ("parent/" ++ x). by rewrite <- app_assoc_str. }
  destruct (clean_list TV s _ Hc Hs Hd1 Hd2) as (l & Hlist & Hl).
  assert (∀ n, expand_key TV ("parent/" ++ x ++ "/") ++ n = pk x n) as Hpk.
  { intros n. unfold pk, expand_key. by rewrite <- !app_assoc_str. }
  exists l. split_and!; [done|by eapply listing_nodup|]. intros y. split.
  - intros Hy. destruct (listing_shape _ _ _ _ Hl y Hy) as [Hn|[d ->]].
    + split; [done|]. rewrite <- Hpk. by apply elem_of_dom, (listing_names _ _ _ _ Hl y Hn).
    + destruct (listing_known _ _ _ _ Hl d Hy) as [Hn Hd]. exfalso.
      apply (proj2 (Hdw x d Hn) Hnx). by rewrite <- Hpk.
  - intros [Hn Hy]. apply (listing_names _ _ _ _ Hl y Hn), elem_of_dom. by rewrite Hpk.
Qed.

Lemma listed_children w x y :
  store_wf w → digest x → (no_slash y ∧ is_Some (sm w !! pk x y)) ↔ child_of (sm w) x y.
Proof.
  intros Hw Hx. split.
  - intros [Hn Hs]. apply (wf_parent_sound _ (wf_map _ Hw) x y); [by apply digest_no_slash|done|done].
  - intros Hch. pose proof (child_hex _ _ _ (wf_map _ Hw) Hch) as [_ Hy].
    split; [by apply digest_no_slash|]. by apply (wf_parent_complete _ (wf_map _ Hw)).
Qed.

Lemma cut_iter depth l w :
  (∀ y w, y ∈ l → store_wf w → digest y → (∃ rank, (∀ p c, child_of (sm w) p c → (rank p < rank c)%nat) ∧
                                           (above rank (sm w) y < depth)%nat) →
     ∃ w', TokenStore.revoke_tree_salted route ts depth y w = (w', Ok tt) ∧ cut (eq y) w w' ∧ leases_kept w w') →
  store_wf w →
  (∃ rank, (∀ p c, child_of (sm w) p c → (rank p < rank c)%nat) ∧
           ∀ y, y ∈ l → digest y ∧ (above rank (sm w) y < depth)%nat) →
  ∃ w', st_iter (TokenStore.revoke_tree_salted route ts depth) l w = (w', Ok tt) ∧
    cut (λ y, y ∈ l) w w' ∧ leases_kept w w'.
Proof.
  intros Hstep. revert w. induction l as [|y l IH]; intros w Hw (rank & Hr & Hl); simpl.
  - exists w. split; [done|]. split; [|done]. split; [done|apply evolves_refl, Hw|by intros ? ? ?%not_elem_of_nil|].
    intros y te Hy. congruence.
  - destruct (Hl y (list_elem_of_here _ _)) as [Hy Hay].
    destruct (Hstep y w) as (w1 & Hr1 & C1 & L1); [apply list_elem_of_here|done|done|by exists rank|].
    rewrite (st_bind_run _ _ _ _ _ Hr1).
    destruct (IH) with (w := w1) as (w2 & Hr2 & C2 & L2).
    + intros z w0 Hz. apply Hstep. by apply list_elem_of_further.
    + apply C1.
    + exists rank. split; [intros p c Hch; by eapply Hr, evolves_child, Hch; apply C1|].
      intros z Hz. destruct (Hl z) as [? Ha]; [by apply list_elem_of_further|]. split; [done|].
      eapply Nat.le_lt_trans; [eapply above_evolves; apply C1|done].
    + exists w2. split; [done|]. destruct (cut_trans _ _ _ _ _ C1 C2) as [A B G O].
      split; [|exact (leases_kept_trans _ _ _ (ev_held _ _ _ (cut_ev _ _ _ C1)) L1 L2)]. split; [done|done| |].
      * intros x z [->|?]%elem_of_cons; [by apply (G y); left|]. by apply (G x); right.
      * intros z te Hz Hn. destruct (O z te Hz Hn) as (x & Hx & ?). exists x. split; [|done].
        destruct Hx as [<-|?]; [apply list_elem_of_here|by apply list_elem_of_further].
Qed.

Lemma revoke_tree_salted_run depth x w :
  store_wf w → digest x →
  (∃ rank, (∀ p c, child_of (sm w) p c → (rank p < rank c)%nat) ∧ (above rank (sm w) x < depth)%nat) →
  ∃ w', TokenStore.revoke_tree_salted route ts depth x w = (w', Ok tt) ∧ cut (eq x) w w' ∧ leases_kept w w'.
Proof.
  revert x w. induction depth as [|depth IH]; intros x w Hw Hx (rank & Hr & Ha); [lia|].
  cbn [TokenStore.revoke_tree_salted]. change TOKEN_PARENT_PREFIX with "parent/".
  rewrite (st_bind_run _ _ _ _ _ (get_view_run w)).
  destruct (children_list _ x (wf_clean _ Hw) (wf_dirs _ Hw) Hx) as (l & Hlist & _ & Hl).
  assert (∀ y, y ∈ l ↔ child_of (sm w) x y) as Hch.
  { intros y. rewrite Hl. by apply listed_children. }
  unfold st_bind at 1, view_list. rewrite Hlist.
  destruct (cut_iter depth l w) as (w1 & Hr1 & C1 & L1).
  { intros y w0 _. apply IH. }
  { done. }
  { exists rank. split; [done|]. intros y Hy%Hch. pose proof (above_child rank _ _ _ Hr Hy).
    split; [|lia]. by destruct (child_hex _ _ _ (wf_map _ Hw) Hy). }
  rewrite (st_bind_run _ _ _ _ _ Hr1).
  match goal with |- context [TokenStore.revoke_salted_ _ _ ?rt] => set (rt' := rt) end.
  destruct (revoke_salted_run rt' x w1 (cut_wf _ _ _ C1) Hx) as (w2 & Hr2 & Hw2 & E2 & Hgone & Hkept).
  exists w2. split; [exact Hr2|].
  split; [|exact (leases_kept_trans _ _ _ (ev_held _ _ _ (cut_ev _ _ _ C1)) L1 Hkept)].
  eapply cut_root; [|done..]. by eapply cut_iff; [|exact C1].
Qed.

(** ** Storing a token *)

(** No token [x], and no token below it. *)
Definition fresh (m : gmap string bytes) (x : string) : Prop :=
  token_at m x = None ∧ ∀ y, ¬ child_of m x y.

(** [m'] is [m] with [te] stored as [x], new or in place of an entry with the
    same parent. *)
Record stored (m m' : gmap string bytes) (x : string) (te : TokenEntry) : Prop := {
  st_entry : ∃ b, m' !! idk x = Some b ∧ te_decode b = Some te;
  st_id : te_id te ≠ "" ∧ salt_id ts (te_id te) = x ∧ representable te;
  st_index : te_parent te ≠ "" → is_Some (m' !! pk (salt_id ts (te_parent te)) x);
  st_frame k : k ≠ idk x → (te_parent te = "" ∨ k ≠ pk (salt_id ts (te_parent te)) x) → m' !! k = m !! k;
  st_place : fresh m x ∧ (te_parent te ≠ "" → is_Some (token_at m (salt_id ts (te_parent te)))) ∨
             ∃ te0, token_at m x = Some te0 ∧ te_parent te0 = te_parent te
}.

Lemma stored_token m m' x te y :
  stored m m' x te → token_at m' y = if decide (y = x) then Some te else token_at m y.
Proof.
  intros [(b & Hb & Hde) _ _ Hf _]. unfold token_at. destruct (decide (y = x)) as [->|Hne].
  - by rewrite Hb.
  - rewrite Hf; [done|by intros ?%idk_inj|right; apply idk_pk].
Qed.

Lemma stored_child m m' x te p y :
  stored m m' x te →
  child_of m' p y ↔ y = x ∧ te_parent te ≠ "" ∧ salt_id ts (te_parent te) = p ∨ y ≠ x ∧ child_of m p y.
Proof.
  intros Hst. unfold child_of. rewrite (stored_token _ _ _ _ y Hst).
  destruct (decide (y = x)) as [->|]; naive_solver.
Qed.

Lemma stored_frame_index m m' x te : stored m m' x te → ∀ t l, digest t → m' !! ik t l = m !! ik t l.
Proof. intros Hst t l Ht. apply (st_frame _ _ _ _ Hst); [by apply ik_idk|right; by apply ik_pk]. Qed.

Lemma stored_frame_lease m m' x te : stored m m' x te → ∀ l, m' !! lk l = m !! lk l.
Proof. intros Hst l. apply (st_frame _ _ _ _ Hst); [apply lk_TV|right; apply lk_TV]. Qed.

Lemma stored_rank m m' x te :
  stored m m' x te → map_wf m → ∃ rank : string → nat, ∀ p y, child_of m' p y → (rank p < rank y)%nat.
Proof.
  intros Hst Hm. destruct (wf_rank _ Hm) as [rank Hr].
  destruct (st_place _ _ _ _ Hst) as [[[Hn Hno] Hpar]|(te0 & Hx & Hp0)].
  - exists (λ y, if decide (y = x) then Datatypes.S (rank (salt_id ts (te_parent te))) else rank y).
    intros p y [(-> & Hne & <-)|(Hyx & Hch)]%(stored_child _ _ _ _ _ _ Hst).
    + rewrite (decide_True (P := x = x)) by done. rewrite decide_False; [lia|].
      intros He. destruct (Hpar Hne) as [? Hs]. congruence.
    + rewrite (decide_False (P := y = x)) by done. rewrite decide_False; [by apply Hr|].
      intros ->. by apply (Hno y).
  - exists rank. intros p y [(-> & Hne & Hs)|(_ & Hch)]%(stored_child _ _ _ _ _ _ Hst); apply Hr; [|done].
    exists te0. by rewrite Hp0.
Qed.

Lemma stored_wf m m' x te : stored m m' x te → map_wf m → map_wf m'.
Proof.
  intros Hst Hm. split.
  - intros y b Hb. destruct (decide (y = x)) as [->|Hne].
    + destruct (st_entry _ _ _ _ Hst) as (b' & Hb' & Hde). exists te. replace b with b' by congruence.
      split; [done|apply (st_id _ _ _ _ Hst)].
    + apply (wf_tokens _ Hm). rewrite <- Hb. symmetry.
      apply (st_frame _ _ _ _ Hst); [by intros ?%idk_inj|right; apply idk_pk].
  - intros p y Hp Hy Hs. apply (stored_child _ _ _ _ _ _ Hst).
    destruct (decide (te_parent te ≠ "" ∧ pk p y = pk (salt_id ts (te_parent te)) x)) as [[Hne He]|Hn].
    + apply pk_inj in He as [-> ->]; [by left|done|apply digest_no_slash, salt_digest].
    + rewrite (st_frame _ _ _ _ Hst) in Hs; [|apply not_eq_sym, idk_pk|].
      2: { destruct (decide (te_parent te = "")); [by left|right]. naive_solver. }
      pose proof (wf_parent_sound _ Hm p y Hp Hy Hs) as Hc. destruct (decide (y = x)) as [->|]; [|by right].
      left. destruct Hc as (te1 & Hx1 & Hne1 & Hs1).
      destruct (st_place _ _ _ _ Hst) as [[[Hx0 _] _]|(te0 & Hx0 & Hp0)]; [congruence|].
      assert (te1 = te0) as -> by congruence. rewrite Hp0 in *. done.
  - intros p y [(-> & Hne & <-)|(Hyx & Hc)]%(stored_child _ _ _ _ _ _ Hst); [by apply (st_index _ _ _ _ Hst)|].
    rewrite (st_frame _ _ _ _ Hst); [by apply (wf_parent_complete _ Hm)|apply not_eq_sym, idk_pk|].
    right. intros He%pk_inj; [by destruct He| |apply digest_no_slash, salt_digest].
    apply digest_no_slash. by destruct (child_hex _ _ _ Hm Hc).
  - by eapply stored_rank.
  - intros t l b Ht Hl. rewrite (stored_frame_index _ _ _ _ Hst t l Ht). intros Hb.
    destruct (wf_index _ Hm t l b Ht Hl Hb) as (Hd & lid & -> & Hs & Hok). split; [done|].
    exists lid. split; [done|]. split; [done|]. intros b'. rewrite (stored_frame_lease _ _ _ _ Hst). apply Hok.
Qed.

(** Writing a token key or an index key makes no directory below an index. *)
Lemma dirs_wf_put dirs dirs' k :
  dirs_wf dirs → (∀ d, d ∈ dirs' → d ∈ dirs ∨ starts_with d k = true) →
  (∃ x, no_slash x ∧ k = idk x) ∨ (∃ p x, no_slash p ∧ no_slash x ∧ k = pk p x) → dirs_wf dirs'.
Proof.
  intros Hd Hsub Hk a d Hn.
  assert (∀ u, no_slash u → ∀ r, d ++ "/" ++ r ≠ u) as Hns.
  { intros u Hu r <-. unfold no_slash in Hu. by rewrite find_char_None_app in Hu. }
  pose proof (Hd a d Hn) as [H1' H2'].
  split; intros Ha Hin; (destruct (Hsub _ Hin) as [Hin'|[r Hr]%starts_with_spec]; [naive_solver|]);
    unfold ik, pk, expand_key in Hr; rewrite <- !app_assoc_str in Hr;
    destruct Hk as [(x & Hx & ->)|(p & x & Hp & Hx & ->)]; unfold idk, pk, expand_key in Hr;
    apply app_inj_l in Hr.
  - symmetry in Hr. by apply (digest_head a (d ++ "/" ++ r) "id" x) in Ha.
  - symmetry in Hr. by apply (digest_head a (d ++ "/" ++ r) "parent" (p ++ "/" ++ x)) in Ha.
  - done.
  - apply app_inj_l in Hr. assert (p = a) as <- by (by eapply no_slash_app_inj).
    do 2 apply app_inj_l in Hr. symmetry in Hr. exact (Hns _ Hx _ Hr).
Qed.

Lemma te_encode_decode te :
  representable te → ∃ b, te_encode te = Some b ∧ te_decode b = Some (normal te).
Proof.
  intros (_ & Hp & Hm). unfold te_encode, te_decode.
  match goal with |- context [ser ?e] => destruct (ser_total e) as [b Hb]; set (e' := e) in * end.
  exists b. split; [done|]. apply de_ser in Hb. rewrite Hb.
  pose proof (deserialize_serialize _ Hp) as E1. pose proof (deserialize_serialize _ Hm) as E2.
  unfold serialize_duration in E1, E2. simpl te_period. simpl te_explicit_max_ttl. by rewrite E1, E2.
Qed.

Lemma normal_representable te : representable te → representable (normal te).
Proof.
  assert (∀ d, as_secs (from_secs (as_secs d)) = as_secs d) as Hs.
  { intros d. unfold from_secs, as_secs at 1. apply Z.div_mul. unfold NANOS. lia. }
  unfold representable, normal. simpl. by rewrite !Hs.
Qed.

Lemma normal_normal te : normal (normal te) = normal te.
Proof.
  assert (∀ d, as_secs (from_secs (as_secs d)) = as_secs d) as Hs.
  { intros d. unfold from_secs, as_secs at 1. apply Z.div_mul. unfold NANOS. lia. }
  unfold normal. simpl. by rewrite !Hs.
Qed.

(** The index entry of a new token, when it has a parent. *)
Lemma create_index_run te x w :
  store_wf w → digest x → (te_parent te ≠ "" → is_Some (token_at (sm w) (salt_id ts (te_parent te)))) →
  ∃ w', (if is_empty (te_parent te) then st_ret tt
         else let! parent := TokenStore.lookup ts (te_parent te) in
              match parent with
              | None => st_fail ErrAuthTokenNotFound
              | Some _ => view_put TV (TokenStore.parent_key ts (te_parent te) x) []
              end) w = (w', Ok tt) ∧
    clean (w_store w') ∧ w_queue_held w' = w_queue_held w ∧ dirs_wf (storage_dirs (w_store w')) ∧
    sm w' = if decide (te_parent te = "") then sm w
            else <[pk (salt_id ts (te_parent te)) x := []]> (sm w).
Proof.
  intros Hw Hx Hpar. destruct (decide (te_parent te = "")) as [Hp|Hp].
  - rewrite Hp. simpl. exists w. split_and!; [done|apply Hw|done|apply Hw|done].
  - rewrite (is_empty_false _ Hp). destruct (Hpar Hp) as [tp Htp].
    rewrite (st_bind_run _ _ _ _ _ (lookup_run w _ Hw Hp)), Htp.
    destruct (view_put_run TV (TokenStore.parent_key ts (te_parent te) x) [] w) as (s' & Hrun & Hc & Hm & Hd).
    + apply Hw.
    + apply sane_parent; [apply salt_digest|apply Hx].
    + apply tv_keys_ok.
    + fold (pk (salt_id ts (te_parent te)) x) in Hm, Hd.
      exists (set_store s' w). split_and!; [done|done|done| |done]. simpl.
      eapply dirs_wf_put; [apply Hw|exact Hd|]. right. eexists _, _. split_and!; [| |done];
        apply digest_no_slash; [apply salt_digest|done].
Qed.

Lemma create_run te w :
  store_wf w → te_id te ≠ "" → fresh (sm w) (salt_id ts (te_id te)) → representable te →
  (te_parent te ≠ "" → is_Some (token_at (sm w) (salt_id ts (te_parent te)))) →
  ∃ w', TokenStore.create ts te w = (w', Ok te) ∧ store_wf w' ∧
        stored (sm w) (sm w') (salt_id ts (te_id te)) (normal te).
Proof.
  intros Hw Hid Hfr Hrep Hpar. unfold TokenStore.create.
  rewrite (st_bind_run _ _ _ _ _ (get_view_run w)), (is_empty_false _ Hid).
  rewrite (st_bind_run _ _ w w te) by done. cbv zeta.
  pose proof (salt_digest (te_id te)) as Hx. set (x := salt_id ts (te_id te)) in *.
  destruct (te_encode_decode te Hrep) as (b & Henc & Hdec).
  rewrite (st_bind_run _ _ w w b) by (unfold st_lift; by rewrite Henc).
  destruct (create_index_run te x w Hw Hx Hpar) as (w1 & Hr1 & Hc1 & Hh1 & Hd1 & Hm1).
  rewrite (st_bind_run _ _ _ _ _ Hr1).
  destruct (view_put_run TV (TokenStore.id_key x) b w1 Hc1 (sane_id_key x (proj1 Hx)) tv_keys_ok)
    as (s2 & Hr2 & Hc2 & Hm2 & Hd2). fold (idk x) in Hm2, Hd2.
  rewrite (st_bind_run _ _ _ _ _ Hr2).
  assert (stored (sm w) (storage_map s2) x (normal te)) as Hst.
  { split.
    - exists b. rewrite Hm2, lookup_insert_eq. done.
    - split_and!; [done|done|by apply normal_representable].
    - simpl. intros Hp. rewrite Hm2, lookup_insert_ne by apply idk_pk.
      rewrite Hm1, decide_False by done. by rewrite lookup_insert_eq.
    - simpl. intros k Hk Hkp. rewrite Hm2, lookup_insert_ne by done. rewrite Hm1.
      destruct (decide _) as [|Hne]; [done|]. apply lookup_insert_ne. naive_solver.
    - left. done. }
  exists (set_store s2 w1). split_and!; [done| |done]. split; [done|by eapply stored_wf, Hw| |].
  - simpl. eapply dirs_wf_put; [exact Hd1|exact Hd2|]. left. exists x. split; [by apply digest_no_slash|done].
  - intros Hh t l Ht Hl. simpl. rewrite (stored_frame_index _ _ _ _ Hst t l Ht).
    apply (wf_lock _ Hw); [|done|done]. by rewrite <- Hh1.
Qed.

(** Writing back an entry with its uses counted. *)
Lemma update_run te te0 w :
  store_wf w → token_at (sm w) (salt_id ts (te_id te)) = Some te0 → te_id te ≠ "" →
  te_parent te0 = te_parent te → representable te → normal te = te →
  ∃ w' b, te_encode te = Some b ∧ view_put TV (TokenStore.id_key (salt_id ts (te_id te))) b w = (w', Ok tt) ∧
    store_wf w' ∧ stored (sm w) (sm w') (salt_id ts (te_id te)) te ∧
    w_policy_types w' = w_policy_types w ∧ w_token_policies_lru w' = w_token_policies_lru w.
Proof.
  intros Hw Ht0 Hid Hpar Hrep Hnorm. pose proof (salt_digest (te_id te)) as Hx.
  set (x := salt_id ts (te_id te)) in *. destruct (te_encode_decode te Hrep) as (b & Henc & Hdec).
  rewrite Hnorm in Hdec.
  destruct (view_put_run TV (TokenStore.id_key x) b w (wf_clean _ Hw) (sane_id_key x (proj1 Hx)) tv_keys_ok)
    as (s2 & Hr2 & Hc2 & Hm2 & Hd2). fold (idk x) in Hm2, Hd2.
  assert (stored (sm w) (storage_map s2) x te) as Hst.
  { split.
    - exists b. by rewrite Hm2, lookup_insert_eq.
    - done.
    - intros Hp. rewrite Hm2, lookup_insert_ne by apply idk_pk.
      apply (wf_parent_complete _ (wf_map _ Hw)). exists te0. by rewrite Hpar.
    - intros k Hk _. by rewrite Hm2, lookup_insert_ne.
    - right. by exists te0. }
  exists (set_store s2 w), b. split_and!; [done|done| |done..]. split; [done|by eapply stored_wf, Hw| |].
  - simpl. eapply dirs_wf_put; [apply Hw|exact Hd2|]. left. exists x. split; [by apply digest_no_slash|done].
  - intros Hh t l Ht Hl. simpl. rewrite (stored_frame_index _ _ _ _ Hst t l Ht). by apply (wf_lock _ Hw).
Qed.

(** The invariant only looks at the store and at the lock. *)
Lemma store_wf_ext w w' : w_store w' = w_store w → w_queue_held w' = w_queue_held w → store_wf w → store_wf w'.
Proof. intros Hs Hh [Hc Hm Hd Hl]. split; rewrite ?Hs; [done..|]. by rewrite Hh. Qed.

(** A store without token or lease keys satisfies it. *)
Lemma store_wf_init w :
  clean (w_store w) →
  (∀ k, starts_with (prefix sv) k = true → sm w !! k = None) →
  (∀ d, starts_with (prefix sv) d = true → d ∉ storage_dirs (w_store w)) → store_wf w.
Proof.
  intros Hc Hm Hd.
  assert (∀ p x, ¬ child_of (sm w) p x) as Hno.
  { intros p x (te & Ht & _). unfold token_at in Ht. by rewrite (Hm (idk x) (sys_TV _)) in Ht. }
  split; [done| | |].
  - split.
    + intros x b. by rewrite (Hm (idk x) (sys_TV _)).
    + intros p x _ _. rewrite (Hm (pk p x) (sys_TV _)). by intros [].
    + intros p x H. by apply Hno in H.
    + exists (λ _, 0%nat). intros p x H. by apply Hno in H.
    + intros t l b _ _. by rewrite (Hm (ik t l) (sys_TV _)).
  - intros a d _. split; intros _; apply Hd, sys_TV.
  - intros _ t l _ _. apply Hm, sys_TV.
Qed.

Lemma te_decode_normal b te : te_decode b = Some te → normal te = te.
Proof.
  assert (∀ z, from_secs (as_secs (from_secs z)) = from_secs z) as Hs.
  { intros z. unfold from_secs at 1, as_secs. unfold from_secs at 1. rewrite Z.div_mul; [done|]. unfold NANOS. lia. }
  unfold te_decode. destruct (de b) as [e|]; [|done]. simpl.
  destruct (in_range 0 U64_MAX (te_period e)) as [p|]; [|done].
  destruct (in_range 0 U64_MAX (te_explicit_max_ttl e)) as [m|]; [|done]. simpl. intros [= <-].
  unfold normal. simpl. by rewrite !Hs.
Qed.

(** What is known of a token that is found. *)
Lemma token_at_facts m x te :
  map_wf m → token_at m x = Some te → te_id te ≠ "" ∧ salt_id ts (te_id te) = x ∧ representable te ∧ normal te = te.
Proof.
  intros Hm. unfold token_at. destruct (m !! idk x) as [b|] eqn:E; [|done]. simpl. intros Hde.
  destruct (wf_tokens _ Hm x b E) as (te' & Hde' & Hid & Hs & Hrep).
  assert (te' = te) as -> by congruence. split_and!; [done..|]. by eapply te_decode_normal.
Qed.

(** ** What the token store leaves alone *)

(** Outside its two views the system area is unchanged, and so are the caches
    of the policy store. *)
Record apart w w' : Prop := {
  ap_keys k : starts_with (prefix sv) k = true → (∀ x, k ≠ expand_key TV x) → (∀ x, k ≠ expand_key IV x) →
    sm w' !! k = sm w !! k;
  ap_types : w_policy_types w' = w_policy_types w;
  ap_lru : w_token_policies_lru w' = w_token_policies_lru w
}.

Lemma evolves_apart x w w' : evolves (token_keys x) w w' → apart w w'.
Proof.
  intros He. split; [|apply He|apply He]. intros k Hk Ht Hi.
  destruct (ev_keys _ _ _ He k Hk) as [?|[[[[l ->]|(t & l & _ & ->)]|[->|(p & _ & ->)]] _]]; [done|exfalso..].
  - by apply (Hi l).
  - by apply (Ht (t ++ "/" ++ l)).
  - by apply (Ht (TokenStore.id_key x)).
  - by apply (Ht ("parent/" ++ p ++ "/" ++ x)).
Qed.

Lemma stored_apart x te w w' :
  stored (sm w) (sm w') x te → w_policy_types w' = w_policy_types w →
  w_token_policies_lru w' = w_token_policies_lru w → apart w w'.
Proof.
  intros Hst Ht Hl. split; [|done..]. intros k _ Hn _. apply (st_frame _ _ _ _ Hst); [apply Hn|right; apply Hn].
Qed.

(** ** Counting the uses of a token *)

(** Only token [x] changed. *)
Definition others_same (m m' : gmap string bytes) (x : string) : Prop :=
  ∀ y, y ≠ x → token_at m' y = token_at m y.

Lemma use_token_run te w :
  store_wf w → token_at (sm w) (salt_id ts (te_id te)) = Some te →
  ∃ w' te', TokenStore.use_token route stack ts te w = (w', Ok te') ∧ store_wf w' ∧
    te_policies te' = te_policies te ∧ te_display_name te' = te_display_name te ∧ te_meta te' = te_meta te ∧
    others_same (sm w) (sm w') (salt_id ts (te_id te)) ∧ apart w w' ∧
    token_at (sm w') (salt_id ts (te_id te))
      = (if Z.eqb (te_num_uses te) 0 then Some te
         else if Z.eqb (te_num_uses te) 1 then None
         else Some (te_set_num_uses (te_num_uses te - 1) te)).
Proof.
  intros Hw Ht. unfold TokenStore.use_token. rewrite (st_bind_run _ _ _ _ _ (get_view_run w)).
  destruct (token_at_facts _ _ _ (wf_map _ Hw) Ht) as (Hid & _ & Hrep & Hnorm).
  pose proof (proj1 Hrep) as Hn.
  destruct (Z.eqb_spec (te_num_uses te) 0) as [H0|H0]; [by exists w, te|]. cbv zeta.
  destruct (Z.eqb_spec (te_num_uses te) 1) as [H1'|H1'].
  - rewrite H1'. change (Z.eqb (te_num_uses (te_set_num_uses (1 - 1) te)) 0) with true. cbv iota.
    unfold TokenStore.revoke. change (te_id (te_set_num_uses (1 - 1) te)) with (te_id te).
    rewrite (is_empty_false _ Hid).
    destruct (revoke_salted_run (TokenStore.revoke_tree route stack ts) _ w Hw (salt_digest (te_id te)))
      as (w' & Hrun & Hw' & He & Hgone & _).
    unfold TokenStore.revoke_salted. rewrite (st_bind_run _ _ _ _ _ Hrun).
    eexists w', _. split_and!; [done..| |by eapply evolves_apart|done]. intros y Hy.
    destruct (evolves_token _ _ _ y He) as [->|[[Hk|[Hk|(p & _ & Hk)]] _]]; [done|..].
    + by apply (lease_keys_token _ y) in Hk.
    + by apply idk_inj in Hk.
    + by apply idk_pk in Hk.
  - rewrite (proj2 (Z.eqb_neq (te_num_uses (te_set_num_uses _ te)) 0)) by (simpl; lia).
    destruct (update_run (te_set_num_uses (te_num_uses te - 1) te) te w) as (w' & b & Henc & Hrun & Hw' & Hst & Hty & Hlru);
      try done.
    { split; [simpl; lia|apply Hrep]. }
    { change (te_set_num_uses (te_num_uses te - 1) (normal te) = te_set_num_uses (te_num_uses te - 1) te).
      by rewrite Hnorm. }
    rewrite (st_bind_run _ _ w w b) by (unfold st_lift; by rewrite Henc).
    rewrite (st_bind_run _ _ _ _ _ Hrun). eexists w', _. split_and!; [done..| | |].
    + intros y Hy. rewrite (stored_token _ _ _ _ y Hst). by rewrite decide_False.
    + by eapply stored_apart.
    + rewrite (stored_token _ _ _ _ _ Hst). by rewrite decide_True.
Qed.

End tokens.
