(* ===== verification/TokenProps.v ===== *)
(** * Properties of the token store

    The theorems about src/src/modules/auth/token_store.rs, from the lemmas of
    [TokenCorrect]: revocation of a tree, creation and lookup, the count of
    uses, the restrictions on new tokens, and the one way a caller can make
    revocation diverge. *)

From stdpp Require Import base tactics list gmap strings.
From Stdlib Require Import ZArith Lia Ascii.
From S2P Require Import Prelude Errors RustStr Utils Lease Storage BarrierView Logical LogicalBackend Policy Mount World WorldLaws TokenStore WorldDemo TokenCorrect BarrierCorrect MountCorrect.
Import BarrierView.

Local Open Scope string_scope.

Section theorems.
Context {S Q C : Type} `{HSt : Storage S} `{HSS : !StorageSpec S} `{HQ : LeaseQueue Q} `{HCl : Clock}
        `{HU : UuidGen} `{HX : HexCodec} `{H1 : Sha1Digest} `{HL1 : !Sha1Laws}
        `{HST : Serde TokenEntry} `{HSTL : !SerdeLaws TokenEntry}
        `{HSL : Serde LeaseEntry} `{HSO : Serde OldLeaseEntry} `{HH : Humantime} `{HJ : JsonParser}.
Abbreviation W := (World S Q C).
Context (route : handler_fn W) (stack : nat) (ts : TokenStore) (sv : t).
Implicit Types w : W.
Abbreviation sm w := (storage_map (w_store w)).

(** ** Revocation *)

(** C10: revoking a token tree terminates with a call stack deeper than the
    number of tokens, keeps the store well formed, and afterwards a lookup finds
    nothing for the token and every descendant, and for every other token what
    it found before. *)
Theorem revoke_tree_exact (w : W) (id : string) :
  configured ts sv → revokes_apart route sv → store_wf ts sv w → id ≠ "" →
  (size (token_ids sv (sm w)) < stack)%nat →
  ∃ w', TokenStore.revoke_tree route stack ts id w = (w', Ok tt) ∧ store_wf ts sv w' ∧
    ∀ id', id' ≠ "" →
      (desc ts sv (sm w) (salt_id ts id) (salt_id ts id') → TokenStore.lookup ts id' w' = (w', Ok None)) ∧
      (¬ desc ts sv (sm w) (salt_id ts id) (salt_id ts id') →
         TokenStore.lookup ts id' w' = (w', snd (TokenStore.lookup ts id' w))).
Proof.
  intros Hcfg Hroute Hw Hid Hsize. unfold TokenStore.revoke_tree. rewrite (is_empty_false _ Hid).
  destruct (revoke_tree_salted_run route ts sv Hcfg Hroute stack (salt_id ts id) w Hw (salt_digest ts id))
    as (w' & Hrun & ([Hw' Hev Hgone Honly] & _)).
  { destruct (wf_rank _ _ _ (wf_map _ _ _ Hw)) as [rank Hr]. exists rank. split; [done|].
    eapply Nat.le_lt_trans; [|exact Hsize]. apply subseteq_size. set_solver. }
  exists w'. split_and!; [done|done|]. intros id' Hid'.
  rewrite (lookup_run ts sv Hcfg w' _ Hw' Hid'), (lookup_run ts sv Hcfg w _ Hw Hid'). simpl. split; intros Hd.
  - by rewrite (Hgone _ _ eq_refl Hd).
  - destruct (evolves_token _ _ _ _ (salt_id ts id') Hev) as [->|[_ Hn]]; [done|].
    destruct (token_at sv (sm w) (salt_id ts id')) as [te|] eqn:Ht; [|by rewrite Hn].
    destruct (Honly _ _ Ht Hn) as (? & <- & Hd'). done.
Qed.

(** Creating a token under a fresh id, with an existing parent or none,
    succeeds, keeps the store well formed, makes the token and only it visible,
    with its durations cut to seconds, and links it below its parent. *)
Theorem create_lookup (w : W) (te : TokenEntry) :
  configured ts sv → store_wf ts sv w → te_id te ≠ "" → representable te →
  fresh ts sv (sm w) (salt_id ts (te_id te)) →
  (te_parent te ≠ "" → is_Some (token_at sv (sm w) (salt_id ts (te_parent te)))) →
  ∃ w', TokenStore.create ts te w = (w', Ok te) ∧ store_wf ts sv w' ∧
    TokenStore.lookup ts (te_id te) w' = (w', Ok (Some (normal te))) ∧
    (∀ id, id ≠ "" → salt_id ts id ≠ salt_id ts (te_id te) →
       TokenStore.lookup ts id w' = (w', snd (TokenStore.lookup ts id w))) ∧
    (te_parent te ≠ "" → desc ts sv (sm w') (salt_id ts (te_parent te)) (salt_id ts (te_id te))).
Proof.
  intros Hcfg Hw Hid Hrep Hfr Hpar.
  destruct (create_run ts sv Hcfg te w Hw Hid Hfr Hrep Hpar) as (w' & Hrun & Hw' & Hst).
  exists w'. split_and!; [done|done| | |].
  - rewrite (lookup_run ts sv Hcfg w' _ Hw' Hid), (stored_token _ _ _ _ _ _ _ Hst). by rewrite decide_True.
  - intros id Hid' Hne. rewrite (lookup_run ts sv Hcfg w' _ Hw' Hid'), (lookup_run ts sv Hcfg w _ Hw Hid').
    rewrite (stored_token _ _ _ _ _ _ _ Hst). by rewrite decide_False.
  - intros Hp. econstructor; [constructor|]. apply (stored_child _ _ _ _ _ _ _ _ Hst). by left.
Qed.

(** ** Uses *)

(** [check_token], [n] times in a row. *)
Fixpoint attempts (n : nat) (token : string) (w : W) : W * list (result (option Auth)) :=
  match n with
  | O => (w, [])
  | Datatypes.S n =>
      let '(w, r) := TokenStore.check_token route stack ts "" token w in
      let '(w, rs) := attempts n token w in (w, r :: rs)
  end.

(** The request is accepted with the token and policies of [te]. *)
Definition accepted (te : TokenEntry) (token : string) (r : result (option Auth)) : Prop :=
  ∃ a, r = Ok (Some a) ∧ auth_client_token a = token ∧
       policies a = PolicyUtils.sanitize_policies (te_policies te) false ∧ token_policies a = te_policies te.

Lemma check_token_none w token :
  configured ts sv → store_wf ts sv w → token ≠ "" → token_at sv (sm w) (salt_id ts token) = None →
  TokenStore.check_token route stack ts "" token w = (w, Err ErrPermissionDenied).
Proof.
  intros Hcfg Hw Hne Hn. unfold TokenStore.check_token. rewrite (is_empty_false _ Hne).
  rewrite (st_bind_run _ _ w w tt) by done.
  by rewrite (st_bind_run _ _ _ _ _ (lookup_run ts sv Hcfg w _ Hw Hne)), Hn.
Qed.

Lemma check_token_some w token te :
  configured ts sv → revokes_apart route sv → store_wf ts sv w → token ≠ "" →
  token_at sv (sm w) (salt_id ts token) = Some te →
  ∃ w' r, TokenStore.check_token route stack ts "" token w = (w', r) ∧ accepted te token r ∧ store_wf ts sv w' ∧
    others_same sv (sm w) (sm w') (salt_id ts token) ∧ apart sv w w' ∧
    token_at sv (sm w') (salt_id ts token)
      = (if Z.eqb (te_num_uses te) 0 then Some te
         else if Z.eqb (te_num_uses te) 1 then None
         else Some (te_set_num_uses (te_num_uses te - 1) te)).
Proof.
  intros Hcfg Hroute Hw Hne Ht. unfold TokenStore.check_token. rewrite (is_empty_false _ Hne).
  rewrite (st_bind_run _ _ w w tt) by done.
  rewrite (st_bind_run _ _ _ _ _ (lookup_run ts sv Hcfg w _ Hw Hne)), Ht.
  destruct (token_at_facts ts sv _ _ _ (wf_map _ _ _ Hw) Ht) as (_ & Hs & _ & _).
  rewrite <- Hs in Ht |- *.
  destruct (use_token_run route stack ts sv Hcfg Hroute te w Hw Ht)
    as (w' & te' & Hrun & Hw' & Hp & Hd & Hm & Hot & Hap & Hat).
  rewrite (st_bind_run _ _ _ _ _ Hrun). eexists _, _. split; [reflexivity|]. split_and!.
  - eexists. split; [reflexivity|]. simpl. by rewrite Hp.
  - by eapply store_wf_ext; [..|exact Hw'].
  - exact Hot.
  - destruct Hap. by split.
  - exact Hat.
Qed.

(** C12: a token limited to [n] uses is accepted exactly [n] times, with its own
    policies each time, and refused from then on; a token without a limit is
    accepted every time. *)
Theorem token_uses_counted (w : W) (token : string) (te : TokenEntry) (n m : nat) :
  configured ts sv → revokes_apart route sv → store_wf ts sv w → token ≠ "" →
  token_at sv (sm w) (salt_id ts token) = Some te →
  (te_num_uses te = Z.of_nat n → n ≠ 0%nat →
     ∃ rs, snd (attempts (n + m) token w) = (rs ++ replicate m (Err ErrPermissionDenied))%list ∧
           length rs = n ∧ Forall (accepted te token) rs) ∧
  (te_num_uses te = 0%Z → length (snd (attempts m token w)) = m ∧ Forall (accepted te token) (snd (attempts m token w))).
Proof.
  intros Hcfg Hroute Hw Hne Ht. split.
  - revert w te Hw Ht. induction n as [|n IH]; intros w te Hw Ht Hn Hnz; [done|]. simpl.
    destruct (check_token_some w token te) as (w' & r & -> & Hacc & Hw' & _ & _ & Hat); [done..|].
    rewrite (proj2 (Z.eqb_neq _ 0)) in Hat by lia. destruct (Z.eqb_spec (te_num_uses te) 1) as [H1'|H1'].
    + assert (n = 0%nat) as -> by lia. simpl. exists [r].
      assert (attempts m token w' = (w', replicate m (Err ErrPermissionDenied))) as ->; [|by split_and!; auto].
      clear IH. induction m as [|m IHm]; [done|]. simpl.
      by rewrite (check_token_none w' token), IHm.
    + destruct (IH w' _ Hw' Hat) as (rs & Hrs & Hlen & Hall); [simpl; lia|lia|].
      destruct (attempts (n + m) token w') as [w2 rs'] eqn:E. simpl in Hrs |- *. exists (r :: rs).
      split_and!; [by rewrite Hrs|simpl; lia|]. by constructor.
  - intros H0. revert w Hw Ht. induction m as [|m IH]; intros w Hw Ht; [by split; [|constructor]|]. simpl.
    destruct (check_token_some w token te) as (w' & r & -> & Hacc & Hw' & _ & _ & Hat); [done..|].
    rewrite H0 in Hat. simpl in Hat. destruct (IH w' Hw' Hat) as [Hlen Hall].
    destruct (attempts m token w') as [w2 rs']. simpl in *. split; [lia|]. by constructor.
Qed.

(** ** New tokens *)

(** What a parent may hand on to a new token. *)
Record may_create (parent entry : TokenEntry) (token : string) : Prop := {
  mc_unlimited : (te_num_uses parent <= 0)%Z;
  mc_policies : "root" ∈ te_policies parent ∨ te_policies entry ⊆ te_policies parent;
  mc_assignable p : p ∈ NON_ASSIGNABLE_POLICIES → p ∉ te_policies entry;
  mc_lineage : te_parent entry = token ∨ te_parent entry = "" ∧ "root" ∈ te_policies parent;
  mc_expiry : te_ttl entry = 0%Z → te_ttl parent = 0%Z
}.

Lemma first_non_assignable_None l :
  TokenStore.first_non_assignable l = None → ∀ p, p ∈ NON_ASSIGNABLE_POLICIES → p ∉ l.
Proof.
  induction l as [|q l IH]; cbn [TokenStore.first_non_assignable]; intros H p Hp Hin; [by apply not_elem_of_nil in Hin|].
  destruct (str_in q NON_ASSIGNABLE_POLICIES) eqn:E; [discriminate H|].
  apply elem_of_cons in Hin as [->|Hin]; [|exact (IH H p Hp Hin)].
  apply str_in_spec in Hp. congruence.
Qed.

Lemma child_policies_ok parent data l :
  TokenStore.child_policies parent data = Ok l →
  ("root" ∈ te_policies parent ∨ l ⊆ te_policies parent) ∧ ∀ p, p ∈ NON_ASSIGNABLE_POLICIES → p ∉ l.
Proof.
  unfold TokenStore.child_policies. set (pol := match trd_policies data with [] => _ | l => l end).
  destruct (str_in "root" (te_policies parent)) eqn:Er; simpl.
  - destruct (TokenStore.first_non_assignable pol) eqn:Ef; [done|]. rewrite andb_false_r. intros [= <-].
    split; [left; by apply str_in_spec|by apply first_non_assignable_None].
  - destruct (Misc.is_str_subset pol (te_policies parent)) eqn:Es; simpl; [|done].
    destruct (TokenStore.first_non_assignable pol) eqn:Ef; [done|].
    destruct (str_in "root" pol) eqn:Er'; simpl; [done|]. intros [= <-].
    split; [right; by apply is_str_subset_spec|by apply first_non_assignable_None].
Qed.

Lemma default_entry_store w w' te :
  TokenStore.default_entry w = (w', Ok te) → w_store w' = w_store w ∧ te_id te = generate_uuid (w_uuids w).
Proof. by intros [= <- <-]. Qed.

Lemma new_token_ttl_store data l t w w' z :
  TokenStore.new_token_ttl data l t w = (w', Ok z) → w_store w' = w_store w.
Proof.
  unfold TokenStore.new_token_ttl. intros H. inv_run. destruct (_ || _); inv_run; subst; [|done].
  unfold ExpirationManager.calc_ttl in *. inv_run. match goal with H : now _ = _ |- _ => by injection H as <- end.
Qed.

Lemma lookup_ok_world id w w' o : TokenStore.lookup ts id w = (w', Ok o) → w' = w.
Proof.
  unfold TokenStore.lookup, TokenStore.lookup_salted, TokenStore.get_view, view_get. intros H.
  destruct (is_empty id); inv_run. destruct (ts_view ts); inv_run.
  match goal with H : (_, _) = (_, Ok _) |- _ => injection H as -> _ end.
  match goal with H : match ?o with _ => _ end _ = _ |- _ => destruct o; by inv_run end.
Qed.

Lemma create_ok_entry te te' w w' :
  TokenStore.create ts te w = (w', Ok te') → te' = te ∨ te_id te = "" ∧ ∃ u, te' = te_set_id u te.
Proof.
  unfold TokenStore.create. intros H. inv_run.
  match goal with H : (if is_empty _ then _ else _) _ = _ |- _ => rename H into Hid end.
  destruct (is_empty (te_id te)) eqn:E; inv_run; subst; [|by left]. right.
  apply is_empty_spec in E. by eauto.
Qed.

Lemma or_root b l : b && negb (str_in "root" l) = false → b = false ∨ "root" ∈ l.
Proof. rewrite <- str_in_spec. destruct b, (str_in "root" l); auto. Qed.

(** C15: a successful [auth/token/create] stores exactly one entry, on behalf of
    a live token without a use limit: its policies are among the caller's
    unless the caller is root, it holds no non-assignable policy, it is the
    caller's child unless root asked for an orphan, its id is generated unless
    root chose it, and a token that never expires has a parent that never
    expires; the response carries this entry's id and policies. *)
Theorem handle_create_restricts (w w' : W) (req req' : Request) (resp : option Response) :
  TokenStore.handle_create ts (w, req) = ((w', req'), Ok resp) →
  ∃ parent entry w1 w2 entry' r a,
    snd (TokenStore.lookup ts (client_token req) w) = Ok (Some parent) ∧ may_create parent entry (client_token req) ∧
    (te_id entry = generate_uuid (w_uuids w) ∨ "root" ∈ te_policies parent) ∧
    w_store w1 = w_store w ∧ TokenStore.create ts entry w1 = (w2, Ok entry') ∧ w_store w' = w_store w2 ∧
    resp = Some r ∧ resp_auth r = Some a ∧ policies a = te_policies entry ∧ auth_client_token a = te_id entry'.
Proof.
  unfold TokenStore.handle_create. intros H. inv_run. destruct (body req) as [b|]; [|inv_run]. inv_run.
  destruct a as [parent|]; inv_run. pose proof (lookup_ok_world _ _ _ _ Hrun) as ->.
  match goal with H : TokenStore.create ts ?e _ = (_, Ok ?e') |- _ => rename H into Hcr; set (entry := e) in *; rename e' into entry' end.
  match goal with H : now _ = _ |- _ => injection H as <- <- end.
  match goal with H : st_ret _ _ = _ |- _ => injection H as <- <- <- end.
  match goal with H : TokenStore.default_entry _ = _ |- _ => apply default_entry_store in H as [Hs1 Hid] end.
  match goal with H : TokenStore.new_token_ttl _ _ _ _ = _ |- _ => apply new_token_ttl_store in H as Hs2 end.
  match goal with H : TokenStore.child_policies _ _ = _ |- _ => apply child_policies_ok in H as [Hsub Hass] end.
  repeat match goal with H : _ && negb (str_in "root" _) = false |- _ => apply or_root in H end.
  eexists parent, entry, _, _, entry', _, _.
  split_and!; [by rewrite Hrun| | |by etrans|exact Hcr|done|done|done| |done].
  - split; [lia|done|done| |].
    + simpl. destruct (trd_no_parent _); naive_solver.
    + simpl. intros Hz. match goal with H : _ && negb (te_ttl parent =? 0)%Z = false |- _ => rename H into Hx end.
      rewrite Hz in Hx. simpl in Hx. lia.
  - simpl. rewrite <- Hid. destruct (is_empty _); naive_solver.
  - destruct (create_ok_entry _ _ _ _ Hcr) as [->|(_ & u & ->)]; done.
Qed.

(** ** A token that is its own parent *)

Lemma revoke_tree_loops x w depth :
  configured ts sv → list_ (new_sub_view sv "token/") (w_store w) ("parent/" ++ x ++ "/") = Ok [x] →
  TokenStore.revoke_tree_salted route ts depth x w = (w, Panic).
Proof.
  intros Hcfg Hl. induction depth as [|depth IH]; [done|]. cbn [TokenStore.revoke_tree_salted].
  rewrite (st_bind_run _ _ _ _ _ (get_view_run ts sv Hcfg w)).
  change TOKEN_PARENT_PREFIX with "parent/". unfold st_bind at 1, view_list. rewrite Hl.
  unfold st_bind at 1. cbn [st_iter]. unfold st_bind at 1. by rewrite IH.
Qed.

(** A root token may choose its own id for a new child: the entry becomes
    its own parent, and revoking it recurses until the stack overflows, however
    deep the stack. *)
Theorem self_parent_revocation_overflows (w : W) (te te0 : TokenEntry) :
  configured ts sv → store_wf ts sv w → te_id te ≠ "" → te_parent te = te_id te → representable te →
  token_at sv (sm w) (salt_id ts (te_id te)) = Some te0 →
  (∀ y, ¬ child_of ts sv (sm w) (salt_id ts (te_id te)) y) →
  ∃ w', TokenStore.create ts te w = (w', Ok te) ∧
        ∀ depth, TokenStore.revoke_tree route depth ts (te_id te) w' = (w', Panic).
Proof.
  intros Hcfg Hw Hid Hpar Hrep Ht0 Hno. pose proof (salt_digest ts (te_id te)) as Hx. unfold TokenStore.create.
  rewrite (st_bind_run _ _ _ _ _ (get_view_run ts sv Hcfg w)), (is_empty_false _ Hid).
  rewrite (st_bind_run _ _ w w te) by done. cbv zeta. set (x := salt_id ts (te_id te)) in *.
  destruct (te_encode_decode te Hrep) as (b & Henc & _).
  rewrite (st_bind_run _ _ w w b) by (unfold st_lift; by rewrite Henc).
  destruct (create_index_run ts sv Hcfg te x w Hw Hx) as (w1 & Hr1 & Hc1 & Hh1 & Hd1 & Hm1).
  { intros _. rewrite Hpar. eauto. }
  rewrite (st_bind_run _ _ _ _ _ Hr1).
  destruct (view_put_run (new_sub_view sv "token/") (TokenStore.id_key x) b w1 Hc1 (sane_id_key x (proj1 Hx))
    (tv_keys_ok ts sv Hcfg)) as (s2 & Hr2 & Hc2 & Hm2 & Hd2). fold (idk sv x) in Hm2, Hd2.
  rewrite (st_bind_run _ _ _ _ _ Hr2). rewrite Hpar in Hm1. fold x in Hm1. rewrite decide_False in Hm1 by done.
  exists (set_store s2 w1). split; [done|]. intros depth. unfold TokenStore.revoke_tree.
  rewrite (is_empty_false _ Hid). fold x. apply revoke_tree_loops; [done|]. simpl w_store.
  assert (dirs_wf sv (storage_dirs s2)) as Hdw.
  { eapply dirs_wf_put; [exact Hd1|exact Hd2|]. left. exists x. split; [by apply digest_no_slash|done]. }
  destruct (children_list ts sv Hcfg s2 x Hc2 Hdw Hx) as (l & -> & Hnd & Hl).
  assert (∀ y, y ∈ l ↔ y = x) as Heq.
  { intros y. rewrite Hl, Hm2, Hm1, lookup_insert_ne by apply idk_pk. split.
    - intros [Hn Hs]. destruct (decide (y = x)) as [|Hne]; [done|].
      rewrite lookup_insert_ne in Hs by (intros He%pk_inj; [by destruct He|by apply digest_no_slash..]).
      by destruct (Hno y); apply (listed_children ts sv w x y Hw Hx).
    - intros ->. rewrite lookup_insert_eq. split; [by apply digest_no_slash|done]. }
  f_equal. apply Permutation_singleton_r, NoDup_Permutation; [done|by apply NoDup_singleton|].
  intros y. rewrite Heq. by rewrite list_elem_of_singleton.
Qed.

End theorems.

(** ** Witnesses *)

Section witnesses.
#[local] Existing Instance lower_hex.
#[local] Existing Instance toy_sha1.
#[local] Existing Instance toy_sha1_laws.
#[local] Existing Instance demo_storage.
#[local] Existing Instance demo_storage_spec.
#[local] Existing Instance lease_list.
#[local] Existing Instance demo_clock.
#[local] Existing Instance demo_uuid.
#[local] Existing Instance token_serde.
#[local] Existing Instance token_serde_laws.
#[local] Existing Instance blank_lease_serde.
#[local] Existing Instance no_old_lease_serde.
#[local] Existing Instance no_durations.
#[local] Existing Instance no_json.

Lemma demo_configured : configured (S := DemoStore) demo_ts demo_sys.
Proof. split_and!; try reflexivity; try apply demo_keys_ok. right. by exists "sys". Qed.

Lemma demo_route_apart : revokes_apart no_route demo_sys.
Proof.
  intros w req w' req' r _ Hc [= <- <- <-]. split; [done|]. by apply evolves_refl.
Qed.

Lemma demo_wf {HSL : Serde LeaseEntry} : store_wf demo_ts demo_sys demo_world.
Proof.
  apply store_wf_init.
  - exact demo_clean.
  - intros k _. reflexivity.
  - intros d _. by apply not_elem_of_nil.
Qed.

Definition demo_entry (id parent : string) (uses : Z) (pol : list string) : TokenEntry :=
  {| te_id := id; te_parent := parent; te_policies := pol; te_path := "auth/token/create"; te_meta := ∅;
     te_display_name := "token"; te_num_uses := uses; te_ttl := 60; te_creation_time := 0;
     te_period := 0; te_explicit_max_ttl := 0 |}.

Lemma demo_representable id parent uses pol :
  (0 <= uses < 2 ^ 32)%Z → representable (demo_entry id parent uses pol).
Proof. split; [done|]. vm_compute. intuition congruence. Qed.

(** A parentless token [t1], and its child [t2] limited to two uses. *)
Definition demo_one : DemoWorld := fst (TokenStore.create demo_ts (demo_entry "t1" "" 0 ["root"]) demo_world).
Definition demo_two : DemoWorld := fst (TokenStore.create demo_ts (demo_entry "t2" "t1" 2 ["dev"]) demo_one).

Lemma demo_no_child p y : ¬ child_of demo_ts demo_sys (storage_map (w_store demo_world)) p y.
Proof. intros (te & Ht & _). discriminate Ht. Qed.

Lemma demo_one_run {HSL : Serde LeaseEntry} :
  store_wf demo_ts demo_sys demo_one ∧
  stored demo_ts demo_sys (storage_map (w_store demo_world)) (storage_map (w_store demo_one))
    (salt_id demo_ts "t1") (demo_entry "t1" "" 0 ["root"]).
Proof.
  destruct (create_run demo_ts demo_sys demo_configured (demo_entry "t1" "" 0 ["root"]) demo_world demo_wf)
    as (w' & Hc & Hw & Hst); [discriminate| |by apply demo_representable|intros H; by destruct H|].
  - split; [reflexivity|]. intros y. apply demo_no_child.
  - unfold demo_one. rewrite Hc. by split.
Qed.

Lemma demo_two_run :
  store_wf demo_ts demo_sys demo_two ∧
  stored demo_ts demo_sys (storage_map (w_store demo_one)) (storage_map (w_store demo_two))
    (salt_id demo_ts "t2") (demo_entry "t2" "t1" 2 ["dev"]).
Proof.
  destruct demo_one_run as [Hw1 Hst1].
  destruct (create_run demo_ts demo_sys demo_configured (demo_entry "t2" "t1" 2 ["dev"]) demo_one Hw1)
    as (w' & Hc & Hw & Hst); [discriminate| |by apply demo_representable| |].
  - split; [|intros y].
    + rewrite (stored_token _ _ _ _ _ _ _ Hst1). reflexivity.
    + intros [(_ & H & _)|(_ & H)]%(stored_child _ _ _ _ _ _ _ _ Hst1); [by apply H|by apply demo_no_child in H].
  - intros _. rewrite (stored_token _ _ _ _ _ _ _ Hst1). eexists. reflexivity.
  - unfold demo_two. rewrite Hc. by split.
Qed.

Lemma revoke_tree_exact_witness :
  ∃ w', TokenStore.revoke_tree no_route 9 demo_ts "t1" demo_two = (w', Ok tt) ∧
        TokenStore.lookup demo_ts "t2" w' = (w', Ok None).
Proof.
  destruct demo_two_run as [Hw Hst].
  destruct (revoke_tree_exact no_route 9 demo_ts demo_sys demo_two "t1" demo_configured demo_route_apart Hw)
    as (w' & Hr & _ & Hl); [discriminate|vm_compute; lia|].
  exists w'. split; [exact Hr|]. apply Hl; [discriminate|]. econstructor; [constructor|].
  apply (stored_child _ _ _ _ _ _ _ _ Hst). left. split; [reflexivity|]. split; [discriminate|reflexivity].
Defined.

Lemma token_uses_counted_witness :
  ∃ rs, snd (attempts no_route 9 demo_ts 3 "t2" demo_two) = (rs ++ [Err ErrPermissionDenied])%list ∧
        length rs = 2.
Proof.
  destruct demo_two_run as [Hw Hst].
  destruct (token_uses_counted no_route 9 demo_ts demo_sys demo_two "t2" (demo_entry "t2" "t1" 2 ["dev"]) 2 1
              demo_configured demo_route_apart Hw) as [H _]; [discriminate| |].
  - rewrite (stored_token _ _ _ _ _ _ _ Hst). reflexivity.
  - destruct H as (rs & Hrs & Hlen & _); [reflexivity|discriminate|]. exists rs. split; [exact Hrs|exact Hlen].
Defined.

Lemma self_parent_revocation_overflows_witness :
  ∃ w', TokenStore.create demo_ts (demo_entry "t1" "t1" 0 ["root"]) demo_one
        = (w', Ok (demo_entry "t1" "t1" 0 ["root"])) ∧
        TokenStore.revoke_tree no_route 100 demo_ts "t1" w' = (w', Panic).
Proof.
  destruct demo_one_run as [Hw1 Hst1].
  destruct (self_parent_revocation_overflows no_route demo_ts demo_sys demo_one (demo_entry "t1" "t1" 0 ["root"])
              (demo_entry "t1" "" 0 ["root"]) demo_configured Hw1) as (w' & Hc & Hr);
    [discriminate|reflexivity|by apply demo_representable| | |].
  - rewrite (stored_token _ _ _ _ _ _ _ Hst1). reflexivity.
  - intros y [(_ & H & _)|(_ & H)]%(stored_child _ _ _ _ _ _ _ _ Hst1); [by apply H|by apply demo_no_child in H].
  - exists w'. split; [exact Hc|apply Hr].
Defined.

(** [t1] asks for a child through the handler. *)
Definition demo_create_request : Request :=
  let r := RequestOps.new "auth/token/create" in
  set_body (Some {["policies" := VArray [VStr "dev"]]}) (set_client_token "t1" r).

Definition demo_created : (DemoWorld * Request) * result (option Response) :=
  TokenStore.handle_create demo_ts (demo_one, demo_create_request).

Lemma handle_create_restricts_witness :
  ∃ parent entry, snd (TokenStore.lookup demo_ts "t1" demo_one) = Ok (Some parent) ∧
                  may_create parent entry "t1".
Proof.
  destruct demo_created as [[w' req'] r] eqn:E. destruct r as [resp| |].
  - destruct (handle_create_restricts demo_ts demo_one w' demo_create_request req' resp E)
      as (parent & entry & _ & _ & _ & _ & _ & Hp & Hm & _).
    exists parent, entry. split; [exact Hp|exact Hm].
  - exfalso. apply (f_equal snd) in E. revert E. vm_compute. discriminate.
  - exfalso. apply (f_equal snd) in E. revert E. vm_compute. discriminate.
Defined.

Lemma create_lookup_witness :
  TokenStore.lookup demo_ts "t1" demo_one = (demo_one, Ok (Some (demo_entry "t1" "" 0 ["root"]))).
Proof.
  destruct (create_lookup demo_ts demo_sys demo_world (demo_entry "t1" "" 0 ["root"]) demo_configured demo_wf)
    as (w' & Hc & _ & Hl & _); [discriminate|by apply demo_representable| |intros H; by destruct H|].
  - split; [reflexivity|]. intros y (te & Ht & _). discriminate Ht.
  - unfold demo_one. rewrite Hc. exact Hl.
Defined.
End witnesses.
