(* ===== verification/TokenSpec.v ===== *)
(** * The token store as a forest of tokens

    An abstract specification of src/src/modules/auth/token_store.rs: a map
    from salted ids to token entries, in which parents make a forest.
    Creating, looking up, checking and revoking tokens, in any order, are
    transitions of it; [token_store_refines] shows that the store over the
    barrier, with its two indices and its leases, implements them. *)

From stdpp Require Import base tactics list gmap strings.
From Stdlib Require Import ZArith Lia Ascii.
From S2P Require Import Prelude Errors RustStr Utils Lease Storage BarrierView Logical LogicalBackend Policy Mount World WorldLaws TokenStore WorldDemo TokenCorrect TokenProps BarrierCorrect MountCorrect.
Import BarrierView.

Local Open Scope string_scope.

(** The entries by salted id. *)
Abbreviation forest := (gmap string TokenEntry).

(** The requests a caller can make, and the answers. *)
Inductive token_op :=
  | OCreate (te : TokenEntry)
  | OLookup (id : string)
  | OCheck (token : string)
  | ORevoke (id : string).

Inductive token_answer :=
  | ACreated (r : result TokenEntry)
  | AFound (r : result (option TokenEntry))
  | AAuth (r : result (option Auth))
  | ARevoked (r : result unit).

Section spec.
Context {S Q C : Type} `{HSt : Storage S} `{HSS : !StorageSpec S} `{HQ : LeaseQueue Q} `{HCl : Clock}
        `{HU : UuidGen} `{HX : HexCodec} `{H1 : Sha1Digest} `{HL1 : !Sha1Laws}
        `{HST : Serde TokenEntry} `{HSTL : !SerdeLaws TokenEntry}
        `{HSL : Serde LeaseEntry} `{HSO : Serde OldLeaseEntry} `{HH : Humantime} `{HJ : JsonParser}.
Abbreviation W := (World S Q C).
Context (route : handler_fn W) (stack : nat) (ts : TokenStore) (sv : t).
Implicit Types w : W.
Implicit Types f : forest.
Abbreviation sm w := (storage_map (w_store w)).

(** ** The specification *)

Definition forest_child f (p x : string) : Prop :=
  ∃ te, f !! x = Some te ∧ te_parent te ≠ "" ∧ salt_id ts (te_parent te) = p.

(** [y] is [x] or below it. *)
Inductive forest_below f (x : string) : string -> Prop :=
  | below_refl : forest_below f x x
  | below_step z y : forest_below f x z -> forest_child f z y -> forest_below f x y.

(** What a use makes of a token. *)
Definition used (te : TokenEntry) : option TokenEntry :=
  if Z.eqb (te_num_uses te) 0 then Some te
  else if Z.eqb (te_num_uses te) 1 then None
  else Some (te_set_num_uses (te_num_uses te - 1) te).

Definition set_token (x : string) (o : option TokenEntry) f : forest :=
  match o with Some te => <[x := te]> f | None => base.delete x f end.

Inductive spec_step f : token_op -> token_answer -> forest -> Prop :=
  | spec_create te :
      spec_step f (OCreate te) (ACreated (Ok te)) (<[salt_id ts (te_id te) := normal te]> f)
  | spec_lookup id : spec_step f (OLookup id) (AFound (Ok (f !! salt_id ts id))) f
  | spec_refused token :
      f !! salt_id ts token = None ->
      spec_step f (OCheck token) (AAuth (Err ErrPermissionDenied)) f
  | spec_accepted token te r :
      f !! salt_id ts token = Some te -> accepted te token r ->
      spec_step f (OCheck token) (AAuth r) (set_token (salt_id ts token) (used te) f)
  | spec_revoke id f' :
      (∀ y, forest_below f (salt_id ts id) y -> f' !! y = None) ->
      (∀ y, ¬ forest_below f (salt_id ts id) y -> f' !! y = f !! y) ->
      spec_step f (ORevoke id) (ARevoked (Ok tt)) f'.

(** What the caller has to respect: ids are not empty, a new token has a fresh
    id and a live parent, if any, and the call stack is deeper than the forest
    is large. *)
Definition allowed f (o : token_op) : Prop :=
  match o with
  | OCreate te =>
      te_id te ≠ "" ∧ representable te ∧ f !! salt_id ts (te_id te) = None ∧
      (∀ y, ¬ forest_child f (salt_id ts (te_id te)) y) ∧
      (te_parent te ≠ "" → is_Some (f !! salt_id ts (te_parent te)))
  | OLookup id => id ≠ ""
  | OCheck token => token ≠ ""
  | ORevoke id => id ≠ "" ∧ (size f < stack)%nat
  end.

(** Histories of the specification. *)
Inductive spec_run : forest -> list token_op -> list token_answer -> forest -> Prop :=
  | spec_nil f : spec_run f [] [] f
  | spec_cons f o a f1 os l f2 :
      spec_step f o a f1 -> spec_run f1 os l f2 -> spec_run f (o :: os) (a :: l) f2.

Fixpoint allowed_all f (os : list token_op) : Prop :=
  match os with
  | [] => True
  | o :: os => allowed f o ∧ ∀ a f', spec_step f o a f' → allowed_all f' os
  end.

(** ** The implementation *)
Definition run_op (o : token_op) w : W * token_answer :=
  match o with
  | OCreate te => let '(w, r) := TokenStore.create ts te w in (w, ACreated r)
  | OLookup id => let '(w, r) := TokenStore.lookup ts id w in (w, AFound r)
  | OCheck token => let '(w, r) := TokenStore.check_token route stack ts "" token w in (w, AAuth r)
  | ORevoke id => let '(w, r) := TokenStore.revoke_tree route stack ts id w in (w, ARevoked r)
  end.

Fixpoint run_ops (os : list token_op) w : W * list token_answer :=
  match os with
  | [] => (w, [])
  | o :: os => let '(w, a) := run_op o w in let '(w, l) := run_ops os w in (w, a :: l)
  end.

(** ** The refinement *)
Record refines f w : Prop := {
  ref_wf : store_wf ts sv w;
  ref_tokens x : token_at sv (sm w) x = f !! x
}.

Context (Hcfg : configured ts sv) (Hroute : revokes_apart route sv).

Lemma refines_child f w p x : refines f w → child_of ts sv (sm w) p x ↔ forest_child f p x.
Proof. intros [_ Ht]. unfold child_of, forest_child. by rewrite Ht. Qed.

Lemma refines_below f w x y : refines f w → desc ts sv (sm w) x y ↔ forest_below f x y.
Proof.
  intros Hr. split.
  - induction 1 as [|z y _ IH Hch]; [constructor|]. econstructor; [done|]. by eapply refines_child in Hch.
  - induction 1 as [|z y _ IH Hch]; [constructor|]. econstructor; [done|]. by eapply refines_child.
Qed.

Lemma refines_size f w : refines f w → (size (token_ids sv (sm w)) ≤ size f)%nat.
Proof.
  intros [Hw Ht]. rewrite <- (size_dom f (D := gset string)). apply subseteq_size. intros x Hx.
  apply elem_of_token_ids in Hx as [b Hb]. apply elem_of_dom. rewrite <- Ht. unfold token_at.
  destruct (wf_tokens _ _ _ (wf_map _ _ _ Hw) x b Hb) as (te & Hde & _). rewrite Hb. simpl. eauto.
Qed.

Lemma set_token_lookup x o f y : set_token x o f !! y = if decide (y = x) then o else f !! y.
Proof.
  unfold set_token. destruct (decide (y = x)) as [->|Hne]; destruct o.
  - apply lookup_insert_eq.
  - apply lookup_delete_eq.
  - by apply lookup_insert_ne.
  - by apply lookup_delete_ne.
Qed.

(** *** One operation at a time *)
Lemma create_refines f w te :
  refines f w → allowed f (OCreate te) →
  ∃ w', TokenStore.create ts te w = (w', Ok te) ∧ refines (<[salt_id ts (te_id te) := normal te]> f) w'.
Proof.
  intros Hr (Hid & Hrep & Hnew & Hno & Hpar). destruct (create_run ts sv Hcfg te w (ref_wf _ _ Hr) Hid)
    as (w' & Hrun & Hw' & Hst); [|done| |].
  - split; [by rewrite (ref_tokens _ _ Hr)|]. intros y Hc. apply (Hno y). by eapply refines_child.
  - rewrite (ref_tokens _ _ Hr). done.
  - exists w'. split; [done|]. split; [done|]. intros x.
    rewrite (stored_token _ _ _ _ _ _ _ Hst), (ref_tokens _ _ Hr).
    destruct (decide (x = _)) as [->|Hne]; [by rewrite lookup_insert_eq|by rewrite lookup_insert_ne].
Qed.

Lemma check_refines f w token :
  refines f w → token ≠ "" →
  ∃ w' a f', run_op (OCheck token) w = (w', a) ∧ spec_step f (OCheck token) a f' ∧ refines f' w'.
Proof.
  intros Hr Hne. pose proof (ref_tokens _ _ Hr (salt_id ts token)) as Ht. simpl.
  destruct (f !! salt_id ts token) as [te|] eqn:Hf.
  - destruct (check_token_some route stack ts sv w token te) as (w' & r & -> & Hacc & Hw' & Hot & _ & Hat);
      [done|done|apply Hr|done|done|].
    eexists w', _, _. split; [done|]. split; [by eapply spec_accepted|]. split; [done|]. intros x.
    rewrite set_token_lookup. destruct (decide (x = _)) as [->|Hx]; [done|]. by rewrite Hot, (ref_tokens _ _ Hr).
  - rewrite (check_token_none route stack ts sv w token); [|done|apply Hr|done|done].
    eexists w, _, f. split; [done|]. split; [by apply spec_refused|done].
Qed.

Lemma revoke_refines f w id :
  refines f w → id ≠ "" → (size f < stack)%nat →
  ∃ w' f', TokenStore.revoke_tree route stack ts id w = (w', Ok tt) ∧
           spec_step f (ORevoke id) (ARevoked (Ok tt)) f' ∧ refines f' w'.
Proof.
  intros Hr Hid Hsize. unfold TokenStore.revoke_tree. rewrite (is_empty_false _ Hid).
  pose proof (ref_wf _ _ Hr) as Hw.
  destruct (revoke_tree_salted_run route ts sv Hcfg Hroute stack (salt_id ts id) w Hw (salt_digest ts id))
    as (w' & Hrun & ([Hw' Hev Hgone Honly] & _)).
  { destruct (wf_rank _ _ _ (wf_map _ _ _ Hw)) as [rank Hrk]. exists rank. split; [done|].
    pose proof (refines_size _ _ Hr). apply (Nat.le_lt_trans _ (size (token_ids sv (sm w)))); [apply subseteq_size; set_solver|lia]. }
  assert (∀ y, ¬ desc ts sv (sm w) (salt_id ts id) y → token_at sv (sm w') y = token_at sv (sm w) y) as Hkeep.
  { intros y Hd. destruct (evolves_token _ _ _ _ y Hev) as [|[_ Hn]]; [done|].
    destruct (token_at sv (sm w) y) as [te|] eqn:Ht; [|done].
    destruct (Honly _ _ Ht Hn) as (? & <- & ?). done. }
  exists w', (map_imap (λ y te, token_at sv (sm w') y) f). split; [done|].
  assert (∀ x, token_at sv (sm w') x = map_imap (λ y te, token_at sv (sm w') y) f !! x) as Hx.
  { intros x. rewrite map_lookup_imap. pose proof (ref_tokens _ _ Hr x) as Ht.
    destruct (f !! x); simpl; [done|]. destruct (evolves_token _ _ _ _ x Hev) as [->|[_ ->]]; done. }
  split; [|by split]. constructor; intros y Hy.
  - rewrite <- Hx. eapply Hgone; [done|]. by eapply refines_below.
  - rewrite <- Hx, Hkeep; [apply (ref_tokens _ _ Hr)|]. by rewrite (refines_below f w).
Qed.

Lemma op_refines f w o :
  refines f w → allowed f o →
  ∃ w' a f', run_op o w = (w', a) ∧ spec_step f o a f' ∧ refines f' w'.
Proof.
  intros Hr Ha. destruct o as [te|id|token|id].
  - destruct (create_refines f w te Hr Ha) as (w' & Hrun & Hr'). simpl. rewrite Hrun.
    eexists w', _, _. split; [done|]. split; [constructor|done].
  - simpl. rewrite (lookup_run ts sv Hcfg w id (ref_wf _ _ Hr) Ha), (ref_tokens _ _ Hr).
    eexists w, _, f. split; [done|]. split; [constructor|done].
  - by apply check_refines.
  - destruct Ha as [Hid Hs]. destruct (revoke_refines f w id Hr Hid Hs) as (w' & f' & Hrun & Hspec & Hr').
    simpl. rewrite Hrun. by eexists w', _, f'.
Qed.

(** C11: the token store implements the forest of tokens.  From a store that
    holds the tokens of a forest, any sequence of creations, lookups, checks and
    revocations that respects the rules for callers runs to the end, without
    error or panic of its own, gives exactly the answers of a history of the
    specification (a created token is found until it is revoked, with an
    ancestor or by itself, or used up; a token with uses left is accepted with
    its policies and anything else refused), and ends in a store that holds the
    tokens of the specification's forest. *)
Theorem token_store_refines (os : list token_op) (f : forest) (w : W) :
  refines f w → allowed_all f os →
  ∃ w' l f', run_ops os w = (w', l) ∧ spec_run f os l f' ∧ refines f' w'.
Proof.
  revert f w. induction os as [|o os IH]; intros f w Hr Ha.
  - exists w, [], f. split; [done|]. split; [constructor|done].
  - destruct Ha as [Ho Hos]. destruct (op_refines f w o Hr Ho) as (w1 & a & f1 & Hrun & Hspec & Hr1).
    destruct (IH f1 w1 Hr1 (Hos a f1 Hspec)) as (w2 & l & f2 & Hruns & Hspecs & Hr2).
    exists w2, (a :: l), f2. simpl. rewrite Hrun, Hruns. split; [done|]. split; [by econstructor|done].
Qed.

End spec.

(** *** Witness: a parent and its child, used and revoked *)
Section witnesses.
#[local] Existing Instance lower_hex.
#[local] Existing Instance toy_sha1.
#[local] Existing Instance toy_sha1_laws.
#[local] Existing Instance demo_storage.
#[local] Existing Instance demo_storage_spec.
#[local] Existing Instance lease_list.
#[local] Existing Instance demo_clock.
#[local] Existing Instance demo_uuid.
#[local] Existing Instance token_serde.
#[local] Existing Instance token_serde_laws.
#[local] Existing Instance blank_lease_serde.
#[local] Existing Instance no_old_lease_serde.
#[local] Existing Instance no_durations.
#[local] Existing Instance no_json.

Definition family : list token_op :=
  [OCreate (demo_entry "t1" "" 0 ["root"]); OCreate (demo_entry "t2" "t1" 2 ["dev"]); OCheck "t2";
   ORevoke "t1"; OLookup "t2"].

Lemma no_tokens : refines demo_ts demo_sys ∅ demo_world.
Proof. split; [exact demo_wf|]. intros x. reflexivity. Qed.

Lemma set_token_size x o (f : forest) : (size (set_token x o f) ≤ Datatypes.S (size f))%nat.
Proof.
  unfold set_token. destruct o.
  - rewrite map_size_insert. destruct (f !! x); simpl; lia.
  - rewrite map_size_delete. destruct (f !! x); simpl; lia.
Qed.

Lemma family_allowed : allowed_all 9 demo_ts ∅ family.
Proof.
  split.
  { split_and!; [done|by apply demo_representable|apply lookup_empty|intros y (te & Hte & _); by rewrite lookup_empty in Hte|done]. }
  intros a1 f1 Hs1. inversion Hs1; subst. split.
  { split_and!; [done|by apply demo_representable| | |].
    - rewrite lookup_insert_ne; [apply lookup_empty|]. vm_compute. discriminate.
    - intros y (te & Hte & Hp & _). apply lookup_insert_Some in Hte as [[_ <-]|[_ Hte]]; [done|].
      by rewrite lookup_empty in Hte.
    - intros _. rewrite lookup_insert_eq. eauto. }
  intros a2 f2 Hs2. inversion Hs2; subst. split; [done|].
  intros a3 f3 Hs3. split.
  { split; [done|]. set (f2 := <[salt_id demo_ts _ := _]> _) in Hs3.
    assert (size f2 ≤ 2)%nat as Hle.
    { etransitivity; [apply (set_token_size _ (Some _))|]. apply le_n_S.
      etransitivity; [apply (set_token_size _ (Some _))|]. by rewrite map_size_empty. }
    inversion Hs3; subst; [lia|]. pose proof (set_token_size (salt_id demo_ts "t2") (used te) f2). lia. }
  intros a4 f4 _. split; [done|]. done.
Qed.

Lemma token_store_refines_witness :
  ∃ w' l, run_ops no_route 9 demo_ts family demo_world = (w', l) ∧
          last l = Some (AFound (Ok None)) ∧ ∃ f, refines demo_ts demo_sys f w'.
Proof.
  destruct (token_store_refines no_route 9 demo_ts demo_sys demo_configured demo_route_apart family ∅ demo_world)
    as (w' & l & f & Hrun & _ & Hr).
  - exact no_tokens.
  - exact family_allowed.
  - exists w', l. split; [exact Hrun|]. split; [|exists f; exact Hr].
    assert (l = snd (run_ops no_route 9 demo_ts family demo_world)) as -> by (by rewrite Hrun).
    vm_compute. reflexivity.
Defined.
End witnesses.
