(* ===== verification/Expiration.v ===== *)
(** * The thread that revokes expired leases

    Theorems about [start_check_expired_lease_entries] of
    src/src/modules/auth/expiration.rs, one tick of whose loop is
    [ExpirationManager.check_expired_lease_entries]: what a tick does while no
    secret is leased to a token, and that it blocks for good on the first
    expired token that has one. *)

From stdpp Require Import base tactics list gmap strings.
From Stdlib Require Import ZArith Lia Ascii.
From S2P Require Import Prelude Errors RustStr Utils Lease Storage BarrierView Logical LogicalBackend Policy Mount World WorldLaws TokenStore WorldDemo TokenCorrect TokenProps BarrierCorrect MountCorrect.
Import BarrierView.

Local Open Scope string_scope.

Section expiration.
Context {S Q C : Type} `{HSt : Storage S} `{HSS : !StorageSpec S} `{HQ : LeaseQueue Q} `{HQL : !LeaseQueueLaws Q}
        `{HCl : Clock} `{HU : UuidGen} `{HX : HexCodec} `{H1 : Sha1Digest} `{HL1 : !Sha1Laws}
        `{HST : Serde TokenEntry} `{HSTL : !SerdeLaws TokenEntry}
        `{HSL : Serde LeaseEntry} `{HSO : Serde OldLeaseEntry} `{HH : Humantime} `{HJ : JsonParser}.
Abbreviation W := (World S Q C).
Context (route : handler_fn W) (stack : nat) (ts : TokenStore) (sv : t).
Implicit Types w : W.
Abbreviation sm w := (storage_map (w_store w)).
Abbreviation items w := (q_items (w_queue w)).
Abbreviation revoke_expired := (ExpirationManager.revoke_lease_id route ts (TokenStore.revoke_tree route stack ts)).
Abbreviation expire_loop := (ExpirationManager.expire_loop route ts (TokenStore.revoke_tree route stack ts)).
Abbreviation check_expired :=
  (ExpirationManager.check_expired_lease_entries route ts (TokenStore.revoke_tree route stack ts)).

(** The [i]-th reading of the clock, in milliseconds. *)
Definition millis_at (i : nat) : Z :=
  match since_epoch (clock_at i) with Some d => ExpirationManager.as_millis d | None => 0%Z end.

(** The lease id of an entry of the queue. *)
Definition key_id (k : string * string * string) : string := k.1.1.

(** A lease that can be revoked: its record is readable, and names a token if
    it is the lease of one. *)
Definition expirable (m : gmap string bytes) (l : string) : Prop :=
  readable sv m l ∧ ∀ le a, lease_at sv m l = Some le → le_auth le = Some a → auth_client_token a ≠ "".

(** The token, by its salted id, whose lease is [l]. *)
Definition leased (m : gmap string bytes) (l x : string) : Prop :=
  ∃ le a, lease_at sv m l = Some le ∧ le_auth le = Some a ∧ x = salt_id ts (auth_client_token a).

(** No secret is leased to a token. *)
Definition no_secrets w : Prop :=
  ∀ t l, digest t → no_slash l → sm w !! ik sv t l = None.

Context (Hcfg : configured ts sv) (Hroute : revokes_apart route sv).

(** ** Frames *)

Lemma lk_inj l l' : lk sv l = lk sv l' → l = l'.
Proof. unfold lk, expand_key. apply app_inj_l. Qed.

Lemma evolves_lease D w w' l le :
  evolves sv D w w' → lease_at sv (sm w') l = Some le → lease_at sv (sm w) l = Some le.
Proof.
  intros He. unfold lease_at. destruct (ev_keys _ _ _ _ He (lk sv l) (sys_IV sv l)) as [->|[_ ->]]; [done|done].
Qed.

Lemma expirable_evolves D w w' l : evolves sv D w w' → expirable (sm w) l → expirable (sm w') l.
Proof.
  intros He [[Hs Hr] Ha]. split; [split; [done|]|].
  - intros b Hb. apply Hr. eapply evolves_sub; [done|apply sys_IV|done].
  - intros le a Hle. apply Ha. by eapply evolves_lease.
Qed.

Lemma token_ids_evolves D w w' :
  evolves sv D w w' → (size (token_ids sv (sm w')) ≤ size (token_ids sv (sm w)))%nat.
Proof.
  intros He. apply subseteq_size. intros x [b Hb]%elem_of_token_ids. apply elem_of_token_ids. exists b.
  eapply evolves_sub; [done|apply sys_TV|done].
Qed.

(** The queue is not part of the store. *)
Lemma cut_requeue X q w w' : cut ts sv X w w' → cut ts sv X (set_queue q w) (set_queue q w').
Proof.
  intros [Hw He Hg Ho]. split; [|split; [apply He..|done|apply He|apply He|apply He|apply He]|exact Hg|exact Ho]. by eapply store_wf_ext; [| |exact Hw].
Qed.

Lemma set_queue_id w : set_queue (w_queue w) w = w.
Proof. by destruct w. Qed.

Lemma cut_own l X w w1 w2 :
  cut ts sv X w w1 → evolves sv (own_keys sv l) w1 w2 → cut ts sv X w w2.
Proof.
  intros Hcut He. assert (evolves sv (lease_keys sv) w1 w2) as He'.
  { eapply evolves_weaken; [|exact He]. intros k [->|?]; [left; by exists l|by right]. }
  assert (∀ y, token_at sv (sm w2) y = token_at sv (sm w1) y) as Hsame.
  { intros y. destruct (evolves_token _ _ _ _ y He') as [|[Hk _]]; [done|]. by apply (lease_keys_token _ _ y) in Hk. }
  destruct Hcut as [Hw1 E1 Hg Ho]. split.
  - by eapply evolves_leases_wf.
  - eapply evolves_weaken; [|exact (evolves_trans _ _ _ _ _ _ E1 He')]. simpl. tauto.
  - intros x y. rewrite Hsame. apply Hg.
  - intros y te. rewrite Hsame. apply Ho.
Qed.

(** ** One lease *)

Record revoked (l : string) w w' : Prop := {
  rv_cut : cut ts sv (leased (sm w) l) w w';
  rv_gone : sm w' !! lk sv l = None;
  rv_others l' : l' ≠ l → sm w' !! lk sv l' = sm w !! lk sv l'
}.

Lemma revoke_entry_run le w :
  store_wf ts sv w → w_queue_held w = true → (size (token_ids sv (sm w)) < stack)%nat →
  (∀ a, le_auth le = Some a → auth_client_token a ≠ "") →
  ∃ w', ExpirationManager.revoke_lease_entry route ts (TokenStore.revoke_tree route stack ts) le w = (w', Ok tt) ∧
    cut ts sv (λ x, ∃ a, le_auth le = Some a ∧ x = salt_id ts (auth_client_token a)) w w' ∧ leases_kept sv w w'.
Proof.
  intros Hw Hh Hsize Ha. destruct (le_auth le) as [a|] eqn:Hle.
  - unfold ExpirationManager.revoke_lease_entry. rewrite (st_bind_run _ _ _ _ _ (upgrade_run ts sv Hcfg w)), Hle.
    unfold TokenStore.revoke_tree. rewrite (is_empty_false _ (Ha a eq_refl)).
    destruct (revoke_tree_salted_run route ts sv Hcfg Hroute stack (salt_id ts (auth_client_token a)) w Hw
      (salt_digest ts _)) as (w' & Hrun & Hcut & Hkept).
    { destruct (wf_rank _ _ _ (wf_map _ _ _ Hw)) as [rank Hr]. exists rank. split; [done|].
      eapply Nat.le_lt_trans; [|exact Hsize]. apply subseteq_size. set_solver. }
    exists w'. split_and!; [done| |done]. eapply cut_iff; [|exact Hcut].
    intros x. split; [intros <-; by exists a|by intros (? & [= <-] & ->)].
  - destruct (revoke_lease_entry_run route ts sv Hcfg Hroute (TokenStore.revoke_tree route stack ts) le w (wf_clean _ _ _ Hw) Hle) as (w' & Hrun & He).
    exists w'. split; [done|]. split.
    + assert (∀ y, token_at sv (sm w') y = token_at sv (sm w) y) as Hsame.
      { intros y. by destruct (evolves_token _ _ _ _ y He) as [|[[] _]]. }
      split; [|by eapply evolves_weaken; [|exact He]|by intros ? ? (? & ? & _)|intros y te Hy; rewrite Hsame; congruence].
      eapply evolves_leases_wf; [done|]. by eapply evolves_weaken; [|exact He].
    + intros _ l. by destruct (ev_keys _ _ _ _ He (lk sv l) (sys_IV sv l)) as [|[[] _]].
Qed.

Lemma revoke_expired_run l w :
  store_wf ts sv w → w_queue_held w = true → expirable (sm w) l → (size (token_ids sv (sm w)) < stack)%nat →
  ∃ w', revoke_expired l false w = (w', Ok tt) ∧ revoked l w w'.
Proof.
  intros Hw Hh [Hr Ha] Hsize. destruct (lease_at sv (sm w) l) as [le|] eqn:Hle.
  - destruct (revoke_entry_run le w Hw Hh Hsize (λ a, Ha le a eq_refl)) as (w1 & Hr1 & C1 & L1).
    destruct (revoke_lease_id_step route ts sv Hcfg (TokenStore.revoke_tree route stack ts) l le false _ w w1 (wf_clean _ _ _ Hw) Hr Hle Hr1
      (cut_ev _ _ _ _ _ C1)) as (w2 & Hr2 & E2 & Hn).
    exists w2. split; [exact Hr2|]. split; [|done|].
    + eapply cut_own; [|exact E2]. eapply cut_iff; [|exact C1]. intros x. unfold leased. rewrite Hle. naive_solver.
    + intros l' Hl. rewrite <- (L1 Hh). destruct (ev_keys _ _ _ _ E2 (lk sv l') (sys_IV sv l')) as [|[[Hk|Hk] _]]; [done|..].
      * by apply lk_inj in Hk.
      * destruct Hk as (t & i & _ & Hk). by apply lk_TV in Hk.
  - exists w. split; [by apply (revoke_lease_id_gone route ts sv Hcfg); [apply Hw|..]|].
    split; [|by apply readable_none|done].
    split; [done|apply evolves_refl, Hw| |intros y te; congruence].
    intros x y (le & a & Hl & _). unfold leased in Hl. congruence.
Qed.

(** ** A sweep of the queue *)

(** The entry [k], with deadline [p], left the queue. *)
Definition removed w w' (k : string * string * string) (p : Z) : Prop :=
  items w !! k = Some p ∧ items w' !! k = None.

(** The tokens whose leases left the queue; a deadline of 0 marks a lease that
    does not expire or is already revoked. *)
Definition roots w w' (x : string) : Prop :=
  ∃ k p, removed w w' k p ∧ p ≠ 0%Z ∧ leased (sm w) (key_id k) x.

Record swept w w' : Prop := {
  sw_cut : cut ts sv (roots w w') w (set_queue (w_queue w) w');
  sw_queue : items w' ⊆ items w;
  sw_left : ∃ i, (w_ticks w <= i < w_ticks w')%nat ∧ ∀ k p, items w' !! k = Some p → (millis_at i <= p)%Z;
  sw_due k p : removed w w' k p → ∃ i, (w_ticks w <= i < w_ticks w')%nat ∧ (p <= millis_at i)%Z;
  sw_gone k p : removed w w' k p → p ≠ 0%Z → sm w' !! lk sv (key_id k) = None;
  sw_kept l : (∀ k p, removed w w' k p → p ≠ 0%Z → key_id k ≠ l) → sm w' !! lk sv l = sm w !! lk sv l
}.

Abbreviation tick w := (fst (now w)).

Lemma now_millis_run w : ExpirationManager.now_millis w = (tick w, Ok (millis_at (w_ticks w))).
Proof. done. Qed.

Lemma cut_now X w w' : cut ts sv X (tick w) w' → cut ts sv X w w'.
Proof.
  intros [Hw He Hg Ho]. split; [done| |exact Hg|exact Ho].
  destruct He as [E1 E2 E3 E4 E5 E6 E7 E8]. split; try assumption. simpl in E3. lia.
Qed.

(** Nothing is due. *)
Lemma swept_idle w :
  store_wf ts sv w → (∀ k p, items w !! k = Some p → (millis_at (w_ticks w) <= p)%Z) → swept w (tick w).
Proof.
  intros Hw Hdue. split; [|done| | | |done].
  - apply cut_now. change (set_queue _ (tick w)) with (tick w).
    split; [by eapply store_wf_ext; [| |exact Hw]|apply evolves_refl, Hw| |intros y te; congruence].
    intros x y (k & p & [Hs Hn] & _). cbn in Hn. congruence.
  - exists (w_ticks w). split; [simpl; lia|done].
  - intros k p [Hs Hn]. cbn in Hn. congruence.
  - intros k p [Hs Hn]. cbn in Hn. congruence.
Qed.

(** The first entry of the queue handled, and the entry popped. *)
Inductive handled (e : LeaseEntry) (p : Z) w : W → Prop :=
  | handled_idle : p = 0%Z → handled e p w (tick w)
  | handled_revoked w1 : p ≠ 0%Z → revoked (le_lease_id e) (tick w) w1 → handled e p w w1.

Lemma handled_cut e p w w1 :
  store_wf ts sv w → handled e p w w1 →
  cut ts sv (λ x, p ≠ 0%Z ∧ leased (sm w) (le_lease_id e) x) w w1.
Proof.
  intros Hw [Hp|w1' Hp Hrv]; apply cut_now.
  - split; [by eapply store_wf_ext; [| |exact Hw]|apply evolves_refl, Hw|by intros ? ? []|intros y te; congruence].
  - eapply cut_iff; [|apply Hrv]. intros x. split; [by intros|by intros []].
Qed.

Section step.
Context (e : LeaseEntry) (p : Z) (w w1 w' : W).
Abbreviation popped := (set_queue (q_pop (w_queue w1)) w1).
Context (Hw : store_wf ts sv w) (Hh : w_queue_held w = true) (Hpeek : q_peek (w_queue w) = Some (e, p))
        (Hp : (p <= millis_at (w_ticks w))%Z) (Hd : handled e p w w1) (Hsw : swept popped w').

Lemma step_queue : w_queue w1 = w_queue w.
Proof. by apply (ev_queue _ _ _ _ (cut_ev _ _ _ _ _ (handled_cut _ _ _ _ Hw Hd))). Qed.

Lemma step_items : items popped = base.delete (le_key e) (items w).
Proof. cbn. rewrite step_queue. by eapply q_items_pop. Qed.

Lemma step_head : items w !! le_key e = Some p.
Proof. by destruct (q_peek_some _ _ _ Hpeek). Qed.

Lemma step_removed k p' : removed w w' k p' ↔ (k = le_key e ∧ p' = p) ∨ removed popped w' k p'.
Proof.
  pose proof (sw_queue _ _ Hsw) as Hsub. unfold removed. rewrite step_items in *.
  destruct (decide (k = le_key e)) as [->|Hne].
  - rewrite lookup_delete_eq, step_head. split; [intros [[= <-] _]; by left|].
    intros [[_ ->]|[? _]]; [|done]. split; [done|].
    destruct (items w' !! le_key e) as [z|] eqn:E; [|done].
    apply (lookup_weaken _ _ _ _ E) in Hsub. by rewrite lookup_delete_eq in Hsub.
  - rewrite lookup_delete_ne by done. split; [by right|]. by intros [[? _]|].
Qed.

(** The other leases are as before. *)
Lemma step_lease l : p = 0%Z ∨ l ≠ le_lease_id e → sm w1 !! lk sv l = sm w !! lk sv l.
Proof. destruct Hd as [|w1' Hne Hrv]; [done|]. intros [?|Hl]; [done|]. by apply (rv_others _ _ _ Hrv). Qed.

Lemma step_roots x : (p ≠ 0%Z ∧ leased (sm w) (le_lease_id e) x) ∨ roots popped w' x ↔ roots w w' x.
Proof.
  split.
  - intros [[Hne Hl]|(k & p' & Hr & Hne & le & a & Hle & Ha)].
    + exists (le_key e), p. split_and!; [apply step_removed; by left|done|exact Hl].
    + exists k, p'. split_and!; [apply step_removed; by right|done|]. exists le, a. split; [|done].
      eapply (evolves_lease _ w w1); [apply (handled_cut _ _ _ _ Hw Hd)|exact Hle].
  - intros (k & p' & [[-> ->]|Hr]%step_removed & Hne & Hl); [by left|].
    destruct (decide (p = 0%Z ∨ key_id k ≠ le_lease_id e)) as [Hk|Hk].
    + right. exists k, p'. split_and!; [done..|]. unfold leased, lease_at in *.
      change (sm popped) with (sm w1). by rewrite (step_lease _ Hk).
    + left. destruct (decide (key_id k = le_lease_id e)) as [<-|]; [|exfalso; tauto]. split; [tauto|done].
Qed.

Lemma step_ticks : (w_ticks w < w_ticks w1)%nat.
Proof.
  destruct Hd as [|w1' _ Hrv]; [simpl; lia|].
  pose proof (ev_ticks _ _ _ _ (cut_ev _ _ _ _ _ (rv_cut _ _ _ Hrv))) as Ht. simpl in Ht. lia.
Qed.

Lemma swept_step : swept w w'.
Proof.
  pose proof step_ticks as Ht. destruct Hsw as [C2 Hsub (i & Hi & Hleft) Hdue Hgone Hkept].
  assert (w_ticks w1 <= w_ticks w')%nat as Ht2 by (simpl in Hi; lia). split.
  - eapply cut_iff; [exact step_roots|]. apply (cut_trans ts sv _ _ w w1 _ (handled_cut _ _ _ _ Hw Hd)).
    apply (cut_requeue _ (w_queue w1)) in C2. rewrite <- step_queue.
    change (set_queue (w_queue w1) popped) with (set_queue (w_queue w1) w1) in C2. by rewrite set_queue_id in C2.
  - rewrite step_items in Hsub. etrans; [exact Hsub|apply delete_subseteq].
  - exists i. simpl in Hi. split; [lia|done].
  - intros k p' [[-> ->]|Hr]%step_removed.
    + exists (w_ticks w). split; [lia|done].
    + destruct (Hdue k p' Hr) as (j & Hj & ?). simpl in Hj. exists j. split; [lia|done].
  - intros k p' [[-> ->]|Hr]%step_removed Hne; [|by eapply Hgone].
    destruct Hd as [|w1' _ Hrv]; [done|]. pose proof (rv_gone _ _ _ Hrv) as Hn.
    destruct (ev_keys _ _ _ _ (cut_ev _ _ _ _ _ C2) (lk sv (le_lease_id e)) (sys_IV sv _)) as [Heq|[_ Heq]]; [|done].
    exact (eq_trans Heq Hn).
  - intros l Hl. rewrite (Hkept l) by (intros k p' Hr; apply Hl, step_removed; by right).
    change (sm popped) with (sm w1).
    apply step_lease. destruct (decide (p = 0%Z)); [by left|right].
    intros ->. apply (Hl (le_key e) p); [apply step_removed; by left|done|done].
Qed.
End step.

(** What the loop relies on. *)
Record sweepable w : Prop := {
  sp_wf : store_wf ts sv w;
  sp_held : w_queue_held w = true;
  sp_leases k : is_Some (items w !! k) → expirable (sm w) (key_id k);
  sp_stack : (size (token_ids sv (sm w)) < stack)%nat
}.

Lemma sweepable_step e p w w1 :
  sweepable w → q_peek (w_queue w) = Some (e, p) → handled e p w w1 →
  sweepable (set_queue (q_pop (w_queue w1)) w1) ∧
  (q_len (q_pop (w_queue w1)) < q_len (w_queue w))%nat.
Proof.
  intros [Hw Hh Hl Hs] Hpeek Hd. pose proof (handled_cut _ _ _ _ Hw Hd) as Hcut.
  pose proof (step_items e p w w1 Hw Hh Hpeek Hd) as Hit. cbn in Hit.
  pose proof (cut_ev _ _ _ _ _ Hcut) as He. split; [split|].
  - eapply store_wf_ext; [| |exact (cut_wf _ _ _ _ _ Hcut)]; done.
  - cbn. by rewrite (ev_held _ _ _ _ He).
  - intros k Hk. apply (expirable_evolves _ _ _ _ He), Hl. cbn in Hk. rewrite Hit in Hk.
    destruct Hk as [z Hz]. exists z. by apply lookup_delete_Some in Hz as [_ ?].
  - eapply Nat.le_lt_trans; [exact (token_ids_evolves _ _ _ He)|done].
  - rewrite !q_len_spec, Hit, map_size_delete_Some by (exists p; by apply (q_peek_some _ _ _ Hpeek)).
    assert (size (items w) ≠ 0%nat); [|lia]. intros H0%map_size_empty_inv.
    destruct (q_peek_some _ _ _ Hpeek) as [Hhead _]. by rewrite H0 in Hhead.
Qed.

Lemma expire_loop_run fuel w :
  sweepable w → (q_len (w_queue w) < fuel)%nat → ∃ w', expire_loop fuel w = (w', Ok tt) ∧ swept w w'.
Proof.
  revert w. induction fuel as [|fuel IH]; intros w Hsp Hf; [lia|]. cbn [ExpirationManager.expire_loop].
  rewrite (st_bind_run _ _ _ _ _ (now_millis_run w)). change (w_queue (tick w)) with (w_queue w).
  destruct (q_peek (w_queue w)) as [[e p]|] eqn:Hpeek.
  2: { exists (tick w). split; [done|]. apply swept_idle; [apply Hsp|]. by rewrite (q_peek_none _ Hpeek). }
  destruct (q_peek_some _ _ _ Hpeek) as [Hhead Hmin].
  destruct (Z.ltb_spec (millis_at (w_ticks w)) p) as [Hlt|Hle].
  { exists (tick w). split; [done|]. apply swept_idle; [apply Hsp|]. intros k p' Hk. specialize (Hmin k p' Hk). lia. }
  assert (∀ w1, handled e p w w1 →
    ∃ w', expire_loop fuel (set_queue (q_pop (w_queue w1)) w1) = (w', Ok tt) ∧ swept w w') as Hgo.
  { intros w1 Hd. destruct (sweepable_step e p w w1 Hsp Hpeek Hd) as [Hsp1 Hlen].
    destruct (IH _ Hsp1) as (w' & Hrun & Hsw); [cbn; lia|]. exists w'. split; [done|].
    by eapply (swept_step e p w w1 w'); [apply Hsp|apply Hsp|..]. }
  destruct (Z.eqb_spec p 0) as [->|Hp]; [by apply (Hgo (tick w)), handled_idle|].
  destruct (revoke_expired_run (le_lease_id e) (tick w)) as (w1 & Hrun & Hrv).
  - eapply store_wf_ext; [| |apply Hsp]; done.
  - apply Hsp.
  - apply (sp_leases _ Hsp (le_key e)). by exists p.
  - apply Hsp.
  - rewrite Hrun. by apply Hgo, handled_revoked.
Qed.

(** ** A tick *)

Lemma store_wf_unlock w : store_wf ts sv w → store_wf ts sv (set_queue_held false w).
Proof. by intros [Hc Hm Hd _]. Qed.

Lemma store_wf_locked w : store_wf ts sv w → no_secrets w → store_wf ts sv (set_queue_held true w).
Proof. by intros [Hc Hm Hd _]. Qed.

Lemma cut_unlock X w w' :
  w_queue_held w = false → cut ts sv X (set_queue_held true w) w' → cut ts sv X w (set_queue_held false w').
Proof.
  intros Hh [Hw He Hg Ho]. split; [by apply store_wf_unlock| |exact Hg|exact Ho].
  destruct He as [E1 E2 E3 E4 E5 E6 E7 E8]. split; try assumption; cbn; [by symmetry|by rewrite Hh].
Qed.

Lemma swept_unlock w w' :
  w_queue_held w = false → swept (set_queue_held true (tick w)) w' → swept w (set_queue_held false w').
Proof.
  intros Hh [C1 Hq (i & Hi & Hleft) Hdue Hgone Hkept]. split; [|done| | |done|done].
  - apply cut_now. by apply cut_unlock in C1.
  - exists i. split; [cbn in *; lia|done].
  - intros k p Hr. destruct (Hdue k p Hr) as (j & Hj & ?). exists j. split; [cbn in *; lia|done].
Qed.

Lemma check_expired_run w :
  store_wf ts sv w → w_queue_held w = false → no_secrets w →
  (∀ k, is_Some (items w !! k) → expirable (sm w) (key_id k)) →
  (size (token_ids sv (sm w)) < stack)%nat →
  ∃ w', check_expired w = (w', Ok tt) ∧ w_queue_held w' = false ∧ swept w w'.
Proof.
  intros Hw Hh Hno Hl Hs. unfold ExpirationManager.check_expired_lease_entries.
  rewrite (st_bind_run _ _ _ _ _ (now_millis_run w)). change (w_queue (tick w)) with (w_queue w).
  destruct (q_peek (w_queue w)) as [[e p]|] eqn:Hpeek.
  2: { exists (tick w). split_and!; [done|exact Hh|]. apply swept_idle; [done|]. by rewrite (q_peek_none _ Hpeek). }
  destruct (Z.ltb_spec p (millis_at (w_ticks w))) as [Hlt|Hge].
  - destruct (expire_loop_run (Datatypes.S (q_len (w_queue w))) (set_queue_held true (tick w))) as (w' & Hrun & Hsw).
    + split; [|done|exact Hl|exact Hs]. apply store_wf_locked; [|exact Hno]. by eapply store_wf_ext; [| |exact Hw].
    + cbn. lia.
    + rewrite Hrun. exists (set_queue_held false w'). split_and!; [done..|]. by apply swept_unlock.
  - exists (tick w). split_and!; [done|exact Hh|]. apply swept_idle; [done|]. intros k p' Hk.
    pose proof (proj2 (q_peek_some _ _ _ Hpeek) k p' Hk). lia.
Qed.

Lemma swept_wf w w' : swept w w' → store_wf ts sv w'.
Proof. intros Hsw. eapply store_wf_ext; [| |exact (cut_wf _ _ _ _ _ (sw_cut _ _ Hsw))]; done. Qed.

Lemma swept_lookup w w' id :
  store_wf ts sv w → swept w w' → id ≠ "" →
  ((∃ x, roots w w' x ∧ desc ts sv (sm w) x (salt_id ts id)) → TokenStore.lookup ts id w' = (w', Ok None)) ∧
  ((∀ x, roots w w' x → ¬ desc ts sv (sm w) x (salt_id ts id)) →
     TokenStore.lookup ts id w' = (w', snd (TokenStore.lookup ts id w))).
Proof.
  intros Hw Hsw Hid. pose proof (swept_wf _ _ Hsw) as Hw'. destruct (sw_cut _ _ Hsw) as [_ He Hg Ho].
  rewrite (lookup_run ts sv Hcfg w' _ Hw' Hid), (lookup_run ts sv Hcfg w _ Hw Hid). simpl. split.
  - intros (x & Hx & Hd). by rewrite (Hg x _ Hx Hd : token_at sv (sm w') _ = None).
  - intros Hno. destruct (evolves_token _ _ _ _ (salt_id ts id) He) as [Heq|[_ Hn]].
    + by rewrite (Heq : token_at sv (sm w') _ = _).
    + destruct (token_at sv (sm w) (salt_id ts id)) as [te|] eqn:Ht.
      * destruct (Ho _ _ Ht Hn) as (x & Hx & Hd). by destruct (Hno x Hx).
      * by rewrite (Hn : token_at sv (sm w') _ = None).
Qed.

Lemma removed_readable w w' k p :
  (∀ k, is_Some (items w !! k) → expirable (sm w) (key_id k)) → swept w w' → removed w w' k p → p ≠ 0%Z →
  ExpirationManager.load_lease_entry ts (key_id k) w' = (w', Ok None).
Proof.
  intros Hl Hsw Hr Hp. pose proof (cut_ev _ _ _ _ _ (sw_cut _ _ Hsw)) as He.
  assert (expirable (sm w') (key_id k)) as [Hrd _].
  { apply (expirable_evolves _ _ _ _ He), Hl. exists p. apply Hr. }
  rewrite (load_lease_run ts sv Hcfg w' _ (wf_clean _ _ _ (swept_wf _ _ Hsw)) Hrd).
  unfold lease_at. by rewrite (sw_gone _ _ Hsw k p Hr Hp).
Qed.

(** C13: while no secret is leased to a token and the queued leases are readable,
    a tick of the expiration thread ends, with a call stack deeper than the
    number of tokens, and releases the queue.  Some reading of the clock during
    the tick is no later than any deadline that stays queued; each entry that
    left was due at some reading.  An entry that left with a deadline other than 0
    lost its lease, and afterwards a lookup finds nothing for the tokens of these
    leases and their descendants, and for every other token what it found before.
    A deadline of 0 marks a lease that does not expire or is already revoked: such
    an entry leaves the queue and takes neither lease nor token with it. *)
Theorem expiration_tick (w : W) :
  store_wf ts sv w → w_queue_held w = false → no_secrets w →
  (∀ k, is_Some (items w !! k) → expirable (sm w) (key_id k)) →
  (size (token_ids sv (sm w)) < stack)%nat →
  ∃ w', check_expired w = (w', Ok tt) ∧ store_wf ts sv w' ∧ w_queue_held w' = false ∧ items w' ⊆ items w ∧
    (∃ i, (w_ticks w <= i < w_ticks w')%nat ∧ ∀ k p, items w' !! k = Some p → (millis_at i <= p)%Z) ∧
    (∀ k p, removed w w' k p →
       (∃ i, (w_ticks w <= i < w_ticks w')%nat ∧ (p <= millis_at i)%Z) ∧
       (p ≠ 0%Z → ExpirationManager.load_lease_entry ts (key_id k) w' = (w', Ok None))) ∧
    (∀ l, (∀ k p, removed w w' k p → p ≠ 0%Z → key_id k ≠ l) → sm w' !! lk sv l = sm w !! lk sv l) ∧
    (∀ id, id ≠ "" →
       ((∃ x, roots w w' x ∧ desc ts sv (sm w) x (salt_id ts id)) → TokenStore.lookup ts id w' = (w', Ok None)) ∧
       ((∀ x, roots w w' x → ¬ desc ts sv (sm w) x (salt_id ts id)) →
          TokenStore.lookup ts id w' = (w', snd (TokenStore.lookup ts id w)))).
Proof.
  intros Hw Hh Hno Hl Hs. destruct (check_expired_run w Hw Hh Hno Hl Hs) as (w' & Hrun & Hh' & Hsw).
  exists w'. split_and!; [done|by eapply swept_wf|done|apply Hsw|apply Hsw| |apply Hsw|].
  - intros k p Hr. split; [by apply (sw_due _ _ Hsw k)|by apply (removed_readable w)].
  - intros id Hid. by apply swept_lookup.
Qed.

(** ** Storing leases *)

(** Leases and their index do not touch the tokens. *)
Lemma leases_map_wf (m m' : gmap string bytes) :
  map_wf ts sv m → (∀ x, m' !! idk sv x = m !! idk sv x) → (∀ p x, m' !! pk sv p x = m !! pk sv p x) →
  (∀ t i b, digest t → no_slash i → m' !! ik sv t i = Some b →
     digest i ∧ ∃ lid, b = str_bytes lid ∧ lease_ok sv m' lid) →
  map_wf ts sv m'.
Proof.
  intros Hm Hid Hpk Hix.
  assert (∀ x, token_at sv m' x = token_at sv m x) as Ht by (intros x; unfold token_at; by rewrite Hid).
  assert (∀ p x, child_of ts sv m' p x ↔ child_of ts sv m p x) as Hch.
  { intros p x. unfold child_of. by setoid_rewrite Ht. }
  split.
  - intros x b. rewrite Hid. apply (wf_tokens _ _ _ Hm).
  - intros p x. rewrite Hpk, Hch. apply (wf_parent_sound _ _ _ Hm).
  - intros p x. rewrite Hpk, Hch. apply (wf_parent_complete _ _ _ Hm).
  - destruct (wf_rank _ _ _ Hm) as [rank Hr]. exists rank. intros p x. rewrite Hch. apply Hr.
  - exact Hix.
Qed.

Lemma dirs_wf_lease dirs dirs' k :
  dirs_wf sv dirs → (∀ d, d ∈ dirs' → d ∈ dirs ∨ starts_with d k = true) →
  (∃ l, k = lk sv l) ∨ (∃ t i, digest t ∧ no_slash i ∧ k = ik sv t i) → dirs_wf sv dirs'.
Proof.
  intros Hd Hsub Hk a d Hn. pose proof (Hd a d Hn) as [Hix Hpx].
  split; intros Ha Hin; (destruct (Hsub _ Hin) as [Hin'|[r Hr]%starts_with_spec]; [naive_solver|]);
    destruct Hk as [(l & ->)|(t & i & Ht & Hi & ->)].
  - apply (lk_TV sv l ((a ++ "/" ++ d ++ "/") ++ r)). rewrite Hr. unfold ik, expand_key.
    by rewrite <- !app_assoc_str.
  - unfold ik, expand_key in Hr. rewrite <- !app_assoc_str in Hr. apply app_inj_l in Hr.
    assert (t = a) as <- by (by eapply no_slash_app_inj; [| |exact Hr]; apply digest_no_slash).
    do 2 apply app_inj_l in Hr. subst i. unfold no_slash in Hi. by rewrite find_char_None_app in Hi.
  - apply (lk_TV sv l (("parent/" ++ a ++ "/" ++ d ++ "/") ++ r)). rewrite Hr. unfold pk, expand_key.
    by rewrite <- !app_assoc_str.
  - unfold ik, pk, expand_key in Hr. rewrite <- !app_assoc_str in Hr. apply app_inj_l in Hr.
    by apply (digest_head t i "parent" (a ++ "/" ++ d ++ "/" ++ r)) in Ht.
Qed.

Lemma persist_lease_run le le' b w :
  store_wf ts sv w → le_encode le = Some b → de b = Some le' → sane (le_lease_id le) →
  le_auth le' = None ∨ no_secrets w →
  ∃ s', ExpirationManager.persist_lease_entry ts le w = (set_store s' w, Ok tt) ∧
        store_wf ts sv (set_store s' w) ∧ storage_map s' = <[lk sv (le_lease_id le) := b]> (sm w).
Proof.
  intros Hw Henc Hde Hs Hor. unfold ExpirationManager.persist_lease_entry.
  rewrite (st_bind_run _ _ w w b) by (unfold st_lift; by rewrite Henc).
  replace (id_view (expiration ts)) with (new_sub_view sv "id/") by (symmetry; apply Hcfg).
  destruct (view_put_run (new_sub_view sv "id/") (le_lease_id le) b w (wf_clean _ _ _ Hw) Hs (iv_keys_ok ts sv Hcfg))
    as (s' & Hrun & Hc & Hm & Hd). fold (lk sv (le_lease_id le)) in Hm, Hd.
  assert (∀ k, storage_map s' !! expand_key (new_sub_view sv "token/") k = sm w !! expand_key (new_sub_view sv "token/") k) as Htv.
  { intros k. rewrite Hm. apply lookup_insert_ne, lk_TV. }
  exists s'. split_and!; [done| |done]. split; [done| |by eapply dirs_wf_lease; [apply Hw|exact Hd|left; eexists]|].
  - eapply (leases_map_wf (sm w)); [apply Hw|intros x; apply Htv|intros p x; apply Htv|].
    intros t i b' Ht Hi. unfold ik. cbn [w_store set_store]. rewrite Htv. intros Hb.
    destruct (wf_index _ _ _ (wf_map _ _ _ Hw) t i b' Ht Hi Hb) as (Hdi & lid & -> & Hl & Hok).
    split; [done|]. exists lid. split; [done|]. split; [done|]. intros b'. rewrite Hm.
    destruct (decide (le_lease_id le = lid)) as [<-|Hne]; [|rewrite lookup_insert_ne by (by intros ?%lk_inj); apply Hok].
    rewrite lookup_insert_eq. intros [= <-]. exists le'. split; [done|]. destruct Hor as [|Hno]; [done|].
    unfold ik in Hb. specialize (Hno t i Ht Hi). unfold ik in Hno. congruence.
  - intros Hh t i Ht Hi. unfold ik. cbn [w_store set_store]. rewrite Htv. by apply (wf_lock _ _ _ Hw).
Qed.

Lemma create_index_by_token_run token lid w :
  store_wf ts sv w → w_queue_held w = false → lease_ok sv (sm w) lid →
  ∃ s', ExpirationManager.create_index_by_token ts token lid w = (set_store s' w, Ok tt) ∧
        store_wf ts sv (set_store s' w) ∧
        storage_map s' = <[ik sv (salt_id ts token) (salt_id ts lid) := str_bytes lid]> (sm w).
Proof.
  intros Hw Hh Hok. unfold ExpirationManager.create_index_by_token.
  rewrite (st_bind_run _ _ _ _ _ (upgrade_run ts sv Hcfg w)).
  replace (token_view (expiration ts)) with (new_sub_view sv "token/") by (symmetry; apply Hcfg).
  pose proof (salt_digest ts token) as Ht. pose proof (salt_digest ts lid) as Hi.
  destruct (view_put_run (new_sub_view sv "token/") (ExpirationManager.index_key ts token lid) (str_bytes lid) w
    (wf_clean _ _ _ Hw) (sane_index _ _ Ht (proj1 Hi)) (tv_keys_ok ts sv Hcfg)) as (s' & Hrun & Hc & Hm & Hd).
  unfold ExpirationManager.index_key in Hm, Hd. fold (ik sv (salt_id ts token) (salt_id ts lid)) in Hm, Hd.
  exists s'. split_and!; [done| |done].
  split; [done| |eapply dirs_wf_lease; [apply Hw|exact Hd|right; eexists _, _; split_and!; [exact Ht| |done]]|].
  - assert (∀ l, storage_map s' !! lk sv l = sm w !! lk sv l) as Hlk.
    { intros l. rewrite Hm. apply lookup_insert_ne. intros H. by apply eq_sym, lk_TV in H. }
    assert (∀ l, lease_ok sv (sm w) l → lease_ok sv (storage_map s') l) as Hlok.
    { intros l [? Hl]. split; [done|]. intros b'. rewrite Hlk. apply Hl. }
    eapply (leases_map_wf (sm w)); [apply Hw|..]; cbn [w_store set_store].
    + intros x. rewrite Hm. apply lookup_insert_ne. by apply ik_idk.
    + intros p x. rewrite Hm. apply lookup_insert_ne. by apply ik_pk.
    + intros t i b' Ht' Hi'. rewrite Hm. intros [[Heq <-]|[_ Hb]]%lookup_insert_Some.
      * unfold ik, expand_key in Heq. do 1 apply app_inj_l in Heq.
        assert (salt_id ts token = t) as <- by (by eapply no_slash_app_inj; [| |exact Heq]; apply digest_no_slash).
        do 2 apply app_inj_l in Heq. subst i. split; [done|]. exists lid. split; [done|].
        rewrite <- Hm. by apply Hlok.
      * destruct (wf_index _ _ _ (wf_map _ _ _ Hw) t i b' Ht' Hi' Hb) as (Hdi & lid' & -> & Hl).
        split; [done|]. exists lid'. split; [done|]. rewrite <- Hm. by apply Hlok.
  - by apply digest_no_slash.
  - intros Hh'. cbn in Hh'. congruence.
Qed.

(** ** A tick that blocks *)

Section blocks.

(** Code that neither looks at the lock of the queue nor takes it. *)
Definition oblivious {A} (f : st W RvError A) : Prop :=
  ∀ w w' r, f w = (w', r) → f (set_queue_held true w) = (set_queue_held true w', r).

Lemma oblivious_bind {A B} (f : st W RvError A) (k : A → st W RvError B) :
  oblivious f → (∀ a, oblivious (k a)) → oblivious (st_bind f k).
Proof.
  intros Hf Hk w w' r. unfold st_bind. destruct (f w) as [w1 [a|e|]] eqn:E; rewrite (Hf _ _ _ E); [apply Hk|..].
  - by intros [= <- <-].
  - by intros [= <- <-].
Qed.

Lemma oblivious_ret {A} (a : A) : oblivious (st_ret a).
Proof. by intros w w' r [= <- <-]. Qed.

Lemma oblivious_get v k : oblivious (view_get v k).
Proof. by intros w w' r [= <- <-]. Qed.

Lemma oblivious_list v k : oblivious (view_list v k).
Proof. by intros w w' r [= <- <-]. Qed.

Lemma oblivious_delete v k : oblivious (view_delete v k).
Proof.
  intros w w' r. unfold view_delete, on_store. cbn. destruct (delete _ _ _) as [s o]. by intros [= <- <-].
Qed.

Lemma oblivious_upgrade : oblivious (ExpirationManager.upgrade ts).
Proof. intros w w' r. rewrite !(upgrade_run ts sv Hcfg). by intros [= <- <-]. Qed.

Lemma oblivious_lookup x : oblivious (TokenStore.lookup_salted ts x).
Proof.
  unfold TokenStore.lookup_salted. apply oblivious_bind; [|intros v; apply oblivious_bind; [apply oblivious_get|]].
  - intros w w' r. rewrite !(get_view_run ts sv Hcfg). by intros [= <- <-].
  - intros [raw|]; [|apply oblivious_ret]. destruct (te_decode _); [apply oblivious_ret|]. by intros w w' r [= <- <-].
Qed.

Lemma oblivious_lookup_loop prefix subs ret : oblivious (ExpirationManager.lookup_by_token_loop ts prefix subs ret).
Proof.
  revert ret. induction subs as [|x subs IH]; intros ret; [apply oblivious_ret|]. cbn.
  apply oblivious_bind; [apply oblivious_get|]. intros [raw|]; apply IH.
Qed.

Lemma oblivious_lookup_by_token id : oblivious (ExpirationManager.lookup_by_token ts id).
Proof.
  apply oblivious_bind; [apply oblivious_upgrade|]. intros [].
  apply oblivious_bind; [apply oblivious_list|]. intros l. apply oblivious_lookup_loop.
Qed.

Lemma oblivious_unlink x te : oblivious (unlink ts sv x te).
Proof.
  apply oblivious_bind; [apply oblivious_delete|]. intros [].
  destruct (is_empty _); [apply oblivious_ret|apply oblivious_delete].
Qed.

Abbreviation rt := (TokenStore.revoke_tree route stack ts).
Abbreviation lock := (set_queue_held true).

(** The thread asked for the lock of the queue that it holds itself. *)
Definition blocked {A} (p : W * outcome RvError A) : Prop :=
  snd p = Panic ∧ w_queue_held (fst p) = true ∧ w_deadlock (fst p) = true.

Lemma blocked_bind {A B} (f : st W RvError A) (k : A → st W RvError B) w :
  blocked (f w) → blocked (st_bind f k w).
Proof. unfold blocked, st_bind. destruct (f w) as [w' r]. simpl. by intros (-> & ? & ?). Qed.

(** A lease of a secret that is to be marked as revoked in the locked queue. *)
Lemma revoke_locked_blocks rt' l w :
  clean (w_store w) → w_queue_held w = true → lease_ok sv (sm w) l → is_Some (sm w !! lk sv l) →
  blocked (ExpirationManager.revoke_lease_id route ts rt' l true w).
Proof.
  intros Hc Hh [Hl Ha]%lease_ok_readable Hs. destruct (lease_at sv (sm w) l) as [le|] eqn:Hle.
  2: { apply (readable_none sv _ _ Hl) in Hle. rewrite Hle in Hs. by destruct Hs. }
  destruct (revoke_lease_entry_run route ts sv Hcfg Hroute rt' le w Hc (Ha le eq_refl)) as (w1 & Hr1 & E1).
  destruct (revoke_lease_id_step route ts sv Hcfg rt' l le true _ w w1 Hc Hl Hle Hr1 E1) as (w2 & -> & E2 & _).
  assert (w_queue_held w2 = true) as Hh2 by (by rewrite (ev_held _ _ _ _ E2), (ev_held _ _ _ _ E1)).
  unfold ExpirationManager.register_lease_entry. cbn. by rewrite Hh2.
Qed.

(** The leases of a token: the first that is stored blocks. *)
Lemma revoke_leases_locked rt' ls w :
  clean (w_store w) → w_queue_held w = true → Forall (lease_ok sv (sm w)) ls →
  let run := st_iter (λ l, ExpirationManager.revoke_lease_id route ts rt' l true) ls w in
  blocked run ∨ run = (w, Ok tt) ∧ ∀ lid, lid ∈ ls → sm w !! lk sv lid = None.
Proof.
  intros Hc Hh Hls. induction ls as [|l ls IH]; [right; split; [done|by intros ? ?%not_elem_of_nil]|].
  apply Forall_cons in Hls as [Hl Hls]. cbn.
  destruct (sm w !! lk sv l) as [b|] eqn:Hb.
  { left. apply blocked_bind, revoke_locked_blocks; [done..|by exists b]. }
  rewrite (st_bind_run _ _ w w tt).
  - destruct (IH Hls) as [?|[Hrun Hno]]; [by left|right]. split; [done|].
    by intros lid [->|Hin]%elem_of_cons; [|apply Hno].
  - apply (revoke_lease_id_gone route ts sv Hcfg); [done|by apply lease_ok_readable|].
    unfold lease_at. by rewrite Hb.
Qed.

(** A secret, whose lease is stored, is indexed for the token [x]. *)
Definition holds_secret w (x : string) : Prop :=
  ∃ i lid, no_slash i ∧ sm w !! ik sv x i = Some (str_bytes lid) ∧ is_Some (sm w !! lk sv lid).

(** Neither leases nor their index changed. *)
Definition secrets_kept w w' : Prop :=
  (∀ t i, digest t → sm w' !! ik sv t i = sm w !! ik sv t i) ∧ (∀ l, sm w' !! lk sv l = sm w !! lk sv l).

Lemma secrets_kept_trans w1 w2 w3 : secrets_kept w1 w2 → secrets_kept w2 w3 → secrets_kept w1 w3.
Proof. intros [I1 L1] [I2 L2]. split; [intros t i Ht; by rewrite I2, I1|intros l; by rewrite L2]. Qed.

Lemma secrets_kept_holds w w' x : digest x → secrets_kept w w' → holds_secret w x → holds_secret w' x.
Proof.
  intros Hx [Hi Hl] (i & lid & Hn & Hix & Hs). exists i, lid. rewrite (Hi x i Hx), (Hl lid). done.
Qed.

Lemma link_keys_secrets x w w' : evolves sv (link_keys sv x) w w' → secrets_kept w w'.
Proof.
  intros He. split; [|intros l; by eapply link_keys_lease]. intros t i Ht.
  destruct (ev_keys _ _ _ _ He (ik sv t i) (sys_TV sv _)) as [?|[[Hk|(p & _ & Hk)] _]]; [done|..].
  - by apply ik_idk in Hk.
  - by apply ik_pk in Hk.
Qed.

(** One token under the lock. *)
Lemma revoke_salted_locked rt' x w :
  store_wf ts sv w → digest x →
  let run := TokenStore.revoke_salted_ route ts rt' x (lock w) in
  blocked run ∨
  ∃ w', run = (lock w', Ok tt) ∧ store_wf ts sv w' ∧ evolves sv (link_keys sv x) w w' ∧
    token_at sv (sm w') x = None ∧ (is_Some (token_at sv (sm w) x) → ¬ holds_secret w x).
Proof.
  intros Hw Hd. cbv zeta. unfold TokenStore.revoke_salted_. rewrite (st_bind_run _ _ _ _ _ (get_view_run ts sv Hcfg _)).
  pose proof (lookup_salted_run ts sv Hcfg w x Hw (proj1 Hd)) as Hlook.
  rewrite (st_bind_run _ _ _ _ _ (oblivious_lookup x _ _ _ Hlook)).
  destruct (token_at sv (sm w) x) as [te|] eqn:Hte.
  2: { destruct (delete_missing_run ts sv Hcfg x w Hw Hd Hte) as (w1 & Hr1 & Hw1 & E1 & Hn1). right.
       rewrite (st_bind_run _ _ _ _ _ (oblivious_delete _ _ _ _ _ Hr1)). exists w1.
       split_and!; [done|done| |unfold token_at; by rewrite Hn1|by intros []].
       eapply evolves_weaken; [|exact E1]. intros k ->. by left. }
  destruct (token_at_facts ts sv _ _ _ (wf_map _ _ _ Hw) Hte) as (_ & Hx & _).
  destruct (unlink_run ts sv Hcfg x te w Hw Hd Hte) as (w2 & Hr2 & Hw2 & E2 & Hn2).
  apply oblivious_unlink, st_bind_ok in Hr2 as (w1 & u & Hr1 & Hr2).
  rewrite (st_bind_run _ _ _ _ _ Hr1), (st_bind_run _ _ _ _ _ Hr2).
  unfold ExpirationManager.revoke_by_token.
  destruct (lookup_by_token_run ts sv Hcfg (te_id te) w2 Hw2) as (ls & Hrun & Hls & Hin).
  rewrite (st_bind_run _ _ _ _ _ (oblivious_lookup_by_token _ _ _ _ Hrun)).
  destruct (revoke_leases_locked rt' ls (lock w2)) as [?|[-> Hno]]; [apply Hw2|done|exact Hls|by left|right].
  exists w2. split_and!; [done|done|done|unfold token_at; by rewrite Hn2|].
  intros _ Hs. destruct (secrets_kept_holds _ _ _ Hd (link_keys_secrets _ _ _ E2) Hs) as (i & lid & Hi & Hix & [b Hb]).
  assert (lid ∈ ls) as Hlid by (apply Hin; exists i; by rewrite Hx).
  specialize (Hno lid Hlid). change (sm w2 !! lk sv lid = None) in Hno. congruence.
Qed.

(** A completed revocation under the lock met no secret. *)
Record passed (X : string → Prop) w w' : Prop := {
  pa_cut : cut ts sv X w w';
  pa_kept : secrets_kept w w';
  pa_none x y : X x → desc ts sv (sm w) x y → is_Some (token_at sv (sm w) y) → ¬ holds_secret w y
}.

Lemma passed_trans X X' w1 w2 w3 : map_wf ts sv (sm w1) → passed X w1 w2 → passed X' w2 w3 → passed (λ x, X x ∨ X' x) w1 w3.
Proof.
  intros Hm [C1 K1 N1] [C2 K2 N2]. split; [by eapply cut_trans|by eapply secrets_kept_trans|].
  intros x y [Hx|Hx] Hd [te Hy]; [by apply (N1 x)|].
  destruct (token_at sv (sm w2) y) as [te2|] eqn:Hy2.
  - intros Hs. apply (N2 x y Hx); [by eapply cut_path|by exists te2|].
    eapply secrets_kept_holds; [by eapply token_hex|done|done].
  - destruct (cut_only _ _ _ _ _ C1 y te Hy Hy2) as (x1 & Hx1 & Hd1). by apply (N1 x1).
Qed.

Lemma passed_iff (X X' : string → Prop) w w' : (∀ x, X x ↔ X' x) → passed X w w' → passed X' w w'.
Proof.
  intros Hx [Hc Hk Hn]. split; [by eapply cut_iff|done|]. intros x y Hx'%Hx. by apply Hn.
Qed.

(** Enough depth for the tree below each of the tokens. *)
Definition depth_enough (depth : nat) (m : gmap string bytes) (X : string → Prop) : Prop :=
  ∃ rank, (∀ p c, child_of ts sv m p c → (rank p < rank c)%nat) ∧
          ∀ y, X y → digest y ∧ (above sv rank m y < depth)%nat.

Lemma depth_enough_evolves depth D w w' (X X' : string → Prop) :
  evolves sv D w w' → (∀ x, X' x → X x) → depth_enough depth (sm w) X → depth_enough depth (sm w') X'.
Proof.
  intros He Hsub (rank & Hr & Hl). exists rank. split; [intros p c Hch; by eapply Hr, evolves_child, Hch|].
  intros y Hy%Hsub. destruct (Hl y Hy) as [? Ha]. split; [done|].
  eapply Nat.le_lt_trans; [by eapply above_evolves|done].
Qed.

Definition locked (f : st W RvError unit) (X : string → Prop) w : Prop :=
  blocked (f (lock w)) ∨ ∃ w', f (lock w) = (lock w', Ok tt) ∧ passed X w w'.

Lemma iter_locked (f : string → st W RvError unit) depth l w :
  (∀ y w, store_wf ts sv w → depth_enough depth (sm w) (eq y) → locked (f y) (eq y) w) →
  store_wf ts sv w → depth_enough depth (sm w) (.∈ l) → locked (st_iter f l) (.∈ l) w.
Proof.
  intros Hstep. revert w. induction l as [|y l IH]; intros w Hw Hl; simpl.
  - right. exists w. split; [done|]. split; [|done|by intros ? ? ?%not_elem_of_nil].
    split; [done|apply evolves_refl, Hw|by intros ? ? ?%not_elem_of_nil|intros y te; congruence].
  - destruct (Hstep y w Hw) as [Hb|(w1 & Hr1 & P1)].
    { eapply depth_enough_evolves; [apply (evolves_refl _ (λ _, True)), Hw| |exact Hl]. intros ? <-. apply list_elem_of_here. }
    { left. by apply blocked_bind. }
    unfold locked. cbn. rewrite (st_bind_run _ _ _ _ _ Hr1).
    destruct (IH w1) as [Hb|(w2 & Hr2 & P2)]; [apply P1| |by left|right].
    { eapply depth_enough_evolves; [apply P1| |exact Hl]. intros x. apply list_elem_of_further. }
    exists w2. split; [done|]. eapply passed_iff; [|eapply passed_trans; [apply Hw|exact P1|exact P2]].
    intros x. rewrite elem_of_cons. naive_solver.
Qed.

(** A tree under the lock. *)
Lemma tree_locked depth x w :
  store_wf ts sv w → depth_enough depth (sm w) (eq x) →
  locked (TokenStore.revoke_tree_salted route ts depth x) (eq x) w.
Proof.
  revert x w. induction depth as [|depth IH]; intros x w Hw (rank & Hr & Hl).
  { destruct (Hl x eq_refl). lia. }
  destruct (Hl x eq_refl) as [Hx Ha]. unfold locked.
  cbn [TokenStore.revoke_tree_salted]. change TOKEN_PARENT_PREFIX with "parent/".
  rewrite (st_bind_run _ _ _ _ _ (get_view_run ts sv Hcfg _)).
  destruct (children_list ts sv Hcfg _ x (wf_clean _ _ _ Hw) (wf_dirs _ _ _ Hw) Hx) as (l & Hlist & _ & Hin).
  assert (∀ y, y ∈ l ↔ child_of ts sv (sm w) x y) as Hch.
  { intros y. rewrite Hin. by apply listed_children. }
  rewrite (st_bind_run _ _ (lock w) (lock w) l) by (unfold view_list; by rewrite <- Hlist).
  destruct (iter_locked (TokenStore.revoke_tree_salted route ts depth) depth l w IH Hw) as [Hb|(w1 & Hr1 & P1)].
  { exists rank. split; [done|]. intros y Hy%Hch. pose proof (above_child ts sv rank _ _ _ Hr Hy).
    split; [|lia]. by destruct (child_hex _ _ _ _ _ (wf_map _ _ _ Hw) Hy). }
  { left. by apply blocked_bind. }
  rewrite (st_bind_run _ _ _ _ _ Hr1). apply (passed_iff _ _ _ _ Hch) in P1.
  match goal with |- context [TokenStore.revoke_salted_ _ _ ?rt] => set (rt' := rt) end.
  destruct (revoke_salted_locked rt' x w1 (cut_wf _ _ _ _ _ (pa_cut _ _ _ P1)) Hx)
    as [?|(w2 & Hr2 & Hw2 & E2 & Hgone & Hno)]; [by left|right].
  pose proof (link_keys_secrets _ _ _ E2) as K2. exists w2. split; [exact Hr2|].
  split; [|by eapply secrets_kept_trans; [apply P1|]|].
  - eapply cut_root; [apply P1|done| |done]. eapply evolves_weaken; [|exact E2]. by right.
  - intros ? y <- Hd [te Hy]. destruct (desc_first _ _ _ _ _ Hd) as [<-|(c & Hc & Hd')].
    2: by apply (pa_none _ _ _ P1 c); [| |exists te].
    intros Hs. destruct (token_at sv (sm w1) x) as [te1|] eqn:Hx1.
    + apply Hno; [by exists te1|]. by eapply secrets_kept_holds; [|apply P1|].
    + destruct (cut_only _ _ _ _ _ (pa_cut _ _ _ P1) x te Hy Hx1) as (c & Hc & Hd').
      apply (pa_none _ _ _ P1 c x Hc Hd'); [by exists te|done].
Qed.

Lemma revoke_tree_blocks token y w :
  store_wf ts sv w → token ≠ "" → (size (token_ids sv (sm w)) < stack)%nat →
  desc ts sv (sm w) (salt_id ts token) y → is_Some (token_at sv (sm w) y) → holds_secret w y →
  blocked (rt token (lock w)).
Proof.
  intros Hw Hne Hst Hd Hy Hs. unfold TokenStore.revoke_tree. rewrite (is_empty_false _ Hne).
  destruct (tree_locked stack (salt_id ts token) w Hw) as [Hb|(w' & _ & P)]; [|done|].
  - destruct (wf_rank _ _ _ (wf_map _ _ _ Hw)) as [rank Hr]. exists rank. split; [done|]. intros ? <-.
    split; [apply salt_digest|]. eapply Nat.le_lt_trans; [|exact Hst]. apply subseteq_size. set_solver.
  - exfalso. by apply (pa_none _ _ _ P (salt_id ts token) y eq_refl Hd Hy).
Qed.

Lemma revoke_expired_blocks l le a y w :
  store_wf ts sv w → readable sv (sm w) l → lease_at sv (sm w) l = Some le → le_auth le = Some a →
  auth_client_token a ≠ "" → (size (token_ids sv (sm w)) < stack)%nat →
  desc ts sv (sm w) (salt_id ts (auth_client_token a)) y → is_Some (token_at sv (sm w) y) → holds_secret w y →
  blocked (revoke_expired l false (lock w)).
Proof.
  intros Hw Hr Hle Ha Hne Hst Hd Hy Hs. unfold ExpirationManager.revoke_lease_id.
  rewrite (st_bind_run _ _ _ _ _ (load_lease_run ts sv Hcfg (lock w) l (wf_clean _ _ _ Hw) Hr)).
  change (lease_at sv (sm (lock w)) l) with (lease_at sv (sm w) l). rewrite Hle.
  apply blocked_bind. unfold ExpirationManager.revoke_lease_entry.
  rewrite (st_bind_run _ _ _ _ _ (upgrade_run ts sv Hcfg _)), Ha. by eapply revoke_tree_blocks.
Qed.

(** C14: when the first lease of the queue to expire is that of a token, and a
    secret is leased to that token or to one of its descendants, the tick of the
    expiration thread does not end: to mark the secret as revoked it asks for the
    lock of the queue, which it holds itself.  The lock stays held, so that
    whoever registers a lease from then on waits for it too. *)
Theorem expired_token_with_secret_blocks (w : W) (e le : LeaseEntry) (p : Z) (a : Auth) (y : string) :
  store_wf ts sv w → w_deadlock w = false → q_peek (w_queue w) = Some (e, p) → p ≠ 0%Z →
  (p < millis_at (w_ticks w))%Z → (p <= millis_at (Datatypes.S (w_ticks w)))%Z →
  readable sv (sm w) (le_lease_id e) → lease_at sv (sm w) (le_lease_id e) = Some le →
  le_auth le = Some a → auth_client_token a ≠ "" → (size (token_ids sv (sm w)) < stack)%nat →
  desc ts sv (sm w) (salt_id ts (auth_client_token a)) y → is_Some (token_at sv (sm w) y) → holds_secret w y →
  ∃ w', check_expired w = (w', Panic) ∧ w_queue_held w' = true ∧ w_deadlock w' = true ∧
    ∀ le', is_Some (since_epoch (le_expire_time le')) → blocked (ExpirationManager.register_lease_entry le' w').
Proof.
  intros Hw _ Hpeek Hp Hlt Hle Hr Hlease Ha Hne Hst Hd Hy Hs.
  pose proof (revoke_expired_blocks (le_lease_id e) le a y (tick (tick w))) as Hb.
  destruct (revoke_expired (le_lease_id e) false (lock (tick (tick w)))) as [w' r] eqn:Hrun.
  destruct Hb as (Hpanic & Hh & Hdl); try done; [by eapply store_wf_ext; [| |exact Hw]|].
  simpl in Hpanic, Hh, Hdl. subst r. exists w'. split_and!; [|done..|].
  - unfold ExpirationManager.check_expired_lease_entries. rewrite (st_bind_run _ _ _ _ _ (now_millis_run w)).
    change (w_queue (tick w)) with (w_queue w). rewrite Hpeek, (proj2 (Z.ltb_lt _ _) Hlt).
    cbn [ExpirationManager.expire_loop]. rewrite (st_bind_run _ _ _ _ _ (now_millis_run (lock (tick w)))).
    change (w_queue (tick (lock (tick w)))) with (w_queue w). rewrite Hpeek.
    change (w_ticks (lock (tick w))) with (Datatypes.S (w_ticks w)).
    rewrite (proj2 (Z.ltb_ge (millis_at _) p) Hle), (proj2 (Z.eqb_neq p 0) Hp).
    change (tick (lock (tick w))) with (lock (tick (tick w))). by rewrite Hrun.
  - intros le' [d Hd']. unfold blocked, ExpirationManager.register_lease_entry. rewrite Hd', Hh. by split_and!.
Qed.

End blocks.

End expiration.

(** ** Witnesses *)

(** The lease of token [t1], which expires after five seconds, and the lease of
    a secret handed to it. *)
Definition demo_lease : Lease.Lease :=
  {| Lease.ttl := 5000000000; Lease.max_ttl := 0; Lease.renewable := false; Lease.increment := 0;
     Lease.issue_time := None |}.

Definition demo_auth : Auth :=
  {| auth_lease := demo_lease; auth_client_token := "t1"; display_name := "token"; policies := ["root"];
     token_policies := ["root"]; no_default_policy := false; auth_internal_data := ∅; metadata := ∅;
     policy_results := None; period := 0; auth_explicit_max_ttl := 0 |}.

Definition demo_token_lease : LeaseEntry :=
  {| le_lease_id := "l1"; le_client_token := "t1"; le_path := "auth/token/create"; le_data := ∅; le_secret := None;
     le_auth := Some demo_auth; le_issue_time := 0; le_expire_time := 5000000000; le_revoke_err := "" |}.

Definition demo_secret_lease : LeaseEntry :=
  {| le_lease_id := "l2"; le_client_token := "t1"; le_path := "secret/a"; le_data := ∅;
     le_secret := Some {| secret_lease := demo_lease; lease_id := "l2"; secret_internal_data := ∅ |};
     le_auth := None; le_issue_time := 0; le_expire_time := 9000000000; le_revoke_err := "" |}.

(** A format that tells the two apart. *)
Definition two_lease_serde : Serde LeaseEntry := {|
  ser le := Some [match le_auth le with Some _ => x01 | None => x02 end];
  de b := if bool_decide (b = [x01]) then Some demo_token_lease
          else if bool_decide (b = [x02]) then Some demo_secret_lease else None
|}.

(** A clock that has passed the deadline and moves by a second at each reading. *)
Definition late_clock : Clock := fun i => ((Z.of_nat i + 10) * 1000000000)%Z.

Section witnesses.
#[local] Existing Instance lower_hex.
#[local] Existing Instance toy_sha1.
#[local] Existing Instance toy_sha1_laws.
#[local] Existing Instance demo_storage.
#[local] Existing Instance demo_storage_spec.
#[local] Existing Instance lease_list.
#[local] Existing Instance lease_list_laws.
#[local] Existing Instance late_clock.
#[local] Existing Instance demo_uuid.
#[local] Existing Instance token_serde.
#[local] Existing Instance token_serde_laws.
#[local] Existing Instance two_lease_serde.
#[local] Existing Instance no_old_lease_serde.
#[local] Existing Instance no_durations.
#[local] Existing Instance no_json.

Abbreviation dsm w := (storage_map (w_store w)).

Lemma late_millis i : (10000 <= millis_at i)%Z.
Proof.
  unfold millis_at, clock_at, late_clock, since_epoch.
  rewrite (proj2 (Z.leb_le 0 _)) by lia. apply Z.div_le_lower_bound; lia.
Qed.

(** The lease of the token stored and queued. *)
Definition demo_leased : DemoWorld :=
  fst ((let! _ := ExpirationManager.persist_lease_entry demo_ts demo_token_lease in
        ExpirationManager.register_lease_entry demo_token_lease) demo_one).

(** A secret leased to it as well. *)
Definition demo_secret : DemoWorld :=
  fst ((let! _ := ExpirationManager.persist_lease_entry demo_ts demo_secret_lease in
        ExpirationManager.create_index_by_token demo_ts "t1" "l2") demo_leased).

Lemma demo_no_secrets : no_secrets demo_sys demo_one.
Proof.
  intros t l Ht Hl. destruct demo_one_run as [_ Hst].
  by rewrite (stored_frame_index _ _ _ _ _ _ Hst t l Ht).
Qed.

Lemma demo_leased_run :
  store_wf demo_ts demo_sys demo_leased ∧ dsm demo_leased = <[lk demo_sys "l1" := [x01]]> (dsm demo_one) ∧
  w_queue demo_leased = q_push demo_token_lease 5000 (w_queue demo_one) ∧ w_queue_held demo_leased = false.
Proof.
  destruct demo_one_run as [Hw _].
  destruct (persist_lease_run demo_ts demo_sys demo_configured demo_token_lease demo_token_lease [x01] demo_one Hw)
    as (s' & Hrun & Hw' & Hm); [by vm_compute|by vm_compute|by vm_compute|right; exact demo_no_secrets|].
  unfold demo_leased. rewrite (st_bind_run _ _ _ _ _ Hrun). split_and!; [|exact Hm|reflexivity|reflexivity].
  by eapply store_wf_ext; [| |exact Hw'].
Qed.

Lemma demo_items : q_items (w_queue demo_leased) = {[ ("l1", "t1", "auth/token/create") := 5000%Z ]}.
Proof.
  destruct demo_leased_run as (_ & _ & -> & _). rewrite q_items_push. apply insert_empty.
Qed.

Lemma demo_lease_at : lease_at demo_sys (dsm demo_leased) "l1" = Some demo_token_lease.
Proof. destruct demo_leased_run as (_ & Hm & _). unfold lease_at. rewrite Hm, lookup_insert_eq. by vm_compute. Qed.

Lemma demo_readable : readable demo_sys (dsm demo_leased) "l1".
Proof.
  split; [by vm_compute|]. intros b Hb. pose proof demo_lease_at as H. unfold lease_at in H. rewrite Hb in H.
  by exists demo_token_lease.
Qed.

Lemma demo_expirable k :
  is_Some (q_items (w_queue demo_leased) !! k) → expirable demo_sys (dsm demo_leased) (key_id k).
Proof.
  rewrite demo_items. intros [p [<- _]%lookup_singleton_Some]. split; [exact demo_readable|].
  intros le a. cbn [key_id fst]. rewrite demo_lease_at. by intros [= <-] [= <-].
Qed.

Lemma demo_leased_no_secrets : no_secrets demo_sys demo_leased.
Proof.
  intros t l Ht Hl. destruct demo_leased_run as (_ & -> & _). rewrite lookup_insert_ne by apply lk_TV.
  by apply demo_no_secrets.
Qed.

Lemma expiration_tick_witness :
  ∃ w', ExpirationManager.check_expired_lease_entries no_route demo_ts
          (TokenStore.revoke_tree no_route 9 demo_ts) demo_leased = (w', Ok tt) ∧
        TokenStore.lookup demo_ts "t1" w' = (w', Ok None).
Proof.
  destruct demo_leased_run as (Hw & _ & _ & Hh).
  destruct (expiration_tick no_route 9 demo_ts demo_sys demo_configured demo_route_apart demo_leased Hw Hh
              demo_leased_no_secrets demo_expirable) as (w' & Hrun & _ & _ & Hsub & (i & _ & Hleft) & _ & _ & Hlook).
  - vm_compute. lia.
  - exists w'. split; [exact Hrun|]. apply Hlook; [discriminate|]. exists (salt_id demo_ts "t1"). split; [|constructor].
    exists ("l1", "t1", "auth/token/create"), 5000%Z. split; [split|split; [discriminate|]].
    + rewrite demo_items. apply lookup_singleton_eq.
    + destruct (q_items (w_queue w') !! _) as [p|] eqn:E; [|done]. pose proof (Hleft _ _ E). pose proof (late_millis i).
      apply (lookup_weaken _ _ _ _ E) in Hsub. rewrite demo_items, lookup_singleton_eq in Hsub.
      injection Hsub as <-. lia.
    + exists demo_token_lease, demo_auth. split; [exact demo_lease_at|split; reflexivity].
Defined.

Lemma demo_secret_run :
  store_wf demo_ts demo_sys demo_secret ∧ w_queue demo_secret = w_queue demo_leased ∧
  dsm demo_secret = <[ik demo_sys (salt_id demo_ts "t1") (salt_id demo_ts "l2") := str_bytes "l2"]>
                      (<[lk demo_sys "l2" := [x02]]> (dsm demo_leased)).
Proof.
  destruct demo_leased_run as (Hw & _ & _ & Hh).
  destruct (persist_lease_run demo_ts demo_sys demo_configured demo_secret_lease demo_secret_lease [x02] demo_leased Hw)
    as (s' & Hrun & Hw' & Hm); [by vm_compute|by vm_compute|by vm_compute|by left|].
  destruct (create_index_by_token_run demo_ts demo_sys demo_configured "t1" "l2" _ Hw' Hh) as (s2 & Hrun2 & Hw2 & Hm2).
  - split; [by vm_compute|]. intros b. cbn [w_store set_store]. rewrite Hm, lookup_insert_eq. intros [= <-].
    exists demo_secret_lease. split; [by vm_compute|reflexivity].
  - unfold demo_secret. rewrite (st_bind_run _ _ _ _ _ Hrun), Hrun2. split_and!; [exact Hw2|done|].
    cbn [fst w_store set_store]. rewrite Hm2. cbn [w_store set_store]. by rewrite Hm.
Qed.

(** The tokens are those of the store before the leases. *)
Lemma demo_secret_tokens x :
  dsm demo_secret !! idk demo_sys x = dsm demo_one !! idk demo_sys x.
Proof.
  destruct demo_secret_run as (_ & _ & ->). destruct demo_leased_run as (_ & -> & _).
  rewrite lookup_insert_ne by (apply ik_idk, (salt_digest (HX := lower_hex))).
  by rewrite !lookup_insert_ne by apply lk_TV.
Qed.

Lemma demo_secret_lease_at :
  dsm demo_secret !! lk demo_sys "l1" = Some [x01] ∧ dsm demo_secret !! lk demo_sys "l2" = Some [x02].
Proof.
  destruct demo_secret_run as (_ & _ & ->). destruct demo_leased_run as (_ & -> & _).
  rewrite !(lookup_insert_ne _ (ik _ _ _)) by (intros H; by apply eq_sym, lk_TV in H).
  split; [|apply lookup_insert_eq]. rewrite lookup_insert_ne by (by intros ?%lk_inj). apply lookup_insert_eq.
Qed.

Lemma demo_secret_token : is_Some (token_at demo_sys (dsm demo_secret) (salt_id demo_ts "t1")).
Proof.
  destruct demo_one_run as [_ Hst]. unfold token_at. rewrite demo_secret_tokens.
  fold (token_at demo_sys (dsm demo_one) (salt_id demo_ts "t1")). rewrite (stored_token _ _ _ _ _ _ _ Hst).
  by eexists.
Qed.

Lemma demo_holds_secret : holds_secret demo_sys demo_secret (salt_id demo_ts "t1").
Proof.
  exists (salt_id demo_ts "l2"), "l2". split_and!.
  - apply digest_no_slash, salt_digest.
  - destruct demo_secret_run as (_ & _ & ->). apply lookup_insert_eq.
  - destruct demo_secret_lease_at as [_ ->]. by eexists.
Qed.

Lemma expired_token_with_secret_blocks_witness :
  ∃ w', ExpirationManager.check_expired_lease_entries no_route demo_ts
          (TokenStore.revoke_tree no_route 9 demo_ts) demo_secret = (w', Panic) ∧ w_deadlock w' = true ∧
        snd (ExpirationManager.register_lease_entry demo_token_lease w') = Panic.
Proof.
  destruct demo_secret_run as (Hw & Hq & _). destruct demo_leased_run as (_ & _ & Hq1 & _).
  destruct demo_secret_lease_at as [Hl1 _].
  destruct (expired_token_with_secret_blocks no_route 9 demo_ts demo_sys demo_configured demo_route_apart demo_secret
              demo_token_lease demo_token_lease 5000 demo_auth (salt_id demo_ts "t1") Hw)
    as (w' & Hrun & _ & Hdl & Hreg).
  - vm_compute. reflexivity.
  - rewrite Hq, Hq1. reflexivity.
  - discriminate.
  - pose proof (late_millis (w_ticks demo_secret)). lia.
  - pose proof (late_millis (Datatypes.S (w_ticks demo_secret))). lia.
  - split; [by vm_compute|]. intros b. cbn [le_lease_id demo_token_lease]. rewrite Hl1. intros [= <-]. by eexists.
  - unfold lease_at. cbn [le_lease_id demo_token_lease]. rewrite Hl1. by vm_compute.
  - reflexivity.
  - discriminate.
  - vm_compute. lia.
  - constructor.
  - exact demo_secret_token.
  - exact demo_holds_secret.
  - exists w'. split; [exact Hrun|]. split; [exact Hdl|]. apply (Hreg demo_token_lease). by eexists.
Defined.

End witnesses.
