(* ===== verification/PolicyStore.v ===== *)
(** * The policy store (src/src/modules/policy/policy_store.rs, mod.rs)

    Policies live as JSON in the barrier and are cached by name; the type map
    says which names are ACL and which RGP policies.  [post_auth] is the ACL
    check of every authenticated request; the handlers serve
    [sys/policy/...]. *)

From stdpp Require Import base tactics list gmap strings.
From Stdlib Require Import ZArith Lia Ascii.
From S2P Require Import Prelude Errors RustStr Utils Lease Storage BarrierView Logical LogicalBackend Router Policy AclModel Mount World TokenStore.

Local Open Scope string_scope.

(** The crate [base64], the standard alphabet. *)
Class Base64 : Type := base64_decode : string -> option bytes.

Definition POLICY_ACL_SUB_PATH : string := "policy/".
Definition POLICY_RGP_SUB_PATH : string := "policy-rgp/".
Definition POLICY_EGP_SUB_PATH : string := "policy-egp/".
Definition DEFAULT_POLICY_NAME : string := "default".
Definition RESPONSE_WRAPPING_POLICY_NAME : string := "response-wrapping".
Definition CONTROL_GROUP_POLICY_NAME : string := "control-group".

Definition DEFAULT_POLICY : string := requote "
# Allow tokens to look up their own properties
path 'auth/token/lookup-self' {
    capabilities = ['read']
}

# Allow tokens to renew themselves
path 'auth/token/renew-self' {
    capabilities = ['update']
}

# Allow tokens to revoke themselves
path 'auth/token/revoke-self' {
    capabilities = ['update']
}

# Allow a token to look up its own capabilities on a path
path 'sys/capabilities-self' {
    capabilities = ['update']
}

# Allow a token to look up its own entity by id or name
path 'identity/entity/id/{{identity.entity.id}}' {
  capabilities = ['read']
}
path 'identity/entity/name/{{identity.entity.name}}' {
  capabilities = ['read']
}


# Allow a token to look up its resultant ACL from all policies. This is useful
# for UIs. It is an internal path because the format may change at any time
# based on how the internal ACL features and capabilities change.
path 'sys/internal/ui/resultant-acl' {
    capabilities = ['read']
}

# Allow a token to renew a lease via lease_id in the request body; old path for
# old clients, new path for newer
path 'sys/renew' {
    capabilities = ['update']
}
path 'sys/leases/renew' {
    capabilities = ['update']
}

# Allow looking up lease properties. This requires knowing the lease ID ahead
# of time and does not divulge any sensitive information.
path 'sys/leases/lookup' {
    capabilities = ['update']
}

# Allow a token to manage its own cubbyhole
path 'cubbyhole/*' {
    capabilities = ['create', 'read', 'update', 'delete', 'list']
}

# Allow a token to wrap arbitrary values in a response-wrapping token
path 'sys/wrapping/wrap' {
    capabilities = ['update']
}

# Allow a token to look up the creation time and TTL of a given
# response-wrapping token
path 'sys/wrapping/lookup' {
    capabilities = ['update']
}

# Allow a token to unwrap a response-wrapping token. This is a convenience to
# avoid client token swapping since this is also part of the response wrapping
# policy.
path 'sys/wrapping/unwrap' {
    capabilities = ['update']
}

# Allow general purpose tools
path 'sys/tools/hash' {
    capabilities = ['update']
}
path 'sys/tools/hash/*' {
    capabilities = ['update']
}

# Allow checking the status of a Control Group request if the user has the
# accessor
path 'sys/control-group/request' {
    capabilities = ['update']
}
".

Definition RESPONSE_WRAPPING_POLICY : string := requote "
path 'cubbyhole/response' {
    capabilities = ['create', 'read']
}

path 'sys/wrapping/unwrap' {
    capabilities = ['update']
}
".

Definition CONTROL_GROUP_POLICY : string := requote "
path 'cubbyhole/control-group' {
    capabilities = ['update', 'create', 'read']
}

path 'sys/wrapping/unwrap' {
    capabilities = ['update']
}
".

Definition IMMUTABLE_POLICIES : list string :=
  ["root"; RESPONSE_WRAPPING_POLICY_NAME; CONTROL_GROUP_POLICY_NAME].

(** [struct PolicyEntry]; the sentinel policy has no data. *)
Record PolicyEntry := {
  pe_version : Z;
  pe_raw : string;
  pe_templated : bool;
  pe_policy_type : PolicyType
}.

(** [struct PolicyStore]; the caches and the type map are part of the world. *)
Record PolicyStore := {
  acl_view : option BarrierView.t;
  rgp_view : option BarrierView.t;
  egp_view : option BarrierView.t;
  token_policies_lru : bool;
  egp_lru : bool
}.

Definition default_policy : Policy :=
  {| policy_name := ""; policy_paths := []; raw := ""; policy_ty := Acl; templated := false |}.

Definition policy_set_name (n : string) (p : Policy) : Policy :=
  {| policy_name := n; policy_paths := policy_paths p; raw := raw p; policy_ty := policy_ty p;
     templated := templated p |}.

Definition policy_set_entry (e : PolicyEntry) (p : Policy) : Policy :=
  {| policy_name := policy_name p; policy_paths := policy_paths p; raw := raw p;
     policy_ty := pe_policy_type e; templated := pe_templated e |}.

(** [Display for PolicyType]. *)
Definition policy_type_name (t : PolicyType) : string :=
  match t with Acl => "acl" | Rgp => "rgp" | Egp => "egp" | Token => "token" end.

Module PolicyStore.
Section policy_store.
Context {S Q C : Type} `{HSt : Storage S} `{HC : PolicyCache C} `{HSP : Serde PolicyEntry}
        `{HHcl : HclParser} {T : Type -> Type} `{HT : RadixTrie T} `{HP : Profile}.
Abbreviation W := (World S Q C).
Abbreviation M := (st W RvError).
Abbreviation H := (st (W * Request) RvError).

Context (walk_fuel : nat) (self : PolicyStore).

Definition get_acl_view : M BarrierView.t :=
  st_lift (of_option (ErrString "unable to get the barrier subview for policy type acl") (acl_view self)).
Definition get_rgp_view : M BarrierView.t :=
  st_lift (of_option (ErrString "unable to get the barrier subview for policy type rpg") (rgp_view self)).
Definition get_egp_view : M BarrierView.t :=
  st_lift (of_option (ErrString "unable to get the barrier subview for policy type epg") (egp_view self)).
Definition get_barrier_view (_policy_type : PolicyType) : M BarrierView.t := get_acl_view.

Definition sanitize_name (name : string) : string := to_lowercase name.
Definition cache_key (name : string) : string := name.

(** *** The caches and the type map *)

Inductive CacheSel := TokenLru | EgpLru | NoCache.

Definition sel_on (c : CacheSel) : bool :=
  match c with TokenLru => token_policies_lru self | EgpLru => egp_lru self | NoCache => false end.

Definition lru_get (c : CacheSel) (index : string) : M (option Policy) := fun w =>
  (w, Ok (if sel_on c then
            match c with
            | TokenLru => cache_get (w_token_policies_lru w) index
            | EgpLru => cache_get (w_egp_lru w) index
            | NoCache => None
            end
          else None)).

(** [true] when the entry was admitted, or there is no cache. *)
Definition lru_insert (c : CacheSel) (index : string) (p : Policy) : M bool := fun w =>
  if sel_on c then
    match c with
    | TokenLru => let '(l, b) := cache_insert (w_token_policies_lru w) index p in
                  (set_token_policies_lru l w, Ok b)
    | EgpLru => let '(l, b) := cache_insert (w_egp_lru w) index p in (set_egp_lru l w, Ok b)
    | NoCache => (w, Ok true)
    end
  else (w, Ok true).

Definition lru_remove (c : CacheSel) (index : string) : M unit := fun w =>
  if sel_on c then
    match c with
    | TokenLru => (set_token_policies_lru (cache_remove (w_token_policies_lru w) index) w, Ok tt)
    | EgpLru => (set_egp_lru (cache_remove (w_egp_lru w) index) w, Ok tt)
    | NoCache => (w, Ok tt)
    end
  else (w, Ok tt).

Definition save_cache (c : CacheSel) (index : string) (p : Policy) : M unit :=
  let! ok := lru_insert c index p in
  st_guard (negb ok) (ErrString "save token policy cache failed!").
Definition save_token_policy_cache := save_cache TokenLru.
Definition save_egp_cache := save_cache EgpLru.
Definition remove_token_policy_cache := lru_remove TokenLru.
Definition remove_egp_cache := lru_remove EgpLru.

Definition type_get (index : string) : M (option PolicyType) := fun w => (w, Ok (w_policy_types w !! index)).
Definition type_insert (index : string) (t : PolicyType) : M unit := fun w =>
  (set_policy_types (<[index := t]> (w_policy_types w)) w, Ok tt).
Definition type_remove (index : string) : M unit := fun w =>
  (set_policy_types (base.delete index (w_policy_types w)) w, Ok tt).

(** The hooks for sentinel policies do nothing yet. *)
Definition handle_sentinel_policy (_p : Policy) (_v : BarrierView.t) (_e : StorageEntry) : M unit := st_ret tt.
Definition invalidate_sentinal_policy (_t : PolicyType) (_index : string) : M unit := st_ret tt.
Definition invalidate_egp_tree_path (_index : string) : M unit := st_ret tt.

(** *** Reading a policy *)

(** View, cache and effective type for a request of a policy. *)
Definition select_store (index : string) (t : PolicyType)
  : M (option BarrierView.t * CacheSel * PolicyType) :=
  match t with
  | Acl => let! v := get_acl_view in st_ret (Some v, TokenLru, t)
  | Rgp => let! v := get_rgp_view in st_ret (Some v, TokenLru, t)
  | Egp => let! v := get_egp_view in st_ret (Some v, EgpLru, t)
  | Token =>
      let! val := type_get index in
      match val with
      | Some Acl => let! v := get_acl_view in st_ret (Some v, TokenLru, Acl)
      | Some Rgp => let! v := get_rgp_view in st_ret (Some v, TokenLru, Rgp)
      | Some t' => st_fail (ErrString ("invalid type of policy in type map: " ++ policy_type_name t'))
      | None => st_ret (None, NoCache, Token)
      end
  end.

Definition root_policy : Policy := policy_set_name "root" default_policy.

(** The policy of a stored entry, by the effective type. *)
Definition load_policy (t : PolicyType) (index : string) (v : BarrierView.t) (e : StorageEntry)
    (pe : PolicyEntry) : M Policy :=
  match t with
  | Acl =>
      let! p := st_lift (PolicyOps.from_str (pe_raw pe)) in
      let! _ := type_insert index Acl in st_ret p
  | Rgp =>
      let! _ := handle_sentinel_policy default_policy v e in
      let! _ := type_insert index Rgp in st_ret default_policy
  | Egp => let! _ := handle_sentinel_policy default_policy v e in st_ret default_policy
  | Token => st_fail (ErrString "invalid type of policy")
  end.

Definition get_policy (name : string) (t : PolicyType) : M (option Policy) :=
  let name := sanitize_name name in
  let index := cache_key name in
  let! sel := select_store index t in
  let '(view, cache, t) := sel in
  let! hit := lru_get cache index in
  match hit with
  | Some p => st_ret (Some p)
  | None =>
      if bool_decide (t = Acl) && String.eqb name "root" then
        let! _ := lru_insert cache index root_policy in st_ret (Some root_policy)
      else
        match view with
        | None => st_fail (ErrString ("unable to get the barrier subview for policy type " ++ policy_type_name t))
        | Some view =>
            let! entry := view_get view name in
            match entry with
            | None => st_ret None
            | Some entry =>
                let! pe := st_lift (of_option SerdeJson (de (A := PolicyEntry) (se_value entry))) in
                let! p := load_policy t index view entry pe in
                let p := policy_set_entry pe (policy_set_name name p) in
                let! _ := lru_insert cache index p in st_ret (Some p)
            end
        end
  end.

Definition list_policy (t : PolicyType) : M (list string) :=
  let! view := get_barrier_view t in
  match t with
  | Acl =>
      let! keys := view_get_keys walk_fuel view in
      st_ret (filter (λ s, str_in s NON_ASSIGNABLE_POLICIES = false) keys)
  | Rgp | Egp => view_get_keys walk_fuel view
  | Token => st_fail (ErrString "invalid type of policy")
  end.

(** *** Writing a policy *)

Definition name_reused : RvError := ErrString "cannot reuse policy names between ACLs and RGPs".

Definition set_policy_internal (p : Policy) : M unit :=
  let! view := get_barrier_view (policy_ty p) in
  let pe := {| pe_version := 2; pe_raw := raw p; pe_templated := templated p; pe_policy_type := policy_ty p |} in
  let! value := st_lift (of_option SerdeJson (ser pe)) in
  let entry := {| se_key := policy_name p; se_value := value |} in
  let index := cache_key (policy_name p) in
  match policy_ty p with
  | Acl =>
      let! rgp_view := get_rgp_view in
      let! rgp := view_get rgp_view (policy_name p) in
      let! _ := st_guard (bool_decide (is_Some rgp)) name_reused in
      let! _ := view_put view (policy_name p) value in
      let! _ := type_insert index Acl in
      save_token_policy_cache index p
  | Rgp =>
      let! acl_view := get_acl_view in
      let! acl := view_get acl_view (policy_name p) in
      let! _ := st_guard (bool_decide (is_Some acl)) name_reused in
      let! _ := handle_sentinel_policy p view entry in
      let! _ := type_insert index Rgp in
      save_token_policy_cache index p
  | Egp =>
      let! _ := handle_sentinel_policy p view entry in
      save_egp_cache index p
  | Token => st_fail (ErrString "unknown policy type, cannot set")
  end.

Definition set_policy (p : Policy) : M unit :=
  if is_empty (policy_name p) then st_fail (ErrString "policy name missing")
  else
    let name := sanitize_name (policy_name p) in
    if str_in name IMMUTABLE_POLICIES then st_fail (ErrString ("cannot update " ++ name ++ " policy"))
    else if negb (String.eqb name (policy_name p)) then set_policy_internal (policy_set_name name p)
    else set_policy_internal p.

Definition delete_policy (name : string) (t : PolicyType) : M unit :=
  let name := sanitize_name name in
  let! view := get_barrier_view t in
  let index := cache_key name in
  match t with
  | Acl =>
      let! _ := st_guard (str_in name IMMUTABLE_POLICIES)
                  (ErrResponseStatus 400 ("cannot delete " ++ name ++ " policy")) in
      let! _ := st_guard (String.eqb name "default") (ErrResponseStatus 400 "cannot delete default policy") in
      let! _ := view_delete view name in
      let! _ := remove_token_policy_cache index in
      type_remove index
  | Rgp =>
      let! _ := view_delete view name in
      let! _ := remove_token_policy_cache index in
      let! _ := type_remove index in
      invalidate_sentinal_policy t ""
  | Egp =>
      let! _ := view_delete view name in
      let! _ := remove_egp_cache index in
      let! _ := invalidate_egp_tree_path "" in
      invalidate_sentinal_policy t ""
  | Token => st_fail (ErrString "unknown policy type, cannot set")
  end.

Definition load_acl_policy (policy_name policy_text : string) : M unit :=
  let name := sanitize_name policy_name in
  let! policy := get_policy name Acl in
  let keep := match policy with
              | Some p => negb (str_in name IMMUTABLE_POLICIES) || String.eqb policy_text (raw p)
              | None => false
              end in
  if keep then st_ret tt
  else
    let! p := st_lift (PolicyOps.from_str policy_text) in
    set_policy_internal {| policy_name := name; policy_paths := policy_paths p; raw := raw p;
                           policy_ty := Acl; templated := templated p |}.

Definition load_default_acl_policy : M unit :=
  let! _ := load_acl_policy DEFAULT_POLICY_NAME DEFAULT_POLICY in
  let! _ := load_acl_policy RESPONSE_WRAPPING_POLICY_NAME RESPONSE_WRAPPING_POLICY in
  load_acl_policy CONTROL_GROUP_POLICY_NAME CONTROL_GROUP_POLICY.

(** *** The ACL of a token *)

Fixpoint collect_policies (names : list string) : M (list Policy) :=
  match names with
  | [] => st_ret []
  | n :: names =>
      let! p := get_policy n Token in
      let! l := collect_policies names in
      st_ret (match p with Some p => p :: l | None => l end)
  end.

Definition new_acl (policy_names : list string) (additional_policies : option (list Policy)) : M (ACL T) :=
  let! all_policies := collect_policies policy_names in
  st_lift (Acl.new (all_policies ++ default [] additional_policies)%list).

(** *** [AuthHandler for PolicyStore] *)

Definition auth_set_results (r : PolicyResults) (a : Auth) : Auth :=
  {| auth_lease := auth_lease a; auth_client_token := auth_client_token a;
     display_name := display_name a; policies := policies a; token_policies := token_policies a;
     no_default_policy := no_default_policy a; auth_internal_data := auth_internal_data a;
     metadata := metadata a; policy_results := Some r; period := period a;
     auth_explicit_max_ttl := auth_explicit_max_ttl a |}.

Definition root_denied : RvError := ErrString "cannot access root path in unauthenticated request".

Definition post_auth (router : T (RouterEntry T W)) : H unit :=
  let! req := get_req in
  let is_root_path := Router.is_root_path (path req) router in
  match auth req with
  | None => st_guard is_root_path root_denied
  | Some a =>
      match policies a with
      | [] => st_ret tt
      | names =>
          let! acl := on_world (new_acl names None) in
          let! r := st_lift (Acl.allow_operation acl req false) in
          let! _ := st_guard (is_root_path && negb (root_privs r) && negb (bool_decide (operation req = Help)))
                      root_denied in
          let! _ := put_req (set_auth (Some (auth_set_results
                      {| allowed := acl_allowed r; granting_policies := acl_granting_policies r |} a)) req) in
          st_guard (negb (acl_allowed r)) ErrPermissionDenied
      end
  end.

End policy_store.

(** *** Construction *)
Section create_store.
Context {S Q C : Type} `{HSt : Storage S} `{HC : PolicyCache C}.
Abbreviation W := (World S Q C).

Definition default_store : PolicyStore :=
  {| acl_view := None; rgp_view := None; egp_view := None; token_policies_lru := false; egp_lru := false |}.

Definition new (walk_fuel : nat) (system_view : option BarrierView.t) : st W RvError PolicyStore :=
  match system_view with
  | None => st_fail ErrBarrierSealed
  | Some sv =>
      let acl := BarrierView.new_sub_view sv POLICY_ACL_SUB_PATH in
      let rgp := BarrierView.new_sub_view sv POLICY_RGP_SUB_PATH in
      let egp := BarrierView.new_sub_view sv POLICY_EGP_SUB_PATH in
      let! keys := view_get_keys walk_fuel acl in
      let types : gmap string PolicyType :=
        <["root" := Acl]> (foldl (λ m k, <[cache_key k := Acl]> m) ∅ keys) in
      fun w =>
        (set_policy_types types (set_egp_lru cache_new (set_token_policies_lru cache_new w)),
         Ok {| acl_view := Some acl; rgp_view := Some rgp; egp_view := Some egp;
               token_policies_lru := true; egp_lru := true |})
  end.
End create_store.
End PolicyStore.

(** ** The policy module's handlers (mod.rs) *)
Module PolicyModule.
Section handlers.
Context {S Q C : Type} `{HSt : Storage S} `{HC : PolicyCache C} `{HSP : Serde PolicyEntry}
        `{HHcl : HclParser} {T : Type -> Type} `{HT : RadixTrie T} `{HP : Profile} `{HB : Base64}
        `{HH : Humantime} `{HJ : JsonParser}.
Abbreviation W := (World S Q C).
Abbreviation H := (st (W * Request) RvError).
Context (walk_fuel : nat) (policy_store : PolicyStore).

Definition handle_policy_list : H (option Response) :=
  let! req := get_req in
  let! policies := on_world (PolicyStore.list_policy walk_fuel policy_store Acl) in
  let keys := (policies ++ ["root"])%list in
  let resp := ResponseOps.list_response keys in
  st_ret (Some (if starts_with "policy" (path req)
                then ResponseOps.set_data
                       (Some (<["policies" := VArray (map VStr keys)]> (default ∅ (resp_data resp)))) resp
                else resp)).

Definition handle_policy_read : H (option Response) :=
  let! req := get_req in
  let! name := st_lift (RequestOps.get_data_as_str req "name") in
  let! p := on_world (PolicyStore.get_policy policy_store name Acl) in
  match p with
  | Some p =>
      let key := if starts_with "policy" (path req) then "rules" else "policy" in
      st_ret (Some (ResponseOps.data_response (Some (<[key := VStr (raw p)]> {["name" := VStr name]}))))
  | None => st_fail (ErrResponseStatus 404 ("No policy named: " ++ name))
  end.

Definition handle_policy_write : H (option Response) :=
  let! req := get_req in
  let! name := st_lift (RequestOps.get_data_as_str req "name") in
  let! v := st_lift (RequestOps.get_data req "policy") in
  let! policy_str := st_lift (of_option ErrRequestFieldInvalid (as_str v)) in
  let policy_raw := match base64_decode policy_str with Some b => from_utf8_lossy b | None => policy_str end in
  let! p := st_lift (PolicyOps.from_str policy_raw) in
  let! _ := on_world (PolicyStore.set_policy policy_store (policy_set_name name p)) in
  st_ret None.

Definition handle_policy_delete : H (option Response) :=
  let! req := get_req in
  let! name := st_lift (RequestOps.get_data_as_str req "name") in
  let! _ := on_world (PolicyStore.delete_policy policy_store name Acl) in
  st_ret None.

End handlers.

(** [init] of the module: a new store with the built-in policies. *)
Section lifecycle.
Context {S Q C : Type} `{HSt : Storage S} `{HC : PolicyCache C} `{HSP : Serde PolicyEntry} `{HHcl : HclParser}.

Definition init (walk_fuel : nat) (system_view : option BarrierView.t)
  : st (World S Q C) RvError PolicyStore :=
  let! ps := PolicyStore.new walk_fuel system_view in
  let! _ := PolicyStore.load_default_acl_policy ps in st_ret ps.
End lifecycle.
End PolicyModule.
