(* ===== verification/PolicyCorrect.v ===== *)
(** * Correctness of the policy store (theorems about
    src/src/modules/policy/policy_store.rs and mod.rs)

    The abstract policy store is a function of the barrier alone ([spec_get]).
    The cached implementation refines it: whatever the cache evicts or refuses,
    reads return the stored policy, writes and deletions take effect at once,
    and the ACL check of a request uses the policies stored at that moment. *)

From stdpp Require Import base tactics list gmap strings.
From Stdlib Require Import ZArith Lia Ascii.
From S2P Require Import Prelude Errors RustStr Utils Lease Storage BarrierCorrect BarrierView Logical LogicalBackend Router Policy AclModel Mount World WorldLaws TokenStore WorldDemo PolicyStore.
Import BarrierView.

Local Open Scope string_scope.

Section policies.
Context {S Q C : Type} `{HSt : Storage S} `{HSS : !StorageSpec S} `{HC : PolicyCache C} `{HCL : !PolicyCacheLaws C}
        `{HSP : Serde PolicyEntry} `{HSPL : !SerdeLaws PolicyEntry}
        `{HHcl : HclParser} {T : Type → Type} `{HT : RadixTrie T} `{HP : Profile}.
Abbreviation W := (World S Q C).
Context (ps : PolicyStore) (sv : t).
Implicit Types w : W.
Abbreviation sm w := (storage_map (w_store w)).
Abbreviation AV := (new_sub_view sv "policy/").
Abbreviation RV := (new_sub_view sv "policy-rgp/").

(** The store of an unsealed vault, as [new] builds it. *)
Definition ps_configured : Prop :=
  acl_view ps = Some AV ∧ rgp_view ps = Some RV ∧ token_policies_lru ps = true ∧ keys_ok AV ∧ keys_ok RV.
Context (Hcfg : ps_configured).

Definition ak (n : string) : string := expand_key AV n.
Definition rk (n : string) : string := expand_key RV n.

Lemma ak_inj n n' : ak n = ak n' → n = n'.
Proof. unfold ak, expand_key. apply app_inj_l. Qed.

Lemma ak_rk n n' : ak n ≠ rk n'.
Proof.
  unfold ak, rk, expand_key, new_sub_view. cbn [prefix]. unfold expand_key. intros H.
  rewrite <- !app_assoc_str in H. by apply app_inj_l in H.
Qed.

(** ** The abstract store *)

Definition entry_policy (n : string) (b : bytes) : option Policy :=
  match de (A := PolicyEntry) b with
  | None => None
  | Some pe =>
      match PolicyOps.from_str (pe_raw pe) with
      | Ok p => Some (policy_set_entry pe (policy_set_name n p))
      | _ => None
      end
  end.

Definition spec_get (m : gmap string bytes) (n : string) : option Policy :=
  if decide (n = "root") then Some PolicyStore.root_policy else m !! ak n ≫= entry_policy n.

Record ps_wf w : Prop := {
  pw_clean : clean (w_store w);
  pw_readable n b : sm w !! ak n = Some b → is_Some (entry_policy n b);
  pw_cache n p : cache_map (w_token_policies_lru w) !! n = Some p → spec_get (sm w) n = Some p;
  pw_types_acl n ty : w_policy_types w !! n = Some ty → ty = Acl ∧ is_Some (spec_get (sm w) n);
  pw_types_known n p : spec_get (sm w) n = Some p → w_policy_types w !! n = Some Acl;
  pw_no_rgp n : sm w !! rk n = None
}.

(** Changes of the world that leave the store alone and keep cache and types in step. *)
Record ps_quiet w w' : Prop := {
  pq_store : w_store w' = w_store w;
  pq_wf : ps_wf w'
}.

Lemma quiet_cache w c' :
  ps_wf w → (∀ n p, cache_map c' !! n = Some p → spec_get (sm w) n = Some p) →
  ps_quiet w (set_token_policies_lru c' w).
Proof. intros [] Hc. by split. Qed.

Lemma quiet_type w n p :
  ps_wf w → spec_get (sm w) n = Some p → ps_quiet w (set_policy_types (<[n := Acl]> (w_policy_types w)) w).
Proof.
  intros [] Hn. split; [done|]. split; simpl; [done..| | |done].
  - intros k ty. destruct (decide (n = k)) as [<-|]; [rewrite lookup_insert_eq|rewrite lookup_insert_ne by done; auto].
    intros [= <-]. eauto.
  - intros k q Hk. destruct (decide (n = k)) as [<-|]; [by rewrite lookup_insert_eq|rewrite lookup_insert_ne by done; eauto].
Qed.

Lemma quiet_trans w1 w2 w3 : ps_quiet w1 w2 → ps_quiet w2 w3 → ps_quiet w1 w3.
Proof. intros [E1 _] [E2 H2]. split; [congruence|done]. Qed.

Lemma quiet_refl w : ps_wf w → ps_quiet w w.
Proof. by split. Qed.

Lemma sub_lookup {A} (m m' : gmap string A) k x : m ⊆ m' → m !! k = Some x → m' !! k = Some x.
Proof. intros Hs Hk. by apply (lookup_weaken _ _ _ _ Hk). Qed.

Lemma lru_insert_any w n p :
  ∃ c' b, PolicyStore.lru_insert ps PolicyStore.TokenLru n p w = (set_token_policies_lru c' w, Ok b) ∧
          cache_map c' ⊆ <[n := p]> (cache_map (w_token_policies_lru w)).
Proof.
  unfold PolicyStore.lru_insert. simpl. destruct Hcfg as (_ & _ & -> & _).
  pose proof (cache_map_insert (w_token_policies_lru w) n p) as Hs.
  destruct (cache_insert _ n p) as [c' b]. by exists c', b.
Qed.

Lemma lru_insert_run w n p :
  ps_wf w → spec_get (sm w) n = Some p →
  ∃ w' b, PolicyStore.lru_insert ps PolicyStore.TokenLru n p w = (w', Ok b) ∧ ps_quiet w w'.
Proof.
  intros Hw Hn. destruct (lru_insert_any w n p) as (c' & b & -> & Hs). eexists _, b. split; [done|].
  apply quiet_cache; [done|]. intros k q Hk. apply (sub_lookup _ _ _ _ Hs) in Hk. destruct (decide (n = k)) as [<-|].
  - rewrite lookup_insert_eq in Hk. congruence.
  - rewrite lookup_insert_ne in Hk by done. by apply (pw_cache _ Hw).
Qed.

(** ** Reading *)

Lemma read_run w n cache_ty :
  ps_wf w → sane n → cache_ty = Acl →
  ∃ w', (let! hit := PolicyStore.lru_get ps PolicyStore.TokenLru n in
         match hit with
         | Some p => st_ret (Some p)
         | None =>
             if bool_decide (cache_ty = Acl) && String.eqb n "root" then
               let! _ := PolicyStore.lru_insert ps PolicyStore.TokenLru n PolicyStore.root_policy in
               st_ret (Some PolicyStore.root_policy)
             else
               let! entry := view_get AV n in
               match entry with
               | None => st_ret None
               | Some entry =>
                   let! pe := st_lift (of_option SerdeJson (de (A := PolicyEntry) (se_value entry))) in
                   let! p := PolicyStore.load_policy cache_ty n AV entry pe in
                   let p := policy_set_entry pe (policy_set_name n p) in
                   let! _ := PolicyStore.lru_insert ps PolicyStore.TokenLru n p in st_ret (Some p)
               end
         end) w = (w', Ok (spec_get (sm w) n)) ∧ ps_quiet w w'.
Proof.
  intros Hw Hs ->. pose proof Hcfg as (_ & _ & Hlru & Hak & _).
  assert (PolicyStore.lru_get ps PolicyStore.TokenLru n w = (w, Ok (cache_get (w_token_policies_lru w) n))) as Hl.
  { unfold PolicyStore.lru_get, PolicyStore.sel_on. by rewrite Hlru. }
  rewrite (st_bind_run _ _ _ _ _ Hl).
  destruct (cache_get _ n) as [p|] eqn:Hget.
  { apply cache_get_sound, (pw_cache _ Hw) in Hget. rewrite Hget. exists w. split; [done|by apply quiet_refl]. }
  rewrite bool_decide_true, andb_true_l by done. unfold spec_get. destruct (decide (n = "root")) as [->|Hroot].
  { rewrite String.eqb_refl. cbv iota. destruct (lru_insert_run w "root" PolicyStore.root_policy Hw) as (w' & b & Hr & Hq); [done|].
    rewrite (st_bind_run _ _ _ _ _ Hr). exists w'. by split. }
  rewrite (proj2 (String.eqb_neq n "root") Hroot). cbv iota.
  rewrite (st_bind_run _ _ _ _ _ (view_get_run AV n w (pw_clean _ Hw) Hs Hak)). fold (ak n).
  destruct (sm w !! ak n) as [b|] eqn:Hb; cbn [fmap option_fmap option_map mbind option_bind se_value]; [|exists w; split; [done|by apply quiet_refl]].
  destruct (pw_readable _ Hw n b Hb) as [p Hp].
  assert (spec_get (sm w) n = Some p) as Hspec by (unfold spec_get; by rewrite decide_False, Hb).
  unfold entry_policy in Hp |- *. destruct (de b) as [pe|]; [|done].
  destruct (PolicyOps.from_str (pe_raw pe)) as [q| |] eqn:Hfs; [|done..]. injection Hp as Hp.
  rewrite (st_bind_run _ _ w w pe) by done.
  rewrite (st_bind_run _ _ w (set_policy_types (<[n := Acl]> (w_policy_types w)) w) q)
    by (unfold PolicyStore.load_policy; by rewrite Hfs).
  pose proof (quiet_type w n p Hw Hspec) as Hq1. rewrite Hp.
  destruct (lru_insert_run _ n p (pq_wf _ _ Hq1)) as (w' & b' & Hr & Hq2); [done|].
  rewrite (st_bind_run _ _ _ _ _ Hr). exists w'. split; [done|]. by eapply quiet_trans.
Qed.

Lemma get_policy_acl_run w name :
  ps_wf w → sane (to_lowercase name) →
  ∃ w', PolicyStore.get_policy ps name Acl w = (w', Ok (spec_get (sm w) (to_lowercase name))) ∧ ps_quiet w w'.
Proof.
  intros Hw Hs. destruct (read_run w (to_lowercase name) Acl Hw Hs eq_refl) as (w' & Hr & Hq).
  exists w'. split; [|done]. unfold PolicyStore.get_policy. cbv zeta.
  unfold PolicyStore.sanitize_name, PolicyStore.cache_key.
  rewrite (st_bind_run _ _ w w (Some AV, PolicyStore.TokenLru, Acl)); [exact Hr|].
  unfold PolicyStore.select_store, PolicyStore.get_acl_view. destruct Hcfg as (-> & _). done.
Qed.

Lemma get_policy_token_run w name :
  ps_wf w → sane (to_lowercase name) →
  match spec_get (sm w) (to_lowercase name) with
  | Some p => ∃ w', PolicyStore.get_policy ps name Token w = (w', Ok (Some p)) ∧ ps_quiet w w'
  | None => PolicyStore.get_policy ps name Token w
            = (w, Err (ErrString "unable to get the barrier subview for policy type token"))
  end.
Proof.
  intros Hw Hs. unfold PolicyStore.get_policy. cbv zeta. unfold PolicyStore.sanitize_name, PolicyStore.cache_key.
  set (n := to_lowercase name) in *. unfold PolicyStore.select_store, PolicyStore.type_get.
  destruct (spec_get (sm w) n) as [p|] eqn:Hn.
  - destruct (read_run w n Acl Hw Hs eq_refl) as (w' & Hr & Hq). rewrite Hn in Hr. exists w'. split; [|done].
    rewrite (st_bind_run _ _ w w (Some AV, PolicyStore.TokenLru, Acl)); [exact Hr|].
    unfold st_bind at 1. rewrite (pw_types_known _ Hw n p Hn). unfold PolicyStore.get_acl_view.
    destruct Hcfg as (-> & _). done.
  - destruct (w_policy_types w !! n) as [ty|] eqn:Ht.
    { destruct (pw_types_acl _ Hw n ty Ht) as [_ [? ?]]. congruence. }
    unfold st_bind at 1. unfold st_bind at 1. by rewrite Ht.
Qed.

(** ** Writing *)

(** A policy as [from_str] parses it from its own text. *)
Definition canonical (p : Policy) : Prop :=
  policy_ty p = Acl ∧ ∃ q, PolicyOps.from_str (raw p) = Ok q ∧ policy_paths p = policy_paths q.

Lemma from_str_raw s p : PolicyOps.from_str s = Ok p → raw p = s ∧ policy_ty p = Acl.
Proof. unfold PolicyOps.from_str. destruct (PolicyOps.parse s); simpl; [|done..]. by intros [= <-]. Qed.

Lemma canonical_from_str s p n : PolicyOps.from_str s = Ok p → canonical (policy_set_name n p).
Proof. intros H. destruct (from_str_raw _ _ H) as [Hr Ht]. split; [done|]. exists p. simpl. by rewrite Hr. Qed.

Lemma spec_get_insert m n b k :
  n ≠ "root" → spec_get (<[ak n := b]> m) k = if decide (k = n) then entry_policy n b else spec_get m k.
Proof.
  intros Hn. unfold spec_get. destruct (decide (k = n)) as [->|Hne].
  - by rewrite decide_False, lookup_insert_eq.
  - destruct (decide (k = "root")); [done|]. rewrite lookup_insert_ne; [done|]. intros ?%ak_inj. congruence.
Qed.

Lemma spec_get_delete m n k :
  n ≠ "root" → spec_get (base.delete (ak n) m) k = if decide (k = n) then None else spec_get m k.
Proof.
  intros Hn. unfold spec_get. destruct (decide (k = n)) as [->|Hne].
  - by rewrite decide_False, lookup_delete_eq.
  - destruct (decide (k = "root")); [done|]. rewrite lookup_delete_ne; [done|]. intros ?%ak_inj. congruence.
Qed.

Definition save_failed : RvError := ErrString "save token policy cache failed!".

Lemma set_policy_internal_run w p :
  ps_wf w → canonical p → sane (policy_name p) → policy_name p ≠ "root" →
  ∃ w' r, PolicyStore.set_policy_internal ps p w = (w', r) ∧ (r = Ok tt ∨ r = Err save_failed) ∧ ps_wf w' ∧
    ∀ k, spec_get (sm w') k = if decide (k = policy_name p) then Some p else spec_get (sm w) k.
Proof.
  intros Hw [Hty (q & Hq & Hpaths)] Hs Hroot. pose proof Hcfg as (Hav & Hrv & Hlru & Hak & Hrk).
  set (n := policy_name p) in *. unfold PolicyStore.set_policy_internal. rewrite Hty.
  unfold PolicyStore.get_barrier_view, PolicyStore.get_acl_view, PolicyStore.get_rgp_view. rewrite Hav, Hrv.
  rewrite (st_bind_run _ _ w w AV) by done. cbv zeta.
  match goal with |- context [ser ?e] => set (pe := e); destruct (ser_total pe) as [b Hb] end.
  rewrite (st_bind_run _ _ w w b) by (unfold st_lift; by rewrite Hb).
  rewrite (st_bind_run _ _ w w RV) by done. fold n.
  rewrite (st_bind_run _ _ _ _ _ (view_get_run RV n w (pw_clean _ Hw) Hs Hrk)). fold (rk n).
  rewrite (pw_no_rgp _ Hw n). rewrite (st_bind_run _ _ w w tt) by done.
  destruct (view_put_run AV n b w (pw_clean _ Hw) Hs Hak) as (s' & Hrun & Hc & Hm & _). fold (ak n) in Hm.
  rewrite (st_bind_run _ _ _ _ _ Hrun).
  rewrite (st_bind_run _ _ _ (set_policy_types (<[n := Acl]> (w_policy_types w)) (set_store s' w)) tt) by done.
  assert (entry_policy n b = Some p) as Hent.
  { unfold entry_policy. rewrite (de_ser _ _ Hb). simpl. rewrite Hq. destruct (from_str_raw _ _ Hq) as [Hraw _].
    f_equal. unfold policy_set_entry, policy_set_name. simpl. rewrite Hraw, <- Hpaths. subst pe n. destruct p. simpl in *. by subst. }
  assert (∀ k, spec_get (storage_map s') k = if decide (k = n) then Some p else spec_get (sm w) k) as Hspec.
  { intros k. rewrite Hm, spec_get_insert by done. by rewrite Hent. }
  unfold PolicyStore.save_token_policy_cache, PolicyStore.save_cache, PolicyStore.cache_key.
  destruct (lru_insert_any (set_policy_types (<[n := Acl]> (w_policy_types w)) (set_store s' w)) n p)
    as (c' & ok & Hins & Hci). rewrite (st_bind_run _ _ _ _ _ Hins). simpl w_token_policies_lru in Hci.
  eexists _, (if ok then Ok tt else Err save_failed). split; [destruct ok; reflexivity|]. split_and!.
  - destruct ok; auto.
  - split; simpl.
    + done.
    + intros k b' Hk. rewrite Hm in Hk. destruct (decide (ak n = ak k)) as [E|].
      * rewrite E, lookup_insert_eq in Hk. apply ak_inj in E as <-. injection Hk as <-. eauto.
      * rewrite lookup_insert_ne in Hk by done. by apply (pw_readable _ Hw).
    + intros k x Hk%(sub_lookup _ _ _ _ Hci). rewrite Hspec. destruct (decide (k = n)) as [->|].
      * by rewrite lookup_insert_eq in Hk.
      * rewrite lookup_insert_ne in Hk by done. by apply (pw_cache _ Hw).
    + intros k ty. rewrite Hspec. destruct (decide (k = n)) as [->|].
      * rewrite lookup_insert_eq. intros [= <-]. eauto.
      * rewrite lookup_insert_ne by done. apply (pw_types_acl _ Hw).
    + intros k x. rewrite Hspec. destruct (decide (k = n)) as [->|].
      * by rewrite lookup_insert_eq.
      * rewrite lookup_insert_ne by done. apply (pw_types_known _ Hw).
    + intros k. rewrite Hm, lookup_insert_ne by apply ak_rk. apply (pw_no_rgp _ Hw).
  - exact Hspec.
Qed.

Lemma immutable_not_root n : str_in n IMMUTABLE_POLICIES = false → n ≠ "root".
Proof. by intros H ->. Qed.

Lemma set_policy_run w p :
  let n := to_lowercase (policy_name p) in
  ps_wf w → canonical p → policy_name p ≠ "" → sane n → str_in n IMMUTABLE_POLICIES = false →
  ∃ w' r, PolicyStore.set_policy ps p w = (w', r) ∧ (r = Ok tt ∨ r = Err save_failed) ∧ ps_wf w' ∧
    ∀ k, spec_get (sm w') k = if decide (k = n) then Some (policy_set_name n p) else spec_get (sm w) k.
Proof.
  intros n Hw Hcan Hne Hs Him.
  assert (canonical (policy_set_name n p)) as Hcan' by done.
  destruct (set_policy_internal_run w (policy_set_name n p) Hw Hcan' Hs (immutable_not_root _ Him))
    as (w' & r & Hrun & Hr & Hw' & Hspec).
  exists w', r. split_and!; [|done..]. unfold PolicyStore.set_policy.
  destruct (is_empty (policy_name p)) eqn:E; [by apply is_empty_spec in E|]. cbv zeta.
  unfold PolicyStore.sanitize_name. fold n. rewrite Him. destruct (String.eqb_spec n (policy_name p)) as [He|He]; [|done].
  simpl negb. cbv iota. rewrite <- Hrun. rewrite He. by destruct p.
Qed.

Lemma delete_policy_run w name :
  let n := to_lowercase name in
  ps_wf w → sane n → str_in n IMMUTABLE_POLICIES = false → n ≠ "default" →
  ∃ w', PolicyStore.delete_policy ps name Acl w = (w', Ok tt) ∧ ps_wf w' ∧
    ∀ k, spec_get (sm w') k = if decide (k = n) then None else spec_get (sm w) k.
Proof.
  intros n Hw Hs Him Hdef. pose proof Hcfg as (Hav & _ & Hlru & Hak & _). pose proof (immutable_not_root _ Him) as Hroot.
  unfold PolicyStore.delete_policy, PolicyStore.get_barrier_view, PolicyStore.get_acl_view. cbv zeta. rewrite Hav.
  unfold PolicyStore.sanitize_name. fold n. rewrite (st_bind_run _ _ w w AV) by done.
  rewrite Him, (proj2 (String.eqb_neq n "default") Hdef). do 2 rewrite (st_bind_run _ _ w w tt) by done.
  destruct (view_delete_run AV n w (pw_clean _ Hw) Hs Hak) as (s' & Hrun & Hc & Hm & _). fold (ak n) in Hm.
  rewrite (st_bind_run _ _ _ _ _ Hrun).
  pose proof (cache_map_remove (w_token_policies_lru w) n) as Hcr. set (c' := cache_remove _ n) in *.
  rewrite (st_bind_run _ _ _ (set_token_policies_lru c' (set_store s' w)) tt)
    by (unfold PolicyStore.remove_token_policy_cache, PolicyStore.lru_remove, PolicyStore.sel_on; by rewrite Hlru).
  assert (∀ k, spec_get (storage_map s') k = if decide (k = n) then None else spec_get (sm w) k) as Hspec.
  { intros k. by rewrite Hm, spec_get_delete. }
  eexists. split; [reflexivity|]. split; [|exact Hspec]. split; simpl.
  - done.
  - intros k b Hk. rewrite Hm in Hk. apply lookup_delete_Some in Hk as [_ Hk]. by apply (pw_readable _ Hw).
  - intros k x Hk%(sub_lookup _ _ _ _ Hcr). apply lookup_delete_Some in Hk as [Hk Hx]. rewrite Hspec, decide_False by done.
    by apply (pw_cache _ Hw).
  - intros k ty. rewrite Hspec, lookup_delete_Some. intros [Hk Ht]. rewrite decide_False by done. by apply (pw_types_acl _ Hw).
  - intros k x. rewrite Hspec. destruct (decide (k = n)) as [->|]; [done|]. intros Hx.
    rewrite lookup_delete_ne by done. by eapply (pw_types_known _ Hw).
  - intros k. rewrite Hm, lookup_delete_ne by apply ak_rk. apply (pw_no_rgp _ Hw).
Qed.

(** ** The ACL of a token *)

#[local] Instance sane_dec n : Decision (sane n).
Proof. unfold sane, Decision. destruct (sanity_check n) as [[]| |]; [by left|by right..]. Defined.

Lemma view_get_unsane v n w : ¬ sane n → view_get v n w = (w, Err ErrBarrierKeySanityCheckFailed).
Proof. unfold sane, view_get, BarrierView.get, sanity_check. intros Hs. by repeat case_match. Qed.

Lemma get_policy_token_cases w name :
  ps_wf w →
  (∃ p w', PolicyStore.get_policy ps name Token w = (w', Ok (Some p)) ∧ ps_quiet w w' ∧
           spec_get (sm w) (to_lowercase name) = Some p) ∨
  (∃ e, PolicyStore.get_policy ps name Token w = (w, Err e) ∧ e ≠ ErrHandlerDefault ∧
        (spec_get (sm w) (to_lowercase name) = None ∨ ¬ sane (to_lowercase name))).
Proof.
  intros Hw. set (n := to_lowercase name). destruct (decide (sane n)) as [Hs|Hs].
  { pose proof (get_policy_token_run w name Hw Hs) as Hget. fold n in Hget. destruct (spec_get (sm w) n) as [p|].
    - destruct Hget as (w' & ? & ?). left. by exists p, w'.
    - right. eexists. split; [exact Hget|by auto]. }
  pose proof Hcfg as (Hav & _ & Hlru & _). unfold PolicyStore.get_policy. cbv zeta.
  unfold PolicyStore.sanitize_name, PolicyStore.cache_key. fold n.
  destruct (w_policy_types w !! n) as [ty|] eqn:Ht.
  - destruct (pw_types_acl _ Hw n ty Ht) as [-> _].
    rewrite (st_bind_run _ _ w w (Some AV, PolicyStore.TokenLru, Acl)).
    2: { unfold PolicyStore.select_store, PolicyStore.type_get, st_bind at 1. rewrite Ht.
         unfold PolicyStore.get_acl_view. by rewrite Hav. }
    rewrite (st_bind_run _ _ w w (cache_get (w_token_policies_lru w) n))
      by (unfold PolicyStore.lru_get, PolicyStore.sel_on; by rewrite Hlru).
    destruct (cache_get _ n) as [p|] eqn:Hc.
    + left. exists p, w. split_and!; [done|by apply quiet_refl|]. by apply (pw_cache _ Hw), cache_get_sound.
    + right. destruct (String.eqb_spec n "root") as [E|_]; [by rewrite E in Hs|]. rewrite andb_false_r.
      eexists. rewrite (st_bind_err _ _ _ _ _ (view_get_unsane AV n w Hs)). auto.
  - right. eexists. unfold PolicyStore.select_store, PolicyStore.type_get, st_bind at 1, st_bind at 1. rewrite Ht.
    split; [reflexivity|by auto].
Qed.

(** Looking up the names one by one, in the stored policies. *)
Lemma collect_run names w :
  ps_wf w →
  (∃ l w', Forall2 (λ n p, spec_get (sm w) (to_lowercase n) = Some p) names l ∧
           PolicyStore.collect_policies ps names w = (w', Ok l) ∧ ps_quiet w w') ∨
  (∃ n e w', n ∈ names ∧ (spec_get (sm w) (to_lowercase n) = None ∨ ¬ sane (to_lowercase n)) ∧ ps_quiet w w' ∧
             e ≠ ErrHandlerDefault ∧ PolicyStore.collect_policies ps names w = (w', Err e)).
Proof.
  revert w. induction names as [|n names IH]; intros w Hw; cbn [PolicyStore.collect_policies].
  { left. exists [], w. split_and!; [constructor|done|by apply quiet_refl]. }
  destruct (get_policy_token_cases w n Hw) as [(p & w1 & Hr1 & Hq1 & Hp)|(e & Hr & He & Hn)].
  - rewrite (st_bind_run _ _ _ _ _ Hr1).
    destruct (IH w1 (pq_wf _ _ Hq1)) as [(l & w2 & Hl & Hr2 & Hq2)|(m & e & w2 & Hm & Hnone & Hq2 & He & Hr2)].
    + left. exists (p :: l), w2. rewrite (st_bind_run _ _ _ _ _ Hr2). split_and!; [|done|by eapply quiet_trans].
      constructor; [done|]. by rewrite (pq_store _ _ Hq1) in Hl.
    + right. exists m, e, w2. rewrite (st_bind_err _ _ _ _ _ Hr2). rewrite (pq_store _ _ Hq1) in Hnone.
      split_and!; [by apply list_elem_of_further|done|by eapply quiet_trans|done|done].
  - right. exists n, e, w. rewrite (st_bind_err _ _ _ _ _ Hr).
    split_and!; [apply list_elem_of_here|done|by apply quiet_refl|done|done].
Qed.

(** *** Errors of the check are never the default one, which is skipped *)

Lemma acl_new_err l e : Acl.new (T := T) l = Err e → e ≠ ErrHandlerDefault.
Proof.
  unfold Acl.new. generalize (length l) (Acl.empty (T := T)). induction l as [|p l IH]; intros c acl; simpl; [done|].
  destruct (policy_ty p); [|apply IH|by intros [= <-]..].
  destruct (_ && _); [by intros [= <-]|apply IH].
Qed.

Lemma scan_parts_no_err bm path pps perm total parts e : ∀ i pd segs,
  Acl.scan_parts bm path pps perm total i pd segs parts ≠ Err e.
Proof.
  induction parts as [|a parts IH]; intros i pd segs; simpl; [done|].
  destruct (pps !! i); [|done]. unfold Acl.at_mount_end.
  repeat (case_match; simpl; try done; try (apply IH)).
Qed.

Lemma scan_rules_no_err bm path pps rules e : ∀ ds, Acl.scan_rules bm path pps ds rules ≠ Err e.
Proof.
  induction rules as [|[f perm] rules IH]; intros ds; cbn [Acl.scan_rules]; [done|].
  assert (∀ e', Acl.scan_rule bm path pps f perm ≠ Err e') as Hs.
  { intros e'. unfold Acl.scan_rule. repeat (case_match; try done); apply scan_parts_no_err. }
  destruct (Acl.scan_rule bm path pps f perm) as [[]|e'|] eqn:E; simpl; [apply IH|done|apply IH| |done].
  by destruct (Hs e').
Qed.

Lemma allow_operation_no_err (acl : ACL T) req co e : Acl.allow_operation acl req co ≠ Err e.
Proof.
  unfold Acl.allow_operation. destruct (root acl); [done|]. destruct (bool_decide _); [done|].
  destruct (trie_get _ _); [done|]. destruct (if bool_decide _ then _ else _); [done|].
  assert (∀ e', Acl.get_none_exact_paths_permissions acl (StringUtils.ensure_no_leading_slash (path req)) false ≠ Err e') as Hn.
  { intros e'. unfold Acl.get_none_exact_paths_permissions. destruct (bool_decide _); [done|].
    match goal with |- context [Acl.scan_rules ?a ?b ?c ?d ?f] =>
      pose proof (λ e, scan_rules_no_err a b c f e d) as Hs; destruct (Acl.scan_rules a b c d f) as [[]|e0|] end;
      [done|done|by destruct (Hs e0)|done]. }
  destruct (Acl.get_none_exact_paths_permissions _ _ _) as [[]|e'|]; [done|done|by destruct (Hn e')|done].
Qed.

Lemma new_acl_cases names w :
  ps_wf w →
  ∃ w', ps_quiet w w' ∧
    ((∃ l acl, Forall2 (λ n p, spec_get (sm w) (to_lowercase n) = Some p) names l ∧ Acl.new (T := T) l = Ok acl ∧
               PolicyStore.new_acl ps names None w = (w', Ok acl)) ∨
     (∃ e, e ≠ ErrHandlerDefault ∧ PolicyStore.new_acl (T := T) ps names None w = (w', Err e)) ∨
     PolicyStore.new_acl (T := T) ps names None w = (w', Panic)).
Proof.
  intros Hw. unfold PolicyStore.new_acl.
  destruct (collect_run names w Hw) as [(l & w2 & Hl & Hr & Hq)|(n & e & w2 & _ & _ & Hq & He & Hr)]; exists w2; (split; [done|]).
  - rewrite (st_bind_run _ _ _ _ _ Hr). simpl. rewrite app_nil_r. unfold st_lift.
    destruct (Acl.new l) as [acl|e|] eqn:Hn; [left; by eauto|right; left|by right; right].
    exists e. split; [by eapply acl_new_err|done].
  - rewrite (st_bind_err _ _ _ _ _ Hr). right. left. by eauto.
Qed.

(** The check of a request with policies, once its ACL is built. *)
Lemma post_auth_step w (router : T (RouterEntry T W)) req a :
  auth req = Some a → policies a ≠ [] →
  PolicyStore.post_auth ps router (w, req) =
  match PolicyStore.new_acl (T := T) ps (policies a) None w with
  | (w', Ok acl) =>
      match Acl.allow_operation acl req false with
      | Ok r =>
          if Router.is_root_path (path req) router && negb (root_privs r) && negb (bool_decide (operation req = Help))
          then ((w', req), Err PolicyStore.root_denied)
          else ((w', set_auth (Some (PolicyStore.auth_set_results
                       {| allowed := acl_allowed r; granting_policies := acl_granting_policies r |} a)) req),
                if acl_allowed r then Ok tt else Err ErrPermissionDenied)
      | Err e => ((w', req), Err e)
      | Panic => ((w', req), Panic)
      end
  | (w', Err e) => ((w', req), Err e)
  | (w', Panic) => ((w', req), Panic)
  end.
Proof.
  intros Ha Hne. unfold PolicyStore.post_auth. rewrite (st_bind_run _ _ (w, req) (w, req) req) by done. rewrite Ha.
  destruct (policies a) as [|n0 names]; [done|]. unfold st_bind at 1, on_world.
  destruct (PolicyStore.new_acl ps _ None w) as [w' [acl|e|]]; [|done..]. unfold st_bind at 1, st_lift.
  destruct (Acl.allow_operation acl req false) as [r|e|]; [|done..]. unfold st_bind, st_guard, put_req.
  destruct (_ && _ && _); [done|]. simpl. by destruct (acl_allowed r).
Qed.

Lemma post_auth_err w s' (router : T (RouterEntry T W)) req e :
  ps_wf w → PolicyStore.post_auth ps router (w, req) = (s', Err e) → e ≠ ErrHandlerDefault.
Proof.
  intros Hw. destruct (auth req) as [a|] eqn:Ha.
  2: { unfold PolicyStore.post_auth. rewrite (st_bind_run _ _ (w, req) (w, req) req) by done. rewrite Ha.
       unfold st_guard. destruct (Router.is_root_path _ _); by intros [= <- <-]. }
  destruct (decide (policies a = [])) as [Hp|Hp].
  { unfold PolicyStore.post_auth. rewrite (st_bind_run _ _ (w, req) (w, req) req) by done. by rewrite Ha, Hp. }
  rewrite (post_auth_step _ _ _ _ Ha Hp).
  destruct (new_acl_cases (policies a) w Hw) as (w2 & _ & [(l & acl & _ & _ & Hr)|[(e' & He & Hr)|Hr]]); rewrite Hr;
    [|by intros [= <- <-]|done].
  destruct (Acl.allow_operation acl req false) as [r|e'|] eqn:Hall; [|by apply allow_operation_no_err in Hall|done].
  destruct (_ && _ && _); [by intros [= <- <-]|]. destruct (acl_allowed r); by intros [= <- <-].
Qed.

(** A check that passes used the stored policies. *)
Lemma post_auth_ok w w' (router : T (RouterEntry T W)) req req' a :
  ps_wf w → auth req = Some a → policies a ≠ [] →
  PolicyStore.post_auth ps router (w, req) = ((w', req'), Ok tt) →
  ps_quiet w w' ∧
  ∃ l acl res, Forall2 (λ n p, spec_get (sm w) (to_lowercase n) = Some p) (policies a) l ∧
    Acl.new (T := T) l = Ok acl ∧ Acl.allow_operation acl req false = Ok res ∧ acl_allowed res = true ∧
    (Router.is_root_path (path req) router = true → root_privs res = true ∨ operation req = Help).
Proof.
  intros Hw Ha Hne. rewrite (post_auth_step _ _ _ _ Ha Hne).
  destruct (new_acl_cases (policies a) w Hw) as (w2 & Hq & [(l & acl & Hl & Hnew & Hr)|[(e' & He & Hr)|Hr]]); rewrite Hr;
    [|done..].
  destruct (Acl.allow_operation acl req false) as [r|e'|] eqn:Hall; [|done..].
  destruct (_ && _ && _) eqn:Hguard; [done|]. destruct (acl_allowed r) eqn:Hok; [|done]. intros [= <- <-].
  split; [done|]. exists l, acl, r. split_and!; [done..|]. intros Hroot. rewrite Hroot in Hguard.
  destruct (root_privs r); [by left|]. right. by destruct (bool_decide_reflect (operation req = Help)).
Qed.

End policies.

(** ** Theorems *)
Section theorems.
Context {S Q C : Type} `{HSt : Storage S} `{HSS : !StorageSpec S} `{HC : PolicyCache C} `{HCL : !PolicyCacheLaws C}
        `{HSP : Serde PolicyEntry} `{HSPL : !SerdeLaws PolicyEntry}
        `{HHcl : HclParser} {T : Type → Type} `{HT : RadixTrie T} `{HP : Profile} `{HB : Base64}
        `{HH : Humantime} `{HJ : JsonParser}.
Abbreviation W := (World S Q C).
Context (ps : PolicyStore) (sv : t).
Abbreviation policy_in w n := (spec_get sv (storage_map (w_store w)) n).

(** C16: the cached policy store implements the map of stored policies: reading
    returns the stored policy, whatever the cache holds or evicts; a write or a
    deletion takes effect at once and on its own name only, even when the cache
    refuses the new entry; the built-in policies refuse both; and every
    operation keeps cache, type map and storage in step. *)
Theorem policy_store_refines (w : W) (name : string) :
  let n := to_lowercase name in
  ps_configured ps sv → ps_wf sv w → sane n →
  (∃ w', PolicyStore.get_policy ps name Acl w = (w', Ok (policy_in w n)) ∧ ps_wf sv w' ∧
         ∀ k, policy_in w' k = policy_in w k) ∧
  (∀ p, policy_name p = name → name ≠ "" → canonical p → n ∉ IMMUTABLE_POLICIES →
     ∃ w' r, PolicyStore.set_policy ps p w = (w', r) ∧ (r = Ok tt ∨ r = Err save_failed) ∧ ps_wf sv w' ∧
             ∀ k, policy_in w' k = if decide (k = n) then Some (policy_set_name n p) else policy_in w k) ∧
  (n ∉ IMMUTABLE_POLICIES → n ≠ "default" →
     ∃ w', PolicyStore.delete_policy ps name Acl w = (w', Ok tt) ∧ ps_wf sv w' ∧
           ∀ k, policy_in w' k = if decide (k = n) then None else policy_in w k) ∧
  (n ∈ IMMUTABLE_POLICIES →
     (∃ e, PolicyStore.delete_policy ps name Acl w = (w, Err e)) ∧
     ∀ p, policy_name p = name → ∃ e, PolicyStore.set_policy ps p w = (w, Err e)).
Proof.
  intros n Hcfg Hw Hs.
  assert (n ∉ IMMUTABLE_POLICIES → str_in n IMMUTABLE_POLICIES = false) as Him.
  { intros Hn. apply not_true_iff_false. by rewrite str_in_spec. }
  split_and!.
  - destruct (get_policy_acl_run ps sv Hcfg w name Hw Hs) as (w' & Hr & [Hst Hw']). exists w'.
    split_and!; [done|done|]. by rewrite Hst.
  - intros p <- Hne Hcan Hn. apply (set_policy_run ps sv Hcfg w p); auto.
  - intros Hn Hdef. apply (delete_policy_run ps sv Hcfg w name); auto.
  - intros Hn%str_in_spec. split.
    + unfold PolicyStore.delete_policy, PolicyStore.get_barrier_view, PolicyStore.get_acl_view.
      destruct Hcfg as (-> & _). eexists. rewrite (st_bind_run _ _ w w (new_sub_view sv "policy/")) by done.
      unfold PolicyStore.sanitize_name. fold n. rewrite Hn. reflexivity.
    + intros p Hp. unfold PolicyStore.set_policy. destruct (is_empty (policy_name p)); [by eexists|].
      unfold PolicyStore.sanitize_name. rewrite Hp. fold n. rewrite Hn. by eexists.
Qed.

(** A policy written through [sys/policy/<name>] is read back with the very
    text that was written (decoded first when it is base64), whoever reads it
    and whatever the cache did. *)
Theorem policy_write_read (w : W) (req req2 : Request) (name text : string) (p : Policy) :
  let txt := match base64_decode text with Some b => from_utf8_lossy b | None => text end in
  ps_configured ps sv → ps_wf sv w → sane (to_lowercase name) → name ≠ "" →
  to_lowercase name ∉ IMMUTABLE_POLICIES →
  RequestOps.get_data_as_str req "name" = Ok name → RequestOps.get_data req "policy" = Ok (VStr text) →
  PolicyOps.from_str txt = Ok p → RequestOps.get_data_as_str req2 "name" = Ok name →
  ∃ w' r, PolicyModule.handle_policy_write ps (w, req) = ((w', req), r) ∧ (r = Ok None ∨ r = Err save_failed) ∧
    ∃ w'' resp d, PolicyModule.handle_policy_read ps (w', req2) = ((w'', req2), Ok (Some resp)) ∧
      resp_data resp = Some d ∧ d !! "name" = Some (VStr name) ∧
      d !! (if starts_with "policy" (path req2) then "rules" else "policy") = Some (VStr txt).
Proof.
  intros txt Hcfg Hw Hs Hne Him Hn Hp Hfs Hn2.
  assert (str_in (to_lowercase name) IMMUTABLE_POLICIES = false) as Him' by (apply not_true_iff_false; by rewrite str_in_spec).
  destruct (set_policy_run ps sv Hcfg w (policy_set_name name p) Hw (canonical_from_str _ _ _ Hfs) Hne Hs Him')
    as (w' & r & Hrun & Hr & Hw' & Hspec). simpl policy_name in Hspec.
  destruct (get_policy_acl_run ps sv Hcfg w' name Hw' Hs) as (w2 & Hget & _).
  rewrite Hspec, decide_True in Hget by done.
  exists w', (match r with Ok _ => Ok None | Err e => Err e | Panic => Panic end). split_and!.
  - unfold PolicyModule.handle_policy_write. rewrite (st_bind_run _ _ (w, req) (w, req) req) by done.
    rewrite (st_bind_run _ _ (w, req) (w, req) name) by (unfold st_lift; by rewrite Hn).
    rewrite (st_bind_run _ _ (w, req) (w, req) (VStr text)) by (unfold st_lift; by rewrite Hp).
    rewrite (st_bind_run _ _ (w, req) (w, req) text) by done. cbv zeta. fold txt.
    rewrite (st_bind_run _ _ (w, req) (w, req) p) by (unfold st_lift; by rewrite Hfs).
    unfold st_bind at 1, on_world. rewrite Hrun. by destruct Hr as [->| ->].
  - destruct Hr as [->| ->]; auto.
  - eexists w2, _, _. split_and!.
    + unfold PolicyModule.handle_policy_read. rewrite (st_bind_run _ _ (w', req2) (w', req2) req2) by done.
      rewrite (st_bind_run _ _ (w', req2) (w', req2) name) by (unfold st_lift; by rewrite Hn2).
      unfold st_bind at 1, on_world. rewrite Hget. reflexivity.
    + reflexivity.
    + rewrite lookup_insert_ne by (by destruct (starts_with _ _)). by rewrite lookup_singleton_eq.
    + rewrite lookup_insert_eq. simpl raw. by destruct (from_str_raw _ _ Hfs) as [-> _].
Qed.

(** The ACL check after authentication lets a request with policies pass
    only when every policy of the token is stored at that moment, the ACL they
    compile to allows the operation, and, on a root path, grants root
    privileges (requests for help aside); it does not change the store. *)
Theorem post_auth_sound (w w' : W) (router : T (RouterEntry T W)) (req req' : Request) (a : Auth) :
  ps_configured ps sv → ps_wf sv w → auth req = Some a → policies a ≠ [] →
  PolicyStore.post_auth ps router (w, req) = ((w', req'), Ok tt) →
  w_store w' = w_store w ∧ ps_wf sv w' ∧
  ∃ l acl res, Forall2 (λ n p, policy_in w (to_lowercase n) = Some p) (policies a) l ∧
    Acl.new (T := T) l = Ok acl ∧ Acl.allow_operation acl req false = Ok res ∧ acl_allowed res = true ∧
    (Router.is_root_path (path req) router = true → root_privs res = true ∨ operation req = Help).
Proof.
  intros Hcfg Hw Ha Hne Hrun. by destruct (post_auth_ok ps sv Hcfg w w' router req req' a Hw Ha Hne Hrun) as [[] ?].
Qed.

(** A token without policies passes the ACL check on every path, root paths
    included: no policy is consulted. *)
Theorem post_auth_without_policies (w : W) (router : T (RouterEntry T W)) (req : Request) (a : Auth) :
  auth req = Some a → policies a = [] → PolicyStore.post_auth ps router (w, req) = ((w, req), Ok tt).
Proof.
  intros Ha Hp. unfold PolicyStore.post_auth. rewrite (st_bind_run _ _ (w, req) (w, req) req) by done.
  by rewrite Ha, Hp.
Qed.
End theorems.

(** ** Witnesses *)

#[global] Instance PolicyType_eq_dec : EqDecision PolicyType.
Proof. solve_decision. Defined.
#[global] Instance PolicyType_countable : Countable PolicyType.
Proof.
  refine (inj_countable' (λ t, match t with Acl => 0%nat | Rgp => 1%nat | Egp => 2%nat | Token => 3%nat end)
    (λ n, match n with O => Acl | 1%nat => Rgp | 2%nat => Egp | _ => Token end) _). by intros [].
Defined.
#[global] Instance PolicyEntry_eq_dec : EqDecision PolicyEntry.
Proof. solve_decision. Defined.
#[global] Instance PolicyEntry_countable : Countable PolicyEntry.
Proof.
  refine (inj_countable' (λ e, (pe_version e, pe_raw e, pe_templated e, pe_policy_type e))
    (λ '(v, r, t, p), {| pe_version := v; pe_raw := r; pe_templated := t; pe_policy_type := p |}) _). by intros [].
Defined.

Definition policy_serde : Serde PolicyEntry := countable_serde PolicyEntry.
Definition policy_serde_laws : SerdeLaws PolicyEntry (H := policy_serde) := countable_serde_laws PolicyEntry.

(** A parser that accepts every text as a policy without rules. *)
Definition empty_hcl : HclParser := fun _ => Some {| attributes := []; blocks := [] |}.
Definition no_base64 : Base64 := fun _ => None.

Definition demo_ps : PolicyStore :=
  {| acl_view := Some (new_sub_view demo_sys "policy/"); rgp_view := Some (new_sub_view demo_sys "policy-rgp/");
     egp_view := Some (new_sub_view demo_sys "policy-egp/"); token_policies_lru := true; egp_lru := true |}.

Definition demo_pworld : DemoWorld := set_policy_types {["root" := Acl]} demo_world.

Section witnesses.
#[local] Existing Instance demo_storage.
#[local] Existing Instance demo_storage_spec.
#[local] Existing Instance policy_map.
#[local] Existing Instance policy_map_laws.
#[local] Existing Instance policy_serde.
#[local] Existing Instance policy_serde_laws.
#[local] Existing Instance empty_hcl.
#[local] Existing Instance no_base64.
#[local] Existing Instance no_durations.
#[local] Existing Instance no_json.
#[local] Instance demo_profile : Profile := true.

Lemma demo_ps_configured : ps_configured demo_ps demo_sys.
Proof. split_and!; try reflexivity; intros k _; exact I. Qed.

Lemma demo_ps_wf : ps_wf demo_sys demo_pworld.
Proof.
  assert (∀ n, spec_get demo_sys (storage_map (w_store demo_pworld)) n
               = if decide (n = "root") then Some PolicyStore.root_policy else None) as Hs.
  { intros n. unfold spec_get. by destruct (decide (n = "root")). }
  split.
  - split; [exact demo_operational|]. by vm_compute.
  - intros n b Hb. discriminate Hb.
  - intros n p Hp. discriminate Hp.
  - intros n ty. rewrite Hs. simpl. intros [<- <-]%lookup_singleton_Some. rewrite decide_True by done. eauto.
  - intros n p. rewrite Hs. destruct (decide (n = "root")) as [->|]; [|done]. intros _. apply lookup_singleton_eq.
  - intros n. reflexivity.
Qed.

Lemma policy_store_refines_witness :
  ∃ w', PolicyStore.get_policy demo_ps "ROOT" Acl demo_pworld = (w', Ok (Some PolicyStore.root_policy)).
Proof.
  destruct (policy_store_refines demo_ps demo_sys demo_pworld "ROOT" demo_ps_configured demo_ps_wf) as [(w' & Hr & _) _].
  - reflexivity.
  - exists w'. exact Hr.
Defined.

Definition demo_policy_request (op_path : string) (d : gmap string Value) : Request :=
  let f := {| required := false; field_type := Str; field_default := VNull; description := "" |} in
  set_match_path (Some {| pattern := "policy/(?P<name>.+)"; fields := <["name" := f]> {["policy" := f]};
                          path_help := "" |})
    (set_data (Some d) (RequestOps.new op_path)).

Definition demo_write_request : Request :=
  demo_policy_request "policy/dev" (<["name" := VStr "dev"]> {["policy" := VStr "rules"]}).
Definition demo_read_request : Request := demo_policy_request "policy/dev" {["name" := VStr "dev"]}.

Lemma policy_write_read_witness :
  ∃ w' r w'' resp d,
    PolicyModule.handle_policy_write demo_ps (demo_pworld, demo_write_request) = ((w', demo_write_request), r) ∧
    PolicyModule.handle_policy_read demo_ps (w', demo_read_request) = ((w'', demo_read_request), Ok (Some resp)) ∧
    resp_data resp = Some d ∧ d !! "rules" = Some (VStr "rules").
Proof.
  destruct (policy_write_read demo_ps demo_sys demo_pworld demo_write_request demo_read_request "dev" "rules"
              {| policy_name := ""; policy_paths := []; raw := "rules"; policy_ty := Acl; templated := false |}
              demo_ps_configured demo_ps_wf) as (w' & r & Hw & _ & w'' & resp & d & Hr & Hd & _ & Hx).
  - reflexivity.
  - discriminate.
  - intros Hin. apply str_in_spec in Hin. discriminate Hin.
  - reflexivity.
  - reflexivity.
  - reflexivity.
  - reflexivity.
  - exists w', r, w'', resp, d. split_and!; [exact Hw|exact Hr|exact Hd|exact Hx].
Defined.

Definition demo_root_auth : Auth :=
  let a := TokenStore.default_auth 0 in
  {| auth_lease := auth_lease a; auth_client_token := "t1"; display_name := "root"; policies := ["root"];
     token_policies := ["root"]; no_default_policy := false; auth_internal_data := ∅; metadata := ∅;
     policy_results := None; period := 0; auth_explicit_max_ttl := 0 |}.

Definition demo_authed : Request := set_auth (Some demo_root_auth) (RequestOps.new "secret/a").

Lemma post_auth_sound_witness :
  ∃ l acl, Forall2 (λ n p, spec_get demo_sys (storage_map (w_store demo_pworld)) (to_lowercase n) = Some p) ["root"] l ∧
           Acl.new (T := gmap string) l = Ok acl.
Proof.
  destruct (PolicyStore.post_auth (T := gmap string) demo_ps ∅ (demo_pworld, demo_authed)) as [[w' req'] r] eqn:E.
  assert (snd (PolicyStore.post_auth (T := gmap string) demo_ps ∅ (demo_pworld, demo_authed)) = Ok tt) as E2 by reflexivity.
  rewrite E in E2. simpl in E2. subst r.
  destruct (post_auth_sound demo_ps demo_sys demo_pworld w' ∅ demo_authed req' demo_root_auth
              demo_ps_configured demo_ps_wf eq_refl ltac:(discriminate) E) as (_ & _ & l & acl & _ & Hl & Hn & _).
  exists l, acl. split; [exact Hl|exact Hn].
Defined.

Lemma post_auth_without_policies_witness :
  let req := set_auth (Some (TokenStore.default_auth 0)) (RequestOps.new "sys/raw") in
  PolicyStore.post_auth (T := gmap string) demo_ps ∅ (demo_pworld, req) = ((demo_pworld, req), Ok tt).
Proof.
  intros req. apply (post_auth_without_policies demo_ps demo_pworld ∅ req (TokenStore.default_auth 0)); reflexivity.
Defined.
End witnesses.
