(* ===== verification/AuthFlow.v ===== *)
(** * Authentication of requests

    [trait AuthHandler] (src/src/handler.rs), the list of handlers of the core
    (src/src/core.rs) and the hooks of the token store before and after
    routing ([impl Handler for TokenStore] in
    src/src/modules/auth/token_store.rs): a request is authenticated by its
    token, checked against the ACL by the policy store, and after routing new
    tokens and secrets get their leases. *)

From stdpp Require Import base tactics list gmap strings.
From Stdlib Require Import ZArith Lia Ascii.
From S2P Require Import Prelude Errors RustStr Utils Lease Storage BarrierView Logical LogicalBackend Router Policy AclModel Mount VaultCore World TokenStore PolicyStore.

Local Open Scope string_scope.

Definition AUTH_ROUTER_PREFIX : string := "auth/".

(** [trait AuthHandler]; a default hook fails with [ErrHandlerDefault]. *)
Record AuthHandler (W : Type) := {
  auth_handler_name : string;
  pre_auth : st (W * Request) RvError (option Auth);
  post_auth : st (W * Request) RvError unit
}.
Arguments auth_handler_name {W}.
Arguments pre_auth {W}.
Arguments post_auth {W}.

Module AuthHandlers.
Section handlers.
Context {W : Type}.

Definition add_auth_handler (handlers : list (AuthHandler W)) (h : AuthHandler W)
  : list (AuthHandler W) * result unit :=
  if existsb (λ x, String.eqb (auth_handler_name x) (auth_handler_name h)) handlers
  then (handlers, Err ErrCoreHandlerExist) else ((handlers ++ [h])%list, Ok tt).

Definition delete_auth_handler (handlers : list (AuthHandler W)) (h : AuthHandler W)
  : list (AuthHandler W) :=
  List.filter (λ x, negb (String.eqb (auth_handler_name x) (auth_handler_name h))) handlers.

(** The first handler that recognises the request. *)
Fixpoint run_pre_auth (handlers : list (AuthHandler W)) : st (W * Request) RvError (option Auth) :=
  match handlers with
  | [] => st_ret None
  | h :: handlers => fun s =>
      match pre_auth h s with
      | (s, Ok (Some a)) => (s, Ok (Some a))
      | (s, Ok None) => run_pre_auth handlers s
      | (s, Err e) => if RvError_eq e ErrHandlerDefault then run_pre_auth handlers s else (s, Err e)
      | (s, Panic) => (s, Panic)
      end
  end.

Fixpoint run_post_auth (handlers : list (AuthHandler W)) : st (W * Request) RvError unit :=
  match handlers with
  | [] => st_ret tt
  | h :: handlers => fun s =>
      match post_auth h s with
      | (s, Ok _) => run_post_auth handlers s
      | (s, Err e) => if RvError_eq e ErrHandlerDefault then run_post_auth handlers s else (s, Err e)
      | (s, Panic) => (s, Panic)
      end
  end.
End handlers.
End AuthHandlers.

Module AuthFlow.
Section flow.
Context {S Q C : Type} `{HSt : Storage S} `{HQ : LeaseQueue Q} `{HCl : Clock} `{HU : UuidGen}
        `{HX : HexCodec} `{H1 : Sha1Digest} `{HST : Serde TokenEntry} `{HSL : Serde LeaseEntry}
        `{HSO : Serde OldLeaseEntry} `{HH : Humantime} `{HJ : JsonParser}
        {T : Type -> Type} `{HT : RadixTrie T}.
Abbreviation W := (World S Q C).
Abbreviation M := (st W RvError).
Abbreviation H := (st (W * Request) RvError).

(** The router with its mounts, the entries they refer to, the store of tokens
    and the registered handlers. *)
Context (router : T (RouterEntry T W)) (mounts : nat -> option MountEntry) (stack : nat) (ts : TokenStore)
        (auth_handlers : list (AuthHandler W)).
Let route : handler_fn W := Router.handle_request router.

Definition set_phase (p : HandlePhase) : H unit := fun '(w, req) => ((w, set_handle_phase p req), Ok tt).

(** The token is checked when no handler recognised the request. *)
Definition authenticate : H (option Auth) :=
  let! a := AuthHandlers.run_pre_auth auth_handlers in
  match a with
  | Some a => st_ret (Some a)
  | None =>
      let! req := get_req in
      on_world (TokenStore.check_token route stack ts (path req) (client_token req))
  end.

Definition pre_route : H (option Response) :=
  let! req := get_req in
  if Router.is_unauth_path (path req) router then st_ret None
  else
    let! _ := set_phase PreAuth in
    let! a := authenticate in
    match a with
    | None => st_fail ErrPermissionDenied
    | Some a =>
        let! req := get_req in
        let! _ := put_req (set_auth (Some a) (set_req_name (display_name a) req)) in
        let! _ := set_phase PostAuth in
        let! _ := AuthHandlers.run_post_auth auth_handlers in
        st_ret None
    end.

(** *** After routing *)

(** Only mounts with the option [leased_passthrough] set to [true] lease their
    secrets; a path without mount entry is an [unwrap] of [None]. *)
Definition leases_secrets (p : string) : result bool :=
  match Router.matching_mount_entry p router ≫= mounts with
  | None => Panic
  | Some me =>
      Ok (match options me ≫= lookup "leased_passthrough" with
          | Some v => String.eqb v "true"
          | None => false
          end)
  end.

Definition post_route_secret (is_unauth_path : bool) (req : Request) (resp : Response) : M Response :=
  if negb is_unauth_path && bool_decide (is_Some (resp_secret resp)) && negb (starts_with "/sys/renew" (path req))
  then
    let! register_lease := st_lift (leases_secrets (path req)) in
    if register_lease : bool then
      let! r := ExpirationManager.register_secret ts req resp in st_ret (fst r)
    else st_ret resp
  else st_ret resp.

Definition auth_set_display_name (n : string) (a : Auth) : Auth :=
  {| auth_lease := auth_lease a; auth_client_token := auth_client_token a; display_name := n;
     policies := policies a; token_policies := token_policies a;
     no_default_policy := no_default_policy a; auth_internal_data := auth_internal_data a;
     metadata := metadata a; policy_results := policy_results a; period := period a;
     auth_explicit_max_ttl := auth_explicit_max_ttl a |}.

Definition auth_set_policies (p tp : list string) (a : Auth) : Auth :=
  {| auth_lease := auth_lease a; auth_client_token := auth_client_token a; display_name := display_name a;
     policies := p; token_policies := tp; no_default_policy := no_default_policy a;
     auth_internal_data := auth_internal_data a; metadata := metadata a;
     policy_results := policy_results a; period := period a;
     auth_explicit_max_ttl := auth_explicit_max_ttl a |}.

(** The name a login gets: the mount with dashes, then the name of the user. *)
Definition login_display_name (p name : string) : string :=
  let source := replace_char slash "-" (trim_start_pat AUTH_ROUTER_PREFIX (Router.matching_mount p router)) in
  trim_end_matches (Ascii.eqb "-") (source ++ name).

(** The token a successful response with [auth] is given. *)
Definition issue_token (p : string) (a : Auth) : M Auth :=
  let ttl0 := ExpirationManager.clamp_ttl (Lease.ttl (auth_lease a)) in
  let a := auth_set_lease (lease_set_ttl ttl0 (auth_lease a)) a in
  let! start := now in
  let! token_ttl := ExpirationManager.calc_ttl 0 (period a) ttl0 (Lease.max_ttl (auth_lease a))
                      (auth_explicit_max_ttl a) start in
  let all_policies := PolicyUtils.sanitize_policies (policies a) (negb (no_default_policy a)) in
  let! _ := st_guard (str_in "root" all_policies) (ErrResponse "auth methods cannot create root tokens") in
  let! d := TokenStore.default_entry in
  let! te := TokenStore.create ts
    {| te_id := te_id d; te_parent := te_parent d; te_policies := all_policies; te_path := p;
       te_meta := metadata a; te_display_name := display_name a; te_num_uses := te_num_uses d;
       te_ttl := as_secs token_ttl; te_creation_time := te_creation_time d; te_period := period a;
       te_explicit_max_ttl := auth_explicit_max_ttl a |} in
  let a := auth_set_lease (lease_set_ttl (from_secs (te_ttl te)) (auth_lease a)) (auth_set_token (te_id te) a) in
  let! a := ExpirationManager.register_auth ts te (auth_set_policies (policies a) all_policies a) in
  st_ret (auth_set_policies all_policies (token_policies a) a).

Definition post_route_auth (is_unauth_path : bool) (req : Request) (resp : Response) : M Response :=
  match resp_auth resp with
  | None => st_ret resp
  | Some a =>
      let! _ := st_guard (negb is_unauth_path && negb (starts_with "auth/token/" (path req))) ErrPermissionDenied in
      let a := if is_unauth_path
               then auth_set_display_name (login_display_name (path req) (display_name a)) a else a in
      let! a := issue_token (path req) a in
      st_ret (ResponseOps.set_auth (Some a) resp)
  end.

(** The name of the request changes with that of a login. *)
Definition rename_request (is_unauth_path : bool) (req : Request) (resp : Response) : Request :=
  match resp_auth resp with
  | Some a => if is_unauth_path then set_req_name (login_display_name (path req) (display_name a)) req else req
  | None => req
  end.

(** The caller drops the response after an error. *)
Definition post_route : st (W * Request * option Response) RvError unit := fun '(w, req, resp) =>
  match resp with
  | None => ((w, req, None), Ok tt)
  | Some resp =>
      let is_unauth_path := Router.is_unauth_path (path req) router in
      let req' := rename_request is_unauth_path req resp in
      match (let! resp := post_route_secret is_unauth_path req resp in
             post_route_auth is_unauth_path req resp) w with
      | (w, Ok resp) => ((w, req', Some resp), Ok tt)
      | (w, Err e) => ((w, req', Some resp), Err e)
      | (w, Panic) => ((w, req', Some resp), Panic)
      end
  end.

(** [impl Handler for TokenStore] and for [Router]. *)
Definition token_handler : Handler W :=
  {| handler_name := "auth_token"; VaultCore.pre_route := pre_route;
     VaultCore.route := st_fail ErrHandlerDefault; VaultCore.post_route := post_route;
     log_ := fun _ _ => st_fail ErrHandlerDefault |}.

Definition router_handler : Handler W :=
  {| handler_name := "core_router"; VaultCore.pre_route := st_fail ErrHandlerDefault;
     VaultCore.route := route; VaultCore.post_route := st_fail ErrHandlerDefault;
     log_ := fun _ _ => st_fail ErrHandlerDefault |}.

End flow.

(** The policy store as a handler of authentication. *)
Section policy_handler.
Context {S Q C : Type} `{HSt : Storage S} `{HC : PolicyCache C} `{HSP : Serde PolicyEntry}
        `{HHcl : HclParser} {T : Type -> Type} `{HT : RadixTrie T} `{HP : Profile}.

Definition policy_handler (ps : PolicyStore) (router : T (RouterEntry T (World S Q C)))
  : AuthHandler (World S Q C) :=
  {| auth_handler_name := "policy_store"; pre_auth := st_fail ErrHandlerDefault;
     post_auth := PolicyStore.post_auth ps router |}.
End policy_handler.
End AuthFlow.
