(* ===== verification/AuthCorrect.v ===== *)
(** * Requests are authorised before they are served

    The composition of the token store, the policy store and the phases of
    request handling: theorems about [pre_route] and [post_route] of
    src/src/modules/auth/token_store.rs with the ACL check of
    src/src/modules/policy/policy_store.rs. *)

From stdpp Require Import base tactics list gmap strings.
From Stdlib Require Import ZArith Lia Ascii.
From S2P Require Import Prelude Errors RustStr Utils Lease Storage BarrierView Logical LogicalBackend Router Policy AclModel Mount VaultCore World WorldLaws TokenStore WorldDemo TokenCorrect TokenProps PolicyStore PolicyCorrect AuthFlow BarrierCorrect MountCorrect VaultCorrect.
Import BarrierView.

Local Open Scope string_scope.

(** ** Handler lists *)
Section lists.
Context {W : Type}.
Implicit Types (h : AuthHandler W) (hs : list (AuthHandler W)).

(** Registration keeps names unique, and removal undoes it. *)
Lemma add_auth_handler_unique hs h hs' :
  NoDup (map auth_handler_name hs) → AuthHandlers.add_auth_handler hs h = (hs', Ok tt) →
  NoDup (map auth_handler_name hs') ∧ AuthHandlers.delete_auth_handler hs' h = hs.
Proof.
  unfold AuthHandlers.add_auth_handler, AuthHandlers.delete_auth_handler. intros Hnd.
  destruct (existsb _ hs) eqn:E; [done|]. intros [= <-].
  assert (∀ x, x ∈ hs → String.eqb (auth_handler_name x) (auth_handler_name h) = false) as Hne.
  { intros x Hx. apply not_true_iff_false. intros Ht. apply not_true_iff_false in E. apply E, existsb_exists.
    exists x. by rewrite <- list_elem_of_In. }
  split.
  - rewrite map_app. apply NoDup_app. split_and!; [done| |by apply NoDup_singleton].
    intros n (x & -> & Hx)%list_elem_of_fmap He%list_elem_of_singleton. apply Hne in Hx.
    by rewrite He, String.eqb_refl in Hx.
  - rewrite List.filter_app. simpl. rewrite String.eqb_refl. simpl. rewrite app_nil_r.
    clear E Hnd. induction hs as [|x hs IH]; [done|]. simpl. rewrite Hne by apply list_elem_of_here. simpl.
    f_equal. apply IH. intros y Hy. apply Hne. by apply list_elem_of_further.
Qed.
End lists.

Section theorems.
Context {S Q C : Type} `{HSt : Storage S} `{HSS : !StorageSpec S} `{HQ : LeaseQueue Q} `{HCl : Clock}
        `{HU : UuidGen} `{HX : HexCodec} `{H1 : Sha1Digest} `{HL1 : !Sha1Laws}
        `{HST : Serde TokenEntry} `{HSTL : !SerdeLaws TokenEntry}
        `{HSL : Serde LeaseEntry} `{HSO : Serde OldLeaseEntry} `{HH : Humantime} `{HJ : JsonParser}
        `{HC : PolicyCache C} `{HCL : !PolicyCacheLaws C} `{HSP : Serde PolicyEntry} `{HSPL : !SerdeLaws PolicyEntry}
        `{HHcl : HclParser} {T : Type → Type} `{HT : RadixTrie T} `{HP : Profile}.
Abbreviation W := (World S Q C).
Context (router : T (RouterEntry T W)) (mounts : nat → option MountEntry) (stack : nat)
        (ts : TokenStore) (ps : PolicyStore) (sv : t).
Implicit Types w : W.
Abbreviation sm w := (storage_map (w_store w)).

(** The policies survive what the token store does. *)
Lemma apart_view w w' d n :
  apart sv w w' → (∀ x y, d ++ x ≠ "token/" ++ y) → (∀ x y, d ++ x ≠ "id/" ++ y) →
  sm w' !! expand_key (new_sub_view sv d) n = sm w !! expand_key (new_sub_view sv d) n.
Proof.
  intros Hap Ht Hi. apply (ap_keys _ _ _ Hap); unfold expand_key, new_sub_view; cbn [prefix]; unfold expand_key.
  - rewrite <- app_assoc_str. auto with rust.
  - intros x. rewrite <- !app_assoc_str. intros He%app_inj_l. by apply Ht in He.
  - intros x. rewrite <- !app_assoc_str. intros He%app_inj_l. by apply Hi in He.
Qed.

Lemma apart_spec_get w w' n : apart sv w w' → spec_get sv (sm w') n = spec_get sv (sm w) n.
Proof.
  intros Hap. unfold spec_get. destruct (decide (n = "root")); [done|]. f_equal. by apply apart_view.
Qed.

Lemma apart_ps_wf w w' : apart sv w w' → clean (w_store w') → ps_wf sv w → ps_wf sv w'.
Proof.
  intros Hap Hc [_ Hr Hca Hta Htk Hrg]. split; [done|..].
  - intros n b. unfold ak. rewrite (apart_view w w' _ _ Hap) by done. apply Hr.
  - intros n p. rewrite (ap_lru _ _ _ Hap), (apart_spec_get w w') by done. apply Hca.
  - intros n ty. rewrite (ap_types _ _ _ Hap), (apart_spec_get w w') by done. apply Hta.
  - intros n p. rewrite (ap_types _ _ _ Hap), (apart_spec_get w w') by done. apply Htk.
  - intros n. unfold rk. rewrite (apart_view w w' _ _ Hap) by done. apply Hrg.
Qed.

Abbreviation gate := (AuthFlow.pre_route router stack ts [AuthFlow.policy_handler ps router]).

(** What it takes to be served: a live token, and an ACL that allows it. *)
Definition authorised (w : W) (req : Request) : Prop :=
  ∃ te, client_token req ≠ "" ∧ token_at sv (sm w) (salt_id ts (client_token req)) = Some te ∧
    let names := PolicyUtils.sanitize_policies (te_policies te) false in
    (names = [] ∨
     ∃ l acl res, Forall2 (λ n p, spec_get sv (sm w) (to_lowercase n) = Some p) names l ∧
       Acl.new (T := T) l = Ok acl ∧ Acl.allow_operation acl req false = Ok res ∧ acl_allowed res = true ∧
       (Router.is_root_path (path req) router = true → root_privs res = true ∨ operation req = Help)).

Lemma authenticate_ok w w' req req' o :
  configured ts sv → revokes_apart (Router.handle_request router) sv → store_wf ts sv w →
  AuthFlow.authenticate router stack ts [AuthFlow.policy_handler ps router] (w, req) = ((w', req'), Ok o) →
  req' = req ∧ client_token req ≠ "" ∧
  ∃ te a, o = Some a ∧ token_at sv (sm w) (salt_id ts (client_token req)) = Some te ∧
    policies a = PolicyUtils.sanitize_policies (te_policies te) false ∧
    store_wf ts sv w' ∧ apart sv w w'.
Proof.
  intros Hcfg Hroute Hw H. unfold AuthFlow.authenticate in H.
  rewrite (st_bind_run _ _ (w, req) (w, req) None) in H by done. inv_run.
  match goal with H : TokenStore.check_token _ _ _ _ _ _ = _ |- _ => rename H into Hct end.
  assert (client_token req ≠ "") as Hne by (intros E; by rewrite E in Hct).
  change (TokenStore.check_token (Router.handle_request router) stack ts (path req) (client_token req))
    with (TokenStore.check_token (Router.handle_request router) stack ts "" (client_token req)) in Hct.
  destruct (token_at sv (sm w) (salt_id ts (client_token req))) as [te|] eqn:Ht.
  - destruct (check_token_some (Router.handle_request router) stack ts sv w (client_token req) te)
      as (w2 & r & Hr & (a & -> & _ & Hp & _) & Hw2 & _ & Hap & _); [done..|].
    rewrite Hr in Hct. injection Hct as <- <-. split_and!; [done..|]. by exists te, a.
  - by rewrite (check_token_none (Router.handle_request router) stack ts sv w) in Hct.
Qed.

Lemma post_auth_run h (s : W * Request) s' :
  AuthHandlers.run_post_auth [h] s = (s', Ok tt) →
  post_auth h s = (s', Ok tt) ∨ post_auth h s = (s', Err ErrHandlerDefault).
Proof.
  simpl. destruct (post_auth h s) as [s1 [[]|e|]]; [by intros [= <-]; left| |done].
  destruct (RvError_eq e ErrHandlerDefault) eqn:E; [|done]. apply RvError_eq_sound in E as ->. intros [= <-]. by right.
Qed.

(** The hook lets a request through only when it is authorised. *)
Lemma gate_sound (w w' : W) (req req' : Request) (r : option Response) :
  configured ts sv → ps_configured ps sv → revokes_apart (Router.handle_request router) sv →
  store_wf ts sv w → ps_wf sv w →
  gate (w, req) = ((w', req'), Ok r) →
  r = None ∧ (Router.is_unauth_path (path req) router = true ∨ authorised w req).
Proof.
  intros Hcfg Hpcfg Hroute Hw Hps H. unfold AuthFlow.pre_route in H. inv_run.
  destruct (Router.is_unauth_path (path req) router) eqn:Hun; [split; [by injection H as _ _ <-|by left]|].
  rewrite (st_bind_run _ _ (w, req) (w, set_handle_phase PreAuth req) tt) in H by done. inv_steps.
  match goal with H : AuthFlow.authenticate _ _ _ _ _ = (?c, Ok ?o) |- _ =>
    destruct c as [w1 req1]; rename H into Hau, o into oa end.
  destruct (authenticate_ok _ _ _ _ _ Hcfg Hroute Hw Hau) as (-> & Hne & te & a & -> & Ht & Hpol & Hw1 & Hap).
  set (reqp := set_handle_phase PreAuth req) in *.
  set (req2 := set_handle_phase PostAuth (set_auth (Some a) (set_req_name (display_name a) reqp))).
  rewrite (st_bind_run _ _ (w1, reqp) (w1, reqp) reqp) in H by done.
  rewrite (st_bind_run _ _ _ (w1, set_auth (Some a) (set_req_name (display_name a) reqp)) tt) in H by done.
  rewrite (st_bind_run _ _ _ (w1, req2) tt) in H by done. inv_steps.
  match goal with H : AuthHandlers.run_post_auth _ _ = (?c, Ok ?u) |- _ =>
    rename H into Hpost; destruct c as [w2 req3]; destruct u end.
  injection H as _ _ <-. split; [done|]. right. exists te. split_and!; [done..|]. cbv zeta.
  pose proof (apart_ps_wf _ _ Hap (wf_clean _ _ _ Hw1) Hps) as Hps1.
  apply post_auth_run in Hpost as [Hpost|Hpost].
  2: { by apply (post_auth_err ps sv Hpcfg) in Hpost. }
  rewrite <- Hpol. destruct (decide (policies a = [])) as [|Hnil]; [by left|right].
  destruct (post_auth_ok ps sv Hpcfg w1 w2 router req2 req3 a Hps1 eq_refl Hnil Hpost) as (_ & l & acl & res & Hl & Hx).
  exists l, acl, res. split; [|exact Hx]. eapply Forall2_impl; [exact Hl|]. intros n p. cbv beta. by rewrite (apart_spec_get w w1).
Qed.

(** Its errors end the phase. *)
Lemma run_post_auth_err (hs : list (AuthHandler W)) s s' e :
  AuthHandlers.run_post_auth hs s = (s', Err e) → e ≠ ErrHandlerDefault.
Proof.
  revert s. induction hs as [|h hs IH]; intros s; simpl; [done|].
  destruct (post_auth h s) as [s1 [u|e'|]]; [apply IH| |done].
  destruct (RvError_eq e' ErrHandlerDefault) eqn:E; [apply IH|]. intros [= <- <-] ->. done.
Qed.

Lemma gate_err (w : W) (req : Request) s e :
  configured ts sv → revokes_apart (Router.handle_request router) sv → store_wf ts sv w →
  gate (w, req) = (s, Err e) → e ≠ ErrHandlerDefault.
Proof.
  intros Hcfg Hroute Hw. unfold AuthFlow.pre_route. rewrite (st_bind_run _ _ (w, req) (w, req) req) by done.
  destruct (Router.is_unauth_path (path req) router); [done|].
  rewrite (st_bind_run _ _ (w, req) (w, set_handle_phase PreAuth req) tt) by done.
  set (reqp := set_handle_phase PreAuth req).
  destruct (AuthFlow.authenticate router stack ts [AuthFlow.policy_handler ps router] (w, reqp)) as [[w1 req1] [o|e'|]] eqn:Hau.
  - rewrite (st_bind_run _ _ _ _ _ Hau). destruct o as [a|]; [|by intros [= <- <-]].
    rewrite (st_bind_run _ _ (w1, req1) (w1, req1) req1) by done.
    rewrite (st_bind_run _ _ _ (w1, set_auth (Some a) (set_req_name (display_name a) req1)) tt) by done.
    rewrite (st_bind_run _ _ _ (w1, set_handle_phase PostAuth (set_auth (Some a) (set_req_name (display_name a) req1))) tt) by done.
    unfold st_bind. destruct (AuthHandlers.run_post_auth _ _) as [s2 [u|e'|]] eqn:Hp; [done| |done].
    intros [= <- <-]. by eapply run_post_auth_err.
  - rewrite (st_bind_err _ _ _ _ _ Hau). intros [= <- <-]. unfold AuthFlow.authenticate in Hau.
    rewrite (st_bind_run _ _ (w, reqp) (w, reqp) None) in Hau by done.
    rewrite (st_bind_run _ _ (w, reqp) (w, reqp) reqp) in Hau by done. unfold on_world in Hau.
    destruct (decide (client_token reqp = "")) as [E|Hne].
    + rewrite E in Hau. unfold TokenStore.check_token in Hau. simpl in Hau. by injection Hau as <- <- <-.
    + change (TokenStore.check_token (Router.handle_request router) stack ts (path reqp) (client_token reqp))
        with (TokenStore.check_token (Router.handle_request router) stack ts "" (client_token reqp)) in Hau.
      destruct (token_at sv (sm w) (salt_id ts (client_token reqp))) as [te|] eqn:Ht.
      * destruct (check_token_some (Router.handle_request router) stack ts sv w (client_token reqp) te)
          as (w2 & r & Hr & (a & -> & _) & _); [done..|]. by rewrite Hr in Hau.
      * rewrite (check_token_none (Router.handle_request router) stack ts sv w) in Hau by done.
        by injection Hau as <- <- <-.
  - unfold st_bind. by rewrite Hau.
Qed.

(** The handlers of the auth module: the router's, and the token store's with
    the ACL check of the policy store. *)
Definition auth_handlers : list (Handler W) :=
  [AuthFlow.router_handler router;
   AuthFlow.token_handler router mounts stack ts [AuthFlow.policy_handler ps router]].

(** A request that is not authorised ends in the pre-route phase. *)
Lemma pre_route_refuses (w : W) (req : Request) :
  configured ts sv → ps_configured ps sv → revokes_apart (Router.handle_request router) sv →
  store_wf ts sv w → ps_wf sv w →
  Router.is_unauth_path (path req) router = false → ¬ authorised w req →
  ∀ x, snd (Phases.handle_pre_route_phase auth_handlers (w, req)) ≠ Ok x.
Proof.
  intros Hcfg Hpcfg Hroute Hw Hps Hun Hno x. unfold Phases.handle_pre_route_phase.
  rewrite (st_bind_run _ _ (w, req) (w, set_handle_phase PreRoute req) tt) by done. simpl.
  destruct (gate (w, set_handle_phase PreRoute req)) as [[w' req'] r] eqn:Hg.
  pose proof (λ x E, gate_sound w w' (set_handle_phase PreRoute req) req' x Hcfg Hpcfg Hroute Hw Hps
                (eq_trans Hg (f_equal _ E))) as Hs.
  destruct r as [y|e|].
  - destruct (Hs y eq_refl) as [_ [Hx|Hx]]; [simpl in Hx; congruence|by destruct Hno].
  - apply (gate_err _ _ _ _ Hcfg Hroute Hw) in Hg. destruct (RvError_eq e ErrHandlerDefault) eqn:E; [|done].
    by apply RvError_eq_sound in E.
  - done.
Qed.

(** C7: a request is served only when its path needs no authentication, or its
    token is live and either has no policies at all or the stored policies of
    the token compile to an ACL that allows the operation (with root privileges
    on root paths).  Any other request ends in the pre-route phase with an
    error: no routing hook, and so no backend, ever runs for it. *)
Theorem unauthorised_request_refused (bound_handler : string → option (Handler W)) (w : W) (req : Request) :
  configured ts sv → ps_configured ps sv → revokes_apart (Router.handle_request router) sv →
  store_wf ts sv w → ps_wf sv w →
  Router.is_unauth_path (path req) router = false → ¬ authorised w req →
  let hs := auth_handlers in
  ∃ s r, Phases.handle_request bound_handler false hs (w, req) = (s, r) ∧
         Phases.handle_pre_route_phase hs (w, req) = (s, r) ∧ ∀ x, r ≠ Ok x.
Proof.
  intros Hcfg Hpcfg Hroute Hw Hps Hun Hno hs.
  pose proof (pre_route_refuses w req Hcfg Hpcfg Hroute Hw Hps Hun Hno) as Hpre. fold hs in Hpre.
  destruct (Phases.handle_pre_route_phase hs (w, req)) as [s r] eqn:E. exists s, r.
  split_and!; [|done..]. by apply pre_route_ends.
Qed.

(** ** Tokens issued after routing *)

(** The entry that [issue_token] stores for a response. *)
Record issued (a : Auth) (p : string) (te : TokenEntry) : Prop := {
  is_orphan : te_parent te = "";
  is_unlimited : te_num_uses te = 0%Z;
  is_policies : te_policies te = PolicyUtils.sanitize_policies (policies a) (negb (no_default_policy a));
  is_not_root : "root" ∉ te_policies te;
  is_path : te_path te = p
}.

(** Successful runs keep the store clean and change only keys in [D]. *)
Definition steady {A} (D : string → Prop) (m : st W RvError A) : Prop := ∀ w w' a,
  clean (w_store w) → m w = (w', Ok a) →
  clean (w_store w') ∧ (w_uuids w <= w_uuids w')%nat ∧ ∀ k, ¬ D k → sm w' !! k = sm w !! k.

Lemma steady_bind {A B} D (m : st W RvError A) (k : A → st W RvError B) :
  steady D m → (∀ a, steady D (k a)) → steady D (let! x := m in k x).
Proof.
  intros Hm Hk w w' b Hc H. inv_steps. destruct (Hm _ _ _ Hc Hstep) as (Hc1 & Hu1 & Hf1).
  destruct (Hk _ _ _ _ Hc1 H) as (Hc2 & Hu2 & Hf2). split_and!; [done|lia|]. intros x Hx. by rewrite Hf2, Hf1.
Qed.

Lemma steady_same {A} D (m : st W RvError A) :
  (∀ w w' a, m w = (w', Ok a) → w_store w' = w_store w ∧ (w_uuids w <= w_uuids w')%nat) → steady D m.
Proof. intros Hm w w' a Hc H. destruct (Hm _ _ _ H) as [-> Hu]. done. Qed.

Lemma steady_put D v k x : keys_ok v → D (expand_key v k) → steady D (view_put v k x).
Proof.
  intros Hv HD w w' [] Hc H. destruct (sanity_cases k) as [Hs|Hs].
  - destruct (view_put_run v k x w Hc Hs Hv) as (s' & Hr & Hc' & Hm & _). rewrite Hr in H. injection H as <-.
    split_and!; [done|done|]. intros k' Hk'. cbn [w_store set_store]. rewrite Hm. apply lookup_insert_ne. by intros <-.
  - unfold view_put, on_store, put in H. cbn [se_key] in H. by rewrite Hs in H.
Qed.

Section leases.
Context (Hcfg : configured ts sv).

(** Where leases and their index are. *)
Definition lease_space (k : string) : Prop := (∃ l, k = lk sv l) ∨ ∃ t i, digest t ∧ k = ik sv t i.

Lemma lease_space_token x : ¬ lease_space (idk sv x).
Proof. intros [(l & Hl)|(t & i & Ht & Hi)]; [by apply eq_sym, lk_TV in Hl|by apply eq_sym, ik_idk in Hi]. Qed.

Lemma steady_persist le : steady lease_space (ExpirationManager.persist_lease_entry ts le).
Proof.
  apply steady_bind; [apply steady_same; intros ? ? ? [_ ->]%st_lift_ok; done|]. intros b.
  replace (id_view (expiration ts)) with (new_sub_view sv "id/") by (symmetry; apply Hcfg).
  apply steady_put; [by eapply iv_keys_ok|]. left. by eexists.
Qed.

Lemma steady_upgrade : steady lease_space (ExpirationManager.upgrade ts).
Proof. apply steady_same. intros w w' a. rewrite (upgrade_run ts sv Hcfg). by intros [= <- _]. Qed.

Lemma steady_index token lid : steady lease_space (ExpirationManager.create_index_by_token ts token lid).
Proof.
  apply steady_bind; [apply steady_upgrade|]. intros [].
  replace (token_view (expiration ts)) with (new_sub_view sv "token/") by (symmetry; apply Hcfg).
  apply steady_put; [by eapply tv_keys_ok|]. right. eexists _, _. split; [apply salt_digest|done].
Qed.

Lemma steady_register le : steady lease_space (ExpirationManager.register_lease_entry le).
Proof.
  apply steady_same. intros w w' [] H. unfold ExpirationManager.register_lease_entry in H.
  destruct (since_epoch _); [|done]. destruct (w_queue_held w); [done|]. by injection H as <-.
Qed.

Lemma steady_time (l : Lease.Lease) : steady lease_space (ExpirationManager.expiration_time l).
Proof.
  apply steady_same. intros w w' r. unfold ExpirationManager.expiration_time. destruct (Lease.enabled l); by intros [= <- _].
Qed.

Ltac steady :=
  repeat first
  [ apply steady_persist | apply steady_upgrade | apply steady_index | apply steady_register | apply steady_time
  | apply steady_bind; [|intros ?]
  | apply steady_same; intros ? ? ? [_ ->]%st_guard_ok; done
  | apply steady_same; intros ? ? ? [_ ->]%st_lift_ok; done
  | apply steady_same; intros ? ? ? [_ ->]%st_ret_ok; done
  | apply steady_same; intros ? ? ? [= <- _]; simpl; (split; [done|lia])
  | case_match ].

Lemma steady_register_auth te a : steady lease_space (ExpirationManager.register_auth ts te a).
Proof. unfold ExpirationManager.register_auth. steady. Qed.

Lemma steady_post_route_secret u req resp : steady lease_space (AuthFlow.post_route_secret router mounts ts u req resp).
Proof. unfold AuthFlow.post_route_secret, ExpirationManager.register_secret. steady. Qed.

Lemma register_auth_token te a a' w w' :
  ExpirationManager.register_auth ts te a w = (w', Ok a') →
  auth_client_token a' = auth_client_token a ∧ auth_client_token a ≠ "".
Proof.
  unfold ExpirationManager.register_auth. intros H. inv_run. subst. split; [done|]. simpl in *. intros E.
  match goal with H : is_empty _ = false |- _ => by rewrite E in H end.
Qed.

(** Creating a token without a parent: it is stored under its id, which was given
    or is generated. *)
Lemma create_orphan_ok te te' w w' :
  clean (w_store w) → te_parent te = "" → representable te → TokenStore.create ts te w = (w', Ok te') →
  clean (w_store w') ∧ token_at sv (sm w') (salt_id ts (te_id te')) = Some (normal te') ∧
  (te' = te ∧ w_uuids w' = w_uuids w ∨
   te' = te_set_id (generate_uuid (w_uuids w)) te ∧ w_uuids w' = Datatypes.S (w_uuids w)).
Proof.
  intros Hc Hp Hrep. unfold TokenStore.create. rewrite (st_bind_run _ _ _ _ _ (get_view_run ts sv Hcfg w)).
  intros H. apply st_bind_ok in H as (w1 & e1 & He1 & H).
  assert (w_store w1 = w_store w ∧ te_parent e1 = "" ∧ representable e1 ∧
    (e1 = te ∧ w_uuids w1 = w_uuids w ∨
     e1 = te_set_id (generate_uuid (w_uuids w)) te ∧ w_uuids w1 = Datatypes.S (w_uuids w))) as (Hs1 & Hp1 & Hr1 & Hcase).
  { destruct (is_empty (te_id te)); injection He1 as <- <-; split_and!; try done; [by right|by left]. }
  destruct (te_encode_decode e1 Hr1) as (b & Henc & Hdec). apply st_bind_ok in H as (w2 & b' & Hb & H).
  unfold st_lift in Hb. rewrite Henc in Hb. injection Hb as <- <-. rewrite Hp1 in H.
  rewrite (st_bind_run _ _ w1 w1 tt) in H by done. apply st_bind_ok in H as (w3 & u & Hput & H).
  pose proof (salt_digest ts (te_id e1)) as Hx.
  destruct (view_put_run (new_sub_view sv "token/") (TokenStore.id_key (salt_id ts (te_id e1))) b w1)
    as (s3 & Hr3 & Hc3 & Hm3 & _); [by rewrite Hs1|by apply sane_id_key, Hx|by eapply tv_keys_ok|].
  rewrite Hr3 in Hput. injection Hput as <- <-. injection H as <- <-.
  split_and!; [done| |done]. unfold token_at. cbn [w_store set_store]. rewrite Hm3. unfold idk. rewrite lookup_insert_eq. exact Hdec.
Qed.

(** A lookup in a clean store finds what is stored under the id. *)
Lemma lookup_stored id te w :
  clean (w_store w) → id ≠ "" → token_at sv (sm w) (salt_id ts id) = Some te →
  TokenStore.lookup ts id w = (w, Ok (Some te)).
Proof.
  intros Hc Hid Ht. unfold TokenStore.lookup. rewrite (is_empty_false _ Hid).
  unfold TokenStore.lookup_salted. rewrite (st_bind_run _ _ _ _ _ (get_view_run ts sv Hcfg w)).
  pose proof (salt_digest ts id) as Hx.
  rewrite (st_bind_run _ _ _ _ _ (view_get_run (new_sub_view sv "token/") _ w Hc (sane_id_key _ (proj1 Hx)) (tv_keys_ok ts sv Hcfg))).
  unfold token_at, idk in Ht. destruct (sm w !! _) as [b|]; [|done]. simpl in Ht |- *. by rewrite Ht.
Qed.

(** Durations that the JSON of a token keeps. *)
Definition short_durations (a : Auth) : Prop :=
  (0 <= as_secs (period a) <= I64_MAX)%Z ∧ (0 <= as_secs (auth_explicit_max_ttl a) <= I64_MAX)%Z.

Lemma issue_token_ok w w' p a a' :
  clean (w_store w) → short_durations a → AuthFlow.issue_token ts p a w = (w', Ok a') →
  ∃ te i, issued a p te ∧ te_id te = generate_uuid i ∧ (w_uuids w <= i < w_uuids w')%nat ∧
    auth_client_token a' = te_id te ∧ policies a' = te_policies te ∧
    TokenStore.lookup ts (te_id te) w' = (w', Ok (Some (normal te))).
Proof.
  intros Hcl [Hd1 Hd2]. unfold AuthFlow.issue_token. intros H. inv_run.
  repeat match goal with H : now _ = _ |- _ => injection H as <- <- end.
  unfold ExpirationManager.calc_ttl in *. inv_run.
  repeat match goal with H : now _ = _ |- _ => injection H as <- <- end.
  match goal with H : TokenStore.default_entry _ = _ |- _ => injection H as <- <- end.
  match goal with H : TokenStore.create ts ?e _ = (_, Ok ?e') |- _ => rename H into Hcr, e' into te'; set (te := e) in * end.
  match goal with H : ExpirationManager.register_auth _ _ _ _ = (?x, _) |- _ => rename H into Hreg, x into w' end.
  assert (representable te) as Hrep.
  { split; [split; [done|by vm_compute]|]. split; [apply Hd1|apply Hd2]. }
  apply create_orphan_ok in Hcr as (Hc1 & Htok & Hcase); [|done..].
  destruct (register_auth_token _ _ _ _ _ Hreg) as [Htk Hne].
  destruct (steady_register_auth _ _ _ _ _ Hc1 Hreg) as (Hc2 & Hu2 & Hf2). simpl in Htk, Hne.
  assert (issued a p te') as Hi.
  { assert ("root" ∉ te_policies te) as Hroot by (simpl; by rewrite <- str_in_spec, not_true_iff_false).
    destruct Hcase as [[-> _]|[-> _]]; by split. }
  assert (∃ i, te_id te' = generate_uuid i ∧ (w_uuids w <= i < w_uuids w')%nat) as (i & Hid & Hrange).
  { destruct Hcase as [[-> Hu]|[-> Hu]]; simpl in Hu.
    - exists (w_uuids w). split; [done|]. lia.
    - eexists. split; [reflexivity|]. simpl. lia. }
  exists te', i. subst. split_and!; [done|done|apply Hrange|apply Hrange|done|by destruct Hcase as [[-> _]|[-> _]]|].
  apply lookup_stored; [done|done|]. unfold token_at in *. by rewrite Hf2 by apply lease_space_token.
Qed.
End leases.

Lemma post_route_secret_auth u w w' req resp resp' :
  AuthFlow.post_route_secret router mounts ts u req resp w = (w', Ok resp') → resp_auth resp' = resp_auth resp.
Proof.
  unfold AuthFlow.post_route_secret. destruct (_ && _ && _); [|intros H; inv_run; by subst].
  intros H. inv_run. match goal with H : (if ?b then _ else _) _ = _ |- _ => destruct b end; inv_run; subst; [|done].
  unfold ExpirationManager.register_secret in *.
  destruct (resp_secret resp); inv_run; by subst.
Qed.

(** C36: whatever a backend answers with authentication data, the token the
    client receives is one minted after routing: its id was generated during the
    run, and from then on a lookup of it finds an entry without parent and limit
    on uses, with the sanitized policies of the answer, the root policy not among
    them, and the path of the request.  A path that is neither a login nor below
    auth/token/ is refused such an answer.  The durations of the answer must fit
    the JSON of a token. *)
Theorem issued_token_spec (w w' : W) (req req' : Request) (resp : Response) (resp' : option Response) (a : Auth) :
  configured ts sv → clean (w_store w) → resp_auth resp = Some a → short_durations a →
  AuthFlow.post_route router mounts ts (w, req, Some resp) = ((w', req', resp'), Ok tt) →
  (Router.is_unauth_path (path req) router = true ∨ starts_with "auth/token/" (path req) = true) ∧
  ∃ r a' te i, resp' = Some r ∧ resp_auth r = Some a' ∧ auth_client_token a' = te_id te ∧
    te_id te = generate_uuid i ∧ (w_uuids w <= i < w_uuids w')%nat ∧
    TokenStore.lookup ts (te_id te) w' = (w', Ok (Some (normal te))) ∧
    issued a (path req) te ∧ policies a' = te_policies te.
Proof.
  intros Hcfg Hcl Ha Hd. unfold AuthFlow.post_route.
  match goal with |- context [match ?x with (_, _) => _ end] => destruct x as [w1 [r|e|]] eqn:Hrun end; [|done..].
  intros [= <- <- <-]. inv_run.
  match goal with H : AuthFlow.post_route_secret _ _ _ _ _ _ _ = _ |- _ =>
    apply post_route_secret_auth in H as Hra; destruct (steady_post_route_secret Hcfg _ _ _ _ _ _ Hcl H) as (Hc1 & Hu1 & _) end.
  unfold AuthFlow.post_route_auth in Hrun. rewrite Hra, Ha in Hrun. inv_run.
  match goal with H : _ && negb _ = false |- _ => rename H into Hg end. subst. split.
  - destruct (Router.is_unauth_path (path req) router); [by left|right]. by destruct (starts_with _ _).
  - match goal with H : AuthFlow.issue_token _ _ _ _ = _ |- _ =>
      apply (issue_token_ok Hcfg) in H as (te & i & Hi & Hid & Hr & Ht & Hp & Hl); [|done|by destruct (Router.is_unauth_path _ _)] end.
    eexists _, _, te, i. split_and!; [reflexivity|reflexivity|done|done|lia|lia|done| |done].
    destruct (Router.is_unauth_path (path req) router); [|done]. destruct Hi. by split.
Qed.

End theorems.

(** ** Witnesses *)

Section witnesses.
#[local] Existing Instance lower_hex.
#[local] Existing Instance toy_sha1.
#[local] Existing Instance toy_sha1_laws.
#[local] Existing Instance demo_storage.
#[local] Existing Instance demo_storage_spec.
#[local] Existing Instance lease_list.
#[local] Existing Instance demo_clock.
#[local] Existing Instance demo_uuid.
#[local] Existing Instance token_serde.
#[local] Existing Instance token_serde_laws.
#[local] Existing Instance blank_lease_serde.
#[local] Existing Instance no_old_lease_serde.
#[local] Existing Instance no_durations.
#[local] Existing Instance no_json.
#[local] Existing Instance policy_map.
#[local] Existing Instance policy_map_laws.
#[local] Existing Instance policy_serde.
#[local] Existing Instance policy_serde_laws.
#[local] Existing Instance empty_hcl.
#[local] Instance strict_profile : Profile := true.

Definition bare_router : gmap string (RouterEntry (gmap string) DemoWorld) := ∅.

Lemma bare_ancestor k : trie_get_ancestor k bare_router = None.
Proof. simpl. generalize (String.length k). intros n. by induction n. Qed.

Lemma bare_router_apart : revokes_apart (Router.handle_request bare_router) demo_sys.
Proof.
  intros w req w' req' r Hop Hc. unfold Router.handle_request. rewrite bare_ancestor.
  intros [= <- <- <-]. split; [done|]. by apply evolves_refl.
Qed.

Lemma demo_pworld_wf : store_wf demo_ts demo_sys demo_pworld.
Proof. apply (store_wf_ext demo_ts demo_sys demo_world); [reflexivity|reflexivity|exact demo_wf]. Qed.

Lemma unauthorised_request_refused_witness :
  ∃ s r, Phases.handle_request (λ _, None) false
           [AuthFlow.router_handler bare_router;
            AuthFlow.token_handler bare_router (λ _, None) 9 demo_ts [AuthFlow.policy_handler demo_ps bare_router]]
           (demo_pworld, RequestOps.new "secret/a") = (s, r) ∧ ∀ x, r ≠ Ok x.
Proof.
  destruct (unauthorised_request_refused bare_router (λ _, None) 9 demo_ts demo_ps demo_sys (λ _, None)
              demo_pworld (RequestOps.new "secret/a") demo_configured demo_ps_configured bare_router_apart
              demo_pworld_wf demo_ps_wf) as (s & r & Hr & _ & Hx).
  - reflexivity.
  - intros (te & Hne & _). apply Hne. reflexivity.
  - exists s, r. split; [exact Hr|exact Hx].
Defined.

Definition demo_login : Response := ResponseOps.set_auth (Some
  {| auth_lease := default_lease 0; auth_client_token := ""; display_name := "bob"; policies := ["dev"];
     token_policies := []; no_default_policy := false; auth_internal_data := ∅; metadata := ∅;
     policy_results := None; period := 0; auth_explicit_max_ttl := 0 |}) ResponseOps.new.

Definition demo_login_run :=
  AuthFlow.post_route bare_router (λ _, None) demo_ts
    (demo_pworld, RequestOps.new "auth/token/create", Some demo_login).

Lemma issued_token_spec_witness :
  ∃ r a' te, snd (fst demo_login_run) = Some r ∧ resp_auth r = Some a' ∧ policies a' = ["default"; "dev"] ∧
    TokenStore.lookup demo_ts (auth_client_token a') (fst (fst (fst demo_login_run))) =
      (fst (fst (fst demo_login_run)), Ok (Some te)).
Proof.
  assert (snd demo_login_run = Ok tt) as E by (vm_compute; reflexivity).
  destruct demo_login_run as [[[w' req'] resp'] r] eqn:Erun. simpl in E. subst r.
  destruct (issued_token_spec bare_router (λ _, None) demo_ts demo_sys demo_pworld w'
              (RequestOps.new "auth/token/create") req' demo_login resp' _ demo_configured
              (wf_clean _ _ _ demo_pworld_wf) eq_refl)
    as (_ & r & a' & te & i & -> & Ha & Htok & _ & _ & Hlook & [_ _ Hp _ _] & Hpol).
  - split; split; vm_compute; discriminate.
  - exact Erun.
  - exists r, a', (normal te). split; [reflexivity|]. split; [exact Ha|]. split.
    + rewrite Hpol, Hp. vm_compute. reflexivity.
    + rewrite Htok. exact Hlook.
Defined.
End witnesses.
