(* ===== verification/System.v ===== *)
(** * The system backend (src/src/modules/system/mod.rs)

    The handlers below [sys/]: mounts, auth methods, policies, raw access to the
    barrier, and the declarations of their paths.  They act on the core, the
    auth module and the policy module at once: [SysState] holds the three over
    one barrier. *)

From stdpp Require Import base tactics list gmap strings sorting.
From Stdlib Require Import ZArith Lia Ascii.
From S2P Require Import Prelude Errors RustStr Utils Storage BarrierView Logical LogicalBackend Router Policy AclModel Mount MountCorrect AuthMount VaultCore World TokenStore PolicyStore.
Import MountEntryOps.

Local Open Scope string_scope.

(** The state the handlers reach through the core.  [sys_rest] is the world of
    the policy module without its storage, which is the core's barrier, and its
    UUID counter, which is the core's; the modules are [None] or [false] when the
    module manager does not have them. *)
Record SysState (B : Type) (T : Type -> Type) (W Q C : Type) := {
  sys_auth : AuthModule B T W;
  sys_has_auth : bool;
  sys_policy : option PolicyStore;
  sys_rest : World unit Q C
}.
Arguments sys_auth {B T W Q C}.
Arguments sys_has_auth {B T W Q C}.
Arguments sys_policy {B T W Q C}.
Arguments sys_rest {B T W Q C}.

(** A world over another storage. *)
Definition with_storage {S S' Q C} (s : S') (uuids : nat) (w : World S Q C) : World S' Q C :=
  {| w_store := s; w_ticks := w_ticks w; w_uuids := uuids; w_queue := w_queue w;
     w_queue_held := w_queue_held w; w_deadlock := w_deadlock w; w_policy_types := w_policy_types w;
     w_token_policies_lru := w_token_policies_lru w; w_egp_lru := w_egp_lru w |}.

Definition sanitize_path (path : string) : string :=
  let new_path := if ends_with_char slash path then path else path ++ "/" in
  match new_path with
  | String a rest => if Ascii.eqb a slash then rest else new_path
  | EmptyString => EmptyString
  end.

Module System.
Section system.
Context {B : Type} `{HB : Backend B} `{HG : AesGcm} `{HR : Rng}.
Context {T : Type -> Type} `{HT : RadixTrie T} {W : Type}.
Context `{HH : HmacSha256} `{HX : HexCodec} `{HU : UuidGen} `{HSM : Serde (gmap string MountEntry)}.
Context {Q C : Type} `{HC : PolicyCache C} `{HSP : Serde PolicyEntry} `{HHcl : HclParser} `{HP : Profile}.
Context `{HB64 : Base64} `{HHu : Humantime} `{HJ : JsonParser}.
Context (walk_fuel : nat).

Abbreviation state := (SysState B T W Q C).
Abbreviation H := (st (state * Request) RvError).

(** *** The parts of the state *)

Definition set_auth_module (a : AuthModule B T W) (s : state) : state :=
  {| sys_auth := a; sys_has_auth := sys_has_auth s; sys_policy := sys_policy s; sys_rest := sys_rest s |}.

Definition on_auth {A} (f : st (AuthModule B T W) RvError A) : H A := on_world (fun s =>
  let '(a, r) := f (sys_auth s) in (set_auth_module a s, r)).

Definition on_core {A} (f : st (Core B T W) RvError A) : H A := on_auth (fun a =>
  let '(c, r) := f (am_core a) in (AuthMounts.set_core c a, r)).

Definition on_barrier {A} (f : AESGCMBarrier.t B -> AESGCMBarrier.t B * result A) : H A :=
  on_core (CoreMounts.with_barrier f).

Definition get_core : H (Core B T W) := on_core st_get.

(** [get_auth_module], with the downcast that always succeeds. *)
Definition get_auth_module : H unit := fun '(s, req) =>
  ((s, req), if sys_has_auth s then Ok tt else Err ErrModuleNotFound).

(** [get_policy_module], and the policy module run over the core's barrier. *)
Definition on_policy {A} (f : PolicyStore -> st (World (AESGCMBarrier.t B) Q C * Request) RvError A) : H A :=
  fun '(s, req) =>
    match sys_policy s with
    | None => ((s, req), Err ErrModuleNotFound)
    | Some ps =>
        let c := am_core (sys_auth s) in
        let '((w, req), r) := f ps (with_storage (barrier c) (uuids c) (sys_rest s), req) in
        (({| sys_auth := AuthMounts.set_core (set_uuids (w_uuids w) (set_barrier (w_store w) c)) (sys_auth s);
             sys_has_auth := sys_has_auth s; sys_policy := sys_policy s;
             sys_rest := with_storage tt 0 w |}, req), r)
    end.

(** [value.as_str().unwrap()]. *)
Definition unwrap_str (v : Value) : result string := match as_str v with Some s => Ok s | None => Panic end.

Definition data (key : string) : H Value := let! req := get_req in st_lift (RequestOps.get_data req key).
Definition data_or_default (key : string) : H Value :=
  let! req := get_req in st_lift (RequestOps.get_data_or_default req key).

(** *** Mounts *)

(** What a table tells of its mounts, by their paths. *)
Definition mount_info (entry : MountEntry) : Value :=
  VObject [("description", VStr (me_description entry)); ("type", VStr (logical_type entry))].
Definition table_info (t : MountTable) : gmap string Value :=
  fold_left (λ data entry, <[me_path entry := mount_info entry]> data)
    (map snd (map_to_list (MountTableOps.snapshot t))) ∅.

Definition handle_mount_table : H (option Response) :=
  let! c := get_core in
  st_ret (Some (ResponseOps.data_response (Some (table_info (mounts c))))).

Definition set_options (o : option (gmap string string)) (e : MountEntry) : MountEntry :=
  {| table := table e; me_tainted := me_tainted e; uuid := uuid e; me_path := me_path e;
     logical_type := logical_type e; me_description := me_description e; options := o; hmac := hmac e |}.

Definition handle_mount : H (option Response) :=
  let! path := data "path" in
  let! logical_type := data "type" in
  let! description := data_or_default "description" in
  let! options := data_or_default "options" in
  let! path := st_lift (unwrap_str path) in
  let! logical_type := st_lift (unwrap_str logical_type) in
  let! description := st_lift (unwrap_str description) in
  let! _ := st_guard (is_empty logical_type) ErrRequestInvalid in
  let me := set_options (FieldTrait.as_map options)
              (MountEntryOps.new MOUNT_TABLE_TYPE path logical_type description) in
  let! _ := on_core (CoreMounts.mount me) in
  st_ret None.

Definition handle_unmount : H (option Response) :=
  let! req := get_req in
  let suffix := trim_start_pat "mounts/" (path req) in
  let! _ := st_guard (is_empty suffix) ErrRequestInvalid in
  let! _ := on_core (CoreMounts.unmount walk_fuel suffix) in
  st_ret None.

Definition handle_remount : H (option Response) :=
  let! from := data "from" in
  let! to := data "to" in
  let! from := st_lift (unwrap_str from) in
  let! to := st_lift (unwrap_str to) in
  let! _ := st_guard (is_empty from || is_empty to) ErrRequestInvalid in
  let from_path := sanitize_path from in
  let to_path := sanitize_path to in
  let! c := get_core in
  match Router.matching_mount_entry from_path (router c) with
  | None => st_fail (ErrResponseStatus 409 ("no matching mount at " ++ from_path))
  | Some r =>
      let dst_path_match := Router.matching_mount to (router c) in
      let! _ := st_guard (negb (is_empty dst_path_match))
                  (ErrResponseStatus 409 ("path already in use at " ++ dst_path_match)) in
      match MountTableOps.deref (mounts c) r with
      | None => st_lift Panic
      | Some mount_entry =>
          if String.eqb (table mount_entry) AUTH_TABLE_TYPE then
            let! _ := get_auth_module in
            let! _ := on_auth (AuthMounts.remount_auth from_path to_path) in st_ret None
          else if String.eqb (table mount_entry) MOUNT_TABLE_TYPE then
            let! _ := on_core (CoreMounts.remount from_path to_path) in st_ret None
          else st_fail (ErrResponseStatus 409 "Unknown mount table type.")
      end
  end.

(** *** Leases: not implemented in the program, beyond reading the request *)

(** [from_value::<i32>]. *)
Definition i32_of (v : Value) : result Z :=
  match v with
  | VInt z => of_option SerdeJson (in_range (- 2 ^ 31) (2 ^ 31 - 1) z)
  | _ => Err SerdeJson
  end.

Definition handle_renew : H (option Response) :=
  let! _ := data "lease_id" in
  let! v := data "increment" in
  let! _ := st_lift (i32_of v) in
  st_ret None.

Definition handle_revoke : H (option Response) := let! _ := data "lease_id" in st_ret None.
Definition handle_revoke_prefix : H (option Response) := let! _ := data "prefix" in st_ret None.

(** *** Auth methods *)

Definition handle_auth_table : H (option Response) :=
  let! _ := get_auth_module in
  let! a := on_auth st_get in
  st_ret (Some (ResponseOps.data_response (Some (table_info (AuthMounts.auth_table a))))).

Definition handle_auth_enable : H (option Response) :=
  let! path := data "path" in
  let! logical_type := data "type" in
  let! description := data_or_default "description" in
  let! options := data_or_default "options" in
  let! path := st_lift (unwrap_str path) in
  let path := sanitize_path path in
  let! logical_type := st_lift (unwrap_str logical_type) in
  let! description := st_lift (unwrap_str description) in
  let! _ := st_guard (is_empty logical_type) ErrRequestInvalid in
  let me := set_options (FieldTrait.as_map options)
              (MountEntryOps.new AUTH_TABLE_TYPE path logical_type description) in
  let! _ := get_auth_module in
  let! _ := on_auth (AuthMounts.enable_auth me) in
  st_ret None.

Definition handle_auth_disable : H (option Response) :=
  let! req := get_req in
  let path := sanitize_path (trim_start_pat "auth/" (path req)) in
  let! _ := st_guard (is_empty path) ErrRequestInvalid in
  let! _ := get_auth_module in
  let! _ := on_auth (AuthMounts.disable_auth walk_fuel path) in
  st_ret None.

(** *** Policies *)

Definition handle_policy_list : H (option Response) := on_policy (PolicyModule.handle_policy_list walk_fuel).
Definition handle_policy_read : H (option Response) := on_policy PolicyModule.handle_policy_read.
Definition handle_policy_write : H (option Response) := on_policy PolicyModule.handle_policy_write.
Definition handle_policy_delete : H (option Response) := on_policy PolicyModule.handle_policy_delete.

(** *** Audit devices: not implemented in the program *)

Definition handle_audit_table : H (option Response) := st_ret None.
Definition handle_audit_enable : H (option Response) := st_ret None.
Definition handle_audit_disable : H (option Response) := st_ret None.

(** *** Raw access to the barrier *)

Definition handle_raw_read : H (option Response) :=
  let! path := data "path" in
  let! path := st_lift (unwrap_str path) in
  let! entry := on_barrier (λ b, (b, AESGCMBarrier.get b path)) in
  st_ret (match entry with
          | None => None
          | Some e => Some (ResponseOps.data_response (Some {["value" := VStr (from_utf8_lossy (se_value e))]}))
          end).

Definition handle_raw_write : H (option Response) :=
  let! path := data "path" in
  let! value := data "value" in
  let! path := st_lift (unwrap_str path) in
  let! value := st_lift (unwrap_str value) in
  let! _ := on_barrier (λ b, AESGCMBarrier.put b {| se_key := path; se_value := str_bytes value |}) in
  st_ret None.

Definition handle_raw_delete : H (option Response) :=
  let! path := data "path" in
  let! path := st_lift (unwrap_str path) in
  let! _ := on_barrier (λ b, AESGCMBarrier.delete b path) in
  st_ret None.

(** *** The backend *)

Definition mounts_path : Path * list (PathOperation state) :=
  path_with "mounts$" ""
    []
    [(Read, handle_mount_table)].

Definition mount_path : Path * list (PathOperation state) :=
  path_with "mounts/(?P<path>.+)" ""
    [("path", plain_field Str (requote "The path to mount to. Example: 'aws/east'"));
     ("type", plain_field Str (requote "The type of the backend. Example: 'kv'"));
     ("description", default_field Str (VStr "") "User-friendly description for this mount.");
     ("options", plain_field Map "The options to pass into the backend. Should be a json object with string keys and values.")]
    [(Write, handle_mount); (Delete, handle_unmount)].

Definition remount_path : Path * list (PathOperation state) :=
  path_with "remount" ""
    [("from", plain_field Str "");
     ("to", plain_field Str "")]
    [(Write, handle_remount)].

Definition renew_path : Path * list (PathOperation state) :=
  path_with "renew/(?P<lease_id>.+)" ""
    [("lease_id", plain_field Str "The lease identifier to renew. This is included with a lease.");
     ("increment", plain_field Int "The desired increment in seconds to the lease")]
    [(Write, handle_renew)].

Definition revoke_path : Path * list (PathOperation state) :=
  path_with "revoke/(?P<lease_id>.+)" ""
    [("lease_id", plain_field Str "The lease identifier to renew. This is included with a lease.")]
    [(Write, handle_revoke)].

Definition revoke_prefix_path : Path * list (PathOperation state) :=
  path_with "revoke-prefix/(?P<prefix>.+)" ""
    [("prefix", plain_field Str (requote "The path to revoke keys under. Example: 'prod/aws/ops'"))]
    [(Write, handle_revoke_prefix)].

Definition auth_table_path : Path * list (PathOperation state) :=
  path_with "auth$" ""
    []
    [(Read, handle_auth_table)].

Definition auth_path : Path * list (PathOperation state) :=
  path_with "auth/(?P<path>.+)" ""
    [("path", plain_field Str (requote "The path to mount to. Cannot be delimited. Example: 'user'"));
     ("type", plain_field Str (requote "The type of the backend. Example: 'userpass'"));
     ("description", default_field Str (VStr "") "User-friendly description for this crential backend.");
     ("options", plain_field Map "The options to pass into the backend. Should be a json object with string keys and values.")]
    [(Write, handle_auth_enable); (Delete, handle_auth_disable)].

Definition policy_list_path : Path * list (PathOperation state) :=
  path_with "policy/?$" ""
    []
    [(Read, handle_policy_list); (List, handle_policy_list)].

Definition policy_path : Path * list (PathOperation state) :=
  path_with "policy/(?P<name>.+)" ""
    [("name", plain_field Str (requote "The name of the policy. Example: 'ops'"));
     ("policy", plain_field Str "The rules of the policy. Either given in HCL or JSON format.")]
    [(Read, handle_policy_read); (Write, handle_policy_write); (Delete, handle_policy_delete)].

Definition policies_list_path : Path * list (PathOperation state) :=
  path_with "policies/acl/?$" ""
    []
    [(Read, handle_policy_list); (List, handle_policy_list)].

Definition policies_path : Path * list (PathOperation state) :=
  path_with "policies/acl/(?P<name>.+)" ""
    [("name", plain_field Str (requote "The name of the policy. Example: 'ops'"));
     ("policy", plain_field Str "The rules of the policy. Either given in HCL or JSON format.")]
    [(Read, handle_policy_read); (Write, handle_policy_write); (Delete, handle_policy_delete)].

Definition audit_table_path : Path * list (PathOperation state) :=
  path_with "audit$" ""
    []
    [(Read, handle_audit_table)].

Definition audit_path : Path * list (PathOperation state) :=
  path_with "audit/(?P<path>.+)" ""
    [("path", plain_field Str (requote "The name of the backend. Cannot be delimited. Example: 'mysql'"));
     ("type", plain_field Str (requote "The type of the backend. Example: 'mysql'"));
     ("description", plain_field Str "User-friendly description for this audit backend.");
     ("options", plain_field Map "Configuration options for the audit backend.")]
    [(Write, handle_audit_enable); (Delete, handle_audit_disable)].

Definition raw_path : Path * list (PathOperation state) :=
  path_with "raw/(?P<path>.+)" ""
    [("path", plain_field Str "");
     ("value", plain_field Str "")]
    [(Read, handle_raw_read); (Write, handle_raw_write); (Delete, handle_raw_delete)].

Definition SYSTEM_BACKEND_HELP : string := "
The system backend is built-in to RustyVault and cannot be remounted or
unmounted. It contains the paths that are used to configure RustyVault itself
as well as perform core operations.
".

Definition ROOT_PATHS : list string :=
  ["mounts/*"; "auth/*"; "remount"; "policy"; "policy/*"; "audit";
   "audit/*"; "seal"; "raw/*"; "revoke-prefix/*"].

Definition new_backend {R} : LogicalBackend R state :=
  {| paths := [mounts_path; mount_path; remount_path; renew_path; revoke_path; revoke_prefix_path;
               auth_table_path; auth_path; policy_list_path; policy_path; policies_list_path; policies_path;
               audit_table_path; audit_path; raw_path];
     paths_re := []; root_paths := ROOT_PATHS; unauth_paths := []; backend_help := SYSTEM_BACKEND_HELP;
     secrets := []; auth_renew_handler := None |}.

End system.
End System.
