(* ===== verification/SystemCorrect.v ===== *)
(** * Correctness of the system backend (theorems about
    src/src/modules/system/mod.rs)

    Raw access reads back what it wrote; the paths that need sudo; how the path
    of an unmount is taken from the request. *)

From stdpp Require Import base tactics list gmap strings sorting.
From Stdlib Require Import ZArith Lia Ascii.
From S2P Require Import Prelude Errors RustStr Utils Storage BarrierCorrect BarrierView Logical LogicalBackend Router Policy AclModel Mount MountCorrect AuthMount AuthMountCorrect VaultCore World WorldLaws TokenStore WorldDemo PolicyStore PolicyCorrect System.
Import MountEntryOps.

Local Open Scope string_scope.

(** ** Strings *)

Definition ascii_only (s : string) : Prop := Forall (λ b, (Byte.to_N b < 128)%N) (str_bytes s).

Lemma utf8_repair_ascii l : Forall (λ b, (Byte.to_N b < 128)%N) l → utf8_repair [] [] l = l.
Proof.
  induction 1 as [|b l Hb Hl IH]; [done|]. simpl. unfold utf8_lead.
  replace (Byte.to_N b <? 128)%N with true by (symmetry; by apply N.ltb_lt). by rewrite IH.
Qed.

Lemma from_utf8_lossy_ascii s : ascii_only s → from_utf8_lossy (str_bytes s) = s.
Proof. intros Hs. unfold from_utf8_lossy. by rewrite utf8_repair_ascii, string_of_str_bytes. Qed.

(** ** Special paths, when one declared path extends another *)

Lemma special_path_longest {T} `{HT : RadixTrie T} `{HTL : !RadixTrieLaws T} ps p remain :
  p ∈ ps → declared_match p remain = true →
  (∀ q, q ∈ ps → starts_with (path_key q) remain = true →
        q = p ∨ (String.length (path_key q) < String.length (path_key p))%nat) →
  Router.special_path (Router.new_radix_from_paths (T := T) ps) remain = true.
Proof.
  intros Hp Hm Hmax. unfold Router.special_path. pose proof (declared_match_key p remain Hm) as Hs.
  destruct (trie_get_ancestor _ _) as [[k b]|] eqn:E.
  - apply get_ancestor_iff in E as (Hk & Hks & Hlong).
    pose proof (Hlong _ (radix_dom ps p Hp) Hs) as Hlen.
    apply radix_lookup in Hk as (q & Hq & <- & Hb).
    destruct (Hmax q Hq Hks) as [->|Hlt]; [|lia].
    unfold declared_match, path_key in *. rewrite Hb in *. by destruct b.
  - by rewrite (proj1 (get_ancestor_none_iff _ _) E _ (radix_dom ps p Hp)) in Hs.
Qed.

Section system.
Context {B : Type} `{HB : Backend B} `{HBS : !BackendSpec B} `{HG : AesGcm} `{HGL : !AesGcmLaws} `{HR : Rng}.
Context {T : Type -> Type} `{HT : RadixTrie T} `{HTL : !RadixTrieLaws T} {W : Type}.
Context `{HH : HmacSha256} `{HX : HexCodec} `{HU : UuidGen} `{HSM : Serde (gmap string MountEntry)}.
Context {Q C : Type} `{HC : PolicyCache C} `{HSP : Serde PolicyEntry} `{HHcl : HclParser} `{HP : Profile}.
Context `{HB64 : Base64} `{HHu : Humantime} `{HJ : JsonParser}.
Context (walk_fuel : nat).

Abbreviation state := (SysState B T W Q C).

(** ** Sudo *)

Lemma root_path_of (root : T (RouterEntry T W)) mount rest me ps :
  longest_prefix (trie_map root) (mount ++ rest) mount me →
  re_root_paths me = Router.new_radix_from_paths ps →
  Router.is_root_path (mount ++ rest) root = Router.special_path (Router.new_radix_from_paths (T := T) ps) rest.
Proof.
  intros Hl Hr. unfold Router.is_root_path. rewrite (proj2 (get_ancestor_iff _ _ _ _) Hl), Hr.
  by autorewrite with rust_str.
Qed.

(** The two spellings of a policy's path run the same handlers, but only one is
    a root path: writing, reading or deleting [sys/policy/<name>] needs sudo,
    while [sys/policies/acl/<name>] does not. *)
Theorem policies_acl_without_sudo (root : T (RouterEntry T W)) (name : string) (me : RouterEntry T W) :
  longest_prefix (trie_map root) ("sys/" ++ "policy/" ++ name) "sys/" me →
  longest_prefix (trie_map root) ("sys/" ++ "policies/acl/" ++ name) "sys/" me →
  re_root_paths me = Router.new_radix_from_paths System.ROOT_PATHS →
  snd (System.policies_path (B := B) (T := T) (W := W) (Q := Q) (C := C)) = snd System.policy_path ∧
  Router.is_root_path ("sys/" ++ "policy/" ++ name) root = true ∧
  Router.is_root_path ("sys/" ++ "policies/acl/" ++ name) root = false.
Proof.
  intros H1 H2 Hr. split; [done|]. rewrite (root_path_of _ _ _ _ _ H1 Hr), (root_path_of _ _ _ _ _ H2 Hr).
  split.
  - apply (special_path_longest _ "policy/*"); [set_solver|done|].
    intros q Hq. repeat (apply elem_of_cons in Hq as [->|Hq]; [vm_compute; try done; intros; (by left) || right; lia|]).
    by apply elem_of_nil in Hq.
  - apply not_true_is_false. intros (p & Hp & Hm)%special_path_sound.
    repeat (apply elem_of_cons in Hp as [->|Hp]; [done|]). by apply elem_of_nil in Hp.
Qed.

(** ** The path of an unmount *)

(** [handle_unmount] strips [mounts/] from the request's path as often as it
    occurs there: a request to unmount a mount at [mounts/<p>] (which
    [handle_mount] creates from the captured path) is one to unmount [<p>]. *)
Theorem unmount_mounts_prefix (s : state) (req req' : Request) (p : string) :
  path req = "mounts/" ++ "mounts/" ++ p → path req' = "mounts/" ++ p →
  fst (fst (System.handle_unmount walk_fuel (s, req))) = fst (fst (System.handle_unmount walk_fuel (s, req'))) ∧
  snd (System.handle_unmount walk_fuel (s, req)) = snd (System.handle_unmount walk_fuel (s, req')).
Proof.
  intros H1 H2. unfold System.handle_unmount. unfold st_bind, get_req. rewrite H1, H2.
  rewrite !trim_start_pat_app by done. unfold st_guard. destruct (is_empty _); [done|]. cbn.
  destruct (CoreMounts.unmount _ _ _) as [c [a| |]]; done.
Qed.

(** ** Raw access *)

Lemma data_run key v (s : state) req :
  RequestOps.get_data req key = Ok v → System.data key (s, req) = ((s, req), Ok v).
Proof. unfold System.data. intros H. cbn. unfold st_lift. by rewrite H. Qed.

Lemma on_barrier_run {A} (f : AESGCMBarrier.t B -> AESGCMBarrier.t B * result A) b r (s : state) req :
  f (barrier (am_core (sys_auth s))) = (b, r) →
  System.on_barrier f (s, req)
  = ((System.set_auth_module (AuthMounts.set_core (set_barrier b (am_core (sys_auth s))) (sys_auth s)) s, req), r).
Proof. intros H. cbn. unfold CoreMounts.with_barrier. by rewrite H. Qed.

Definition sys_barrier (s : state) : AESGCMBarrier.t B := barrier (am_core (sys_auth s)).

(** A value written with [sys/raw/<path>] is the value in the barrier at that
    path, nothing else of the barrier changes, and a read returns it: for text
    of the ASCII range exactly, otherwise with its ill-formed UTF-8 replaced. *)
Theorem raw_write_read (s : state) (req req2 : Request) (p v : string) :
  operational (sys_barrier s) → backend_key_ok p →
  RequestOps.get_data req "path" = Ok (VStr p) → RequestOps.get_data req "value" = Ok (VStr v) →
  RequestOps.get_data req2 "path" = Ok (VStr p) →
  ∃ s', System.handle_raw_write (s, req) = ((s', req), Ok None) ∧
    plain (sys_barrier s') = <[p := str_bytes v]> (plain (sys_barrier s)) ∧
    System.handle_raw_read (s', req2)
    = ((s', req2), Ok (Some (ResponseOps.data_response (Some {["value" := VStr (from_utf8_lossy (str_bytes v))]})))) ∧
    (ascii_only v → from_utf8_lossy (str_bytes v) = v).
Proof.
  intros Hop Hk Hp Hv Hp2.
  destruct (put_spec (sys_barrier s) p (str_bytes v) Hop Hk) as (b & Hput & Hi & Hpl & _).
  eexists. split.
  { unfold System.handle_raw_write. rewrite (st_bind_run _ _ _ _ _ (data_run _ _ _ _ Hp)).
    rewrite (st_bind_run _ _ _ _ _ (data_run _ _ _ _ Hv)).
    rewrite (st_bind_run _ _ _ (s, req) p) by done. rewrite (st_bind_run _ _ _ (s, req) v) by done.
    rewrite (st_bind_run _ _ _ _ _ (on_barrier_run _ _ _ _ _ Hput)). reflexivity. }
  split; [done|]. split; [|apply from_utf8_lossy_ascii].
  assert (AESGCMBarrier.get b p = Ok (Some {| se_key := p; se_value := str_bytes v |})) as Hg.
  { apply get_spec; [by eapply operational_info|done|]. rewrite Hpl. apply lookup_insert_eq. }
  unfold System.handle_raw_read. rewrite (st_bind_run _ _ _ _ _ (data_run _ _ _ _ Hp2)).
  cbn. unfold CoreMounts.with_barrier. cbn. by rewrite Hg.
Qed.

End system.

(** *** Witnesses *)

#[local] Existing Instance no_durations.
#[local] Existing Instance no_json.

Definition demo_sys_state : SysState MemBackend.t (gmap string) nat LeaseList (gmap string Policy) :=
  {| sys_auth := demo_auth; sys_has_auth := true; sys_policy := None; sys_rest := with_storage tt 0 demo_world |}.

Definition raw_request : Request :=
  set_match_path (Some (fst (System.raw_path (HG := toy_gcm) (HR := demo_rng) (B := MemBackend.t)
                               (T := gmap string) (W := nat) (Q := LeaseList) (C := gmap string Policy))))
    (set_data (Some {["path" := VStr "secret/a"; "value" := VStr "hello"]}) (RequestOps.new "raw/secret/a")).

Lemma raw_write_read_witness :
  ∃ s', System.handle_raw_write (HG := toy_gcm) (HR := demo_rng) (demo_sys_state, raw_request)
        = ((s', raw_request), Ok None) ∧
    System.handle_raw_read (HG := toy_gcm) (s', raw_request)
    = ((s', raw_request), Ok (Some (ResponseOps.data_response (Some {["value" := VStr "hello"]})))).
Proof.
  destruct (raw_write_read (HBS := MemBackend.backend_spec) (HG := toy_gcm) (HGL := toy_gcm_laws)
      (HR := demo_rng) demo_sys_state raw_request raw_request "secret/a" "hello" demo_operational I)
    as (s' & Hw & _ & Hr & Ha).
  - by vm_compute.
  - by vm_compute.
  - by vm_compute.
  - exists s'. split; [exact Hw|]. rewrite Ha in Hr; [exact Hr|]. repeat constructor.
Defined.

(** A router with the system backend at [sys/]. *)
Definition sys_entry : RouterEntry (gmap string) nat :=
  {| tainted := false; re_backend := demo_dyn; view := BarrierView.new "sys/";
     re_root_paths := Router.new_radix_from_paths System.ROOT_PATHS;
     re_unauth_paths := trie_new bool; mount_entry := 0 |}.
Definition sys_router : gmap string (RouterEntry (gmap string) nat) := {["sys/" := sys_entry]}.

Lemma sys_router_longest rest : longest_prefix (trie_map sys_router) ("sys/" ++ rest) "sys/" sys_entry.
Proof.
  split_and!; [apply lookup_singleton_eq|apply starts_with_app|].
  intros q [x Hx] _. 
  by apply (lookup_singleton_Some "sys/" q sys_entry x) in Hx as [<- _].
Defined.

Lemma policies_acl_without_sudo_witness :
  Router.is_root_path "sys/policy/ops" sys_router = true ∧
  Router.is_root_path "sys/policies/acl/ops" sys_router = false.
Proof.
  exact (proj2 (policies_acl_without_sudo (B := MemBackend.t) (HG := toy_gcm) (HR := demo_rng)
    (Q := nat) (C := gmap string Policy) (HC := policy_map) (HSP := policy_serde)
    (HHcl := empty_hcl) (HGL := toy_gcm_laws) (HB64 := no_base64) sys_router "ops" sys_entry (sys_router_longest _)
    (sys_router_longest _) eq_refl)).
Defined.

Definition demo_sys_mounted : SysState MemBackend.t (gmap string) nat LeaseList (gmap string Policy) :=
  System.set_auth_module (AuthMounts.set_core demo_mounted demo_auth) demo_sys_state.

(** Asked to unmount [mounts/kv1], the server unmounts [kv1]. *)
Lemma unmount_mounts_prefix_witness :
  let r := System.handle_unmount (HG := toy_gcm) (HR := demo_rng) (HSM := demo_table_serde) 10
             (demo_sys_mounted, RequestOps.new "mounts/mounts/kv1") in
  snd r = Ok None ∧ Router.matching_mount "kv1/" (router (am_core (sys_auth (fst (fst r))))) = "".
Proof.
  destruct (unmount_mounts_prefix (HG := toy_gcm) (HR := demo_rng) (HSM := demo_table_serde) 10 demo_sys_mounted
    (RequestOps.new "mounts/mounts/kv1") (RequestOps.new "mounts/kv1") "kv1" eq_refl eq_refl) as [H1 H2].
  cbv zeta. rewrite H1, H2. split; vm_compute; reflexivity.
Defined.
