(* ===== verification/Cidr.v ===== *)
(** * Network addresses and CIDR blocks

    src/src/utils/sock_addr.rs, ip_sock_addr.rs, unix_sock_addr.rs and cidr.rs:
    the addresses tokens and roles can be bound to, and the tests of
    containment between addresses and blocks. *)

From stdpp Require Import base tactics list gmap strings pretty.
From Stdlib Require Import ZArith Lia Ascii.
From S2P Require Import Prelude Errors RustStr Utils.

Local Open Scope string_scope.

(** ** Addresses and networks *)

(** [std::net::IpAddr] and [ipnetwork::IpNetwork]. *)
Inductive IpAddr := V4 (a : Z) | V6 (a : Z).
Record IpNetwork := { net_ip : IpAddr; net_prefix : Z }.

#[global] Instance IpAddr_eq_dec : EqDecision IpAddr.
Proof. solve_decision. Defined.
#[global] Instance IpNetwork_eq_dec : EqDecision IpNetwork.
Proof. solve_decision. Defined.

(** The parsers and printers of [std::net] and of the crate [ipnetwork], and
    its test of containment. *)
Class IpNet : Type := {
  parse_socket_addr : string -> option (IpAddr * Z);
  parse_ip_addr : string -> option IpAddr;
  parse_network : string -> option IpNetwork;
  show_ip : IpAddr -> string;
  net_contains : IpNetwork -> IpAddr -> bool
}.

Definition width (a : IpAddr) : Z := match a with V4 _ => 32 | V6 _ => 128 end.
Definition bits_of (a : IpAddr) : Z := match a with V4 x | V6 x => x end.
Definition same_family (a b : IpAddr) : bool :=
  match a, b with V4 _, V4 _ | V6 _, V6 _ => true | _, _ => false end.
Definition valid_ip (a : IpAddr) : Prop := (0 <= bits_of a < 2 ^ width a)%Z.
Definition valid_net (n : IpNetwork) : Prop := valid_ip (net_ip n) /\ (0 <= net_prefix n <= width (net_ip n))%Z.

(** The addresses of a network: those that agree with it on the first bits. *)
Definition in_net (n : IpNetwork) (a : IpAddr) : Prop :=
  same_family (net_ip n) a = true /\
  Z.shiftr (bits_of a) (width a - net_prefix n) = Z.shiftr (bits_of (net_ip n)) (width a - net_prefix n).

(** Documented behaviour: parsed values are in range, printed addresses read
    back (a bare address is a network of its own), and containment is agreement
    on the prefix. *)
Class IpNetLaws `{IpNet} : Prop := {
  parse_network_valid s n : parse_network s = Some n -> valid_net n;
  parse_ip_valid s a : parse_ip_addr s = Some a -> valid_ip a;
  net_contains_spec n a : valid_net n -> valid_ip a -> net_contains n a = true <-> in_net n a;
  show_not_socket a : parse_socket_addr (show_ip a) = None;
  show_net_not_socket a (p : Z) : parse_socket_addr (show_ip a ++ "/" ++ pretty p) = None;
  parse_show_ip a : valid_ip a -> parse_network (show_ip a) = Some {| net_ip := a; net_prefix := width a |};
  parse_show_net n : valid_net n ->
    parse_network (show_ip (net_ip n) ++ "/" ++ pretty (net_prefix n)) = Some n;
  parse_show_socket x p : valid_ip (V4 x) -> (0 < p < 2 ^ 16)%Z ->
    parse_socket_addr (show_ip (V4 x) ++ ":" ++ pretty p) = Some (V4 x, p)
}.

(** ** [trait SockAddr] and its implementations *)

Inductive SockAddrType := TUnknown | TUnix | TIPv4 | TIPv6 | TIP.

Definition type_u8 (t : SockAddrType) : Z :=
  match t with TUnknown => 0 | TUnix => 1 | TIPv4 => 2 | TIPv6 => 4 | TIP => 6 end.

Definition type_name (t : SockAddrType) : string :=
  match t with TIPv4 => "IPv4" | TIPv6 => "IPv6" | TUnix => "Unix" | _ => "Unknown" end.

Definition type_from_str (s : string) : result SockAddrType :=
  if existsb (String.eqb s) ["IPv4"; "ipv4"] then Ok TIPv4
  else if existsb (String.eqb s) ["IPv6"; "ipv6"] then Ok TIPv6
  else if existsb (String.eqb s) ["Unix"; "UNIX"; "unix"] then Ok TUnix
  else Err (ErrResponse "invalid sockaddr type").

Inductive SockAddr :=
  | IpSockAddr (addr : IpNetwork) (port : Z)
  | UnixSockAddr (path : string).

Module SockAddrOps.
Section ops.
Context `{HI : IpNet}.

Definition contains (self other : SockAddr) : bool :=
  match self, other with
  | IpSockAddr a _, IpSockAddr b _ => net_contains a (net_ip b)
  | UnixSockAddr p, UnixSockAddr q => String.eqb p q
  | _, _ => false
  end.

Definition equal (self other : SockAddr) : bool :=
  match self, other with
  | IpSockAddr a p, IpSockAddr b q => bool_decide (a = b) && Z.eqb p q
  | UnixSockAddr p, UnixSockAddr q => String.eqb p q
  | _, _ => false
  end.

Definition sock_addr_type (self : SockAddr) : SockAddrType :=
  match self with
  | IpSockAddr a _ => match net_ip a with V4 _ => TIPv4 | V6 _ => TIPv6 end
  | UnixSockAddr _ => TUnix
  end.

(** [Display]. *)
Definition to_string (self : SockAddr) : string :=
  match self with
  | IpSockAddr a port =>
      if negb (Z.eqb port 0) then show_ip (net_ip a) ++ ":" ++ pretty port
      else if Z.eqb (net_prefix a) 32 then show_ip (net_ip a)
      else show_ip (net_ip a) ++ "/" ++ pretty (net_prefix a)
  | UnixSockAddr p => p
  end.

(** [IpNetwork::from(ip)]: a network of one address. *)
Definition host_net (a : IpAddr) : IpNetwork := {| net_ip := a; net_prefix := width a |}.

Definition new_ip (s : string) : result SockAddr :=
  match parse_socket_addr s with
  | Some (ip, port) => Ok (IpSockAddr (host_net ip) port)
  | None =>
      match parse_network s with
      | Some n => Ok (IpSockAddr n 0)
      | None => Err (ErrResponse ("Unable to parse " ++ s ++ " to an IP address:"))
      end
  end.

(** The first byte of an ASCII text; a multi-byte first character makes the
    slice panic, which is outside this model of strings. *)
Definition new_unix (s : string) : result SockAddr :=
  if (1 <? String.length s)%nat &&
     (starts_with "." s || starts_with "/" s || RustStr.contains "/" s)
  then Ok (UnixSockAddr s)
  else Err (ErrResponse ("Unable to convert " ++ s ++ " to a UNIX Socke, make sure the string begins with either a '.' or '/', or contains a '/'")).

Definition new_sock_addr (s : string) : result SockAddr :=
  match new_ip s with
  | Ok a => Ok a
  | Panic => Panic
  | Err _ =>
      match new_unix s with
      | Ok a => Ok a
      | Panic => Panic
      | Err _ => Err (ErrResponse ("Unable to convert " ++ s ++ " to an IPv4 or IPv6 address, or a UNIX Socket"))
      end
  end.

End ops.
End SockAddrOps.

(** ** cidr.rs *)
Module Cidr.
Section cidr.
Context `{HI : IpNet}.

Definition is_ip_addr (a : SockAddr) : bool :=
  negb (Z.eqb (Z.land (type_u8 (SockAddrOps.sock_addr_type a)) (type_u8 TIP)) 0).

Definition remote_addr_is_ok (remote_addr : string) (bound_cidrs : list SockAddr) : bool :=
  match bound_cidrs with
  | [] => true
  | _ =>
      match SockAddrOps.new_sock_addr remote_addr with
      | Ok addr => existsb (λ cidr, is_ip_addr cidr && SockAddrOps.contains cidr addr) bound_cidrs
      | _ => false
      end
  end.

(** The errors of the parsers, converted by [?]. *)
Definition ip_of (s : string) : result IpAddr := of_option AddrParseError (parse_ip_addr s).
Definition net_of (s : string) : result IpNetwork := of_option IpNetworkError (parse_network s).

Definition ip_belongs_to_cidr (ip_addr cidr : string) : result bool :=
  if is_empty ip_addr then Err (ErrResponse "missing IP address")
  else
    let? ip := ip_of ip_addr in
    let? ipnet := net_of cidr in
    Ok (net_contains ipnet ip).

Fixpoint any_cidr (ip_addr : string) (cidrs : list string) : result bool :=
  match cidrs with
  | [] => Ok false
  | cidr :: cidrs =>
      let? b := ip_belongs_to_cidr ip_addr cidr in
      if b : bool then Ok true else any_cidr ip_addr cidrs
  end.

Definition ip_belongs_to_cidrs (ip_addr : string) (cidrs : list string) : result bool :=
  if is_empty ip_addr then Err (ErrResponse "missing IP address")
  else match cidrs with
       | [] => Err (ErrResponse "missing CIDR blocks to be checked against")
       | _ => any_cidr ip_addr cidrs
       end.

Fixpoint check_cidrs (cidrs : list string) : result bool :=
  match cidrs with
  | [] => Ok true
  | cidr :: cidrs => let? _ := net_of cidr in check_cidrs cidrs
  end.

Definition validate_cidrs (cidrs : list string) : result bool :=
  match cidrs with
  | [] => Err (ErrResponse "missing CIDR blocks that needs validation")
  | _ => check_cidrs cidrs
  end.

(** [s.split(sep)] for a non-empty separator; [acc] is the piece read so far. *)
Fixpoint split_str (fuel : nat) (sep acc s : string) : list string :=
  match fuel with
  | O => [acc ++ s]
  | S fuel =>
      match strip_prefix sep s with
      | Some r => acc :: split_str fuel sep "" r
      | None =>
          match s with
          | EmptyString => [acc]
          | String a s => split_str fuel sep (acc ++ String a "") s
          end
      end
  end.

(** The set of blocks in a separated list; [validate_cidrs] does not depend on
    the order of a hash set but for the error it reports first. *)
Definition validate_cidr_string (cidr_list separator : string) : result bool :=
  if is_empty cidr_list then Err (ErrResponse "missing CIDR list that needs validation")
  else if is_empty separator then Err (ErrResponse "missing separator")
  else
    let pieces := split_str (S (String.length cidr_list)) separator "" cidr_list in
    validate_cidrs (remove_dups (List.filter (λ c, negb (is_empty c)) (map trim pieces))).

Definition is_ip_addr_zero (a : IpAddr) : bool := Z.eqb (bits_of a) 0.

Definition canonical (n : IpNetwork) : bool := is_ip_addr_zero (net_ip n) || negb (Z.eqb (net_prefix n) 0).

Definition subset (cidr1 cidr2 : string) : result bool :=
  if is_empty cidr1 then Err (ErrResponse "missing CIDR to be checked against")
  else if is_empty cidr2 then Err (ErrResponse "missing CIDR that needs to be checked")
  else
    let? ipnet1 := net_of cidr1 in
    if negb (canonical ipnet1)
    then Err (ErrResponse "CIDR to be checked against is not in its canonical form")
    else
      let? ipnet2 := net_of cidr2 in
      if negb (canonical ipnet2)
      then Err (ErrResponse "CIDR that needs to be checked is not in its canonical form")
      else if (net_prefix ipnet2 <? net_prefix ipnet1)%Z then Ok false
      else Ok (net_contains ipnet1 (net_ip ipnet2)).

(** The inner loop: is the block below one of the list. *)
Fixpoint below_some (cidr_blocks1 : list string) (cidr_block2 : string) : result bool :=
  match cidr_blocks1 with
  | [] => Ok false
  | b1 :: bs =>
      let? s := subset b1 cidr_block2 in
      if s : bool then Ok true else below_some bs cidr_block2
  end.

Fixpoint all_below (cidr_blocks1 cidr_blocks2 : list string) : result bool :=
  match cidr_blocks2 with
  | [] => Ok true
  | b2 :: bs =>
      let? s := below_some cidr_blocks1 b2 in
      if s : bool then all_below cidr_blocks1 bs else Ok false
  end.

Definition subset_blocks (cidr_blocks1 cidr_blocks2 : list string) : result bool :=
  match cidr_blocks1, cidr_blocks2 with
  | [], _ => Err (ErrResponse "missing CIDR blocks to be checked against")
  | _, [] => Err (ErrResponse "missing CIDR blocks that needs to be checked")
  | _, _ => all_below cidr_blocks1 cidr_blocks2
  end.

End cidr.
End Cidr.

(** ** Theorems *)
Section theorems.
Context `{HI : IpNet} `{HIL : !IpNetLaws}.
Import SockAddrOps Cidr.

Lemma same_family_width a b : same_family a b = true → width a = width b.
Proof. by destruct a, b. Qed.

Lemma same_family_trans a b c : same_family a b = true → same_family b c = true → same_family a c = true.
Proof. by destruct a, b, c. Qed.

Lemma same_family_sym a b : same_family a b = same_family b a.
Proof. by destruct a, b. Qed.

Lemma in_net_self n : in_net n (net_ip n).
Proof. split; [by destruct (net_ip n)|done]. Qed.

(** A shorter prefix at an address of the other block contains all of it. *)
Lemma in_net_below n1 n2 a :
  valid_net n1 → valid_net n2 → (net_prefix n1 <= net_prefix n2)%Z → in_net n1 (net_ip n2) → in_net n2 a → in_net n1 a.
Proof.
  intros [_ V1] [_ V2] Hp [Hf1 H1] [Hf2 H2].
  pose proof (same_family_width _ _ Hf1) as W1. pose proof (same_family_width _ _ Hf2) as W2.
  split; [by eapply same_family_trans|]. rewrite <- W2.
  replace (width (net_ip n2) - net_prefix n1)%Z
    with (width (net_ip n2) - net_prefix n2 + (net_prefix n2 - net_prefix n1))%Z by lia.
  rewrite <- !Z.shiftr_shiftr by lia. rewrite W2, H2, <- W2.
  rewrite !Z.shiftr_shiftr by lia.
  by replace (width (net_ip n2) - net_prefix n2 + (net_prefix n2 - net_prefix n1))%Z
    with (width (net_ip n2) - net_prefix n1)%Z by lia.
Qed.

Definition with_bits (a : IpAddr) (x : Z) : IpAddr := match a with V4 _ => V4 x | V6 _ => V6 x end.

Lemma with_bits_facts a x :
  bits_of (with_bits a x) = x ∧ width (with_bits a x) = width a ∧ same_family a (with_bits a x) = true.
Proof. by destruct a. Qed.

(** A block with a shorter prefix has an address outside. *)
Lemma shorter_escapes n1 n2 :
  valid_net n1 → valid_net n2 → (net_prefix n2 < net_prefix n1)%Z → same_family (net_ip n1) (net_ip n2) = true →
  ∃ a, valid_ip a ∧ in_net n2 a ∧ ¬ in_net n1 a.
Proof.
  intros [_ V1] [V2 P2] Hp Hf. pose proof (same_family_width _ _ Hf) as Hw. set (w := width (net_ip n2)) in *.
  set (i := (w - net_prefix n1)%Z). set (x := bits_of (net_ip n2)).
  assert (0 <= i < w)%Z as Hi by lia.
  (* flip the last bit of the longer prefix in an address of the short block *)
  assert (∃ y, (0 <= y < 2 ^ w)%Z ∧ Z.shiftr y (w - net_prefix n2) = Z.shiftr x (w - net_prefix n2) ∧
               Z.shiftr y i ≠ Z.shiftr (bits_of (net_ip n1)) i) as (y & Hy & Hin & Hout).
  { destruct (decide (Z.shiftr x i = Z.shiftr (bits_of (net_ip n1)) i)) as [He|Hne]; [|by exists x].
    exists (Z.lxor x (2 ^ i)). assert (∀ j, (0 <= j)%Z → Z.testbit (Z.lxor x (2 ^ i)) j = xorb (Z.testbit x j) (Z.eqb i j)) as Ht.
    { intros j Hj. rewrite Z.lxor_spec, Z.pow2_bits_eqb by lia. done. }
    split_and!.
    - apply Z.lxor_nonneg; unfold valid_ip in V2; fold w x in V2; lia.
    - unfold valid_ip in V2. fold w x in V2.
      destruct (Z.eq_dec (Z.lxor x (2 ^ i)) 0) as [->|Hnz]; [lia|].
      apply Z.log2_lt_pow2; [apply Z.le_neq; split; [apply Z.lxor_nonneg; lia|done]|].
      eapply Z.le_lt_trans; [apply Z.log2_lxor; lia|]. apply Z.max_lub_lt.
      + destruct (Z.eq_dec x 0) as [->|]; [simpl; lia|]. apply Z.log2_lt_pow2; lia.
      + rewrite Z.log2_pow2; lia.
    - apply Z.bits_inj'. intros j Hj. rewrite !Z.shiftr_spec, Ht by lia.
      rewrite (proj2 (Z.eqb_neq i _)) by lia. apply xorb_false_r.
    - rewrite <- He. intros Hc. apply (f_equal (λ z, Z.testbit z 0)) in Hc.
      rewrite !Z.shiftr_spec, Ht in Hc by lia. rewrite Z.add_0_l, Z.eqb_refl in Hc. by destruct (Z.testbit x i). }
  destruct (with_bits_facts (net_ip n2) y) as (Hb & Hwb & Hfb). exists (with_bits (net_ip n2) y). split_and!.
  - unfold valid_ip. by rewrite Hb, Hwb.
  - split; [done|]. by rewrite Hb, Hwb.
  - intros [_ Hc]. rewrite Hb, Hwb in Hc. by apply Hout.
Qed.

(** For two blocks in canonical form [subset] answers exactly whether every
    address of the second is one of the first. *)
Theorem subset_exact (c1 c2 : string) (n1 n2 : IpNetwork) :
  c1 ≠ "" → c2 ≠ "" → parse_network c1 = Some n1 → parse_network c2 = Some n2 →
  canonical n1 = true → canonical n2 = true →
  ∃ b, subset c1 c2 = Ok b ∧ (b = true ↔ ∀ a, valid_ip a → in_net n2 a → in_net n1 a).
Proof.
  intros H1 H2 P1 P2 C1 C2. pose proof (parse_network_valid _ _ P1) as V1. pose proof (parse_network_valid _ _ P2) as V2.
  unfold subset, net_of. destruct (is_empty c1) eqn:E1; [by apply is_empty_spec in E1|].
  destruct (is_empty c2) eqn:E2; [by apply is_empty_spec in E2|]. rewrite P1, P2. simpl. rewrite C1, C2. simpl.
  destruct (Z.ltb_spec (net_prefix n2) (net_prefix n1)) as [Hlt|Hge].
  - exists false. split; [done|]. split; [done|]. intros Hall. exfalso.
    pose proof (Hall _ (proj1 V2) (in_net_self n2)) as [Hf _].
    destruct (shorter_escapes n1 n2 V1 V2 Hlt Hf) as (a & Ha & Hin & Hout). by apply Hout, Hall.
  - exists (net_contains n1 (net_ip n2)). split; [done|]. rewrite (net_contains_spec n1 _ V1 (proj1 V2)). split.
    + intros Hc a _ Ha. by eapply in_net_below.
    + intros Hall. apply Hall; [apply V2|apply in_net_self].
Qed.

(** An address is accepted by a list of bound blocks exactly when the list is
    empty or one of its IP blocks contains it. *)
Lemma remote_addr_is_ok_spec remote l :
  remote_addr_is_ok remote l = true ↔
  l = [] ∨ ∃ a cidr, new_sock_addr remote = Ok a ∧ cidr ∈ l ∧ is_ip_addr cidr = true ∧ contains cidr a = true.
Proof.
  unfold remote_addr_is_ok. destruct l as [|c l]; [split; auto|].
  destruct (new_sock_addr remote) as [a|e|]; [|naive_solver..]. rewrite existsb_exists. split.
  - intros (x & Hx & [? ?]%andb_true_iff). right. exists a, x. by rewrite list_elem_of_In.
  - intros [|(a' & x & [= <-] & Hx & ? & ?)]; [done|]. exists x. rewrite <- list_elem_of_In. split; [done|].
    by apply andb_true_iff.
Qed.

(** A stored address reads back as it was: networks without port unless
    they are IPv6 blocks with a 32-bit prefix, and IPv4 addresses with a port.
    An IPv6 block of prefix 32 is printed without its prefix and reads back as
    a single address. *)
Theorem sock_addr_roundtrip (n : IpNetwork) :
  valid_net n →
  ((∃ x, net_ip n = V4 x) ∨ net_prefix n ≠ 32%Z → new_sock_addr (to_string (IpSockAddr n 0)) = Ok (IpSockAddr n 0)) ∧
  (∀ x, net_ip n = V6 x → net_prefix n = 32%Z →
     new_sock_addr (to_string (IpSockAddr n 0)) = Ok (IpSockAddr {| net_ip := V6 x; net_prefix := 128 |} 0)) ∧
  (∀ x p, net_ip n = V4 x → net_prefix n = 32%Z → (0 < p < 2 ^ 16)%Z →
     new_sock_addr (to_string (IpSockAddr n p)) = Ok (IpSockAddr n p)).
Proof.
  intros Hv. unfold new_sock_addr, new_ip, to_string. destruct n as [ip pre]. cbn [net_ip net_prefix] in *.
  change (negb (0 =? 0)%Z) with false. cbv iota.
  assert (pre = 32%Z → (∃ x, ip = V4 x) → new_sock_addr (show_ip ip) = Ok (IpSockAddr {| net_ip := ip; net_prefix := pre |} 0)) as H4.
  { intros -> [x ->]. unfold new_sock_addr, new_ip. rewrite show_not_socket, parse_show_ip by apply Hv. done. }
  split_and!.
  - destruct (Z.eqb_spec pre 32) as [->|Hp].
    + intros [Hx|?]; [by apply H4|done].
    + intros _. by rewrite show_net_not_socket, (parse_show_net {| net_ip := ip; net_prefix := pre |}).
  - intros x -> ->. rewrite Z.eqb_refl. by rewrite show_not_socket, parse_show_ip by apply Hv.
  - intros x p -> -> Hp. rewrite (proj2 (Z.eqb_neq p 0)) by lia. cbn [negb].
    by rewrite parse_show_socket by (apply Hv || done).
Qed.

End theorems.

(** ** Witnesses: addresses written in binary *)
Module BinaryNet.

(** [1] is the empty text; the low bit comes first. *)
Fixpoint show_pos (p : positive) : string :=
  match p with xH => "" | xO p => String "0" (show_pos p) | xI p => String "1" (show_pos p) end.
Fixpoint parse_pos (s : string) : option positive :=
  match s with
  | EmptyString => Some xH
  | String a s =>
      if Ascii.eqb a "0" then xO <$> parse_pos s
      else if Ascii.eqb a "1" then xI <$> parse_pos s else None
  end.

Definition show_bits (x : Z) : string := show_pos (Z.to_pos (x + 1)).
Definition parse_bits (s : string) : option Z := (λ p, Zpos p - 1)%Z <$> parse_pos s.

Definition show (a : IpAddr) : string :=
  match a with V4 x => String "4" (show_bits x) | V6 x => String "6" (show_bits x) end.
Definition in_width (a : IpAddr) : option IpAddr :=
  if (0 <=? bits_of a)%Z && (bits_of a <? 2 ^ width a)%Z then Some a else None.
Definition parse (s : string) : option IpAddr :=
  match s with
  | String a r =>
      if Ascii.eqb a "4" then parse_bits r ≫= λ x, in_width (V4 x)
      else if Ascii.eqb a "6" then parse_bits r ≫= λ x, in_width (V6 x) else None
  | EmptyString => None
  end.

(** The text before the first [c], and what follows it. *)
Fixpoint cut (c : ascii) (s : string) : string * option string :=
  match s with
  | EmptyString => ("", None)
  | String a s =>
      if Ascii.eqb a c then ("", Some s) else let '(h, t) := cut c s in (String a h, t)
  end.

Definition number (bound : Z) (s : string) : option Z :=
  List.find (λ p, String.eqb (pretty p) s) (Z.of_nat <$> seq 0 (Z.to_nat bound)).

Definition net_of_text (s : string) : option IpNetwork :=
  match cut slash s with
  | (h, None) => (λ a, {| net_ip := a; net_prefix := width a |}) <$> parse h
  | (h, Some r) => parse h ≫= λ a, (λ p, {| net_ip := a; net_prefix := p |}) <$> number (width a + 1) r
  end.
Definition socket_of_text (s : string) : option (IpAddr * Z) :=
  match cut ":" s with
  | (h, None) => None
  | (h, Some r) => parse h ≫= λ a, (λ p, (a, p)) <$> number (2 ^ 16) r
  end.
Definition covers (n : IpNetwork) (a : IpAddr) : bool :=
  same_family (net_ip n) a &&
  Z.eqb (Z.shiftr (bits_of a) (width a - net_prefix n)) (Z.shiftr (bits_of (net_ip n)) (width a - net_prefix n)).

Definition binary_net : IpNet :=
  {| parse_socket_addr := socket_of_text; parse_ip_addr := parse; parse_network := net_of_text;
     show_ip := show; net_contains := covers |}.

Lemma parse_show_pos p : parse_pos (show_pos p) = Some p.
Proof. induction p as [p IH|p IH|]; simpl; [by rewrite IH..|done]. Qed.

Lemma parse_show_valid a : valid_ip a → parse (show a) = Some a.
Proof.
  intros Hv. assert (parse_bits (show_bits (bits_of a)) = Some (bits_of a)) as Hb.
  { unfold parse_bits, show_bits. rewrite parse_show_pos. simpl. unfold valid_ip in Hv. f_equal. lia. }
  assert (in_width a = Some a) as Hw.
  { unfold in_width, valid_ip in *. by rewrite (proj2 (Z.leb_le _ _)), (proj2 (Z.ltb_lt _ _)) by lia. }
  destruct a; simpl in *; rewrite Hb; exact Hw.
Qed.

Lemma parse_valid s a : parse s = Some a → valid_ip a.
Proof.
  assert (∀ b c, in_width b = Some c → valid_ip c) as Hw.
  { intros b c. unfold in_width. destruct (Z.leb_spec 0 (bits_of b)), (Z.ltb_spec (bits_of b) (2 ^ width b)); try done.
    simpl. intros [= <-]. done. }
  destruct s as [|x r]; [done|]. simpl. destruct (Ascii.eqb x "4"); [|destruct (Ascii.eqb x "6"); [|done]];
    destruct (parse_bits r) as [z|]; simpl; [apply Hw|done|apply Hw|done].
Qed.

Lemma cut_cons c a s : a ≠ c → cut c (String a s) = (String a (fst (cut c s)), snd (cut c s)).
Proof. intros Hne. cbn [cut]. destruct (Ascii.eqb_spec a c); [done|]. by destruct (cut c s). Qed.

(** Neither separator occurs in a printed address, nor in a parsed one. *)
Lemma cut_pos c p r : c ≠ "0"%char → c ≠ "1"%char → cut c (show_pos p ++ String c r) = (show_pos p, Some r).
Proof.
  intros H0 H1. induction p as [p IH|p IH|]; cbn [show_pos String.append].
  - by rewrite cut_cons, IH by congruence.
  - by rewrite cut_cons, IH by congruence.
  - cbn [cut]. by rewrite Ascii.eqb_refl.
Qed.

Lemma cut_pos_none c p : c ≠ "0"%char → c ≠ "1"%char → cut c (show_pos p) = (show_pos p, None).
Proof.
  intros H0 H1. induction p as [p IH|p IH|]; cbn [show_pos]; [| |done].
  - by rewrite cut_cons, IH by congruence.
  - by rewrite cut_cons, IH by congruence.
Qed.

Definition separator (c : ascii) : Prop := c = slash ∨ c = ":"%char.

Lemma separator_apart c d : separator c → d ∈ ["0"; "1"; "4"; "6"]%char → d ≠ c.
Proof. intros [->| ->] Hd ->; by repeat (apply elem_of_cons in Hd as [Hd|Hd]; [discriminate Hd|]); apply not_elem_of_nil in Hd. Qed.

Lemma cut_show c a r : separator c → cut c (show a ++ String c r) = (show a, Some r).
Proof.
  intros Hc. assert (∀ x, cut c (show_bits x ++ String c r) = (show_bits x, Some r)) as Hb.
  { intros x. apply cut_pos; apply not_eq_sym, separator_apart; try done; set_solver. }
  destruct a as [x|x]; cbn [show String.append]; rewrite cut_cons, Hb; try done; apply separator_apart; try done; set_solver.
Qed.

Lemma cut_show_none c a : separator c → cut c (show a) = (show a, None).
Proof.
  intros Hc. assert (∀ x, cut c (show_bits x) = (show_bits x, None)) as Hb.
  { intros x. apply cut_pos_none; apply not_eq_sym, separator_apart; try done; set_solver. }
  destruct a as [x|x]; cbn [show]; rewrite cut_cons, Hb; try done; apply separator_apart; try done; set_solver.
Qed.

Lemma number_pretty bound p : (0 <= p < bound)%Z → number bound (pretty p) = Some p.
Proof.
  intros Hp. unfold number. set (l := Z.of_nat <$> seq 0 (Z.to_nat bound)).
  assert (p ∈ l) as Hin.
  { apply list_elem_of_fmap. exists (Z.to_nat p). split; [lia|]. apply elem_of_seq. lia. }
  clearbody l. induction l as [|q l IH]; [by apply not_elem_of_nil in Hin|]. simpl.
  destruct (String.eqb_spec (pretty q) (pretty p)) as [He|He]; [f_equal; by apply (inj pretty)|].
  apply elem_of_cons in Hin as [->|Hin]; [done|]. by apply IH.
Qed.

Lemma number_range bound s p : number bound s = Some p → (0 <= p < bound)%Z.
Proof.
  unfold number. intros [Hin _]%List.find_some. apply list_elem_of_In, list_elem_of_fmap in Hin as (n & -> & Hn).
  apply elem_of_seq in Hn. lia.
Qed.

(** A text with a slash inside its first part is no address. *)
Lemma parse_pos_slash s r : parse_pos (s ++ String slash r) = None.
Proof. induction s as [|a s IH]; simpl; [done|]. rewrite IH. by destruct (Ascii.eqb a "0"), (Ascii.eqb a "1"). Qed.

Lemma socket_net_text a q : socket_of_text (show a ++ String slash q) = None.
Proof.
  unfold socket_of_text.
  assert (∀ s, cut ":" s = (s, None) → ∃ h, fst (cut ":" (s ++ String slash q)) = s ++ String slash h) as Hc.
  { induction s as [|b s IH]; simpl.
    - intros _. destruct (cut ":" q) as [h t]. by exists h.
    - destruct (Ascii.eqb b ":"); [done|]. destruct (cut ":" s) as [h t] eqn:E. intros [= -> ->].
      destruct (IH eq_refl) as [h' Hh']. destruct (cut ":" (s ++ String slash q)) as [h2 t2]. simpl in *. subst. by exists h'. }
  destruct (Hc (show a)) as [h Hh]; [apply cut_show_none; by right|].
  destruct (cut ":" (show a ++ String slash q)) as [h2 [t2|]]; [|done]. simpl in Hh. subst h2.
  assert (parse (show a ++ String slash h) = None) as ->; [|done].
  destruct a; simpl; unfold parse_bits; by rewrite parse_pos_slash.
Qed.

Lemma binary_net_laws : @IpNetLaws binary_net.
Proof.
  split; simpl.
  - intros s n. unfold net_of_text. destruct (cut slash s) as [h [r|]]; destruct (parse h) as [a|] eqn:Hp; simpl; try done.
    + destruct (number _ r) as [p|] eqn:Hn; simpl; [|done]. intros [= <-]. apply number_range in Hn.
      split; [by eapply parse_valid|simpl; lia].
    + intros [= <-]. split; [by eapply parse_valid|]. destruct a; simpl; lia.
  - apply parse_valid.
  - intros n a _ _. unfold covers, in_net. rewrite andb_true_iff, Z.eqb_eq. done.
  - intros a. unfold socket_of_text. by rewrite cut_show_none by (by right).
  - intros a p. apply socket_net_text.
  - intros a Hv. unfold net_of_text. rewrite cut_show_none by (by left). by rewrite parse_show_valid.
  - intros n [Hv Hp]. unfold net_of_text. change ("/" ++ ?x) with (String slash x).
    rewrite cut_show by (by left). rewrite parse_show_valid by done. simpl. rewrite number_pretty by lia. by destruct n.
  - intros x p Hv Hp. change (socket_of_text (show (V4 x) ++ String ":" (pretty p)) = Some (V4 x, p)).
    unfold socket_of_text. rewrite (cut_show ":") by (by right). rewrite parse_show_valid by done. cbn [mbind option_bind].
    by rewrite number_pretty by lia.
Qed.
End BinaryNet.

(** 10.0.0.0/8 and 10.1.0.0/16. *)
Definition ten : string := BinaryNet.show (V4 167772160) ++ "/" ++ pretty 8%Z.
Definition ten_one : string := BinaryNet.show (V4 167837696) ++ "/" ++ pretty 16%Z.

Lemma subset_exact_witness :
  ∃ b, Cidr.subset (HI := BinaryNet.binary_net) ten ten_one = Ok b ∧
       (b = true ↔ ∀ a, valid_ip a → in_net {| net_ip := V4 167837696; net_prefix := 16 |} a →
                        in_net {| net_ip := V4 167772160; net_prefix := 8 |} a).
Proof.
  apply (subset_exact (HI := BinaryNet.binary_net) (HIL := BinaryNet.binary_net_laws)).
  - discriminate.
  - discriminate.
  - reflexivity.
  - reflexivity.
  - reflexivity.
  - reflexivity.
Defined.

Lemma sock_addr_roundtrip_witness :
  let n := {| net_ip := V6 42; net_prefix := 32 |} in
  SockAddrOps.new_sock_addr (HI := BinaryNet.binary_net)
    (SockAddrOps.to_string (HI := BinaryNet.binary_net) (IpSockAddr n 0))
  = Ok (IpSockAddr {| net_ip := V6 42; net_prefix := 128 |} 0).
Proof.
  intros n. destruct (sock_addr_roundtrip (HI := BinaryNet.binary_net) (HIL := BinaryNet.binary_net_laws) n) as (_ & H & _).
  - split; [split; vm_compute; [discriminate|reflexivity]|split; vm_compute; discriminate].
  - apply H; reflexivity.
Defined.
