(* ===== verification/Kv.v ===== *)
(** * The key-value module (src/src/modules/kv/mod.rs)

    Secrets are JSON objects stored below the view of their mount, under the
    path of the request. *)

From stdpp Require Import base tactics list gmap strings.
From Stdlib Require Import ZArith Lia Ascii.
From S2P Require Import Prelude Errors RustStr Utils Lease Storage BarrierView Logical LogicalBackend Mount World WorldLaws TokenStore WorldDemo MountCorrect.

Local Open Scope string_scope.

Module Kv.

Definition DEFAULT_LEASE_TTL : Duration := from_secs 3600.

Definition KV_BACKEND_HELP : string := "
The generic backend reads and writes arbitrary secrets to the backend.
The secrets are encrypted/decrypted by RustyVault: they are never stored
unencrypted in the backend and the backend never has an opportunity to
see the unencrypted value.

Leases can be set on a per-secret basis. These leases will be sent down
when that secret is read, and it is assumed that some outside process will
revoke and/or replace the secret at that path.
".

Section kv.
Context {S Q C : Type} `{HSt : Storage S} `{HCl : Clock} `{HSJ : Serde (gmap string Value)} `{HH : Humantime}.
Abbreviation W := (World S Q C).
Abbreviation H := (st (W * Request) RvError).

(** The duration of a [ttl] or [lease] entry; [ttl_i64 as u64] wraps. *)
Definition entry_duration (v : Value) : option Duration :=
  match as_i64 v with
  | Some z => Some (from_secs (z mod 2 ^ 64)%Z)
  | None => as_str v ≫= parse_duration
  end.

Definition ttl_duration (d : gmap string Value) : option Duration :=
  match d !! "ttl" with
  | Some v => entry_duration v
  | None => d !! "lease" ≫= entry_duration
  end.

Definition handle_noop : H (option Response) := st_ret None.

(** The secret type of the backend, with its renew handler. *)
Definition kv_secret (renew : H (option Response)) : Secret W :=
  {| secret_type := "kv"; default_duration := 0; renew_handler := Some renew;
     revoke_handler := Some handle_noop |}.

(** The response depends on the type of the secret and on whether it has a
    renew handler, not on which it is. *)
Definition read_response (t : SystemTime) (d : gmap string Value) : Response :=
  let resp := SecretOps.response t (kv_secret handle_noop) (Some d) None in
  match resp_secret resp with
  | None => resp
  | Some sec =>
      let l := secret_lease sec in
      let l := match ttl_duration d with
               | Some ttl => {| Lease.ttl := ttl; Lease.max_ttl := Lease.max_ttl l; Lease.renewable := true;
                                Lease.increment := Lease.increment l; Lease.issue_time := Lease.issue_time l |}
               | None => {| Lease.ttl := DEFAULT_LEASE_TTL; Lease.max_ttl := Lease.max_ttl l;
                            Lease.renewable := false; Lease.increment := Lease.increment l;
                            Lease.issue_time := Lease.issue_time l |}
               end in
      ResponseOps.set_secret (Some (secret_set_lease l sec)) resp
  end.

Definition handle_read : H (option Response) :=
  let! req := get_req in
  let! entry := req_get (path req) in
  match entry with
  | None => st_ret None
  | Some entry =>
      let! d := st_lift (of_option SerdeJson (de (A := gmap string Value) (se_value entry))) in
      let! t := on_world now in
      st_ret (Some (read_response t d))
  end.

Definition handle_write : H (option Response) :=
  let! req := get_req in
  match body req with
  | None => st_fail ErrModuleKvDataFieldMissing
  | Some d =>
      let! value := st_lift (of_option SerdeJson (ser d)) in
      let! _ := req_put (path req) value in st_ret None
  end.

Definition handle_delete : H (option Response) :=
  let! req := get_req in
  let! _ := req_delete (path req) in st_ret None.

Definition handle_list : H (option Response) :=
  let! req := get_req in
  let! keys := req_list (path req) in
  st_ret (Some (ResponseOps.list_response keys)).

Definition new_backend {R} : LogicalBackend R W :=
  {| paths := [path_with ".*" "Pass-through secret storage to the physical backend, allowing you to read/write arbitrary data into secret storage."
       [("ttl", default_field Int (VStr "") "Lease time for this key when read. Ex: 1h")]
       [(Read, handle_read); (Write, handle_write); (Delete, handle_delete); (List, handle_list)]];
     paths_re := []; root_paths := []; unauth_paths := []; backend_help := KV_BACKEND_HELP;
     secrets := [kv_secret handle_read]; auth_renew_handler := None |}.

End kv.
End Kv.

(** ** The abstract store of a mount *)
Section theorems.
Context {S Q C : Type} `{HSt : Storage S} `{HSS : !StorageSpec S} `{HCl : Clock}
        `{HSJ : Serde (gmap string Value)} `{HSJL : !SerdeLaws (gmap string Value)} `{HH : Humantime}.
Abbreviation W := (World S Q C).
Import BarrierView.
Abbreviation read_response := (Kv.read_response (S := S) (Q := Q) (C := C)).

(** The secret at a path, and the error or answer its reader gets. *)
Definition kv_at (v : t) (w : W) (p : string) : option bytes := storage_map (w_store w) !! expand_key v p.

Definition kv_answer (v : t) (w : W) (p : string) : result (option Response) :=
  match kv_at v w p with
  | None => Ok None
  | Some b =>
      match de b with
      | Some d => Ok (Some (read_response (clock_at (w_ticks w)) d))
      | None => Err SerdeJson
      end
  end.

Lemma kv_read_run v (w : W) req :
  Logical.storage req = Some v → clean (w_store w) → keys_ok v → sane (path req) →
  ∃ w', Kv.handle_read (w, req) = ((w', req), kv_answer v w (path req)) ∧ w_store w' = w_store w.
Proof.
  intros Hv Hc Hk Hs. unfold Kv.handle_read. rewrite (st_bind_run _ _ (w, req) (w, req) req) by done.
  rewrite (st_bind_run _ _ _ _ _ (req_get_run v _ w req Hv Hc Hs Hk)). unfold kv_answer, kv_at.
  destruct (_ !! expand_key v (path req)) as [b|]; cbn [fmap option_fmap option_map se_value]; [|by exists w].
  destruct (de b) as [d|]; [|by exists w]. rewrite (st_bind_run _ _ (w, req) (w, req) d) by done.
  eexists. split; reflexivity.
Qed.

(** C29: a mount of the key-value module is a map from paths to JSON objects:
    a write is read back, with the lease its [ttl] or [lease] entry asks for and
    an hour otherwise, a deletion removes the secret, both leave all other keys
    of the barrier as they are, and a write without a body is refused. *)
Theorem kv_refines_map (v : t) (w : W) (req : Request) :
  Logical.storage req = Some v → clean (w_store w) → keys_ok v → sane (path req) →
  (∃ w', Kv.handle_read (w, req) = ((w', req), kv_answer v w (path req)) ∧ w_store w' = w_store w) ∧
  (∀ d, body req = Some d →
     ∃ w' b, Kv.handle_write (w, req) = ((w', req), Ok None) ∧ clean (w_store w') ∧ de b = Some d ∧
       storage_map (w_store w') = <[expand_key v (path req) := b]> (storage_map (w_store w)) ∧
       kv_answer v w' (path req) = Ok (Some (read_response (clock_at (w_ticks w')) d))) ∧
  (body req = None → Kv.handle_write (w, req) = ((w, req), Err ErrModuleKvDataFieldMissing)) ∧
  (∃ w', Kv.handle_delete (w, req) = ((w', req), Ok None) ∧ clean (w_store w') ∧
     storage_map (w_store w') = base.delete (expand_key v (path req)) (storage_map (w_store w)) ∧
     kv_answer v w' (path req) = Ok None).
Proof.
  intros Hv Hc Hk Hs. split_and!.
  - by apply kv_read_run.
  - intros d Hb. unfold Kv.handle_write. rewrite (st_bind_run _ _ (w, req) (w, req) req) by done. rewrite Hb.
    destruct (ser_total d) as [b Hser]. rewrite (st_bind_run _ _ (w, req) (w, req) b) by (unfold st_lift; by rewrite Hser).
    destruct (req_put_run v (path req) b w req Hv Hc Hs Hk) as (w' & Hr & Hc' & Hm).
    rewrite (st_bind_run _ _ _ _ _ Hr). exists w', b. pose proof (de_ser _ _ Hser) as Hde. split_and!; try done.
    unfold kv_answer, kv_at. by rewrite Hm, lookup_insert_eq, Hde.
  - intros Hb. unfold Kv.handle_write. rewrite (st_bind_run _ _ (w, req) (w, req) req) by done. by rewrite Hb.
  - unfold Kv.handle_delete. rewrite (st_bind_run _ _ (w, req) (w, req) req) by done.
    destruct (req_delete_run v (path req) w req Hv Hc Hs Hk) as (w' & Hr & Hc' & Hm).
    rewrite (st_bind_run _ _ _ _ _ Hr). exists w'. split_and!; try done.
    unfold kv_answer, kv_at. by rewrite Hm, lookup_delete_eq.
Qed.

End theorems.

#[local] Existing Instance demo_storage.
#[local] Existing Instance demo_storage_spec.
#[local] Existing Instance demo_clock.
#[local] Existing Instance json_map.
#[local] Existing Instance json_map_laws.
#[local] Existing Instance no_durations.

Definition kv_view : BarrierView.t := BarrierView.new "logical/1/".
Definition kv_req : Request :=
  set_body (Some {["user" := VStr "bob"; "ttl" := VInt 60]})
           (set_storage (Some kv_view) (RequestOps.new "team/db")).

(** A secret with a lease of a minute is written and read back. *)
Lemma kv_refines_map_witness :
  ∃ w' r, Kv.handle_write (demo_world, kv_req) = ((w', kv_req), Ok None) ∧
          kv_answer kv_view w' "team/db" = Ok (Some r) ∧ resp_data r = body kv_req ∧
          ((Lease.ttl ∘ secret_lease) <$> resp_secret r) = Some (from_secs 60).
Proof.
  destruct (kv_refines_map kv_view demo_world kv_req eq_refl demo_clean (demo_keys_ok _) eq_refl)
    as (_ & Hw & _). destruct (Hw _ eq_refl) as (w' & b & Hr & _ & _ & _ & Ha).
  exists w'. eexists. split; [exact Hr|]. split; [exact Ha|]. split; vm_compute; reflexivity.
Defined.
