(* ===== verification/StoredJson.v ===== *)
(** * JSON objects in the storage of a mount

    The backends keep their entries as JSON objects below their view
    ([StorageEntry::new] and [serde_json::from_slice], src/src/storage/mod.rs);
    here are the two accesses and what they do on a store that serves. *)

From stdpp Require Import base tactics list gmap strings.
From Stdlib Require Import ZArith Lia Ascii.
From S2P Require Import Prelude Errors RustStr Utils Lease Storage BarrierView Logical LogicalBackend Mount World WorldLaws.
Import BarrierView.

Local Open Scope string_scope.

(** [humantime::format_rfc3339] and [parse_rfc3339]. *)
Class Rfc3339 : Type := {
  format_rfc3339 : SystemTime -> string;
  parse_rfc3339 : string -> option SystemTime
}.

Section access.
Context {S Q C : Type} `{HSt : Storage S} `{HSJ : Serde (gmap string Value)}.
Abbreviation H := (st (World S Q C * Request) RvError).

Definition put_json (key : string) (m : gmap string Value) : H unit :=
  let! value := st_lift (of_option SerdeJson (ser m)) in req_put key value.

Definition get_json {A} (key : string) (conv : gmap string Value -> option A) : H (option A) :=
  let! storage_entry := req_get key in
  match storage_entry with
  | None => st_ret None
  | Some entry =>
      let! x := st_lift (of_option SerdeJson (de (se_value entry) ≫= conv)) in st_ret (Some x)
  end.
End access.

Section laws.
Context {S Q C : Type} `{HSt : Storage S} `{HSS : !StorageSpec S}
        `{HSJ : Serde (gmap string Value)} `{HSJL : !SerdeLaws (gmap string Value)}.
Implicit Types (w : World S Q C) (req : Request) (v : t).

(** A request of the mount with view [v], while the store serves. *)
Definition serves v w req : Prop := Logical.storage req = Some v ∧ clean (w_store w) ∧ keys_ok v.

(** A JSON object of the mount. *)
Definition at_key v {A} (conv : gmap string Value → option A) w (key : string) : result (option A) :=
  match storage_map (w_store w) !! expand_key v key with
  | None => Ok None
  | Some b => match de b ≫= conv with Some x => Ok (Some x) | None => Err SerdeJson end
  end.

Lemma get_json_run v {A} (conv : gmap string Value → option A) key w req :
  serves v w req → sane key → get_json key conv (w, req) = ((w, req), at_key v conv w key).
Proof.
  intros (Hv & Hc & Hk) Hs. unfold get_json.
  rewrite (st_bind_run _ _ _ _ _ (req_get_run v _ w req Hv Hc Hs Hk)). unfold at_key.
  destruct (_ !! expand_key v key) as [b|]; [|done]. cbn [fmap option_fmap option_map Storage.se_value].
  by destruct (de b ≫= conv).
Qed.

Lemma put_json_run v key m w req :
  serves v w req → sane key →
  ∃ w' b, put_json key m (w, req) = ((w', req), Ok tt) ∧ clean (w_store w') ∧ de b = Some m ∧
    storage_map (w_store w') = <[expand_key v key := b]> (storage_map (w_store w)).
Proof.
  intros (Hv & Hc & Hk) Hs. unfold put_json. destruct (ser_total m) as [b Hser].
  rewrite (st_bind_run _ _ (w, req) (w, req) b) by (unfold st_lift; by rewrite Hser).
  destruct (req_put_run v key b w req Hv Hc Hs Hk) as (w' & Hr & Hc' & Hm).
  exists w', b. split_and!; [done|done|by apply de_ser|done].
Qed.

Lemma get_json_ok v {A} (conv : gmap string Value → option A) key w req s' x :
  serves v w req → get_json key conv (w, req) = (s', Ok x) → s' = (w, req) ∧ at_key v conv w key = Ok x.
Proof.
  intros Hv. destruct (sanity_cases key) as [Hs|Hs].
  - rewrite (get_json_run v conv key w req Hv Hs). by intros [= <- ->].
  - unfold get_json. intros H. inv_steps.
    match goal with H : req_get _ _ = _ |- _ => unfold req_get, RequestOps.storage_get, BarrierView.get in H;
      destruct Hv as (Hv & _); rewrite Hv, Hs in H; discriminate H end.
Qed.

Lemma put_json_req key m w req s' x : put_json key m (w, req) = (s', Ok x) → snd s' = req.
Proof. intros H. unfold put_json in H. inv_run. by apply req_put_req in H. Qed.

Lemma req_put_ok v key x w req s' u :
  serves v w req → req_put key x (w, req) = (s', Ok u) →
  ∃ w', s' = (w', req) ∧ clean (w_store w') ∧
        storage_map (w_store w') = <[expand_key v key := x]> (storage_map (w_store w)).
Proof.
  intros (Hv & Hc & Hk). destruct (sanity_cases key) as [Hs|Hs].
  - destruct (req_put_run v key x w req Hv Hc Hs Hk) as (w' & -> & Hc' & Hm). intros [= <- _]. eauto.
  - unfold req_put, RequestOps.storage_put, BarrierView.put. rewrite Hv. simpl. by rewrite Hs.
Qed.
End laws.
