(* ===== verification/TokenUtil.v ===== *)
(** * Token parameters of a credential (src/src/utils/token_util.rs)

    The parameters of the tokens a user or a role receives: the fields of the
    requests that set them, their JSON form inside stored entries, and the
    authentication data made from them. *)

From stdpp Require Import base tactics list gmap strings.
From Stdlib Require Import ZArith Lia Ascii.
From S2P Require Import Prelude Errors RustStr Utils Lease Storage BarrierView Logical LogicalBackend Mount World WorldLaws Cidr.

Local Open Scope string_scope.

Record TokenParams := {
  tp_token_type : string;
  tp_token_ttl : Duration;
  tp_token_max_ttl : Duration;
  tp_token_explicit_max_ttl : Duration;
  tp_token_period : Duration;
  tp_token_no_default_policy : bool;
  tp_token_num_uses : Z;
  tp_token_policies : list string;
  tp_token_bound_cidrs : list SockAddr
}.

Definition tp_set_token_ttl (x : Duration) (r : TokenParams) : TokenParams :=
  {| tp_token_type := tp_token_type r; tp_token_ttl := x; tp_token_max_ttl := tp_token_max_ttl r;
     tp_token_explicit_max_ttl := tp_token_explicit_max_ttl r; tp_token_period := tp_token_period r;
     tp_token_no_default_policy := tp_token_no_default_policy r; tp_token_num_uses := tp_token_num_uses
     r; tp_token_policies := tp_token_policies r; tp_token_bound_cidrs := tp_token_bound_cidrs r |}.
Definition tp_set_token_max_ttl (x : Duration) (r : TokenParams) : TokenParams :=
  {| tp_token_type := tp_token_type r; tp_token_ttl := tp_token_ttl r; tp_token_max_ttl := x;
     tp_token_explicit_max_ttl := tp_token_explicit_max_ttl r; tp_token_period := tp_token_period r;
     tp_token_no_default_policy := tp_token_no_default_policy r; tp_token_num_uses := tp_token_num_uses
     r; tp_token_policies := tp_token_policies r; tp_token_bound_cidrs := tp_token_bound_cidrs r |}.
Definition tp_set_token_period (x : Duration) (r : TokenParams) : TokenParams :=
  {| tp_token_type := tp_token_type r; tp_token_ttl := tp_token_ttl r; tp_token_max_ttl :=
     tp_token_max_ttl r; tp_token_explicit_max_ttl := tp_token_explicit_max_ttl r; tp_token_period := x;
     tp_token_no_default_policy := tp_token_no_default_policy r; tp_token_num_uses := tp_token_num_uses
     r; tp_token_policies := tp_token_policies r; tp_token_bound_cidrs := tp_token_bound_cidrs r |}.
Definition tp_set_token_num_uses (x : Z) (r : TokenParams) : TokenParams :=
  {| tp_token_type := tp_token_type r; tp_token_ttl := tp_token_ttl r; tp_token_max_ttl :=
     tp_token_max_ttl r; tp_token_explicit_max_ttl := tp_token_explicit_max_ttl r; tp_token_period :=
     tp_token_period r; tp_token_no_default_policy := tp_token_no_default_policy r; tp_token_num_uses :=
     x; tp_token_policies := tp_token_policies r; tp_token_bound_cidrs := tp_token_bound_cidrs r |}.
Definition tp_set_token_policies (x : list string) (r : TokenParams) : TokenParams :=
  {| tp_token_type := tp_token_type r; tp_token_ttl := tp_token_ttl r; tp_token_max_ttl :=
     tp_token_max_ttl r; tp_token_explicit_max_ttl := tp_token_explicit_max_ttl r; tp_token_period :=
     tp_token_period r; tp_token_no_default_policy := tp_token_no_default_policy r; tp_token_num_uses :=
     tp_token_num_uses r; tp_token_policies := x; tp_token_bound_cidrs := tp_token_bound_cidrs r |}.
Definition tp_set_token_bound_cidrs (x : list SockAddr) (r : TokenParams) : TokenParams :=
  {| tp_token_type := tp_token_type r; tp_token_ttl := tp_token_ttl r; tp_token_max_ttl :=
     tp_token_max_ttl r; tp_token_explicit_max_ttl := tp_token_explicit_max_ttl r; tp_token_period :=
     tp_token_period r; tp_token_no_default_policy := tp_token_no_default_policy r; tp_token_num_uses :=
     tp_token_num_uses r; tp_token_policies := tp_token_policies r; tp_token_bound_cidrs := x |}.

(** ** JSON of stored entries *)
Section json.
Context `{HI : IpNet}.

(** A field without [serde(default)]; one with it. *)
Definition json_field {A} (m : gmap string Value) (key : string) (conv : Value -> option A) : option A :=
  m !! key ≫= conv.
Definition json_default {A} (m : gmap string Value) (key : string) (dflt : A) (conv : Value -> option A)
  : option A :=
  match m !! key with None => Some dflt | Some v => conv v end.

Definition json_bool (v : Value) : option bool := match v with VBool b => Some b | _ => None end.
Definition json_strings (v : Value) : option (list string) :=
  match v with VArray l => mapM as_str l | _ => None end.

(** [impl Serialize] and [Deserialize for SockAddrMarshaler]. *)
Definition addr_of_json (v : Value) : option SockAddr :=
  match as_str v with
  | Some s => match SockAddrOps.new_sock_addr s with Ok a => Some a | _ => None end
  | None => None
  end.
Definition json_addrs (v : Value) : option (list SockAddr) :=
  match v with VArray l => mapM addr_of_json l | _ => None end.

Definition strings_json (l : list string) : Value := VArray (map VStr l).
Definition addrs_json (l : list SockAddr) : Value := VArray (map (λ a, VStr (SockAddrOps.to_string a)) l).
End json.

Module TokenParams.
Section params.
Context `{HH : Humantime} `{HJ : JsonParser} `{HI : IpNet}.

Definition default : TokenParams :=
  {| tp_token_type := ""; tp_token_ttl := 0; tp_token_max_ttl := 0; tp_token_explicit_max_ttl := 0;
     tp_token_period := 0; tp_token_no_default_policy := false; tp_token_num_uses := 0;
     tp_token_policies := []; tp_token_bound_cidrs := [] |}.

Definition new (token_type : string) : TokenParams :=
  {| tp_token_type := token_type; tp_token_ttl := 0; tp_token_max_ttl := 0; tp_token_explicit_max_ttl := 0;
     tp_token_period := 0; tp_token_no_default_policy := false; tp_token_num_uses := 0;
     tp_token_policies := []; tp_token_bound_cidrs := [] |}.

(** The entries of the flattened structure. *)
Definition to_json (p : TokenParams) : gmap string Value :=
  list_to_map
    [("token_type", VStr (tp_token_type p));
     ("token_ttl", serialize_duration (tp_token_ttl p));
     ("token_max_ttl", serialize_duration (tp_token_max_ttl p));
     ("token_explicit_max_ttl", serialize_duration (tp_token_explicit_max_ttl p));
     ("token_period", serialize_duration (tp_token_period p));
     ("token_no_default_policy", VBool (tp_token_no_default_policy p));
     ("token_num_uses", VInt (tp_token_num_uses p));
     ("token_policies", strings_json (tp_token_policies p));
     ("token_bound_cidrs", addrs_json (tp_token_bound_cidrs p))].

Definition of_json (m : gmap string Value) : option TokenParams :=
  ty ← json_default m "token_type" "" as_str;
  ttl ← json_default m "token_ttl" 0%Z deserialize_duration;
  max_ttl ← json_default m "token_max_ttl" 0%Z deserialize_duration;
  explicit ← json_default m "token_explicit_max_ttl" 0%Z deserialize_duration;
  per ← json_default m "token_period" 0%Z deserialize_duration;
  no_default ← json_default m "token_no_default_policy" false json_bool;
  uses ← json_default m "token_num_uses" 0%Z as_u64;
  pols ← json_default m "token_policies" [] json_strings;
  cidrs ← json_default m "token_bound_cidrs" [] json_addrs;
  Some {| tp_token_type := ty; tp_token_ttl := ttl; tp_token_max_ttl := max_ttl;
          tp_token_explicit_max_ttl := explicit; tp_token_period := per;
          tp_token_no_default_policy := no_default; tp_token_num_uses := uses;
          tp_token_policies := pols; tp_token_bound_cidrs := cidrs |}.

Definition token_fields : gmap string Field :=
  list_to_map
    [("token_type", default_field Str (VStr "default") "The type of token to generate, service or batch");
     ("token_ttl", plain_field DurationSecond "The initial ttl of the token to generate");
     ("token_max_ttl", plain_field DurationSecond "The maximum lifetime of the generated token");
     ("token_explicit_max_ttl", plain_field DurationSecond "If set, tokens created via this role carry an explicit maximum TTL.
During renewal, the current maximum TTL values of the role and the mount are not checked for changes,
and any updates to these values will have no effect on the token being renewed.");
     ("token_period", plain_field DurationSecond (requote "If set, tokens created via this role will have no max lifetime;
instead, their renewal period will be fixed to this value.  This takes an integer number of seconds,
or a string duration (e.g. '24h')."));
     ("token_no_default_policy", plain_field Bool "If true, the 'default' policy will not automatically be added to generated tokens");
     ("token_policies", plain_field CommaStringSlice "Comma-separated list of policies");
     ("token_bound_cidrs", plain_field CommaStringSlice "Comma separated string or JSON list of CIDR blocks. If set, specifies the blocks of IP addresses which are allowed to use the generated token.");
     ("token_num_uses", plain_field Int "The maximum number of times a token may be used, a value of zero means unlimited")].

(** [v.as_x().ok_or(ErrRequestFieldInvalid)?]. *)
Definition valid {A} (o : option A) : result A := of_option ErrRequestFieldInvalid o.

(** [.iter().map(SockAddrMarshaler::from_str).collect::<Result<Vec<_>, _>>()]. *)
Fixpoint parse_addrs (l : list string) : result (list SockAddr) :=
  match l with
  | [] => Ok []
  | s :: l => let? a := SockAddrOps.new_sock_addr s in let? l := parse_addrs l in Ok (a :: l)
  end.

Definition parse_token_type (v : Value) : result string :=
  let? token_type := valid (as_str v) in
  let ty := if String.eqb token_type "" then "default"
            else if String.eqb token_type "default-service" then "service"
            else if String.eqb token_type "default-batch" then "batch"
            else token_type in
  if str_in ty ["default"; "service"; "batch"] then Ok ty else Err ErrRequestFieldInvalid.

Definition parse_token_fields (self : TokenParams) (req : Request) : result TokenParams :=
  let get := RequestOps.get_data req in
  let duration key old := if_given (get key) (λ v, valid (FieldTrait.as_duration v)) old in
  let? ttl := duration "token_ttl" (tp_token_ttl self) in
  let? max_ttl := duration "token_max_ttl" (tp_token_max_ttl self) in
  let? explicit := duration "token_explicit_max_ttl" (tp_token_explicit_max_ttl self) in
  let? per := duration "token_period" (tp_token_period self) in
  let? no_default := if_given (get "token_no_default_policy") (λ v, valid (json_bool v)) (tp_token_no_default_policy self) in
  let? uses := if_given (get "token_num_uses") (λ v, valid (as_u64 v)) (tp_token_num_uses self) in
  let? ty := if_given (RequestOps.get_data_or_default req "token_type") parse_token_type (tp_token_type self) in
  let? pols := if_given (get "token_policies") (λ v, valid (FieldTrait.as_comma_string_slice v)) (tp_token_policies self) in
  let? cidrs := if_given (get "token_bound_cidrs")
                  (λ v, let? l := valid (FieldTrait.as_comma_string_slice v) in parse_addrs l)
                  (tp_token_bound_cidrs self) in
  Ok {| tp_token_type := ty; tp_token_ttl := ttl; tp_token_max_ttl := max_ttl;
        tp_token_explicit_max_ttl := explicit; tp_token_period := per;
        tp_token_no_default_policy := no_default; tp_token_num_uses := uses;
        tp_token_policies := pols; tp_token_bound_cidrs := cidrs |}.

Definition populate_token_data (self : TokenParams) (data : gmap string Value) : gmap string Value :=
  list_to_map
    [("token_type", VStr (tp_token_type self));
     ("token_ttl", VInt (as_secs (tp_token_ttl self)));
     ("token_max_ttl", VInt (as_secs (tp_token_max_ttl self)));
     ("token_explicit_max_ttl", VInt (as_secs (tp_token_explicit_max_ttl self)));
     ("token_period", VInt (as_secs (tp_token_period self)));
     ("token_no_default_policy", VBool (tp_token_no_default_policy self));
     ("token_num_uses", VInt (tp_token_num_uses self));
     ("token_policies", strings_json (tp_token_policies self));
     ("token_bound_cidrs", addrs_json (tp_token_bound_cidrs self))] ∪ data.

Definition populate_token_auth (self : TokenParams) (a : Auth) : Auth :=
  let l := auth_lease a in
  {| auth_lease := {| Lease.ttl := tp_token_ttl self; Lease.max_ttl := tp_token_max_ttl self;
                      Lease.renewable := true; Lease.increment := Lease.increment l;
                      Lease.issue_time := Lease.issue_time l |};
     auth_client_token := auth_client_token a; display_name := display_name a;
     policies := tp_token_policies self; token_policies := token_policies a;
     no_default_policy := tp_token_no_default_policy self; auth_internal_data := auth_internal_data a;
     metadata := metadata a; policy_results := policy_results a; period := period a;
     auth_explicit_max_ttl := auth_explicit_max_ttl a |}.

End params.
End TokenParams.

(** [path.fields.extend(token_fields())]. *)
Definition with_token_fields {W} (p : Path * list (PathOperation W)) : Path * list (PathOperation W) :=
  ({| pattern := pattern (fst p); fields := TokenParams.token_fields ∪ fields (fst p); path_help := path_help (fst p) |},
   snd p).

(** ** JSON round trips *)
Section json.
Context `{HH : Humantime} `{HJ : JsonParser} `{HI : IpNet}.

Lemma json_strings_json l : json_strings (strings_json l) = Some l.
Proof.
  unfold json_strings, strings_json. induction l as [|s l IH]; [done|].
  cbn [map mapM]. by rewrite IH.
Qed.

(** An address that its printed form parses to. *)
Definition addr_ok (a : SockAddr) : Prop := SockAddrOps.new_sock_addr (SockAddrOps.to_string a) = Ok a.

Lemma json_addrs_json l : Forall addr_ok l → json_addrs (addrs_json l) = Some l.
Proof.
  unfold json_addrs, addrs_json. induction 1 as [|a l Ha _ IH]; [done|].
  assert (addr_of_json (VStr (SockAddrOps.to_string a)) = Some a) as E
    by (unfold addr_of_json; cbn [as_str]; by rewrite Ha).
  cbn [map mapM]. by rewrite E, IH.
Qed.

(** A whole number of seconds that fits the signed number it is written as. *)
Definition whole (d : Duration) : Prop := (0 <= as_secs d <= I64_MAX)%Z ∧ from_secs (as_secs d) = d.

Lemma duration_json d : whole d → deserialize_duration (serialize_duration d) = Some d.
Proof. intros [Hr Hd]. by rewrite deserialize_serialize, Hd. Qed.

Definition params_storable (p : TokenParams) : Prop :=
  whole (tp_token_ttl p) ∧ whole (tp_token_max_ttl p) ∧ whole (tp_token_explicit_max_ttl p) ∧
  whole (tp_token_period p) ∧ (0 <= tp_token_num_uses p <= U64_MAX)%Z ∧ Forall addr_ok (tp_token_bound_cidrs p).

(** The parameters are read back from any object that holds their entries. *)
Lemma token_params_json m p :
  params_storable p → TokenParams.to_json p ⊆ m → TokenParams.of_json m = Some p.
Proof.
  intros (H1 & H2 & H3 & H4 & H5 & H6) Hm.
  assert (∀ k v, TokenParams.to_json p !! k = Some v → m !! k = Some v) as Hl
    by (intros k v Hk; exact (lookup_weaken _ _ _ _ Hk Hm)).
  unfold TokenParams.of_json, json_default.
  rewrite (Hl "token_type" (VStr (tp_token_type p)) eq_refl),
    (Hl "token_ttl" (serialize_duration (tp_token_ttl p)) eq_refl),
    (Hl "token_max_ttl" (serialize_duration (tp_token_max_ttl p)) eq_refl),
    (Hl "token_explicit_max_ttl" (serialize_duration (tp_token_explicit_max_ttl p)) eq_refl),
    (Hl "token_period" (serialize_duration (tp_token_period p)) eq_refl),
    (Hl "token_no_default_policy" (VBool (tp_token_no_default_policy p)) eq_refl),
    (Hl "token_num_uses" (VInt (tp_token_num_uses p)) eq_refl),
    (Hl "token_policies" (strings_json (tp_token_policies p)) eq_refl),
    (Hl "token_bound_cidrs" (addrs_json (tp_token_bound_cidrs p)) eq_refl).
  rewrite !duration_json, json_strings_json, json_addrs_json by done. unfold as_u64, in_range.
  rewrite (proj2 (andb_true_iff _ _)) by (rewrite !Z.leb_le; lia). by destruct p.
Qed.

Lemma whole_seconds n : (0 <= n <= I64_MAX)%Z → whole (from_secs n).
Proof.
  intros H. assert (as_secs (from_secs n) = n) as E by (unfold as_secs, from_secs, NANOS; apply Z.div_mul; lia).
  split; by rewrite E.
Qed.

(** *** Maps of strings *)

Definition map_json (m : gmap string string) : Value := VObject (map (λ '(k, s), (k, VStr s)) (map_to_list m)).

Lemma string_entries_acc l (acc : gmap string string) :
  NoDup l.*1 →
  fold_left (λ ret '(k, v), match as_str v with Some s => <[k := s]> ret | None => ret end)
    (map (λ '(k, s), (k, VStr s)) l) acc = list_to_map l ∪ acc.
Proof.
  revert acc. induction l as [|[k s] l IH]; intros acc Hnd; cbn [map fold_left as_str]; [by rewrite list_to_map_nil, map_empty_union|].
  apply NoDup_cons in Hnd as [Hk Hnd]. cbn [fst] in Hk. rewrite IH by done. rewrite list_to_map_cons.
  rewrite <- insert_union_r; [by rewrite insert_union_l|by apply not_elem_of_list_to_map_1].
Qed.

Lemma string_map_json m : FieldTrait.string_map_of (map_json m) = Some m.
Proof.
  unfold FieldTrait.string_map_of, map_json. cbn [as_object].
  assert (forallb (λ kv, is_string (snd kv)) (map (λ '(k, s), (k, VStr s)) (map_to_list m)) = true) as ->.
  { induction (map_to_list m) as [|[k s] l IH]; [done|]. by cbn. }
  f_equal. unfold FieldTrait.string_entries. rewrite string_entries_acc by apply NoDup_fst_map_to_list.
  by rewrite list_to_map_to_list, (map_union_empty m).
Qed.
End json.
