(* ===== verification/UserPass.v ===== *)
(** * The username and password credential
    (src/src/modules/credential/userpass/: mod.rs, path_users.rs, path_login.rs)

    Users are JSON objects below [user/] in the view of the mount, with a
    bcrypt hash of their password and the parameters of the tokens they get.
    bcrypt is other code: a parameter, whose salt comes from the random source
    of the world. *)

From stdpp Require Import base tactics list gmap strings.
From Stdlib Require Import ZArith Lia Ascii.
From S2P Require Import Prelude Errors RustStr Utils Lease Storage BarrierView Logical LogicalBackend Mount World WorldLaws TokenStore Cidr TokenUtil.

Local Open Scope string_scope.

(** [bcrypt::hash] with the [i]-th random salt, and [bcrypt::verify], which
    fails on a text that is not a hash. *)
Class Bcrypt : Type := {
  bcrypt_hash : nat -> string -> option string;
  bcrypt_verify : string -> string -> option bool
}.

(** A hash verifies the password it was made from. *)
Class BcryptLaws `{HB : Bcrypt} : Prop :=
  bcrypt_verify_hash : forall i p h, bcrypt_hash i p = Some h -> bcrypt_verify p h = Some true.

Record UserEntry := {
  ue_password_hash : string;
  ue_policies : list string;
  ue_ttl : Duration;
  ue_max_ttl : Duration;
  ue_token_params : TokenParams;
  ue_bound_cidrs : list SockAddr
}.

Module UserPass.

Definition USERPASS_BACKEND_HELP : string := requote "
The 'userpass' credential provider allows authentication using a combination of
a username and password. No additional factors are supported.

The username/password combination is configured using the 'users/' endpoints by
a user with root access. Authentication is then done by supplying the two fields
for 'login'.
".

Section userpass.
Context {S Q C : Type} `{HSt : Storage S} `{HCl : Clock} `{HSJ : Serde (gmap string Value)}
        `{HH : Humantime} `{HJ : JsonParser} `{HI : IpNet} `{HB : Bcrypt}.
Abbreviation W := (World S Q C).
Abbreviation H := (st (W * Request) RvError).

Definition default : UserEntry :=
  {| ue_password_hash := ""; ue_policies := []; ue_ttl := 0; ue_max_ttl := 0;
     ue_token_params := TokenParams.default; ue_bound_cidrs := [] |}.

(** *** JSON *)

Definition to_json (u : UserEntry) : gmap string Value :=
  list_to_map
    [("password_hash", VStr (ue_password_hash u));
     ("policies", strings_json (ue_policies u));
     ("ttl", serialize_duration (ue_ttl u));
     ("max_ttl", serialize_duration (ue_max_ttl u));
     ("bound_cidrs", addrs_json (ue_bound_cidrs u))] ∪ TokenParams.to_json (ue_token_params u).

Definition of_json (m : gmap string Value) : option UserEntry :=
  hash ← json_field m "password_hash" as_str;
  pols ← json_field m "policies" json_strings;
  ttl ← json_field m "ttl" deserialize_duration;
  max_ttl ← json_field m "max_ttl" deserialize_duration;
  params ← TokenParams.of_json m;
  cidrs ← json_default m "bound_cidrs" [] json_addrs;
  Some {| ue_password_hash := hash; ue_policies := pols; ue_ttl := ttl; ue_max_ttl := max_ttl;
          ue_token_params := params; ue_bound_cidrs := cidrs |}.

(** *** Users *)

Definition tp_with (ttl max_ttl : Duration) (pols : list string) (cidrs : list SockAddr) (p : TokenParams)
  : TokenParams :=
  {| tp_token_type := tp_token_type p; tp_token_ttl := ttl; tp_token_max_ttl := max_ttl;
     tp_token_explicit_max_ttl := tp_token_explicit_max_ttl p; tp_token_period := tp_token_period p;
     tp_token_no_default_policy := tp_token_no_default_policy p; tp_token_num_uses := tp_token_num_uses p;
     tp_token_policies := pols; tp_token_bound_cidrs := cidrs |}.

(** The token parameters that are not set are those of the older fields. *)
Definition migrate (u : UserEntry) : UserEntry :=
  let p := ue_token_params u in
  let ttl := if (as_secs (tp_token_ttl p) =? 0)%Z && (0 <? as_secs (ue_ttl u))%Z
             then ue_ttl u else tp_token_ttl p in
  let max_ttl := if (as_secs (tp_token_max_ttl p) =? 0)%Z && (0 <? as_secs (ue_max_ttl u))%Z
                 then ue_max_ttl u else tp_token_max_ttl p in
  let pols := match tp_token_policies p, ue_policies u with [], _ :: _ => ue_policies u | l, _ => l end in
  let cidrs := match tp_token_bound_cidrs p, ue_bound_cidrs u with [], _ :: _ => ue_bound_cidrs u | l, _ => l end in
  {| ue_password_hash := ue_password_hash u; ue_policies := ue_policies u; ue_ttl := ue_ttl u;
     ue_max_ttl := ue_max_ttl u; ue_token_params := tp_with ttl max_ttl pols cidrs p;
     ue_bound_cidrs := ue_bound_cidrs u |}.

Definition get_user (name : string) : H (option UserEntry) :=
  let key := "user/" ++ to_lowercase name in
  let! storage_entry := req_get key in
  match storage_entry with
  | None => st_ret None
  | Some entry =>
      let! u := st_lift (of_option SerdeJson (de (se_value entry) ≫= of_json)) in
      st_ret (Some (migrate u))
  end.

Definition set_user (name : string) (u : UserEntry) : H unit :=
  let! value := st_lift (of_option SerdeJson (ser (to_json u))) in
  req_put ("user/" ++ name) value.

(** [value.as_str().ok_or(ErrRequestFieldInvalid)?]. *)
Definition data_str (key : string) : H string :=
  let! req := get_req in
  let! v := st_lift (RequestOps.get_data req key) in
  st_lift (of_option ErrRequestFieldInvalid (as_str v)).

(** [data["a"] = data["b"].clone()], which panics on a missing [b]. *)
Definition copy_entry (a b : string) (m : gmap string Value) : result (gmap string Value) :=
  match m !! b with Some v => Ok (<[a := v]> m) | None => Panic end.

Definition read_data (u : UserEntry) : result (gmap string Value) :=
  let data := TokenParams.populate_token_data (ue_token_params u) (base.delete "password_hash" (to_json u)) in
  let data := if (as_secs (ue_ttl u) =? 0)%Z then base.delete "ttl" data else data in
  let data := if (as_secs (ue_max_ttl u) =? 0)%Z then base.delete "max_ttl" data else data in
  let? data := match ue_policies u with [] => Ok data | _ => copy_entry "policies" "token_policies" data end in
  match ue_bound_cidrs u with [] => Ok data | _ => copy_entry "bound_cidrs" "token_bound_cidrs" data end.

Definition read_user : H (option Response) :=
  let! name := data_str "username" in
  let username := to_lowercase name in
  let! entry := get_user username in
  match entry with
  | None => st_ret None
  | Some u =>
      let! d := st_lift (read_data u) in
      st_ret (Some (ResponseOps.data_response (Some d)))
  end.

(** [bcrypt::hash(password, DEFAULT_COST)] draws its salt; the draws of random
    values share the counter of the generated ids. *)
Definition gen_password_hash (password : string) : H string := fun '(w, req) =>
  ({| w_store := w_store w; w_ticks := w_ticks w; w_uuids := Datatypes.S (w_uuids w);
      w_queue := w_queue w; w_queue_held := w_queue_held w; w_deadlock := w_deadlock w; w_policy_types := w_policy_types w;
      w_token_policies_lru := w_token_policies_lru w; w_egp_lru := w_egp_lru w |}, req,
   of_option BcryptError (bcrypt_hash (w_uuids w) password)).

Definition verify_password_hash (password hash : string) : H bool :=
  st_lift (of_option BcryptError (bcrypt_verify password hash)).

Definition set_hash (h : string) (u : UserEntry) : UserEntry :=
  {| ue_password_hash := h; ue_policies := ue_policies u; ue_ttl := ue_ttl u; ue_max_ttl := ue_max_ttl u;
     ue_token_params := ue_token_params u; ue_bound_cidrs := ue_bound_cidrs u |}.

(** [Vec<SockAddrMarshaler> ==]. *)
Fixpoint addrs_eqb (a b : list SockAddr) : bool :=
  match a, b with
  | [], [] => true
  | x :: a, y :: b => SockAddrOps.equal x y && addrs_eqb a b
  | _, _ => false
  end.

Definition valid {A} (o : option A) : result A := of_option ErrRequestFieldInvalid o.

(** The [ttl] and [max_ttl] fields as read before the token parameters. *)
Definition direct_ttls (req : Request) (u : UserEntry) : result (Duration * Duration) :=
  let? ttl_value := RequestOps.get_data_or_default req "ttl" in
  let? ttl := valid (FieldTrait.as_int ttl_value) in
  let? max_ttl_value := RequestOps.get_data_or_default req "max_ttl" in
  let? max_ttl := valid (as_u64 max_ttl_value) in
  Ok (if (0 <? ttl)%Z then from_secs ttl else ue_ttl u,
      if (0 <? max_ttl)%Z then from_secs max_ttl else ue_max_ttl u).

(** One of the four older fields and its token parameter: a change of the
    token parameter is copied to the older field; otherwise the older field,
    if it is in the request, sets both. *)
Definition sync {A} (same : bool) (older newer : A) (r : result Value) (conv : Value -> result A)
  : result (A * A) :=
  if negb same then Ok (newer, newer)
  else if_given r (λ v, let? x := conv v in Ok (x, x)) (older, newer).

(** The entry after the fields of the request, the password apart. *)
Definition update_fields (req : Request) (u : UserEntry) : result UserEntry :=
  let? ttls := direct_ttls req u in
  let old := ue_token_params u in
  let? p := TokenParams.parse_token_fields old req in
  let get := RequestOps.get_data req in
  let? pols := sync (bool_decide (tp_token_policies old = tp_token_policies p)) (ue_policies u) (tp_token_policies p)
                 (get "policies") (λ v, valid (FieldTrait.as_comma_string_slice v)) in
  let? ttl := sync (Z.eqb (tp_token_ttl old) (tp_token_ttl p)) (fst ttls) (tp_token_ttl p)
                (get "ttl") (λ v, valid (FieldTrait.as_duration v)) in
  let? max_ttl := sync (Z.eqb (tp_token_max_ttl old) (tp_token_max_ttl p)) (snd ttls) (tp_token_max_ttl p)
                    (get "max_ttl") (λ v, valid (FieldTrait.as_duration v)) in
  let? cidrs := sync (addrs_eqb (tp_token_bound_cidrs old) (tp_token_bound_cidrs p)) (ue_bound_cidrs u)
                  (tp_token_bound_cidrs p) (get "bound_cidrs")
                  (λ v, let? l := valid (FieldTrait.as_comma_string_slice v) in TokenParams.parse_addrs l) in
  Ok {| ue_password_hash := ue_password_hash u; ue_policies := fst pols; ue_ttl := fst ttl;
        ue_max_ttl := fst max_ttl;
        ue_token_params := tp_with (snd ttl) (snd max_ttl) (snd pols) (snd cidrs) p;
        ue_bound_cidrs := fst cidrs |}.

Definition write_user : H (option Response) :=
  let! name := data_str "username" in
  let username := to_lowercase name in
  let! entry := get_user username in
  let u := match entry with Some u => u | None => default end in
  let! req := get_req in
  let! u :=
    match RequestOps.get_data req "password" with
    | Ok v =>
        let! password := st_lift (valid (as_str v)) in
        if is_empty password then st_ret u
        else let! h := gen_password_hash password in st_ret (set_hash h u)
    | Err _ => st_ret u
    | Panic => st_lift Panic
    end in
  let! u := st_lift (update_fields req u) in
  let! _ := set_user username u in
  st_ret None.

Definition delete_user : H (option Response) :=
  let! username := data_str "username" in
  let! _ := st_guard (is_empty username) ErrRequestNoDataField in
  let! _ := req_delete ("user/" ++ to_lowercase username) in
  st_ret None.

Definition list_user : H (option Response) :=
  let! users := req_list "user/" in
  st_ret (Some (ResponseOps.list_response users)).

(** Unlike [write_user], the name is used as it is given. *)
Definition write_user_password : H (option Response) :=
  let! username := data_str "username" in
  let! entry := get_user username in
  let u := match entry with Some u => u | None => default end in
  let! password := data_str "password" in
  let! h := gen_password_hash password in
  let! _ := set_user username (set_hash h u) in
  st_ret None.

(** *** Login *)

Definition err_info : string := "invalid username or password".

(** [value.as_str().unwrap()]. *)
Definition data_unwrap (key : string) : H string :=
  let! req := get_req in
  let! v := st_lift (RequestOps.get_data req key) in
  st_lift (match as_str v with Some s => Ok s | None => Panic end).

Definition login_auth (t : SystemTime) (username : string) (u : UserEntry) : Auth :=
  let l := default_lease t in
  let a := TokenStore.default_auth t in
  TokenParams.populate_token_auth (ue_token_params u)
    {| auth_lease := {| Lease.ttl := ue_ttl u; Lease.max_ttl := ue_max_ttl u;
                        Lease.renewable := (0 <? as_secs (ue_ttl u))%Z;
                        Lease.increment := Lease.increment l; Lease.issue_time := Lease.issue_time l |};
       auth_client_token := auth_client_token a; display_name := username; policies := ue_policies u;
       token_policies := token_policies a; no_default_policy := no_default_policy a;
       auth_internal_data := auth_internal_data a;
       metadata := <["username" := username]> (metadata a); policy_results := policy_results a;
       period := period a; auth_explicit_max_ttl := auth_explicit_max_ttl a |}.

(** The clock is read for the lease and again for the unused default of
    [Auth]. *)
Definition login : H (option Response) :=
  let! name := data_unwrap "username" in
  let username := to_lowercase name in
  let! password := data_unwrap "password" in
  let! user := get_user username in
  match user with
  | None => st_ret (Some (ResponseOps.error_response err_info))
  | Some u =>
      let! check := verify_password_hash password (ue_password_hash u) in
      if negb check then st_ret (Some (ResponseOps.error_response err_info))
      else
        let! t := on_world now in
        let! _ := on_world now in
        st_ret (Some (ResponseOps.set_auth (Some (login_auth t username u)) ResponseOps.new))
  end.

Definition renewed_auth (u : UserEntry) (a : Auth) : Auth :=
  let l := auth_lease a in
  let p := ue_token_params u in
  {| auth_lease := {| Lease.ttl := tp_token_ttl p; Lease.max_ttl := tp_token_max_ttl p;
                      Lease.renewable := Lease.renewable l; Lease.increment := Lease.increment l;
                      Lease.issue_time := Lease.issue_time l |};
     auth_client_token := auth_client_token a; display_name := display_name a; policies := policies a;
     token_policies := token_policies a; no_default_policy := no_default_policy a;
     auth_internal_data := auth_internal_data a; metadata := metadata a;
     policy_results := policy_results a; period := tp_token_period p;
     auth_explicit_max_ttl := auth_explicit_max_ttl a |}.

Definition login_renew : H (option Response) :=
  let! req := get_req in
  match auth req with
  | None => st_fail (ErrString "invalid request")
  | Some a =>
      match metadata a !! "username" with
      | None => st_ret None
      | Some username =>
          let! user := get_user username in
          match user with
          | None => st_ret None
          | Some u =>
              if negb (PolicyUtils.equivalent_policies (ue_policies u) (policies a))
              then st_fail (ErrString "policies have changed, not renewing")
              else st_ret (Some (ResponseOps.set_auth (Some (renewed_auth u a)) ResponseOps.new))
          end
      end
  end.

(** *** The backend *)

Definition username_field : string * Field := ("username", required_field Str "Username of the user.").

Definition users_path : Path * list (PathOperation W) :=
  with_token_fields (path_with "users/(?P<username>\w[\w-]+\w)" (requote "
This endpoint allows you to create, read, update, and delete users
that are allowed to authenticate.
Deleting a user will not revoke auth for prior authenticated users
with that name. To do this, do a revoke on 'login/<username>' for
the username you want revoked. If you don" ++ "'t need to revoke login immediately,
then the next renew will cause the lease to expire.
                ")
    [username_field;
     ("password", plain_field SecretStr "Password for this user.");
     ("policies", plain_field Str "Policies for this user.");
     ("ttl", default_field Int (VInt 0) "TTL for this user.");
     ("max_ttl", default_field Int (VInt 0) "TTL for this user.")]
    [(Read, read_user); (Write, write_user); (Delete, delete_user)]).

Definition user_list_path : Path * list (PathOperation W) :=
  path_with "users/?" "This endpoint allows you to list users" [] [(List, list_user)].

Definition user_password_path : Path * list (PathOperation W) :=
  path_with "users/(?P<username>\w[\w-]+\w)/password$" "This endpoint allows resetting the user's password."
    [username_field; ("password", required_field SecretStr "Password for this user.")]
    [(Write, write_user_password)].

Definition login_path : Path * list (PathOperation W) :=
  path_with "login/(?P<username>\w[\w-]+\w)" "This endpoint authenticates using a username and password."
    [username_field; ("password", required_field SecretStr "Password for this user.")]
    [(Write, login)].

Definition new_backend {R} : LogicalBackend R W :=
  {| paths := [users_path; user_list_path; user_password_path; login_path]; paths_re := []; root_paths := [];
     unauth_paths := ["login/*"]; backend_help := USERPASS_BACKEND_HELP; secrets := [];
     auth_renew_handler := Some login_renew |}.

End userpass.
End UserPass.
