(* ===== verification/UserPassCorrect.v ===== *)
(** * The username and password credential is correct

    Stored users read back, a login needs the password that was hashed last,
    and what it grants is what the stored user says. *)

From stdpp Require Import base tactics list gmap strings.
From Stdlib Require Import ZArith Lia Ascii.
From S2P Require Import Prelude Errors RustStr Utils Lease Storage BarrierView Logical LogicalBackend Mount World WorldLaws TokenStore WorldDemo BarrierCorrect MountCorrect Cidr TokenUtil UserPass.

Local Open Scope string_scope.

(** ** JSON round trips *)
Section json.
Context `{HH : Humantime} `{HJ : JsonParser} `{HI : IpNet}.

Definition user_storable (u : UserEntry) : Prop :=
  whole (ue_ttl u) ∧ whole (ue_max_ttl u) ∧ params_storable (ue_token_params u) ∧ Forall addr_ok (ue_bound_cidrs u).

Lemma user_json u : user_storable u → UserPass.of_json (UserPass.to_json u) = Some u.
Proof.
  intros (H1 & H2 & H3 & H4). unfold UserPass.of_json.
  rewrite (token_params_json _ _ H3).
  2: { apply map_union_subseteq_r. apply map_disjoint_spec. intros k x y Hx Hy.
       apply elem_of_list_to_map_2 in Hx, Hy. set_unfold in Hx. set_unfold in Hy. naive_solver. }
  unfold json_field, json_default.
  rewrite (eq_refl : UserPass.to_json u !! "password_hash" = Some (VStr (ue_password_hash u))),
    (eq_refl : UserPass.to_json u !! "policies" = Some (strings_json (ue_policies u))),
    (eq_refl : UserPass.to_json u !! "ttl" = Some (serialize_duration (ue_ttl u))),
    (eq_refl : UserPass.to_json u !! "max_ttl" = Some (serialize_duration (ue_max_ttl u))),
    (eq_refl : UserPass.to_json u !! "bound_cidrs" = Some (addrs_json (ue_bound_cidrs u))).
  cbn [mbind option_bind as_str]. rewrite json_strings_json, json_addrs_json, !duration_json by done. by destruct u.
Qed.
End json.

(** ** Users in the store *)
Section theorems.
Context {S Q C : Type} `{HSt : Storage S} `{HSS : !StorageSpec S} `{HCl : Clock}
        `{HSJ : Serde (gmap string Value)} `{HSJL : !SerdeLaws (gmap string Value)}
        `{HH : Humantime} `{HJ : JsonParser} `{HI : IpNet} `{HB : Bcrypt} `{HBL : !BcryptLaws}.
Abbreviation W := (World S Q C).
Import BarrierView.
Implicit Types (w : W) (req : Request).

Definition user_key (v : t) (name : string) : string := expand_key v ("user/" ++ to_lowercase name).

(** What the backend knows about a user: nothing, an entry, or an unreadable
    one. *)
Definition stored_user (v : t) w (name : string) : result (option UserEntry) :=
  match storage_map (w_store w) !! user_key v name with
  | None => Ok None
  | Some b =>
      match de b ≫= UserPass.of_json with
      | Some u => Ok (Some (UserPass.migrate u))
      | None => Err SerdeJson
      end
  end.

(** A request of a mount with view [v] about the user [name]. *)
Definition about (v : t) (name : string) w req : Prop :=
  Logical.storage req = Some v ∧ clean (w_store w) ∧ keys_ok v ∧ sane ("user/" ++ to_lowercase name).

Definition asks (req : Request) (key x : string) : Prop := RequestOps.get_data req key = Ok (VStr x).

Lemma get_user_run v name w req :
  about v name w req → UserPass.get_user name (w, req) = ((w, req), stored_user v w name).
Proof.
  intros (Hv & Hc & Hk & Hs). unfold UserPass.get_user.
  rewrite (st_bind_run _ _ _ _ _ (req_get_run v _ w req Hv Hc Hs Hk)). unfold stored_user, user_key.
  destruct (_ !! expand_key v ("user/" ++ to_lowercase name)) as [b|]; [|done].
  cbn [fmap option_fmap option_map se_value]. by destruct (de b ≫= UserPass.of_json).
Qed.

Lemma about_lower v name w req : about v name w req → about v (to_lowercase name) w req.
Proof. unfold about. by rewrite to_lowercase_idem. Qed.

Lemma stored_user_lower v w name : stored_user v w (to_lowercase name) = stored_user v w name.
Proof. unfold stored_user, user_key. by rewrite to_lowercase_idem. Qed.

Lemma data_str_ok key w req s' x :
  UserPass.data_str key (w, req) = (s', Ok x) → s' = (w, req) ∧ asks req key x.
Proof.
  unfold UserPass.data_str, asks. intros H. inv_run.
  match goal with H : RequestOps.get_data _ _ = Ok ?v |- _ => destruct v; try done; rewrite H end.
  match goal with H : of_option _ (as_str _) = Ok _ |- _ => by injection H as -> end.
Qed.

Lemma data_unwrap_run key w req x :
  asks req key x → UserPass.data_unwrap key (w, req) = ((w, req), Ok x).
Proof. unfold asks. intros H. unfold UserPass.data_unwrap. cbn. unfold st_lift. by rewrite H. Qed.

Lemma data_unwrap_ok key w req s' x :
  UserPass.data_unwrap key (w, req) = (s', Ok x) → s' = (w, req) ∧ asks req key x.
Proof.
  unfold UserPass.data_unwrap, asks. intros H. inv_run.
  match goal with H : RequestOps.get_data _ _ = Ok ?v |- _ => destruct v; try done; rewrite H end.
  match goal with H : _ = Ok _ |- _ => by injection H as -> end.
Qed.

(** Every outcome of a login, for a user and a password that are given. *)
Lemma login_run v name password w req :
  about v name w req → asks req "username" name → asks req "password" password →
  ∃ w', w_store w' = w_store w ∧
  UserPass.login (w, req) = ((w', req),
    match stored_user v w name with
    | Ok (Some u) =>
        match bcrypt_verify password (ue_password_hash u) with
        | Some true => Ok (Some (ResponseOps.set_auth
            (Some (UserPass.login_auth (clock_at (w_ticks w)) (to_lowercase name) u)) ResponseOps.new))
        | Some false => Ok (Some (ResponseOps.error_response UserPass.err_info))
        | None => Err BcryptError
        end
    | Ok None => Ok (Some (ResponseOps.error_response UserPass.err_info))
    | Err e => Err e
    | Panic => Panic
    end).
Proof.
  intros Ha Hn Hp. unfold UserPass.login.
  rewrite (st_bind_run _ _ _ _ _ (data_unwrap_run _ w req _ Hn)).
  rewrite (st_bind_run _ _ _ _ _ (data_unwrap_run _ w req _ Hp)).
  unfold st_bind at 1. rewrite (get_user_run v _ w req (about_lower _ _ _ _ Ha)), stored_user_lower.
  destruct (stored_user v w name) as [[u|]|e|]; [|by exists w..].
  unfold st_bind at 1, UserPass.verify_password_hash, st_lift.
  destruct (bcrypt_verify password (ue_password_hash u)) as [[]|]; cbn; [|by exists w..].
  eexists. split; [|reflexivity]. done.
Qed.

(** A login answers with authentication data only for a stored user whose
    password hash verifies the password of the request; the data are then the
    lower-case name and the token parameters of that user, the store stays as
    it is, and a wrong password and an unknown user give the same answer. *)
Theorem login_outcome (v : t) (name password : string) w req :
  about v name w req → asks req "username" name → asks req "password" password →
  ∃ w' r, UserPass.login (w, req) = ((w', req), r) ∧ w_store w' = w_store w ∧
  (∀ resp a, r = Ok (Some resp) → resp_auth resp = Some a →
     ∃ u, stored_user v w name = Ok (Some u) ∧ bcrypt_verify password (ue_password_hash u) = Some true ∧
          display_name a = to_lowercase name ∧ policies a = tp_token_policies (ue_token_params u) ∧
          no_default_policy a = tp_token_no_default_policy (ue_token_params u) ∧
          Lease.ttl (auth_lease a) = tp_token_ttl (ue_token_params u) ∧ period a = 0%Z) ∧
  (∀ u, stored_user v w name = Ok (Some u) → bcrypt_verify password (ue_password_hash u) = Some true →
     ∃ resp a, r = Ok (Some resp) ∧ resp_auth resp = Some a) ∧
  (stored_user v w name = Ok None ∨
     (∃ u, stored_user v w name = Ok (Some u) ∧ bcrypt_verify password (ue_password_hash u) = Some false) →
   r = Ok (Some (ResponseOps.error_response UserPass.err_info))).
Proof.
  intros Ha Hn Hp. destruct (login_run v name password w req Ha Hn Hp) as (w' & Hw & Hr).
  eexists w', _. split; [exact Hr|]. split; [exact Hw|].
  destruct (stored_user v w name) as [[u|]|e|] eqn:Eu; [|naive_solver..].
  destruct (bcrypt_verify password (ue_password_hash u)) as [[]|] eqn:Ev; [|naive_solver..].
  split_and!.
  - intros resp a [= <-] [= <-]. exists u. by split_and!.
  - intros u' [= <-] _. by eexists _, _.
  - intros [?|(u' & [= <-] & ?)]; congruence.
Qed.

(** Writing an entry under a name. *)
Lemma set_user_run v name u w req :
  Logical.storage req = Some v → clean (w_store w) → keys_ok v → sane ("user/" ++ name) →
  ∃ w' b, UserPass.set_user name u (w, req) = ((w', req), Ok tt) ∧ clean (w_store w') ∧
    de b = Some (UserPass.to_json u) ∧
    storage_map (w_store w') = <[expand_key v ("user/" ++ name) := b]> (storage_map (w_store w)).
Proof.
  intros Hv Hc Hk Hs. unfold UserPass.set_user. destruct (ser_total (UserPass.to_json u)) as [b Hser].
  rewrite (st_bind_run _ _ (w, req) (w, req) b) by (unfold st_lift; by rewrite Hser).
  destruct (req_put_run v ("user/" ++ name) b w req Hv Hc Hs Hk) as (w' & Hr & Hc' & Hm).
  exists w', b. split_and!; [done|done|by apply de_ser|done].
Qed.

Lemma gen_password_hash_ok p w req s' h :
  UserPass.gen_password_hash p (w, req) = (s', Ok h) →
  bcrypt_verify p h = Some true ∧ ∃ w', s' = (w', req) ∧ w_store w' = w_store w.
Proof.
  unfold UserPass.gen_password_hash. destruct (bcrypt_hash (w_uuids w) p) as [h'|] eqn:E; [|done].
  intros [= <- <-]. split; [by eapply bcrypt_verify_hash|]. by eexists.
Qed.

Lemma update_fields_hash req u u' :
  UserPass.update_fields req u = Ok u' → ue_password_hash u' = ue_password_hash u.
Proof.
  unfold UserPass.update_fields. intros H.
  repeat match goal with H : (match ?x with _ => _ end) = Ok _ |- _ => destruct x; try discriminate H end.
  by injection H as <-.
Qed.

Lemma data_str_run key w req x :
  asks req key x → UserPass.data_str key (w, req) = ((w, req), Ok x).
Proof. unfold asks. intros H. unfold UserPass.data_str. cbn. unfold st_lift. by rewrite H. Qed.

(** A write with a password of an entry whose fields are valid. *)
Lemma write_user_run v name password w req u0 h u :
  about v name w req → asks req "username" name → asks req "password" password → password ≠ "" →
  stored_user v w name = Ok u0 → bcrypt_hash (w_uuids w) password = Some h →
  UserPass.update_fields req (UserPass.set_hash h (default UserPass.default u0)) = Ok u →
  ∃ w' b, UserPass.write_user (w, req) = ((w', req), Ok None) ∧ clean (w_store w') ∧
    de b = Some (UserPass.to_json u) ∧
    storage_map (w_store w') = <[user_key v name := b]> (storage_map (w_store w)).
Proof.
  intros Ha Hn Hp Hne Hu Hh Hf. unfold UserPass.write_user.
  rewrite (st_bind_run _ _ _ _ _ (data_str_run _ w req _ Hn)).
  rewrite (st_bind_run _ _ (w, req) (w, req) u0)
    by (rewrite (get_user_run v _ w req (about_lower _ _ _ _ Ha)), stored_user_lower; by rewrite Hu).
  rewrite (st_bind_run _ _ (w, req) (w, req) req) by done. unfold asks in Hp. rewrite Hp.
  destruct Ha as (Hv & Hc & Hk & Hs). cbn [UserPass.valid as_str of_option].
  unfold st_bind at 1. rewrite (st_bind_run _ _ (w, req) (w, req) password) by done.
  rewrite (is_empty_false _ Hne). unfold st_bind at 1, UserPass.gen_password_hash. rewrite Hh. cbn [of_option st_ret].
  match goal with |- context [st_bind _ _ (?w1, req)] => destruct (set_user_run v (to_lowercase name) u w1 req Hv Hc Hk Hs)
    as (w' & b & Hr & Hc' & Hde & Hm) end.
  exists w', b. split_and!; [|done..]. unfold st_bind at 1, st_lift.
  change (match u0 with Some u => u | None => UserPass.default end) with (default UserPass.default u0).
  rewrite Hf. by rewrite (st_bind_run _ _ _ _ _ Hr).
Qed.

(** C35: writing a user with a password and valid fields, such that the entry
    survives its JSON form ([user_storable]: durations of whole seconds that fit a
    signed 64-bit number, addresses whose text parses back), succeeds, touches no
    other key, and from then on the user can log in with that password, under the
    name in any case, with the policies the entry holds. *)
Theorem write_user_login (v : t) (name password : string) w req u0 h u :
  about v name w req → asks req "username" name → asks req "password" password → password ≠ "" →
  stored_user v w name = Ok u0 → bcrypt_hash (w_uuids w) password = Some h →
  UserPass.update_fields req (UserPass.set_hash h (default UserPass.default u0)) = Ok u → user_storable u →
  ∃ w', UserPass.write_user (w, req) = ((w', req), Ok None) ∧
    (∀ k, k ≠ user_key v name → storage_map (w_store w') !! k = storage_map (w_store w) !! k) ∧
    stored_user v w' name = Ok (Some (UserPass.migrate u)) ∧
    ∀ name' login_req, Logical.storage login_req = Some v → to_lowercase name' = to_lowercase name →
      asks login_req "username" name' → asks login_req "password" password →
      ∃ s' resp a, UserPass.login (w', login_req) = (s', Ok (Some resp)) ∧ resp_auth resp = Some a ∧
        display_name a = to_lowercase name ∧
        policies a = tp_token_policies (ue_token_params (UserPass.migrate u)).
Proof.
  intros Ha Hn Hp Hne Hu0 Hh Hf Hst.
  destruct (write_user_run _ _ _ _ _ _ _ _ Ha Hn Hp Hne Hu0 Hh Hf) as (w' & b & Hr & Hc' & Hde & Hm).
  assert (stored_user v w' name = Ok (Some (UserPass.migrate u))) as Hu.
  { unfold stored_user. by rewrite Hm, lookup_insert_eq, Hde, (user_json u Hst). }
  exists w'. split_and!; [done| |done|].
  - intros k Hk. by rewrite Hm, lookup_insert_ne.
  - intros name' lreq Hv' Hl Hn' Hp'.
    destruct (login_run v name' password w' lreq) as (w2 & _ & Hlr); [|done|done|].
    + destruct Ha as (_ & _ & ? & ?). unfold about. rewrite Hl. by split_and!.
    + assert (stored_user v w' name' = stored_user v w' name) as E by (unfold stored_user, user_key; by rewrite Hl).
      assert (ue_password_hash u = h) as Hhash by by apply update_fields_hash in Hf.
      rewrite E, Hu in Hlr. change (ue_password_hash (UserPass.migrate u)) with (ue_password_hash u) in Hlr.
      rewrite Hhash, (bcrypt_verify_hash _ _ _ Hh), Hl in Hlr. eexists _, _, _. split; [exact Hlr|]. by split_and!.
Qed.

(** A password reset under a name with capital letters leaves the entry
    that logins read as it is: the old password stays valid. *)
Theorem password_reset_misses_user (v : t) (name : string) w w' req req' r :
  about v name w req → sane ("user/" ++ name) → to_lowercase name ≠ name → asks req "username" name →
  UserPass.write_user_password (w, req) = ((w', req'), Ok r) →
  stored_user v w' name = stored_user v w name ∧
  is_Some (storage_map (w_store w') !! expand_key v ("user/" ++ name)).
Proof.
  intros Ha Hs' Hne Hn H. unfold UserPass.write_user_password in H. inv_steps.
  match goal with H : UserPass.data_str "username" _ = _ |- _ => apply data_str_ok in H as [-> Hn'] end.
  assert (a = name) as -> by (unfold asks in *; congruence).
  match goal with H : UserPass.get_user _ _ = _ |- _ =>
    rewrite (get_user_run v _ w req Ha) in H; injection H as <- Hu end.
  match goal with H : UserPass.data_str "password" _ = _ |- _ => apply data_str_ok in H as [-> Hp] end.
  match goal with H : UserPass.gen_password_hash _ _ = _ |- _ =>
    apply gen_password_hash_ok in H as (Hver & w1 & -> & Hw1) end.
  destruct Ha as (Hv & Hc & Hk & Hs).
  match goal with H : UserPass.set_user _ ?u _ = _ |- _ =>
    destruct (set_user_run v name u w1 req Hv) as (w2 & b & Hset & Hc2 & Hde & Hm);
      [by rewrite Hw1|done|done|]; rewrite Hset in H; injection H as <- <- end.
  unfold st_ret in H. injection H as <- <- <-. rewrite Hm, lookup_insert_eq, Hw1 in *. split; [|done].
  unfold stored_user. rewrite Hm, lookup_insert_ne; [done|]. unfold user_key, expand_key. intros E.
  apply Hne. by apply app_inj_l, app_inj_l in E.
Qed.
End theorems.

(** ** A concrete mount *)
Section witnesses.
#[local] Existing Instance demo_storage.
#[local] Existing Instance demo_storage_spec.
#[local] Existing Instance demo_clock.
#[local] Existing Instance json_map.
#[local] Existing Instance json_map_laws.
#[local] Existing Instance no_durations.
#[local] Existing Instance no_json.
#[local] Existing Instance BinaryNet.binary_net.

(** Not a hash, but it verifies what it was made from. *)
#[local] Instance plain_bcrypt : Bcrypt := {|
  bcrypt_hash _ p := Some ("$" ++ p);
  bcrypt_verify p h := match h with String "$" q => Some (String.eqb p q) | _ => None end
|}.

#[local] Instance plain_bcrypt_laws : BcryptLaws.
Proof. intros i p h [= <-]. cbn. by rewrite String.eqb_refl. Qed.

Definition up_view : BarrierView.t := BarrierView.new "auth/1/".
Definition up_request (p : Path) (name password : string) (b : gmap string Value) : Request :=
  set_match_path (Some p) (set_data (Some {["username" := VStr name]})
    (set_body (Some (<["password" := VStr password]> b)) (set_storage (Some up_view) (RequestOps.new "users/")))).
Abbreviation users := (fst (UserPass.users_path (S := DemoStore) (Q := LeaseList) (C := unit))).
Abbreviation logins := (fst (UserPass.login_path (S := DemoStore) (Q := LeaseList) (C := unit))).
Definition up_world : World DemoStore LeaseList unit :=
  {| w_store := demo_barrier; w_ticks := 0; w_uuids := 0; w_queue := []; w_queue_held := false; w_deadlock := false;
     w_policy_types := ∅; w_token_policies_lru := tt; w_egp_lru := tt |}.

Definition write_bob : Request :=
  up_request users "Bob" "pw" {["token_policies" := VStr "dev,ops"; "token_ttl" := VInt 60]}.

Lemma about_bob req : Logical.storage req = Some up_view → about up_view "Bob" up_world req.
Proof. intros H. split_and!; [done|exact demo_clean|apply demo_keys_ok|reflexivity]. Qed.

Definition bob : UserEntry :=
  {| ue_password_hash := "$pw"; ue_policies := ["dev"; "ops"]; ue_ttl := from_secs 60; ue_max_ttl := 0;
     ue_token_params :=
       {| tp_token_type := "default"; tp_token_ttl := from_secs 60; tp_token_max_ttl := 0;
          tp_token_explicit_max_ttl := 0; tp_token_period := 0; tp_token_no_default_policy := false;
          tp_token_num_uses := 0; tp_token_policies := ["dev"; "ops"]; tp_token_bound_cidrs := [] |};
     ue_bound_cidrs := [] |}.

Lemma bob_storable : user_storable bob.
Proof.
  assert (whole 0) as H0 by (apply (whole_seconds 0); vm_compute; split; discriminate).
  assert (whole (from_secs 60)) as H60 by (apply (whole_seconds 60); vm_compute; split; discriminate).
  split; [exact H60|]. split; [exact H0|]. split; [|constructor].
  split; [exact H60|]. do 3 (split; [exact H0|]). split; [|constructor]. cbn. vm_compute. split; discriminate.
Qed.

Lemma write_user_login_witness :
  ∃ w' s' resp a, UserPass.write_user (up_world, write_bob) = ((w', write_bob), Ok None) ∧
    UserPass.login (w', up_request logins "bOb" "pw" ∅) = (s', Ok (Some resp)) ∧
    resp_auth resp = Some a ∧ display_name a = "bob" ∧ policies a = ["dev"; "ops"].
Proof.
  destruct (write_user_login up_view "Bob" "pw" up_world write_bob None "$pw" bob) as (w' & Hw & _ & _ & Hl).
  - apply about_bob. reflexivity.
  - vm_compute. reflexivity.
  - vm_compute. reflexivity.
  - discriminate.
  - vm_compute. reflexivity.
  - vm_compute. reflexivity.
  - vm_compute. reflexivity.
  - exact bob_storable.
  - destruct (Hl "bOb" (up_request logins "bOb" "pw" ∅)) as (s' & resp & a & Hr & Ha & Hd & Hp);
      [vm_compute; reflexivity..|]. exists w', s', resp, a. split; [exact Hw|]. split; [exact Hr|]. split; [exact Ha|].
    split; [exact Hd|]. rewrite Hp. reflexivity.
Defined.

Lemma login_outcome_witness :
  ∃ w', UserPass.login (up_world, up_request logins "Bob" "pw" ∅)
        = ((w', up_request logins "Bob" "pw" ∅), Ok (Some (ResponseOps.error_response UserPass.err_info))).
Proof.
  destruct (login_outcome up_view "Bob" "pw" up_world (up_request logins "Bob" "pw" ∅))
    as (w' & r & Hr & _ & _ & _ & Hn); [apply about_bob; reflexivity|vm_compute; reflexivity..|].
  exists w'. rewrite Hr, Hn; [reflexivity|]. left. vm_compute. reflexivity.
Defined.

Definition reset_bob : Request :=
  up_request (fst (UserPass.user_password_path (S := DemoStore) (Q := LeaseList) (C := unit))) "Bob" "new" ∅.

Lemma password_reset_misses_user_witness :
  ∃ w', snd (UserPass.write_user_password (up_world, reset_bob)) = Ok None ∧
        fst (fst (UserPass.write_user_password (up_world, reset_bob))) = w' ∧ stored_user up_view w' "Bob" = Ok None.
Proof.
  assert (snd (UserPass.write_user_password (up_world, reset_bob)) = Ok None) as E by (vm_compute; reflexivity).
  exists (fst (fst (UserPass.write_user_password (up_world, reset_bob)))). split; [exact E|]. split; [reflexivity|].
  destruct (UserPass.write_user_password (up_world, reset_bob)) as [[w' req'] r] eqn:Er. simpl in E. subst r.
  destruct (password_reset_misses_user up_view "Bob" up_world w' reset_bob req' None) as [H _].
  - apply about_bob. reflexivity.
  - vm_compute. reflexivity.
  - discriminate.
  - vm_compute. reflexivity.
  - exact Er.
  - cbn [fst]. rewrite H. vm_compute. reflexivity.
Defined.
End witnesses.
