(* ===== verification/Salt.v ===== *)
(** * Salted hashes (src/src/utils/salt.rs)

    A salt kept in storage, with which identifiers are hashed before they are
    used as storage keys.  The digests of OpenSSL are parameters. *)

From stdpp Require Import base tactics list gmap strings.
From Stdlib Require Import ZArith Lia Ascii.
From S2P Require Import Prelude Errors RustStr Utils Storage BarrierView Logical Policy Mount World.

Local Open Scope string_scope.

Inductive MessageDigest := SHA256 | SM3 | MD5 | OtherDigest.

#[global] Instance MessageDigest_eq_dec : EqDecision MessageDigest.
Proof. solve_decision. Defined.

(** [openssl::hash::hash] and the HMAC [Signer]; [None] is an error of OpenSSL. *)
Class Digests : Type := {
  digest_hash : MessageDigest -> bytes -> option bytes;
  digest_hmac : MessageDigest -> bytes -> bytes -> option bytes
}.

(** SHA-256 is available, and gives 32 bytes. *)
Class DigestLaws `{HX : HexCodec} `{HD : Digests} : Prop := {
  sha256_hash_total x : exists d, digest_hash SHA256 x = Some d /\ length d = 32%nat;
  sha256_hmac_total k x : exists d, digest_hmac SHA256 k x = Some d /\ length d = 32%nat;
  hex_length x : String.length (hex_encode x) = (2 * length x)%nat;
  hex_digits x : str_forall is_hex (hex_encode x) = true
}.

Record SaltConfig := { sc_location : string; hash_type : MessageDigest; hmac_type : MessageDigest }.
Record Salt := { salt_config : SaltConfig; salt_text : string; generated : bool }.

Module Salt.
Definition DEFAULT_LOCATION : string := "salt".

Definition default_config : SaltConfig :=
  {| sc_location := DEFAULT_LOCATION; hash_type := SHA256; hmac_type := SHA256 |}.

Section salt.
Context {S Q C : Type} `{HSt : Storage S} `{HU : UuidGen} `{HX : HexCodec} `{HD : Digests}.
Abbreviation M := (st (World S Q C) RvError).

(** The location is taken over unless it is empty. *)
Definition merge_config (c : option SaltConfig) : SaltConfig :=
  match c with
  | None => default_config
  | Some c => {| sc_location := if is_empty (sc_location c) then DEFAULT_LOCATION else sc_location c;
                 hash_type := hash_type c; hmac_type := hmac_type c |}
  end.

Definition new (storage : option BarrierView.t) (c : option SaltConfig) : M Salt :=
  let! id := fresh_uuid in
  let c := merge_config c in
  let salt := {| salt_config := c; salt_text := id; generated := true |} in
  match storage with
  | None => st_ret salt
  | Some v =>
      let! raw := view_get v (sc_location c) in
      match raw with
      | Some raw =>
          st_ret {| salt_config := c; salt_text := String.string_of_list_byte (se_value raw); generated := false |}
      | None => let! _ := view_put v (sc_location c) (str_bytes id) in st_ret salt
      end
  end.

Definition new_nonpersistent : M Salt :=
  let! id := fresh_uuid in
  st_ret {| salt_config := {| sc_location := ""; hash_type := SHA256; hmac_type := SHA256 |};
            salt_text := id; generated := true |}.

Definition get_hmac (self : Salt) (data : string) : result string :=
  let? h := of_option OpenSSL (digest_hmac (hmac_type (salt_config self)) (str_bytes (salt_text self)) (str_bytes data)) in
  Ok (hex_encode h).

Definition get_identified_hamc (self : Salt) (data : string) : result string :=
  let ty := match hmac_type (salt_config self) with
            | SHA256 => "hmac-sha256" | SM3 => "hmac-sm3" | MD5 => "hmac-md5" | OtherDigest => "hmac-unknown"
            end in
  let? h := get_hmac self data in Ok (ty ++ ":" ++ h).

Definition get_hash (self : Salt) (data : string) : result string :=
  let? h := of_option OpenSSL (digest_hash (hash_type (salt_config self)) (str_bytes data)) in Ok (hex_encode h).

Definition salt_id (self : Salt) (id : string) : result string := get_hash self (salt_text self ++ id).

Definition did_generate (self : Salt) : bool := generated self.
End salt.
End Salt.
