(* ===== verification/Wiring.v ===== *)
(** * The modules of a vault and their hooks (src/src/core.rs,
    src/src/module_manager.rs, the [impl Module] blocks of src/src/modules)

    [Core::config] fills the module manager; unsealing runs the [setup] and
    [init] hooks of the modules around the loading of the mounts, sealing their
    [cleanup] hooks.  [Module Wiring] translates the eight modules over the
    state they share, the registries of backends and handlers among it. *)

From stdpp Require Import base tactics list gmap strings.
From Stdlib Require Import ZArith Lia.
From S2P Require Import Prelude Errors Shamir RustStr Utils Lease Storage BarrierCorrect BarrierView Logical LogicalBackend Router Policy Mount AuthMount VaultCore World TokenStore PolicyStore AuthFlow Salt.

Local Open Scope string_scope.

(** The core with what its modules hold.  The storage of [v_world] is not used:
    the barrier is the core's. *)
Record Vault (B : Type) (T : Type -> Type) (Q C : Type) := {
  v_auth : AuthModule B T (World (AESGCMBarrier.t B) Q C);
  v_world : World (AESGCMBarrier.t B) Q C;
  v_modules : list string;
  v_expiration : option ExpirationManager;
  v_token_store : option TokenStore;
  (** threads started by [start_check_expired_lease_entries] *)
  v_timers : nat;
  v_policy_store : PolicyStore;
  v_approle_salt : option Salt;
  v_handlers : list (Handler (World (AESGCMBarrier.t B) Q C));
  v_auth_handlers : list (AuthHandler (World (AESGCMBarrier.t B) Q C))
}.
Arguments v_auth {B T Q C}.
Arguments v_world {B T Q C}.
Arguments v_modules {B T Q C}.
Arguments v_expiration {B T Q C}.
Arguments v_token_store {B T Q C}.
Arguments v_timers {B T Q C}.
Arguments v_policy_store {B T Q C}.
Arguments v_approle_salt {B T Q C}.
Arguments v_handlers {B T Q C}.
Arguments v_auth_handlers {B T Q C}.

Module Wiring.
Section wiring.
Context {B : Type} `{HB : Backend B} `{HG : AesGcm} `{HR : Rng} `{HS : Serde BarrierInit} `{HSha : Sha256}.
Context {T : Type -> Type} `{HT : RadixTrie T} {Q C : Type} `{HQ : LeaseQueue Q} `{HC : PolicyCache C}.
Context `{HH : HmacSha256} `{HX : HexCodec} `{HU : UuidGen} `{HSM : Serde (gmap string MountEntry)}.
Context `{HCl : Clock} `{H1 : Sha1Digest} `{HSLe : Serde LeaseEntry} `{HSO : Serde OldLeaseEntry}
        `{HSP : Serde PolicyEntry} `{HHcl : HclParser} `{HP : Profile}.

Abbreviation world := (World (AESGCMBarrier.t B) Q C).
Abbreviation core := (Core B T world).
Abbreviation vault := (Vault B T Q C).
Abbreviation m := (st vault RvError).

(** What the modules register: the constructors of their backends, and the
    handlers of the router, the token store and the policy store. *)
Context (kv_backend system_backend pki_backend userpass_backend approle_backend cert_backend
         : result (DynBackend world)).
Context (token_backend : TokenStore -> result (DynBackend world)).
Context (router_handler : Handler world) (token_handler : TokenStore -> Handler world)
        (policy_handler : PolicyStore -> AuthHandler world).
(** The fuel of directory walks. *)
Context (walk_fuel : nat).

(** ** The parts of the state *)
Definition v_core (v : vault) : core := am_core (v_auth v).

Definition set_auth (x : AuthModule B T world) (v : vault) : vault :=
  {| v_auth := x; v_world := v_world v; v_modules := v_modules v; v_expiration := v_expiration v;
     v_token_store := v_token_store v; v_timers := v_timers v; v_policy_store := v_policy_store v;
     v_approle_salt := v_approle_salt v; v_handlers := v_handlers v; v_auth_handlers := v_auth_handlers v |}.
Definition set_world (x : world) (v : vault) : vault :=
  {| v_auth := v_auth v; v_world := x; v_modules := v_modules v; v_expiration := v_expiration v;
     v_token_store := v_token_store v; v_timers := v_timers v; v_policy_store := v_policy_store v;
     v_approle_salt := v_approle_salt v; v_handlers := v_handlers v; v_auth_handlers := v_auth_handlers v |}.
Definition set_modules (x : list string) (v : vault) : vault :=
  {| v_auth := v_auth v; v_world := v_world v; v_modules := x; v_expiration := v_expiration v;
     v_token_store := v_token_store v; v_timers := v_timers v; v_policy_store := v_policy_store v;
     v_approle_salt := v_approle_salt v; v_handlers := v_handlers v; v_auth_handlers := v_auth_handlers v |}.
Definition set_stores (em : option ExpirationManager) (ts : option TokenStore) (v : vault) : vault :=
  {| v_auth := v_auth v; v_world := v_world v; v_modules := v_modules v; v_expiration := em;
     v_token_store := ts; v_timers := v_timers v; v_policy_store := v_policy_store v;
     v_approle_salt := v_approle_salt v; v_handlers := v_handlers v; v_auth_handlers := v_auth_handlers v |}.
Definition set_timers (x : nat) (v : vault) : vault :=
  {| v_auth := v_auth v; v_world := v_world v; v_modules := v_modules v; v_expiration := v_expiration v;
     v_token_store := v_token_store v; v_timers := x; v_policy_store := v_policy_store v;
     v_approle_salt := v_approle_salt v; v_handlers := v_handlers v; v_auth_handlers := v_auth_handlers v |}.
Definition set_policy_store (x : PolicyStore) (v : vault) : vault :=
  {| v_auth := v_auth v; v_world := v_world v; v_modules := v_modules v; v_expiration := v_expiration v;
     v_token_store := v_token_store v; v_timers := v_timers v; v_policy_store := x;
     v_approle_salt := v_approle_salt v; v_handlers := v_handlers v; v_auth_handlers := v_auth_handlers v |}.
Definition set_approle_salt (x : option Salt) (v : vault) : vault :=
  {| v_auth := v_auth v; v_world := v_world v; v_modules := v_modules v; v_expiration := v_expiration v;
     v_token_store := v_token_store v; v_timers := v_timers v; v_policy_store := v_policy_store v;
     v_approle_salt := x; v_handlers := v_handlers v; v_auth_handlers := v_auth_handlers v |}.
Definition set_handlers (x : list (Handler world)) (v : vault) : vault :=
  {| v_auth := v_auth v; v_world := v_world v; v_modules := v_modules v; v_expiration := v_expiration v;
     v_token_store := v_token_store v; v_timers := v_timers v; v_policy_store := v_policy_store v;
     v_approle_salt := v_approle_salt v; v_handlers := x; v_auth_handlers := v_auth_handlers v |}.
Definition set_auth_handlers (x : list (AuthHandler world)) (v : vault) : vault :=
  {| v_auth := v_auth v; v_world := v_world v; v_modules := v_modules v; v_expiration := v_expiration v;
     v_token_store := v_token_store v; v_timers := v_timers v; v_policy_store := v_policy_store v;
     v_approle_salt := v_approle_salt v; v_handlers := v_handlers v; v_auth_handlers := x |}.

(** ** Computations on a part of the state *)
Definition on_auth {A} (f : st (AuthModule B T world) RvError A) : m A := fun v =>
  let '(a, r) := f (v_auth v) in (set_auth a v, r).

Definition on_core {A} (f : st core RvError A) : m A := fun v =>
  let '(c, r) := f (v_core v) in (set_auth (AuthMounts.set_core c (v_auth v)) v, r).

(** The world of the modules has the core's barrier as its storage. *)
Definition on_stores {A} (f : st world RvError A) : m A := fun v =>
  let '(w, r) := f (World.set_store (barrier (v_core v)) (v_world v)) in
  (set_world w (set_auth (AuthMounts.set_core (set_barrier (w_store w) (v_core v)) (v_auth v)) v), r).

(** ** Handlers *)
Definition add_handler (h : Handler world) : m unit := fun v =>
  let '(hs, r) := Phases.add_handler (v_handlers v) h in (set_handlers hs v, r).
Definition delete_handler (h : Handler world) : m unit := fun v =>
  (set_handlers (Phases.delete_handler (v_handlers v) h) v, Ok tt).
Definition add_auth_handler (h : AuthHandler world) : m unit := fun v =>
  let '(hs, r) := AuthHandlers.add_auth_handler (v_auth_handlers v) h in (set_auth_handlers hs v, r).
Definition delete_auth_handler (h : AuthHandler world) : m unit := fun v =>
  (set_auth_handlers (AuthHandlers.delete_auth_handler (v_auth_handlers v) h) v, Ok tt).

(** ** The modules *)

(** kv, system and pki register one backend with the core. *)
Definition logical_module (name : string) (b : result (DynBackend world)) : VaultModule vault :=
  {| module_name := name;
     module_setup := on_core (CoreOps.add_logical_backend name b);
     module_init := st_ret tt;
     module_cleanup := on_core (CoreOps.delete_logical_backend name) |}.

Definition KvModule : VaultModule vault := logical_module "kv" kv_backend.
Definition SystemModule : VaultModule vault := logical_module "system" system_backend.
Definition PkiModule : VaultModule vault := logical_module "pki" pki_backend.

(** [core.module_manager.get_module("auth")], and nothing done without it. *)
Definition with_auth_module (f : m unit) : m unit := fun v =>
  if existsb (String.eqb "auth") (v_modules v) then f v else (v, Ok tt).

Definition UserPassModule : VaultModule vault :=
  {| module_name := "userpass";
     module_setup := with_auth_module (on_auth (AuthMounts.add_auth_backend "userpass" userpass_backend));
     module_init := st_ret tt;
     module_cleanup := with_auth_module (on_auth (AuthMounts.delete_auth_backend "userpass")) |}.

Definition CertModule : VaultModule vault :=
  {| module_name := "cert";
     module_setup := with_auth_module (on_auth (AuthMounts.add_auth_backend "cert" cert_backend));
     module_init := st_ret tt;
     module_cleanup := with_auth_module (on_auth (AuthMounts.delete_auth_backend "cert")) |}.

Definition approle_init : m unit :=
  let! v := st_get in
  match system_view (v_core v) with
  | None => st_fail ErrBarrierSealed
  | Some view =>
      let! s := on_stores (Salt.new (Some view) None) in
      fun v => (set_approle_salt (Some s) v, Ok tt)
  end.

Definition AppRoleModule : VaultModule vault :=
  {| module_name := "approle";
     module_setup := with_auth_module (on_auth (AuthMounts.add_auth_backend "approle" approle_backend));
     module_init := approle_init;
     module_cleanup := with_auth_module (on_auth (AuthMounts.delete_auth_backend "approle")) |}.

Definition policy_init : m unit :=
  let! v := st_get in
  let! ps := on_stores (PolicyStore.new walk_fuel (system_view (v_core v))) in
  let! _ := (fun v => (set_policy_store ps v, Ok tt)) in
  let! _ := on_stores (PolicyStore.load_default_acl_policy ps) in
  add_auth_handler (policy_handler ps).

Definition policy_cleanup : m unit :=
  let! v := st_get in
  let! _ := delete_auth_handler (policy_handler (v_policy_store v)) in
  fun v => (set_policy_store PolicyStore.default_store v, Ok tt).

Definition PolicyModule : VaultModule vault :=
  {| module_name := "policy"; module_setup := st_ret tt; module_init := policy_init;
     module_cleanup := policy_cleanup |}.

(** The manager starts with an empty queue; its thread outlives it. *)
Definition auth_init : m unit :=
  let! v := st_get in
  let sv := system_view (v_core v) in
  let! em := st_lift (TokenStore.new_expiration sv) in
  let! _ := on_stores (fun w => (set_queue q_new w, Ok tt)) in
  let! ts := on_stores (TokenStore.new sv em) in
  let ts := TokenStore.set_token_store ts in
  let! _ := (fun v => (set_stores (Some (expiration ts)) (Some ts) v, Ok tt)) in
  let! _ := on_auth (AuthMounts.init_mounts (token_backend ts)) in
  let! _ := on_stores (ExpirationManager.restore walk_fuel ts) in
  let! _ := (fun v => (set_timers (S (v_timers v)) v, Ok tt)) in
  add_handler (token_handler ts).

(** [token_store.as_ref().unwrap()] panics before the first [init]. *)
Definition auth_cleanup : m unit :=
  let! v := st_get in
  match v_token_store v with
  | None => fun v => (v, Panic)
  | Some ts =>
      let! _ := delete_handler (token_handler ts) in
      on_auth AuthMounts.cleanup_mounts
  end.

Definition AuthModule_ : VaultModule vault :=
  {| module_name := "auth"; module_setup := on_auth AuthMounts.setup; module_init := auth_init;
     module_cleanup := auth_cleanup |}.

(** ** The core of a starting server: [Core::default] over a barrier *)
Definition start (b : AESGCMBarrier.t B) (w : world) : vault :=
  {| v_auth := AuthMounts.new
       {| barrier := b; system_view := None; mounts := MountTableOps.new; router := Router.new;
          logical_backends := ∅; core_sealed := true; unseal_key_shares := []; hmac_key := [];
          mount_entry_hmac_level := HmacNone; uuids := 0 |};
     v_world := w; v_modules := []; v_expiration := None; v_token_store := None; v_timers := 0;
     v_policy_store := PolicyStore.default_store; v_approle_salt := None;
     v_handlers := [router_handler]; v_auth_handlers := [] |}.

(** ** [Core::config] *)
Definition set_default_modules : list (VaultModule vault) := [KvModule; SystemModule].

Fixpoint add_modules (l ms : list (VaultModule vault)) : result (list (VaultModule vault)) :=
  match ms with
  | [] => Ok l
  | x :: ms =>
      match ModuleManager.add_module l x with
      | (l, Ok _) => add_modules l ms
      | (_, Err e) => Err e
      | (_, Panic) => Panic
      end
  end.

(** No handler overrides the default of the trait. *)
Definition post_config (h : Handler world) : result unit := Err ErrHandlerDefault.

Fixpoint post_config_all (hs : list (Handler world)) : result unit :=
  match hs with
  | [] => Ok tt
  | h :: hs =>
      match post_config h with
      | Ok _ => post_config_all hs
      | Err e => if RvError_eq e ErrHandlerDefault then post_config_all hs else Err e
      | Panic => Panic
      end
  end.

Definition set_hmac_level (l : MountEntryHMACLevel) (c : core) : core :=
  {| barrier := barrier c; system_view := system_view c; mounts := mounts c; router := router c;
     logical_backends := logical_backends c; core_sealed := core_sealed c;
     unseal_key_shares := unseal_key_shares c; hmac_key := hmac_key c; mount_entry_hmac_level := l;
     uuids := uuids c |}.

Definition config (level : option MountEntryHMACLevel) : m (list (VaultModule vault)) :=
  let! _ := match level with
            | Some l => on_core (fun c => (set_hmac_level l c, Ok tt))
            | None => st_ret tt
            end in
  let! _ := (fun v => (set_stores None None (set_auth (AuthMounts.new (v_core v)) v), Ok tt)) in
  let! l := st_lift (add_modules set_default_modules
                       [AuthModule_; PolicyModule; PkiModule; UserPassModule; AppRoleModule; CertModule]) in
  let! _ := (fun v => (set_modules (map module_name l) v, Ok tt)) in
  let! v := st_get in
  let! _ := st_lift (post_config_all (v_handlers v)) in
  st_ret l.

(** ** Opening and closing *)
Section cycle.
Context (modules : list (VaultModule vault)).

(** The mounts of the core, between the hooks. *)
Definition core_mounts : m unit :=
  let! _ := on_core CoreOps.derive_hmac_key in
  let! _ := on_core CoreOps.load_mounts in
  on_core CoreMounts.setup_mounts.

Definition post_unseal : m unit :=
  let! _ := ModuleManager.setup modules in
  let! _ := core_mounts in
  ModuleManager.init modules.

Definition pre_seal : m unit :=
  let! _ := ModuleManager.cleanup modules in
  on_core CoreMounts.unload_mounts.

Context `{HSC : Serde SealConfig}.

(** [Core::unseal] and [Core::seal] with the hooks of the modules. *)
Definition unseal (key : bytes) : m bool :=
  let! already := on_core CoreOps.inited in
  let! _ := on_core (CoreMounts.guard (negb already) ErrBarrierNotInit) in
  let! v := st_get in
  let! _ := on_core (CoreMounts.guard (negb (CoreOps.barrier_sealed (v_core v))) ErrBarrierUnsealed) in
  let '(min, max) := AESGCMBarrier.key_length_range in
  let max := (max + ShamirSecret.SHAMIR_OVERHEAD)%nat in
  let! _ := on_core (CoreMounts.guard ((length key <? min)%nat || (max <? length key)%nat) ErrBarrierKeyInvalid) in
  let! config := on_core CoreOps.seal_config in
  let shares := unseal_key_shares (v_core v) in
  if existsb (λ x, bool_decide (x = key)) shares then st_ret false
  else
    let! _ := on_core (λ c, (set_unseal_key_shares (shares ++ [key])%list c, Ok tt)) in
    if (length (shares ++ [key]) <? u8 (secret_threshold config))%nat then st_ret false
    else
      let! master_key := on_core (CoreOps.recover_master_key config) in
      let! _ := on_core (CoreMounts.with_barrier (AESGCMBarrier.unseal master_key)) in
      let! _ := post_unseal in
      on_core (λ c, (set_core_sealed false c, Ok true)).

Definition seal : m unit :=
  let! already := on_core CoreOps.inited in
  let! _ := on_core (CoreMounts.guard (negb already) ErrBarrierNotInit) in
  let! v := st_get in
  let! _ := on_core (CoreMounts.guard (CoreOps.barrier_sealed (v_core v)) ErrBarrierSealed) in
  let! _ := pre_seal in
  on_core (λ c, (CoreOps.seal_barrier (set_core_sealed true c), Ok tt)).
End cycle.

End wiring.
End Wiring.
