(* ===== verification/WiringCorrect.v ===== *)
(** * The registries over the life of a vault (theorems about src/src/core.rs
    and the [impl Module] blocks of src/src/modules)

    Which backends and handlers are registered after unsealing, that sealing
    always takes them back, and what a failed unsealing leaves behind. *)

From stdpp Require Import base tactics list gmap strings.
From Stdlib Require Import ZArith Lia.
From S2P Require Import Prelude Errors RustStr Utils Lease Storage BarrierCorrect BarrierView Logical LogicalBackend Router Policy Mount AuthMount VaultCore World TokenStore PolicyStore AuthFlow Salt Wiring BarrierCorrect MountCorrect VaultCorrect Lifecycle Shamir WorldDemo PolicyCorrect.

Local Open Scope string_scope.

Section wiring.
Context {B : Type} `{HB : Backend B} `{HG : AesGcm} `{HR : Rng} `{HS : Serde BarrierInit} `{HSha : Sha256}.
Context {T : Type -> Type} `{HT : RadixTrie T} {Q C : Type} `{HQ : LeaseQueue Q} `{HC : PolicyCache C}.
Context `{HH : HmacSha256} `{HX : HexCodec} `{HU : UuidGen} `{HSM : Serde (gmap string MountEntry)}.
Context `{HCl : Clock} `{H1 : Sha1Digest} `{HSLe : Serde LeaseEntry} `{HSO : Serde OldLeaseEntry}
        `{HSP : Serde PolicyEntry} `{HHcl : HclParser} `{HP : Profile}.

Abbreviation world := (World (AESGCMBarrier.t B) Q C).
Abbreviation core := (Core B T world).
Abbreviation vault := (Vault B T Q C).
Abbreviation m := (st vault RvError).

Context (kv_backend system_backend pki_backend userpass_backend approle_backend cert_backend
         : result (DynBackend world)).
Context (token_backend : TokenStore -> result (DynBackend world)).
Context (router_handler : Handler world) (token_handler : TokenStore -> Handler world)
        (policy_handler : PolicyStore -> AuthHandler world).
Context (walk_fuel : nat).

Import Wiring.

(** ** The modules in their order *)
Definition all_modules : list (VaultModule vault) :=
  [KvModule kv_backend; SystemModule system_backend;
   AuthModule_ token_backend token_handler walk_fuel; PolicyModule policy_handler walk_fuel;
   PkiModule pki_backend; UserPassModule userpass_backend; AppRoleModule approle_backend;
   CertModule cert_backend].

Definition module_names : list string :=
  ["kv"; "system"; "auth"; "policy"; "pki"; "userpass"; "approle"; "cert"].

(** ** The registries *)
Record regs := Regs {
  r_logical : gmap string (result (DynBackend world));
  r_auth : gmap string (result (DynBackend world));
  r_handlers : list (Handler world);
  r_auth_handlers : list (AuthHandler world);
  r_token_store : option TokenStore;
  r_policy_store : PolicyStore;
  r_modules : list string;
  r_timers : nat
}.

Definition regs_of (v : vault) : regs :=
  Regs (logical_backends (v_core v)) (auth_backends (v_auth v)) (v_handlers v) (v_auth_handlers v)
       (v_token_store v) (v_policy_store v) (v_modules v) (v_timers v).

(** The registries of a sealed vault: the router is the only handler. *)
Definition closed_regs (ts : option TokenStore) (n : nat) : regs :=
  Regs ∅ ∅ [router_handler] [] ts PolicyStore.default_store module_names n.

Definition core_backends : gmap string (result (DynBackend world)) :=
  <["pki" := pki_backend]> (<["system" := system_backend]> {["kv" := kv_backend]}).

Definition credential_backends : gmap string (result (DynBackend world)) :=
  <["cert" := cert_backend]> (<["approle" := approle_backend]> {["userpass" := userpass_backend]}).

(** After the [setup] hooks. *)
Definition setup_regs (ts : option TokenStore) (n : nat) : regs :=
  Regs core_backends credential_backends [router_handler] [] ts PolicyStore.default_store module_names n.

(** After the [init] hooks. *)
Definition open_regs (ts : TokenStore) (ps : PolicyStore) (n : nat) : regs :=
  Regs core_backends (<["token" := token_backend ts]> credential_backends)
       [router_handler; token_handler ts] [policy_handler ps] (Some ts) ps module_names n.

(** ** Computations that leave the registries alone *)
Definition quiet {A} (f : m A) : Prop := forall v, regs_of (fst (f v)) = regs_of v.

Lemma quiet_bind {A A'} (f : m A) (k : A → m A') :
  quiet f → (∀ a, quiet (k a)) → quiet (st_bind f k).
Proof.
  intros Hf Hk v. specialize (Hf v). unfold st_bind.
  destruct (f v) as [v1 [a|e|]]; simpl in *; [|done..]. by rewrite Hk.
Qed.

Lemma quiet_on_stores {A} (f : st world RvError A) : quiet (on_stores f).
Proof. intros v. unfold on_stores. by destruct (f _). Qed.

(** What a computation on the core can change of the registries, and its flag. *)
Definition core_regs (c : core) := (logical_backends c, core_sealed c).

Lemma quiet_on_core {A} (f : st core RvError A) :
  (∀ c, core_regs (fst (f c)) = core_regs c) → quiet (on_core f).
Proof.
  intros Hf v. unfold on_core. specialize (Hf (v_core v)). destruct (f (v_core v)) as [c r]. simpl in *.
  unfold regs_of, v_core. simpl. by injection Hf as -> _.
Qed.

Lemma quiet_run {A} (f : m A) v v' r : quiet f → f v = (v', r) → regs_of v' = regs_of v.
Proof. intros Hf H. rewrite <- (Hf v). by rewrite H. Qed.

(** *** Mounting leaves the registry of the core alone *)
Definition keeps {S A X} (p : S -> X) (f : st S RvError A) : Prop := forall s, p (fst (f s)) = p s.

Lemma wiring_bind {S A A' X} (p : S → X) (f : st S RvError A) (k : A → st S RvError A') :
  keeps p f → (∀ a, keeps p (k a)) → keeps p (st_bind f k).
Proof.
  intros Hf Hk s. specialize (Hf s). unfold st_bind.
  destruct (f s) as [s1 [a|e|]]; simpl in *; [|done..]. by rewrite Hk.
Qed.

Lemma load_mounts_keeps : keeps core_regs CoreOps.load_mounts.
Proof. intros c. unfold CoreOps.load_mounts. by destruct (MountTableOps.load_or_default _ _ _ _) as [[t b] r]. Qed.

Lemma with_router_keeps {A} (f : T (RouterEntry T world) → T (RouterEntry T world) * result A) :
  keeps core_regs (CoreMounts.with_router f).
Proof. intros c. unfold CoreMounts.with_router. by destruct (f (router c)). Qed.

Lemma setup_mounts_keeps : keeps core_regs CoreMounts.setup_mounts.
Proof.
  intros c. unfold CoreMounts.setup_mounts. generalize (map snd (map_to_list (entries (mounts c)))).
  intros refs. revert c. induction refs as [|r refs IH]; [done|]. simpl.
  apply wiring_bind; [|done]. intros c. unfold CoreMounts.setup_mount.
  destruct (MountTableOps.deref _ _) as [e|]; [|done]. cbv zeta. revert c.
  apply wiring_bind; [done|]. intros be. apply wiring_bind; [apply with_router_keeps|]. intros _.
  apply wiring_bind; [intros c; by destruct (String.eqb _ _)|]. intros _.
  destruct (me_tainted e); [apply with_router_keeps|done].
Qed.

Lemma derive_keeps : keeps core_regs CoreOps.derive_hmac_key.
Proof. intros c. unfold CoreOps.derive_hmac_key. by destruct (AESGCMBarrier.derive_hmac_key _). Qed.

Lemma core_mounts_quiet : quiet core_mounts.
Proof.
  unfold core_mounts. apply quiet_bind; [apply quiet_on_core, derive_keeps|]. intros _.
  apply quiet_bind; [apply quiet_on_core, load_mounts_keeps|]. intros _.
  apply quiet_on_core, setup_mounts_keeps.
Qed.

(** *** So does mounting of the authentication methods *)
Definition auth_regs (s : AuthModule B T world) := (auth_backends s, core_regs (am_core s)).

Lemma auth_with_router_keeps {A} (f : T (RouterEntry T world) → T (RouterEntry T world) * result A) :
  keeps auth_regs (AuthMounts.with_router f).
Proof.
  intros s. unfold AuthMounts.with_router. destruct (f _) as [r a]. unfold AuthMounts.set_the_router.
  by destruct (auth_router s).
Qed.

Lemma persist_auth_keeps : keeps auth_regs AuthMounts.persist_auth.
Proof.
  intros s. unfold AuthMounts.persist_auth, AuthMounts.with_barrier.
  by destruct (MountTableOps.persist _ _ _).
Qed.

Lemma load_auth_keeps key level : keeps auth_regs (AuthMounts.load_auth key level).
Proof.
  unfold AuthMounts.load_auth. apply wiring_bind.
  { intros s. by destruct (MountTableOps.load _ _ _ _ _) as [t [[]|e|]]. }
  intros loaded. apply wiring_bind.
  - destruct loaded; [done|]. apply wiring_bind; [|intros _; apply persist_auth_keeps].
    intros s. by destruct (MountTableOps.set_default _ _ _).
  - intros _. unfold AuthMounts.update_auth_mount. apply wiring_bind.
    + intros s. by destruct (MountTableOps.update_entries _ _ _ _ _ _).
    + intros need. destruct need; [apply persist_auth_keeps|done].
Qed.

Lemma setup_auth_keeps : keeps auth_regs AuthMounts.setup_auth.
Proof.
  intros s. unfold AuthMounts.setup_auth. generalize (map snd (map_to_list (auth_entries s))).
  intros refs. revert s. induction refs as [|r refs IH]; [done|]. simpl.
  apply wiring_bind; [|done]. intros s. unfold AuthMounts.setup_auth_mount.
  destruct (MountTableOps.deref _ _) as [e|]; [|done]. cbv zeta. revert s.
  apply wiring_bind; [done|]. intros be. apply wiring_bind; [apply auth_with_router_keeps|]. intros _.
  destruct (me_tainted e); [apply auth_with_router_keeps|done].
Qed.

(** ** What the hooks do to the registries *)
Definition map_logical (f : gmap string (result (DynBackend world)) -> gmap string (result (DynBackend world)))
    (r : regs) : regs :=
  Regs (f (r_logical r)) (r_auth r) (r_handlers r) (r_auth_handlers r) (r_token_store r)
       (r_policy_store r) (r_modules r) (r_timers r).
Definition map_auth (f : gmap string (result (DynBackend world)) -> gmap string (result (DynBackend world)))
    (r : regs) : regs :=
  Regs (r_logical r) (f (r_auth r)) (r_handlers r) (r_auth_handlers r) (r_token_store r)
       (r_policy_store r) (r_modules r) (r_timers r).

(** [f] succeeds from [v] and changes the registries to [r]. *)
Definition leads (f : m unit) (v : vault) (r : regs) : Prop :=
  exists v', f v = (v', Ok tt) /\ regs_of v' = r.

Lemma leads_bind f k v r r' :
  leads f v r → (∀ v', regs_of v' = r → leads (k tt) v' r') → leads (st_bind f k) v r'.
Proof.
  intros (v1 & Hf & Hr) Hk. destruct (Hk v1 Hr) as (v2 & Hk2 & Hr2). exists v2.
  by rewrite (st_bind_run _ _ _ _ _ Hf).
Qed.

Lemma logical_setup_leads name b v :
  r_logical (regs_of v) !! name = None →
  leads (module_setup (logical_module name b)) v (map_logical <[name := b]> (regs_of v)).
Proof.
  intros Hn. simpl in Hn. eexists. split.
  - simpl. unfold on_core, CoreOps.add_logical_backend. by rewrite Hn.
  - reflexivity.
Qed.

Lemma logical_cleanup_leads name b v :
  leads (module_cleanup (logical_module name b)) v (map_logical (delete name) (regs_of v)).
Proof. eexists. split; reflexivity. Qed.

Lemma auth_add_leads name b v :
  r_modules (regs_of v) = module_names → r_auth (regs_of v) !! name = None →
  leads (with_auth_module (on_auth (AuthMounts.add_auth_backend name b))) v
        (map_auth <[name := b]> (regs_of v)).
Proof.
  simpl. intros Hm Hn. eexists. split.
  - unfold with_auth_module. rewrite Hm. simpl. unfold on_auth, AuthMounts.add_auth_backend. by rewrite Hn.
  - reflexivity.
Qed.

Lemma auth_delete_leads name v :
  r_modules (regs_of v) = module_names →
  leads (with_auth_module (on_auth (AuthMounts.delete_auth_backend name))) v
        (map_auth (delete name) (regs_of v)).
Proof.
  simpl. intros Hm. eexists. split.
  - unfold with_auth_module. by rewrite Hm.
  - reflexivity.
Qed.

Lemma leads_ret v : leads (st_ret tt) v (regs_of v).
Proof. by exists v. Qed.

Lemma auth_setup_leads v : leads (on_auth AuthMounts.setup) v (regs_of v).
Proof. eexists. split; reflexivity. Qed.

Lemma setup_leads v ts n :
  regs_of v = closed_regs ts n → leads (ModuleManager.setup all_modules) v (setup_regs ts n).
Proof.
  intros Hr. unfold ModuleManager.setup, all_modules. cbn [ModuleManager.run_all].
  eapply leads_bind; [apply logical_setup_leads; by rewrite Hr|]. rewrite Hr. intros v1 Hr1.
  eapply leads_bind; [apply logical_setup_leads; by rewrite Hr1|]. rewrite Hr1. intros v2 Hr2.
  eapply leads_bind; [apply auth_setup_leads|]. rewrite Hr2. intros v3 Hr3.
  eapply leads_bind; [apply (leads_ret v3)|]. rewrite Hr3. intros v4 Hr4.
  eapply leads_bind; [apply logical_setup_leads; by rewrite Hr4|]. rewrite Hr4. intros v5 Hr5.
  eapply leads_bind; [apply auth_add_leads; by rewrite Hr5|]. rewrite Hr5. intros v6 Hr6.
  eapply leads_bind; [apply auth_add_leads; by rewrite Hr6|]. rewrite Hr6. intros v7 Hr7.
  eapply leads_bind; [apply auth_add_leads; by rewrite Hr7|]. rewrite Hr7. intros v8 Hr8.
  exists v8. split; [done|]. rewrite Hr8. reflexivity.
Qed.

Hypothesis Hrouter : handler_name router_handler = "core_router".
Hypothesis Htoken : forall ts, handler_name (token_handler ts) = "auth_token".

Lemma auth_cleanup_leads v ts :
  r_token_store (regs_of v) = Some ts → r_handlers (regs_of v) = [router_handler; token_handler ts] →
  leads (auth_cleanup token_handler) v
    (Regs (r_logical (regs_of v)) (delete "token" (r_auth (regs_of v))) [router_handler]
          (r_auth_handlers (regs_of v)) (Some ts) (r_policy_store (regs_of v))
          (r_modules (regs_of v)) (r_timers (regs_of v))).
Proof.
  simpl. intros Hts Hh. eexists. split.
  - unfold auth_cleanup. rewrite (st_bind_run _ _ _ v v) by done. rewrite Hts. reflexivity.
  - unfold regs_of. simpl. rewrite Hh, Hts. unfold Phases.delete_handler. simpl.
    by rewrite Hrouter, Htoken.
Qed.

Lemma policy_cleanup_leads v ps :
  r_policy_store (regs_of v) = ps → r_auth_handlers (regs_of v) = [policy_handler ps] →
  leads (policy_cleanup policy_handler) v
    (Regs (r_logical (regs_of v)) (r_auth (regs_of v)) (r_handlers (regs_of v)) []
          (r_token_store (regs_of v)) PolicyStore.default_store (r_modules (regs_of v)) (r_timers (regs_of v))).
Proof.
  simpl. intros <- Hh. eexists. split; [reflexivity|]. unfold regs_of. simpl. rewrite Hh.
  unfold AuthHandlers.delete_auth_handler. simpl. by rewrite String.eqb_refl.
Qed.

Lemma cleanup_leads v ts ps n :
  regs_of v = open_regs ts ps n →
  leads (ModuleManager.cleanup all_modules) v (closed_regs (Some ts) n).
Proof.
  intros Hr. unfold ModuleManager.cleanup, all_modules. cbn [ModuleManager.run_all].
  eapply leads_bind; [apply logical_cleanup_leads|]. rewrite Hr. intros v1 Hr1.
  eapply leads_bind; [apply logical_cleanup_leads|]. rewrite Hr1. intros v2 Hr2.
  eapply leads_bind; [apply (auth_cleanup_leads v2 ts); by rewrite Hr2|]. rewrite Hr2. intros v3 Hr3.
  eapply leads_bind; [apply (policy_cleanup_leads v3 ps); by rewrite Hr3|]. rewrite Hr3. intros v4 Hr4.
  eapply leads_bind; [apply logical_cleanup_leads|]. rewrite Hr4. intros v5 Hr5.
  eapply leads_bind; [apply auth_delete_leads; by rewrite Hr5|]. rewrite Hr5. intros v6 Hr6.
  eapply leads_bind; [apply auth_delete_leads; by rewrite Hr6|]. rewrite Hr6. intros v7 Hr7.
  eapply leads_bind; [apply auth_delete_leads; by rewrite Hr7|]. rewrite Hr7. intros v8 Hr8.
  exists v8. split; [done|]. rewrite Hr8. reflexivity.
Qed.

(** Sealing takes everything back, from any state with the registries of an
    open vault. *)
Lemma pre_seal_leads v ts ps n :
  regs_of v = open_regs ts ps n → leads (pre_seal all_modules) v (closed_regs (Some ts) n).
Proof.
  intros Hr. unfold pre_seal. eapply leads_bind; [by eapply cleanup_leads|]. intros v' Hr'.
  eexists. split; [reflexivity|]. exact Hr'.
Qed.

(** *** Initialisation of the modules *)
Lemma init_mounts_regs b s s' :
  AuthMounts.init_mounts b s = (s', Ok tt) →
  auth_regs s' = (<["token" := b]> (auth_backends s), core_regs (am_core s)).
Proof.
  unfold AuthMounts.init_mounts. intros H. inv_steps. injection Hstep0 as <- <-.
  pose proof (setup_auth_keeps c1) as Hk. rewrite H in Hk. simpl in Hk. rewrite Hk.
  pose proof (load_auth_keeps (Some (hmac_key (am_core c))) (mount_entry_hmac_level (am_core c)) c) as Hl.
  rewrite Hstep1 in Hl. simpl in Hl. rewrite Hl. unfold AuthMounts.add_auth_backend in Hstep.
  destruct (auth_backends s !! "token"); [done|]. by injection Hstep as <-.
Qed.

(** The last part of [auth_init], after the stores are set. *)
Definition auth_init_tail (ts : TokenStore) : m unit :=
  let! _ := on_auth (AuthMounts.init_mounts (token_backend ts)) in
  let! _ := on_stores (ExpirationManager.restore walk_fuel ts) in
  let! _ := (fun v => (set_timers (S (v_timers v)) v, Ok tt)) in
  add_handler (token_handler ts).

Lemma auth_init_tail_store ts : keeps v_token_store (auth_init_tail ts).
Proof.
  apply wiring_bind; [intros v; unfold on_auth; by destruct (AuthMounts.init_mounts _ _)|]. intros _.
  apply wiring_bind; [intros v; unfold on_stores; by destruct (ExpirationManager.restore _ _ _)|]. intros _.
  apply wiring_bind; [done|]. intros _ v. unfold add_handler. by destruct (Phases.add_handler _ _).
Qed.

Lemma auth_init_tail_ok ts0 ts v v' n :
  regs_of v = setup_regs ts n →
  auth_init_tail ts0 (set_stores (Some (expiration ts0)) (Some ts0) v) = (v', Ok tt) →
  regs_of v' =
    Regs core_backends (<["token" := token_backend ts0]> credential_backends)
         [router_handler; token_handler ts0] [] (Some ts0) PolicyStore.default_store module_names (S n).
Proof.
  intros Hr H. unfold auth_init_tail in H. inv_steps. unfold on_auth in Hstep.
  destruct (AuthMounts.init_mounts _ _) as [s' r] eqn:Hi. injection Hstep as <- ->. destruct a.
  apply init_mounts_regs in Hi. apply (quiet_run _ _ _ _ (quiet_on_stores _)) in Hstep0.
  injection Hstep1 as <- _. unfold add_handler, Phases.add_handler in H.
  unfold regs_of in Hr, Hstep0. simpl in Hr, Hstep0. injection Hr as Hl Ha Hh Hah Ht Hp Hm Hn.
  injection Hstep0 as Hl2 Ha2 Hh2 Hah2 Ht2 Hp2 Hm2 Hn2. injection Hi as Hi1 Hi2 _.
  simpl in H. rewrite Hh2, Hh in H. simpl in H. rewrite Hrouter, Htoken in H. simpl in H.
  injection H as <-. unfold regs_of. simpl. unfold v_core in *. simpl in *.
  f_equal; congruence.
Qed.

(** What [auth_init] leaves, whatever its outcome: without a token store it has
    done nothing to the registries. *)
Lemma auth_init_regs v v' r ts n :
  regs_of v = setup_regs ts n → auth_init token_backend token_handler walk_fuel v = (v', r) →
  (r = Ok tt → ∃ ts', regs_of v' =
     Regs core_backends (<["token" := token_backend ts']> credential_backends)
          [router_handler; token_handler ts'] [] (Some ts') PolicyStore.default_store module_names (S n)) ∧
  (ts = None → v_token_store v' = None → regs_of v' = setup_regs None n).
Proof.
  intros Hr H. unfold auth_init in H. rewrite (st_bind_run _ _ v v v) in H by done. cbv zeta in H.
  destruct (TokenStore.new_expiration _) as [em|e|]; [|by injection H as <- <-; split; [|intros ->]..].
  rewrite (st_bind_run _ _ _ v em) in H by done.
  set (v1 := fst (on_stores (λ w, (set_queue q_new w, Ok ())) v)).
  rewrite (st_bind_run _ _ _ v1 tt) in H by done.
  assert (regs_of v1 = setup_regs ts n) as Hr1 by (rewrite <- Hr; apply (quiet_on_stores _ v)).
  unfold st_bind at 1 in H.
  pose proof (quiet_on_stores (TokenStore.new (system_view (v_core v)) em) v1) as Hq. rewrite Hr1 in Hq.
  destruct (on_stores (TokenStore.new _ _) v1) as [v2 [ts2|e|]]; simpl in Hq;
    [|by injection H as <- <-; split; [|intros ->]..].
  set (ts' := TokenStore.set_token_store ts2) in *.
  rewrite (st_bind_run _ _ _ (set_stores (Some (expiration ts')) (Some ts') v2) tt) in H by done.
  change (auth_init_tail ts' (set_stores (Some (expiration ts')) (Some ts') v2) = (v', r)) in H.
  split.
  - intros ->. exists ts'. by apply (auth_init_tail_ok ts' ts v2).
  - intros _ Hn. pose proof (auth_init_tail_store ts' (set_stores (Some (expiration ts')) (Some ts') v2)) as Hs.
    rewrite H in Hs. simpl in Hs. congruence.
Qed.

(** *** The other modules *)
Lemma policy_init_regs v v' lb ab hs ts n :
  regs_of v = Regs lb ab hs [] ts PolicyStore.default_store module_names n →
  policy_init policy_handler walk_fuel v = (v', Ok tt) →
  ∃ ps, regs_of v' = Regs lb ab hs [policy_handler ps] ts ps module_names n.
Proof.
  intros Hr H. unfold policy_init in H. inv_steps. injection Hstep as <- <-.
  apply (quiet_run _ _ _ _ (quiet_on_stores _)) in Hstep0 as Hq. rewrite Hr in Hq.
  injection Hstep1 as <- _. apply (quiet_run _ _ _ _ (quiet_on_stores _)) in Hstep2 as Hq2.
  exists a0. unfold regs_of in Hq, Hq2. simpl in Hq, Hq2. injection Hq as ? ? ? Hah ? ? ? ?.
  injection Hq2 as ? ? ? Hah2 ? ? ? ?. unfold add_auth_handler, AuthHandlers.add_auth_handler in H.
  rewrite Hah2, Hah in H. simpl in H. injection H as <-. unfold regs_of. simpl. unfold v_core in *. simpl in *.
  f_equal; congruence.
Qed.

Lemma approle_init_quiet : quiet approle_init.
Proof.
  intros v. unfold approle_init. rewrite (st_bind_run _ _ _ v v) by done.
  destruct (system_view (v_core v)) as [sv|]; [|done].
  revert v. apply quiet_bind; [apply quiet_on_stores|]. by intros s v.
Qed.

(** Only the hooks of auth, policy and approle do anything. *)
Lemma init_all v :
  ModuleManager.init all_modules v =
  (let! _ := auth_init token_backend token_handler walk_fuel in
   let! _ := policy_init policy_handler walk_fuel in
   let! _ := approle_init in st_ret tt) v.
Proof. reflexivity. Qed.

Lemma init_ok_regs v v' ts n :
  regs_of v = setup_regs ts n → ModuleManager.init all_modules v = (v', Ok tt) →
  ∃ ts' ps, regs_of v' = open_regs ts' ps (S n).
Proof.
  intros Hr H. rewrite init_all in H. inv_steps. injection H as <-. destruct a, a0, a1.
  destruct (auth_init_regs v c (Ok tt) ts n Hr Hstep) as [Ha _].
  destruct (Ha eq_refl) as [ts' Hc]. eapply policy_init_regs in Hstep0 as [ps Hps]; [|exact Hc].
  apply (quiet_run _ _ _ _ approle_init_quiet) in Hstep1. exists ts', ps. by rewrite Hstep1.
Qed.

Lemma policy_init_store : keeps (v_token_store (B := B) (T := T) (Q := Q) (C := C)) (policy_init policy_handler walk_fuel).
Proof.
  apply wiring_bind; [done|]. intros v.
  apply wiring_bind; [intros w; unfold on_stores; by destruct (PolicyStore.new _ _ _)|]. intros ps.
  apply wiring_bind; [done|]. intros _.
  apply wiring_bind; [intros w; unfold on_stores; by destruct (PolicyStore.load_default_acl_policy _ _)|].
  intros _ w. unfold add_auth_handler. by destruct (AuthHandlers.add_auth_handler _ _).
Qed.

Lemma approle_init_store : keeps (v_token_store (B := B) (T := T) (Q := Q) (C := C)) approle_init.
Proof. intros v. pose proof (approle_init_quiet v) as H. by injection H. Qed.

(** A failure that leaves no token store happened before the modules' [init]
    changed anything. *)
Lemma init_failed_regs v v' r n :
  regs_of v = setup_regs None n → ModuleManager.init all_modules v = (v', r) →
  v_token_store v' = None → regs_of v' = setup_regs None n.
Proof.
  intros Hr H Hn. rewrite init_all in H. unfold st_bind at 1 in H.
  destruct (auth_init token_backend token_handler walk_fuel v) as [v1 r1] eqn:Ha.
  destruct (auth_init_regs v v1 r1 None n Hr Ha) as [Hok Hfail].
  destruct r1 as [[]|e|]; [|injection H as <- <-; by apply Hfail..].
  destruct (Hok eq_refl) as [ts' Hts]. exfalso.
  assert (keeps (v_token_store (B := B) (T := T) (Q := Q) (C := C)) (let! _ := policy_init policy_handler walk_fuel in
                               let! _ := approle_init in st_ret tt)) as Hk.
  { apply wiring_bind; [apply policy_init_store|]. intros _.
    apply wiring_bind; [apply approle_init_store|done]. }
  specialize (Hk v1). rewrite H in Hk. simpl in Hk. injection Hts as ? ? ? ? Hs ? ? ?. congruence.
Qed.

(** ** The vault over its openings and closings *)
Lemma config_leads level b w :
  ∃ v0, config kv_backend system_backend pki_backend userpass_backend approle_backend cert_backend
          token_backend token_handler policy_handler walk_fuel level (start router_handler b w)
        = (v0, Ok all_modules) ∧
        regs_of v0 = closed_regs None 0.
Proof. destruct level; eexists; split; reflexivity. Qed.

(** C24: the registries follow the seal.  A configured vault has the eight
    modules and no registration but the router's; after a successful unsealing
    the registries hold exactly the backends of kv, system and pki, the
    credential backends with that of the token store, the token store as a
    handler after the router and the policy store as the handler of
    authentication; and from any state with these registries the hooks of
    sealing all succeed and take every registration back, so that the vault can
    be unsealed again (the one trace left is the thread of the expiration
    manager, one more with each opening). *)
Theorem registries_follow_seal (level : option MountEntryHMACLevel) (b : AESGCMBarrier.t B) (w : world) :
  (∃ v0, config kv_backend system_backend pki_backend userpass_backend approle_backend cert_backend
           token_backend token_handler policy_handler walk_fuel level (start router_handler b w)
         = (v0, Ok all_modules) ∧
         regs_of v0 = closed_regs None 0) ∧
  (∀ v1 v2 ts n, regs_of v1 = closed_regs ts n → post_unseal all_modules v1 = (v2, Ok tt) →
     ∃ ts' ps, regs_of v2 = open_regs ts' ps (S n)) ∧
  (∀ v2 ts ps n, regs_of v2 = open_regs ts ps n →
     ∃ v3, pre_seal all_modules v2 = (v3, Ok tt) ∧ regs_of v3 = closed_regs (Some ts) n).
Proof.
  split_and!.
  - apply config_leads.
  - intros v1 v2 ts n Hr H. unfold post_unseal in H.
    destruct (setup_leads v1 ts n Hr) as (v1' & Hs & Hr'). rewrite (st_bind_run _ _ _ _ _ Hs) in H.
    inv_steps. apply (quiet_run _ _ _ _ core_mounts_quiet) in Hstep. rewrite Hr' in Hstep.
    eapply init_ok_regs; [exact Hstep|exact H].
  - intros v2 ts ps n Hr. by eapply pre_seal_leads.
Qed.

(** *** The flag [sealed] of the core *)
Definition flag (v : vault) : bool := core_sealed (v_core v).

Definition core_flag (c : core) : bool := core_sealed c.
Definition auth_flag (s : AuthModule B T world) : bool := core_sealed (am_core s).

Lemma flag_on_core {A} (f : st core RvError A) : keeps core_flag f → keeps flag (on_core f).
Proof. intros Hf v. unfold on_core. specialize (Hf (v_core v)). by destruct (f (v_core v)) as [c r]. Qed.

Lemma flag_on_auth {A} (f : st (AuthModule B T world) RvError A) : keeps auth_flag f → keeps flag (on_auth f).
Proof. intros Hf v. unfold on_auth. specialize (Hf (v_auth v)). by destruct (f (v_auth v)) as [c r]. Qed.

Lemma flag_on_stores {A} (f : st world RvError A) : keeps flag (on_stores f).
Proof. intros v. unfold on_stores. by destruct (f _). Qed.

Lemma flag_run_all hook (ms : list (VaultModule vault)) :
  (∀ x, x ∈ ms → keeps flag (hook x)) → keeps flag (ModuleManager.run_all hook ms).
Proof.
  induction ms as [|x ms IH]; intros Hh; [done|]. cbn [ModuleManager.run_all].
  apply wiring_bind; [apply Hh, list_elem_of_here|]. intros _. apply IH. intros y Hy. by apply Hh, list_elem_of_further.
Qed.

Lemma core_keeps_flag {A} (f : st core RvError A) : keeps core_regs f → keeps core_flag f.
Proof. intros Hf s. specialize (Hf s). by injection Hf. Qed.

Lemma auth_keeps_flag {A} (f : st (AuthModule B T world) RvError A) : keeps auth_regs f → keeps auth_flag f.
Proof. intros Hf s. specialize (Hf s). by injection Hf. Qed.

Lemma add_auth_flag name b : keeps auth_flag (AuthMounts.add_auth_backend name b).
Proof. intros s. unfold AuthMounts.add_auth_backend. by destruct (auth_backends s !! name). Qed.

Lemma init_mounts_flag b : keeps auth_flag (AuthMounts.init_mounts b).
Proof.
  unfold AuthMounts.init_mounts. apply wiring_bind; [apply add_auth_flag|]. intros _.
  apply wiring_bind; [done|]. intros s. apply wiring_bind; [apply auth_keeps_flag, load_auth_keeps|]. intros _.
  apply auth_keeps_flag, setup_auth_keeps.
Qed.

Lemma logical_setup_flag name b : keeps flag (module_setup (logical_module name b)).
Proof.
  apply flag_on_core. intros c. unfold CoreOps.add_logical_backend. by destruct (logical_backends c !! name).
Qed.

Lemma credential_setup_flag name b : keeps flag (with_auth_module (on_auth (AuthMounts.add_auth_backend name b))).
Proof.
  intros v. unfold with_auth_module. destruct (existsb _ _); [|done]. apply flag_on_auth, add_auth_flag.
Qed.

Lemma setup_flag : keeps flag (ModuleManager.setup all_modules).
Proof.
  apply flag_run_all. intros x Hx. unfold all_modules in Hx. rewrite !elem_of_cons, elem_of_nil in Hx.
  destruct_or! Hx; try done; subst x; first [apply logical_setup_flag | apply credential_setup_flag | idtac].
  - by apply flag_on_auth.
  - done.
Qed.

Lemma core_mounts_flag : keeps flag core_mounts.
Proof.
  unfold core_mounts. apply wiring_bind; [apply flag_on_core, core_keeps_flag, derive_keeps|]. intros _.
  apply wiring_bind; [apply flag_on_core, core_keeps_flag, load_mounts_keeps|]. intros _.
  apply flag_on_core, core_keeps_flag, setup_mounts_keeps.
Qed.

Lemma init_flag : keeps flag (ModuleManager.init all_modules).
Proof.
  intros v. rewrite init_all. revert v. apply wiring_bind; [|intros _; apply wiring_bind; [|intros _; apply wiring_bind; [|done]]].
  - unfold auth_init. apply wiring_bind; [done|]. intros v. apply wiring_bind; [done|]. intros em.
    apply wiring_bind; [apply flag_on_stores|]. intros _. apply wiring_bind; [apply flag_on_stores|]. intros ts.
    apply wiring_bind; [done|]. intros _. apply wiring_bind; [apply flag_on_auth, init_mounts_flag|]. intros _.
    apply wiring_bind; [apply flag_on_stores|]. intros _. apply wiring_bind; [done|]. intros _ v'.
    unfold add_handler. by destruct (Phases.add_handler _ _).
  - unfold policy_init. apply wiring_bind; [done|]. intros v. apply wiring_bind; [apply flag_on_stores|]. intros ps.
    apply wiring_bind; [done|]. intros _. apply wiring_bind; [apply flag_on_stores|]. intros _ v'.
    unfold add_auth_handler. by destruct (AuthHandlers.add_auth_handler _ _).
  - intros v. unfold approle_init. rewrite (st_bind_run _ _ _ v v) by done.
    destruct (system_view (v_core v)) as [sv|]; [|done]. revert v.
    apply wiring_bind; [apply flag_on_stores|]. by intros s v.
Qed.

Lemma post_unseal_flag : keeps flag (post_unseal all_modules).
Proof.
  unfold post_unseal. apply wiring_bind; [apply setup_flag|]. intros _.
  apply wiring_bind; [apply core_mounts_flag|]. intros _. apply init_flag.
Qed.

(** *** An unsealing that fails *)
Lemma on_core_read {A} (f : st core RvError A) v r : f (v_core v) = (v_core v, r) → on_core f v = (v, r).
Proof. intros Hf. unfold on_core. rewrite Hf. unfold v_core. by destruct v as [[[]]]. Qed.

Lemma on_core_guard b e (v : vault) : on_core (CoreMounts.guard b e) v = (v, if b then Err e else Ok tt).
Proof. apply on_core_read. by destruct b. Qed.

Section failing.
Context `{HSC : Serde SealConfig}.

(** A share that opens the barrier of a sealed vault without unsealing the
    vault fails in [post_unseal]. *)
Lemma failed_unseal_inv key v v1 e :
  CoreOps.barrier_sealed (v_core v) = true → unseal all_modules key v = (v1, Err e) →
  CoreOps.barrier_sealed (v_core v1) = false →
  ∃ v', regs_of v' = regs_of v ∧ flag v' = flag v ∧ post_unseal all_modules v' = (v1, Err e).
Proof.
  intros Hb H Hopen. assert (∀ w x, (w, x) = (v1, Err e : result bool) → CoreOps.barrier_sealed (v_core w) = true → False) as Hstop.
  { intros w x [= -> _]. congruence. }
  unfold unseal in H.
  unfold st_bind at 1 in H. rewrite (on_core_read CoreOps.inited v (AESGCMBarrier.inited (barrier (v_core v)))) in H by done.
  destruct (AESGCMBarrier.inited _) as [already|e'|]; [|by destruct (Hstop _ _ H)..].
  unfold st_bind at 1 in H. rewrite on_core_guard in H. destruct (negb already); [by destruct (Hstop _ _ H)|].
  rewrite (st_bind_run _ _ v v v) in H by done.
  unfold st_bind at 1 in H. rewrite on_core_guard, Hb in H. simpl negb in H. cbv iota in H.
  unfold AESGCMBarrier.key_length_range in H. unfold st_bind at 1 in H. rewrite on_core_guard in H.
  destruct (_ || _)%bool; [by destruct (Hstop _ _ H)|].
  unfold st_bind at 1 in H.
  rewrite (on_core_read CoreOps.seal_config v (snd (CoreOps.seal_config (v_core v)))) in H by done.
  destruct (snd (CoreOps.seal_config (v_core v))) as [config|e'|]; [|by destruct (Hstop _ _ H)..].
  destruct (existsb _ _); [done|].
  unfold st_bind at 1 in H. unfold on_core at 1 in H. cbv zeta beta iota in H.
  set (v2 := set_auth _ v) in H. destruct (_ <? _)%nat; [done|].
  unfold st_bind at 1 in H. unfold on_core at 1 in H.
  assert (∃ ks r, CoreOps.recover_master_key config (v_core v2) = (set_unseal_key_shares ks (v_core v2), r)) as (ks & r & Hrec).
  { unfold CoreOps.recover_master_key. assert (set_unseal_key_shares (unseal_key_shares (v_core v2)) (v_core v2) = v_core v2)
      as <- by (by destruct (v_core v2)). destruct (_ =? 1)%nat.
    - destruct (unseal_key_shares _); eauto.
    - destruct (ShamirSecret.combine _) as [[k|]|e'|]; eauto. }
  rewrite Hrec in H. destruct r as [mk|e'|]; [|by destruct (Hstop _ _ H)..].
  unfold st_bind at 1 in H. unfold on_core at 1, CoreMounts.with_barrier in H. cbn -[AESGCMBarrier.unseal] in H.
  destruct (AESGCMBarrier.unseal mk _) as [b r] eqn:Hu.
  apply Life.barrier_unseal_cases in Hu as [_ Ho]; [|exact Hb].
  destruct r as [[]|e'|]; [|by destruct (Hstop _ _ H)..].
  unfold st_bind at 1 in H. match type of H with context [post_unseal _ ?x] => exists x; set (v3 := x) in * end.
  split_and!; [done|done|]. destruct (post_unseal all_modules v3) as [v4 [[]|e'|]]; [done| |done].
  by injection H as -> ->.
Qed.
Lemma failed_post_unseal_regs v v1 e n :
  regs_of v = closed_regs None n → post_unseal all_modules v = (v1, Err e) → v_token_store v1 = None →
  regs_of v1 = setup_regs None n.
Proof.
  intros Hr H Hn. destruct (setup_leads v None n Hr) as (v' & Hs & Hr'). unfold post_unseal in H.
  rewrite (st_bind_run _ _ _ _ _ Hs) in H. unfold st_bind in H.
  destruct (core_mounts v') as [v2 [[]|e'|]] eqn:Hc;
    apply (quiet_run _ _ _ _ core_mounts_quiet) in Hc; rewrite Hr' in Hc.
  - eapply init_failed_regs; [exact Hc|exact H|exact Hn].
  - by injection H as <- <-.
  - done.
Qed.

Lemma cleanup_without_store v : v_token_store v = None → ∃ v', pre_seal all_modules v = (v', Panic).
Proof.
  intros Ht. eexists. unfold pre_seal, ModuleManager.cleanup, all_modules. cbn [ModuleManager.run_all].
  unfold st_bind. simpl. unfold auth_cleanup, st_bind. simpl. by rewrite Ht.
Qed.

(** C25: a share that opens the barrier while the setup after it fails before the
    token store exists (for instance because the table of mounts cannot be
    read) wedges the running process, as long as the record of the barrier is
    there: every further share is refused without effect because the barrier is
    open, sealing panics in the auth module, and every request is refused
    because the core still counts as sealed. *)
Theorem failed_unseal_wedges (v v1 : vault) (key : bytes) (e : RvError) (n : nat) :
  regs_of v = closed_regs None n → CoreOps.barrier_sealed (v_core v) = true → core_sealed (v_core v) = true →
  unseal all_modules key v = (v1, Err e) → CoreOps.barrier_sealed (v_core v1) = false →
  v_token_store v1 = None → AESGCMBarrier.inited (barrier (v_core v1)) = Ok true →
  (∀ key', unseal all_modules key' v1 = (v1, Err ErrBarrierUnsealed)) ∧
  (∃ v2, seal all_modules v1 = (v2, Panic)) ∧
  (∀ bound handlers s,
     Phases.handle_request (W := world) bound (core_sealed (v_core v1)) handlers s = (s, Err ErrBarrierSealed)) ∧
  r_logical (regs_of v1) = core_backends.
Proof.
  intros Hr Hb Hs H Hopen Hn Hi.
  destruct (failed_unseal_inv key v v1 e Hb H Hopen) as (v' & Hr' & Hf & Hpost).
  assert (core_sealed (v_core v1) = true) as Hsealed.
  { pose proof (post_unseal_flag v') as Hk. rewrite Hpost in Hk. unfold flag in *. simpl in Hk. congruence. }
  rewrite Hr in Hr'. pose proof (failed_post_unseal_regs v' v1 e n Hr' Hpost Hn) as Hr1.
  assert (∀ A (k : bool → m A), st_bind (on_core CoreOps.inited) k v1 = k true v1) as Hinit.
  { intros A k. by rewrite (st_bind_run _ _ _ v1 true) by (by apply on_core_read; rewrite <- Hi). }
  split_and!.
  - intros key'. unfold unseal. rewrite Hinit. rewrite (st_bind_run _ _ v1 v1 tt) by (by rewrite on_core_guard).
    rewrite (st_bind_run _ _ v1 v1 v1) by done. apply st_bind_err. by rewrite on_core_guard, Hopen.
  - destruct (cleanup_without_store v1 Hn) as [v2 Hp]. exists v2. unfold seal. rewrite Hinit.
    rewrite (st_bind_run _ _ v1 v1 tt) by (by rewrite on_core_guard). rewrite (st_bind_run _ _ v1 v1 v1) by done.
    rewrite (st_bind_run _ _ v1 v1 tt) by (by rewrite on_core_guard, Hopen). by apply st_bind_panic.
  - intros bound handlers s. by rewrite Hsealed.
  - by rewrite Hr1.
Qed.
End failing.

End wiring.

(** *** Witnesses: the modules over the in-memory backend *)
#[local] Existing Instance toy_gcm.
#[local] Existing Instance demo_rng.
#[local] Existing Instance demo_serde.
#[local] Existing Instance demo_hmac.
#[local] Existing Instance lower_hex.
#[local] Existing Instance toy_sha1.
#[local] Existing Instance demo_uuid.
#[local] Existing Instance demo_table_serde.
#[local] Existing Instance demo_config_serde.
#[local] Existing Instance lease_list.
#[local] Existing Instance policy_map.
#[local] Existing Instance demo_clock.
#[local] Existing Instance blank_lease_serde.
#[local] Existing Instance no_old_lease_serde.
#[local] Existing Instance policy_serde.
#[local] Existing Instance empty_hcl.
#[local] Instance same_digest : Sha256 := fun l => l.

Definition idle_backend : DynBackend DemoWorld :=
  {| get_unauth_paths := None; get_root_paths := None;
     backend_handle_request := fun s => (s, Ok None) |}.

Definition named_handler (n : string) : Handler DemoWorld :=
  {| handler_name := n; pre_route := st_fail ErrHandlerDefault; route := st_fail ErrHandlerDefault;
     post_route := st_fail ErrHandlerDefault; log_ := fun _ _ => st_fail ErrHandlerDefault |}.

Definition policy_handler_ (ps : PolicyStore) : AuthHandler DemoWorld :=
  {| auth_handler_name := "policy_store"; pre_auth := st_fail ErrHandlerDefault;
     post_auth := st_fail ErrHandlerDefault |}.

(** A vault with its barrier just opened. *)
Definition wired_open : Vault MemBackend.t (gmap string) LeaseList (gmap string Policy) :=
  Wiring.start (named_handler "core_router") (fst (AESGCMBarrier.unseal demo_master demo_init_barrier)) demo_world.

Definition wired_config :=
  Wiring.config (Ok idle_backend) (Ok idle_backend) (Ok idle_backend) (Ok idle_backend) (Ok idle_backend)
    (Ok idle_backend) (λ _, Ok idle_backend) (λ _, named_handler "auth_token") policy_handler_ 20 None.

Definition wired_modules : list (VaultModule (Vault MemBackend.t (gmap string) LeaseList (gmap string Policy))) :=
  all_modules (Ok idle_backend) (Ok idle_backend) (Ok idle_backend) (Ok idle_backend) (Ok idle_backend)
    (Ok idle_backend) (λ _, Ok idle_backend) (λ _, named_handler "auth_token") policy_handler_ 20.

(** A sealed vault with an unreadable table of mounts, opened by one share. *)
Definition one_share : SealConfig := {| secret_shares := x01; secret_threshold := x01 |}.

Definition wired_garbled : Vault MemBackend.t (gmap string) LeaseList (gmap string Policy) :=
  Wiring.start (named_handler "core_router")
    (AESGCMBarrier.set_backend demo_init_barrier
       (<[CORE_MOUNT_CONFIG_PATH := [x01; x02; x03; x04; x05]]>
          (<[SEAL_CONFIG_PATH := default [] (ser one_share)]>
             (AESGCMBarrier.backend demo_init_barrier : MemBackend.t))))
    demo_world.

Lemma wired_runs : snd (Wiring.post_unseal wired_modules (fst (wired_config wired_open))) = Ok tt.
Proof. vm_compute. reflexivity. Qed.

Lemma garbled_fails :
  snd (Wiring.unseal wired_modules demo_master (fst (wired_config wired_garbled))) = Err ErrBarrierEpochMismatch.
Proof. vm_compute. reflexivity. Qed.

Lemma registries_follow_seal_witness :
  let v0 := fst (wired_config wired_open) in
  let v1 := fst (Wiring.post_unseal wired_modules v0) in
  map handler_name (v_handlers v1) = ["core_router"; "auth_token"] ∧
  ∃ v2, Wiring.pre_seal wired_modules v1 = (v2, Ok tt).
Proof.
  intros v0 v1.
  destruct (registries_follow_seal (B := MemBackend.t) (T := gmap string) (Ok idle_backend) (Ok idle_backend) (Ok idle_backend)
    (Ok idle_backend) (Ok idle_backend) (Ok idle_backend) (λ _, Ok idle_backend) (named_handler "core_router")
    (λ _, named_handler "auth_token") policy_handler_ 20 eq_refl (λ _, eq_refl) None
    (fst (AESGCMBarrier.unseal demo_master demo_init_barrier)) demo_world)
    as (Hconf & Hopen & Hclose).
  - destruct Hconf as (v & Hv & Hr).
    assert (v = v0) as -> by exact (eq_sym (f_equal fst Hv)).
    destruct (Hopen v0 v1 None 0%nat Hr) as (ts & ps & Hr1).
    { exact (pair_of_snd (Wiring.post_unseal wired_modules v0) (Ok tt) wired_runs). }
    split; [exact (f_equal (λ r, map handler_name (r_handlers r)) Hr1)|].
    destruct (Hclose v1 ts ps 1%nat Hr1) as (v2 & Hv2 & _). by exists v2.
Defined.

Lemma failed_unseal_wedges_witness :
  let v0 := fst (wired_config wired_garbled) in
  let v1 := fst (Wiring.unseal wired_modules demo_master v0) in
  snd (Wiring.unseal wired_modules demo_master v0) = Err ErrBarrierEpochMismatch ∧
  Wiring.unseal wired_modules demo_master v1 = (v1, Err ErrBarrierUnsealed).
Proof.
  intros v0 v1. split; [exact garbled_fails|].
  apply (failed_unseal_wedges (B := MemBackend.t) (T := gmap string) (Ok idle_backend) (Ok idle_backend) (Ok idle_backend)
    (Ok idle_backend) (Ok idle_backend) (Ok idle_backend) (λ _, Ok idle_backend) (named_handler "core_router")
    (λ _, named_handler "auth_token") policy_handler_ 20 eq_refl (λ _, eq_refl) v0 v1 demo_master
    ErrBarrierEpochMismatch 0%nat).
  - reflexivity.
  - vm_compute. reflexivity.
  - reflexivity.
  - exact (pair_of_snd (Wiring.unseal wired_modules demo_master v0) (Err ErrBarrierEpochMismatch) garbled_fails).
  - vm_compute. reflexivity.
  - vm_compute. reflexivity.
  - vm_compute. reflexivity.
Defined.
