(* ===== verification/AppRole.v ===== *)
(** * The AppRole credential
    (src/src/modules/credential/approle/: mod.rs, validation.rs, path_role.rs,
    path_login.rs, path_tidy_secret_id.rs)

    Roles are stored under [role/<name>], indexed by the salted hash of their
    role id; secret ids under the HMACs of the role name and of the secret id,
    indexed by the salted hash of their accessor.  Each handler takes at most
    one lock of each of the four lock sets at a time and holds it to its end or
    to the switch from reading to writing, so a handler is one sequential run
    here and locks do not appear. *)

From stdpp Require Import base tactics list gmap strings pretty.
From Stdlib Require Import ZArith Lia Ascii.
From S2P Require Import Prelude Errors RustStr Utils Lease Storage BarrierView Logical LogicalBackend Policy Mount World WorldLaws TokenStore Cidr StoredJson TokenUtil UserPass Salt.

Local Open Scope string_scope.

(** [Display] of errors. *)
Class ErrorText : Type := error_text : RvError -> string.

Record RoleEntry := {
  re_name : string;
  re_role_id : string;
  re_hmac_key : string;
  re_policies : list string;
  re_lower_case_role_name : bool;
  re_bind_secret_id : bool;
  re_secret_id_num_uses : Z;
  re_secret_id_prefix : string;
  re_bound_cidr_list_old : string;
  re_bound_cidr_list : list string;
  re_secret_id_bound_cidrs : list string;
  re_secret_id_ttl : Duration;
  re_period : Duration;
  re_token_params : TokenParams
}.

Definition re_set_name (x : string) (r : RoleEntry) : RoleEntry :=
  {| re_name := x; re_role_id := re_role_id r; re_hmac_key := re_hmac_key r; re_policies := re_policies
     r; re_lower_case_role_name := re_lower_case_role_name r; re_bind_secret_id := re_bind_secret_id r;
     re_secret_id_num_uses := re_secret_id_num_uses r; re_secret_id_prefix := re_secret_id_prefix r;
     re_bound_cidr_list_old := re_bound_cidr_list_old r; re_bound_cidr_list := re_bound_cidr_list r;
     re_secret_id_bound_cidrs := re_secret_id_bound_cidrs r; re_secret_id_ttl := re_secret_id_ttl r;
     re_period := re_period r; re_token_params := re_token_params r |}.
Definition re_set_role_id (x : string) (r : RoleEntry) : RoleEntry :=
  {| re_name := re_name r; re_role_id := x; re_hmac_key := re_hmac_key r; re_policies := re_policies r;
     re_lower_case_role_name := re_lower_case_role_name r; re_bind_secret_id := re_bind_secret_id r;
     re_secret_id_num_uses := re_secret_id_num_uses r; re_secret_id_prefix := re_secret_id_prefix r;
     re_bound_cidr_list_old := re_bound_cidr_list_old r; re_bound_cidr_list := re_bound_cidr_list r;
     re_secret_id_bound_cidrs := re_secret_id_bound_cidrs r; re_secret_id_ttl := re_secret_id_ttl r;
     re_period := re_period r; re_token_params := re_token_params r |}.
Definition re_set_policies (x : list string) (r : RoleEntry) : RoleEntry :=
  {| re_name := re_name r; re_role_id := re_role_id r; re_hmac_key := re_hmac_key r; re_policies := x;
     re_lower_case_role_name := re_lower_case_role_name r; re_bind_secret_id := re_bind_secret_id r;
     re_secret_id_num_uses := re_secret_id_num_uses r; re_secret_id_prefix := re_secret_id_prefix r;
     re_bound_cidr_list_old := re_bound_cidr_list_old r; re_bound_cidr_list := re_bound_cidr_list r;
     re_secret_id_bound_cidrs := re_secret_id_bound_cidrs r; re_secret_id_ttl := re_secret_id_ttl r;
     re_period := re_period r; re_token_params := re_token_params r |}.
Definition re_set_bind_secret_id (x : bool) (r : RoleEntry) : RoleEntry :=
  {| re_name := re_name r; re_role_id := re_role_id r; re_hmac_key := re_hmac_key r; re_policies :=
     re_policies r; re_lower_case_role_name := re_lower_case_role_name r; re_bind_secret_id := x;
     re_secret_id_num_uses := re_secret_id_num_uses r; re_secret_id_prefix := re_secret_id_prefix r;
     re_bound_cidr_list_old := re_bound_cidr_list_old r; re_bound_cidr_list := re_bound_cidr_list r;
     re_secret_id_bound_cidrs := re_secret_id_bound_cidrs r; re_secret_id_ttl := re_secret_id_ttl r;
     re_period := re_period r; re_token_params := re_token_params r |}.
Definition re_set_secret_id_num_uses (x : Z) (r : RoleEntry) : RoleEntry :=
  {| re_name := re_name r; re_role_id := re_role_id r; re_hmac_key := re_hmac_key r; re_policies :=
     re_policies r; re_lower_case_role_name := re_lower_case_role_name r; re_bind_secret_id :=
     re_bind_secret_id r; re_secret_id_num_uses := x; re_secret_id_prefix := re_secret_id_prefix r;
     re_bound_cidr_list_old := re_bound_cidr_list_old r; re_bound_cidr_list := re_bound_cidr_list r;
     re_secret_id_bound_cidrs := re_secret_id_bound_cidrs r; re_secret_id_ttl := re_secret_id_ttl r;
     re_period := re_period r; re_token_params := re_token_params r |}.
Definition re_set_secret_id_prefix (x : string) (r : RoleEntry) : RoleEntry :=
  {| re_name := re_name r; re_role_id := re_role_id r; re_hmac_key := re_hmac_key r; re_policies :=
     re_policies r; re_lower_case_role_name := re_lower_case_role_name r; re_bind_secret_id :=
     re_bind_secret_id r; re_secret_id_num_uses := re_secret_id_num_uses r; re_secret_id_prefix := x;
     re_bound_cidr_list_old := re_bound_cidr_list_old r; re_bound_cidr_list := re_bound_cidr_list r;
     re_secret_id_bound_cidrs := re_secret_id_bound_cidrs r; re_secret_id_ttl := re_secret_id_ttl r;
     re_period := re_period r; re_token_params := re_token_params r |}.
Definition re_set_bound_cidr_list_old (x : string) (r : RoleEntry) : RoleEntry :=
  {| re_name := re_name r; re_role_id := re_role_id r; re_hmac_key := re_hmac_key r; re_policies :=
     re_policies r; re_lower_case_role_name := re_lower_case_role_name r; re_bind_secret_id :=
     re_bind_secret_id r; re_secret_id_num_uses := re_secret_id_num_uses r; re_secret_id_prefix :=
     re_secret_id_prefix r; re_bound_cidr_list_old := x; re_bound_cidr_list := re_bound_cidr_list r;
     re_secret_id_bound_cidrs := re_secret_id_bound_cidrs r; re_secret_id_ttl := re_secret_id_ttl r;
     re_period := re_period r; re_token_params := re_token_params r |}.
Definition re_set_bound_cidr_list (x : list string) (r : RoleEntry) : RoleEntry :=
  {| re_name := re_name r; re_role_id := re_role_id r; re_hmac_key := re_hmac_key r; re_policies :=
     re_policies r; re_lower_case_role_name := re_lower_case_role_name r; re_bind_secret_id :=
     re_bind_secret_id r; re_secret_id_num_uses := re_secret_id_num_uses r; re_secret_id_prefix :=
     re_secret_id_prefix r; re_bound_cidr_list_old := re_bound_cidr_list_old r; re_bound_cidr_list := x;
     re_secret_id_bound_cidrs := re_secret_id_bound_cidrs r; re_secret_id_ttl := re_secret_id_ttl r;
     re_period := re_period r; re_token_params := re_token_params r |}.
Definition re_set_secret_id_bound_cidrs (x : list string) (r : RoleEntry) : RoleEntry :=
  {| re_name := re_name r; re_role_id := re_role_id r; re_hmac_key := re_hmac_key r; re_policies :=
     re_policies r; re_lower_case_role_name := re_lower_case_role_name r; re_bind_secret_id :=
     re_bind_secret_id r; re_secret_id_num_uses := re_secret_id_num_uses r; re_secret_id_prefix :=
     re_secret_id_prefix r; re_bound_cidr_list_old := re_bound_cidr_list_old r; re_bound_cidr_list :=
     re_bound_cidr_list r; re_secret_id_bound_cidrs := x; re_secret_id_ttl := re_secret_id_ttl r;
     re_period := re_period r; re_token_params := re_token_params r |}.
Definition re_set_secret_id_ttl (x : Duration) (r : RoleEntry) : RoleEntry :=
  {| re_name := re_name r; re_role_id := re_role_id r; re_hmac_key := re_hmac_key r; re_policies :=
     re_policies r; re_lower_case_role_name := re_lower_case_role_name r; re_bind_secret_id :=
     re_bind_secret_id r; re_secret_id_num_uses := re_secret_id_num_uses r; re_secret_id_prefix :=
     re_secret_id_prefix r; re_bound_cidr_list_old := re_bound_cidr_list_old r; re_bound_cidr_list :=
     re_bound_cidr_list r; re_secret_id_bound_cidrs := re_secret_id_bound_cidrs r; re_secret_id_ttl := x;
     re_period := re_period r; re_token_params := re_token_params r |}.
Definition re_set_period (x : Duration) (r : RoleEntry) : RoleEntry :=
  {| re_name := re_name r; re_role_id := re_role_id r; re_hmac_key := re_hmac_key r; re_policies :=
     re_policies r; re_lower_case_role_name := re_lower_case_role_name r; re_bind_secret_id :=
     re_bind_secret_id r; re_secret_id_num_uses := re_secret_id_num_uses r; re_secret_id_prefix :=
     re_secret_id_prefix r; re_bound_cidr_list_old := re_bound_cidr_list_old r; re_bound_cidr_list :=
     re_bound_cidr_list r; re_secret_id_bound_cidrs := re_secret_id_bound_cidrs r; re_secret_id_ttl :=
     re_secret_id_ttl r; re_period := x; re_token_params := re_token_params r |}.
Definition re_set_token_params (x : TokenParams) (r : RoleEntry) : RoleEntry :=
  {| re_name := re_name r; re_role_id := re_role_id r; re_hmac_key := re_hmac_key r; re_policies :=
     re_policies r; re_lower_case_role_name := re_lower_case_role_name r; re_bind_secret_id :=
     re_bind_secret_id r; re_secret_id_num_uses := re_secret_id_num_uses r; re_secret_id_prefix :=
     re_secret_id_prefix r; re_bound_cidr_list_old := re_bound_cidr_list_old r; re_bound_cidr_list :=
     re_bound_cidr_list r; re_secret_id_bound_cidrs := re_secret_id_bound_cidrs r; re_secret_id_ttl :=
     re_secret_id_ttl r; re_period := re_period r; re_token_params := x |}.

Record RoleIdEntry := { rie_name : string }.

Record SecretIdStorageEntry := {
  se_accessor : string;
  se_num_uses : Z;
  se_ttl : Duration;
  se_creation_time : SystemTime;
  se_expiration_time : SystemTime;
  se_last_updated_time : SystemTime;
  se_metadata : gmap string string;
  se_cidr_list : list string;
  se_token_cidr_list : list string
}.

Record SecretIdAccessorStorageEntry := { sa_secret_id_hmac : string }.

(** The state of [AppRoleBackendInner] besides its locks. *)
Record AppRole := { ar_salt : option Salt }.

Module AppRole.

Definition HMAC_INPUT_LEN_MAX : nat := 4096.
Definition MAX_HMAC_INPUT_LENGTH : nat := 4096.
Definition SECRET_ID_PREFIX : string := "secret_id/".
Definition SECRET_ID_LOCAL_PREFIX : string := "secret_id_local/".
Definition SECRET_ID_ACCESSOR_PREFIX : string := "accessor/".
Definition SECRET_ID_ACCESSOR_LOCAL_PREFIX : string := "accessor_local/".

Definition APPROLE_BACKEND_HELP : string := "
Any registered Role can authenticate itself with RustyVault. The credentials
depends on the constraints that are set on the Role. One common required
credential is the 'role_id' which is a unique identifier of the Role.
It can be retrieved from the 'role/<appname>/role-id' endpoint.

The default constraint configuration is 'bind_secret_id', which requires
the credential 'secret_id' to be presented during login. Refer to the
documentation for other types of constraints.`
".

(** The error with a text for the client. *)
Definition resp_err (s : string) : RvError := ErrResponse s.
Definition valid {A} (o : option A) : result A := of_option ErrRequestFieldInvalid o.
Definition supported {A} (o : option A) : result A := of_option ErrLogicalOperationUnsupported o.

(** [if let Ok(v) = first { .. } else if create { second?.. }]. *)
Definition given_or {A} (r : result Value) (f : Value -> result A) (alt : result A) : result A :=
  match r with Ok v => f v | Err _ => alt | Panic => Panic end.

Section approle.
Context {S Q C : Type} `{HSt : Storage S} `{HCl : Clock} `{HU : UuidGen} `{HSJ : Serde (gmap string Value)}
        `{HH : Humantime} `{HJ : JsonParser} `{HI : IpNet} `{HX : HexCodec} `{HD : Digests}
        `{HT : Rfc3339} `{HE : ErrorText} `{HP : Profile}.
Abbreviation W := (World S Q C).
Abbreviation H := (st (W * Request) RvError).

(** ** JSON of the stored entries *)

Definition time_json (t : SystemTime) : Value := VStr (format_rfc3339 t).
Definition json_time (v : Value) : option SystemTime := as_str v ≫= parse_rfc3339.

Definition secret_json (e : SecretIdStorageEntry) : gmap string Value :=
  list_to_map
    [("secret_id_accessor", VStr (se_accessor e)); ("secret_id_num_uses", VInt (se_num_uses e));
     ("secret_id_ttl", serialize_duration (se_ttl e)); ("creation_time", time_json (se_creation_time e));
     ("expiration_time", time_json (se_expiration_time e)); ("last_updated_time", time_json (se_last_updated_time e));
     ("metadata", map_json (se_metadata e)); ("cidr_list", strings_json (se_cidr_list e));
     ("token_cidr_list", strings_json (se_token_cidr_list e))].

Definition secret_of_json (m : gmap string Value) : option SecretIdStorageEntry :=
  accessor ← json_field m "secret_id_accessor" as_str;
  uses ← json_field m "secret_id_num_uses" as_i64;
  ttl ← json_field m "secret_id_ttl" deserialize_duration;
  created ← json_field m "creation_time" json_time;
  expires ← json_field m "expiration_time" json_time;
  updated ← json_field m "last_updated_time" json_time;
  meta ← json_field m "metadata" FieldTrait.string_map_of;
  cidrs ← json_field m "cidr_list" json_strings;
  tcidrs ← json_field m "token_cidr_list" json_strings;
  Some {| se_accessor := accessor; se_num_uses := uses; se_ttl := ttl; se_creation_time := created;
          se_expiration_time := expires; se_last_updated_time := updated; se_metadata := meta;
          se_cidr_list := cidrs; se_token_cidr_list := tcidrs |}.

Definition accessor_json (e : SecretIdAccessorStorageEntry) : gmap string Value :=
  {["secret_id_hmac" := VStr (sa_secret_id_hmac e)]}.
Definition accessor_of_json (m : gmap string Value) : option SecretIdAccessorStorageEntry :=
  h ← json_field m "secret_id_hmac" as_str; Some {| sa_secret_id_hmac := h |}.

Definition role_id_json (e : RoleIdEntry) : gmap string Value := {["name" := VStr (rie_name e)]}.
Definition role_id_of_json (m : gmap string Value) : option RoleIdEntry :=
  n ← json_field m "name" as_str; Some {| rie_name := n |}.

(** [bound_cidr_list] is skipped when it is empty. *)
Definition role_json (r : RoleEntry) : gmap string Value :=
  list_to_map
    ([("name", VStr (re_name r)); ("role_id", VStr (re_role_id r)); ("hmac_key", VStr (re_hmac_key r));
      ("policies", strings_json (re_policies r)); ("lower_case_role_name", VBool (re_lower_case_role_name r));
      ("bind_secret_id", VBool (re_bind_secret_id r)); ("secret_id_num_uses", VInt (re_secret_id_num_uses r));
      ("secret_id_prefix", VStr (re_secret_id_prefix r)); ("bound_cidr_list", VStr (re_bound_cidr_list_old r));
      ("secret_id_bound_cidrs", strings_json (re_secret_id_bound_cidrs r));
      ("secret_id_ttl", serialize_duration (re_secret_id_ttl r)); ("period", serialize_duration (re_period r))]
     ++ match re_bound_cidr_list r with [] => [] | l => [("bound_cidr_list_list", strings_json l)] end)%list
  ∪ TokenParams.to_json (re_token_params r).

Definition role_of_json (m : gmap string Value) : option RoleEntry :=
  nm ← json_field m "name" as_str;
  rid ← json_field m "role_id" as_str;
  key ← json_field m "hmac_key" as_str;
  pols ← json_field m "policies" json_strings;
  lower ← json_field m "lower_case_role_name" json_bool;
  bind ← json_field m "bind_secret_id" json_bool;
  uses ← json_field m "secret_id_num_uses" as_i64;
  pre ← json_field m "secret_id_prefix" as_str;
  old ← json_default m "bound_cidr_list" "" as_str;
  cidrs ← json_default m "bound_cidr_list_list" [] json_strings;
  bound ← json_field m "secret_id_bound_cidrs" json_strings;
  ttl ← json_field m "secret_id_ttl" deserialize_duration;
  per ← json_field m "period" deserialize_duration;
  params ← TokenParams.of_json m;
  Some {| re_name := nm; re_role_id := rid; re_hmac_key := key; re_policies := pols;
          re_lower_case_role_name := lower; re_bind_secret_id := bind; re_secret_id_num_uses := uses;
          re_secret_id_prefix := pre; re_bound_cidr_list_old := old; re_bound_cidr_list := cidrs;
          re_secret_id_bound_cidrs := bound; re_secret_id_ttl := ttl; re_period := per;
          re_token_params := params |}.

(** ** validation.rs *)

Definition create_hmac (key value : string) : result string :=
  if is_empty key then Err (resp_err "invalid hmac key")
  else if (MAX_HMAC_INPUT_LENGTH <? String.length value)%nat
  then Err (resp_err ("value is longer than maximum of " ++ pretty (Z.of_nat MAX_HMAC_INPUT_LENGTH) ++ " bytes"))
  else let? h := of_option OpenSSL (digest_hmac SHA256 (str_bytes key) (str_bytes value)) in Ok (hex_encode h).

(** [{:?}] of a list of texts without quotes or control characters. *)
Fixpoint join_debug (l : list string) : string :=
  match l with
  | [] => ""
  | [s] => dquote ++ s ++ dquote
  | s :: l => dquote ++ s ++ dquote ++ ", " ++ join_debug l
  end.
Definition debug_list (l : list string) : string := "[" ++ join_debug l ++ "]".

Definition verify_cidr_role_secret_id_subset (secret_id_cidrs role_bound_cidr_list : list string) : result unit :=
  match secret_id_cidrs, role_bound_cidr_list with
  | _ :: _, _ :: _ =>
      let cidr_list := map (λ cidr, if RustStr.contains "/" cidr then cidr else cidr ++ "/32") role_bound_cidr_list in
      let? b := Cidr.subset_blocks cidr_list secret_id_cidrs in
      if negb b then
        Err (resp_err ("failed to verify subset relationship between CIDR blocks on the role " ++ debug_list cidr_list
                       ++ " and CIDR blocks on the secret ID " ++ debug_list secret_id_cidrs))
      else Ok tt
  | _, _ => Ok tt
  end.

Definition entry_index (prefix role_name_hmac secret_id_hmac : string) : string :=
  prefix ++ role_name_hmac ++ "/" ++ secret_id_hmac.

Definition get_secret_id_storage_entry (prefix role_name_hmac secret_id_hmac : string)
  : H (option SecretIdStorageEntry) :=
  let! _ := st_guard (is_empty secret_id_hmac) (resp_err "missing secret id hmac") in
  let! _ := st_guard (is_empty role_name_hmac) (resp_err "missing role name hmac") in
  get_json (entry_index prefix role_name_hmac secret_id_hmac) secret_of_json.

Definition set_secret_id_storage_entry (prefix role_name_hmac secret_id_hmac : string) (e : SecretIdStorageEntry)
  : H unit :=
  let! _ := st_guard (is_empty prefix) (resp_err "missing secret id prefix") in
  let! _ := st_guard (is_empty secret_id_hmac) (resp_err "missing secret id hmac") in
  let! _ := st_guard (is_empty role_name_hmac) (resp_err "missing role name hmac") in
  put_json (entry_index prefix role_name_hmac secret_id_hmac) (secret_json e).

Definition delete_secret_id_storage_entry (prefix role_name_hmac secret_id_hmac : string) : H unit :=
  let! _ := st_guard (is_empty secret_id_hmac) (resp_err "missing secret id hmac") in
  let! _ := st_guard (is_empty role_name_hmac) (resp_err "missing role name hmac") in
  req_delete (entry_index prefix role_name_hmac secret_id_hmac).

Definition derive_secret_id_ttl (ttl : Duration) : Duration :=
  if (MAX_LEASE_DURATION_SECS <? ttl)%Z then MAX_LEASE_DURATION_SECS else ttl.

Context (self : AppRole).

Definition get_salt (e : string) : H Salt := st_lift (of_option (resp_err e) (ar_salt self)).

Definition accessor_prefix (role_secret_id_prefix : string) : string :=
  if String.eqb role_secret_id_prefix SECRET_ID_LOCAL_PREFIX then SECRET_ID_ACCESSOR_LOCAL_PREFIX
  else SECRET_ID_ACCESSOR_PREFIX.

(** The storage key of an accessor. *)
Definition accessor_index (accessor prefix : string) : H string :=
  let! salt := get_salt "approle module not initialized" in
  let! id := st_lift (Salt.salt_id salt accessor) in
  st_ret (accessor_prefix prefix ++ id).

Definition get_secret_id_accessor_entry (accessor prefix : string) : H (option SecretIdAccessorStorageEntry) :=
  let! _ := st_guard (is_empty accessor) (resp_err "missing secret id accessor") in
  let! key := accessor_index accessor prefix in
  get_json key accessor_of_json.

Definition se_with (accessor : string) (created updated expires : SystemTime) (e : SecretIdStorageEntry)
  : SecretIdStorageEntry :=
  {| se_accessor := accessor; se_num_uses := se_num_uses e; se_ttl := se_ttl e; se_creation_time := created;
     se_expiration_time := expires; se_last_updated_time := updated; se_metadata := se_metadata e;
     se_cidr_list := se_cidr_list e; se_token_cidr_list := se_token_cidr_list e |}.

(** Gives the accessor. *)
Definition create_secret_id_accessor_entry (secret_id_hmac prefix : string) : H string :=
  let! accessor := on_world fresh_uuid in
  let! key := accessor_index accessor prefix in
  let! _ := put_json key (accessor_json {| sa_secret_id_hmac := secret_id_hmac |}) in
  st_ret accessor.

Definition delete_secret_id_accessor_entry (accessor prefix : string) : H unit :=
  let! key := accessor_index accessor prefix in req_delete key.

(** The check is made under the read lock and again under the write lock. *)
Definition register_secret_id_entry (role_name secret_id key prefix : string) (e : SecretIdStorageEntry)
  : H SecretIdStorageEntry :=
  let! role_name_hmac := st_lift (create_hmac key role_name) in
  let! secret_id_hmac := st_lift (create_hmac key secret_id) in
  let check :=
    let! entry := get_secret_id_storage_entry prefix role_name_hmac secret_id_hmac in
    st_guard (bool_decide (is_Some entry)) (resp_err "secret_id is already registered") in
  let! _ := check in
  let! _ := check in
  let! t := on_world now in
  let ttl := derive_secret_id_ttl (se_ttl e) in
  let expires := if negb (as_secs ttl =? 0)%Z then (t + ttl)%Z else se_expiration_time e in
  let! accessor := create_secret_id_accessor_entry secret_id_hmac prefix in
  let e := se_with accessor t t expires e in
  let! _ := set_secret_id_storage_entry prefix role_name_hmac secret_id_hmac e in
  st_ret e.

Definition flush_role_secrets (role_name key prefix : string) : H unit :=
  let! role_name_hmac := st_lift (create_hmac key role_name) in
  let! secret_id_hmacs := req_list (prefix ++ role_name_hmac ++ "/") in
  st_iter (λ h, req_delete (entry_index prefix role_name_hmac h)) secret_id_hmacs.

(** ** path_role.rs: role ids and roles *)

Definition validate_role_constraints (r : RoleEntry) : result unit :=
  if re_bind_secret_id r || negb (bool_decide (re_bound_cidr_list r = []))
     || negb (bool_decide (re_secret_id_bound_cidrs r = []))
     || match tp_token_bound_cidrs (re_token_params r) with [] => false | _ => true end
  then Ok tt
  else Err (resp_err "at least one constraint should be enabled on the role").

Definition role_id_key (role_id : string) : H string :=
  let! salt := get_salt "salt not found" in
  let! id := st_lift (Salt.salt_id salt role_id) in
  st_ret ("role_id/" ++ id).

Definition get_role_id (role_id : string) : H (option RoleIdEntry) :=
  let! _ := st_guard (is_empty role_id) (resp_err "missing role_id") in
  let! key := role_id_key role_id in
  get_json key role_id_of_json.

Definition set_role_id (role_id : string) (e : RoleIdEntry) : H unit :=
  let! key := role_id_key role_id in put_json key (role_id_json e).

Definition delete_role_id (role_id : string) : H unit :=
  let! _ := st_guard (is_empty role_id) (resp_err "missing role_id") in
  let! key := role_id_key role_id in req_delete key.

(** The name as asked for, and the older fields moved to the current ones. *)
Definition upgrade_role (name : string) (r : RoleEntry) : RoleEntry :=
  let r := re_set_name (if re_lower_case_role_name r then to_lowercase name else name) r in
  let r := if is_empty (re_secret_id_prefix r) then re_set_secret_id_prefix SECRET_ID_PREFIX r else r in
  let r := if is_empty (re_bound_cidr_list_old r) then r
           else re_set_bound_cidr_list_old "" (re_set_secret_id_bound_cidrs (split_char "," (re_bound_cidr_list_old r)) r) in
  let r := match re_bound_cidr_list r with
           | [] => r
           | l => re_set_bound_cidr_list [] (re_set_secret_id_bound_cidrs l r)
           end in
  let p := re_token_params r in
  let p := if (as_secs (tp_token_period p) =? 0)%Z && (0 <? as_secs (re_period r))%Z
           then tp_set_token_period (re_period r) p else p in
  let p := match tp_token_policies p, re_policies r with [], _ :: _ => tp_set_token_policies (re_policies r) p | _, _ => p end in
  re_set_token_params p r.

Definition role_key (name : string) : string := "role/" ++ to_lowercase name.

Definition get_role (name : string) : H (option RoleEntry) :=
  let! r := get_json (role_key name) role_of_json in
  st_ret (upgrade_role name <$> r).

Definition set_role (name : string) (r : RoleEntry) (previous_role_id : string) : H unit :=
  let! _ := st_guard (is_empty name) (resp_err "missing role name") in
  let! _ := st_lift (validate_role_constraints r) in
  let! rid := get_role_id (re_role_id r) in
  let! _ := match rid with
            | Some e => st_guard (negb (String.eqb (rie_name e) name)) (resp_err "role_id already in use")
            | None => st_ret tt
            end in
  let same := negb (is_empty previous_role_id) && String.eqb previous_role_id (re_role_id r) in
  let! _ := if negb (is_empty previous_role_id) && negb same then delete_role_id previous_role_id else st_ret tt in
  let! _ := put_json (role_key name) (role_json r) in
  if negb same then set_role_id (re_role_id r) {| rie_name := name |} else st_ret tt.

Definition list_role : H (option Response) :=
  let! roles := req_list "role/" in st_ret (Some (ResponseOps.list_response roles)).

(** [RoleEntry::default()]. *)
Definition default_role : RoleEntry :=
  {| re_name := ""; re_role_id := ""; re_hmac_key := ""; re_policies := []; re_lower_case_role_name := true;
     re_bind_secret_id := false; re_secret_id_num_uses := 0; re_secret_id_prefix := "";
     re_bound_cidr_list_old := ""; re_bound_cidr_list := []; re_secret_id_bound_cidrs := []; re_secret_id_ttl := 0;
     re_period := 0; re_token_params := TokenParams.default |}.

Definition new_role (name key : string) : RoleEntry :=
  {| re_name := to_lowercase name; re_role_id := ""; re_hmac_key := key; re_policies := [];
     re_lower_case_role_name := true; re_bind_secret_id := false; re_secret_id_num_uses := 0;
     re_secret_id_prefix := ""; re_bound_cidr_list_old := ""; re_bound_cidr_list := [];
     re_secret_id_bound_cidrs := []; re_secret_id_ttl := 0; re_period := 0;
     re_token_params := TokenParams.default |}.

(** The fields of [write_role] before the role id. *)
Definition write_token_fields (req : Request) (create : bool) (r : RoleEntry) : result RoleEntry :=
  let get := RequestOps.get_data req in
  let old := re_token_params r in
  let? p := TokenParams.parse_token_fields old req in
  let? pols := UserPass.sync (bool_decide (tp_token_policies old = tp_token_policies p)) (re_policies r)
                 (tp_token_policies p) (get "policies") (λ v, valid (FieldTrait.as_comma_string_slice v)) in
  let? per := UserPass.sync (Z.eqb (tp_token_period old) (tp_token_period p)) (re_period r) (tp_token_period p)
                (get "period") (λ v, valid (FieldTrait.as_duration v)) in
  let? prefix := if_given (get "local_secret_ids")
                   (λ v, let? b := valid (json_bool v) in
                         if b then if negb create
                              then Err (resp_err "local_secret_ids can only be modified during role creation")
                              else Ok SECRET_ID_LOCAL_PREFIX
                         else Ok (re_secret_id_prefix r)) (re_secret_id_prefix r) in
  Ok (re_set_secret_id_prefix prefix (re_set_policies (fst pols) (re_set_period (fst per)
        (re_set_token_params (tp_set_token_policies (snd pols) (tp_set_token_period (snd per) p)) r)))).

(** [utils::cidr::validate_cidrs] on the blocks of a role or a secret id. *)
Definition check_blocks (cidrs : list string) (e : string) : result unit :=
  match cidrs with
  | [] => Ok tt
  | _ => let? b := Cidr.validate_cidrs cidrs in if b then Ok tt else Err (resp_err e)
  end.

(** The fields of [write_role] after the role id. *)
Definition write_secret_fields (req : Request) (create : bool) (r : RoleEntry) : result RoleEntry :=
  let get := RequestOps.get_data req in
  let dflt {A} key (conv : Value -> option A) (old : A) : result A :=
    given_or (get key) (λ v, valid (conv v))
      (if create then let? v := RequestOps.get_data_or_default req key in valid (conv v) else Ok old) in
  let? bind := dflt "bind_secret_id" json_bool (re_bind_secret_id r) in
  let? bound := if_given (RequestOps.get_data_or_next req ["secret_id_bound_cidrs"; "bound_cidr_list"])
                  (λ v, valid (FieldTrait.as_comma_string_slice v)) (re_secret_id_bound_cidrs r) in
  let? _ := check_blocks bound "invalid CIDR blocks" in
  let? uses := dflt "secret_id_num_uses" FieldTrait.as_int (re_secret_id_num_uses r) in
  let? _ := if (uses <? 0)%Z then Err (resp_err "secret_id_num_uses cannot be negative") else Ok tt in
  let? ttl := dflt "secret_id_ttl" FieldTrait.as_duration (re_secret_id_ttl r) in
  Ok (re_set_bind_secret_id bind (re_set_secret_id_bound_cidrs bound (re_set_secret_id_num_uses uses
        (re_set_secret_id_ttl ttl r)))).

Definition data_str (key : string) : H string :=
  let! req := get_req in st_lift (RequestOps.get_data_as_str req key).

Definition write_role : H (option Response) :=
  let! req := get_req in
  let! v := st_lift (RequestOps.get_data req "role_name") in
  let! role_name := st_lift (valid (as_str v)) in
  let! _ := st_guard (HMAC_INPUT_LEN_MAX <? String.length role_name)%nat
              (resp_err ("role_name is longer than maximum of " ++ pretty (Z.of_nat HMAC_INPUT_LEN_MAX) ++ " bytes")) in
  let! entry := get_role role_name in
  let create := match entry with None => true | Some _ => false end in
  let! r := match entry with
            | Some r => st_ret r
            | None => let! key := on_world fresh_uuid in st_ret (new_role role_name key)
            end in
  let! r := st_lift (write_token_fields req create r) in
  let previous_role_id := re_role_id r in
  let! r := match RequestOps.get_data req "role_id" with
            | Ok v => let! s := st_lift (valid (as_str v)) in st_ret (re_set_role_id s r)
            | Err _ => if create then let! id := on_world fresh_uuid in st_ret (re_set_role_id id r) else st_ret r
            | Panic => st_lift Panic
            end in
  let! _ := st_guard (is_empty (re_role_id r))
              (resp_err "invalid role_id supplied, or failed to generate a role_id") in
  let! r := st_lift (write_secret_fields req create r) in
  let! _ := set_role (re_name r) r previous_role_id in
  st_ret None.

Definition role_data (r : RoleEntry) : gmap string Value :=
  let data : gmap string Value := list_to_map
    [("bind_secret_id", VBool (re_bind_secret_id r)); ("secret_id_bound_cidrs", strings_json (re_secret_id_bound_cidrs r));
     ("secret_id_num_uses", VInt (re_secret_id_num_uses r)); ("secret_id_ttl", VInt (as_secs (re_secret_id_ttl r)));
     ("local_secret_ids", VBool (String.eqb (re_secret_id_prefix r) SECRET_ID_LOCAL_PREFIX))] in
  let data := if negb (as_secs (re_period r) =? 0)%Z then <["period" := VInt (as_secs (re_period r))]> data else data in
  let data := match re_policies r with [] => data | l => <["policies" := strings_json l]> data end in
  TokenParams.populate_token_data (re_token_params r) data.

Definition read_role : H (option Response) :=
  let! role_name := data_str "role_name" in
  let! entry := get_role role_name in
  match entry with
  | None => st_ret None
  | Some r =>
      let resp := ResponseOps.data_response (Some (role_data r)) in
      let! rid := get_role_id (re_role_id r) in
      match rid with
      | Some _ => st_ret (Some resp)
      | None =>
          let! rid := get_role_id (re_role_id r) in
          match rid with
          | Some _ => st_ret (Some resp)
          | None =>
              let! _ := set_role_id (re_role_id r) {| rie_name := re_name r |} in
              st_ret (Some (ResponseOps.add_warning "Role identifier was missing an index back to role name" resp))
          end
      end
  end.

Definition delete_role : H (option Response) :=
  let! role_name := data_str "role_name" in
  let! entry := get_role role_name in
  match entry with
  | None => st_ret None
  | Some r =>
      let! _ := flush_role_secrets (re_name r) (re_hmac_key r) (re_secret_id_prefix r) in
      let! _ := delete_role_id (re_role_id r) in
      let! _ := req_delete (role_key role_name) in
      st_ret None
  end.

Definition set_policies (pols : list string) (r : RoleEntry) : RoleEntry :=
  re_set_policies pols (re_set_token_params (tp_set_token_policies pols (re_token_params r)) r).

Definition read_role_policies : H (option Response) :=
  let! role_name := data_str "role_name" in
  let! entry := get_role role_name in
  match entry with
  | None => st_ret None
  | Some r =>
      let data : gmap string Value := {["token_policies" := strings_json (tp_token_policies (re_token_params r))]} in
      let data := match re_policies r with [] => data | l => <["policies" := strings_json l]> data end in
      st_ret (Some (ResponseOps.data_response (Some data)))
  end.

Definition write_role_policies : H (option Response) :=
  let! role_name := data_str "role_name" in
  let! req := get_req in
  let! v := st_lift (RequestOps.get_data_or_next req ["token_policies"; "policies"]) in
  let! pols := st_lift (valid (FieldTrait.as_comma_string_slice v)) in
  let! entry := get_role role_name in
  match entry with
  | None => st_fail ErrLogicalPathUnsupported
  | Some r =>
      let! _ := set_role role_name (set_policies (PolicyUtils.sanitize_policies pols false) r) "" in st_ret None
  end.

Definition delete_role_policies : H (option Response) :=
  let! role_name := data_str "role_name" in
  let! entry := get_role role_name in
  match entry with
  | None => st_fail ErrLogicalPathUnsupported
  | Some r => let! _ := set_role role_name (set_policies [] r) "" in st_ret None
  end.

(** ** One field of a role *)

Definition read_field (field : string) (r : RoleEntry) : result (gmap string Value) :=
  let p := re_token_params r in
  let one (k : string) (v : Value) : result (gmap string Value) := Ok {[k := v]} in
  if String.eqb field "bound_cidr_list" then one "bound_cidr_list" (strings_json (re_bound_cidr_list r))
  else if String.eqb field "secret_id_bound_cidrs" then one "secret_id_bound_cidrs" (strings_json (re_secret_id_bound_cidrs r))
  else if String.eqb field "token_bound_cidrs" then one "token_bound_cidrs" (addrs_json (tp_token_bound_cidrs p))
  else if String.eqb field "bind_secret_id" then one "bind_secret_id" (VBool (re_bind_secret_id r))
  else if String.eqb field "local_secret_ids"
       then one "local_secret_ids" (VBool (String.eqb (re_secret_id_prefix r) SECRET_ID_LOCAL_PREFIX))
  else if String.eqb field "secret_id_num_uses" then one "secret_id_num_uses" (VInt (re_secret_id_num_uses r))
  else if String.eqb field "role_id" then one "role_id" (VStr (re_role_id r))
  else if String.eqb field "secret_id_ttl" then one "secret_id_ttl" (VInt (as_secs (re_secret_id_ttl r)))
  else if str_in field ["token_period"; "period"] then
    let data : gmap string Value := {["token_period" := VInt (as_secs (tp_token_period p))]} in
    Ok (if (0 <? as_secs (re_period r))%Z then <["period" := VInt (as_secs (re_period r))]> data else data)
  else if String.eqb field "token_num_uses" then one "token_num_uses" (VInt (tp_token_num_uses p))
  else if String.eqb field "token_ttl" then one "token_ttl" (VInt (as_secs (tp_token_ttl p)))
  else if String.eqb field "token_max_ttl" then one "token_max_ttl" (VInt (as_secs (tp_token_max_ttl p)))
  else Err (resp_err "unrecognized field").

Definition read_role_field (field : string) : H (option Response) :=
  let! role_name := data_str "role_name" in
  let! entry := get_role role_name in
  match entry with
  | None => st_ret None
  | Some r => let! d := st_lift (read_field field r) in st_ret (Some (ResponseOps.data_response (Some d)))
  end.

(** The value and, for the fields of blocks, the validated blocks. *)
Definition field_value (req : Request) (field : string) : result (Value * list string) :=
  let? v := if str_in field ["token_period"; "period"] then RequestOps.get_data_or_next req ["token_period"; "period"]
            else RequestOps.get_data req field in
  if str_in field ["bound_cidr_list"; "secret_id_bound_cidrs"; "token_bound_cidrs"] then
    let? l := valid (FieldTrait.as_comma_string_slice v) in
    match l with
    | [] => Err (resp_err ("missing " ++ field))
    | _ => let? _ := check_blocks l "failed to validate CIDR blocks" in Ok (v, l)
    end
  else Ok (v, []).

(** The changed role, and the previous role id when it is the one replaced. *)
Definition update_field (field : string) (v : Value) (cidrs : list string) (r : RoleEntry)
  : result (RoleEntry * string) :=
  let p := re_token_params r in
  let params p := Ok (re_set_token_params p r, "") in
  if str_in field ["bound_cidr_list"; "secret_id_bound_cidrs"] then Ok (re_set_secret_id_bound_cidrs cidrs r, "")
  else if String.eqb field "token_bound_cidrs" then
    let? l := TokenParams.parse_addrs cidrs in params (tp_set_token_bound_cidrs l p)
  else if String.eqb field "bind_secret_id" then
    let? b := supported (json_bool v) in Ok (re_set_bind_secret_id b r, "")
  else if String.eqb field "secret_id_num_uses" then
    let? n := supported (FieldTrait.as_int v) in
    if (n <? 0)%Z then Err (resp_err "secret_id_num_uses cannot be negative")
    else Ok (re_set_secret_id_num_uses n r, "")
  else if String.eqb field "role_id" then
    let? s := supported (as_str v) in
    if is_empty s then Err (resp_err "missing role_id") else Ok (re_set_role_id s r, re_role_id r)
  else if String.eqb field "secret_id_ttl" then
    let? d := supported (FieldTrait.as_duration v) in Ok (re_set_secret_id_ttl d r, "")
  else if str_in field ["token_period"; "period"] then
    let? d := supported (FieldTrait.as_duration v) in
    Ok (re_set_period d (re_set_token_params (tp_set_token_period d p) r), "")
  else if String.eqb field "token_num_uses" then
    let? n := supported (as_u64 v) in params (tp_set_token_num_uses n p)
  else if String.eqb field "token_ttl" then
    let? d := supported (FieldTrait.as_duration v) in
    if (0 <? as_secs (tp_token_max_ttl p))%Z && (as_secs (tp_token_max_ttl p) <? as_secs d)%Z
    then Err (resp_err "token_ttl should not be greater than token_max_ttl") else params (tp_set_token_ttl d p)
  else if String.eqb field "token_max_ttl" then
    let? d := supported (FieldTrait.as_duration v) in
    if (0 <? as_secs d)%Z && (as_secs d <? as_secs (tp_token_ttl p))%Z
    then Err (resp_err "token_max_ttl should not be greater than token_ttl") else params (tp_set_token_max_ttl d p)
  else Err (resp_err "unrecognized field").

Definition update_role_field (field : string) : H (option Response) :=
  let! role_name := data_str "role_name" in
  let! req := get_req in
  let! vc := st_lift (field_value req field) in
  let! entry := get_role role_name in
  match entry with
  | None => st_fail ErrLogicalPathUnsupported
  | Some r =>
      let! rp := st_lift (update_field field (fst vc) (snd vc) r) in
      let! _ := set_role role_name (fst rp) (snd rp) in st_ret None
  end.

Definition delete_field (req : Request) (field : string) (r : RoleEntry) : result RoleEntry :=
  let p := re_token_params r in
  let dflt {A} (conv : Value -> option A) : result A :=
    let? v := RequestOps.get_field_default_or_zero req field in supported (conv v) in
  if String.eqb field "bound_cidr_list" then Ok (re_set_bound_cidr_list [] r)
  else if String.eqb field "secret_id_bound_cidrs" then Ok (re_set_secret_id_bound_cidrs [] r)
  else if String.eqb field "token_bound_cidrs" then Ok (re_set_token_params (tp_set_token_bound_cidrs [] p) r)
  else if String.eqb field "bind_secret_id" then let? b := dflt json_bool in Ok (re_set_bind_secret_id b r)
  else if String.eqb field "secret_id_num_uses" then let? n := dflt FieldTrait.as_int in Ok (re_set_secret_id_num_uses n r)
  else if String.eqb field "secret_id_ttl" then let? d := dflt FieldTrait.as_duration in Ok (re_set_secret_id_ttl d r)
  else if str_in field ["token_period"; "period"]
       then Ok (re_set_period 0 (re_set_token_params (tp_set_token_period 0 p) r))
  else if String.eqb field "token_num_uses"
       then let? n := dflt as_u64 in Ok (re_set_token_params (tp_set_token_num_uses n p) r)
  else if String.eqb field "token_ttl"
       then let? d := dflt FieldTrait.as_duration in Ok (re_set_token_params (tp_set_token_ttl d p) r)
  else if String.eqb field "token_max_ttl"
       then let? d := dflt FieldTrait.as_duration in Ok (re_set_token_params (tp_set_token_max_ttl d p) r)
  else Err (resp_err "unrecognized field").

Definition delete_role_field (field : string) : H (option Response) :=
  let! role_name := data_str "role_name" in
  let! entry := get_role role_name in
  match entry with
  | None => st_ret None
  | Some r =>
      let! req := get_req in
      let! r := st_lift (delete_field req field r) in
      let! _ := set_role role_name r "" in st_ret None
  end.

Definition read_role_local_secret_ids : H (option Response) := read_role_field "local_secret_ids".
Definition read_role_bound_cidr_list : H (option Response) := read_role_field "bound_cidr_list".
Definition write_role_bound_cidr_list : H (option Response) := update_role_field "bound_cidr_list".
Definition delete_role_bound_cidr_list : H (option Response) := delete_role_field "bound_cidr_list".
Definition read_role_secret_id_bound_cidrs : H (option Response) := read_role_field "secret_id_bound_cidrs".
Definition write_role_secret_id_bound_cidrs : H (option Response) := update_role_field "secret_id_bound_cidrs".
Definition delete_role_secret_id_bound_cidrs : H (option Response) := delete_role_field "secret_id_bound_cidrs".
Definition read_role_token_bound_cidrs : H (option Response) := read_role_field "token_bound_cidrs".
Definition write_role_token_bound_cidrs : H (option Response) := update_role_field "token_bound_cidrs".
Definition delete_role_token_bound_cidrs : H (option Response) := delete_role_field "token_bound_cidrs".
Definition read_role_bind_secret_id : H (option Response) := read_role_field "bind_secret_id".
Definition write_role_bind_secret_id : H (option Response) := update_role_field "bind_secret_id".
Definition delete_role_bind_secret_id : H (option Response) := delete_role_field "bind_secret_id".
Definition read_role_secret_id_num_uses : H (option Response) := read_role_field "secret_id_num_uses".
Definition write_role_secret_id_num_uses : H (option Response) := update_role_field "secret_id_num_uses".
Definition delete_role_secret_id_num_uses : H (option Response) := delete_role_field "secret_id_num_uses".
Definition read_role_secret_id_ttl : H (option Response) := read_role_field "secret_id_ttl".
Definition write_role_secret_id_ttl : H (option Response) := update_role_field "secret_id_ttl".
Definition delete_role_secret_id_ttl : H (option Response) := delete_role_field "secret_id_ttl".
Definition read_role_period : H (option Response) := read_role_field "token_period".
Definition write_role_period : H (option Response) := update_role_field "token_period".
Definition delete_role_period : H (option Response) := delete_role_field "token_period".
Definition read_role_token_num_uses : H (option Response) := read_role_field "token_num_uses".
Definition write_role_token_num_uses : H (option Response) := update_role_field "token_num_uses".
Definition delete_role_token_num_uses : H (option Response) := delete_role_field "token_num_uses".
Definition read_role_token_ttl : H (option Response) := read_role_field "token_ttl".
Definition write_role_token_ttl : H (option Response) := update_role_field "token_ttl".
Definition delete_role_token_ttl : H (option Response) := delete_role_field "token_ttl".
Definition read_role_token_max_ttl : H (option Response) := read_role_field "token_max_ttl".
Definition write_role_token_max_ttl : H (option Response) := update_role_field "token_max_ttl".
Definition delete_role_token_max_ttl : H (option Response) := delete_role_field "token_max_ttl".
Definition read_role_role_id : H (option Response) := read_role_field "role_id".
Definition write_role_role_id : H (option Response) := update_role_field "role_id".

(** ** Secret ids *)

Fixpoint accessors_of (prefix role_name_hmac : string) (hmacs : list string) : H (list string) :=
  match hmacs with
  | [] => st_ret []
  | h :: hmacs =>
      let! e := get_json (entry_index prefix role_name_hmac h) secret_of_json in
      match e with
      | None => st_fail (resp_err "storage entry for SecretID is present but no content found at the index")
      | Some e => let! l := accessors_of prefix role_name_hmac hmacs in st_ret (se_accessor e :: l)
      end
  end.

(** [get_role] with the error of the secret id handlers. *)
Definition existing_role (role_name : string) : H RoleEntry :=
  let! entry := get_role role_name in
  st_lift (of_option (resp_err ("role " ++ role_name ++ " does not exist")) entry).

Definition list_role_secret_id : H (option Response) :=
  let! role_name := data_str "role_name" in
  let! r := existing_role role_name in
  let! role_name_hmac := st_lift (create_hmac (re_hmac_key r) (re_name r)) in
  let! hmacs := req_list (re_secret_id_prefix r ++ role_name_hmac ++ "/") in
  let! l := accessors_of (re_secret_id_prefix r) role_name_hmac hmacs in
  st_ret (Some (ResponseOps.list_response l)).

Definition secret_num_uses (req : Request) (r : RoleEntry) : result Z :=
  given_or (RequestOps.get_data req "num_uses")
    (λ v, let? n := valid (as_i64 v) in
          if (n <? 0)%Z then Err (resp_err "num_uses cannot be negative")
          else if (0 <? re_secret_id_num_uses r)%Z && ((n =? 0)%Z || (re_secret_id_num_uses r <? n)%Z)
          then Err (resp_err "num_uses cannot be higher than the role's secret_id_num_uses")
          else Ok n)
    (Ok (re_secret_id_num_uses r)).

Definition secret_ttl (req : Request) (r : RoleEntry) : result Duration :=
  given_or (RequestOps.get_data req "ttl")
    (λ v, let? d := valid (FieldTrait.as_duration v) in
          if ((as_secs d =? 0) && (0 <? as_secs (re_secret_id_ttl r)))%Z
             || ((0 <? as_secs (re_secret_id_ttl r)) && (as_secs (re_secret_id_ttl r) <? as_secs d))%Z
          then Err (resp_err "ttl cannot be longer than the role's secret_id_ttl")
          else Ok d)
    (Ok (re_secret_id_ttl r)).

(** A list of blocks of the request, validated and within those of the role. *)
Definition request_blocks (req : Request) (field : string) (role_blocks : list string) : result (list string) :=
  let? v := RequestOps.get_data_or_default req field in
  let? l := valid (FieldTrait.as_comma_string_slice v) in
  let? _ := check_blocks l "failed to validate CIDR blocks" in
  let? _ := verify_cidr_role_secret_id_subset l role_blocks in
  Ok l.

(** The entry, before its registration.  The default of each time is a reading
    of the clock. *)
Definition update_role_secret_id_common (secret_id : string) : H (option Response) :=
  let! role_name := data_str "role_name" in
  let! _ := st_guard (is_empty secret_id) (resp_err "missing secret_id") in
  let! r := existing_role role_name in
  let! _ := st_guard (negb (re_bind_secret_id r)) (resp_err "bind_secret_id is not set on the role") in
  let! req := get_req in
  let! cidr_list := st_lift (request_blocks req "cidr_list" (re_secret_id_bound_cidrs r)) in
  let! token_cidrs := st_lift (request_blocks req "token_bound_cidrs"
                                 (map SockAddrOps.to_string (tp_token_bound_cidrs (re_token_params r)))) in
  let! num_uses := st_lift (secret_num_uses req r) in
  let! ttl := st_lift (secret_ttl req r) in
  let! t1 := on_world now in
  let! t2 := on_world now in
  let! t3 := on_world now in
  let! meta := st_lift (if_given (RequestOps.get_data req "metadata") (λ v, valid (FieldTrait.as_map v)) ∅) in
  let e := {| se_accessor := ""; se_num_uses := num_uses; se_ttl := ttl; se_creation_time := t1;
              se_expiration_time := t2; se_last_updated_time := t3; se_metadata := meta; se_cidr_list := cidr_list;
              se_token_cidr_list := token_cidrs |} in
  let! e := register_secret_id_entry (re_name r) secret_id (re_hmac_key r) (re_secret_id_prefix r) e in
  st_ret (Some (ResponseOps.data_response (Some (list_to_map
    [("secret_id", VStr secret_id); ("secret_id_accessor", VStr (se_accessor e));
     ("secret_id_ttl", VInt (as_secs (derive_secret_id_ttl (se_ttl e)))); ("secret_id_num_uses", VInt (se_num_uses e))])))).

Definition write_role_secret_id : H (option Response) :=
  let! secret_id := on_world fresh_uuid in update_role_secret_id_common secret_id.

Definition write_role_custom_secret_id : H (option Response) :=
  let! req := get_req in
  let! v := st_lift (RequestOps.get_data req "secret_id") in
  update_role_secret_id_common (default "" (as_str v)).

(** The two HMACs a secret id of the role is stored under. *)
Definition secret_hmacs (r : RoleEntry) (secret_id : string) : H (string * string) :=
  let! role_name_hmac := st_lift (create_hmac (re_hmac_key r) (re_name r)) in
  let! secret_id_hmac := st_lift (create_hmac (re_hmac_key r) secret_id) in
  st_ret (role_name_hmac, secret_id_hmac).

Definition write_role_secret_id_lookup : H (option Response) :=
  let! role_name := data_str "role_name" in
  let! secret_id := data_str "secret_id" in
  let! r := existing_role role_name in
  let! hs := secret_hmacs r secret_id in
  let! entry := get_secret_id_storage_entry (re_secret_id_prefix r) (fst hs) (snd hs) in
  match entry with
  | None => st_ret None
  | Some e =>
      let! acc := get_secret_id_accessor_entry (se_accessor e) (re_secret_id_prefix r) in
      match acc with
      | None =>
          let! _ := req_delete (entry_index (re_secret_id_prefix r) (fst hs) (snd hs)) in
          st_fail (resp_err "invalid secret_id")
      | Some _ => st_ret (Some (ResponseOps.data_response (Some (secret_json e))))
      end
  end.

Definition delete_role_secret_id_destory : H (option Response) :=
  let! role_name := data_str "role_name" in
  let! secret_id := data_str "secret_id" in
  let! r := existing_role role_name in
  let! hs := secret_hmacs r secret_id in
  let! entry := get_secret_id_storage_entry (re_secret_id_prefix r) (fst hs) (snd hs) in
  match entry with
  | None => st_ret None
  | Some e =>
      let! _ := delete_secret_id_accessor_entry (se_accessor e) (re_secret_id_prefix r) in
      let! _ := req_delete (entry_index (re_secret_id_prefix r) (fst hs) (snd hs)) in
      st_ret None
  end.

Definition write_role_secret_id_destory : H (option Response) := delete_role_secret_id_destory.

(** The role, the accessor and the HMAC of the secret id it belongs to. *)
Definition accessor_target : H (RoleEntry * string * string) :=
  let! role_name := data_str "role_name" in
  let! accessor := data_str "secret_id_accessor" in
  let! r := existing_role role_name in
  let! acc := get_secret_id_accessor_entry accessor (re_secret_id_prefix r) in
  match acc with
  | None => st_fail (ErrResponseStatus 404 ("failed to find accessor entry for secret_id_accessor: " ++ accessor))
  | Some a => st_ret (r, accessor, sa_secret_id_hmac a)
  end.

Definition write_role_secret_id_accessor_lookup : H (option Response) :=
  let! x := accessor_target in
  let '(r, _, secret_id_hmac) := x in
  let! role_name_hmac := st_lift (create_hmac (re_hmac_key r) (re_name r)) in
  let! entry := get_secret_id_storage_entry (re_secret_id_prefix r) role_name_hmac secret_id_hmac in
  st_ret ((λ e, ResponseOps.data_response (Some (secret_json e))) <$> entry).

Definition delete_role_secret_id_accessor_destory : H (option Response) :=
  let! x := accessor_target in
  let '(r, accessor, secret_id_hmac) := x in
  let! role_name_hmac := st_lift (create_hmac (re_hmac_key r) (re_name r)) in
  let! entry := get_secret_id_storage_entry (re_secret_id_prefix r) role_name_hmac secret_id_hmac in
  let! _ := st_guard (bool_decide (entry = None)) (ErrResponseStatus 403 ("invalid secret_id_accessor: " ++ accessor)) in
  let! _ := delete_secret_id_accessor_entry accessor (re_secret_id_prefix r) in
  let! _ := req_delete (entry_index (re_secret_id_prefix r) role_name_hmac secret_id_hmac) in
  st_ret None.

Definition write_role_secret_id_accessor_destory : H (option Response) := delete_role_secret_id_accessor_destory.

(** ** path_login.rs *)

Definition source_refused (how addr : string) : RvError :=
  resp_err ("source address " ++ addr ++ " unauthorized " ++ how ++ " CIDR restrictions on the secret ID").

(** The peer of the connection is within the blocks, if there are any. *)
Definition check_source (how : string) (cidrs : list string) : H unit :=
  match cidrs with
  | [] => st_ret tt
  | _ =>
      let! req := get_req in
      match connection req with
      | None => st_fail (resp_err "failed to get connection information")
      | Some conn =>
          let! _ := st_guard (is_empty (peer_addr conn)) (resp_err "failed to get connection information") in
          let! b := st_lift (Cidr.ip_belongs_to_cidrs (peer_addr conn) cidrs) in
          st_guard (negb b) (source_refused how (peer_addr conn))
      end
  end.

Definition check_secret_source (e : SecretIdStorageEntry) (r : RoleEntry) : H unit :=
  let! _ := st_lift (verify_cidr_role_secret_id_subset (se_cidr_list e) (re_secret_id_bound_cidrs r)) in
  check_source "through" (se_cidr_list e).

(** [n -= 1] on an [i64]. *)
Definition i64_pred (n : Z) : result Z :=
  if (n - 1 <? I64_MIN)%Z then if overflow_checks then Panic else Ok I64_MAX else Ok (n - 1)%Z.

Definition se_used (n : Z) (t : SystemTime) (e : SecretIdStorageEntry) : SecretIdStorageEntry :=
  {| se_accessor := se_accessor e; se_num_uses := n; se_ttl := se_ttl e; se_creation_time := se_creation_time e;
     se_expiration_time := se_expiration_time e; se_last_updated_time := t; se_metadata := se_metadata e;
     se_cidr_list := se_cidr_list e; se_token_cidr_list := se_token_cidr_list e |}.

(** One use of a secret id with a limited number of uses, after the switch to
    the write lock. *)
Definition consume_secret_id (r : RoleEntry) (hs : string * string) : H unit :=
  let prefix := re_secret_id_prefix r in
  let index := entry_index prefix (fst hs) (snd hs) in
  let! entry := get_secret_id_storage_entry prefix (fst hs) (snd hs) in
  let! e := st_lift (of_option (resp_err "invalid secret id") entry) in
  let! e :=
    (if (se_num_uses e =? 1)%Z then
       let! _ := delete_secret_id_accessor_entry (se_accessor e) prefix in
       let! _ := req_delete index in st_ret e
     else
       let! n := st_lift (i64_pred (se_num_uses e)) in
       let! t := on_world now in
       let e := se_used n t e in
       let! _ := put_json index (secret_json e) in st_ret e) in
  check_secret_source e r.

(** The checks of a role that is bound to secret ids; gives the metadata. *)
Definition login_secret_id (r : RoleEntry) : H (gmap string string) :=
  let! req := get_req in
  let! secret_id := st_lift (RequestOps.get_data_as_str req "secret_id") in
  let! secret_id_hmac := st_lift (create_hmac (re_hmac_key r) secret_id) in
  let! role_name_hmac := st_lift (create_hmac (re_hmac_key r) (re_name r)) in
  let prefix := re_secret_id_prefix r in
  let index := entry_index prefix role_name_hmac secret_id_hmac in
  let! entry := get_secret_id_storage_entry prefix role_name_hmac secret_id_hmac in
  let! e := st_lift (of_option (resp_err "invalid secret id") entry) in
  let! acc := get_secret_id_accessor_entry (se_accessor e) prefix in
  match acc with
  | None => fun s =>
      match req_delete index s with
      | (s, Err err) =>
          (s, Err (resp_err ("error deleting secret_id " ++ secret_id_hmac ++ " from storage: " ++ error_text err)))
      | (s, Panic) => (s, Panic)
      | (s, Ok _) => (s, Err (resp_err "invalid secret_id"))
      end
  | Some _ =>
      let! _ := if (se_num_uses e =? 0)%Z then check_secret_source e r
                else consume_secret_id r (role_name_hmac, secret_id_hmac) in
      st_ret (se_metadata e)
  end.

Definition login_auth (t : SystemTime) (r : RoleEntry) (meta : gmap string string) : Auth :=
  let a := TokenStore.default_auth t in
  TokenParams.populate_token_auth (re_token_params r)
    {| auth_lease := auth_lease a; auth_client_token := auth_client_token a; display_name := display_name a;
       policies := policies a; token_policies := token_policies a; no_default_policy := no_default_policy a;
       auth_internal_data := <["role_name" := re_name r]> (auth_internal_data a);
       metadata := <["role_name" := re_name r]> meta; policy_results := policy_results a; period := period a;
       auth_explicit_max_ttl := auth_explicit_max_ttl a |}.

Definition login : H (option Response) :=
  let! role_id := data_str "role_id" in
  let! rid := get_role_id role_id in
  let! rid := st_lift (of_option (resp_err "invalid role_id") rid) in
  let! r := get_role (rie_name rid) in
  let! r := st_lift (of_option (resp_err "invalid role_id") r) in
  let! meta := if re_bind_secret_id r then login_secret_id r else st_ret ∅ in
  let! _ := check_source "by" (re_secret_id_bound_cidrs r) in
  let! t := on_world now in
  st_ret (Some (ResponseOps.set_auth (Some (login_auth t r meta)) ResponseOps.new)).

Definition renewed_auth (r : RoleEntry) (a : Auth) : Auth :=
  let l := auth_lease a in
  let p := re_token_params r in
  {| auth_lease := {| Lease.ttl := tp_token_ttl p; Lease.max_ttl := tp_token_max_ttl p;
                      Lease.renewable := Lease.renewable l; Lease.increment := Lease.increment l;
                      Lease.issue_time := Lease.issue_time l |};
     auth_client_token := auth_client_token a; display_name := display_name a; policies := policies a;
     token_policies := token_policies a; no_default_policy := no_default_policy a;
     auth_internal_data := auth_internal_data a; metadata := metadata a;
     policy_results := policy_results a; period := tp_token_period p;
     auth_explicit_max_ttl := auth_explicit_max_ttl a |}.

(** The name of the role is looked up under [username], which a login does not
    set. *)
Definition login_renew : H (option Response) :=
  let! req := get_req in
  match auth req with
  | None => st_fail (ErrString "invalid request")
  | Some a =>
      match metadata a !! "username" with
      | None => st_ret None
      | Some role_name =>
          let! role := get_role role_name in
          match role with
          | None => st_ret None
          | Some _ =>
              let! role := get_role role_name in
              let! r := st_lift (of_option (resp_err ("role " ++ role_name ++ " does not exist during renewal")) role) in
              st_ret (Some (ResponseOps.set_auth (Some (renewed_auth r a)) ResponseOps.new))
          end
      end
  end.

(** ** path_tidy_secret_id.rs *)

Fixpoint accessor_entries (prefix : string) (hashes : list string) : H (list (string * string)) :=
  match hashes with
  | [] => st_ret []
  | h :: hashes =>
      let! e := get_json (prefix ++ h) accessor_of_json in
      let! l := accessor_entries prefix hashes in
      st_ret (match e with Some e => (h, sa_secret_id_hmac e) :: l | None => l end)
  end.

(** [secret_id_cleanup_func]: the salted accessor of an entry that stays. *)
Definition cleanup_secret_id (prefix role_name_hmac secret_id_hmac : string) : H (option string) :=
  let! entry := get_secret_id_storage_entry prefix role_name_hmac secret_id_hmac in
  let! e := st_lift (of_option (resp_err ("entry for secret id was nil, secret_id_hmac: " ++ secret_id_hmac)) entry) in
  let! acc := get_secret_id_accessor_entry (se_accessor e) prefix in
  match acc with
  | None => let! _ := delete_secret_id_storage_entry prefix role_name_hmac secret_id_hmac in st_ret None
  | Some _ =>
      let! t := on_world now in
      if (se_expiration_time e <? t)%Z then
        let! _ := delete_secret_id_accessor_entry (se_accessor e) prefix in
        let! _ := delete_secret_id_storage_entry prefix role_name_hmac secret_id_hmac in
        st_ret None
      else
        let! id := st_lift (match ar_salt self with Some s => Salt.salt_id s (se_accessor e) | None => Panic end) in
        st_ret (Some id)
  end.

Fixpoint cleanup_secret_ids (prefix role_name_hmac : string) (skip : gset string) (hmacs : list string)
  : H (gset string) :=
  match hmacs with
  | [] => st_ret skip
  | h :: hmacs =>
      let! id := cleanup_secret_id prefix role_name_hmac h in
      cleanup_secret_ids prefix role_name_hmac (match id with Some i => {[i]} ∪ skip | None => skip end) hmacs
  end.

Definition trim_slashes (s : string) : string := trim_end_matches (Ascii.eqb slash) s.

Fixpoint cleanup_roles (prefix : string) (skip : gset string) (items : list string) : H (gset string) :=
  match items with
  | [] => st_ret skip
  | item :: items =>
      let role_name_hmac := trim_slashes item in
      let! hmacs := req_list (prefix ++ role_name_hmac ++ "/") in
      let! skip := cleanup_secret_ids prefix role_name_hmac skip hmacs in
      cleanup_roles prefix skip items
  end.

Fixpoint all_secret_id_hmacs (prefix : string) (items : list string) : H (gset string) :=
  match items with
  | [] => st_ret ∅
  | item :: items =>
      let! hmacs := req_list (prefix ++ trim_slashes item ++ "/") in
      let! rest := all_secret_id_hmacs prefix items in
      st_ret (list_to_set hmacs ∪ rest)
  end.

(** The accessors without a secret id; the source walks them in the order of a
    hash map. *)
Definition dangling (skip known : gset string) (l : list (string * string)) : list string :=
  map fst (filter (λ x, (x.1 ∉ skip) ∧ (x.2 ∉ known)) l).

Definition tidy (prefix acc_prefix : string) : H unit :=
  let! hashes := req_list acc_prefix in
  let! accessors := accessor_entries acc_prefix hashes in
  let! items := req_list prefix in
  let! skip := cleanup_roles prefix ∅ items in
  if (size skip <? length hashes)%nat then
    let! known := all_secret_id_hmacs prefix items in
    st_iter (λ h, req_delete (acc_prefix ++ h)) (dangling skip known accessors)
  else st_ret tt.

(** The errors are logged; the second pass runs when the first one succeeded. *)
Definition tidy_secret_id_routine : H unit := fun s =>
  match tidy SECRET_ID_PREFIX SECRET_ID_ACCESSOR_PREFIX s with
  | (s, Ok _) => match tidy SECRET_ID_LOCAL_PREFIX SECRET_ID_ACCESSOR_LOCAL_PREFIX s with
                 | (s, Panic) => (s, Panic)
                 | (s, _) => (s, Ok tt)
                 end
  | (s, Err _) => (s, Ok tt)
  | (s, Panic) => (s, Panic)
  end.

(** The handler, with the guard against a second run: the new guard, the
    answer, and whether the routine was started as a task of the request. *)
Definition tidy_secret_id (running : bool) (wrapped : Response -> Value) (req : Request) : bool * Response * bool :=
  if running then (true, ResponseOps.add_warning "Tidy operation already in progress" ResponseOps.new, false)
  else
    let resp := ResponseOps.add_warning "Tidy operation successfully started. Any information from the operation will be printed to RustyVault's server logs."
                  (ResponseOps.set_request_id (req_id req) ResponseOps.new) in
    (true, ResponseOps.respond_with_status_code (Some (wrapped resp)) 202, true).

(** ** The paths *)

Definition role_path : Path * list (PathOperation W) :=
  with_token_fields (
  path_with "role/?" "Lists all the roles registered with the backend."
    []
    [(List, list_role)]).

Definition role_name_path : Path * list (PathOperation W) :=
  with_token_fields (
  path_with "role/(?P<role_name>\w[\w-]+\w)" "
A role can represent a service, a machine or anything that can be IDed.
The set of policies on the role defines access to the role, meaning, any
Vault token with a policy set that is a superset of the policies on the
role registered here will have access to the role. If a SecretID is desired
to be generated against only this specific role, it can be done via
'role/<role_name>/secret-id' and 'role/<role_name>/custom-secret-id' endpoints.
The properties of the SecretID created against the role and the properties
of the token issued with the SecretID generated against the role, can be
configured using the fields of this endpoint.
                "
    [("role_name", required_field Str "Name of the role.");
     ("bind_secret_id", default_field Bool (VBool true) "Impose secret_id to be presented when logging in using this role. Defaults to 'true'.");
     ("bound_cidr_list", plain_field CommaStringSlice (requote "Use 'secret_id_bound_cidrs' instead."));
     ("secret_id_bound_cidrs", plain_field CommaStringSlice "Comma separated string or list of CIDR blocks.
                    If set, specifies the blocks of IP addresses which can perform the login operation.");
     ("secret_id_num_uses", plain_field Int "Number of times a SecretID can access the role, after which the SecretID
        will expire. Defaults to 0 meaning that the the secret_id is of unlimited use.");
     ("secret_id_ttl", plain_field DurationSecond "Duration in seconds after which the issued SecretID should expire. Defaults to 0, meaning no expiration.");
     ("policies", plain_field CommaStringSlice "Use token_policies instead. If this and token_policies are both speicified, only token_policies will be used.");
     ("period", default_field DurationSecond (VInt 0) "Use token_period instead. If this and token_period are both speicified, only token_period will be used.");
     ("role_id", plain_field Str "Identifier of the role. Defaults to a UUID.");
     ("local_secret_ids", default_field Bool (VBool false) "If set, the secret IDs generated using this role will be cluster local. This can only be set during role creation and once set, it can't be reset later.")]
    [(Read, read_role); (Write, write_role); (Delete, delete_role)]).

Definition role_policies_path : Path * list (PathOperation W) :=
  path_with "role/(?P<role_name>\w[\w-]+\w)/policies$" "
A comma-delimited set of Vault policies that defines access to the role.
All the Vault tokens with policies that encompass the policy set
defined on the role, can access the role.
                "
    [("role_name", required_field Str "Name of the role.");
     ("policies", plain_field CommaStringSlice "Use token_policies instead. If this and token_policies are both speicified, only token_policies will be used.");
     ("token_policies", required_field CommaStringSlice "Comma-separated list of policies")]
    [(Read, read_role_policies); (Write, write_role_policies); (Delete, delete_role_policies)].

Definition role_local_secret_ids_path : Path * list (PathOperation W) :=
  path_with "role/(?P<role_name>\w[\w-]+\w)/local-secret-ids$" "If set, the secret IDs generated using this role will be cluster local.
This can only be set during role creation and once set, it can't be reset later.
                "
    [("role_name", required_field Str "Name of the role.")]
    [(Read, read_role_local_secret_ids)].

Definition role_bound_cidr_list_path : Path * list (PathOperation W) :=
  path_with "role/(?P<role_name>\w[\w-]+\w)/bound-cidr-list$" "
During login, the IP address of the client will be checked to see if it
belongs to the CIDR blocks specified. If CIDR blocks were set and if the
IP is not encompassed by it, login fails
                "
    [("role_name", required_field Str "Name of the role.");
     ("bound_cidr_list", plain_field CommaStringSlice "Comma separated string or list of CIDR blocks.
        If set, specifies the blocks of IP addresses which can perform the login operation.")]
    [(Read, read_role_bound_cidr_list); (Write, write_role_bound_cidr_list); (Delete, delete_role_bound_cidr_list)].

Definition role_secret_id_bound_cidrs_path : Path * list (PathOperation W) :=
  path_with "role/(?P<role_name>\w[\w-]+\w)/secret-id-bound-cidrs$" "
During login, the IP address of the client will be checked to see if it
belongs to the CIDR blocks specified. If CIDR blocks were set and if the
IP is not encompassed by it, login fails
                "
    [("role_name", required_field Str "Name of the role.");
     ("secret_id_bound_cidrs", plain_field CommaStringSlice "Comma separated string or list of CIDR blocks.
        If set, specifies the blocks of IP addresses which can perform the login operation.")]
    [(Read, read_role_secret_id_bound_cidrs); (Write, write_role_secret_id_bound_cidrs); (Delete, delete_role_secret_id_bound_cidrs)].

Definition role_token_bound_cidrs_path : Path * list (PathOperation W) :=
  path_with "role/(?P<role_name>\w[\w-]+\w)/token-bound-cidrs$" "
During use of the returned token, the IP address of the client will be checked to see if it
belongs to the CIDR blocks specified. If CIDR blocks were set and if the
IP is not encompassed by it, token use fails
                "
    [("role_name", required_field Str "Name of the role.");
     ("token_bound_cidrs", plain_field CommaStringSlice "Comma separated string or list of CIDR blocks. If set, specifies the blocks of IP addresses which can use the returned token. Should be a subset of the token CIDR blocks listed on the role, if any.")]
    [(Read, read_role_token_bound_cidrs); (Write, write_role_token_bound_cidrs); (Delete, delete_role_token_bound_cidrs)].

Definition role_bind_secret_id_path : Path * list (PathOperation W) :=
  path_with "role/(?P<role_name>\w[\w-]+\w)/bind-secret-id$" "
By setting this to 'true', during login the field 'secret_id' becomes a mandatory argument.
The value of 'secret_id' can be retrieved using 'role/<role_name>/secret-id' endpoint.
                "
    [("role_name", required_field Str "Name of the role.");
     ("bind_secret_id", default_field Bool (VBool true) "Impose secret_id to be presented when logging in using this role. Defaults to 'true'.")]
    [(Read, read_role_bind_secret_id); (Write, write_role_bind_secret_id); (Delete, delete_role_bind_secret_id)].

Definition role_secret_id_num_uses_path : Path * list (PathOperation W) :=
  path_with "role/(?P<role_name>\w[\w-]+\w)/secret-id-num-uses$" "
If a SecretID is generated/assigned against a role using the
'role/<role_name>/secret-id' or 'role/<role_name>/custom-secret-id' endpoint,
then the number of times this SecretID can be used is defined by this option.
However, this option may be overriden by the request's 'num_uses' field.
                "
    [("role_name", required_field Str "Name of the role.");
     ("secret_id_num_uses", default_field Int (VInt 0) "Number of times a secret ID can access the role, after which the SecretID will expire. Defaults to 0 meaning that the secret ID is of unlimited use.")]
    [(Read, read_role_secret_id_num_uses); (Write, write_role_secret_id_num_uses); (Delete, delete_role_secret_id_num_uses)].

Definition role_secret_id_ttl_path : Path * list (PathOperation W) :=
  path_with "role/(?P<role_name>\w[\w-]+\w)/secret-id-ttl$" "
If a SecretID is generated/assigned against a role using the
'role/<role_name>/secret-id' or 'role/<role_name>/custom-secret-id' endpoint,
then the lifetime of this SecretID is defined by this option.
However, this option may be overridden by the request's 'ttl' field.
                "
    [("role_name", required_field Str "Name of the role.");
     ("secret_id_ttl", default_field Int (VInt 0) "Duration in seconds after which the issued secret ID should expire. Defaults to 0, meaning no expiration.")]
    [(Read, read_role_secret_id_ttl); (Write, write_role_secret_id_ttl); (Delete, delete_role_secret_id_ttl)].

Definition role_period_path : Path * list (PathOperation W) :=
  path_with "role/(?P<role_name>\w[\w-]+\w)/period$" "
If set,  indicates that the token generated using this role
should never expire. The token should be renewed within the
duration specified by this value. The renewal duration will
be fixed. If the Period in the role is modified, the token
will pick up the new value during its next renewal.
                "
    [("role_name", required_field Str "Name of the role.");
     ("period", default_field DurationSecond (VInt 0) "Use token_period instead. If this and token_period are both speicified, only token_period will be used.");
     ("token_period", plain_field DurationSecond "If set, tokens created via this role will have no max lifetime; instead, their renewal period will be fixed to this value.")]
    [(Read, read_role_period); (Write, write_role_period); (Delete, delete_role_period)].

Definition role_token_num_uses_path : Path * list (PathOperation W) :=
  path_with "role/(?P<role_name>\w[\w-]+\w)/token-num-uses$" "By default, this will be set to zero, indicating that the issued"
    [("role_name", required_field Str "Name of the role.");
     ("token_num_uses", default_field Int (VInt 0) "The maximum number of times a token may be used, a value of zero means unlimited")]
    [(Read, read_role_token_num_uses); (Write, write_role_token_num_uses); (Delete, delete_role_token_num_uses)].

Definition role_token_ttl_path : Path * list (PathOperation W) :=
  path_with "role/(?P<role_name>\w[\w-]+\w)/token-ttl$" "
If SecretIDs are generated against the role, using 'role/<role_name>/secret-id' or the
'role/<role_name>/custom-secret-id' endpoints, and if those SecretIDs are used
to perform the login operation, then the value of 'token-ttl' defines the
lifetime of the token issued, before which the token needs to be renewed.
                "
    [("role_name", required_field Str "Name of the role.");
     ("token_ttl", plain_field DurationSecond "The initial ttl of the token to generate")]
    [(Read, read_role_token_ttl); (Write, write_role_token_ttl); (Delete, delete_role_token_ttl)].

Definition role_token_max_ttl_path : Path * list (PathOperation W) :=
  path_with "role/(?P<role_name>\w[\w-]+\w)/token-max-ttl$" "
If SecretIDs are generated against the role using 'role/<role_name>/secret-id'
or the 'role/<role_name>/custom-secret-id' endpoints, and if those SecretIDs
are used to perform the login operation, then the value of 'token-max-ttl'
defines the maximum lifetime of the tokens issued, after which the tokens
cannot be renewed. A reauthentication is required after this duration.
This value will be capped by the backend mount's maximum TTL value.
                "
    [("role_name", required_field Str "Name of the role.");
     ("token_max_ttl", plain_field DurationSecond "The maximum lifetime of the generated token")]
    [(Read, read_role_token_max_ttl); (Write, write_role_token_max_ttl); (Delete, delete_role_token_max_ttl)].

Definition role_role_id_path : Path * list (PathOperation W) :=
  path_with "role/(?P<role_name>\w[\w-]+\w)/role-id$" "
If login is performed from an role, then its 'role_id' should be presented
as a credential during the login. This 'role_id' can be retrieved using
this endpoint."
    [("role_name", required_field Str "Name of the role.");
     ("role_id", plain_field Str "Identifier of the role. Defaults to a UUID.")]
    [(Read, read_role_role_id); (Write, write_role_role_id)].

Definition role_secret_id_path : Path * list (PathOperation W) :=
  path_with "role/(?P<role_name>\w[\w-]+\w)/secret-id/?$" "
The SecretID generated using this endpoint will be scoped to access
just this role and none else. The properties of this SecretID will be
based on the options set on the role. It will expire after a period
defined by the 'ttl' field or 'secret_id_ttl' option on the role,
and/or the backend mount's maximum TTL value."
    [("role_name", required_field Str "Name of the role.");
     ("metadata", plain_field Str "Metadata to be tied to the SecretID. This should be a JSON
        formatted string containing the metadata in key value pairs.");
     ("cidr_list", plain_field CommaStringSlice "Comma separated string or list of CIDR blocks enforcing secret IDs to be used from
specific set of IP addresses. If 'bound_cidr_list' is set on the role, then the
list of CIDR blocks listed here should be a subset of the CIDR blocks listed on
the role.");
     ("token_bound_cidrs", plain_field CommaStringSlice "List of CIDR blocks. If set, specifies the blocks of IP addresses which can use the returned token. Should be a subset of the token CIDR blocks listed on the role, if any.");
     ("num_uses", plain_field Int "Number of times this SecretID can be used, after which the SecretID expires.
        Overrides secret_id_num_uses role option when supplied. May not be higher than role's secret_id_num_uses.");
     ("ttl", plain_field DurationSecond "Duration in seconds after which this SecretID expires.
        Overrides secret_id_ttl role option when supplied. May not be longer than role's secret_id_ttl.")]
    [(List, list_role_secret_id); (Write, write_role_secret_id)].

Definition role_secret_id_lookup_path : Path * list (PathOperation W) :=
  path_with "role/(?P<role_name>\w[\w-]+\w)/secret-id/lookup/?$" "This endpoint is used to read the properties of a secret_id associated to a role."
    [("role_name", required_field Str "Name of the role.");
     ("secret_id", plain_field Str "SecretID attached to the role.")]
    [(Write, write_role_secret_id_lookup)].

Definition role_secret_id_destroy_path : Path * list (PathOperation W) :=
  path_with "role/(?P<role_name>\w[\w-]+\w)/secret-id/destroy/?$" "This endpoint is used to delete the properties of a secret_id associated to a role."
    [("role_name", required_field Str "Name of the role.");
     ("secret_id", plain_field Str "SecretID attached to the role.")]
    [(Write, write_role_secret_id_destory); (Delete, delete_role_secret_id_destory)].

Definition role_secret_id_accessor_lookup_path : Path * list (PathOperation W) :=
  path_with "role/(?P<role_name>\w[\w-]+\w)/secret-id-accessor/lookup/?$" "
This is particularly useful to lookup the non-expiring 'secret_id's.
The list operation on the 'role/<role_name>/secret-id' endpoint will return
the 'secret_id_accessor's. This endpoint can be used to read the properties
of the secret. If the 'secret_id_num_uses' field in the response is 0, it
represents a non-expiring 'secret_id'."
    [("role_name", required_field Str "Name of the role.");
     ("secret_id_accessor", plain_field Str "Accessor of the SecretID")]
    [(Write, write_role_secret_id_accessor_lookup)].

Definition role_secret_id_accessor_destroy_path : Path * list (PathOperation W) :=
  path_with "role/(?P<role_name>\w[\w-]+\w)/secret-id-accessor/destroy/?$" "
This is particularly useful to clean-up the non-expiring 'secret_id's.
The list operation on the 'role/<role_name>/secret-id' endpoint will return
the 'secret_id_accessor's. This endpoint can be used to read the properties
of the secret. If the 'secret_id_num_uses' field in the response is 0, it
represents a non-expiring 'secret_id'."
    [("role_name", required_field Str "Name of the role.");
     ("secret_id_accessor", plain_field Str "Accessor of the SecretID")]
    [(Write, write_role_secret_id_accessor_destory); (Delete, delete_role_secret_id_accessor_destory)].

Definition role_custom_secret_id_path : Path * list (PathOperation W) :=
  path_with "role/(?P<role_name>\w[\w-]+\w)/custom-secret-id$" "
This option is not recommended unless there is a specific need
to do so. This will assign a client supplied SecretID to be used to access
the role. This SecretID will behave similarly to the SecretIDs generated by
the backend. The properties of this SecretID will be based on the options
set on the role. It will expire after a period defined by the 'ttl' field
or 'secret_id_ttl' option on the role, and/or the backend mount's maximum TTL value."
    [("role_name", required_field Str "Name of the role.");
     ("secret_id", plain_field Str "SecretID to be attached to the role.");
     ("metadata", plain_field Str "Metadata to be tied to the SecretID. This should be a JSON
        formatted string containing the metadata in key value pairs.");
     ("cidr_list", plain_field CommaStringSlice "Comma separated string or list of CIDR blocks enforcing secret IDs to be used from
specific set of IP addresses. If 'bound_cidr_list' is set on the role, then the
list of CIDR blocks listed here should be a subset of the CIDR blocks listed on
the role.");
     ("token_bound_cidrs", plain_field CommaStringSlice "List of CIDR blocks. If set, specifies the blocks of IP addresses which can use the returned token. Should be a subset of the token CIDR blocks listed on the role, if any.");
     ("num_uses", plain_field Int "Number of times this SecretID can be used, after which the SecretID expires.
        Overrides secret_id_num_uses role option when supplied. May not be higher than role's secret_id_num_uses.");
     ("ttl", plain_field DurationSecond "Duration in seconds after which this SecretID expires.
        Overrides secret_id_ttl role option when supplied. May not be longer than role's secret_id_ttl.")]
    [(Write, write_role_custom_secret_id)].

Definition login_path : Path * list (PathOperation W) :=
  path_with "login$" "
While the credential 'role_id' is required at all times,
other credentials required depends on the properties App role
to which the 'role_id' belongs to. The 'bind_secret_id'
constraint (enabled by default) on the App role requires the
'secret_id' credential to be presented.

'role_id' is fetched using the 'role/<role_name>/role_id'
endpoint and 'secret_id' is fetched using the 'role/<role_name>/secret_id'
endpoint."
    [("role_id", required_field Str "Unique identifier of the Role. Required to be supplied when the 'bind_secret_id' constraint is set.");
     ("secret_id", required_field Str "SecretID belong to the App role")]
    [(Write, login)].

Definition role_paths : list (Path * list (PathOperation W)) :=
  [role_path;
   role_name_path;
   role_policies_path;
   role_local_secret_ids_path;
   role_bound_cidr_list_path;
   role_secret_id_bound_cidrs_path;
   role_token_bound_cidrs_path;
   role_bind_secret_id_path;
   role_secret_id_num_uses_path;
   role_secret_id_ttl_path;
   role_period_path;
   role_token_num_uses_path;
   role_token_ttl_path;
   role_token_max_ttl_path;
   role_role_id_path;
   role_secret_id_path;
   role_secret_id_lookup_path;
   role_secret_id_destroy_path;
   role_secret_id_accessor_lookup_path;
   role_secret_id_accessor_destroy_path;
   role_custom_secret_id_path].

(** The path of the tidy operation starts the routine when the guard is free. *)
Definition tidy_secret_id_path (run : H (option Response)) : Path * list (PathOperation W) :=
  path_with "tidy/secret-id$" "
SecretIDs will have expiration time attached to them. The periodic function
of the backend will look for expired entries and delete them. This happens once in a minute. Invoking
this endpoint will trigger the clean-up action, without waiting for the backend's periodic function.
" [] [(Write, run)].

Definition new_backend {R} (run_tidy : H (option Response)) : LogicalBackend R W :=
  {| paths := (role_paths ++ [login_path; role_path; tidy_secret_id_path run_tidy])%list; paths_re := [];
     root_paths := []; unauth_paths := ["login"]; backend_help := APPROLE_BACKEND_HELP; secrets := [];
     auth_renew_handler := Some login_renew |}.

End approle.

Section init.
Context {S Q C : Type} `{HSt : Storage S} `{HU : UuidGen}.

(** [AppRoleModule::init]: the salt is kept below the system view. *)
Definition init (system_view : option BarrierView.t) : st (World S Q C) RvError AppRole :=
  match system_view with
  | None => st_fail ErrBarrierSealed
  | Some v => let! salt := Salt.new (Some v) None in st_ret {| ar_salt := Some salt |}
  end.
End init.
End AppRole.
