(* ===== verification/AppRoleCorrect.v ===== *)
(** * The AppRole credential is correct

    A login resolves the role id, consumes one use of the secret id and checks
    the address of the client; a secret id with [n] uses logs in [n] times. *)

From stdpp Require Import base tactics list gmap strings pretty.
From Stdlib Require Import ZArith Lia Ascii.
From S2P Require Import Prelude Errors RustStr Utils Lease Storage BarrierCorrect BarrierView Logical LogicalBackend Policy Mount MountCorrect World WorldLaws TokenStore WorldDemo Cidr StoredJson TokenUtil UserPass Salt AppRole.

Local Open Scope string_scope.

(** The times [format_rfc3339] can print: from the epoch to the year 9999. *)
Definition time_ok (t : SystemTime) : Prop := (0 <= t < from_secs 253402300800)%Z.

Class Rfc3339Laws `{HT : Rfc3339} : Prop :=
  parse_format t : time_ok t → parse_rfc3339 (format_rfc3339 t) = Some t.

Section json.
Context `{HH : Humantime} `{HJ : JsonParser} `{HT : Rfc3339} `{HTL : !Rfc3339Laws}.

Definition secret_storable (e : SecretIdStorageEntry) : Prop :=
  (I64_MIN <= se_num_uses e <= I64_MAX)%Z ∧ whole (se_ttl e) ∧ time_ok (se_creation_time e) ∧
  time_ok (se_expiration_time e) ∧ time_ok (se_last_updated_time e).

Lemma time_roundtrip t : time_ok t → AppRole.json_time (AppRole.time_json t) = Some t.
Proof. intros H. unfold AppRole.json_time. cbn. by rewrite parse_format. Qed.

Lemma secret_roundtrip e : secret_storable e → AppRole.secret_of_json (AppRole.secret_json e) = Some e.
Proof.
  intros (H1 & H2 & H3 & H4 & H5). unfold AppRole.secret_of_json, json_field.
  rewrite (eq_refl : AppRole.secret_json e !! "secret_id_accessor" = Some (VStr (se_accessor e))),
    (eq_refl : AppRole.secret_json e !! "secret_id_num_uses" = Some (VInt (se_num_uses e))),
    (eq_refl : AppRole.secret_json e !! "secret_id_ttl" = Some (serialize_duration (se_ttl e))),
    (eq_refl : AppRole.secret_json e !! "creation_time" = Some (AppRole.time_json (se_creation_time e))),
    (eq_refl : AppRole.secret_json e !! "expiration_time" = Some (AppRole.time_json (se_expiration_time e))),
    (eq_refl : AppRole.secret_json e !! "last_updated_time" = Some (AppRole.time_json (se_last_updated_time e))),
    (eq_refl : AppRole.secret_json e !! "metadata" = Some (map_json (se_metadata e))),
    (eq_refl : AppRole.secret_json e !! "cidr_list" = Some (strings_json (se_cidr_list e))),
    (eq_refl : AppRole.secret_json e !! "token_cidr_list" = Some (strings_json (se_token_cidr_list e))).
  cbn [mbind option_bind as_str as_i64]. unfold in_range.
  rewrite (proj2 (andb_true_iff _ _)) by (rewrite !Z.leb_le; lia). cbn [mbind option_bind].
  rewrite duration_json, !time_roundtrip, string_map_json, !json_strings_json by done. by destruct e.
Qed.
End json.

Section theorems.
Context {S Q C : Type} `{HSt : Storage S} `{HSS : !StorageSpec S} `{HCl : Clock} `{HU : UuidGen}
        `{HSJ : Serde (gmap string Value)} `{HSJL : !SerdeLaws (gmap string Value)}
        `{HH : Humantime} `{HJ : JsonParser} `{HI : IpNet} `{HX : HexCodec} `{HD : Digests} `{HDL : !DigestLaws}
        `{HT : Rfc3339} `{HTL : !Rfc3339Laws} `{HE : ErrorText} `{HP : Profile}.
Abbreviation W := (World S Q C).
Import BarrierView.
Implicit Types (w : W) (req : Request).
Context (self : AppRole) (salt : Salt) (v : t).

Abbreviation serves := (serves v).

(** The salt is there, with the default digests. *)
Definition salted : Prop := ar_salt self = Some salt ∧ hash_type (salt_config salt) = SHA256.

Abbreviation at_key := (at_key v).

(** ** Keys *)

Definition hexes (x : string) : Prop := str_forall is_hex x = true ∧ x ≠ "".

Lemma hex32 d : length d = 32 → hexes (hex_encode d).
Proof.
  intros Hd. split; [apply hex_digits|]. intros E. pose proof (hex_length d) as Hl. rewrite E, Hd in Hl. done.
Qed.

Lemma create_hmac_ok k x h : AppRole.create_hmac k x = Ok h → hexes h.
Proof.
  unfold AppRole.create_hmac. destruct (is_empty k); [done|]. destruct (_ <? _)%nat; [done|].
  destruct (sha256_hmac_total (str_bytes k) (str_bytes x)) as (d & -> & Hd). intros [= <-]. by apply hex32.
Qed.

Lemma salt_id_run x : salted → ∃ h, Salt.salt_id salt x = Ok h ∧ hexes h.
Proof.
  intros [_ Hh]. unfold Salt.salt_id, Salt.get_hash. rewrite Hh.
  destruct (sha256_hash_total (str_bytes (salt_text salt ++ x))) as (d & -> & Hd).
  exists (hex_encode d). split; [done|by apply hex32].
Qed.

(** The two places of the secret ids of a role. *)
Definition secret_prefix (p : string) : Prop := p = AppRole.SECRET_ID_PREFIX ∨ p = AppRole.SECRET_ID_LOCAL_PREFIX.

Lemma sane_entry_index p r s : secret_prefix p → hexes r → hexes s → sane (AppRole.entry_index p r s).
Proof.
  intros Hp [Hr _] [Hs _]. apply sane_intro; unfold AppRole.entry_index.
  - rewrite !str_forall_app, (hex_no_dot r Hr), (hex_no_dot s Hs). by destruct Hp as [->| ->].
  - by destruct Hp as [->| ->].
Qed.

Lemma sane_accessor p h : hexes h → sane (AppRole.accessor_prefix p ++ h).
Proof.
  intros [Hh _]. unfold AppRole.accessor_prefix. apply sane_intro.
  - rewrite str_forall_app, (hex_no_dot h Hh). by destruct (String.eqb _ _).
  - by destruct (String.eqb _ _).
Qed.

Lemma accessor_not_entry p h p' r s :
  secret_prefix p' → AppRole.accessor_prefix p ++ h ≠ AppRole.entry_index p' r s.
Proof. intros Hp. unfold AppRole.accessor_prefix, AppRole.entry_index. by destruct (String.eqb _ _), Hp as [->| ->]. Qed.

(** The storage key of an accessor. *)
Definition accessor_key (accessor prefix : string) : string :=
  AppRole.accessor_prefix prefix ++ match Salt.salt_id salt accessor with Ok h => h | _ => "" end.

Lemma accessor_index_run accessor prefix w req :
  salted → AppRole.accessor_index self accessor prefix (w, req) = ((w, req), Ok (accessor_key accessor prefix))
           ∧ sane (accessor_key accessor prefix).
Proof.
  intros Hs. destruct (salt_id_run accessor Hs) as (h & Hh & Hx). unfold AppRole.accessor_index, AppRole.get_salt, accessor_key.
  destruct Hs as [Hs _]. rewrite Hs, Hh. split; [|by apply sane_accessor]. cbn. unfold st_lift. by rewrite Hh.
Qed.

Lemma accessor_entry_run accessor prefix w req :
  salted → serves w req → accessor ≠ "" →
  AppRole.get_secret_id_accessor_entry self accessor prefix (w, req)
  = ((w, req), at_key AppRole.accessor_of_json w (accessor_key accessor prefix)).
Proof.
  intros Hs Hv Ha. unfold AppRole.get_secret_id_accessor_entry. rewrite (is_empty_false _ Ha).
  destruct (accessor_index_run accessor prefix w req Hs) as [Hr Hsane].
  rewrite (st_bind_run _ _ (w, req) (w, req) tt) by done. rewrite (st_bind_run _ _ _ _ _ Hr).
  by apply get_json_run.
Qed.

Lemma secret_entry_run p r s w req :
  serves w req → secret_prefix p → hexes r → hexes s →
  AppRole.get_secret_id_storage_entry p r s (w, req)
  = ((w, req), at_key AppRole.secret_of_json w (AppRole.entry_index p r s)).
Proof.
  intros Hv Hp Hr Hs. unfold AppRole.get_secret_id_storage_entry.
  rewrite (is_empty_false s), (is_empty_false r) by (apply Hs || apply Hr).
  rewrite !(st_bind_run _ _ (w, req) (w, req) tt) by done. apply get_json_run; [done|by apply sane_entry_index].
Qed.

Lemma at_key_ext {A} (conv : gmap string Value → option A) w w' key :
  storage_map (w_store w') !! expand_key v key = storage_map (w_store w) !! expand_key v key →
  at_key conv w' key = at_key conv w key.
Proof. unfold at_key. by intros ->. Qed.

(** ** Roles *)

Definition role_id_index (role_id : string) : string :=
  "role_id/" ++ match Salt.salt_id salt role_id with Ok h => h | _ => "" end.

(** The role a role id stands for. *)
Definition resolves w (role_id : string) (r : RoleEntry) : Prop :=
  role_id ≠ "" ∧ ∃ rid r0,
    at_key AppRole.role_id_of_json w (role_id_index role_id) = Ok (Some rid) ∧
    sane (AppRole.role_key (rie_name rid)) ∧
    at_key AppRole.role_of_json w (AppRole.role_key (rie_name rid)) = Ok (Some r0) ∧
    r = AppRole.upgrade_role (rie_name rid) r0.

Lemma get_role_id_run role_id w req :
  salted → serves w req → role_id ≠ "" →
  AppRole.get_role_id self role_id (w, req) = ((w, req), at_key AppRole.role_id_of_json w (role_id_index role_id)).
Proof.
  intros Hs Hv Hne. destruct (salt_id_run role_id Hs) as (h & Hh & [Hx _]).
  unfold AppRole.get_role_id, role_id_index. rewrite (is_empty_false _ Hne), Hh.
  rewrite (st_bind_run _ _ (w, req) (w, req) tt) by done.
  rewrite (st_bind_run _ _ (w, req) (w, req) ("role_id/" ++ h)).
  - apply get_json_run; [done|]. apply sane_intro; [|done]. by rewrite str_forall_app, (hex_no_dot h Hx).
  - unfold AppRole.role_id_key, AppRole.get_salt. destruct Hs as [Hs _]. rewrite Hs. cbn. unfold st_lift. by rewrite Hh.
Qed.

Lemma get_role_run name w req :
  serves w req → sane (AppRole.role_key name) →
  AppRole.get_role name (w, req)
  = ((w, req), match at_key AppRole.role_of_json w (AppRole.role_key name) with
               | Ok o => Ok (AppRole.upgrade_role name <$> o) | Err e => Err e | Panic => Panic end).
Proof.
  intros Hv Hs. unfold AppRole.get_role, st_bind. rewrite (get_json_run v AppRole.role_of_json _ w req Hv Hs).
  by destruct (at_key _ w _).
Qed.

(** ** The client's address *)

Definition source_result (how : string) (cidrs : list string) req : result unit :=
  match cidrs with
  | [] => Ok tt
  | _ =>
      match connection req with
      | None => Err (AppRole.resp_err "failed to get connection information")
      | Some conn =>
          if is_empty (peer_addr conn) then Err (AppRole.resp_err "failed to get connection information")
          else match Cidr.ip_belongs_to_cidrs (peer_addr conn) cidrs with
               | Ok true => Ok tt
               | Ok false => Err (AppRole.source_refused how (peer_addr conn))
               | Err e => Err e
               | Panic => Panic
               end
      end
  end.

Lemma check_source_run how cidrs w req :
  AppRole.check_source how cidrs (w, req) = ((w, req), source_result how cidrs req).
Proof.
  unfold AppRole.check_source, source_result. destruct cidrs; [done|].
  rewrite (st_bind_run _ _ (w, req) (w, req) req) by done. destruct (connection req) as [conn|]; [|done].
  destruct (is_empty (peer_addr conn)); [done|]. unfold st_bind, st_guard, st_lift.
  by destruct (Cidr.ip_belongs_to_cidrs _ _) as [[]| |].
Qed.

Definition secret_source (e : SecretIdStorageEntry) (r : RoleEntry) req : result unit :=
  let? _ := AppRole.verify_cidr_role_secret_id_subset (se_cidr_list e) (re_secret_id_bound_cidrs r) in
  source_result "through" (se_cidr_list e) req.

Lemma check_secret_source_run e r w req :
  AppRole.check_secret_source e r (w, req) = ((w, req), secret_source e r req).
Proof.
  unfold AppRole.check_secret_source, secret_source, st_bind, st_lift.
  destruct (AppRole.verify_cidr_role_secret_id_subset _ _) as [[]| |]; [|done..]. apply check_source_run.
Qed.

(** ** Secret ids *)

(** The secret id is registered with the role as [e], and its accessor is. *)
Definition registered w (r : RoleEntry) (secret_id rh sh : string) (e : SecretIdStorageEntry) : Prop :=
  AppRole.create_hmac (re_hmac_key r) (re_name r) = Ok rh ∧
  AppRole.create_hmac (re_hmac_key r) secret_id = Ok sh ∧ secret_prefix (re_secret_id_prefix r) ∧
  at_key AppRole.secret_of_json w (AppRole.entry_index (re_secret_id_prefix r) rh sh) = Ok (Some e) ∧
  se_accessor e ≠ "" ∧
  ∃ a, at_key AppRole.accessor_of_json w (accessor_key (se_accessor e) (re_secret_id_prefix r)) = Ok (Some a).

(** Only the key of the secret id and that of its accessor may differ. *)
Definition elsewhere_same (w w' : W) (k1 k2 : string) : Prop :=
  ∀ k, k ≠ k1 → k ≠ k2 →
    storage_map (w_store w') !! expand_key v k = storage_map (w_store w) !! expand_key v k.

Lemma resolves_frame w w' role_id r rh sh accessor :
  secret_prefix (re_secret_id_prefix r) →
  elsewhere_same w w' (AppRole.entry_index (re_secret_id_prefix r) rh sh)
    (accessor_key accessor (re_secret_id_prefix r)) →
  resolves w role_id r → resolves w' role_id r.
Proof.
  intros Hp Hf (Hne & rid & r0 & H1 & H2 & H3 & H4). split; [done|]. exists rid, r0.
  assert (∀ k, starts_with "role" k = true →
               storage_map (w_store w') !! expand_key v k = storage_map (w_store w) !! expand_key v k) as Hk.
  { intros k Hr. apply Hf; intros ->; [by destruct Hp as [Hp|Hp]; rewrite Hp in Hr|].
    unfold accessor_key, AppRole.accessor_prefix in Hr. by destruct (String.eqb _ _). }
  rewrite <- H1, <- H3. split_and!; [apply at_key_ext, Hk; done|done|apply at_key_ext, Hk; done|done].
Qed.

(** One use of a secret id with uses to spare. *)
Lemma consume_more w req r secret_id rh sh e :
  salted → serves w req → registered w r secret_id rh sh e → secret_storable e →
  (1 < se_num_uses e)%Z → (∀ i, time_ok (clock_at i)) → secret_source e r req = Ok tt →
  ∃ w' e', AppRole.consume_secret_id self r (rh, sh) (w, req) = ((w', req), Ok tt) ∧ serves w' req ∧
    registered w' r secret_id rh sh e' ∧ se_num_uses e' = (se_num_uses e - 1)%Z ∧ secret_storable e' ∧
    (∀ q, secret_source e' r q = secret_source e r q) ∧
    elsewhere_same w w' (AppRole.entry_index (re_secret_id_prefix r) rh sh)
      (accessor_key (se_accessor e) (re_secret_id_prefix r)).
Proof.
  intros Hs Hv (Hrh & Hsh & Hp & He & Ha & a & Hacc) Hst Hn Hclk Hsrc.
  pose proof (create_hmac_ok _ _ _ Hrh) as Hxr. pose proof (create_hmac_ok _ _ _ Hsh) as Hxs.
  unfold AppRole.consume_secret_id. cbn [fst snd].
  rewrite (st_bind_run _ _ _ (w, req) (Some e)) by (rewrite (secret_entry_run _ _ _ w req Hv Hp Hxr Hxs); by rewrite He).
  rewrite (st_bind_run _ _ _ (w, req) e) by done.
  rewrite (proj2 (Z.eqb_neq _ _)) by lia. cbv iota.
  assert (AppRole.i64_pred (se_num_uses e) = Ok (se_num_uses e - 1)%Z) as Hpred.
  { unfold AppRole.i64_pred. rewrite (proj2 (Z.ltb_ge _ _)); [done|]. unfold I64_MIN. lia. }
  set (e' := AppRole.se_used (se_num_uses e - 1) (clock_at (w_ticks w)) e).
  set (w1 := fst (now w)).
  assert (serves w1 req) as Hv1 by (destruct Hv as (? & ? & ?); by split_and!).
  destruct (put_json_run v (AppRole.entry_index (re_secret_id_prefix r) rh sh) (AppRole.secret_json e') w1 req Hv1)
    as (w' & b & Hr & Hc' & Hde & Hm); [by apply sane_entry_index|].
  exists w', e'. unfold st_bind at 1. rewrite (st_bind_run _ _ _ (w, req) (se_num_uses e - 1)%Z) by (unfold st_lift; by rewrite Hpred).
  rewrite (st_bind_run _ _ _ (w1, req) (clock_at (w_ticks w))) by done. fold e'.
  rewrite (st_bind_run _ _ _ _ _ Hr). cbn [st_ret].
  assert (secret_storable e') as Hst'.
  { destruct Hst as (? & ? & ? & ? & ?). unfold secret_storable, e'. cbn [AppRole.se_used se_num_uses se_ttl se_creation_time se_expiration_time se_last_updated_time].
    unfold I64_MIN in *. split; [lia|]. by split_and!. }
  assert (at_key AppRole.secret_of_json w' (AppRole.entry_index (re_secret_id_prefix r) rh sh) = Ok (Some e')) as He'.
  { unfold at_key. rewrite Hm, lookup_insert_eq, Hde. cbn [mbind option_bind]. by rewrite (secret_roundtrip e' Hst'). }
  assert (elsewhere_same w w' (AppRole.entry_index (re_secret_id_prefix r) rh sh)
            (accessor_key (se_accessor e) (re_secret_id_prefix r))) as Hf.
  { intros k Hk _. rewrite Hm, lookup_insert_ne; [done|]. intros E. by apply expand_inj in E. }
  split_and!; try done.
  - rewrite check_secret_source_run. by rewrite <- Hsrc.
  - destruct Hv as (? & ? & ?). by split_and!.
  - split_and!; try done. exists a. rewrite <- Hacc. apply at_key_ext. rewrite Hm, lookup_insert_ne; [done|].
    intros E. apply expand_inj in E. symmetry in E. by apply accessor_not_entry in E.
Qed.

(** The last use removes the secret id and its accessor. *)
Lemma consume_last w req r secret_id rh sh e :
  salted → serves w req → registered w r secret_id rh sh e → se_num_uses e = 1%Z → secret_source e r req = Ok tt →
  ∃ w', AppRole.consume_secret_id self r (rh, sh) (w, req) = ((w', req), Ok tt) ∧ serves w' req ∧
    at_key AppRole.secret_of_json w' (AppRole.entry_index (re_secret_id_prefix r) rh sh) = Ok None ∧
    elsewhere_same w w' (AppRole.entry_index (re_secret_id_prefix r) rh sh)
      (accessor_key (se_accessor e) (re_secret_id_prefix r)).
Proof.
  intros Hs Hv (Hrh & Hsh & Hp & He & Ha & a & Hacc) Hn Hsrc.
  pose proof (create_hmac_ok _ _ _ Hrh) as Hxr. pose proof (create_hmac_ok _ _ _ Hsh) as Hxs.
  unfold AppRole.consume_secret_id. cbn [fst snd].
  rewrite (st_bind_run _ _ _ (w, req) (Some e)) by (rewrite (secret_entry_run _ _ _ w req Hv Hp Hxr Hxs); by rewrite He).
  rewrite (st_bind_run _ _ _ (w, req) e) by done. rewrite Hn. cbv iota beta. cbn [Z.eqb Pos.eqb].
  destruct (accessor_index_run (se_accessor e) (re_secret_id_prefix r) w req Hs) as [Hidx Hsane].
  destruct Hv as (Hst & Hc & Hk).
  destruct (req_delete_run v _ w req Hst Hc Hsane Hk) as (w1 & Hd1 & Hc1 & Hm1).
  destruct (req_delete_run v _ w1 req Hst Hc1 (sane_entry_index _ _ _ Hp Hxr Hxs) Hk) as (w2 & Hd2 & Hc2 & Hm2).
  exists w2. unfold st_bind at 1.
  rewrite (st_bind_run _ _ _ (w1, req) tt)
    by (unfold AppRole.delete_secret_id_accessor_entry; by rewrite (st_bind_run _ _ _ _ _ Hidx)).
  rewrite (st_bind_run _ _ _ _ _ Hd2). cbn [st_ret]. rewrite check_secret_source_run, Hsrc. split_and!; try done.
  - unfold at_key. by rewrite Hm2, lookup_delete_eq.
  - intros k Hk1 Hk2. rewrite Hm2, lookup_delete_ne, Hm1, lookup_delete_ne; [done|..];
      intros E; by apply expand_inj in E.
Qed.

(** ** Logins *)

Definition asked req (key x : string) : Prop := RequestOps.get_data_as_str req key = Ok x.

Lemma asked_str_run key x w req : asked req key x → AppRole.data_str key (w, req) = ((w, req), Ok x).
Proof. unfold asked, AppRole.data_str. intros H. cbn. unfold st_lift. by rewrite H. Qed.

(** A login up to the checks of the role. *)
Lemma login_role_run role_id r w req :
  salted → serves w req → asked req "role_id" role_id → resolves w role_id r →
  AppRole.login self (w, req)
  = (let! meta := if re_bind_secret_id r then AppRole.login_secret_id self r else st_ret ∅ in
     let! _ := AppRole.check_source "by" (re_secret_id_bound_cidrs r) in
     let! t := on_world now in
     st_ret (Some (ResponseOps.set_auth (Some (AppRole.login_auth t r meta)) ResponseOps.new))) (w, req).
Proof.
  intros Hs Hv Ha (Hne & rid & r0 & H1 & H2 & H3 & ->). unfold AppRole.login.
  rewrite (st_bind_run _ _ _ _ _ (asked_str_run _ _ w req Ha)).
  rewrite (st_bind_run _ _ _ (w, req) (Some rid)) by (by rewrite (get_role_id_run _ w req Hs Hv Hne), H1).
  rewrite (st_bind_run _ _ _ (w, req) rid) by done.
  rewrite (st_bind_run _ _ _ (w, req) (Some (AppRole.upgrade_role (rie_name rid) r0)))
    by (by rewrite (get_role_run _ w req Hv H2), H3).
  by rewrite (st_bind_run _ _ _ (w, req) (AppRole.upgrade_role (rie_name rid) r0)).
Qed.

(** The checks of a registered secret id. *)
Lemma login_secret_run w req r secret_id rh sh e :
  salted → serves w req → asked req "secret_id" secret_id → registered w r secret_id rh sh e →
  AppRole.login_secret_id self r (w, req)
  = (let! _ := if (se_num_uses e =? 0)%Z then AppRole.check_secret_source e r
               else AppRole.consume_secret_id self r (rh, sh) in st_ret (se_metadata e)) (w, req).
Proof.
  intros Hs Hv Ha (Hrh & Hsh & Hp & He & Hne & a & Hacc).
  pose proof (create_hmac_ok _ _ _ Hrh) as Hxr. pose proof (create_hmac_ok _ _ _ Hsh) as Hxs.
  unfold AppRole.login_secret_id, asked in *. rewrite (st_bind_run _ _ _ (w, req) req) by done.
  rewrite (st_bind_run _ _ _ (w, req) secret_id) by (unfold st_lift; by rewrite Ha).
  rewrite (st_bind_run _ _ _ (w, req) sh) by (unfold st_lift; by rewrite Hsh).
  rewrite (st_bind_run _ _ _ (w, req) rh) by (unfold st_lift; by rewrite Hrh).
  rewrite (st_bind_run _ _ _ (w, req) (Some e)) by (rewrite (secret_entry_run _ _ _ w req Hv Hp Hxr Hxs); by rewrite He).
  rewrite (st_bind_run _ _ _ (w, req) e) by done.
  by rewrite (st_bind_run _ _ _ (w, req) (Some a))
    by (rewrite (accessor_entry_run _ _ w req Hs Hv Hne); by rewrite Hacc).
Qed.

(** A secret id that is not stored. *)
Lemma login_secret_missing w req r secret_id rh sh :
  serves w req → asked req "secret_id" secret_id → secret_prefix (re_secret_id_prefix r) →
  AppRole.create_hmac (re_hmac_key r) (re_name r) = Ok rh →
  AppRole.create_hmac (re_hmac_key r) secret_id = Ok sh →
  at_key AppRole.secret_of_json w (AppRole.entry_index (re_secret_id_prefix r) rh sh) = Ok None →
  AppRole.login_secret_id self r (w, req) = ((w, req), Err (AppRole.resp_err "invalid secret id")).
Proof.
  intros Hv Ha Hp Hrh Hsh He.
  pose proof (create_hmac_ok _ _ _ Hrh) as Hxr. pose proof (create_hmac_ok _ _ _ Hsh) as Hxs.
  unfold AppRole.login_secret_id, asked in *. rewrite (st_bind_run _ _ _ (w, req) req) by done.
  rewrite (st_bind_run _ _ _ (w, req) secret_id) by (unfold st_lift; by rewrite Ha).
  rewrite (st_bind_run _ _ _ (w, req) sh) by (unfold st_lift; by rewrite Hsh).
  rewrite (st_bind_run _ _ _ (w, req) rh) by (unfold st_lift; by rewrite Hrh).
  by rewrite (st_bind_run _ _ _ (w, req) None) by (rewrite (secret_entry_run _ _ _ w req Hv Hp Hxr Hxs); by rewrite He).
Qed.

(** Repeated logins with the same request. *)
Fixpoint logins (k : nat) w req : W * list (result (option Response)) :=
  match k with
  | O => (w, [])
  | Datatypes.S k =>
      let '((w, _), x) := AppRole.login self (w, req) in
      let '(w, l) := logins k w req in (w, x :: l)
  end.

(** A login that was granted the policies of the role. *)
Definition granted (r : RoleEntry) (x : result (option Response)) : Prop :=
  ∃ resp a, x = Ok (Some resp) ∧ resp_auth resp = Some a ∧
    policies a = tp_token_policies (re_token_params r) ∧ metadata a !! "role_name" = Some (re_name r).

Lemma granted_end r meta w req :
  source_result "by" (re_secret_id_bound_cidrs r) req = Ok tt →
  ∃ w' x, (let! _ := AppRole.check_source "by" (re_secret_id_bound_cidrs r) in
           let! t := on_world now in
           st_ret (Some (ResponseOps.set_auth (Some (AppRole.login_auth t r meta)) ResponseOps.new))) (w, req)
          = ((w', req), x) ∧ w_store w' = w_store w ∧ granted r x.
Proof.
  intros Hsrc. rewrite (st_bind_run _ _ _ (w, req) tt) by (by rewrite check_source_run, Hsrc).
  eexists _, _. split; [reflexivity|]. split; [done|]. eexists _, _. split_and!; [done|done|done|].
  apply lookup_insert_eq.
Qed.

(** Refused logins leave the world as it is. *)
Lemma logins_refused role_id secret_id r rh sh w req m :
  salted → serves w req → asked req "role_id" role_id → asked req "secret_id" secret_id →
  resolves w role_id r → re_bind_secret_id r = true → secret_prefix (re_secret_id_prefix r) →
  AppRole.create_hmac (re_hmac_key r) (re_name r) = Ok rh →
  AppRole.create_hmac (re_hmac_key r) secret_id = Ok sh →
  at_key AppRole.secret_of_json w (AppRole.entry_index (re_secret_id_prefix r) rh sh) = Ok None →
  logins m w req = (w, replicate m (Err (AppRole.resp_err "invalid secret id"))).
Proof.
  intros Hs Hv Hr Hi Hres Hb Hp Hrh Hsh He. induction m as [|m IH]; [done|]. cbn [logins replicate].
  rewrite (login_role_run role_id r w req Hs Hv Hr Hres), Hb.
  rewrite (st_bind_err _ _ _ _ _ (login_secret_missing w req r secret_id rh sh Hv Hi Hp Hrh Hsh He)). by rewrite IH.
Qed.

(** A login with a limited secret id that is consumed. *)
Lemma login_consume role_id secret_id rh sh r e w w' req :
  salted → serves w req → asked req "role_id" role_id → asked req "secret_id" secret_id →
  resolves w role_id r → re_bind_secret_id r = true → registered w r secret_id rh sh e → se_num_uses e ≠ 0%Z →
  AppRole.consume_secret_id self r (rh, sh) (w, req) = ((w', req), Ok tt) →
  source_result "by" (re_secret_id_bound_cidrs r) req = Ok tt →
  ∃ w2 x, AppRole.login self (w, req) = ((w2, req), x) ∧ w_store w2 = w_store w' ∧ granted r x.
Proof.
  intros Hs Hv Hr Hi Hres Hb Hreg Hn Hc Hby. rewrite (login_role_run role_id r w req Hs Hv Hr Hres), Hb.
  rewrite (st_bind_run _ _ _ (w', req) (se_metadata e)); [by apply granted_end|].
  rewrite (login_secret_run w req r secret_id rh sh e Hs Hv Hi Hreg), (proj2 (Z.eqb_neq _ _) Hn).
  by rewrite (st_bind_run _ _ _ _ _ Hc).
Qed.

(** The uses of a secret id, whatever its expiration time: a login does not look
    at it. *)
Lemma secret_id_logins (w : W) req (role_id secret_id rh sh : string) (r : RoleEntry)
    (e : SecretIdStorageEntry) (n m : nat) :
  salted → serves w req → asked req "role_id" role_id → asked req "secret_id" secret_id →
  resolves w role_id r → re_bind_secret_id r = true → registered w r secret_id rh sh e → secret_storable e →
  (∀ i, time_ok (clock_at i)) → secret_source e r req = Ok tt →
  source_result "by" (re_secret_id_bound_cidrs r) req = Ok tt → n ≠ 0%nat → se_num_uses e = Z.of_nat n →
  ∃ l, snd (logins (n + m) w req) = (l ++ replicate m (Err (AppRole.resp_err "invalid secret id")))%list ∧
       length l = n ∧ Forall (granted r) l.
Proof.
  intros Hs Hv Hr Hi Hres Hb Hreg Hst Hclk Hsrc Hby Hn0 Hn.
  revert w e Hv Hres Hreg Hst Hsrc Hn. induction n as [|n IH]; [done|]. intros w e Hv Hres Hreg Hst Hsrc Hn.
  pose proof Hreg as (Hrh & Hsh & Hp & _). cbn [Nat.add logins].
  destruct (decide (n = 0%nat)) as [->|Hn1].
  - destruct (consume_last w req r secret_id rh sh e Hs Hv Hreg Hn Hsrc) as (w1 & Hc & Hv1 & Hgone & Hf).
    destruct (login_consume role_id secret_id rh sh r e w w1 req) as (w2 & x & Hl & Hw2 & Hg); try done; [by rewrite Hn|].
    rewrite Hl. apply (resolves_frame _ _ role_id _ _ _ _ Hp Hf) in Hres.
    assert (∀ A (conv : gmap string Value → option A) k, at_key conv w2 k = at_key conv w1 k) as Hat
      by (intros A conv k; apply at_key_ext; by rewrite Hw2).
    change (0 + m)%nat with m. rewrite (logins_refused role_id secret_id r rh sh w2 req m); try done.
    + exists [x]. by split_and!; [| |constructor].
    + unfold serves. by rewrite Hw2.
    + unfold resolves. setoid_rewrite Hat. exact Hres.
    + by rewrite Hat.
  - destruct (consume_more w req r secret_id rh sh e Hs Hv Hreg Hst) as (w1 & e1 & Hc & Hv1 & Hreg1 & Hn1' & Hst1 & Hsrc1 & Hf);
      [lia|done|done|].
    destruct (login_consume role_id secret_id rh sh r e w w1 req) as (w2 & x & Hl & Hw2 & Hg); try done; [lia|].
    rewrite Hl. apply (resolves_frame _ _ role_id _ _ _ _ Hp Hf) in Hres.
    assert (∀ A (conv : gmap string Value → option A) k, at_key conv w2 k = at_key conv w1 k) as Hat
      by (intros A conv k; apply at_key_ext; by rewrite Hw2).
    destruct (IH Hn1 w2 e1) as (l & Hl2 & Hlen & Hall).
    + unfold serves. by rewrite Hw2.
    + unfold resolves. setoid_rewrite Hat. exact Hres.
    + unfold registered. setoid_rewrite Hat. exact Hreg1.
    + done.
    + by rewrite Hsrc1.
    + lia.
    + destruct (logins (n + m) w2 req) as [w3 l3]. cbn [snd] in Hl2. subst l3. exists (x :: l).
      split_and!; [done|cbn [length]; by rewrite Hlen|by constructor].
Qed.

(** A secret id that has not expired: it never does, or no reading of the clock
    from now on is past its expiration time. *)
Definition unexpired (e : SecretIdStorageEntry) w : Prop :=
  se_ttl e = 0%Z ∨ ∀ i, (w_ticks w <= i)%nat → (clock_at i <= se_expiration_time e)%Z.

(** C31: a secret id with [n] uses that does not expire, or not during the logins,
    logs in exactly [n] times, each time with the policies of its role, and is
    refused from then on. *)
Theorem secret_id_uses_counted (w : W) req (role_id secret_id rh sh : string) (r : RoleEntry)
    (e : SecretIdStorageEntry) (n m : nat) :
  salted → serves w req → asked req "role_id" role_id → asked req "secret_id" secret_id →
  resolves w role_id r → re_bind_secret_id r = true → registered w r secret_id rh sh e → secret_storable e → unexpired e w →
  (∀ i, time_ok (clock_at i)) → secret_source e r req = Ok tt →
  source_result "by" (re_secret_id_bound_cidrs r) req = Ok tt → n ≠ 0%nat → se_num_uses e = Z.of_nat n →
  ∃ l, snd (logins (n + m) w req) = (l ++ replicate m (Err (AppRole.resp_err "invalid secret id")))%list ∧
       length l = n ∧ Forall (granted r) l.
Proof.
  intros Hs Hv Hr Hi Hres Hb Hreg Hst _ Hclk Hsrc Hby Hn0 Hn. by eapply secret_id_logins.
Qed.

(** An expired secret id that is still stored logs in as long as it has uses. *)
Theorem expired_secret_id_logs_in (w : W) req (role_id secret_id rh sh : string) (r : RoleEntry)
    (e : SecretIdStorageEntry) (n : nat) :
  salted → serves w req → asked req "role_id" role_id → asked req "secret_id" secret_id →
  resolves w role_id r → re_bind_secret_id r = true → registered w r secret_id rh sh e → secret_storable e →
  (∀ i, time_ok (clock_at i)) → secret_source e r req = Ok tt →
  source_result "by" (re_secret_id_bound_cidrs r) req = Ok tt → n ≠ 0%nat → se_num_uses e = Z.of_nat n →
  se_ttl e ≠ 0%Z → (∀ i, (w_ticks w <= i)%nat → (se_expiration_time e < clock_at i)%Z) →
  length (snd (logins n w req)) = n ∧ Forall (granted r) (snd (logins n w req)).
Proof.
  intros Hs Hv Hr Hi Hres Hb Hreg Hst Hclk Hsrc Hby Hn0 Hn _ _.
  destruct (secret_id_logins w req role_id secret_id rh sh r e n 0) as (l & Hl & Hlen & Hg); try done.
  rewrite Nat.add_0_r in Hl. rewrite Hl. simpl. by rewrite app_nil_r.
Qed.

(** ** What a successful login went through *)

Lemma accessor_entry_ok accessor prefix w req s' x :
  salted → serves w req → AppRole.get_secret_id_accessor_entry self accessor prefix (w, req) = (s', Ok x) →
  s' = (w, req) ∧ at_key AppRole.accessor_of_json w (accessor_key accessor prefix) = Ok x.
Proof.
  intros Hs Hv H. unfold AppRole.get_secret_id_accessor_entry in H. inv_run.
  destruct (accessor_index_run accessor prefix w req Hs) as [Hr _].
  match goal with H : AppRole.accessor_index _ _ _ _ = _ |- _ => rewrite Hr in H; injection H as <- <- end.
  by apply (get_json_ok v) in H.
Qed.

Lemma secret_entry_ok p rh sh w req s' x :
  serves w req → AppRole.get_secret_id_storage_entry p rh sh (w, req) = (s', Ok x) →
  s' = (w, req) ∧ at_key AppRole.secret_of_json w (AppRole.entry_index p rh sh) = Ok x.
Proof.
  intros Hv H. unfold AppRole.get_secret_id_storage_entry in H. inv_run. by apply (get_json_ok v) in H.
Qed.

(** Whatever the storage does, a use ends with the check of the source. *)
Lemma delete_accessor_req accessor prefix w req s' x :
  AppRole.delete_secret_id_accessor_entry self accessor prefix (w, req) = (s', Ok x) → snd s' = req.
Proof.
  intros H. unfold AppRole.delete_secret_id_accessor_entry, AppRole.accessor_index, AppRole.get_salt in H. inv_run.
  subst. by apply req_delete_req in H.
Qed.

Lemma consume_ok r rh sh w req s' :
  serves w req → AppRole.consume_secret_id self r (rh, sh) (w, req) = (s', Ok tt) →
  snd s' = req ∧
  ∃ e, at_key AppRole.secret_of_json w (AppRole.entry_index (re_secret_id_prefix r) rh sh) = Ok (Some e) ∧
       secret_source e r req = Ok tt.
Proof.
  intros Hv H. unfold AppRole.consume_secret_id in H. inv_steps. cbn [fst snd] in *.
  match goal with H : AppRole.get_secret_id_storage_entry _ _ _ _ = _ |- _ => apply secret_entry_ok in H as [-> He]; [|done] end.
  match goal with H : st_lift (of_option _ _) _ = _ |- _ => apply st_lift_option_ok in H as [-> ->] end.
  match goal with H : (if _ then _ else _) (w, req) = (?c, Ok ?e1) |- _ =>
    assert (snd c = req ∧ ∀ q, secret_source e1 r q = secret_source a0 r q) as [Hreq Hsrc] end.
  { destruct (Z.eqb _ 1); inv_steps.
    - match goal with H : AppRole.delete_secret_id_accessor_entry _ _ _ _ = (?c, _) |- _ =>
        apply delete_accessor_req in H; destruct c; cbn [snd] in H; subst end.
      match goal with H : req_delete _ _ = _ |- _ => apply req_delete_req in H end.
      match goal with H : st_ret _ _ = _ |- _ => injection H as <- <- end. done.
    - inv_run. match goal with H : put_json _ _ _ = _ |- _ => apply put_json_req in H end. by subst. }
  destruct c1 as [w1 req1]. cbn [snd] in Hreq. subst req1. rewrite check_secret_source_run in H.
  injection H as <- H. split; [done|]. exists a0. by rewrite <- Hsrc.
Qed.

(** What admits a request of a role bound to secret ids. *)
Definition presents w req (r : RoleEntry) : Prop :=
  ∃ secret_id rh sh e a, asked req "secret_id" secret_id ∧
    AppRole.create_hmac (re_hmac_key r) (re_name r) = Ok rh ∧
    AppRole.create_hmac (re_hmac_key r) secret_id = Ok sh ∧
    at_key AppRole.secret_of_json w (AppRole.entry_index (re_secret_id_prefix r) rh sh) = Ok (Some e) ∧
    at_key AppRole.accessor_of_json w (accessor_key (se_accessor e) (re_secret_id_prefix r)) = Ok (Some a) ∧
    secret_source e r req = Ok tt.

Lemma login_secret_ok r w req s' meta :
  salted → serves w req → AppRole.login_secret_id self r (w, req) = (s', Ok meta) →
  snd s' = req ∧ presents w req r.
Proof.
  intros Hs Hv H. unfold AppRole.login_secret_id in H. inv_run.
  match goal with H : AppRole.get_secret_id_storage_entry _ _ _ _ = _ |- _ => apply secret_entry_ok in H as [-> He]; [|done] end.
  match goal with H : of_option _ ?o = Ok ?e |- _ => destruct o as [e0|]; [injection H as <-|discriminate H] end.
  match goal with H : AppRole.get_secret_id_accessor_entry _ _ _ _ = _ |- _ => apply accessor_entry_ok in H as [-> Hacc]; [|done..] end.
  match type of Hacc with _ = Ok ?o => destruct o as [acc|] end.
  2: { destruct (req_delete _ _) as [s1 [| |]]; discriminate H. }
  inv_steps. match goal with H : st_ret _ _ = _ |- _ => injection H as <- _ end. destruct a.
  assert (snd c = req ∧ secret_source e0 r req = Ok tt) as [Hc Hsrc].
  { destruct (Z.eqb _ 0).
    - rewrite check_secret_source_run in Hstep. by injection Hstep as <- ->.
    - apply consume_ok in Hstep as (Hc & e & He' & Hsrc); [|done]. split; [done|]. congruence. }
  split; [done|]. by exists a0, a2, a1, e0, acc.
Qed.

(** C30: a login is answered with authentication data only when the role id of
    the request is stored and leads to a stored role, when a role bound to
    secret ids was presented one that is registered with it and has its
    accessor, and when the client's address is in the blocks of the secret id
    and of the role; the data then carry the policies of that role. *)
Theorem approle_login_sound (w : W) req s' (resp : Response) (a : Auth) :
  salted → serves w req → AppRole.login self (w, req) = (s', Ok (Some resp)) → resp_auth resp = Some a →
  ∃ role_id rid r0, asked req "role_id" role_id ∧
    at_key AppRole.role_id_of_json w (role_id_index role_id) = Ok (Some rid) ∧
    at_key AppRole.role_of_json w (AppRole.role_key (rie_name rid)) = Ok (Some r0) ∧
    let r := AppRole.upgrade_role (rie_name rid) r0 in
    (re_bind_secret_id r = true → presents w req r) ∧
    source_result "by" (re_secret_id_bound_cidrs r) req = Ok tt ∧
    policies a = tp_token_policies (re_token_params r) ∧ metadata a !! "role_name" = Some (re_name r).
Proof.
  intros Hs Hv H Ha. unfold AppRole.login, AppRole.data_str in H. inv_run. subst.
  match goal with H : AppRole.get_role_id _ ?x _ = _ |- _ =>
    destruct (decide (x = "")) as [->|Hne]; [discriminate H|rewrite (get_role_id_run x w req Hs Hv Hne) in H;
      injection H as <- Hrid] end.
  match goal with H : of_option _ ?o = Ok ?e |- _ => destruct o as [rid|]; [injection H as <-|discriminate H] end.
  match goal with H : AppRole.get_role _ _ = _ |- _ => unfold AppRole.get_role in H; inv_run end.
  match goal with H : get_json _ AppRole.role_of_json _ = _ |- _ => apply (get_json_ok v) in H as [-> Hr0]; [|done] end.
  destruct a1 as [a1|]; [|discriminate H1]. injection H1 as ->. destruct a3 as [r0|]; [|discriminate H0].
  injection H0 as <-. injection H as <-. injection Ha as <-.
  set (r := AppRole.upgrade_role (rie_name a2) r0) in *.
  assert (snd c4 = req ∧ (re_bind_secret_id r = true → presents w req r)) as [Hc4 Hp].
  { destruct (re_bind_secret_id r); [apply login_secret_ok in Hstep4 as [? ?]; done|]. by injection Hstep4 as <- _. }
  destruct c4 as [w4 req4]. cbn [snd] in Hc4. subst req4. rewrite check_source_run in Hstep5. injection Hstep5 as <- Hsrc.
  exists a0, a2, r0. do 3 (split; [done|]). cbv zeta. fold r. split; [exact Hp|]. split; [by destruct a6|].
  split; [done|apply lookup_insert_eq].
Qed.

(** ** Tidying *)

Lemma delete_secret_run p rh sh w req :
  serves w req → secret_prefix p → hexes rh → hexes sh →
  ∃ w', AppRole.delete_secret_id_storage_entry p rh sh (w, req) = ((w', req), Ok tt) ∧ serves w' req ∧
    storage_map (w_store w') = base.delete (expand_key v (AppRole.entry_index p rh sh)) (storage_map (w_store w)).
Proof.
  intros (Hst & Hc & Hk) Hp Hr Hs. unfold AppRole.delete_secret_id_storage_entry.
  rewrite (is_empty_false sh), (is_empty_false rh) by (apply Hs || apply Hr).
  rewrite !(st_bind_run _ _ (w, req) (w, req) tt) by done.
  destruct (req_delete_run v _ w req Hst Hc (sane_entry_index _ _ _ Hp Hr Hs) Hk) as (w' & Hd & Hc' & Hm).
  by exists w'.
Qed.

(** An entry whose expiration time is past goes, whatever its time to live. *)
Lemma cleanup_expired p rh sh e w req :
  salted → serves w req → secret_prefix p → hexes rh → hexes sh →
  at_key AppRole.secret_of_json w (AppRole.entry_index p rh sh) = Ok (Some e) → se_accessor e ≠ "" →
  (∃ a, at_key AppRole.accessor_of_json w (accessor_key (se_accessor e) p) = Ok (Some a)) →
  (se_expiration_time e < clock_at (w_ticks w))%Z →
  ∃ w', AppRole.cleanup_secret_id self p rh sh (w, req) = ((w', req), Ok None) ∧
    at_key AppRole.secret_of_json w' (AppRole.entry_index p rh sh) = Ok None.
Proof.
  intros Hs Hv Hp Hr Hh He Hne [a Ha] Ht. unfold AppRole.cleanup_secret_id.
  rewrite (st_bind_run _ _ _ (w, req) (Some e)) by (rewrite (secret_entry_run _ _ _ w req Hv Hp Hr Hh); by rewrite He).
  rewrite (st_bind_run _ _ _ (w, req) e) by done.
  rewrite (st_bind_run _ _ _ (w, req) (Some a)) by (rewrite (accessor_entry_run _ _ w req Hs Hv Hne); by rewrite Ha).
  rewrite (st_bind_run _ _ _ (fst (now w), req) (clock_at (w_ticks w))) by done.
  rewrite (proj2 (Z.ltb_lt _ _) Ht).
  assert (serves (fst (now w)) req) as (Hst & Hc & Hk) by (destruct Hv as (? & ? & ?); by split_and!).
  destruct (accessor_index_run (se_accessor e) p (fst (now w)) req Hs) as [Hidx Hsane].
  destruct (req_delete_run v _ (fst (now w)) req Hst Hc Hsane Hk) as (w1 & Hd1 & Hc1 & Hm1).
  rewrite (st_bind_run _ _ _ (w1, req) tt)
    by (unfold AppRole.delete_secret_id_accessor_entry; by rewrite (st_bind_run _ _ _ _ _ Hidx)).
  destruct (delete_secret_run p rh sh w1 req) as (w2 & Hd2 & _ & Hm2); [by split_and!|done..|].
  exists w2. rewrite (st_bind_run _ _ _ _ _ Hd2). split; [done|]. unfold at_key. by rewrite Hm2, lookup_delete_eq.
Qed.

(** A new accessor and its entry. *)
Lemma create_accessor_run sh p w req :
  salted → serves w req →
  ∃ w' acc, acc = generate_uuid (w_uuids w) ∧
    AppRole.create_secret_id_accessor_entry self sh p (w, req) = ((w', req), Ok acc) ∧ serves w' req ∧
    at_key AppRole.accessor_of_json w' (accessor_key acc p) = Ok (Some {| sa_secret_id_hmac := sh |}).
Proof.
  intros Hs (Hst & Hc & Hk). set (w1 := fst (fresh_uuid w)).
  assert (serves w1 req) as Hv1 by (by split_and!).
  destruct (accessor_index_run (generate_uuid (w_uuids w)) p w1 req Hs) as [Hidx Hsane].
  destruct (put_json_run v _ (AppRole.accessor_json {| sa_secret_id_hmac := sh |}) w1 req Hv1 Hsane)
    as (w2 & b & Hr & Hc2 & Hde & Hm).
  exists w2, (generate_uuid (w_uuids w)). split; [done|]. unfold AppRole.create_secret_id_accessor_entry.
  rewrite (st_bind_run _ _ _ (w1, req) (generate_uuid (w_uuids w))) by done.
  rewrite (st_bind_run _ _ _ _ _ Hidx), (st_bind_run _ _ _ _ _ Hr). split_and!; try done.
  unfold at_key. by rewrite Hm, lookup_insert_eq, Hde.
Qed.

Lemma set_secret_run p rh sh e w req :
  serves w req → secret_prefix p → hexes rh → hexes sh → secret_storable e →
  ∃ w', AppRole.set_secret_id_storage_entry p rh sh e (w, req) = ((w', req), Ok tt) ∧ serves w' req ∧
    at_key AppRole.secret_of_json w' (AppRole.entry_index p rh sh) = Ok (Some e) ∧
    ∀ k, k ≠ AppRole.entry_index p rh sh →
      storage_map (w_store w') !! expand_key v k = storage_map (w_store w) !! expand_key v k.
Proof.
  intros Hv Hp Hr Hs He. unfold AppRole.set_secret_id_storage_entry.
  rewrite (is_empty_false p) by (by destruct Hp as [->| ->]).
  rewrite (is_empty_false sh), (is_empty_false rh) by (apply Hs || apply Hr).
  rewrite !(st_bind_run _ _ (w, req) (w, req) tt) by done.
  destruct (put_json_run v (AppRole.entry_index p rh sh) (AppRole.secret_json e) w req Hv) as (w' & b & Hput & Hc & Hde & Hm);
    [by apply sane_entry_index|].
  exists w'. split_and!; [done|destruct Hv as (? & ? & ?); by split_and!| |].
  - unfold at_key. rewrite Hm, lookup_insert_eq, Hde. cbn [mbind option_bind]. by rewrite (secret_roundtrip e He).
  - intros k Hk. rewrite Hm, lookup_insert_ne; [done|]. intros E. by apply expand_inj in E.
Qed.

(** A secret id registered without a time to live, which is meant never to
    expire, keeps the expiration time it was made with, the reading of the
    clock at its creation; so the first tidy run after that instant removes
    it. *)
Theorem non_expiring_secret_id_tidied (w w' : W) req (role_name secret_id key p rh sh : string)
    (e e' : SecretIdStorageEntry) :
  salted → serves w req → secret_prefix p → generate_uuid (w_uuids w) ≠ "" →
  AppRole.create_hmac key role_name = Ok rh → AppRole.create_hmac key secret_id = Ok sh →
  AppRole.register_secret_id_entry self role_name secret_id key p e (w, req) = ((w', req), Ok e') →
  se_ttl e = 0%Z → secret_storable e' → (se_expiration_time e < clock_at (w_ticks w'))%Z →
  se_expiration_time e' = se_expiration_time e ∧
  at_key AppRole.secret_of_json w' (AppRole.entry_index p rh sh) = Ok (Some e') ∧
  ∃ w2, AppRole.cleanup_secret_id self p rh sh (w', req) = ((w2, req), Ok None) ∧
    at_key AppRole.secret_of_json w2 (AppRole.entry_index p rh sh) = Ok None.
Proof.
  intros Hs Hv Hp Hu Hrh Hsh H Httl Hst Ht.
  pose proof (create_hmac_ok _ _ _ Hrh) as Hxr. pose proof (create_hmac_ok _ _ _ Hsh) as Hxs.
  unfold AppRole.register_secret_id_entry in H.
  rewrite (st_bind_run _ _ _ (w, req) rh) in H by (unfold st_lift; by rewrite Hrh).
  rewrite (st_bind_run _ _ _ (w, req) sh) in H by (unfold st_lift; by rewrite Hsh). inv_steps.
  apply secret_entry_ok in Hstep5 as [-> _]; [|done]. apply st_guard_ok in Hstep as [_ ->].
  apply secret_entry_ok in Hstep4 as [-> _]; [|done]. apply st_guard_ok in Hstep0 as [_ ->].
  assert (c1 = (fst (now w), req)) as -> by (by injection Hstep1 as <- <-). set (w1 := fst (now w)) in *.
  destruct (create_accessor_run sh p w1 req Hs) as (w2 & acc & Hacc & Hcr & Hv2 & Hat); [destruct Hv as (? & ? & ?); by split_and!|].
  rewrite Hcr in Hstep2. injection Hstep2 as <- <-.
  assert (negb (as_secs (AppRole.derive_secret_id_ttl (se_ttl e)) =? 0)%Z = false) as Hz by (by rewrite Httl).
  rewrite Hz in H, Hstep3. cbv iota in H, Hstep3. apply st_ret_ok in H as [He' Hc3].
  rewrite He', <- Hc3 in Hstep3.
  destruct (set_secret_run p rh sh e' w2 req Hv2 Hp Hxr Hxs Hst) as (w3 & Hset & Hv3 & Hat3 & Hf).
  rewrite Hset in Hstep3. injection Hstep3 as <- _.
  assert (se_expiration_time e' = se_expiration_time e ∧ se_accessor e' = acc) as [Hex Hacc'] by (by rewrite <- He').
  split_and!; [done|done|]. apply (cleanup_expired p rh sh e' w3 req); try done.
  - rewrite Hacc', Hacc. exact Hu.
  - rewrite Hacc'. exists {| sa_secret_id_hmac := sh |}. rewrite <- Hat. apply at_key_ext, Hf.
    by apply accessor_not_entry.
  - by rewrite Hex.
Qed.
End theorems.

(** ** A concrete mount *)
Section witnesses.
#[local] Existing Instance demo_storage.
#[local] Existing Instance demo_storage_spec.
#[local] Existing Instance demo_uuid.
#[local] Existing Instance json_map.
#[local] Existing Instance json_map_laws.
#[local] Existing Instance no_durations.
#[local] Existing Instance no_json.
#[local] Existing Instance lower_hex.
#[local] Existing Instance BinaryNet.binary_net.
#[local] Instance all_checks : Profile := true.
#[local] Instance no_text : ErrorText := fun _ => "".

(** A clock that stops. *)
#[local] Instance short_clock : Clock := fun i => Z.of_nat (Nat.min i 1000).

(** Times in binary. *)
#[local] Instance binary_time : Rfc3339 := {|
  format_rfc3339 := BinaryNet.show_bits; parse_rfc3339 := BinaryNet.parse_bits
|}.

#[local] Instance binary_time_laws : Rfc3339Laws.
Proof.
  intros t [Ht _]. cbn. unfold BinaryNet.parse_bits, BinaryNet.show_bits. rewrite BinaryNet.parse_show_pos. cbn.
  f_equal. lia.
Qed.

(** Not digests, but of the right length. *)
Definition pad32 (x : bytes) : bytes := take 32 (x ++ replicate 32 Byte.x00)%list.
#[local] Instance toy_digests : Digests := {|
  digest_hash _ x := Some (pad32 x); digest_hmac _ _ x := Some (pad32 x)
|}.

#[local] Instance toy_digest_laws : DigestLaws.
Proof.
  assert (∀ x, length (pad32 x) = 32) as Hl.
  { intros x. unfold pad32. rewrite length_take, length_app, length_replicate. lia. }
  split; [intros x|intros k x| |].
  - exists (pad32 x). split; [done|apply Hl].
  - exists (pad32 x). split; [done|apply Hl].
  - apply toy_sha1_laws.
  - apply toy_sha1_laws.
Qed.

Lemma short_clock_ok i : time_ok (clock_at i).
Proof.
  unfold clock_at, short_clock, time_ok. assert (Nat.min i 1000 <= 1000)%nat as H by lia. split; [lia|].
  apply (Z.le_lt_trans _ 1000); [lia|]. by vm_compute.
Qed.

Definition ar_view : BarrierView.t := BarrierView.new "auth/2/".
Definition ar_self : AppRole :=
  {| ar_salt := Some {| salt_config := Salt.default_config; salt_text := "s"; generated := false |} |}.
Definition ar_world : World DemoStore LeaseList unit :=
  {| w_store := demo_barrier; w_ticks := 0; w_uuids := 0; w_queue := []; w_queue_held := false; w_deadlock := false;
     w_policy_types := ∅; w_token_policies_lru := tt; w_egp_lru := tt |}.

Definition ar_request (p : Path * list (PathOperation (World DemoStore LeaseList unit))) (b : gmap string Value) : Request :=
  set_match_path (Some (fst p)) (set_body (Some b) (set_storage (Some ar_view) (RequestOps.new "role/"))).

Definition make_role : Request :=
  ar_request (AppRole.role_name_path ar_self)
    {["role_name" := VStr "app"; "role_id" := VStr "rid"; "token_policies" := VStr "dev"]}.
Definition make_secret : Request :=
  ar_request (AppRole.role_custom_secret_id_path ar_self)
    {["role_name" := VStr "app"; "secret_id" := VStr "sid"; "num_uses" := VInt 2; "ttl" := VInt 0]}.
Definition app_login : Request :=
  ar_request (AppRole.login_path ar_self) {["role_id" := VStr "rid"; "secret_id" := VStr "sid"]}.

Definition ar_ready : World DemoStore LeaseList unit :=
  let w := fst (fst (AppRole.write_role ar_self (ar_world, make_role))) in
  fst (fst (AppRole.write_role_custom_secret_id ar_self (w, make_secret))).

Definition app_role : RoleEntry :=
  AppRole.upgrade_role "app"
    (re_set_role_id "rid" (re_set_bind_secret_id true (re_set_policies ["dev"] (re_set_token_params
       (tp_set_token_policies ["dev"] (TokenParams.new "default")) (AppRole.new_role "app" "uuid0"))))).

Definition app_secret : SecretIdStorageEntry :=
  {| se_accessor := "uuid1"; se_num_uses := 2; se_ttl := 0; se_creation_time := 3; se_expiration_time := 1;
     se_last_updated_time := 3; se_metadata := ∅; se_cidr_list := []; se_token_cidr_list := [] |}.

Abbreviation ar_salt_value := {| salt_config := Salt.default_config; salt_text := "s"; generated := false |}.
Definition hmac_of (x : string) : string := match AppRole.create_hmac "uuid0" x with Ok h => h | _ => "" end.

Lemma ar_salted : salted ar_self ar_salt_value.
Proof. done. Qed.

Lemma ar_clean : clean (w_store ar_ready).
Proof.
  split; [apply demo_ready; vm_compute; reflexivity|]. apply (bool_decide_unpack _). vm_compute. exact I.
Qed.

Lemma ar_serves req : Logical.storage req = Some ar_view → serves ar_view ar_ready req.
Proof. intros H. split_and!; [done|exact ar_clean|apply demo_keys_ok]. Qed.

Lemma app_registered :
  registered ar_salt_value ar_view ar_ready app_role "sid" (hmac_of "app") (hmac_of "sid") app_secret.
Proof.
  split; [vm_compute; reflexivity|]. split; [vm_compute; reflexivity|]. split; [left; reflexivity|].
  split; [vm_compute; reflexivity|]. split; [discriminate|]. eexists. vm_compute. reflexivity.
Qed.

Lemma app_resolves : resolves ar_salt_value ar_view ar_ready "rid" app_role.
Proof.
  split; [discriminate|]. exists {| rie_name := "app" |}. eexists. split; [vm_compute; reflexivity|].
  split; [reflexivity|]. split; [vm_compute; reflexivity|]. vm_compute. reflexivity.
Qed.

Lemma app_secret_storable : secret_storable app_secret.
Proof.
  split; [vm_compute; split; discriminate|]. split; [apply (whole_seconds 0); vm_compute; split; discriminate|].
  split_and!; split; vm_compute; (discriminate || reflexivity).
Qed.

(** Two logins of a secret id that never expires, and no third. *)
Lemma secret_id_uses_counted_witness :
  ∃ l, snd (logins ar_self 3 ar_ready app_login)
       = (l ++ [Err (AppRole.resp_err "invalid secret id")])%list ∧ length l = 2 ∧ Forall (granted app_role) l.
Proof.
  apply (secret_id_uses_counted ar_self ar_salt_value ar_view ar_ready app_login "rid" "sid" (hmac_of "app")
           (hmac_of "sid") app_role app_secret 2 1 ar_salted (ar_serves app_login eq_refl)).
  - vm_compute. reflexivity.
  - vm_compute. reflexivity.
  - exact app_resolves.
  - reflexivity.
  - exact app_registered.
  - exact app_secret_storable.
  - left. reflexivity.
  - exact short_clock_ok.
  - reflexivity.
  - reflexivity.
  - discriminate.
  - reflexivity.
Defined.

Lemma approle_login_sound_witness :
  ∃ rid r0, at_key ar_view AppRole.role_id_of_json ar_ready (role_id_index ar_salt_value "rid") = Ok (Some rid) ∧
    at_key ar_view AppRole.role_of_json ar_ready (AppRole.role_key (rie_name rid)) = Ok (Some r0).
Proof.
  destruct (AppRole.login ar_self (ar_ready, app_login)) as [s' x] eqn:E.
  assert (∃ resp a, x = Ok (Some resp) ∧ resp_auth resp = Some a) as (resp & a & -> & Ha).
  { assert (x = snd (AppRole.login ar_self (ar_ready, app_login))) as -> by (by rewrite E).
    eexists _, _. split; vm_compute; reflexivity. }
  destruct (approle_login_sound ar_self ar_salt_value ar_view ar_ready app_login s' resp a ar_salted
              (ar_serves app_login eq_refl) E Ha) as (role_id & rid & r0 & Hi & H1 & H2 & _).
  exists rid, r0. split; [|exact H2]. assert (role_id = "rid") as -> by (vm_compute in Hi; by injection Hi as <-). exact H1.
Defined.

(** The secret id of this mount, registered once more under another name. *)
Lemma non_expiring_secret_id_tidied_witness :
  ∃ w1 w2 e1, AppRole.register_secret_id_entry ar_self "app" "sid2" "uuid0" AppRole.SECRET_ID_PREFIX
              (AppRole.se_with "" 1 1 1 app_secret) (ar_ready, app_login) = ((w1, app_login), Ok e1) ∧
    AppRole.cleanup_secret_id ar_self AppRole.SECRET_ID_PREFIX (hmac_of "app") (hmac_of "sid2") (w1, app_login)
    = ((w2, app_login), Ok None).
Proof.
  destruct (AppRole.register_secret_id_entry ar_self "app" "sid2" "uuid0" AppRole.SECRET_ID_PREFIX
              (AppRole.se_with "" 1 1 1 app_secret) (ar_ready, app_login)) as [[w1 req1] x] eqn:E.
  set (run := AppRole.register_secret_id_entry ar_self "app" "sid2" "uuid0" AppRole.SECRET_ID_PREFIX
              (AppRole.se_with "" 1 1 1 app_secret) (ar_ready, app_login)) in E.
  assert (req1 = app_login) as -> by (change req1 with (snd (fst (w1, req1, x))); rewrite <- E; vm_compute; reflexivity).
  assert (x = Ok (AppRole.se_with "uuid2" 4 4 1 app_secret)) as ->
    by (change x with (snd (w1, app_login, x)); rewrite <- E; vm_compute; reflexivity).
  assert (w_ticks w1 = 5%nat) as Hw
    by (change w1 with (fst (fst (w1, app_login, Ok (E := RvError) (AppRole.se_with "uuid2" 4 4 1 app_secret))));
        rewrite <- E; vm_compute; reflexivity).
  destruct (non_expiring_secret_id_tidied ar_self ar_salt_value ar_view ar_ready w1 app_login "app" "sid2" "uuid0"
              AppRole.SECRET_ID_PREFIX (hmac_of "app") (hmac_of "sid2") (AppRole.se_with "" 1 1 1 app_secret)
              (AppRole.se_with "uuid2" 4 4 1 app_secret) ar_salted (ar_serves app_login eq_refl)) as (_ & _ & w2 & Hc & _).
  - left. reflexivity.
  - discriminate.
  - vm_compute. reflexivity.
  - vm_compute. reflexivity.
  - exact E.
  - reflexivity.
  - destruct app_secret_storable as (? & ? & ? & ? & ?). split_and!; try done; split; vm_compute; (discriminate || reflexivity).
  - rewrite Hw. reflexivity.
  - exists w1, w2, (AppRole.se_with "uuid2" 4 4 1 app_secret). split; [reflexivity|exact Hc].
Defined.
End witnesses.
