(* ===== verification/Keys.v ===== *)
(** * Key bundles (src/src/utils/key.rs)

    A named key with its type and size: generation, signatures and encryption.
    OpenSSL's primitives are parameters, over PEM texts and byte strings. *)

From stdpp Require Import base tactics list gmap strings.
From Stdlib Require Import ZArith Lia Ascii.
From S2P Require Import Prelude Errors RustStr Utils Lease Storage BarrierView Logical Mount World.

Local Open Scope string_scope.

(** The cargo feature [crypto_adaptor_tongsuo]. *)
Class Features : Type := tongsuo : bool.

(** ** The parts of OpenSSL in use *)

Inductive Nid := SECP224R1 | SECP256K1 | SECP384R1 | SECP521R1 | NidSM2.
Inductive MessageDigest := Sha256 | Sm3.
Inductive Cipher :=
  | AesGcm128 | AesGcm192 | AesGcm256 | AesCbc128 | AesCbc192 | AesCbc256
  | AesEcb128 | AesEcb192 | AesEcb256 | Sm4Cbc | Sm4Gcm | Sm4Ccm.

(** [None] is an OpenSSL error; a [nat] is the index of a draw of the random
    source.  [pkey_verify] gives [Some None] when only the verification itself
    fails. *)
Class KeyCrypto : Type := {
  rand_bytes : nat -> nat -> option bytes;
  rsa_generate_pem : nat -> Z -> option bytes;
  ec_generate_pem : nat -> Nid -> option bytes;
  rsa_size : bytes -> option Z;
  ec_degree : bytes -> option Z;
  pkey_sign : bytes -> MessageDigest -> bool -> bytes -> option bytes;
  pkey_verify : bytes -> MessageDigest -> bool -> bytes -> bytes -> option (option bool);
  encrypt_aead : Cipher -> bytes -> option bytes -> bytes -> bytes -> option (bytes * bytes);
  decrypt_aead : Cipher -> bytes -> option bytes -> bytes -> bytes -> bytes -> option bytes;
  sym_encrypt : Cipher -> bytes -> option bytes -> bytes -> option bytes;
  sym_decrypt : Cipher -> bytes -> option bytes -> bytes -> option bytes;
  rsa_private_encrypt : bytes -> bytes -> option bytes;
  rsa_public_encrypt : bytes -> bytes -> option bytes;
  rsa_public_decrypt : bytes -> bytes -> option bytes;
  rsa_private_decrypt : bytes -> bytes -> option bytes
}.

(** What the primitives promise: random bytes have the length asked for, a tag
    has the 16 bytes of its buffer, decryption undoes encryption, and signatures
    verify; an RSA result fills the key's size when encrypting and is at most the
    padded size when decrypting. *)
Class KeyCryptoLaws `{HK : KeyCrypto} : Prop := {
  rand_bytes_length i n b : rand_bytes i n = Some b -> length b = n;
  aead_tag_length c k iv aad d ct tag : encrypt_aead c k iv aad d = Some (ct, tag) -> length tag = 16%nat;
  aead_correct c k iv aad d ct tag :
    encrypt_aead c k iv aad d = Some (ct, tag) -> decrypt_aead c k iv aad ct tag = Some d;
  sym_correct c k iv d ct : sym_encrypt c k iv d = Some ct -> sym_decrypt c k iv ct = Some d;
  sign_correct pem dg p d s : pkey_sign pem dg p d = Some s -> pkey_verify pem dg p d s = Some (Some true);
  rsa_encrypt_size pem d ct n :
    rsa_private_encrypt pem d = Some ct -> rsa_size pem = Some n -> Z.of_nat (length ct) = n;
  rsa_correct pem d ct : rsa_private_encrypt pem d = Some ct -> rsa_public_decrypt pem ct = Some d;
  rsa_padding pem d ct n : rsa_private_encrypt pem d = Some ct -> rsa_size pem = Some n ->
    (Z.of_nat (length d) + 11 <= n)%Z
}.

Class HexLaws `{HX : HexCodec} `{HD : HexDecode} : Prop := hex_decode_encode b : hex_decode (hex_encode b) = Some b.

Record KeyBundle := {
  kb_id : string;
  kb_name : string;
  kb_key_type : string;
  kb_key : bytes;
  kb_iv : bytes;
  kb_bits : Z
}.

Inductive EncryptExtraData := Aad (aad : bytes) | Flag (b : bool).

(** The next draw of the random source, which shares the counter of the ids. *)
Definition draw {S Q C} : st (World S Q C) RvError nat := fun w =>
  ({| w_store := w_store w; w_ticks := w_ticks w; w_uuids := Datatypes.S (w_uuids w);
      w_queue := w_queue w; w_queue_held := w_queue_held w; w_deadlock := w_deadlock w; w_policy_types := w_policy_types w;
      w_token_policies_lru := w_token_policies_lru w; w_egp_lru := w_egp_lru w |}, Ok (w_uuids w)).

Definition openssl {A} (o : option A) : result A := of_option OpenSSL o.

Module Keys.
Section keys.
Context `{HF : Features} `{HK : KeyCrypto} `{HU : UuidGen} {S Q C : Type}.
Abbreviation M := (st (World S Q C) RvError).

Definition key_bits_default (key_type : string) : Z :=
  if String.eqb key_type "rsa" then 2048
  else if str_in key_type ["ec"; "sm2"] then 256
  else if str_in key_type ["aes-gcm"; "aes-cbc"; "aes-ecb"; "sm4-gcm"; "sm4-ccm"] then 256
  else 0.

Definition by_bits (bits : Z) (l : list (Z * Cipher)) : result Cipher :=
  of_option ErrPkiKeyBitsInvalid (snd <$> List.find (λ p, Z.eqb (fst p) bits) l).

Definition cipher_from_key_type_and_bits (key_type : string) (bits : Z) : result Cipher :=
  if String.eqb key_type "aes-gcm" then by_bits bits [(128%Z, AesGcm128); (192%Z, AesGcm192); (256%Z, AesGcm256)]
  else if String.eqb key_type "aes-cbc" then by_bits bits [(128%Z, AesCbc128); (192%Z, AesCbc192); (256%Z, AesCbc256)]
  else if String.eqb key_type "aes-ecb" then by_bits bits [(128%Z, AesEcb128); (192%Z, AesEcb192); (256%Z, AesEcb256)]
  else if tongsuo && String.eqb key_type "sm4-gcm" then by_bits bits [(128%Z, Sm4Gcm)]
  else if tongsuo && String.eqb key_type "sm4-ccm" then by_bits bits [(128%Z, Sm4Ccm)]
  else Err ErrPkiKeyBitsInvalid.

Definition new (name key_type : string) (key_bits : Z) : M KeyBundle :=
  let bits := if (key_bits =? 0)%Z then key_bits_default key_type else key_bits in
  let! id := fresh_uuid in
  st_ret {| kb_id := id; kb_name := name; kb_key_type := key_type; kb_key := []; kb_iv := []; kb_bits := bits |}.

Definition set_key (k : bytes) (b : KeyBundle) : KeyBundle :=
  {| kb_id := kb_id b; kb_name := kb_name b; kb_key_type := kb_key_type b; kb_key := k; kb_iv := kb_iv b;
     kb_bits := kb_bits b |}.
Definition set_iv (v : bytes) (b : KeyBundle) : KeyBundle :=
  {| kb_id := kb_id b; kb_name := kb_name b; kb_key_type := kb_key_type b; kb_key := kb_key b; kb_iv := v;
     kb_bits := kb_bits b |}.
Definition set_bits (n : Z) (b : KeyBundle) : KeyBundle :=
  {| kb_id := kb_id b; kb_name := kb_name b; kb_key_type := kb_key_type b; kb_key := kb_key b; kb_iv := kb_iv b;
     kb_bits := n |}.

(** Random bytes of a length. *)
Definition random (n : nat) : M bytes := let! i := draw in st_lift (openssl (rand_bytes i n)).

Definition curve_of (key_bits : Z) : result Nid :=
  if (key_bits =? 224)%Z then Ok SECP224R1
  else if (key_bits =? 256)%Z then Ok SECP256K1
  else if (key_bits =? 384)%Z then Ok SECP384R1
  else if (key_bits =? 521)%Z then Ok SECP521R1
  else Err ErrPkiKeyBitsInvalid.

Definition rsa_bits_ok (key_bits : Z) : bool := existsb (Z.eqb key_bits) [2048%Z; 3072%Z; 4096%Z].

Definition generate (self : KeyBundle) : M KeyBundle :=
  let ty := kb_key_type self in
  if String.eqb ty "rsa" then
    let! _ := st_guard (negb (rsa_bits_ok (kb_bits self))) ErrPkiKeyBitsInvalid in
    let! i := draw in
    let! pem := st_lift (openssl (rsa_generate_pem i (kb_bits self))) in
    st_ret (set_key pem self)
  else if String.eqb ty "ec" then
    let! curve := st_lift (curve_of (kb_bits self)) in
    let! i := draw in
    let! pem := st_lift (openssl (ec_generate_pem i curve)) in
    st_ret (set_key pem self)
  else if tongsuo && String.eqb ty "sm2" then
    let! i := draw in
    let! pem := st_lift (openssl (ec_generate_pem i NidSM2)) in
    st_ret (set_key pem (set_bits 256 self))
  else if str_in ty ["aes-gcm"; "aes-cbc"; "aes-ecb"; "sm4-gcm"; "sm4-ccm"] then
    let! _ := st_lift (cipher_from_key_type_and_bits ty (kb_bits self)) in
    let! _ := st_guard (negb tongsuo && starts_with "sm4-" ty) ErrPkiKeyTypeInvalid in
    let! iv := if String.eqb ty "aes-ecb" then st_ret (kb_iv self)
               else if String.eqb ty "sm4-ccm" then random 12 else random 16 in
    let! key := random (Z.to_nat (kb_bits self / 8)) in
    st_ret (set_key key (set_iv iv self))
  else st_fail ErrPkiKeyTypeInvalid.

Definition digest_of (self : KeyBundle) : result MessageDigest :=
  if str_in (kb_key_type self) ["rsa"; "ec"] then Ok Sha256
  else if tongsuo && String.eqb (kb_key_type self) "sm2" then Ok Sm3
  else Err ErrPkiKeyOperationInvalid.

Definition sign (self : KeyBundle) (data : bytes) : result bytes :=
  let? digest := digest_of self in
  openssl (pkey_sign (kb_key self) digest (String.eqb (kb_key_type self) "rsa") data).

Definition verify (self : KeyBundle) (data signature : bytes) : result bool :=
  let? digest := digest_of self in
  let? r := openssl (pkey_verify (kb_key self) digest (String.eqb (kb_key_type self) "rsa") data signature) in
  Ok (default false r).

Definition aad_of (extra : option EncryptExtraData) : bytes :=
  match extra with Some (Aad a) => a | _ => [] end.
Definition flag_of (extra : option EncryptExtraData) : bool :=
  match extra with Some (Flag b) => b | _ => false end.

Definition is_aead (ty : string) : bool := str_in ty ["aes-gcm"; "sm4-gcm"; "sm4-ccm"].
Definition iv_of (self : KeyBundle) : option bytes :=
  if String.eqb (kb_key_type self) "aes-ecb" then None else Some (kb_iv self).

(** What OpenSSL wrote at the start of a zeroed buffer of the key's size. *)
Definition in_buffer (size : Z) (out : bytes) : bytes :=
  (out ++ replicate (Z.to_nat size - length out) x00)%list.

Definition encrypt (self : KeyBundle) (data : bytes) (extra : option EncryptExtraData) : result bytes :=
  let ty := kb_key_type self in
  if is_aead ty then
    let? cipher := cipher_from_key_type_and_bits ty (kb_bits self) in
    let? ct := openssl (encrypt_aead cipher (kb_key self) (Some (kb_iv self)) (aad_of extra) data) in
    Ok (fst ct ++ snd ct)%list
  else if str_in ty ["aes-cbc"; "aes-ecb"] then
    let? cipher := cipher_from_key_type_and_bits ty (kb_bits self) in
    openssl (sym_encrypt cipher (kb_key self) (iv_of self) data)
  else if String.eqb ty "rsa" then
    let? size := openssl (rsa_size (kb_key self)) in
    if (size <? Z.of_nat (length data))%Z then Err ErrPkiInternal
    else
      let? out := openssl (if flag_of extra then rsa_public_encrypt (kb_key self) data
                           else rsa_private_encrypt (kb_key self) data) in
      Ok (in_buffer size out)
  else Err ErrPkiKeyOperationInvalid.

(** [buf.iter().position(|&x| x == 0)], then [truncate]. *)
Fixpoint until_zero (l : bytes) : option bytes :=
  match l with
  | [] => None
  | b :: l => if Byte.eqb b x00 then Some [] else (cons b) <$> until_zero l
  end.

Definition decrypt (self : KeyBundle) (data : bytes) (extra : option EncryptExtraData) : result bytes :=
  let ty := kb_key_type self in
  if is_aead ty then
    let? cipher := cipher_from_key_type_and_bits ty (kb_bits self) in
    if (length data <? 16)%nat then Err ErrPkiInternal
    else
      let n := (length data - 16)%nat in
      openssl (decrypt_aead cipher (kb_key self) (Some (kb_iv self)) (aad_of extra) (take n data) (drop n data))
  else if str_in ty ["aes-cbc"; "aes-ecb"] then
    let? cipher := cipher_from_key_type_and_bits ty (kb_bits self) in
    openssl (sym_decrypt cipher (kb_key self) (iv_of self) data)
  else if String.eqb ty "rsa" then
    let? size := openssl (rsa_size (kb_key self)) in
    if (size <? Z.of_nat (length data))%Z then Err ErrPkiDataInvalid
    else
      let? out := openssl (if flag_of extra then rsa_private_decrypt (kb_key self) data
                           else rsa_public_decrypt (kb_key self) data) in
      of_option ErrPkiInternal (until_zero (in_buffer size out))
  else Err ErrPkiKeyOperationInvalid.

End keys.
End Keys.

(** ** Correctness *)
Section correct.
Context `{HF : Features} `{HK : KeyCrypto} `{HKL : !KeyCryptoLaws}.
Import Keys.

(** The part of a text before its first zero byte. *)
Fixpoint before_zero (l : bytes) : bytes :=
  match l with
  | [] => []
  | b :: l => if Byte.eqb b x00 then [] else b :: before_zero l
  end.

Lemma until_zero_app d n : until_zero (d ++ replicate (S n) x00)%list = Some (before_zero d).
Proof.
  induction d as [|b d IH]; [done|]. simpl in *. destruct (Byte.eqb b x00); [done|]. by rewrite IH.
Qed.

Lemma sign_verify self d s : sign self d = Ok s → verify self d s = Ok true.
Proof.
  unfold sign, verify. destruct (digest_of self) as [dg| |]; [|done..]. simpl.
  destruct (pkey_sign _ _ _ _) eqn:E; [|done]. intros [= <-]. by rewrite (sign_correct _ _ _ _ _ E).
Qed.

Lemma decrypt_aead_app self c d aad ct tag :
  is_aead (kb_key_type self) = true → cipher_from_key_type_and_bits (kb_key_type self) (kb_bits self) = Ok c →
  encrypt_aead c (kb_key self) (Some (kb_iv self)) aad d = Some (ct, tag) →
  decrypt self (ct ++ tag)%list (Some (Aad aad)) = Ok d.
Proof.
  intros Ha Hc He. unfold decrypt. rewrite Ha, Hc. simpl.
  pose proof (aead_tag_length _ _ _ _ _ _ _ He) as Ht. rewrite length_app, Ht.
  replace (length ct + 16 <? 16)%nat with false by (symmetry; apply Nat.ltb_ge; lia).
  replace (length ct + 16 - 16)%nat with (length ct) by lia.
  rewrite take_app_length, drop_app_length. by rewrite (aead_correct _ _ _ _ _ _ _ He).
Qed.

Lemma decrypt_rsa self d ct size :
  rsa_size (kb_key self) = Some size → rsa_private_encrypt (kb_key self) d = Some ct →
  in_buffer size ct = ct ∧ (Z.of_nat (length ct) <= size)%Z ∧
  until_zero (in_buffer size d) = Some (before_zero d).
Proof.
  intros Hs He. pose proof (rsa_encrypt_size _ _ _ _ He Hs) as Hl. pose proof (rsa_padding _ _ _ _ He Hs) as Hp.
  unfold in_buffer. split_and!; [|lia|].
  - replace (Z.to_nat size - length ct)%nat with 0%nat by lia. apply app_nil_r.
  - replace (Z.to_nat size - length d)%nat with (S (Z.to_nat size - length d - 1))%nat by lia.
    apply until_zero_app.
Qed.

(** What a key encrypts, with additional data or without, it decrypts to the
    same text, for every symmetric key type; for an RSA key, to the part of the
    text before its first zero byte. *)
Theorem key_encrypt_decrypt (self : KeyBundle) (d aad ct : bytes) :
  encrypt self d (Some (Aad aad)) = Ok ct →
  decrypt self ct (Some (Aad aad)) =
  Ok (if String.eqb (kb_key_type self) "rsa" then before_zero d else d).
Proof.
  unfold encrypt. destruct (is_aead (kb_key_type self)) eqn:Ea.
  { assert (String.eqb (kb_key_type self) "rsa" = false) as ->.
    { apply String.eqb_neq. intros H. by rewrite H in Ea. }
    destruct (cipher_from_key_type_and_bits _ _) as [c| |] eqn:Ec; [|done..]. simpl.
    destruct (encrypt_aead _ _ _ _ _) as [[x tag]|] eqn:Ee; [|done]. intros [= <-].
    by eapply decrypt_aead_app. }
  destruct (str_in _ ["aes-cbc"; "aes-ecb"]) eqn:Es.
  { assert (String.eqb (kb_key_type self) "rsa" = false) as ->.
    { apply String.eqb_neq. intros H. by rewrite H in Es. }
    unfold decrypt. rewrite Ea, Es. destruct (cipher_from_key_type_and_bits _ _) as [c| |]; [|done..]. simpl.
    destruct (sym_encrypt _ _ _ _) eqn:Ee; [|done]. intros [= <-]. by rewrite (sym_correct _ _ _ _ _ Ee). }
  destruct (String.eqb _ "rsa") eqn:Er; [|done].
  destruct (rsa_size _) as [size|] eqn:Ez; [|done]. simpl. destruct (size <? _)%Z; [done|].
  destruct (rsa_private_encrypt _ _) as [out|] eqn:Ee; [|done]. intros [= <-].
  destruct (decrypt_rsa self d out size Ez Ee) as (Hb & Hl & Hu). rewrite Hb.
  unfold decrypt. rewrite Ea, Es, Er, Ez. simpl.
  replace (size <? Z.of_nat (length out))%Z with false by (symmetry; apply Z.ltb_ge; lia).
  rewrite (rsa_correct _ _ _ Ee). simpl. by rewrite Hu.
Qed.

End correct.

(** *** Witness: a toy cipher *)

Fixpoint unpad (l : bytes) : option bytes :=
  match l with xff :: l => unpad l | x00 :: l => Some l | _ => None end.

Lemma unpad_pad n d : unpad (replicate n xff ++ x00 :: d)%list = Some d.
Proof. induction n as [|n IH]; [done|]. exact IH. Qed.

Definition toy_crypto : KeyCrypto := {|
  rand_bytes := fun i n => Some (replicate n x05);
  rsa_generate_pem := fun i n => Some [x01]; ec_generate_pem := fun i c => Some [x02];
  rsa_size := fun pem => Some 256%Z; ec_degree := fun pem => Some 256%Z;
  pkey_sign := fun pem dg p d => Some (pem ++ d)%list;
  pkey_verify := fun pem dg p d s => Some (Some (bool_decide (s = pem ++ d)%list));
  encrypt_aead := fun c k iv aad d => Some (d, replicate 16 x00);
  decrypt_aead := fun c k iv aad d tag => Some d;
  sym_encrypt := fun c k iv d => Some d; sym_decrypt := fun c k iv d => Some d;
  rsa_private_encrypt := fun pem d => if (length d <=? 245)%nat
    then Some (replicate (255 - length d) xff ++ x00 :: d)%list else None;
  rsa_public_encrypt := fun pem d => None;
  rsa_public_decrypt := fun pem ct => unpad ct;
  rsa_private_decrypt := fun pem ct => None
|}.

Lemma toy_crypto_laws : @KeyCryptoLaws toy_crypto.
Proof.
  split; simpl.
  - intros _ n b [= <-]. apply length_replicate.
  - by intros ??????? [= _ <-].
  - by intros ??????? [= <- _].
  - by intros ????? [= <-].
  - intros ????? [= <-]. by rewrite bool_decide_eq_true_2.
  - intros pem d ct n. destruct (Nat.leb_spec (length d) 245); [|done]. intros [= <-] [= <-].
    rewrite length_app, length_replicate. simpl. lia.
  - intros pem d ct. destruct (Nat.leb_spec (length d) 245); [|done]. intros [= <-]. apply unpad_pad.
  - intros pem d ct n. destruct (Nat.leb_spec (length d) 245); [|done]. intros _ [= <-]. lia.
Qed.

(** A text with a zero byte comes back cut short under an RSA key. *)
Definition toy_rsa : KeyBundle :=
  {| kb_id := "1"; kb_name := "k"; kb_key_type := "rsa"; kb_key := [x01]; kb_iv := []; kb_bits := 2048 |}.

Lemma key_encrypt_decrypt_witness :
  ∃ ct, Keys.encrypt (HF := false) (HK := toy_crypto) toy_rsa [x41; x00; x42] (Some (Aad [])) = Ok ct ∧
        Keys.decrypt (HF := false) (HK := toy_crypto) toy_rsa ct (Some (Aad [])) = Ok [x41].
Proof.
  eexists. split; [reflexivity|].
  exact (key_encrypt_decrypt (HF := false) (HK := toy_crypto) (HKL := toy_crypto_laws)
           toy_rsa [x41; x00; x42] [] _ eq_refl).
Defined.
