(* ===== verification/Certs.v ===== *)
(** * Certificates (src/src/utils/cert.rs)

    Certificates to be made, and bundles of a certificate with its chain and
    key.  OpenSSL's X.509 is a parameter: [x509_tbs] gives the fields of a
    certificate, [x509_sign] makes one from them. *)

From stdpp Require Import base tactics list gmap strings.
From Stdlib Require Import ZArith Lia Ascii.
From S2P Require Import Prelude Errors RustStr Utils Lease Storage BarrierView Logical Mount World WorldLaws Cidr TokenUtil Keys.

Local Open Scope string_scope.

(** ** The parts of OpenSSL in use *)

Abbreviation X509Name := (list (string * string)).

Inductive X509Ext :=
  | SubjectAlternativeName (dns email ip uri : list string)
  | BasicConstraints (ca : bool)
  | KeyUsage (usages : list string)
  | ExtendedKeyUsage (usages : list string)
  | SubjectKeyIdentifier
  | AuthorityKeyIdentifier
  | OtherExtension (der : bytes).

(** What a certificate says; a public key is its DER encoding, times are seconds
    since the epoch. *)
Record CertFields := {
  cf_version : Z;
  cf_serial : Z;
  cf_subject : X509Name;
  cf_issuer : X509Name;
  cf_pubkey : bytes;
  cf_not_before : Z;
  cf_not_after : Z;
  cf_extensions : list X509Ext
}.

Inductive KeyId := IdRSA | IdEC | IdSM2 | IdED25519 | IdOther.

(** [None] is an OpenSSL error.  [name_entry_ok] says which entries a name
    accepts (a country has two letters, for example); [x509_head_ok] stands for
    the builder's setters of the version, serial number, names and key,
    [x509_fields_ok] for the later ones and the making of the extensions. *)
Class OpensslX509 (X509 PKey : Type) : Type := {
  x509_default : X509;
  pkey_default : PKey;
  x509_tbs : X509 -> CertFields;
  x509_head_ok : Z -> Z -> X509Name -> X509Name -> bool;
  x509_fields_ok : CertFields -> bool;
  x509_sign : CertFields -> MessageDigest -> PKey -> option X509;
  x509_to_pem : X509 -> option bytes;
  x509_from_pem : bytes -> option X509;
  x509_to_der : X509 -> option bytes;
  x509_from_der : bytes -> option X509;
  x509_subject_key_id : X509 -> option bytes;
  x509_public_key : X509 -> option bytes;
  x509_check_ca : X509 -> Z;
  x509_extension_flags : X509 -> Z;
  x509_extended_key_usage : X509 -> Z;
  x509_not_after_text : X509 -> string;
  pkey_public : PKey -> bytes;
  pkey_id : PKey -> KeyId;
  pkey_to_pem : PKey -> option bytes;
  pkey_from_pem : bytes -> option PKey;
  pkey_from_der : bytes -> option PKey;
  rsa_pkey : nat -> Z -> option PKey;
  ec_pkey : nat -> Nid -> option PKey;
  name_entry_ok : string -> string -> bool;
  bn_rand : nat -> Z;
  bn_hex : Z -> option string;
  asn1_time_ok : Z -> bool;
  (** [chrono]'s [NaiveDateTime::parse_from_str], as a time stamp in UTC *)
  naive_timestamp : string -> option Z
}.

(** A signed certificate has the fields it was made from; encodings are read
    back; the printed end of validity is the one the certificate has. *)
Class OpensslX509Laws (X509 PKey : Type) `{HO : OpensslX509 X509 PKey} : Prop := {
  x509_tbs_sign f dg k c : x509_sign f dg k = Some c -> x509_tbs c = f;
  x509_der_back c b : x509_to_der c = Some b -> x509_from_der b = Some c;
  x509_pem_back c b : x509_to_pem c = Some b -> x509_from_pem b = Some c;
  pkey_pem_back k b : pkey_to_pem k = Some b -> pkey_from_pem b = Some k;
  x509_not_after_back c : naive_timestamp (x509_not_after_text c) = Some (cf_not_after (x509_tbs c))
}.

Definition EXFLAG_XKUSAGE : Z := 4.

Record CertBundle (X509 PKey : Type) := {
  certificate : X509;
  ca_chain : list X509;
  private_key : PKey;
  private_key_type : string;
  serial_number : string
}.
Arguments certificate {X509 PKey}.
Arguments ca_chain {X509 PKey}.
Arguments private_key {X509 PKey}.
Arguments private_key_type {X509 PKey}.
Arguments serial_number {X509 PKey}.

Record Certificate := {
  ce_version : Z;
  ce_serial_number : Z;
  ce_issuer : X509Name;
  ce_subject : X509Name;
  ce_not_before : SystemTime;
  ce_not_after : SystemTime;
  ce_extensions : list X509Ext;
  ce_subject_key_id : bytes;
  ce_authority_key_id : bytes;
  ce_dns_sans : list string;
  ce_email_sans : list string;
  ce_ip_sans : list string;
  ce_uri_sans : list string;
  ce_is_ca : bool;
  ce_key_type : string;
  ce_key_bits : Z
}.

(** The digits in pairs, with colons between. *)
Fixpoint colon_pairs (s : string) : string :=
  match s with
  | String a (String b ((String _ _) as rest)) => String a (String b (":" ++ colon_pairs rest))
  | _ => s
  end.

Module Certs.
Section certs.
Context {X509 PKey : Type} `{HO : OpensslX509 X509 PKey} `{HF : Features} `{HCl : Clock} {S Q C : Type}.
Abbreviation M := (st (World S Q C) RvError).
Abbreviation bundle := (CertBundle X509 PKey).

Definition default_bundle : bundle :=
  {| certificate := x509_default; ca_chain := []; private_key := pkey_default; private_key_type := "";
     serial_number := "" |}.

(** *** JSON: certificates and keys as arrays of the bytes of their PEM texts *)

Definition bytes_json (b : bytes) : Value := VArray (map (λ x, VInt (Z.of_N (Byte.to_N x))) b).
Definition json_byte (v : Value) : option Byte.byte :=
  match v with VInt z => if (0 <=? z)%Z then Byte.of_N (Z.to_N z) else None | _ => None end.
Definition json_bytes (v : Value) : option bytes := match v with VArray l => mapM json_byte l | _ => None end.
(** [ByteBuf] reads strings as well. *)
Definition json_byte_buf (v : Value) : option bytes :=
  match v with VStr s => Some (str_bytes s) | _ => json_bytes v end.

(** [None]: a PEM encoding failed, and its [unwrap] panics. *)
Definition bundle_json (b : bundle) : option (gmap string Value) :=
  cert ← x509_to_pem (certificate b);
  chain ← mapM x509_to_pem (ca_chain b);
  key ← pkey_to_pem (private_key b);
  Some (list_to_map
    [("certificate", bytes_json cert);
     ("ca_chain", VArray (map bytes_json chain));
     ("private_key", bytes_json key);
     ("private_key_type", VStr (private_key_type b));
     ("serial_number", VStr (serial_number b))]).

Definition bundle_of_json (m : gmap string Value) : option bundle :=
  cert ← json_field m "certificate" (λ v, json_byte_buf v ≫= x509_from_pem);
  chain ← json_field m "ca_chain" (λ v, match v with
                                         | VArray l => mapM (λ x, json_bytes x ≫= x509_from_pem) l
                                         | _ => None end);
  key ← json_field m "private_key" (λ v, json_byte_buf v ≫= pkey_from_pem);
  ty ← json_default m "private_key_type" "" as_str;
  sn ← json_default m "serial_number" "" as_str;
  Some {| certificate := cert; ca_chain := chain; private_key := key; private_key_type := ty; serial_number := sn |}.

(** *** Bundles *)

Definition is_ca_cert (cert : X509) : bool := negb (x509_check_ca cert =? 0)%Z.

Definition has_x509_ext_key_usage (cert : X509) : bool :=
  negb (Z.land (x509_extension_flags cert) EXFLAG_XKUSAGE =? 0)%Z.

Definition has_x509_ext_key_usage_flag (cert : X509) (flag : Z) : bool :=
  has_x509_ext_key_usage cert && negb (Z.land (x509_extended_key_usage cert) flag =? 0)%Z.

Definition x509_serial (c : X509) : Z := cf_serial (x509_tbs c).

Definition get_cert_chain (self : bundle) : list X509 :=
  certificate self ::
  match ca_chain self with
  | [] => []
  | c :: _ => if (x509_serial c =? x509_serial (certificate self))%Z then [] else ca_chain self
  end.

(** The loop over the chain after its first certificate, with the certificate
    before each. *)
Fixpoint verify_chain (prev : X509) (rest : list X509) : result unit :=
  match rest with
  | [] => Ok tt
  | ca_cert :: rest =>
      if negb (is_ca_cert ca_cert) then Err ErrPkiCertIsNotCA
      else
        match x509_subject_key_id prev, x509_subject_key_id ca_cert with
        | Some authority_key_id, Some subject_key_id =>
            if bool_decide (authority_key_id = subject_key_id) then verify_chain ca_cert rest
            else Err ErrPkiCertChainIncorrect
        | _, _ => Err ErrPkiCaExtensionIncorrect
        end
  end.

Definition verify (self : bundle) : result unit :=
  let? cert_pubkey := openssl (x509_public_key (certificate self)) in
  if negb (bool_decide (pkey_public (private_key self) = cert_pubkey)) then Err ErrPkiCertKeyMismatch
  else verify_chain (certificate self) (tail (get_cert_chain self)).

(** *** Certificates to be made *)

Definition generate_serial_number : M Z := let! i := draw in st_ret (bn_rand i).

Definition default_certificate : M Certificate :=
  let! serial := generate_serial_number in
  let! not_before := now in
  let! not_after := now in
  st_ret {| ce_version := 2; ce_serial_number := serial; ce_issuer := []; ce_subject := [];
            ce_not_before := not_before; ce_not_after := not_after; ce_extensions := [];
            ce_subject_key_id := []; ce_authority_key_id := []; ce_dns_sans := []; ce_email_sans := [];
            ce_ip_sans := []; ce_uri_sans := []; ce_is_ca := false; ce_key_type := "rsa"; ce_key_bits := 2048 |}.

(** [t.duration_since(UNIX_EPOCH)?.as_secs() as i64]. *)
Definition unix_secs (t : SystemTime) : result Z :=
  match since_epoch t with Some d => Ok (as_i64_wrap (as_secs d)) | None => Err SystemTimeError end.

Definition extensions_of (self : Certificate) : list X509Ext :=
  ((if forallb (λ l, bool_decide (l = [])) [ce_dns_sans self; ce_email_sans self; ce_ip_sans self; ce_uri_sans self]
    then []
    else [SubjectAlternativeName (ce_dns_sans self) (ce_email_sans self) (ce_ip_sans self) (ce_uri_sans self)])
   ++ ce_extensions self
   ++ (if ce_is_ca self then [BasicConstraints true; KeyUsage ["key_cert_sign"; "crl_sign"]]
       else [BasicConstraints false; KeyUsage ["non_repudiation"; "digital_signature"; "key_encipherment"];
             ExtendedKeyUsage ["server_auth"; "client_auth"]])
   ++ [SubjectKeyIdentifier; AuthorityKeyIdentifier])%list.

Definition digest_of (key_type : string) : result MessageDigest :=
  if str_in key_type ["rsa"; "ec"] then Ok Sha256
  else if tongsuo && String.eqb key_type "sm2" then Ok Sm3
  else Err ErrPkiKeyTypeInvalid.

Definition holds (b : bool) : result unit := if b then Ok tt else Err OpenSSL.

Definition to_x509 (self : Certificate) (ca_cert : option X509) (ca_key : option PKey) (private_key : PKey)
  : result X509 :=
  let issuer := match ca_cert with Some c => cf_subject (x509_tbs c) | None => ce_subject self end in
  let? _ := holds (x509_head_ok (ce_version self) (ce_serial_number self) (ce_subject self) issuer) in
  let? not_before := unix_secs (ce_not_before self) in
  let? _ := holds (asn1_time_ok not_before) in
  let? not_after := unix_secs (ce_not_after self) in
  let? _ := holds (asn1_time_ok not_after) in
  let fields :=
    {| cf_version := ce_version self; cf_serial := ce_serial_number self; cf_subject := ce_subject self;
       cf_issuer := issuer;
       cf_pubkey := pkey_public private_key; cf_not_before := not_before; cf_not_after := not_after;
       cf_extensions := extensions_of self |} in
  let? _ := holds (x509_fields_ok fields) in
  let? digest := digest_of (ce_key_type self) in
  openssl (x509_sign fields digest (default private_key ca_key)).

(** The key of a certificate. *)
Definition generate_pkey (key_type : string) (key_bits : Z) : M PKey :=
  if String.eqb key_type "rsa" then
    let! _ := st_guard (negb (Keys.rsa_bits_ok key_bits)) ErrPkiKeyBitsInvalid in
    let! i := draw in st_lift (openssl (rsa_pkey i key_bits))
  else if String.eqb key_type "ec" then
    let! curve := st_lift (Keys.curve_of key_bits) in
    let! i := draw in st_lift (openssl (ec_pkey i curve))
  else if tongsuo && String.eqb key_type "sm2" then
    let! _ := st_guard (negb (key_bits =? 256)%Z) ErrPkiKeyBitsInvalid in
    let! i := draw in st_lift (openssl (ec_pkey i NidSM2))
  else st_fail ErrPkiKeyTypeInvalid.

Definition to_cert_bundle (self : Certificate) (ca_cert : option X509) (ca_key : option PKey) : M bundle :=
  let! priv_key := generate_pkey (ce_key_type self) (ce_key_bits self) in
  let! cert := st_lift (to_x509 self ca_cert ca_key priv_key) in
  let! serial_number_hex := st_lift (openssl (bn_hex (x509_serial cert))) in
  st_ret {| certificate := cert; ca_chain := match ca_cert with Some c => [c] | None => [] end;
            private_key := priv_key; private_key_type := ce_key_type self;
            serial_number := to_lowercase (colon_pairs serial_number_hex) |}.

End certs.
End Certs.

(** ** Properties *)
Section correct.
Context {X509 PKey : Type} `{HO : OpensslX509 X509 PKey} `{HOL : !OpensslX509Laws X509 PKey}.
Import Certs.

(** *** Chains *)

Lemma verify_chain_key_ids rest : ∀ prev : X509,
  verify_chain prev rest = Ok tt → ∀ c, c ∈ rest → x509_subject_key_id c = x509_subject_key_id prev.
Proof.
  induction rest as [|ca rest IH]; intros prev H c Hc; [by apply elem_of_nil in Hc|]. simpl in H.
  destruct (negb (is_ca_cert ca)); [done|].
  destruct (x509_subject_key_id prev) as [a|] eqn:Ea; [|done].
  destruct (x509_subject_key_id ca) as [b|] eqn:Eb; [|done].
  destruct (bool_decide_reflect (a = b)) as [<-|]; [|done].
  apply elem_of_cons in Hc as [->|Hc]; [done|]. by rewrite (IH ca H c Hc).
Qed.

(** A bundle with a chain is verified by comparing the subject key
    identifiers of neighbours, not the authority key identifier of one with the
    subject key identifier of its issuer: a chain with a certificate of another
    key, as every issuer's is, is refused. *)
Theorem chain_of_other_key_refused (b : CertBundle X509 PKey) (c : X509) :
  c ∈ tail (get_cert_chain b) → x509_subject_key_id c ≠ x509_subject_key_id (certificate b) →
  verify b ≠ Ok tt.
Proof.
  intros Hc Hne H. unfold verify in H. destruct (x509_public_key _) as [k|]; [|done]. simpl in H.
  destruct (negb _); [done|]. by apply Hne, (verify_chain_key_ids _ _ H).
Qed.

(** *** JSON *)

Lemma json_byte_back x : json_byte (VInt (Z.of_N (Byte.to_N x))) = Some x.
Proof.
  unfold json_byte. replace (0 <=? Z.of_N (Byte.to_N x))%Z with true by (symmetry; apply Z.leb_le; lia).
  rewrite N2Z.id. apply Byte.of_to_N.
Qed.

Lemma json_bytes_back b : json_bytes (bytes_json b) = Some b.
Proof.
  unfold json_bytes, bytes_json. apply mapM_Some, Forall2_fmap_l, Forall_Forall2_diag, Forall_true.
  intros x. apply json_byte_back.
Qed.

Lemma json_chain_back (l : list X509) chain :
  mapM x509_to_pem l = Some chain →
  mapM (λ x, json_bytes x ≫= x509_from_pem) (map bytes_json chain) = Some l.
Proof.
  intros Hm%mapM_Some. apply mapM_Some, Forall2_fmap_l, Forall2_flip. eapply Forall2_impl; [exact Hm|].
  intros c b Hb. unfold compose. cbv beta. rewrite json_bytes_back. by apply x509_pem_back.
Qed.

Lemma bundle_json_back (b : CertBundle X509 PKey) m : bundle_json b = Some m → bundle_of_json m = Some b.
Proof.
  unfold bundle_json. intros H.
  destruct (x509_to_pem (certificate b)) as [cert|] eqn:E1; [|done]. simpl in H.
  destruct (mapM x509_to_pem (ca_chain b)) as [chain|] eqn:E2; [|done]. simpl in H.
  destruct (pkey_to_pem (private_key b)) as [key|] eqn:E3; [|done]. simpl in H.
  injection H as Hm. symmetry in Hm. unfold bundle_of_json, json_field, json_default.
  rewrite (ltac:(by rewrite Hm) : m !! "certificate" = Some (bytes_json cert)),
    (ltac:(by rewrite Hm) : m !! "ca_chain" = Some (VArray (map bytes_json chain))),
    (ltac:(by rewrite Hm) : m !! "private_key" = Some (bytes_json key)),
    (ltac:(by rewrite Hm) : m !! "private_key_type" = Some (VStr (private_key_type b))),
    (ltac:(by rewrite Hm) : m !! "serial_number" = Some (VStr (serial_number b))).
  assert (∀ x, json_byte_buf (bytes_json x) = Some x) as Hbuf by apply json_bytes_back.
  cbn [mbind option_bind as_str]. rewrite !Hbuf. cbn [mbind option_bind].
  rewrite (x509_pem_back _ _ E1), (json_chain_back _ _ E2), (pkey_pem_back _ _ E3). by destruct b.
Qed.

End correct.

(** *** A toy library, for witnesses: a certificate is its fields, a key a number *)

Definition ext_code (e : X509Ext)
  : (list string * list string * list string * list string) + (bool + (list string + (list string + (bool + bytes)))) :=
  match e with
  | SubjectAlternativeName a b c d => inl (a, b, c, d)
  | BasicConstraints b => inr (inl b)
  | KeyUsage l => inr (inr (inl l))
  | ExtendedKeyUsage l => inr (inr (inr (inl l)))
  | SubjectKeyIdentifier => inr (inr (inr (inr (inl true))))
  | AuthorityKeyIdentifier => inr (inr (inr (inr (inl false))))
  | OtherExtension b => inr (inr (inr (inr (inr b))))
  end.
Definition code_ext
    (c : (list string * list string * list string * list string) + (bool + (list string + (list string + (bool + bytes))))) : X509Ext :=
  match c with
  | inl (a, b, c, d) => SubjectAlternativeName a b c d
  | inr (inl b) => BasicConstraints b
  | inr (inr (inl l)) => KeyUsage l
  | inr (inr (inr (inl l))) => ExtendedKeyUsage l
  | inr (inr (inr (inr (inl true)))) => SubjectKeyIdentifier
  | inr (inr (inr (inr (inl false)))) => AuthorityKeyIdentifier
  | inr (inr (inr (inr (inr b)))) => OtherExtension b
  end.

#[global] Instance X509Ext_eq_dec : EqDecision X509Ext.
Proof. solve_decision. Defined.
#[global] Instance X509Ext_countable : Countable X509Ext.
Proof. refine (inj_countable' ext_code code_ext _). by intros []. Defined.
#[global] Instance CertFields_eq_dec : EqDecision CertFields.
Proof. solve_decision. Defined.
#[global] Instance CertFields_countable : Countable CertFields.
Proof.
  refine (inj_countable'
    (λ f, (cf_version f, cf_serial f, cf_subject f, cf_issuer f, cf_pubkey f, cf_not_before f, cf_not_after f,
           cf_extensions f))
    (λ '(a, b, c, d, e, f, g, h),
       {| cf_version := a; cf_serial := b; cf_subject := c; cf_issuer := d; cf_pubkey := e; cf_not_before := f;
          cf_not_after := g; cf_extensions := h |}) _).
  by intros [].
Defined.

Definition z_text (z : Z) : string := String.string_of_list_byte (pos_bytes (encode z)).
Definition text_z (s : string) : option Z := decode (bytes_pos (str_bytes s)).

Definition toy_x509 : OpensslX509 CertFields nat := {|
  x509_default := {| cf_version := 0; cf_serial := 0; cf_subject := []; cf_issuer := []; cf_pubkey := [];
                     cf_not_before := 0; cf_not_after := 0; cf_extensions := [] |};
  pkey_default := 0;
  x509_tbs := fun c => c;
  x509_head_ok := fun _ _ _ _ => true;
  x509_fields_ok := fun _ => true;
  x509_sign := fun f _ _ => Some f;
  x509_to_pem := fun c => Some (pos_bytes (encode c));
  x509_from_pem := fun b => decode (bytes_pos b);
  x509_to_der := fun c => Some (pos_bytes (encode c));
  x509_from_der := fun b => decode (bytes_pos b);
  x509_subject_key_id := fun c => Some (cf_pubkey c);
  x509_public_key := fun c => Some (cf_pubkey c);
  x509_check_ca := fun c => if bool_decide (BasicConstraints true ∈ cf_extensions c) then 1%Z else 0%Z;
  x509_extension_flags := fun _ => 0%Z;
  x509_extended_key_usage := fun _ => 0%Z;
  x509_not_after_text := fun c => z_text (cf_not_after c);
  pkey_public := fun k => replicate k x02;
  pkey_id := fun _ => IdRSA;
  pkey_to_pem := fun k => Some (replicate k x01);
  pkey_from_pem := fun b => Some (length b);
  pkey_from_der := fun b => Some (length b);
  rsa_pkey := fun i _ => Some i;
  ec_pkey := fun i _ => Some i;
  name_entry_ok := fun _ _ => true;
  bn_rand := fun i => Z.of_nat i;
  bn_hex := fun _ => Some "0A0B";
  asn1_time_ok := fun _ => true;
  naive_timestamp := text_z
|}.

Lemma toy_x509_laws : @OpensslX509Laws CertFields nat toy_x509.
Proof.
  split; simpl.
  - by intros ???? [= <-].
  - intros c b [= <-]. by rewrite bytes_pos_bytes, decode_encode.
  - intros c b [= <-]. by rewrite bytes_pos_bytes, decode_encode.
  - intros k b [= <-]. by rewrite length_replicate.
  - intros c. unfold text_z, z_text, str_bytes. rewrite String.list_byte_of_string_of_list_byte.
    by rewrite bytes_pos_bytes, decode_encode.
Qed.

(** A leaf, and the authority that issued it. *)
Definition toy_ca : CertFields :=
  {| cf_version := 2; cf_serial := 1; cf_subject := [("CN", "ca")]; cf_issuer := [("CN", "ca")];
     cf_pubkey := [x02]; cf_not_before := 0; cf_not_after := 2000000000; cf_extensions := [BasicConstraints true] |}.
Definition toy_leaf : CertFields :=
  {| cf_version := 2; cf_serial := 2; cf_subject := [("CN", "sub")]; cf_issuer := [("CN", "ca")];
     cf_pubkey := [x02; x02]; cf_not_before := 0; cf_not_after := 10; cf_extensions := [BasicConstraints true] |}.

Lemma chain_of_other_key_refused_witness :
  Certs.verify (HO := toy_x509) {| certificate := toy_leaf; ca_chain := [toy_ca]; private_key := 2%nat;
    private_key_type := "rsa"; serial_number := "02" |} ≠ Ok tt.
Proof.
  apply (chain_of_other_key_refused (HO := toy_x509) _ toy_ca).
  - apply list_elem_of_here.
  - vm_compute. discriminate.
Defined.
