(* ===== verification/Pki.v ===== *)
(** * The PKI backend (src/src/modules/pki/)

    Roles, the authority's bundle, certificates issued and stored, and named keys
    that sign and encrypt: the handlers and the declarations of their paths.
    Entries are kept in the view of the mount; OpenSSL is a parameter (files
    [Keys] and [Certs]). *)

From stdpp Require Import base tactics list gmap strings.
From Stdlib Require Import ZArith Lia Ascii.
From S2P Require Import Prelude Errors RustStr Utils Lease Storage BarrierView Logical LogicalBackend Mount World WorldLaws TokenStore Cidr StoredJson TokenUtil Keys Certs.

Local Open Scope string_scope.

Definition DEFAULT_MAX_TTL : Duration := from_secs (365 * 24 * 60 * 60).
Definition PKI_CONFIG_KEY_PREFIX : string := "config/key/".

(** The crate [pem]: the sections of a text, with their tags. *)
Class PemParser : Type := pem_parse_many : string -> option (list (string * bytes)).

Record RoleEntry := {
  pr_ttl : Duration;
  pr_max_ttl : Duration;
  pr_not_before_duration : Duration;
  pr_key_type : string;
  pr_key_bits : Z;
  pr_signature_bits : Z;
  pr_use_pss : bool;
  pr_allow_localhost : bool;
  pr_allow_bare_domains : bool;
  pr_allow_subdomains : bool;
  pr_allow_any_name : bool;
  pr_allow_ip_sans : bool;
  pr_server_flag : bool;
  pr_client_flag : bool;
  pr_use_csr_sans : bool;
  pr_use_csr_common_name : bool;
  pr_key_usage : list string;
  pr_ext_key_usage : list string;
  pr_country : string;
  pr_province : string;
  pr_locality : string;
  pr_organization : string;
  pr_ou : string;
  pr_street_address : string;
  pr_postal_code : string;
  pr_no_store : bool;
  pr_generate_lease : bool;
  pr_not_after : string
}.

(** [x as u32]. *)
Definition as_u32 (z : Z) : Z := z mod 2 ^ 32.
Definition json_u32 (v : Value) : option Z :=
  match v with VInt z => in_range 0 (2 ^ 32 - 1) z | _ => None end.

(** [SystemTime + Duration], which panics past the range of [i64] seconds. *)
Definition time_add (t : SystemTime) (d : Duration) : result SystemTime :=
  if ((t + d) / NANOS <=? I64_MAX)%Z then Ok (t + d)%Z else Panic.

Definition replace_colons : string -> string :=
  fix go s := match s with
              | EmptyString => EmptyString
              | String a s => String (if Ascii.eqb a ":" then "-"%char else a) (go s)
              end.

(** [o.unwrap()]. *)
Definition unwrap {A} (o : option A) : result A := match o with Some a => Ok a | None => Panic end.

Module Pki.

Definition PKI_BACKEND_HELP : string := requote "
The PKI backend dynamically generates X509 server and client certificates.

After mounting this backend, configure the CA using the 'pem_bundle' endpoint within
the 'config/' path.
".

Section pki.
Context {X509 PKey : Type} `{HO : OpensslX509 X509 PKey} `{HF : Features} `{HK : KeyCrypto}.
Context {S Q C : Type} `{HSt : Storage S} `{HCl : Clock} `{HU : UuidGen} `{HSJ : Serde (gmap string Value)}
        `{HSK : Serde KeyBundle} `{HH : Humantime} `{HJ : JsonParser} `{HX : HexCodec} `{HD : HexDecode}
        `{HT : Rfc3339} `{HPem : PemParser}.
Abbreviation W := (World S Q C).
Abbreviation H := (st (W * Request) RvError).
Abbreviation bundle := (CertBundle X509 PKey).

(** ** Roles (path_roles.rs, util.rs) *)

Definition default_role : RoleEntry :=
  {|
    pr_ttl := 0%Z; pr_max_ttl := DEFAULT_MAX_TTL; pr_not_before_duration := 0%Z; pr_key_type := "rsa";
    pr_key_bits := 2048; pr_signature_bits := 256; pr_use_pss := false; pr_allow_localhost := true;
    pr_allow_bare_domains := true; pr_allow_subdomains := true; pr_allow_any_name := true;
    pr_allow_ip_sans := true; pr_server_flag := false; pr_client_flag := false; pr_use_csr_sans := true;
    pr_use_csr_common_name := true; pr_key_usage := []; pr_ext_key_usage := []; pr_country := "";
    pr_province := ""; pr_locality := ""; pr_organization := ""; pr_ou := ""; pr_street_address := "";
    pr_postal_code := ""; pr_no_store := true; pr_generate_lease := false; pr_not_after := "" |}.

Definition role_json (r : RoleEntry) : gmap string Value :=
  list_to_map
    [("ttl", serialize_duration (pr_ttl r));
     ("max_ttl", serialize_duration (pr_max_ttl r));
     ("not_before_duration", serialize_duration (pr_not_before_duration r));
     ("key_type", VStr (pr_key_type r));
     ("key_bits", VInt (pr_key_bits r));
     ("signature_bits", VInt (pr_signature_bits r));
     ("use_pss", VBool (pr_use_pss r));
     ("allow_localhost", VBool (pr_allow_localhost r));
     ("allow_bare_domains", VBool (pr_allow_bare_domains r));
     ("allow_subdomains", VBool (pr_allow_subdomains r));
     ("allow_any_name", VBool (pr_allow_any_name r));
     ("allow_ip_sans", VBool (pr_allow_ip_sans r));
     ("server_flag", VBool (pr_server_flag r));
     ("client_flag", VBool (pr_client_flag r));
     ("use_csr_sans", VBool (pr_use_csr_sans r));
     ("use_csr_common_name", VBool (pr_use_csr_common_name r));
     ("key_usage", strings_json (pr_key_usage r));
     ("ext_key_usage", strings_json (pr_ext_key_usage r));
     ("country", VStr (pr_country r));
     ("province", VStr (pr_province r));
     ("locality", VStr (pr_locality r));
     ("organization", VStr (pr_organization r));
     ("ou", VStr (pr_ou r));
     ("street_address", VStr (pr_street_address r));
     ("postal_code", VStr (pr_postal_code r));
     ("no_store", VBool (pr_no_store r));
     ("generate_lease", VBool (pr_generate_lease r));
     ("not_after", VStr (pr_not_after r))].

Definition role_of_json (m : gmap string Value) : option RoleEntry :=
  ttl ← json_field m "ttl" deserialize_duration;
  max_ttl ← json_field m "max_ttl" deserialize_duration;
  not_before_duration ← json_field m "not_before_duration" deserialize_duration;
  key_type ← json_field m "key_type" as_str;
  key_bits ← json_field m "key_bits" json_u32;
  signature_bits ← json_field m "signature_bits" json_u32;
  use_pss ← json_field m "use_pss" json_bool;
  allow_localhost ← json_field m "allow_localhost" json_bool;
  allow_bare_domains ← json_field m "allow_bare_domains" json_bool;
  allow_subdomains ← json_field m "allow_subdomains" json_bool;
  allow_any_name ← json_field m "allow_any_name" json_bool;
  allow_ip_sans ← json_field m "allow_ip_sans" json_bool;
  server_flag ← json_field m "server_flag" json_bool;
  client_flag ← json_field m "client_flag" json_bool;
  use_csr_sans ← json_field m "use_csr_sans" json_bool;
  use_csr_common_name ← json_field m "use_csr_common_name" json_bool;
  key_usage ← json_field m "key_usage" json_strings;
  ext_key_usage ← json_field m "ext_key_usage" json_strings;
  country ← json_field m "country" as_str;
  province ← json_field m "province" as_str;
  locality ← json_field m "locality" as_str;
  organization ← json_field m "organization" as_str;
  ou ← json_field m "ou" as_str;
  street_address ← json_field m "street_address" as_str;
  postal_code ← json_field m "postal_code" as_str;
  no_store ← json_field m "no_store" json_bool;
  generate_lease ← json_field m "generate_lease" json_bool;
  not_after ← json_field m "not_after" as_str;
  Some {|
    pr_ttl := ttl; pr_max_ttl := max_ttl; pr_not_before_duration := not_before_duration;
    pr_key_type := key_type; pr_key_bits := key_bits; pr_signature_bits := signature_bits;
    pr_use_pss := use_pss; pr_allow_localhost := allow_localhost; pr_allow_bare_domains := allow_bare_domains;
    pr_allow_subdomains := allow_subdomains; pr_allow_any_name := allow_any_name;
    pr_allow_ip_sans := allow_ip_sans; pr_server_flag := server_flag; pr_client_flag := client_flag;
    pr_use_csr_sans := use_csr_sans; pr_use_csr_common_name := use_csr_common_name; pr_key_usage := key_usage;
    pr_ext_key_usage := ext_key_usage; pr_country := country; pr_province := province; pr_locality := locality;
    pr_organization := organization; pr_ou := ou; pr_street_address := street_address;
    pr_postal_code := postal_code; pr_no_store := no_store; pr_generate_lease := generate_lease;
    pr_not_after := not_after |}.

Definition valid {A} (o : option A) : result A := of_option ErrRequestFieldInvalid o.

(** [req.get_data_or_default(key)?.as_..().ok_or(ErrRequestFieldInvalid)?]. *)
Definition field_of {A} (conv : Value -> option A) (req : Request) (key : string) : result A :=
  let? v := RequestOps.get_data_or_default req key in valid (conv v).
Definition str_field := field_of as_str.
Definition bool_field := field_of json_bool.
Definition u64_field := field_of as_u64.

(** A duration text that may be missing or empty. *)
Definition ttl_field (req : Request) (key : string) : result Duration :=
  if_given (RequestOps.get_data req key)
    (λ v, let? s := valid (as_str v) in
          if is_empty s then Ok DEFAULT_MAX_TTL else of_option HumantimeDuration (parse_duration s))
    DEFAULT_MAX_TTL.

(** The size of the key, by its type. *)
Definition check_key_bits (key_type : string) (key_bits : Z) : result Z :=
  let pick dflt allowed :=
    let key_bits := if (key_bits =? 0)%Z then dflt else key_bits in
    if existsb (Z.eqb key_bits) allowed then Ok key_bits else Err ErrPkiKeyBitsInvalid in
  if String.eqb key_type "rsa" then pick 2048%Z [2048%Z; 3072%Z; 4096%Z]
  else if String.eqb key_type "ec" then pick 256%Z [224%Z; 256%Z; 384%Z; 512%Z]
  else if tongsuo && String.eqb key_type "sm2" then pick 256%Z [256%Z]
  else Err ErrPkiKeyTypeInvalid.

(** The entry [create_path_role] makes of a request. *)
Definition requested_role (req : Request) : result RoleEntry :=
  let? ttl := ttl_field req "ttl" in
  let? max_ttl := ttl_field req "max_ttl" in
  let? key_type := str_field req "key_type" in
  let? key_bits := u64_field req "key_bits" in
  let? key_bits := check_key_bits key_type key_bits in
  let? signature_bits := u64_field req "signature_bits" in
  let? allow_localhost := bool_field req "allow_localhost" in
  let? allow_bare_domains := bool_field req "allow_bare_domains" in
  let? allow_subdomains := bool_field req "allow_subdomains" in
  let? allow_any_name := bool_field req "allow_any_name" in
  let? allow_ip_sans := bool_field req "allow_ip_sans" in
  let? server_flag := bool_field req "server_flag" in
  let? client_flag := bool_field req "client_flag" in
  let? use_csr_sans := bool_field req "use_csr_sans" in
  let? use_csr_common_name := bool_field req "use_csr_common_name" in
  let? key_usage := field_of FieldTrait.as_comma_string_slice req "key_usage" in
  let? ext_key_usage := field_of FieldTrait.as_comma_string_slice req "ext_key_usage" in
  let? country := str_field req "country" in
  let? province := str_field req "province" in
  let? locality := str_field req "locality" in
  let? organization := str_field req "organization" in
  let? ou := str_field req "ou" in
  let? street_address := str_field req "street_address" in
  let? postal_code := str_field req "postal_code" in
  let? no_store := bool_field req "no_store" in
  let? generate_lease := bool_field req "generate_lease" in
  let? not_after := str_field req "not_after" in
  let? not_before_duration := u64_field req "not_before_duration" in
  Ok {|
    pr_ttl := ttl; pr_max_ttl := max_ttl; pr_not_before_duration := from_secs not_before_duration;
    pr_key_type := key_type; pr_key_bits := as_u32 key_bits; pr_signature_bits := as_u32 signature_bits;
    pr_use_pss := pr_use_pss default_role; pr_allow_localhost := allow_localhost;
    pr_allow_bare_domains := allow_bare_domains; pr_allow_subdomains := allow_subdomains;
    pr_allow_any_name := allow_any_name; pr_allow_ip_sans := allow_ip_sans; pr_server_flag := server_flag;
    pr_client_flag := client_flag; pr_use_csr_sans := use_csr_sans;
    pr_use_csr_common_name := use_csr_common_name; pr_key_usage := key_usage;
    pr_ext_key_usage := ext_key_usage; pr_country := country; pr_province := province; pr_locality := locality;
    pr_organization := organization; pr_ou := ou; pr_street_address := street_address;
    pr_postal_code := postal_code; pr_no_store := no_store; pr_generate_lease := generate_lease;
    pr_not_after := not_after |}.

Definition role_key (name : string) : string := "role/" ++ name.

Definition get_role (name : string) : H (option RoleEntry) := get_json (role_key name) role_of_json.

(** [req.get_data(key)?.as_str().ok_or(ErrRequestFieldInvalid)?]. *)
Definition data_str (key : string) : H string :=
  let! req := get_req in
  let! v := st_lift (RequestOps.get_data req key) in
  st_lift (valid (as_str v)).
(** The same with [get_data_or_default]. *)
Definition data_str_or_default (key : string) : H string :=
  let! req := get_req in st_lift (str_field req key).

(** [data.as_object().unwrap()] of no role panics. *)
Definition read_path_role : H (option Response) :=
  let! name := data_str "name" in
  let! role_entry := get_role name in
  match role_entry with
  | Some r => st_ret (Some (ResponseOps.data_response (Some (role_json r))))
  | None => st_lift Panic
  end.

Definition create_path_role : H (option Response) :=
  let! name := data_str "name" in
  let! req := get_req in
  let! role_entry := st_lift (requested_role req) in
  let! _ := put_json (role_key name) (role_json role_entry) in
  st_ret None.

Definition delete_path_role : H (option Response) :=
  let! name := data_str "name" in
  let! _ := st_guard (is_empty name) ErrRequestNoDataField in
  let! _ := req_delete (role_key name) in
  st_ret None.

(** The role a request for a root certificate describes. *)
Definition get_role_params (req : Request) : result RoleEntry :=
  let? ttl := ttl_field req "ttl" in
  let? not_before_duration := u64_field req "not_before_duration" in
  let? key_type := str_field req "key_type" in
  let? key_bits := u64_field req "key_bits" in
  let? key_bits := check_key_bits key_type key_bits in
  let? signature_bits := u64_field req "signature_bits" in
  let? use_pss := bool_field req "use_pss" in
  let? country := str_field req "country" in
  let? province := str_field req "province" in
  let? locality := str_field req "locality" in
  let? organization := str_field req "organization" in
  let? ou := str_field req "ou" in
  let? street_address := str_field req "street_address" in
  let? postal_code := str_field req "postal_code" in
  let? not_after := str_field req "not_after" in
  Ok {|
    pr_ttl := ttl; pr_max_ttl := pr_max_ttl default_role;
    pr_not_before_duration := from_secs not_before_duration; pr_key_type := key_type;
    pr_key_bits := as_u32 key_bits; pr_signature_bits := as_u32 signature_bits; pr_use_pss := use_pss;
    pr_allow_localhost := pr_allow_localhost default_role;
    pr_allow_bare_domains := pr_allow_bare_domains default_role;
    pr_allow_subdomains := pr_allow_subdomains default_role;
    pr_allow_any_name := pr_allow_any_name default_role; pr_allow_ip_sans := pr_allow_ip_sans default_role;
    pr_server_flag := pr_server_flag default_role; pr_client_flag := pr_client_flag default_role;
    pr_use_csr_sans := pr_use_csr_sans default_role;
    pr_use_csr_common_name := pr_use_csr_common_name default_role; pr_key_usage := pr_key_usage default_role;
    pr_ext_key_usage := pr_ext_key_usage default_role; pr_country := country; pr_province := province;
    pr_locality := locality; pr_organization := organization; pr_ou := ou; pr_street_address := street_address;
    pr_postal_code := postal_code; pr_no_store := pr_no_store default_role;
    pr_generate_lease := pr_generate_lease default_role; pr_not_after := not_after |}.

(** ** Certificates (util.rs, path_issue.rs) *)

(** The names of a request: its common name, and the alternative ones. *)
Definition alt_names_of (req : Request) (key : string) : result (list string) :=
  if_given (RequestOps.get_data req key)
    (λ v, let? s := valid (as_str v) in Ok (if is_empty s then [] else split_char "," s)) [].

Definition names_of (req : Request) : result (string * list string) :=
  let? common_name := str_field req "common_name" in
  let? alt := alt_names_of req "alt_names" in
  Ok (common_name, ((if is_empty common_name then [] else [common_name]) ++ alt)%list).

(** [append_entry_by_text(..).unwrap()] of each entry that is not empty. *)
Fixpoint name_of (l : list (string * string)) : result X509Name :=
  match l with
  | [] => Ok []
  | (k, v) :: l =>
      if is_empty v then name_of l
      else if name_entry_ok k v then let? rest := name_of l in Ok ((k, v) :: rest)
      else Panic
  end.

Definition subject_of (r : RoleEntry) (common_name : string) : result X509Name :=
  name_of [("C", pr_country r); ("ST", pr_province r); ("L", pr_locality r); ("O", pr_organization r);
           ("OU", pr_ou r); ("CN", common_name)].

Definition with_default (not_before not_after : SystemTime) (subject : X509Name) (dns ip : list string)
    (r : RoleEntry) (c : Certificate) : Certificate :=
  {| ce_version := ce_version c; ce_serial_number := ce_serial_number c; ce_issuer := ce_issuer c;
     ce_subject := subject; ce_not_before := not_before; ce_not_after := not_after;
     ce_extensions := ce_extensions c; ce_subject_key_id := ce_subject_key_id c;
     ce_authority_key_id := ce_authority_key_id c; ce_dns_sans := dns; ce_email_sans := ce_email_sans c;
     ce_ip_sans := ip; ce_uri_sans := ce_uri_sans c; ce_is_ca := ce_is_ca c;
     ce_key_type := pr_key_type r; ce_key_bits := pr_key_bits r |}.

Definition set_is_ca (b : bool) (c : Certificate) : Certificate :=
  {| ce_version := ce_version c; ce_serial_number := ce_serial_number c; ce_issuer := ce_issuer c;
     ce_subject := ce_subject c; ce_not_before := ce_not_before c; ce_not_after := ce_not_after c;
     ce_extensions := ce_extensions c; ce_subject_key_id := ce_subject_key_id c;
     ce_authority_key_id := ce_authority_key_id c; ce_dns_sans := ce_dns_sans c;
     ce_email_sans := ce_email_sans c; ce_ip_sans := ce_ip_sans c; ce_uri_sans := ce_uri_sans c;
     ce_is_ca := b; ce_key_type := ce_key_type c; ce_key_bits := ce_key_bits c |}.

Definition generate_certificate (r : RoleEntry) : H Certificate :=
  let! req := get_req in
  let! names := st_lift (names_of req) in
  let! ip_sans := st_lift (alt_names_of req "ip_sans") in
  let! t := on_world now in
  let not_before := (t - from_secs 10)%Z in
  let! not_after := st_lift (
    if (18 <? String.length (pr_not_after r))%nat then of_option HumantimeTimestamp (parse_rfc3339 (pr_not_after r))
    else if negb (pr_ttl r =? 0)%Z then time_add not_before (pr_ttl r)
    else time_add not_before (pr_max_ttl r)) in
  let! subject := st_lift (subject_of r (fst names)) in
  let! c := on_world Certs.default_certificate in
  st_ret (with_default not_before not_after subject (snd names) ip_sans r c).

(** ** Stored certificates (path_fetch.rs) *)

Definition cert_key (serial_number : string) : string := "certs/" ++ serial_number.

Definition fetch_cert (serial_number : string) : H X509 :=
  let! entry := req_get (cert_key serial_number) in
  match entry with
  | None => st_fail ErrPkiCertNotFound
  | Some e => st_lift (openssl (x509_from_der (se_value e)))
  end.

Definition store_cert (serial_number : string) (cert : X509) : H unit :=
  let! value := st_lift (openssl (x509_to_der cert)) in req_put (cert_key serial_number) value.

Definition delete_cert (serial_number : string) : H unit := req_delete (cert_key serial_number).

Definition serial_hex (serial_number : string) : string := to_lowercase (replace_colons serial_number).

(** ** The authority (path_config_ca.rs) *)

Definition fetch_ca_bundle : H bundle :=
  let! ca := get_json "config/ca_bundle" Certs.bundle_of_json in
  match ca with Some b => st_ret b | None => st_fail ErrPkiCaNotConfig end.

Definition store_ca_bundle (b : bundle) : H unit :=
  let! m := st_lift (unwrap (Certs.bundle_json b)) in
  let! _ := put_json "config/ca_bundle" m in
  let! pem := st_lift (unwrap (x509_to_pem (certificate b))) in
  let! _ := req_put "ca" pem in
  store_cert (serial_hex (serial_number b)) (certificate b).

Definition delete_ca_bundle : H unit :=
  let! b := fetch_ca_bundle in
  let! _ := delete_cert (serial_hex (serial_number b)) in
  req_delete "config/ca_bundle".

Definition key_type_of (key : PKey) : string :=
  match pkey_id key with
  | IdRSA => "rsa" | IdEC => "ec" | IdSM2 => "sm2" | IdED25519 => "ed25519" | IdOther => "other"
  end.

(** The loop over the sections of the text: the bundle, whether a key was
    found, and how many certificates. *)
Definition add_cert (first : bool) (cert : X509) (b : bundle) : bundle :=
  {| certificate := if first then cert else certificate b;
     ca_chain := if first then ca_chain b else (ca_chain b ++ [cert])%list;
     private_key := private_key b; private_key_type := private_key_type b; serial_number := serial_number b |}.
Definition add_key (key : PKey) (b : bundle) : bundle :=
  {| certificate := certificate b; ca_chain := ca_chain b; private_key := key;
     private_key_type := key_type_of key; serial_number := serial_number b |}.

Fixpoint read_items (items : list (string * bytes)) (key_found : bool) (i : nat) (b : bundle) : result bundle :=
  match items with
  | [] => Ok b
  | (tag, contents) :: items =>
      if String.eqb tag "CERTIFICATE" then
        let? cert := openssl (x509_from_der contents) in
        if negb (Certs.is_ca_cert cert) then Err ErrPkiPemBundleInvalid
        else read_items items key_found (Datatypes.S i) (add_cert (Nat.eqb i 0) cert b)
      else if String.eqb tag "PRIVATE KEY" then
        if key_found then Err ErrPkiPemBundleInvalid
        else let? key := openssl (pkey_from_der contents) in read_items items true i (add_key key b)
      else read_items items key_found i b
  end.

Definition write_path_ca : H (option Response) :=
  let! pem_bundle := data_str "pem_bundle" in
  let! items := st_lift (of_option Pem (pem_parse_many pem_bundle)) in
  let! cert_bundle := st_lift (read_items items false 0 Certs.default_bundle) in
  let! _ := st_lift (Certs.verify cert_bundle) in
  let! _ := store_ca_bundle cert_bundle in
  let! _ := req_put "crl" [] in
  st_ret None.

(** *** Root certificates (path_root.rs) *)

Definition asn1time_to_timestamp (time_str : string) : result Z := of_option ChronoError (naive_timestamp time_str).

Definition pem_text (c : X509) : result string := let? b := openssl (x509_to_pem c) in Ok (from_utf8_lossy b).

Definition generate_root : H (option Response) :=
  let! exported := data_str_or_default "exported" in
  let export_private_key := String.eqb exported "exported" in
  let! req := get_req in
  let! role_entry := st_lift (get_role_params req) in
  let! cert := generate_certificate role_entry in
  let! b := on_world (Certs.to_cert_bundle (set_is_ca true cert) None None) in
  let! _ := store_ca_bundle b in
  let! cert_expiration := st_lift (asn1time_to_timestamp (x509_not_after_text (certificate b))) in
  let! issuing_ca := st_lift (pem_text (certificate b)) in
  let data : gmap string Value :=
    list_to_map [("expiration", VInt cert_expiration); ("issuing_ca", VStr issuing_ca);
                 ("certificate", VStr issuing_ca); ("serial_number", VStr (serial_number b))] in
  if export_private_key then
    let! key := st_lift (openssl (pkey_to_pem (private_key b))) in
    st_ret (Some (ResponseOps.data_response (Some
      (<["private_key_type" := VStr (private_key_type b)]>
         (<["private_key" := VStr (from_utf8_lossy key)]> data)))))
  else st_ret (Some (ResponseOps.data_response (Some data))).

Definition delete_root : H (option Response) := let! _ := delete_ca_bundle in st_ret None.

(** *** Reading certificates *)

(** The PEM texts of a chain, one after another. *)
Fixpoint chain_pem (l : list X509) : result string :=
  match l with
  | [] => Ok ""
  | c :: l => let? b := unwrap (x509_to_pem c) in let? rest := chain_pem l in Ok (from_utf8_lossy b ++ rest)
  end.

Definition handle_fetch_cert_bundle (b : bundle) : result (option Response) :=
  let? ca_chain_pem := chain_pem (rev (ca_chain b)) in
  let? cert := pem_text (certificate b) in
  Ok (Some (ResponseOps.data_response (Some (list_to_map
    [("ca_chain", VStr ca_chain_pem); ("certificate", VStr cert); ("serial_number", VStr (serial_number b))])))).

Definition read_path_fetch_ca : H (option Response) :=
  let! b := fetch_ca_bundle in st_lift (handle_fetch_cert_bundle b).

Definition read_path_fetch_crl : H (option Response) := st_ret None.

Definition read_path_fetch_cert : H (option Response) :=
  let! serial_number := data_str "serial" in
  let! cert := fetch_cert (serial_hex serial_number) in
  let! ca := fetch_ca_bundle in
  let! chain := st_lift (chain_pem (rev (ca_chain ca))) in
  let! ca_pem := st_lift (unwrap (x509_to_pem (certificate ca))) in
  let! cert_pem := st_lift (pem_text cert) in
  st_ret (Some (ResponseOps.data_response (Some (list_to_map
    [("ca_chain", VStr (chain ++ from_utf8_lossy ca_pem)); ("certificate", VStr cert_pem);
     ("serial_number", VStr serial_number)])))).

Definition read_path_fetch_cert_crl : H (option Response) := st_ret None.

(** *** Issuing (path_issue.rs) *)

(** The end of validity a request may ask for, no later than the authority's. *)
Definition requested_end (ca : bundle) (dflt : SystemTime) : H SystemTime :=
  let! req := get_req in
  match RequestOps.get_data req "ttl" with
  | Panic => st_lift Panic
  | Err _ => st_ret dflt
  | Ok v =>
      let! ttl := st_lift (valid (as_str v)) in
      let! ttl_dur := st_lift (of_option HumantimeDuration (parse_duration ttl)) in
      let! t := on_world now in
      let! req_ttl_not_after := st_lift (time_add t ttl_dur) in
      let! secs := st_lift (Certs.unix_secs req_ttl_not_after) in
      let! _ := st_lift (Certs.holds (asn1_time_ok secs)) in
      let! _ := st_guard (cf_not_after (x509_tbs (certificate ca)) <? secs)%Z ErrRequestInvalid in
      st_ret req_ttl_not_after
  end.

Definition revoke_secret_creds : H (option Response) := st_ret None.
Definition renew_secret_creds : H (option Response) := st_ret None.

Definition pki_secret : Secret W :=
  {| secret_type := "pki"; default_duration := 0%Z; renew_handler := Some renew_secret_creds;
     revoke_handler := Some revoke_secret_creds |}.

(** The response with a lease that ends when the certificate does. *)
Definition leased (resp_data : gmap string Value) (serial : string) (cert_expiration : Z) : H (option Response) :=
  let! t0 := on_world now in
  let resp := SecretOps.response t0 pki_secret (Some resp_data) (Some {["serial_number" := VStr serial]}) in
  let! t := on_world now in
  let! now_timestamp := st_lift (of_option SystemTimeError (since_epoch t)) in
  let! ttl := st_lift (dur_sub (from_secs (cert_expiration mod 2 ^ 64)) now_timestamp) in
  match resp_secret resp with
  | None => st_lift Panic
  | Some secret =>
      let l := secret_lease secret in
      st_ret (Some (ResponseOps.set_secret (Some
        {| secret_lease := {| Lease.ttl := ttl; Lease.max_ttl := Lease.max_ttl l; Lease.renewable := true;
                              Lease.increment := Lease.increment l; Lease.issue_time := Lease.issue_time l |};
           lease_id := lease_id secret; secret_internal_data := secret_internal_data secret |}) resp))
  end.

(** The certificate a request gets under a role, before it is signed. *)
Definition requested_certificate (r : RoleEntry) (names : string * list string) (ip_sans : list string)
    (ca : bundle) : H Certificate :=
  let! t := on_world now in
  let not_before := (t - from_secs 10)%Z in
  let! month := st_lift (unwrap (parse_duration "30d")) in
  let! dflt := st_lift (time_add not_before month) in
  let! not_after := requested_end ca dflt in
  let! subject := st_lift (subject_of r (fst names)) in
  let! c := on_world Certs.default_certificate in
  st_ret (with_default not_before not_after subject (snd names) ip_sans r c).

(** The certificate is stored, and returned with its key. *)
Definition issued_data (ca b : bundle) (cert_expiration : Z) : result (gmap string Value) :=
  let? chain := chain_pem (ca_chain b) in
  let? issuing_ca := pem_text (certificate ca) in
  let? cert_pem := pem_text (certificate b) in
  let? key := openssl (pkey_to_pem (private_key b)) in
  Ok (list_to_map
    [("expiration", VInt cert_expiration); ("issuing_ca", VStr issuing_ca); ("ca_chain", VStr chain);
     ("certificate", VStr cert_pem); ("private_key", VStr (from_utf8_lossy key));
     ("private_key_type", VStr (private_key_type b)); ("serial_number", VStr (serial_number b))]).

Definition respond_issued (role_entry : RoleEntry) (ca b : bundle) : H (option Response) :=
  let! _ := if pr_no_store role_entry then st_ret tt
            else store_cert (serial_hex (serial_number b)) (certificate b) in
  let! cert_expiration := st_lift (asn1time_to_timestamp (x509_not_after_text (certificate b))) in
  let! resp_data := st_lift (issued_data ca b cert_expiration) in
  if pr_generate_lease role_entry then leased resp_data (serial_number b) cert_expiration
  else st_ret (Some (ResponseOps.data_response (Some resp_data))).

Definition issue_cert : H (option Response) :=
  let! req := get_req in
  let! names := st_lift (names_of req) in
  let! role_name := data_str "role" in
  let! role := get_role role_name in
  match role with
  | None => st_fail ErrPkiRoleNotFound
  | Some role_entry =>
      let! ip_sans := st_lift (alt_names_of req "ip_sans") in
      let! ca := fetch_ca_bundle in
      let! cert := requested_certificate role_entry names ip_sans ca in
      let! b := on_world (Certs.to_cert_bundle cert (Some (certificate ca)) (Some (private_key ca))) in
      respond_issued role_entry ca b
  end.

(** *** Revocation: not implemented in the program (path_revoke.rs, path_config_crl.rs) *)

Definition revoke_cert : H (option Response) := st_ret None.
Definition read_rotate_crl : H (option Response) := st_ret None.
Definition read_path_crl : H (option Response) := st_ret None.
Definition write_path_crl : H (option Response) := st_ret None.

(** ** Keys (path_keys.rs) *)

Definition key_path (key_name : string) : string := PKI_CONFIG_KEY_PREFIX ++ key_name.

Definition fetch_key (key_name : string) : H KeyBundle :=
  let! entry := req_get (key_path key_name) in
  match entry with
  | None => st_fail ErrPkiCertNotFound
  | Some e => st_lift (of_option SerdeJson (de (se_value e)))
  end.

Definition write_key (b : KeyBundle) : H unit :=
  let! value := st_lift (of_option SerdeJson (ser b)) in req_put (key_path (kb_name b)) value.

(** [if self.fetch_key(..).is_ok() { return Err(..) }]. *)
Definition name_is_free (key_name : string) : H unit := fun s =>
  match fetch_key key_name s with
  | (s, Ok _) => (s, Err ErrPkiKeyNameAlreadyExist)
  | (s, Err _) => (s, Ok tt)
  | (s, Panic) => (s, Panic)
  end.

Definition key_info (b : KeyBundle) : gmap string Value :=
  list_to_map [("key_id", VStr (kb_id b)); ("key_name", VStr (kb_name b)); ("key_type", VStr (kb_key_type b));
               ("key_bits", VInt (kb_bits b))].

Definition exported_key (key_type : string) (b : KeyBundle) (m : gmap string Value) : gmap string Value :=
  let text := if str_in key_type ["rsa"; "ec"; "sm2"] then from_utf8_lossy (kb_key b) else hex_encode (kb_key b) in
  let m := <["private_key" := VStr text]> m in
  if bool_decide (kb_iv b = []) then m else <["iv" := VStr (hex_encode (kb_iv b))]> m.

Definition generate_key : H (option Response) :=
  let! key_name := data_str "key_name" in
  let! key_type := data_str_or_default "key_type" in
  let! req := get_req in
  let! key_bits := st_lift (u64_field req "key_bits") in
  let export_private_key := ends_with "/exported" (path req) in
  let! _ := name_is_free key_name in
  let! b := on_world (Keys.new key_name (to_lowercase key_type) (as_u32 key_bits)) in
  let! b := on_world (Keys.generate b) in
  let! _ := write_key b in
  st_ret (Some (ResponseOps.data_response (Some
    (if export_private_key then exported_key key_type b (key_info b) else key_info b)))).

(** The key material of a PEM text; of a hex text, with its IV. *)
Definition import_pem (key_type pem_bundle : string) (b : KeyBundle) : result KeyBundle :=
  let key := str_bytes pem_bundle in
  if String.eqb key_type "rsa" then
    let? n := openssl (rsa_size key) in Ok (Keys.set_bits (n * 8) (Keys.set_key key b))
  else if str_in key_type ["ec"; "sm2"] then
    let? n := openssl (ec_degree key) in Ok (Keys.set_bits n (Keys.set_key key b))
  else Err ErrPkiKeyTypeInvalid.

Definition import_hex (req : Request) (key_type hex_bundle : string) (b : KeyBundle) : result KeyBundle :=
  let? key := of_option Hex (hex_decode hex_bundle) in
  let bits := as_u32 (Z.of_nat (length key) * 8) in
  if negb (existsb (Z.eqb bits) [128%Z; 192%Z; 256%Z]) then Err ErrPkiKeyBitsInvalid
  else
    let b := Keys.set_bits bits (Keys.set_key key b) in
    let? iv_value := RequestOps.get_data_or_default req "iv" in
    if negb (str_in key_type ["aes-gcm"; "aes-cbc"; "aes-ecb"]
             || tongsuo && str_in key_type ["sm4-gcm"; "sm4-ccm"]) then Err ErrPkiKeyTypeInvalid
    else if str_in key_type ["aes-gcm"; "aes-cbc"; "sm4-gcm"; "sm4-ccm"] then
      match as_str iv_value with
      | Some iv => let? x := of_option Hex (hex_decode iv) in Ok (Keys.set_iv x b)
      | None => Err ErrRequestFieldNotFound
      end
    else Ok b.

Definition import_key : H (option Response) :=
  let! key_name := data_str "key_name" in
  let! key_type := data_str_or_default "key_type" in
  let! pem_bundle := data_str_or_default "pem_bundle" in
  let! hex_bundle := data_str_or_default "hex_bundle" in
  let! _ := st_guard (is_empty pem_bundle && is_empty hex_bundle) ErrRequestFieldNotFound in
  let! _ := name_is_free key_name in
  let! b := on_world (Keys.new key_name (to_lowercase key_type) 0) in
  let! b := st_lift (if is_empty pem_bundle then Ok b else import_pem key_type pem_bundle b) in
  let! req := get_req in
  let! b := st_lift (if is_empty hex_bundle then Ok b else import_hex req key_type hex_bundle b) in
  let! _ := write_key b in
  st_ret (Some (ResponseOps.data_response (Some (key_info b)))).

Definition result_of (v : Value) : option Response := Some (ResponseOps.data_response (Some {["result" := v]})).
Definition hex_data (s : string) : H bytes := st_lift (of_option Hex (hex_decode s)).

(** [self.fetch_key(req, req.get_data("key_name")?.as_str()..)]. *)
Definition named_key : H KeyBundle := let! key_name := data_str "key_name" in fetch_key key_name.

Definition key_sign : H (option Response) :=
  let! data := data_str "data" in
  let! b := named_key in
  let! decoded_data := hex_data data in
  let! result := st_lift (Keys.sign b decoded_data) in
  st_ret (result_of (VStr (hex_encode result))).

Definition key_verify : H (option Response) :=
  let! data := data_str "data" in
  let! signature := data_str "signature" in
  let! b := named_key in
  let! decoded_data := hex_data data in
  let! decoded_signature := hex_data signature in
  let! result := st_lift (Keys.verify b decoded_data decoded_signature) in
  st_ret (result_of (VBool result)).

Definition key_encrypt : H (option Response) :=
  let! data := data_str "data" in
  let! aad := data_str_or_default "aad" in
  let! b := named_key in
  let! decoded_data := hex_data data in
  let! result := st_lift (Keys.encrypt b decoded_data (Some (Aad (str_bytes aad)))) in
  st_ret (result_of (VStr (hex_encode result))).

Definition key_decrypt : H (option Response) :=
  let! data := data_str "data" in
  let! aad := data_str_or_default "aad" in
  let! b := named_key in
  let! decoded_data := hex_data data in
  let! result := st_lift (Keys.decrypt b decoded_data (Some (Aad (str_bytes aad)))) in
  st_ret (result_of (VStr (hex_encode result))).

(** ** The paths (field.rs and the path_*.rs files) *)

Definition ca_common_fields : list (string * Field) :=
  [("alt_names", default_field Str (VStr "") "The requested Subject Alternative Names, if any,
    in a comma-delimited list. May contain both DNS names and email addresses.");
   ("common_name", required_field Str "The requested common name; if you want more than
one, specify the alternative names in the alt_names map. If not specified when
signing, the common name will be taken from the CSR; other names must still be
specified in alt_names or ip_sans.
");
   ("ttl", plain_field Str "The requested Time To Live for the certificate;
sets the expiration date. If not specified the role default, backend default,
or system default TTL is used, in that order. Cannot be larger than the mount
max TTL. Note: this only has an effect when generating a CA cert or signing a
CA cert, not when generating a CSR for an intermediate CA.
");
   ("not_before_duration", default_field Int (VInt (30)) "
    The duration before now which the certificate needs to be backdated by.");
   ("not_after", default_field Str (VStr "") "
Set the not after field of the certificate with specified date value.
The value format should be given in UTC format YYYY-MM-ddTHH:MM:SSZ.");
   ("ou", default_field Str (VStr "") "If set, OU (OrganizationalUnit) will be set to this value.");
   ("organization", default_field Str (VStr "") "If set, O (Organization) will be set to this value.");
   ("country", default_field Str (VStr "") "If set, Country will be set to this value.");
   ("locality", default_field Str (VStr "") "If set, Locality will be set to this value in certificates issued by this role.");
   ("province", default_field Str (VStr "") "If set, Province will be set to this value.");
   ("street_address", default_field Str (VStr "") "If set, Street Address will be set to this value.");
   ("postal_code", default_field Str (VStr "") "If set, Postal Code will be set to this value.");
   ("serial_number", default_field Str (VStr "") "The Subject's requested serial number, if any.
See RFC 4519 Section 2.31 'serialNumber' for a description of this field.
If you want more than one, specify alternative names in the alt_names
map using OID 2.5.4.5. This has no impact on the final certificate's
Serial Number field.
")].

Definition ca_key_generation_fields : list (string * Field) :=
  [("exported", default_field Str (VStr "internal") (requote "Must be 'internal', 'exported' or 'kms'. If set to
'exported', the generated private key will be returned. This is your *only*
chance to retrieve the private key!"));
   ("key_type", default_field Str (VStr "rsa") (requote "The type of key to use; defaults to RSA. 'rsa' 'ec',
    'ed25519' and 'any' are the only valid values."));
   ("key_bits", default_field Int (VInt (0)) "The number of bits to use. Allowed values are 0 (universal default);
with rsa key_type: 2048 (default), 3072, or 4096; with ec key_type: 224, 256 (default),
384, or 521; ignored with ed25519.");
   ("signature_bits", default_field Int (VInt (0)) "The number of bits to use in the signature algorithm;
accepts 256 for SHA-2-256, 384 for SHA-2-384, and 512 for SHA-2-512. defaults to 0
to automatically detect based on key length (SHA-2-256 for RSA keys, and matching
the curve size for NIST P-Curves).");
   ("use_pss", default_field Bool (VBool false) "Whether or not to use PSS signatures when using a
    RSA key-type issuer. Defaults to false.")].

Definition ca_issue_fields : list (string * Field) :=
  [("permitted_dns_domains", default_field Str (VStr "rsa") "Domains for which this certificate is allowed to
sign or issue child certificates. If set, all DNS names (subject and alt) on
child certs must be exact matches or subsets of the given domains
(see https://tools.ietf.org/html/rfc5280#section-4.2.1.10).");
   ("max_path_length", default_field Int (VInt (-1)) "The maximum allowable path length")].

Definition roles_path : Path * list (PathOperation W) :=
  path_with "roles/(?P<name>\w[\w-]+\w)" "This path lets you manage the roles that can be created with this backend."
    [("name", required_field Str "Name of the role.");
     ("ttl", plain_field Str "
The lease duration (validity period of the certificate) if no specific lease
duration is requested. The lease duration controls the expiration of certificates
issued by this backend. defaults to the system default value or the value of
max_ttl, whichever is shorter.");
     ("max_ttl", plain_field Str "
        The maximum allowed lease duration. If not set, defaults to the system maximum lease TTL.");
     ("use_pss", default_field Bool (VBool false) "
        Whether or not to use PSS signatures when using a RSA key-type issuer. Defaults to false.");
     ("allow_localhost", default_field Bool (VBool true) (requote "
Whether to allow 'localhost' and 'localdomain' as a valid common name in a request,
independent of allowed_domains value."));
     ("allowed_domains", plain_field Str "
Specifies the domains this role is allowed to issue certificates for.
This is used with the allow_bare_domains, allow_subdomains, and allow_glob_domains
to determine matches for the common name, DNS-typed SAN entries, and Email-typed
SAN entries of certificates. See the documentation for more information.
This parameter accepts a comma-separated string or list of domains.");
     ("allow_bare_domains", default_field Bool (VBool false) (requote "
If set, clients can request certificates for the base domains themselves,
e.g. 'example.com' of domains listed in allowed_domains. This is a separate
option as in some cases this can be considered a security threat.
See the documentation for more information."));
     ("allow_subdomains", default_field Bool (VBool false) "
If set, clients can request certificates for subdomains of domains listed in
allowed_domains, including wildcard subdomains. See the documentation for more information.");
     ("allow_any_name", default_field Bool (VBool false) "
If set, clients can request certificates for any domain, regardless of allowed_domains restrictions.
See the documentation for more information.");
     ("allow_ip_sans", default_field Bool (VBool true) "
        If set, IP Subject Alternative Names are allowed. Any valid IP is accepted and No authorization checking is performed.");
     ("server_flag", default_field Bool (VBool true) "
        If set, certificates are flagged for server auth use. defaults to true. See also RFC 5280 Section 4.2.1.12.");
     ("client_flag", default_field Bool (VBool true) "
        If set, certificates are flagged for client auth use. defaults to true. See also RFC 5280 Section 4.2.1.12.");
     ("code_signing_flag", plain_field Bool "
        If set, certificates are flagged for code signing use. defaults to false. See also RFC 5280 Section 4.2.1.12.");
     ("key_type", default_field Str (VStr "rsa") (requote "
        The type of key to use; defaults to RSA. 'rsa' 'ec', 'ed25519' and 'any' are the only valid values."));
     ("key_bits", default_field Int (VInt 0) "
The number of bits to use. Allowed values are 0 (universal default); with rsa
key_type: 2048 (default), 3072, or 4096; with ec key_type: 224, 256 (default),
384, or 521; ignored with ed25519.");
     ("signature_bits", default_field Int (VInt 0) "
The number of bits to use in the signature algorithm; accepts 256 for SHA-2-256,
384 for SHA-2-384, and 512 for SHA-2-512. defaults to 0 to automatically detect
based on key length (SHA-2-256 for RSA keys, and matching the curve size for NIST P-Curves).");
     ("key_usage", default_field CommaStringSlice (VStr "DigitalSignature,KeyAgreement,KeyEncipherment") (requote "
A comma-separated string or list of key usages (not extended key usages).
Valid values can be found at https://golang.org/pkg/crypto/x509/#KeyUsage
-- simply drop the 'KeyUsage' part of the name.
To remove all key usages from being set, set this value to an empty list. See also RFC 5280 Section 4.2.1.3.
                    "));
     ("ext_key_usage", plain_field CommaStringSlice (requote "
A comma-separated string or list of extended key usages. Valid values can be found at
https://golang.org/pkg/crypto/x509/#ExtKeyUsage -- simply drop the 'ExtKeyUsage' part of the name.
To remove all key usages from being set, set this value to an empty list. See also RFC 5280 Section 4.2.1.12.
                    "));
     ("not_before_duration", default_field Int (VInt 30) "
        The duration before now which the certificate needs to be backdated by.");
     ("not_after", default_field Str (VStr "") "
Set the not after field of the certificate with specified date value.
The value format should be given in UTC format YYYY-MM-ddTHH:MM:SSZ.");
     ("ou", plain_field Str "
        If set, OU (OrganizationalUnit) will be set to this value in certificates issued by this role.");
     ("organization", plain_field Str "
        If set, O (Organization) will be set to this value in certificates issued by this role.");
     ("country", plain_field Str "
        If set, Country will be set to this value in certificates issued by this role.");
     ("locality", plain_field Str "
        If set, Locality will be set to this value in certificates issued by this role.");
     ("province", plain_field Str "
        If set, Province will be set to this value in certificates issued by this role.");
     ("street_address", plain_field Str "
        If set, Street Address will be set to this value.");
     ("postal_code", plain_field Str "
        If set, Postal Code will be set to this value.");
     ("use_csr_common_name", default_field Bool (VBool true) "
If set, when used with a signing profile, the common name in the CSR will be used. This
does *not* include any requested Subject Alternative Names; use use_csr_sans for that. defaults to true.");
     ("use_csr_sans", default_field Bool (VBool true) "
If set, when used with a signing profile, the SANs in the CSR will be used. This does *not*
include the Common Name (cn); use use_csr_common_name for that. defaults to true.");
     ("generate_lease", default_field Bool (VBool false) (requote "
If set, certificates issued/signed against this role will have RustyVault leases
attached to them. Defaults to 'false'. Certificates can be added to the CRL by
'vault revoke <lease_id>' when certificates are associated with leases.  It can
also be done using the 'pki/revoke' endpoint. However, when lease generation is
disabled, invoking 'pki/revoke' would be the only way to add the certificates
to the CRL.  When large number of certificates are generated with long
lifetimes, it is recommended that lease generation be disabled, as large amount of
leases adversely affect the startup time of RustyVault."));
     ("no_store", default_field Bool (VBool false) (requote "
If set, certificates issued/signed against this role will not be stored in the
storage backend. This can improve performance when issuing large numbers of
certificates. However, certificates issued in this way cannot be enumerated
or revoked, so this option is recommended only for certificates that are
non-sensitive, or extremely short-lived. This option implies a value of 'false'
for 'generate_lease'."))]
    [(Read, read_path_role); (Write, create_path_role); (Delete, delete_path_role)].

Definition config_ca_path : Path * list (PathOperation W) :=
  path_with "config/ca" "
This configures the CA information used for credentials
generated by this backend. This must be a PEM-format, concatenated
unencrypted secret key and certificate.

For security reasons, you can only view the certificate when reading this endpoint
                        "
    [("pem_bundle", plain_field Str "PEM-format, concatenated unencrypted secret key and certificate")]
    [(Write, write_path_ca)].

Definition config_crl_path : Path * list (PathOperation W) :=
  path_with "config/crl" "
This endpoint allows configuration of the CRL lifetime.
                "
    [("expiry", default_field Str (VStr "72h") "The amount of time the generated CRL should be valid; defaults to 72 hours")]
    [(Read, read_path_crl); (Write, write_path_crl)].

Definition root_generate_path : Path * list (PathOperation W) :=
  path_with "root/generate/(?P<exported>.+)" "Generate a new CA certificate and private key used for signing."
    (ca_common_fields ++ ca_key_generation_fields ++ ca_issue_fields)%list
    [(Write, generate_root)].

Definition root_delete_path : Path * list (PathOperation W) :=
  path_with "root" "Deletes the root CA key to allow a new one to be generated."
    []
    [(Delete, delete_root)].

Definition fetch_ca_path : Path * list (PathOperation W) :=
  path_with "ca(/pem)?" (requote "
This allows certificates to be fetched. If using the fetch/ prefix any non-revoked certificate can be fetched.
Using 'ca' or 'crl' as the value fetches the appropriate information in DER encoding. Add '/pem' to either to get PEM encoding.
                ")
    []
    [(Read, read_path_fetch_ca)].

Definition fetch_crl_path : Path * list (PathOperation W) :=
  path_with "crl(/pem)?" (requote "
This allows certificates to be fetched. If using the fetch/ prefix any non-revoked certificate can be fetched.
Using 'ca' or 'crl' as the value fetches the appropriate information in DER encoding. Add '/pem' to either to get PEM encoding.
                ")
    []
    [(Read, read_path_fetch_crl)].

Definition fetch_cert_path : Path * list (PathOperation W) :=
  path_with "cert/(?P<serial>[0-9A-Fa-f-:]+)" (requote "
This allows certificates to be fetched. If using the fetch/ prefix any non-revoked certificate can be fetched.
Using 'ca' or 'crl' as the value fetches the appropriate information in DER encoding. Add '/pem' to either to get PEM encoding.
                ")
    [("serial", plain_field Str "Certificate serial number, in colon- or hyphen-separated octal")]
    [(Read, read_path_fetch_cert)].

Definition fetch_cert_crl_path : Path * list (PathOperation W) :=
  path_with "cert/crl" (requote "
This allows certificates to be fetched. If using the fetch/ prefix any non-revoked certificate can be fetched.
Using 'ca' or 'crl' as the value fetches the appropriate information in DER encoding. Add '/pem' to either to get PEM encoding.
                ")
    []
    [(Read, read_path_fetch_cert_crl)].

Definition issue_path : Path * list (PathOperation W) :=
  path_with "issue/(?P<role>\w[\w-]+\w)" "
This path allows requesting certificates to be issued according to the
policy of the given role. The certificate will only be issued if the
requested common name is allowed by the role policy.
                "
    [("role", plain_field Str "The desired role with configuration for this request");
     ("common_name", plain_field Str "
        The requested common name; if you want more than one, specify the alternative names in the alt_names map");
     ("alt_names", plain_field Str "
        The requested Subject Alternative Names, if any, in a comma-delimited list");
     ("ip_sans", plain_field Str "The requested IP SANs, if any, in a common-delimited list");
     ("ttl", plain_field Str "Specifies requested Time To Live")]
    [(Write, issue_cert)].

Definition revoke_path : Path * list (PathOperation W) :=
  path_with "revoke" "
This allows certificates to be revoked using its serial number. A root token is required.
                "
    [("serial_number", plain_field Str "Certificate serial number, in colon- or hyphen-separated octal")]
    [(Write, revoke_cert)].

Definition crl_rotate_path : Path * list (PathOperation W) :=
  path_with "crl/rotate" "
Force a rebuild of the CRL. This can be used to remove expired certificates from it if no certificates have been revoked. A root token is required.
                "
    []
    [(Read, read_rotate_crl)].

Definition keys_generate_path : Path * list (PathOperation W) :=
  path_with "keys/generate/(exported|internal)" "
This endpoint will generate a new key pair of the specified type (internal, exported)
used for sign,verify,encrypt,decrypt.
                "
    [("key_name", required_field Str "key name");
     ("key_bits", default_field Int (VInt 0) "
The number of bits to use. Allowed values are 0 (universal default); with rsa
key_type: 2048 (default), 3072, or 4096; with ec key_type: 224, 256 (default),
384, or 521; ignored with ed25519.");
     ("key_type", default_field Str (VStr "rsa") (requote "The type of key to use; defaults to RSA. 'rsa'"))]
    [(Write, generate_key)].

Definition keys_import_path : Path * list (PathOperation W) :=
  path_with "keys/import" "Import the specified key."
    [("key_name", required_field Str "key name");
     ("key_type", default_field Str (VStr "rsa") (requote "The type of key to use; defaults to RSA. 'rsa'"));
     ("pem_bundle", plain_field Str "PEM-format, unencrypted secret");
     ("hex_bundle", plain_field Str "Hex-format, unencrypted secret");
     ("iv", plain_field Str "IV for aes-gcm/aes-cbc")]
    [(Write, import_key)].

Definition keys_sign_path : Path * list (PathOperation W) :=
  path_with "keys/sign" "Data Signatures."
    [("key_name", required_field Str "key name");
     ("data", required_field Str "Data that needs to be signed")]
    [(Write, key_sign)].

Definition keys_verify_path : Path * list (PathOperation W) :=
  path_with "keys/verify" "Data verification."
    [("key_name", required_field Str "key name");
     ("data", required_field Str "Data that needs to be verified");
     ("signature", required_field Str "Signature data")]
    [(Write, key_verify)].

Definition keys_encrypt_path : Path * list (PathOperation W) :=
  path_with "keys/encrypt" "Data encryption."
    [("key_name", required_field Str "key name");
     ("data", required_field Str "Data that needs to be encrypted");
     ("aad", default_field Str (VStr "") "Additional Authenticated Data can be provided for aes-gcm/cbc encryption")]
    [(Write, key_encrypt)].

Definition keys_decrypt_path : Path * list (PathOperation W) :=
  path_with "keys/decrypt" "Data decryption."
    [("key_name", required_field Str "key name");
     ("data", required_field Str "Data that needs to be decrypted");
     ("aad", default_field Str (VStr "") "Additional Authenticated Data can be provided for aes-gcm/cbc decryption")]
    [(Write, key_decrypt)].

(** [config_crl_path] is not among the paths of the backend. *)
Definition new_backend {R} : LogicalBackend R W :=
  {| paths := [roles_path; config_ca_path; root_generate_path; root_delete_path; fetch_ca_path; fetch_crl_path;
               fetch_cert_path; fetch_cert_crl_path; issue_path; revoke_path; crl_rotate_path;
               keys_generate_path; keys_import_path; keys_sign_path; keys_verify_path; keys_encrypt_path;
               keys_decrypt_path];
     paths_re := []; root_paths := ["config/*"; "revoke/*"; "crl/rotate"];
     unauth_paths := ["cert/*"; "ca/pem"; "ca"; "crl"; "crl/pem"]; backend_help := PKI_BACKEND_HELP;
     secrets := [pki_secret]; auth_renew_handler := None |}.

End pki.
End Pki.
