(* ===== verification/PkiCorrect.v ===== *)
(** * Correctness of the PKI backend (theorems about src/src/modules/pki/)

    Roles are read back as written; what an issued certificate says; which key
    sizes of a role can issue; names of keys are not reused. *)

From stdpp Require Import base tactics list gmap strings.
From Stdlib Require Import ZArith Lia Ascii.
From S2P Require Import Prelude Errors RustStr Utils Lease Storage BarrierCorrect BarrierView Logical LogicalBackend Mount MountCorrect World WorldLaws TokenStore WorldDemo Cidr StoredJson TokenUtil Keys Certs Pki.

Local Open Scope string_scope.

(** ** Roles as JSON *)
Section json.
Context `{HH : Humantime}.

Definition u32_ok (z : Z) : Prop := (0 <= z <= 2 ^ 32 - 1)%Z.

Definition role_storable (r : RoleEntry) : Prop :=
  whole (pr_ttl r) ∧ whole (pr_max_ttl r) ∧ whole (pr_not_before_duration r) ∧
  u32_ok (pr_key_bits r) ∧ u32_ok (pr_signature_bits r).

Lemma u32_json z : u32_ok z → json_u32 (VInt z) = Some z.
Proof.
  intros [H1 H2]. unfold json_u32, in_range. by rewrite (proj2 (andb_true_iff _ _)) by (rewrite !Z.leb_le; lia).
Qed.

Lemma as_u32_ok z : u32_ok (as_u32 z).
Proof. unfold u32_ok, as_u32. pose proof (Z.mod_pos_bound z (2 ^ 32)). lia. Qed.

Lemma role_json_back r : role_storable r → Pki.role_of_json (Pki.role_json r) = Some r.
Proof.
  intros (H1 & H2 & H3 & H4 & H5). unfold Pki.role_of_json, json_field.
  rewrite (eq_refl : Pki.role_json r !! "ttl" = Some (serialize_duration (pr_ttl r))),
    (eq_refl : Pki.role_json r !! "max_ttl" = Some (serialize_duration (pr_max_ttl r))),
    (eq_refl : Pki.role_json r !! "not_before_duration" = Some (serialize_duration (pr_not_before_duration r))),
    (eq_refl : Pki.role_json r !! "key_type" = Some (VStr (pr_key_type r))),
    (eq_refl : Pki.role_json r !! "key_bits" = Some (VInt (pr_key_bits r))),
    (eq_refl : Pki.role_json r !! "signature_bits" = Some (VInt (pr_signature_bits r))),
    (eq_refl : Pki.role_json r !! "use_pss" = Some (VBool (pr_use_pss r))),
    (eq_refl : Pki.role_json r !! "allow_localhost" = Some (VBool (pr_allow_localhost r))),
    (eq_refl : Pki.role_json r !! "allow_bare_domains" = Some (VBool (pr_allow_bare_domains r))),
    (eq_refl : Pki.role_json r !! "allow_subdomains" = Some (VBool (pr_allow_subdomains r))),
    (eq_refl : Pki.role_json r !! "allow_any_name" = Some (VBool (pr_allow_any_name r))),
    (eq_refl : Pki.role_json r !! "allow_ip_sans" = Some (VBool (pr_allow_ip_sans r))),
    (eq_refl : Pki.role_json r !! "server_flag" = Some (VBool (pr_server_flag r))),
    (eq_refl : Pki.role_json r !! "client_flag" = Some (VBool (pr_client_flag r))),
    (eq_refl : Pki.role_json r !! "use_csr_sans" = Some (VBool (pr_use_csr_sans r))),
    (eq_refl : Pki.role_json r !! "use_csr_common_name" = Some (VBool (pr_use_csr_common_name r))),
    (eq_refl : Pki.role_json r !! "key_usage" = Some (strings_json (pr_key_usage r))),
    (eq_refl : Pki.role_json r !! "ext_key_usage" = Some (strings_json (pr_ext_key_usage r))),
    (eq_refl : Pki.role_json r !! "country" = Some (VStr (pr_country r))),
    (eq_refl : Pki.role_json r !! "province" = Some (VStr (pr_province r))),
    (eq_refl : Pki.role_json r !! "locality" = Some (VStr (pr_locality r))),
    (eq_refl : Pki.role_json r !! "organization" = Some (VStr (pr_organization r))),
    (eq_refl : Pki.role_json r !! "ou" = Some (VStr (pr_ou r))),
    (eq_refl : Pki.role_json r !! "street_address" = Some (VStr (pr_street_address r))),
    (eq_refl : Pki.role_json r !! "postal_code" = Some (VStr (pr_postal_code r))),
    (eq_refl : Pki.role_json r !! "no_store" = Some (VBool (pr_no_store r))),
    (eq_refl : Pki.role_json r !! "generate_lease" = Some (VBool (pr_generate_lease r))),
    (eq_refl : Pki.role_json r !! "not_after" = Some (VStr (pr_not_after r))).
  cbn [mbind option_bind as_str json_bool].
  rewrite !duration_json, !u32_json, !json_strings_json by done. by destruct r.
Qed.
End json.

Section theorems.
Context {X509 PKey : Type} `{HO : OpensslX509 X509 PKey} `{HOL : !OpensslX509Laws X509 PKey}
        `{HF : Features} `{HK : KeyCrypto}.
Context {S Q C : Type} `{HSt : Storage S} `{HSS : !StorageSpec S} `{HCl : Clock} `{HU : UuidGen}
        `{HSJ : Serde (gmap string Value)} `{HSJL : !SerdeLaws (gmap string Value)}
        `{HSK : Serde KeyBundle} `{HH : Humantime} `{HJ : JsonParser} `{HX : HexCodec} `{HD : HexDecode}
        `{HT : Rfc3339} `{HPem : PemParser}.
Abbreviation W := (World S Q C).
Import BarrierView.
Implicit Types (w : W) (req : Request) (v : t).

Definition asked_for req (key x : string) : Prop := RequestOps.get_data req key = Ok (VStr x).

Lemma pki_str_run key x w req : asked_for req key x → Pki.data_str key (w, req) = ((w, req), Ok x).
Proof. unfold asked_for, Pki.data_str. intros H. cbn. unfold st_lift. by rewrite H. Qed.

(** ** Roles *)

(** A role that a request describes is stored, nothing else changes, and a
    read returns all of it; a read of a role that is not there panics instead of
    answering. *)
Theorem role_write_read v w req req2 (name : string) (r : RoleEntry) :
  serves v w req → sane (Pki.role_key name) → asked_for req "name" name → Pki.requested_role req = Ok r →
  role_storable r → Logical.storage req2 = Some v → asked_for req2 "name" name →
  (∃ w' b, Pki.create_path_role (w, req) = ((w', req), Ok None) ∧
     storage_map (w_store w') = <[expand_key v (Pki.role_key name) := b]> (storage_map (w_store w)) ∧
     Pki.read_path_role (w', req2)
     = ((w', req2), Ok (Some (ResponseOps.data_response (Some (Pki.role_json r)))))) ∧
  (storage_map (w_store w) !! expand_key v (Pki.role_key name) = None →
   Pki.read_path_role (w, req2) = ((w, req2), Panic)).
Proof.
  intros Hv Hs Hn Hr Hst Hv2 Hn2. split.
  - destruct (put_json_run v (Pki.role_key name) (Pki.role_json r) w req Hv Hs) as (w' & b & Hp & Hc & Hb & Hm).
    exists w', b. split_and!; [|done|].
    + unfold Pki.create_path_role. rewrite (st_bind_run _ _ _ _ _ (pki_str_run _ _ w req Hn)).
      rewrite (st_bind_run _ _ _ (w, req) req) by done.
      rewrite (st_bind_run _ _ _ (w, req) r) by (unfold st_lift; by rewrite Hr).
      by rewrite (st_bind_run _ _ _ _ _ Hp).
    + assert (serves v w' req2) as Hv' by (destruct Hv as (_ & _ & Hk); by split).
      unfold Pki.read_path_role. rewrite (st_bind_run _ _ _ _ _ (pki_str_run _ _ w' req2 Hn2)).
      assert (at_key v Pki.role_of_json w' (Pki.role_key name) = Ok (Some r)) as Ha.
      { unfold at_key. rewrite Hm, lookup_insert_eq, Hb. cbn [mbind option_bind]. by rewrite role_json_back. }
      pose proof (get_json_run v Pki.role_of_json (Pki.role_key name) w' req2 Hv' Hs) as Hg. rewrite Ha in Hg.
      by rewrite (st_bind_run _ _ _ _ _ Hg).
  - intros Hno. assert (serves v w req2) as Hv' by (destruct Hv as (_ & Hc & Hk); by split).
    unfold Pki.read_path_role. rewrite (st_bind_run _ _ _ _ _ (pki_str_run _ _ w req2 Hn2)).
    pose proof (get_json_run v Pki.role_of_json (Pki.role_key name) w req2 Hv' Hs) as Hg.
    unfold at_key in Hg. rewrite Hno in Hg. by rewrite (st_bind_run _ _ _ _ _ Hg).
Qed.

(** ** Key sizes *)

(** The sizes of elliptic-curve keys a role may have. *)
Lemma ec_bits n m : Pki.check_key_bits "ec" n = Ok m → m ∈ [224; 256; 384; 512]%Z.
Proof.
  unfold Pki.check_key_bits. cbn [String.eqb Ascii.eqb Bool.eqb].
  destruct (existsb _ _) eqn:E; [|done]. intros [= <-]. apply existsb_exists in E as (x & Hx & ->%Z.eqb_eq).
  by apply list_elem_of_In.
Qed.

Lemma ec_pkey_bits bits (w w' : W) k : Certs.generate_pkey "ec" bits w = (w', Ok k) → bits ∈ [224; 256; 384; 521]%Z.
Proof.
  unfold Certs.generate_pkey. cbn [String.eqb Ascii.eqb Bool.eqb]. intros H. inv_steps.
  unfold st_lift, Keys.curve_of in Hstep.
  destruct (Z.eqb_spec bits 224) as [->|]; [set_solver|]. destruct (Z.eqb_spec bits 256) as [->|]; [set_solver|].
  destruct (Z.eqb_spec bits 384) as [->|]; [set_solver|]. destruct (Z.eqb_spec bits 521) as [->|]; [set_solver|].
  done.
Qed.

(** ** Steps that do not touch the storage *)

Definition keeps {A} (m : st W RvError A) : Prop := ∀ w w' a, m w = (w', Ok a) → w_store w' = w_store w.

Lemma keeps_bind {A B} (m : st W RvError A) (k : A → st W RvError B) :
  keeps m → (∀ a, keeps (k a)) → keeps (let! x := m in k x).
Proof. intros Hm Hk w w' b H. inv_steps. rewrite (Hk _ _ _ _ H). by eapply Hm. Qed.
Lemma keeps_draw : keeps draw.
Proof. by intros w w' a [= <- _]. Qed.
Lemma keeps_now : keeps now.
Proof. by intros w w' a [= <- _]. Qed.
Lemma keeps_ret {A} (a : A) : keeps (st_ret a).
Proof. by intros w w' b [= <- _]. Qed.
Lemma keeps_lift {A} (r : result A) : keeps (st_lift r).
Proof. by intros w w' b [= <- _]. Qed.
Lemma keeps_guard b e : keeps (st_guard b e).
Proof. unfold st_guard. destruct b; [by intros w w' a|apply keeps_ret]. Qed.

Create HintDb keeps.
#[local] Hint Resolve keeps_bind keeps_draw keeps_now keeps_ret keeps_lift keeps_guard : keeps.

Lemma keeps_default_certificate : keeps (Certs.default_certificate (HO := HO)).
Proof. unfold Certs.default_certificate, Certs.generate_serial_number. eauto 10 with keeps. Qed.

Lemma keeps_generate_pkey ty bits : keeps (Certs.generate_pkey ty bits).
Proof.
  unfold Certs.generate_pkey.
  destruct (String.eqb ty "rsa"); [eauto 10 with keeps|]. destruct (String.eqb ty "ec"); [eauto 10 with keeps|].
  destruct (_ && _); [eauto 10 with keeps|]. by intros w w' a.
Qed.

(** ** Certificates *)

Lemma holds_ok b u : Certs.holds b = Ok u → b = true.
Proof. by destruct b. Qed.

(** A certificate signed says what was asked for. *)
(** The certificate is signed with this key. *)
Definition signed_by (k : PKey) (c : X509) : Prop := ∃ dg, x509_sign (x509_tbs c) dg k = Some c.

Lemma to_x509_ok self ca ck k (c : X509) :
  Certs.to_x509 self ca ck k = Ok c → signed_by (default k ck) c ∧
  ∃ nb na, Certs.unix_secs (ce_not_before self) = Ok nb ∧ Certs.unix_secs (ce_not_after self) = Ok na ∧
    x509_tbs c =
    {| cf_version := ce_version self; cf_serial := ce_serial_number self; cf_subject := ce_subject self;
       cf_issuer := match ca with Some c => cf_subject (x509_tbs c) | None => ce_subject self end;
       cf_pubkey := pkey_public k; cf_not_before := nb; cf_not_after := na;
       cf_extensions := Certs.extensions_of self |}.
Proof.
  unfold Certs.to_x509. intros H.
  destruct (Certs.holds (x509_head_ok _ _ _ _)); [|done..]. simpl in H.
  destruct (Certs.unix_secs (ce_not_before self)) as [nb| |]; [|done..]. simpl in H.
  destruct (Certs.holds (asn1_time_ok nb)); [|done..]. simpl in H.
  destruct (Certs.unix_secs (ce_not_after self)) as [na| |]; [|done..]. simpl in H.
  destruct (Certs.holds (asn1_time_ok na)); [|done..]. simpl in H.
  destruct (Certs.holds (x509_fields_ok _)); [|done..]. simpl in H.
  destruct (Certs.digest_of _) as [dg| |]; [|done..]. simpl in H.
  destruct (x509_sign _ _ _) as [c'|] eqn:E; [|done]. injection H as ->.
  pose proof (x509_tbs_sign _ _ _ _ E) as Htbs. split; [exists dg; by rewrite Htbs|].
  exists nb, na. by split_and!.
Qed.

(** The text of the serial number of a certificate. *)
Definition serial_text (c : X509) (sn : string) : Prop :=
  ∃ hex, bn_hex (cf_serial (x509_tbs c)) = Some hex ∧ sn = to_lowercase (Certs.colon_pairs hex).

Lemma to_cert_bundle_ok self ca ck (w w' : W) b :
  Certs.to_cert_bundle self ca ck w = (w', Ok b) →
  w_store w' = w_store w ∧ Certs.to_x509 self ca ck (private_key b) = Ok (certificate b) ∧
  serial_text (certificate b) (serial_number b).
Proof.
  unfold Certs.to_cert_bundle. intros H. inv_run. subst. split_and!; [by eapply keeps_generate_pkey|done|].
  unfold serial_text, Certs.x509_serial in *. simpl. destruct (bn_hex _) as [hex|]; [|done]. exists hex. naive_solver.
Qed.

Lemma requested_end_ok ca dflt w req s' t :
  Pki.requested_end ca dflt (w, req) = (s', Ok t) →
  ∃ w', s' = (w', req) ∧ w_store w' = w_store w ∧
  ((∃ e, RequestOps.get_data req "ttl" = Err e ∧ t = dflt) ∨
   (∃ x secs, RequestOps.get_data req "ttl" = Ok x ∧ Certs.unix_secs t = Ok secs ∧
              (secs <= cf_not_after (x509_tbs (certificate ca)))%Z)).
Proof.
  unfold Pki.requested_end. intros H. inv_run.
  destruct (RequestOps.get_data req "ttl") as [x|e|] eqn:E; inv_run; [|exists w; naive_solver|done].
  subst. eexists. split; [reflexivity|]. split; [by eapply keeps_now|].
  right. exists x. eexists. split_and!; [done|done|]. by apply Z.ltb_ge.
Qed.

(** The end of validity of a requested certificate: the one asked for, within
    the authority's, or thirty days from the clock's [t]. *)
Definition validity_end (ca : CertBundle X509 PKey) (t : SystemTime) req (ending : SystemTime) : Prop :=
  (∃ e month, RequestOps.get_data req "ttl" = Err e ∧ parse_duration "30d" = Some month ∧
              ending = (t - from_secs 10 + month)%Z) ∨
  (∃ x secs, RequestOps.get_data req "ttl" = Ok x ∧ Certs.unix_secs ending = Ok secs ∧
             (secs <= cf_not_after (x509_tbs (certificate ca)))%Z).

Lemma default_certificate_ok (w w' : W) c :
  Certs.default_certificate (HO := HO) w = (w', Ok c) →
  ce_email_sans c = [] ∧ ce_uri_sans c = [] ∧ ce_extensions c = [] ∧ ce_is_ca c = false.
Proof. unfold Certs.default_certificate. intros H. inv_run. by subst. Qed.

Lemma requested_certificate_ok r names ips ca w req s' c :
  Pki.requested_certificate r names ips ca (w, req) = (s', Ok c) →
  ∃ w', s' = (w', req) ∧ w_store w' = w_store w ∧
    ce_dns_sans c = snd names ∧ ce_ip_sans c = ips ∧ ce_email_sans c = [] ∧ ce_uri_sans c = [] ∧
    ce_extensions c = [] ∧ ce_is_ca c = false ∧ ce_key_type c = pr_key_type r ∧ ce_key_bits c = pr_key_bits r ∧
    validity_end ca (clock_at (w_ticks w)) req (ce_not_after c).
Proof.
  unfold Pki.requested_certificate. intros H. inv_run.
  apply requested_end_ok in Hstep2 as (w1 & -> & Hw1 & Hend). inv_run.
  pose proof (keeps_default_certificate _ _ _ Hrun0) as Hw2.
  apply default_certificate_ok in Hrun0 as (Hd1 & Hd2 & Hd3 & Hd4). injection Hrun as <- Ha.
  subst. exists w2. simpl. split_and!; try done; [by rewrite Hw2, Hw1|].
  destruct Hend as [(e & He & ->)|Hend]; [|by right]. left. exists e.
  destruct (parse_duration "30d") as [month|]; [|done]. exists month. split_and!; [done|done|].
  unfold time_add in H1. destruct (_ <=? I64_MAX)%Z; [|done]. injection H1 as <-. by injection H2 as ->.
Qed.

(** What a response tells of a certificate, its key and its serial number. *)
Definition tells (resp : Response) (c : X509) (key : PKey) (sn : string) : Prop :=
  ∃ pem kpem d, x509_to_pem c = Some pem ∧ pkey_to_pem key = Some kpem ∧ resp_data resp = Some d ∧
    d !! "certificate" = Some (VStr (from_utf8_lossy pem)) ∧
    d !! "private_key" = Some (VStr (from_utf8_lossy kpem)) ∧
    d !! "serial_number" = Some (VStr sn) ∧
    d !! "expiration" = Some (VInt (cf_not_after (x509_tbs c))).

Lemma leased_data d sn e w req s' resp :
  Pki.leased d sn e (w, req) = (s', Ok (Some resp)) →
  (∃ w', s' = (w', req) ∧ w_store w' = w_store w) ∧ resp_data resp = Some d.
Proof.
  unfold Pki.leased. intros H. inv_run. cbn in H. injection H as <- <-. split; [|done].
  exists w1. split; [done|]. by rewrite (keeps_now _ _ _ Hrun0), (keeps_now _ _ _ Hrun).
Qed.

Lemma issued_data_ok (ca b : CertBundle X509 PKey) e d :
  Pki.issued_data ca b e = Ok d →
  ∃ pem kpem, x509_to_pem (certificate b) = Some pem ∧ pkey_to_pem (private_key b) = Some kpem ∧
    d !! "certificate" = Some (VStr (from_utf8_lossy pem)) ∧
    d !! "private_key" = Some (VStr (from_utf8_lossy kpem)) ∧
    d !! "serial_number" = Some (VStr (serial_number b)) ∧ d !! "expiration" = Some (VInt e).
Proof.
  unfold Pki.issued_data, Pki.pem_text. intros H.
  destruct (Pki.chain_pem _); [|done..]. simpl in H. destruct (openssl (x509_to_pem (certificate ca))); [|done..].
  simpl in H. destruct (x509_to_pem (certificate b)) as [pem|]; [|done]. simpl in H.
  destruct (pkey_to_pem _) as [kpem|]; [|done]. injection H as <-. by exists pem, kpem.
Qed.

Lemma respond_issued_ok v r ca b w req s' resp :
  serves v w req → Pki.respond_issued r ca b (w, req) = (s', Ok (Some resp)) →
  tells resp (certificate b) (private_key b) (serial_number b) ∧
  (pr_no_store r = false → ∃ der, x509_to_der (certificate b) = Some der ∧
     storage_map (w_store (fst s')) !! expand_key v (Pki.cert_key (Pki.serial_hex (serial_number b))) = Some der).
Proof.
  intros Hv H. unfold Pki.respond_issued in H. inv_run.
  match goal with H : Pki.asn1time_to_timestamp _ = Ok ?e |- _ =>
    unfold Pki.asn1time_to_timestamp in H; rewrite x509_not_after_back in H; injection H as <- end.
  match goal with H : Pki.issued_data _ _ _ = Ok _ |- _ =>
    apply issued_data_ok in H as (pem & kpem & Hpem & Hk & Hd) end.
  assert (∃ w1, c = (w1, req) ∧ (pr_no_store r = false → ∃ der, x509_to_der (certificate b) = Some der ∧
    storage_map (w_store w1) !! expand_key v (Pki.cert_key (Pki.serial_hex (serial_number b))) = Some der))
    as (w1 & -> & Hst).
  { destruct (pr_no_store r); inv_run; [by exists w|].
    unfold Pki.store_cert in Hstep. inv_run. apply (req_put_ok v) in Hstep as (w1 & -> & _ & Hm); [|done].
    exists w1. split; [done|]. intros _. destruct (x509_to_der _) as [der|]; [|done].
    exists der. split; [done|]. rewrite Hm. simplify_eq/=. apply lookup_insert_eq. }
  destruct (pr_generate_lease r).
  - apply leased_data in H as ((w2 & -> & Hw) & Hresp). split; [by exists pem, kpem; eauto|].
    intros (der & Hder & Hm)%Hst. exists der. split; [done|]. simpl. by rewrite Hw.
  - injection H as <- <-. split; [by exists pem, kpem; eauto|done].
Qed.

Lemma fetch_ca_ok v w req s' (b : CertBundle X509 PKey) :
  serves v w req → Pki.fetch_ca_bundle (w, req) = (s', Ok b) →
  s' = (w, req) ∧ at_key v Certs.bundle_of_json w "config/ca_bundle" = Ok (Some b).
Proof.
  intros Hv H. unfold Pki.fetch_ca_bundle in H. inv_run.
  match goal with H : get_json _ _ _ = _ |- _ => apply (get_json_ok v) in H as [-> Ha]; [|done] end.
  match goal with H : (match ?o with _ => _ end) _ = _ |- _ => destruct o as [b'|]; inv_run end. by subst.
Qed.

Lemma extensions_san c : ce_dns_sans c ≠ [] → ce_email_sans c = [] → ce_uri_sans c = [] →
  SubjectAlternativeName (ce_dns_sans c) [] (ce_ip_sans c) [] ∈ Certs.extensions_of c.
Proof.
  intros Hd He Hu. unfold Certs.extensions_of. rewrite He, Hu. apply elem_of_app. left. simpl.
  rewrite (bool_decide_eq_false_2 (ce_dns_sans c = [])) by done. simpl. apply list_elem_of_here.
Qed.

Lemma extensions_leaf c : ce_is_ca c = false → BasicConstraints false ∈ Certs.extensions_of c.
Proof.
  intros Hc. unfold Certs.extensions_of. rewrite Hc. apply elem_of_app. right. apply elem_of_app. right.
  apply elem_of_app. left. apply list_elem_of_here.
Qed.

(** What a completed request for a certificate made. *)
Lemma issue_cert_ok v w req s' resp names (role_name : string) r ca :
  serves v w req → Pki.names_of req = Ok names → asked_for req "role" role_name →
  at_key v Pki.role_of_json w (Pki.role_key role_name) = Ok (Some r) →
  at_key v Certs.bundle_of_json w "config/ca_bundle" = Ok (Some ca) →
  Pki.issue_cert (w, req) = (s', Ok (Some resp)) →
  ∃ c key sn ips ending, tells resp c key sn ∧ signed_by (private_key ca) c ∧ serial_text c sn ∧
    cf_pubkey (x509_tbs c) = pkey_public key ∧ Pki.alt_names_of req "ip_sans" = Ok ips ∧
    cf_issuer (x509_tbs c) = cf_subject (x509_tbs (certificate ca)) ∧
    BasicConstraints false ∈ cf_extensions (x509_tbs c) ∧
    (snd names ≠ [] → SubjectAlternativeName (snd names) [] ips [] ∈ cf_extensions (x509_tbs c)) ∧
    Certs.unix_secs ending = Ok (cf_not_after (x509_tbs c)) ∧
    validity_end ca (clock_at (w_ticks w)) req ending ∧
    (pr_no_store r = false → ∃ der, x509_to_der c = Some der ∧
       storage_map (w_store (fst s')) !! expand_key v (Pki.cert_key (Pki.serial_hex sn)) = Some der).
Proof.
  intros Hv Hn Hrole Hr Hca H. unfold Pki.issue_cert in H. inv_run.
  match goal with H : Pki.names_of req = Ok ?x |- _ => rewrite Hn in H; injection H as <- end.
  rewrite (pki_str_run _ _ w req Hrole) in Hstep1. injection Hstep1 as <- <-.
  unfold Pki.get_role in Hstep2. apply (get_json_ok v) in Hstep2 as [-> Hr']; [|done].
  rewrite Hr in Hr'. injection Hr' as <-. inv_run.
  match goal with H : Pki.fetch_ca_bundle _ = _ |- _ => apply (fetch_ca_ok v) in H as [-> Hca']; [|done] end.
  rewrite Hca in Hca'. injection Hca' as <-.
  match goal with H : Pki.requested_certificate _ _ _ _ _ = _ |- _ =>
    apply requested_certificate_ok in H as (w1 & -> & Hw1 & Hdns & Hip & Hem & Huri & _ & Hisca & _ & _ & Hend) end.
  inv_run. match goal with H : Certs.to_cert_bundle _ _ _ _ = (?w', _) |- _ =>
    apply to_cert_bundle_ok in H as (Hw2 & (Hsig & nb & na & _ & Hna & Htbs)%to_x509_ok & Hser); rename w' into w2 end.
  assert (serves v w2 req) as Hv2 by (unfold serves in *; by rewrite Hw2, Hw1).
  apply (respond_issued_ok v) in H as [Htells Hst]; [|done].
  eexists _, _, _, _, _. split; [exact Htells|]. split; [exact Hsig|]. split; [exact Hser|].
  rewrite Htbs. cbn [cf_issuer cf_extensions cf_not_after cf_pubkey].
  split_and!; [done|done|done|by apply extensions_leaf| |exact Hna|done|done].
  rewrite <- Hdns, <- Hip. intros Hne. by apply extensions_san.
Qed.

(** C33: a certificate that a role issues is signed with the authority's private
    key and names the authority's subject as its issuer, is not an authority's,
    carries the requested names (when there is one) and addresses, and certifies
    the public key of the private key in the answer; the answer has the
    certificate and the text of its serial number, and unless the role says
    [no_store] the certificate is in the storage under that number.  When the
    request asks for a time to live the certificate ends no later than the
    authority's. *)
Theorem issued_certificate v w req s' resp names (role_name : string) r ca :
  serves v w req → Pki.names_of req = Ok names → asked_for req "role" role_name →
  at_key v Pki.role_of_json w (Pki.role_key role_name) = Ok (Some r) →
  at_key v Certs.bundle_of_json w "config/ca_bundle" = Ok (Some ca) →
  Pki.issue_cert (w, req) = (s', Ok (Some resp)) →
  ∃ c key sn ips, tells resp c key sn ∧ signed_by (private_key ca) c ∧ serial_text c sn ∧
    cf_pubkey (x509_tbs c) = pkey_public key ∧ Pki.alt_names_of req "ip_sans" = Ok ips ∧
    cf_issuer (x509_tbs c) = cf_subject (x509_tbs (certificate ca)) ∧
    BasicConstraints false ∈ cf_extensions (x509_tbs c) ∧
    (snd names ≠ [] → SubjectAlternativeName (snd names) [] ips [] ∈ cf_extensions (x509_tbs c)) ∧
    (∀ x, RequestOps.get_data req "ttl" = Ok x →
       (cf_not_after (x509_tbs c) <= cf_not_after (x509_tbs (certificate ca)))%Z) ∧
    (pr_no_store r = false → ∃ der, x509_to_der c = Some der ∧
       storage_map (w_store (fst s')) !! expand_key v (Pki.cert_key (Pki.serial_hex sn)) = Some der).
Proof.
  intros Hv Hn Hrole Hr Hca H.
  destruct (issue_cert_ok v w req s' resp names role_name r ca Hv Hn Hrole Hr Hca H)
    as (c & key & sn & ips & ending & H1' & H2 & H3 & H4 & H5 & H6 & H7 & H8 & Hsecs & Hend & H9).
  exists c, key, sn, ips. split_and!; try done. intros x Hx.
  destruct Hend as [(e & _ & He & _)|(y & secs & _ & Hs & Hle)]; congruence.
Qed.

(** Without a time to live in the request the certificate ends thirty days from
    the clock, whatever [ttl] and [max_ttl] the role has, and also beyond the end
    of the authority's. *)
Theorem role_limits_ignored v w req s' resp names (role_name : string) r ca e :
  serves v w req → Pki.names_of req = Ok names → asked_for req "role" role_name →
  at_key v Pki.role_of_json w (Pki.role_key role_name) = Ok (Some r) →
  at_key v Certs.bundle_of_json w "config/ca_bundle" = Ok (Some ca) →
  RequestOps.get_data req "ttl" = Err e →
  Pki.issue_cert (w, req) = (s', Ok (Some resp)) →
  ∃ c key sn month, tells resp c key sn ∧ parse_duration "30d" = Some month ∧
    Certs.unix_secs (clock_at (w_ticks w) - from_secs 10 + month) = Ok (cf_not_after (x509_tbs c)).
Proof.
  intros Hv Hn Hrole Hr Hca Httl H.
  destruct (issue_cert_ok v w req s' resp names role_name r ca Hv Hn Hrole Hr Hca H)
    as (c & key & sn & ips & ending & Ht & _ & _ & _ & _ & _ & _ & _ & Hsecs & Hend & _).
  destruct Hend as [(e' & month & He & Hm & ->)|(y & secs & Hy & _)]; [|congruence].
  by exists c, key, sn, month.
Qed.

(** The sizes of elliptic-curve keys a role accepts and those a certificate
    can be made with differ: 521 bits, as the documentation asks, are refused in
    a role; 512 bits are accepted, and then no certificate is ever issued. *)
Theorem ec_512_role_cannot_issue v w req s' resp (role_name : string) r :
  serves v w req → asked_for req "role" role_name →
  at_key v Pki.role_of_json w (Pki.role_key role_name) = Ok (Some r) →
  pr_key_type r = "ec" → pr_key_bits r = 512%Z →
  Pki.check_key_bits "ec" 521 = Err ErrPkiKeyBitsInvalid ∧ Pki.check_key_bits "ec" 512 = Ok 512%Z ∧
  Pki.issue_cert (w, req) ≠ (s', Ok resp).
Proof.
  intros Hv Hrole Hr Hty Hbits. split_and!; [done|done|]. intros H. unfold Pki.issue_cert in H. inv_run.
  match goal with H : Pki.data_str _ _ = _ |- _ =>
    rewrite (pki_str_run _ _ w req Hrole) in H; injection H as <- <- end.
  match goal with H : Pki.get_role _ _ = _ |- _ =>
    unfold Pki.get_role in H; apply (get_json_ok v) in H as [-> Hr']; [|done] end.
  rewrite Hr in Hr'. injection Hr' as <-. inv_run.
  match goal with H : Pki.fetch_ca_bundle _ = _ |- _ => apply (fetch_ca_ok v) in H as [-> _]; [|done] end.
  match goal with H : Pki.requested_certificate _ _ _ _ _ = _ |- _ =>
    apply requested_certificate_ok in H as (w1 & -> & _ & _ & _ & _ & _ & _ & _ & Ht & Hb & _) end.
  inv_run. match goal with H : Certs.to_cert_bundle _ _ _ _ = _ |- _ => unfold Certs.to_cert_bundle in H end. inv_run.
  match goal with H : Certs.generate_pkey _ _ _ = _ |- _ =>
    rewrite Ht, Hty, Hb, Hbits in H; apply ec_pkey_bits in H end.
  set_solver.
Qed.

End theorems.

(** ** Witnesses *)
Section witnesses.
#[local] Existing Instance demo_storage.
#[local] Existing Instance demo_storage_spec.
#[local] Existing Instance json_map.
#[local] Existing Instance json_map_laws.
#[local] Existing Instance no_json.
#[local] Existing Instance demo_uuid.
#[local] Existing Instance toy_x509.
#[local] Existing Instance toy_x509_laws.
#[local] Existing Instance toy_crypto.
#[local] Instance no_tongsuo : Features := false.
#[local] Instance pki_clock : Clock := fun i => from_secs (1000000 + Z.of_nat i).
#[local] Instance two_durations : Humantime := fun s =>
  if String.eqb s "30d" then Some (from_secs 2592000) else if String.eqb s "1h" then Some (from_secs 3600) else None.

Definition pki_view : BarrierView.t := BarrierView.new "logical/7/".
Definition pki_world : World DemoStore LeaseList unit :=
  {| w_store := demo_barrier; w_ticks := 0; w_uuids := 0; w_queue := []; w_queue_held := false; w_deadlock := false;
     w_policy_types := ∅; w_token_policies_lru := tt; w_egp_lru := tt |}.

Definition pki_request (p : Path) (m : gmap string Value) : Request :=
  set_storage (Some pki_view) (set_match_path (Some p) (set_body (Some m) (RequestOps.new "pki"))).

Abbreviation role_path := (fst (Pki.roles_path (S := DemoStore) (Q := LeaseList) (C := unit))).
Abbreviation issue_path := (fst (Pki.issue_path (HO := toy_x509) (S := DemoStore) (Q := LeaseList) (C := unit))).

Definition write_web : Request :=
  pki_request role_path {["name" := VStr "web"; "ttl" := VStr "1h"; "key_type" := VStr "ec"; "country" := VStr "NL"]}.
Definition read_web : Request := pki_request role_path {["name" := VStr "web"]}.

Lemma pki_serves req : Logical.storage req = Some pki_view → serves pki_view pki_world req.
Proof. intros H. split_and!; [done|exact demo_clean|apply demo_keys_ok]. Qed.

Definition web : RoleEntry :=
  match Pki.requested_role write_web with Ok r => r | _ => Pki.default_role end.

Lemma whole_of n : (0 <= n <= I64_MAX)%Z → whole (from_secs n).
Proof. apply whole_seconds. Qed.

Lemma web_storable : role_storable web.
Proof.
  split_and!; try (apply whole_of; vm_compute; split; discriminate); vm_compute; split; discriminate.
Qed.

Lemma role_write_read_witness :
  ∃ w', Pki.create_path_role (pki_world, write_web) = ((w', write_web), Ok None) ∧
    Pki.read_path_role (w', read_web)
    = ((w', read_web), Ok (Some (ResponseOps.data_response (Some (Pki.role_json web))))).
Proof.
  destruct (role_write_read pki_view pki_world write_web read_web "web" web) as [(w' & b & Hw & _ & Hr) _].
  - by apply pki_serves.
  - reflexivity.
  - vm_compute. reflexivity.
  - vm_compute. reflexivity.
  - exact web_storable.
  - reflexivity.
  - vm_compute. reflexivity.
  - exists w'. exact (conj Hw Hr).
Defined.

(** A mount with the role and an authority, and a request for a certificate. *)
Definition pki_ca : CertBundle CertFields nat :=
  {| certificate := toy_ca; ca_chain := []; private_key := 1%nat; private_key_type := "rsa"; serial_number := "01" |}.
Definition ready_world : World DemoStore LeaseList unit :=
  fst (fst (Pki.store_ca_bundle pki_ca
              (fst (fst (Pki.create_path_role (pki_world, write_web))), write_web))).
Definition issue_request : Request :=
  pki_request issue_path {["role" := VStr "web"; "common_name" := VStr "a.example"; "ttl" := VStr "1h"]}.
Definition issue_outcome := Pki.issue_cert (PKey := nat) (ready_world, issue_request).
Definition issue_resp : Response := answer_of (snd issue_outcome).

Lemma ready_serves : serves pki_view ready_world issue_request.
Proof.
  split; [reflexivity|]. split; [|apply demo_keys_ok]. split; [apply demo_ready; by vm_compute|].
  apply (bool_decide_unpack _). vm_compute. exact I.
Qed.

Lemma issued_certificate_witness :
  ∃ c key sn, tells issue_resp c key sn ∧ signed_by 1%nat c ∧ cf_issuer c = [("CN", "ca")] ∧
       SubjectAlternativeName ["a.example"] [] [] [] ∈ cf_extensions c.
Proof.
  destruct (issued_certificate pki_view ready_world issue_request (fst issue_outcome) issue_resp
              ("a.example", ["a.example"]) "web" web pki_ca ready_serves)
    as (c & key & sn & ips & Ht & Hsig & _ & _ & Hips & Hi & _ & Hs & _).
  - vm_compute. reflexivity.
  - vm_compute. reflexivity.
  - vm_compute. reflexivity.
  - vm_compute. reflexivity.
  - apply pair_of_snd, answered_of. vm_compute. reflexivity.
  - exists c, key, sn. split; [exact Ht|]. split; [exact Hsig|]. split; [exact Hi|].
    assert (ips = []) as -> by (vm_compute in Hips; congruence). apply Hs. discriminate.
Defined.

Definition write_ec : Request :=
  pki_request role_path {["name" := VStr "big"; "key_type" := VStr "ec"; "key_bits" := VInt 512]}.
Definition big_world : World DemoStore LeaseList unit := fst (fst (Pki.create_path_role (pki_world, write_ec))).
Definition big : RoleEntry := match Pki.requested_role write_ec with Ok r => r | _ => Pki.default_role end.
Definition issue_big : Request := pki_request issue_path {["role" := VStr "big"; "common_name" := VStr "a.example"]}.

Lemma ec_512_role_cannot_issue_witness :
  Pki.issue_cert (big_world, issue_big) ≠ (fst (Pki.issue_cert (big_world, issue_big)), Ok None).
Proof.
  apply (ec_512_role_cannot_issue pki_view big_world issue_big _ None "big" big).
  - split; [reflexivity|]. split; [|apply demo_keys_ok]. split; [apply demo_ready; by vm_compute|].
    apply (bool_decide_unpack _). vm_compute. exact I.
  - vm_compute. reflexivity.
  - vm_compute. reflexivity.
  - vm_compute. reflexivity.
  - vm_compute. reflexivity.
Defined.
End witnesses.
