(* ===== verification/CertAuth.v ===== *)
(** * The TLS certificate credential
    (src/src/modules/credential/cert/: mod.rs, path_certs.rs, path_config.rs,
    path_crls.rs, path_login.rs; src/src/utils/ocsp.rs)

    Roles with trusted certificates are JSON objects below [cert/] in the view of
    the mount, lists of revoked serial numbers below [crls/].  The module keeps
    the revocation lists it has read in one cache for all its mounts, part of
    the state of its handlers.  OpenSSL's X.509, the crates [glob], [base64]
    and [url] and the network are parameters. *)

From stdpp Require Import base tactics list gmap strings.
From Stdlib Require Import ZArith Lia Ascii.
From S2P Require Import Prelude Errors RustStr Utils Lease Storage BarrierView Logical LogicalBackend Mount World WorldLaws TokenStore Cidr StoredJson TokenUtil UserPass Keys Certs.

Local Open Scope string_scope.

(** ** The parts of other crates in use *)

Inductive GeneralName := DnsName (s : string) | EmailName (s : string) | UriName (s : string) | OtherName.

(** [x509_subject_entry] is the first entry of the subject with a name, [Some
    None] when it is no valid text; [chain_verify] runs the verification of a
    certificate with others at hand against trusted ones (partial chains are
    accepted): the result, the error code and the chain that was built.  [None]
    is an OpenSSL error. *)
Class OpensslLogin (X509 : Type) : Type := {
  x509_authority_key_id : X509 -> option bytes;
  x509_subject_entry : X509 -> string -> option (option string);
  x509_alt_names : X509 -> option (list GeneralName);
  x509_ext_list : X509 -> list (string * bytes);
  x509_eqb : X509 -> X509 -> bool;
  x509_stack_from_pem : bytes -> option (list X509);
  bn_dec : Z -> option string;
  store_accepts : list X509 -> X509 -> bool;
  chain_verify : list X509 -> X509 -> list X509 -> option (bool * Z * list X509);
  verify_error_text : Z -> string;
  crl_from_pem : bytes -> option (list Z)
}.

(** [Pattern::new(p)], [None] for an invalid pattern, and [matches]. *)
Class Glob : Type := glob_matches : string -> option (string -> bool).
Class Base64Encode : Type := base64_encode : bytes -> string.
Class UrlParser : Type := url_ok : string -> bool.
(** [ureq::get(url).call()?.into_string()?]. *)
Class HttpGet : Type := http_get : string -> result string.
(** [format!("{:?}", errors)]. *)
Class DebugErrors : Type := debug_errors : list RvError -> string.

Definition X509_V_ERR_UNABLE_TO_GET_ISSUER_CERT : Z := 2.
Definition X509_V_ERR_CERT_HAS_EXPIRED : Z := 10.
Definition X509_V_ERR_UNABLE_TO_GET_ISSUER_CERT_LOCALLY : Z := 20.
Definition XKU_SSL_CLIENT : Z := 2.
Definition XKU_ANYEKU : Z := 256.

(** ** Data *)

Record CertEntry (X509 : Type) := {
  ct_name : string;
  ct_display_name : string;
  ct_certificate : list X509;
  ct_policies : list string;
  ct_ttl : Duration;
  ct_max_ttl : Duration;
  ct_period : Duration;
  ct_bound_cidrs : list SockAddr;
  ct_allowed_names : list string;
  ct_allowed_common_names : list string;
  ct_allowed_dns_sans : list string;
  ct_allowed_email_sans : list string;
  ct_allowed_uri_sans : list string;
  ct_allowed_organizational_units : list string;
  ct_allowed_metadata_extensions : list string;
  ct_required_extensions : list string;
  ct_ocsp_enabled : bool;
  ct_ocsp_ca_certificates : list X509;
  ct_ocsp_servers_override : list string;
  ct_ocsp_fail_open : bool;
  ct_ocsp_query_all_servers : bool;
  ct_token_params : TokenParams
}.
Arguments ct_name {X509}.
Arguments ct_display_name {X509}.
Arguments ct_certificate {X509}.
Arguments ct_policies {X509}.
Arguments ct_ttl {X509}.
Arguments ct_max_ttl {X509}.
Arguments ct_period {X509}.
Arguments ct_bound_cidrs {X509}.
Arguments ct_allowed_names {X509}.
Arguments ct_allowed_common_names {X509}.
Arguments ct_allowed_dns_sans {X509}.
Arguments ct_allowed_email_sans {X509}.
Arguments ct_allowed_uri_sans {X509}.
Arguments ct_allowed_organizational_units {X509}.
Arguments ct_allowed_metadata_extensions {X509}.
Arguments ct_required_extensions {X509}.
Arguments ct_ocsp_enabled {X509}.
Arguments ct_ocsp_ca_certificates {X509}.
Arguments ct_ocsp_servers_override {X509}.
Arguments ct_ocsp_fail_open {X509}.
Arguments ct_ocsp_query_all_servers {X509}.
Arguments ct_token_params {X509}.

Record Config := {
  disable_binding : bool;
  enable_identity_alias_metadata : bool;
  ocsp_cache_size : Z
}.

Record CDPInfo := { url : string; valid_until : Duration }.
Record CRLInfo := { cdp : option CDPInfo; serials : gset string }.

Record ParsedCert (X509 : Type) := { pc_entry : CertEntry X509; pc_certs : list X509 }.
Arguments pc_entry {X509}.
Arguments pc_certs {X509}.

(** src/src/utils/ocsp.rs *)
Inductive FailureMode := OcspFailOpenNotSet | FailOpenTrue | FailOpenFalse.

Record OcspConfig (X509 : Type) := {
  enable : bool;
  extra_ca : list X509;
  servers_override : list string;
  failure_mode : FailureMode;
  query_all_servers : bool
}.
Arguments enable {X509}.
Arguments extra_ca {X509}.
Arguments servers_override {X509}.
Arguments failure_mode {X509}.
Arguments query_all_servers {X509}.

(** [s.splitn(2, c)], when it gives two parts. *)
Fixpoint split_once (c : ascii) (s : string) : option (string * string) :=
  match s with
  | EmptyString => None
  | String a s =>
      if Ascii.eqb a c then Some ("", s)
      else match split_once c s with Some (l, r) => Some (String a l, r) | None => None end
  end.

(** [utils::hex_encode_with_colon]. *)
Definition hex_encode_with_colon `{HX : HexCodec} (b : bytes) : string := colon_pairs (hex_encode b).

Module CertAuth.

Definition CERT_BACKEND_HELP : string := (requote "
The 'cert' credential provider allows authentication using
TLS client certificates. A client connects to RustyVault and uses
the 'login' endpoint to generate a client token.

Trusted certificates are configured using the 'certs/' endpoint
by a user with root access. A certificate authority can be trusted,
which permits all keys signed by it. Alternatively, self-signed
certificates can be trusted avoiding the need for a CA.
").

Definition resp_err (s : string) : RvError := ErrResponse s.

Section cert.
Context {X509 PKey : Type} `{HO : OpensslX509 X509 PKey} `{HL : OpensslLogin X509} {S Q C : Type} `{HSt : Storage S}
        `{HCl : Clock} `{HSJ : Serde (gmap string Value)} `{HH : Humantime} `{HJ : JsonParser} `{HI : IpNet}
        `{HG : Glob} `{HB64 : Base64Encode} `{HU : UrlParser} `{HN : HttpGet} `{HD : DebugErrors} `{HX : HexCodec}.

(** The world of the handlers: the storage, and the cache of the module. *)
Abbreviation W := (World S Q C * gmap string CRLInfo)%type.
Abbreviation H := (st (W * Request) RvError).
Abbreviation entry := (CertEntry X509).

Definition stored {A} (m : st (World S Q C * Request) RvError A) : H A := fun '((w, crls), req) =>
  let '((w, req), r) := m (w, req) in (((w, crls), req), r).

Definition get_crls : H (gmap string CRLInfo) := fun s => (s, Ok (snd (fst s))).
Definition set_crls (c : gmap string CRLInfo) : H unit := fun '((w, _), req) => (((w, c), req), Ok tt).

(** *** JSON *)

Definition default : entry :=
  {| ct_name := ""; ct_display_name := ""; ct_certificate := []; ct_policies := []; ct_ttl := 0;
     ct_max_ttl := 0; ct_period := 0; ct_bound_cidrs := []; ct_allowed_names := [];
     ct_allowed_common_names := []; ct_allowed_dns_sans := []; ct_allowed_email_sans := [];
     ct_allowed_uri_sans := []; ct_allowed_organizational_units := []; ct_allowed_metadata_extensions :=
     []; ct_required_extensions := []; ct_ocsp_enabled := false; ct_ocsp_ca_certificates := [];
     ct_ocsp_servers_override := []; ct_ocsp_fail_open := false; ct_ocsp_query_all_servers := false;
     ct_token_params := TokenParams.default |}.

(** [None]: a PEM encoding failed, and its [unwrap] panics. *)
Definition entry_json (e : entry) : option (gmap string Value) :=
  cert_pems ← mapM x509_to_pem (ct_certificate e);
  ocsp_pems ← mapM x509_to_pem (ct_ocsp_ca_certificates e);
  Some (list_to_map
    [("name", VStr (ct_name e));
     ("display_name", VStr (ct_display_name e));
     ("certificate", VArray (map Certs.bytes_json cert_pems));
     ("policies", strings_json (ct_policies e));
     ("ttl", serialize_duration (ct_ttl e));
     ("max_ttl", serialize_duration (ct_max_ttl e));
     ("period", serialize_duration (ct_period e));
     ("bound_cidrs", addrs_json (ct_bound_cidrs e));
     ("allowed_names", strings_json (ct_allowed_names e));
     ("allowed_common_names", strings_json (ct_allowed_common_names e));
     ("allowed_dns_sans", strings_json (ct_allowed_dns_sans e));
     ("allowed_email_sans", strings_json (ct_allowed_email_sans e));
     ("allowed_uri_sans", strings_json (ct_allowed_uri_sans e));
     ("allowed_organizational_units", strings_json (ct_allowed_organizational_units e));
     ("allowed_metadata_extensions", strings_json (ct_allowed_metadata_extensions e));
     ("required_extensions", strings_json (ct_required_extensions e));
     ("ocsp_enabled", VBool (ct_ocsp_enabled e));
     ("ocsp_ca_certificates", VArray (map Certs.bytes_json ocsp_pems));
     ("ocsp_servers_override", strings_json (ct_ocsp_servers_override e));
     ("ocsp_fail_open", VBool (ct_ocsp_fail_open e));
     ("ocsp_query_all_servers", VBool (ct_ocsp_query_all_servers e))] ∪ TokenParams.to_json (ct_token_params e)).

Definition json_x509s (v : Value) : option (list X509) :=
  match v with VArray l => mapM (λ x, Certs.json_bytes x ≫= x509_from_pem) l | _ => None end.

Definition entry_of_json (m : gmap string Value) : option entry :=
  name ← json_field m "name" as_str;
  display_name ← json_field m "display_name" as_str;
  certificate ← json_field m "certificate" json_x509s;
  policies ← json_field m "policies" json_strings;
  ttl ← json_field m "ttl" deserialize_duration;
  max_ttl ← json_field m "max_ttl" deserialize_duration;
  period ← json_field m "period" deserialize_duration;
  bound_cidrs ← json_field m "bound_cidrs" json_addrs;
  allowed_names ← json_field m "allowed_names" json_strings;
  allowed_common_names ← json_field m "allowed_common_names" json_strings;
  allowed_dns_sans ← json_field m "allowed_dns_sans" json_strings;
  allowed_email_sans ← json_field m "allowed_email_sans" json_strings;
  allowed_uri_sans ← json_field m "allowed_uri_sans" json_strings;
  allowed_organizational_units ← json_field m "allowed_organizational_units" json_strings;
  allowed_metadata_extensions ← json_field m "allowed_metadata_extensions" json_strings;
  required_extensions ← json_field m "required_extensions" json_strings;
  ocsp_enabled ← json_field m "ocsp_enabled" json_bool;
  ocsp_ca_certificates ← json_field m "ocsp_ca_certificates" json_x509s;
  ocsp_servers_override ← json_field m "ocsp_servers_override" json_strings;
  ocsp_fail_open ← json_field m "ocsp_fail_open" json_bool;
  ocsp_query_all_servers ← json_field m "ocsp_query_all_servers" json_bool;
  token_params ← TokenParams.of_json m;
  Some
  {| ct_name := name; ct_display_name := display_name; ct_certificate := certificate; ct_policies :=
     policies; ct_ttl := ttl; ct_max_ttl := max_ttl; ct_period := period; ct_bound_cidrs := bound_cidrs;
     ct_allowed_names := allowed_names; ct_allowed_common_names := allowed_common_names;
     ct_allowed_dns_sans := allowed_dns_sans; ct_allowed_email_sans := allowed_email_sans;
     ct_allowed_uri_sans := allowed_uri_sans; ct_allowed_organizational_units :=
     allowed_organizational_units; ct_allowed_metadata_extensions := allowed_metadata_extensions;
     ct_required_extensions := required_extensions; ct_ocsp_enabled := ocsp_enabled;
     ct_ocsp_ca_certificates := ocsp_ca_certificates; ct_ocsp_servers_override := ocsp_servers_override;
     ct_ocsp_fail_open := ocsp_fail_open; ct_ocsp_query_all_servers := ocsp_query_all_servers;
     ct_token_params := token_params |}.

Definition config_json (c : Config) : gmap string Value :=
  list_to_map
    [("disable_binding", VBool (disable_binding c));
     ("enable_identity_alias_metadata", VBool (enable_identity_alias_metadata c));
     ("ocsp_cache_size", VInt (ocsp_cache_size c))].

Definition config_of_json (m : gmap string Value) : option Config :=
  b ← json_field m "disable_binding" json_bool;
  i ← json_field m "enable_identity_alias_metadata" json_bool;
  z ← json_field m "ocsp_cache_size" as_i64;
  Some {| disable_binding := b; enable_identity_alias_metadata := i; ocsp_cache_size := z |}.

Definition cdp_json (c : option CDPInfo) : Value :=
  match c with
  | None => VNull
  | Some c => VObject [("url", VStr (url c)); ("valid_until", serialize_duration (valid_until c))]
  end.

Definition json_cdp (v : Value) : option (option CDPInfo) :=
  match v with
  | VNull => Some None
  | VObject l =>
      let m := list_to_map l : gmap string Value in
      u ← json_field m "url" as_str;
      d ← json_field m "valid_until" deserialize_duration;
      Some (Some {| url := u; valid_until := d |})
  | _ => None
  end.

(** [RevokedSerialInfo] is a unit, written as [null]. *)
Definition crl_json (c : CRLInfo) : gmap string Value :=
  list_to_map [("cdp", cdp_json (cdp c)); ("serials", VObject (map (λ s, (s, VNull)) (elements (serials c))))].

Definition json_serials (v : Value) : option (gset string) :=
  match v with
  | VObject l => if forallb (λ kv, match snd kv with VNull => true | _ => false end) l
                 then Some (list_to_set (map fst l)) else None
  | _ => None
  end.

Definition crl_of_json (m : gmap string Value) : option CRLInfo :=
  c ← json_default m "cdp" None json_cdp;
  s ← json_field m "serials" json_serials;
  Some {| cdp := c; serials := s |}.

(** *** Configuration *)

Definition default_config : Config :=
  {| disable_binding := false; enable_identity_alias_metadata := false; ocsp_cache_size := 0 |}.

Definition get_config : H (option Config) :=
  let! config := stored (get_json "config" config_of_json) in
  st_ret (Some (match config with Some c => c | None => default_config end)).

Definition set_config (c : Config) : H unit := stored (put_json "config" (config_json c)).

Definition read_config : H (option Response) :=
  let! config := get_config in
  match config with
  | None => st_ret None
  | Some c => st_ret (Some (ResponseOps.data_response (Some (config_json c))))
  end.

(** [v.unwrap()]. *)
Definition unwrap {A} (o : option A) : result A := match o with Some x => Ok x | None => Panic end.

Definition write_config : H (option Response) :=
  let! config := get_config in
  match config with
  | None => st_ret None
  | Some cfg =>
      let! req := get_req in
      let get := RequestOps.get_data req in
      let! b := st_lift (if_given (get "disable_binding") (λ v, unwrap (json_bool v)) (disable_binding cfg)) in
      let! i := st_lift (if_given (get "enable_identity_alias_metadata") (λ v, unwrap (json_bool v))
                           (enable_identity_alias_metadata cfg)) in
      let! z := st_lift (if_given (get "ocsp_cache_size")
                           (λ v, let? z := unwrap (as_i64 v) in
                                 if (z <? 2)%Z then Err ErrRequestInvalid else Ok z)
                           (ocsp_cache_size cfg)) in
      let! _ := set_config {| disable_binding := b; enable_identity_alias_metadata := i; ocsp_cache_size := z |} in
      st_ret None
  end.

(** *** Roles *)

Definition tp_with (ttl max_ttl period : Duration) (pols : list string) (cidrs : list SockAddr) (p : TokenParams)
  : TokenParams := tp_set_token_period period (UserPass.tp_with ttl max_ttl pols cidrs p).

(** The token parameters that are not set are those of the older fields. *)
Definition migrate (e : entry) : entry :=
  let p := ct_token_params e in
  let unset d older := (as_secs d =? 0)%Z && (0 <? as_secs older)%Z in
  let ttl := if unset (tp_token_ttl p) (ct_ttl e) then ct_ttl e else tp_token_ttl p in
  let max_ttl := if unset (tp_token_max_ttl p) (ct_max_ttl e) then ct_max_ttl e else tp_token_max_ttl p in
  let period := if unset (tp_token_period p) (ct_period e) then ct_period e else tp_token_period p in
  let pols := match tp_token_policies p, ct_policies e with [], _ :: _ => ct_policies e | l, _ => l end in
  let cidrs := match tp_token_bound_cidrs p, ct_bound_cidrs e with [], _ :: _ => ct_bound_cidrs e | l, _ => l end in
  let p := tp_with ttl max_ttl period pols cidrs p in
  {| ct_name := ct_name e; ct_display_name := ct_display_name e; ct_certificate := ct_certificate e;
     ct_policies := ct_policies e; ct_ttl := ct_ttl e; ct_max_ttl := ct_max_ttl e; ct_period := ct_period
     e; ct_bound_cidrs := ct_bound_cidrs e; ct_allowed_names := ct_allowed_names e;
     ct_allowed_common_names := ct_allowed_common_names e; ct_allowed_dns_sans := ct_allowed_dns_sans e;
     ct_allowed_email_sans := ct_allowed_email_sans e; ct_allowed_uri_sans := ct_allowed_uri_sans e;
     ct_allowed_organizational_units := ct_allowed_organizational_units e; ct_allowed_metadata_extensions
     := ct_allowed_metadata_extensions e; ct_required_extensions := ct_required_extensions e;
     ct_ocsp_enabled := ct_ocsp_enabled e; ct_ocsp_ca_certificates := ct_ocsp_ca_certificates e;
     ct_ocsp_servers_override := ct_ocsp_servers_override e; ct_ocsp_fail_open := ct_ocsp_fail_open e;
     ct_ocsp_query_all_servers := ct_ocsp_query_all_servers e; ct_token_params := p |}.

Definition get_cert (name : string) : H (option entry) :=
  let! e := stored (get_json ("cert/" ++ to_lowercase name) entry_of_json) in st_ret (migrate <$> e).

Definition set_cert (name : string) (e : entry) : H unit :=
  match entry_json e with
  | None => st_lift Panic
  | Some m => stored (put_json ("cert/" ++ name) m)
  end.

Definition data_as_str (key : string) : H string :=
  let! req := get_req in st_lift (RequestOps.get_data_as_str req key).

(** The entry as JSON, without the durations that are not set. *)
Definition read_data (e : entry) : result (gmap string Value) :=
  let? data := unwrap (entry_json e) in
  let data := if (as_secs (ct_ttl e) =? 0)%Z then base.delete "ttl" data else data in
  let data := if (as_secs (ct_max_ttl e) =? 0)%Z then base.delete "max_ttl" data else data in
  let? data := match ct_policies e with [] => Ok data | _ => UserPass.copy_entry "policies" "token_policies" data end in
  match ct_bound_cidrs e with [] => Ok data | _ => UserPass.copy_entry "bound_cidrs" "token_bound_cidrs" data end.

Definition read_cert : H (option Response) :=
  let! name := data_as_str "name" in
  let! e := get_cert (to_lowercase name) in
  match e with
  | None => st_ret None
  | Some e => let! d := st_lift (read_data e) in st_ret (Some (ResponseOps.data_response (Some d)))
  end.

Definition valid {A} (o : option A) : result A := of_option ErrRequestFieldInvalid o.

Definition certs_of_pem (v : Value) : result (list X509) :=
  let? s := valid (as_str v) in of_option OpenSSL (x509_stack_from_pem (str_bytes s)).

(** The fields of the request before the token parameters. *)
Definition parse_fields (req : Request) (e : entry) : result entry :=
  let get := RequestOps.get_data req in
  let? certificate := if_given (get "certificate") certs_of_pem (ct_certificate e) in
  let? ocsp_ca_certificates := if_given (get "ocsp_ca_certificates") certs_of_pem (ct_ocsp_ca_certificates e) in
  let? ocsp_enabled := if_given (get "ocsp_enabled") (λ v, valid (json_bool v)) (ct_ocsp_enabled e) in
  let? ocsp_servers_override := if_given (get "ocsp_servers_override")
                                  (λ v, valid (FieldTrait.as_comma_string_slice v)) (ct_ocsp_servers_override e) in
  let? ocsp_fail_open := if_given (get "ocsp_fail_open") (λ v, valid (json_bool v)) (ct_ocsp_fail_open e) in
  let? ocsp_query_all_servers := if_given (get "ocsp_query_all_servers") (λ v, valid (json_bool v))
                                   (ct_ocsp_query_all_servers e) in
  let? display_name := if_given (get "display_name") (λ v, valid (as_str v)) (ct_display_name e) in
  let? allowed_names := if_given (get "allowed_names") (λ v, valid (FieldTrait.as_comma_string_slice v)) (ct_allowed_names e) in
  let? allowed_common_names := if_given (get "allowed_common_names") (λ v, valid (FieldTrait.as_comma_string_slice v)) (ct_allowed_common_names e) in
  let? allowed_dns_sans := if_given (get "allowed_dns_sans") (λ v, valid (FieldTrait.as_comma_string_slice v)) (ct_allowed_dns_sans e) in
  let? allowed_email_sans := if_given (get "allowed_email_sans") (λ v, valid (FieldTrait.as_comma_string_slice v)) (ct_allowed_email_sans e) in
  let? allowed_uri_sans := if_given (get "allowed_uri_sans") (λ v, valid (FieldTrait.as_comma_string_slice v)) (ct_allowed_uri_sans e) in
  let? allowed_organizational_units := if_given (get "allowed_organizational_units") (λ v, valid (FieldTrait.as_comma_string_slice v)) (ct_allowed_organizational_units e) in
  let? required_extensions := if_given (get "required_extensions") (λ v, valid (FieldTrait.as_comma_string_slice v)) (ct_required_extensions e) in
  let? allowed_metadata_extensions := if_given (get "allowed_metadata_extensions") (λ v, valid (FieldTrait.as_comma_string_slice v)) (ct_allowed_metadata_extensions e) in
  Ok
  {| ct_name := ct_name e; ct_display_name := display_name; ct_certificate := certificate; ct_policies :=
     ct_policies e; ct_ttl := ct_ttl e; ct_max_ttl := ct_max_ttl e; ct_period := ct_period e;
     ct_bound_cidrs := ct_bound_cidrs e; ct_allowed_names := allowed_names; ct_allowed_common_names :=
     allowed_common_names; ct_allowed_dns_sans := allowed_dns_sans; ct_allowed_email_sans :=
     allowed_email_sans; ct_allowed_uri_sans := allowed_uri_sans; ct_allowed_organizational_units :=
     allowed_organizational_units; ct_allowed_metadata_extensions := allowed_metadata_extensions;
     ct_required_extensions := required_extensions; ct_ocsp_enabled := ocsp_enabled;
     ct_ocsp_ca_certificates := ocsp_ca_certificates; ct_ocsp_servers_override := ocsp_servers_override;
     ct_ocsp_fail_open := ocsp_fail_open; ct_ocsp_query_all_servers := ocsp_query_all_servers;
     ct_token_params := ct_token_params e |}.

(** The token parameters, and the older fields beside them. *)
Definition parse_params (req : Request) (e : entry) : result entry :=
  let old := ct_token_params e in
  let? p := TokenParams.parse_token_fields old req in
  let get := RequestOps.get_data req in
  let duration v := valid (FieldTrait.as_duration v) in
  let? pols := UserPass.sync (bool_decide (tp_token_policies old = tp_token_policies p)) (ct_policies e)
                 (tp_token_policies p) (get "policies") (λ v, valid (FieldTrait.as_comma_string_slice v)) in
  let? period := UserPass.sync (Z.eqb (tp_token_period old) (tp_token_period p)) (ct_period e) (tp_token_period p)
                   (get "period") duration in
  let? ttl := (if negb (Z.eqb (tp_token_ttl old) (tp_token_ttl p)) then Ok (tp_token_ttl p, tp_token_ttl p)
               else match get "ttl" with
                    | Ok v => let? x := duration v in Ok (x, x)
                    | Err _ => if_given (get "lease")
                                 (λ v, let? n := valid (as_u64 v) in Ok (from_secs n, from_secs n))
                                 (ct_ttl e, tp_token_ttl p)
                    | Panic => Panic
                    end) in
  let? max_ttl := UserPass.sync (Z.eqb (tp_token_max_ttl old) (tp_token_max_ttl p)) (ct_max_ttl e)
                    (tp_token_max_ttl p) (get "max_ttl") duration in
  let? cidrs := UserPass.sync (UserPass.addrs_eqb (tp_token_bound_cidrs old) (tp_token_bound_cidrs p))
                  (ct_bound_cidrs e) (tp_token_bound_cidrs p) (get "bound_cidrs")
                  (λ v, let? l := valid (FieldTrait.as_comma_string_slice v) in TokenParams.parse_addrs l) in
  let params := tp_with (snd ttl) (snd max_ttl) (snd period) (snd pols) (snd cidrs) p in
  Ok
  {| ct_name := ct_name e; ct_display_name := ct_display_name e; ct_certificate := ct_certificate e;
     ct_policies := fst pols; ct_ttl := fst ttl; ct_max_ttl := fst max_ttl; ct_period := fst period;
     ct_bound_cidrs := fst cidrs; ct_allowed_names := ct_allowed_names e; ct_allowed_common_names :=
     ct_allowed_common_names e; ct_allowed_dns_sans := ct_allowed_dns_sans e; ct_allowed_email_sans :=
     ct_allowed_email_sans e; ct_allowed_uri_sans := ct_allowed_uri_sans e;
     ct_allowed_organizational_units := ct_allowed_organizational_units e; ct_allowed_metadata_extensions
     := ct_allowed_metadata_extensions e; ct_required_extensions := ct_required_extensions e;
     ct_ocsp_enabled := ct_ocsp_enabled e; ct_ocsp_ca_certificates := ct_ocsp_ca_certificates e;
     ct_ocsp_servers_override := ct_ocsp_servers_override e; ct_ocsp_fail_open := ct_ocsp_fail_open e;
     ct_ocsp_query_all_servers := ct_ocsp_query_all_servers e; ct_token_params := params |}.

Definition set_name (n : string) (e : entry) : entry :=
  {| ct_name := n; ct_display_name := ct_display_name e; ct_certificate := ct_certificate e; ct_policies
     := ct_policies e; ct_ttl := ct_ttl e; ct_max_ttl := ct_max_ttl e; ct_period := ct_period e;
     ct_bound_cidrs := ct_bound_cidrs e; ct_allowed_names := ct_allowed_names e; ct_allowed_common_names
     := ct_allowed_common_names e; ct_allowed_dns_sans := ct_allowed_dns_sans e; ct_allowed_email_sans :=
     ct_allowed_email_sans e; ct_allowed_uri_sans := ct_allowed_uri_sans e;
     ct_allowed_organizational_units := ct_allowed_organizational_units e; ct_allowed_metadata_extensions
     := ct_allowed_metadata_extensions e; ct_required_extensions := ct_required_extensions e;
     ct_ocsp_enabled := ct_ocsp_enabled e; ct_ocsp_ca_certificates := ct_ocsp_ca_certificates e;
     ct_ocsp_servers_override := ct_ocsp_servers_override e; ct_ocsp_fail_open := ct_ocsp_fail_open e;
     ct_ocsp_query_all_servers := ct_ocsp_query_all_servers e; ct_token_params := ct_token_params e |}.

Definition set_display_name (n : string) (e : entry) : entry :=
  {| ct_name := ct_name e; ct_display_name := n; ct_certificate := ct_certificate e; ct_policies :=
     ct_policies e; ct_ttl := ct_ttl e; ct_max_ttl := ct_max_ttl e; ct_period := ct_period e;
     ct_bound_cidrs := ct_bound_cidrs e; ct_allowed_names := ct_allowed_names e; ct_allowed_common_names
     := ct_allowed_common_names e; ct_allowed_dns_sans := ct_allowed_dns_sans e; ct_allowed_email_sans :=
     ct_allowed_email_sans e; ct_allowed_uri_sans := ct_allowed_uri_sans e;
     ct_allowed_organizational_units := ct_allowed_organizational_units e; ct_allowed_metadata_extensions
     := ct_allowed_metadata_extensions e; ct_required_extensions := ct_required_extensions e;
     ct_ocsp_enabled := ct_ocsp_enabled e; ct_ocsp_ca_certificates := ct_ocsp_ca_certificates e;
     ct_ocsp_servers_override := ct_ocsp_servers_override e; ct_ocsp_fail_open := ct_ocsp_fail_open e;
     ct_ocsp_query_all_servers := ct_ocsp_query_all_servers e; ct_token_params := ct_token_params e |}.

Definition client_auth_missing : string :=
  "nonCA certificates should have TLS client authentication set as an extended key usage".

(** [cert_entry.certificate[0]] panics on an entry without a certificate. *)
Definition write_cert : H (option Response) :=
  let! name := data_as_str "name" in
  let name := to_lowercase name in
  let! e := get_cert name in
  let e := match e with Some e => e | None => set_name name default end in
  let! req := get_req in
  let! e := st_lift (parse_fields req e) in
  let! e := st_lift (parse_params req e) in
  let e := if is_empty (ct_display_name e) then set_display_name name e else e in
  let! cert := st_lift (unwrap (head (ct_certificate e))) in
  let! _ := st_guard (negb (Certs.is_ca_cert cert) && Certs.has_x509_ext_key_usage cert
                      && negb (Certs.has_x509_ext_key_usage_flag cert XKU_SSL_CLIENT)) (resp_err client_auth_missing) in
  let! _ := set_cert name e in
  st_ret None.

Definition delete_cert : H (option Response) :=
  let! name := data_as_str "name" in
  let! _ := stored (req_delete ("cert/" ++ to_lowercase name)) in
  st_ret None.

Definition list_cert : H (option Response) :=
  let! certs := stored (req_list "cert/") in
  st_ret (Some (ResponseOps.list_response certs)).

(** *** Revocation lists *)

Definition get_crl : H (option Config) := stored (get_json "crls" config_of_json).

(** Nothing is read once the cache has an entry; an error empties it. *)
Fixpoint load_crls (keys : list string) : H unit :=
  match keys with
  | [] => st_ret tt
  | key :: keys => fun s =>
      match stored (get_json ("crls/" ++ key) crl_of_json) s with
      | (s, Ok None) => load_crls keys s
      | (s, Ok (Some info)) =>
          (let! crls := get_crls in let! _ := set_crls (<[key := info]> crls) in load_crls keys) s
      | (s, Err e) => (let! _ := set_crls ∅ in st_fail e) s
      | (s, Panic) => (s, Panic)
      end
  end.

Definition update_crl_cache : H unit :=
  let! crls := get_crls in
  if bool_decide (crls = ∅) then
    let! keys := stored (req_list "crls/") in load_crls keys
  else st_ret tt.

Definition revoked_serials (revoked : list Z) : result (gset string) :=
  let? texts := of_option OpenSSL (mapM bn_dec revoked) in
  Ok (list_to_set (map to_lowercase texts)).

Definition set_crl (x509crl : option (list Z)) (name : string) (c : option CDPInfo) : H unit :=
  let! _ := update_crl_cache in
  let! s := st_lift (match x509crl with Some revoked => revoked_serials revoked | None => Ok ∅ end) in
  let crl_info := {| cdp := c; serials := s |} in
  let! _ := stored (put_json ("crls/" ++ name) (crl_json crl_info)) in
  let! crls := get_crls in
  set_crls (<[name := crl_info]> crls).

Definition read_crl_pem (text : string) : result (list Z) := of_option OpenSSL (crl_from_pem (str_bytes text)).

Definition fetch_crl (name : string) (crl : CRLInfo) : H unit :=
  match cdp crl with
  | None => st_fail ErrRequestInvalid
  | Some c =>
      let! body := st_lift (http_get (url c)) in
      let! x509crl := st_lift (read_crl_pem body) in
      set_crl (Some x509crl) name (Some c)
  end.

Definition list_crl : H (option Response) :=
  let! crls := stored (req_list "crls/") in
  st_ret (Some (ResponseOps.list_response crls)).

Definition crl_name : H string :=
  let! name := data_as_str "name" in
  let! _ := st_guard (is_empty (to_lowercase name)) ErrRequestNoDataField in
  st_ret (to_lowercase name).

Definition read_crl : H (option Response) :=
  let! name := crl_name in
  let! _ := update_crl_cache in
  let! crls := get_crls in
  match crls !! name with
  | None => st_fail ErrRequestInvalid
  | Some crl_info => st_ret (Some (ResponseOps.data_response (Some (crl_json crl_info))))
  end.

Definition write_crl : H (option Response) :=
  let! name := crl_name in
  let! req := get_req in
  let! _ :=
    match RequestOps.get_data req "crl" with
    | Ok v =>
        let! crl := st_lift (valid (as_str v)) in
        let! x509crl := st_lift (read_crl_pem crl) in
        set_crl (Some x509crl) name None
    | Panic => st_lift Panic
    | Err _ =>
        match RequestOps.get_data req "url" with
        | Ok v =>
            let! u := st_lift (valid (as_str v)) in
            let! _ := st_guard (is_empty u) ErrRequestInvalid in
            let! _ := st_guard (negb (url_ok u)) UrlError in
            fetch_crl name {| cdp := Some {| url := u; valid_until := 0 |}; serials := ∅ |}
        | Panic => st_lift Panic
        | Err _ => st_fail ErrRequestNoDataField
        end
    end in
  st_ret None.

Definition delete_crl : H (option Response) :=
  let! name := crl_name in
  let! _ := update_crl_cache in
  let! crls := get_crls in
  match crls !! name with
  | None => st_fail ErrRequestInvalid
  | Some _ =>
      let! _ := stored (req_delete ("crls/" ++ to_lowercase name)) in
      let! crls := get_crls in
      let! _ := set_crls (base.delete name crls) in
      st_ret None
  end.

(** The names of the cached lists that have the serial number. *)
Definition find_serial_in_crls (crls : gmap string CRLInfo) (serial : Z) : result (gset string) :=
  let? text := of_option OpenSSL (bn_dec serial) in
  Ok (dom (filter (λ kv, to_lowercase text ∈ serials (snd kv)) crls)).

(** *** Constraints of a role *)

(** The certificates a client presented. *)
Definition peer_certs (conn : Connection) : list X509 :=
  match peer_tls_cert conn with Some l => omap x509_from_der l | None => [] end.

(** The first entry of the subject, as the text to match. *)
Definition subject_text (c : X509) (nid : string) : option string :=
  match x509_subject_entry c nid with Some (Some s) => Some s | _ => None end.

(** A loop over allowed patterns: the first that matches decides, and an
    invalid pattern before it refuses. *)
Fixpoint any_pattern (allowed : list string) (test : (string -> bool) -> bool) : bool :=
  match allowed with
  | [] => false
  | p :: allowed =>
      match glob_matches p with
      | Some pattern => if test pattern then true else any_pattern allowed test
      | None => false
      end
  end.

Definition constrained (allowed : list string) (k : bool) : bool := match allowed with [] => true | _ => k end.

Definition any_name (c : X509) (f : GeneralName -> option string) (pattern : string -> bool) : bool :=
  match x509_alt_names c with
  | Some sans => existsb (λ san, match f san with Some s => pattern s | None => false end) sans
  | None => false
  end.

Definition dnsname (n : GeneralName) : option string := match n with DnsName s => Some s | _ => None end.
Definition email (n : GeneralName) : option string := match n with EmailName s => Some s | _ => None end.
Definition uri (n : GeneralName) : option string := match n with UriName s => Some s | _ => None end.
Definition dns_or_email (n : GeneralName) : option string :=
  match n with DnsName s | EmailName s => Some s | _ => None end.

Definition matches_names (c : X509) (config : ParsedCert X509) : bool :=
  let allowed := ct_allowed_names (pc_entry config) in
  constrained allowed
    (match subject_text c "CN" with
     | None => false
     | Some common_name => any_pattern allowed (λ p, p common_name || any_name c dns_or_email p)
     end).

Definition matches_common_name (c : X509) (config : ParsedCert X509) : bool :=
  let allowed := ct_allowed_common_names (pc_entry config) in
  constrained allowed
    (match subject_text c "CN" with
     | None => false
     | Some common_name => any_pattern allowed (λ p, p common_name)
     end).

Definition matches_dns_sans (c : X509) (config : ParsedCert X509) : bool :=
  let allowed := ct_allowed_dns_sans (pc_entry config) in
  constrained allowed (any_pattern allowed (any_name c dnsname)).

Definition matches_email_sans (c : X509) (config : ParsedCert X509) : bool :=
  let allowed := ct_allowed_email_sans (pc_entry config) in
  constrained allowed (any_pattern allowed (any_name c email)).

Definition matches_uri_sans (c : X509) (config : ParsedCert X509) : bool :=
  let allowed := ct_allowed_uri_sans (pc_entry config) in
  constrained allowed (any_pattern allowed (any_name c uri)).

Definition matches_organizational_units (c : X509) (config : ParsedCert X509) : bool :=
  let allowed := ct_allowed_organizational_units (pc_entry config) in
  constrained allowed
    (match subject_text c "OU" with
     | None => false
     | Some ou_name => any_pattern allowed (λ p, p ou_name)
     end).

(** [OBJ_obj2txt] into 128 bytes: a longer text is cut off before the NUL at
    its end, and slicing the buffer at the length of the text panics when the
    text does not fit. *)
Definition oid_text (oid : string) : result string :=
  let n := String.length oid in
  if (n <? 128)%nat then Ok oid
  else if (n =? 128)%nat then Ok (String.substring 0 127 oid ++ String "000" "")
  else Panic.

Fixpoint extensions (l : list (string * bytes)) : result (list (string * bytes)) :=
  match l with
  | [] => Ok []
  | (oid, der) :: l => let? o := oid_text oid in let? l := extensions l in Ok ((o, der) :: l)
  end.

(** The maps the loop fills; of an extension that occurs twice the last is kept. *)
Definition ext_map (f : bytes -> string) (l : list (string * bytes)) : gmap string string :=
  foldl (λ m kv, <[fst kv := f (snd kv)]> m) ∅ l.

Definition ext_matches (m : gmap string string) (oid pattern : string) : bool :=
  match m !! oid, glob_matches pattern with Some v, Some p => p v | _, _ => false end.

Definition required_ext_ok (texts hexes : gmap string string) (required_ext : string) : bool :=
  match split_once ":" required_ext with
  | None => false
  | Some (oid, value) =>
      if oid =? "hex" then
        match split_once ":" value with
        | None => false
        | Some (oid, value) => ext_matches hexes oid (to_lowercase value)
        end
      else ext_matches texts oid value
  end.

Definition matches_certificate_extensions (c : X509) (config : ParsedCert X509) : result bool :=
  match ct_required_extensions (pc_entry config) with
  | [] => Ok true
  | required =>
      let? exts := extensions (x509_ext_list c) in
      Ok (forallb (required_ext_ok (ext_map from_utf8_lossy exts) (ext_map hex_encode exts)) required)
  end.

Definition certificate_extensions_metadata (c : X509) (config : ParsedCert X509) : result (gmap string string) :=
  match ct_allowed_metadata_extensions (pc_entry config) with
  | [] => Ok ∅
  | allowed =>
      let? exts := extensions (x509_ext_list c) in
      Ok (foldl (λ m kv, if str_in (fst kv) allowed
                         then <[replace_char "." "-" (fst kv) := from_utf8_lossy (snd kv)]> m else m) ∅ exts)
  end.

Definition check_for_cert_in_ocsp (_client_cert : X509) (chain : list X509) (ocsp_config : OcspConfig X509)
  : result bool :=
  if negb (enable ocsp_config) || (length chain <? 2)%nat then Ok true else Ok true.

(** A serial number that cannot be printed is passed over. *)
Fixpoint check_for_chain_in_crls (crls : gmap string CRLInfo) (chain : list X509) : bool :=
  match chain with
  | [] => false
  | c :: chain =>
      match find_serial_in_crls crls (Certs.x509_serial c) with
      | Ok bad_crls => if bool_decide (bad_crls = ∅) then check_for_chain_in_crls crls chain else true
      | _ => check_for_chain_in_crls crls chain
      end
  end.

Definition matches_constraints (crls : gmap string CRLInfo) (client_cert : X509) (trusted_chain : list X509)
    (config : ParsedCert X509) (ocsp_config : OcspConfig X509) : result bool :=
  let? ret :=
    (if negb (check_for_chain_in_crls crls trusted_chain) && matches_names client_cert config
        && matches_common_name client_cert config && matches_dns_sans client_cert config
        && matches_email_sans client_cert config && matches_uri_sans client_cert config
        && matches_organizational_units client_cert config
     then matches_certificate_extensions client_cert config else Ok false) in
  if ct_ocsp_enabled (pc_entry config) then
    let? ocsp_ret := check_for_cert_in_ocsp client_cert trusted_chain ocsp_config in Ok (ret && ocsp_ret)
  else Ok ret.

(** *** Login *)

Record Trusted := {
  roots : list X509;
  trusted : list (ParsedCert X509);
  trusted_non_ca : list (ParsedCert X509);
  ocsp_config : OcspConfig X509
}.

Definition no_trust : Trusted :=
  {| roots := []; trusted := []; trusted_non_ca := [];
     ocsp_config := {| enable := false; extra_ca := []; servers_override := []; failure_mode := OcspFailOpenNotSet;
                       query_all_servers := false |} |}.

Definition add_ocsp (e : entry) (c : OcspConfig X509) : OcspConfig X509 :=
  if ct_ocsp_enabled e then
    {| enable := true; extra_ca := extra_ca c;
       servers_override := (servers_override c ++ ct_ocsp_servers_override e)%list;
       failure_mode := if ct_ocsp_fail_open e then FailOpenTrue else FailOpenFalse;
       query_all_servers := query_all_servers c || ct_ocsp_query_all_servers e |}
  else c.

Fixpoint add_roots (store : list X509) (certs : list X509) : result (list X509) :=
  match certs with
  | [] => Ok store
  | c :: certs => if store_accepts store c then add_roots (store ++ [c])%list certs else Err OpenSSL
  end.

Definition add_trust (e : entry) (t : Trusted) : result Trusted :=
  let ocsp := add_ocsp e (ocsp_config t) in
  let certs := (ct_certificate e ++ ct_ocsp_ca_certificates e)%list in
  let parsed := {| pc_entry := e; pc_certs := certs |} in
  let? c := unwrap (head certs) in
  if Certs.is_ca_cert c then
    let? roots := add_roots (roots t) certs in
    Ok {| roots := roots; trusted := (trusted t ++ [parsed])%list; trusted_non_ca := trusted_non_ca t;
          ocsp_config := ocsp |}
  else Ok {| roots := roots t; trusted := trusted t; trusted_non_ca := (trusted_non_ca t ++ [parsed])%list;
             ocsp_config := ocsp |}.

Fixpoint load_trusted_loop (names : list string) (t : Trusted) : H Trusted :=
  match names with
  | [] => st_ret t
  | name :: names =>
      let! e := get_cert (trim_start_pat "cert/" name) in
      match e with
      | None => load_trusted_loop names t
      | Some e =>
          match ct_certificate e with
          | [] => load_trusted_loop names t
          | _ => let! t := st_lift (add_trust e t) in load_trusted_loop names t
          end
      end
  end.

Definition load_trusted_certs (cert_name : string) : H Trusted :=
  let! names := if is_empty cert_name then stored (req_list "cert/") else st_ret [cert_name] in
  load_trusted_loop names no_trust.

(** The certificates of a verified chain that may identify a client. *)
Definition for_clients (c : X509) : bool :=
  negb (Certs.has_x509_ext_key_usage c) || Certs.has_x509_ext_key_usage_flag c (Z.lor XKU_ANYEKU XKU_SSL_CLIENT).

Definition issuer_missing (code : Z) : bool :=
  (code =? X509_V_ERR_UNABLE_TO_GET_ISSUER_CERT)%Z || (code =? X509_V_ERR_UNABLE_TO_GET_ISSUER_CERT_LOCALLY)%Z.

(** A chain without a trusted issuer is no error, unless the certificate has
    expired: the certificate may be trusted itself. *)
Definition validate_cert (roots : list X509) (peer_certs : list X509) : H (list X509) :=
  match peer_certs with
  | [] => st_ret []
  | cert :: others =>
      let! res := st_lift (of_option OpenSSL (chain_verify roots cert others)) in
      let '(verified, code, chain) := res in
      if verified then st_ret (List.filter for_clients chain)
      else if issuer_missing code then
        let! t := stored (on_world now) in
        if (cf_not_after (x509_tbs cert) <=? t / NANOS)%Z
        then st_fail (resp_err (verify_error_text X509_V_ERR_CERT_HAS_EXPIRED))
        else st_ret []
      else st_fail (resp_err (verify_error_text code))
  end.

(** A certificate trusted itself is known by its serial number and the key
    identifier of its issuer. *)
Definition same_leaf (crt client_cert : X509) : bool :=
  match x509_authority_key_id crt, x509_authority_key_id client_cert with
  | Some a, Some b => (Certs.x509_serial crt =? Certs.x509_serial client_cert)%Z && bool_decide (a = b)
  | _, _ => false
  end.

(** The first role that matches, or the errors met on the way. *)
Fixpoint first_match (test : ParsedCert X509 -> option (result bool)) (l : list (ParsedCert X509)) (errs : list RvError)
  : result (ParsedCert X509 + list RvError) :=
  match l with
  | [] => Ok (inr errs)
  | t :: l =>
      match test t with
      | None => first_match test l errs
      | Some (Ok true) => Ok (inl t)
      | Some (Ok false) => first_match test l errs
      | Some (Err e) => first_match test l (errs ++ [e])%list
      | Some Panic => Panic
      end
  end.

Definition non_ca_test (crls : gmap string CRLInfo) (client_cert : X509) (ocsp : OcspConfig X509) (t : ParsedCert X509)
  : option (result bool) :=
  match pc_certs t with
  | [] => Some Panic
  | crt :: _ => if same_leaf crt client_cert then Some (matches_constraints crls client_cert (pc_certs t) t ocsp) else None
  end.

Definition ca_test (crls : gmap string CRLInfo) (client_cert : X509) (chain : list X509) (ocsp : OcspConfig X509)
    (t : ParsedCert X509) : option (result bool) :=
  if existsb (λ crt, existsb (x509_eqb crt) chain) (pc_certs t)
  then Some (matches_constraints crls client_cert chain t ocsp) else None.

Definition invalid_certificate : string := "invalid certificate or no client certificate supplied".
Definition no_chain : string := "no chain matching all constraints could be found for this login certificate".

Definition choose (crls : gmap string CRLInfo) (client_cert : X509) (chain : list X509) (t : Trusted)
  : result (ParsedCert X509) :=
  let? leaf := first_match (non_ca_test crls client_cert (ocsp_config t)) (trusted_non_ca t) [] in
  match leaf with
  | inl p => Ok p
  | inr errs =>
      match chain with
      | [] =>
          Err (resp_err (match errs with
                         | [] => invalid_certificate
                         | _ => invalid_certificate ++ "; additionally got errors during verification:: "
                                ++ debug_errors errs
                         end))
      | _ =>
          let? found := first_match (ca_test crls client_cert chain (ocsp_config t)) (trusted t) errs in
          match found with
          | inl p => Ok p
          | inr [] => Err (resp_err no_chain)
          | inr errs => Err (resp_err (no_chain ++ "; additionally got errors during verification: "
                                       ++ debug_errors errs))
          end
      end
  end.

(** The name of a role the request asks for: the login's, or the request's. *)
Definition role_name (req : Request) : string :=
  match auth req ≫= (λ a, metadata a !! "cert_name") with
  | Some n => n
  | None => match RequestOps.get_data req "name" with Ok v => from_option Datatypes.id "" (as_str v) | _ => "" end
  end.

Definition verify_credentials : H (ParsedCert X509) :=
  let! req := get_req in
  match connection req with
  | None => st_fail (resp_err "client certificate must be supplied")
  | Some conn =>
      match peer_certs conn with
      | [] => st_fail (resp_err "client certificate must be supplied")
      | client_cert :: _ =>
          let! t := load_trusted_certs (role_name req) in
          let! trusted_chains := validate_cert (roots t) (peer_certs conn) in
          let! crls := get_crls in
          st_lift (choose crls client_cert trusted_chains t)
      end
  end.

Definition key_id (o : option bytes) : bytes := match o with Some b => b | None => [] end.

(** What the token is made from. *)
Definition login_auth (t : SystemTime) (c : X509) (common_name sn : string) (exts : gmap string string)
    (matched : ParsedCert X509) : Auth :=
  let e := pc_entry matched in
  let a := TokenStore.default_auth t in
  TokenParams.populate_token_auth (ct_token_params e)
    {| auth_lease := auth_lease a; auth_client_token := auth_client_token a;
       display_name := ct_display_name e; policies := policies a; token_policies := token_policies a;
       no_default_policy := no_default_policy a;
       auth_internal_data :=
         <["authority_key_id" := base64_encode (key_id (x509_authority_key_id c))]>
           (<["subject_key_id" := base64_encode (key_id (x509_subject_key_id c))]> (auth_internal_data a));
       metadata :=
         exts ∪
         <["authority_key_id" := hex_encode_with_colon (key_id (x509_authority_key_id c))]>
           (<["subject_key_id" := hex_encode_with_colon (key_id (x509_subject_key_id c))]>
             (<["serial_number" := sn]> (<["common_name" := common_name]> (<["cert_name" := ct_name e]> (metadata a)))));
       policy_results := policy_results a; period := period a; auth_explicit_max_ttl := auth_explicit_max_ttl a |}.

Definition login : H (option Response) :=
  let! config := get_config in
  match config with
  | None => st_fail ErrCredentailNotConfig
  | Some _ =>
      let! req := get_req in
      match connection req with
      | None => st_fail (resp_err "tls connection required")
      | Some conn =>
          match peer_certs conn with
          | [] => st_fail (resp_err "no client certificate found")
          | client_cert :: _ =>
              let! common_name := st_lift (match x509_subject_entry client_cert "CN" with
                                           | None => Ok ""
                                           | Some None => Err OpenSSL
                                           | Some (Some s) => Ok s
                                           end) in
              let! serial_number := st_lift (of_option OpenSSL (bn_dec (Certs.x509_serial client_cert))) in
              let sn := from_utf8_lossy (str_bytes serial_number) in
              let! matched := verify_credentials in
              let cidrs := tp_token_bound_cidrs (ct_token_params (pc_entry matched)) in
              let! _ := st_guard (match cidrs with [] => false | _ => negb (Cidr.remote_addr_is_ok (peer_addr conn) cidrs) end)
                          ErrPermissionDenied in
              let! t := stored (on_world now) in
              let! exts := st_lift (certificate_extensions_metadata client_cert matched) in
              st_ret (Some (ResponseOps.set_auth (Some (login_auth t client_cert common_name sn exts matched))
                              ResponseOps.new))
          end
      end
  end.

(** The certificate presented again on renewal is another one only when both
    key identifiers differ. *)
Definition check_binding (a : Auth) : H unit :=
  let! subject_key_id := st_lift (of_option (resp_err "invalid request, not found subject_key_id")
                                    (metadata a !! "subject_key_id")) in
  let! authority_key_id := st_lift (of_option (resp_err "invalid request, not found authority_key_id")
                                      (metadata a !! "authority_key_id")) in
  let! _ := verify_credentials in
  let! req := get_req in
  match connection req with
  | None => st_fail ErrRequestNotReady
  | Some conn =>
      match peer_certs conn with
      | [] => st_fail (resp_err "no client certificate found")
      | c :: _ =>
          let skid_hex := hex_encode_with_colon (key_id (x509_subject_key_id c)) in
          let akid_hex := hex_encode_with_colon (key_id (x509_authority_key_id c)) in
          st_guard (negb (subject_key_id =? skid_hex) && negb (authority_key_id =? akid_hex))
            (resp_err "client identity during renewal not matching client identity used during login")
      end
  end.

Definition renewed_auth (e : entry) (a : Auth) : Auth :=
  let l := auth_lease a in
  let p := ct_token_params e in
  {| auth_lease := {| Lease.ttl := tp_token_ttl p; Lease.max_ttl := tp_token_max_ttl p;
                      Lease.renewable := Lease.renewable l; Lease.increment := Lease.increment l;
                      Lease.issue_time := Lease.issue_time l |};
     auth_client_token := auth_client_token a; display_name := display_name a; policies := policies a;
     token_policies := token_policies a; no_default_policy := no_default_policy a;
     auth_internal_data := auth_internal_data a; metadata := metadata a;
     policy_results := policy_results a; period := tp_token_period p;
     auth_explicit_max_ttl := auth_explicit_max_ttl a |}.

Definition login_renew : H (option Response) :=
  let! config := get_config in
  let! config := st_lift (of_option ErrCredentailNotConfig config) in
  let! req := get_req in
  let! _ := st_guard (negb (bool_decide (is_Some (connection req)))) (resp_err "tls connection required") in
  match auth req with
  | None => st_fail (resp_err "invalid request")
  | Some a =>
      let! _ := if disable_binding config then st_ret tt else check_binding a in
      let! cert_name := st_lift (of_option (resp_err "invalid request, not found cert_name") (metadata a !! "cert_name")) in
      let! cert := get_cert cert_name in
      match cert with
      | None => st_ret None
      | Some e =>
          if negb (PolicyUtils.equivalent_policies (ct_policies e) (policies a))
          then st_fail (ErrString "policies have changed, not renewing")
          else st_ret (Some (ResponseOps.set_auth (Some (renewed_auth e a)) ResponseOps.new))
      end
  end.

(** *** The backend *)

Definition config_path : Path * list (PathOperation W) :=
  path_with "config" ("
This endpoint allows you to create, read, update, and delete trusted certificates
that are allowed to authenticate.

Deleting a certificate will not revoke auth for prior authenticated connections.
To do this, do a revoke on " ++ dquote ++ "login" ++ dquote ++ ". If you don'log need to revoke login immediately,
then the next renew will cause the lease to expire.
                ")
    [("disable_binding", default_field Bool (VBool false) "If set, during renewal, skips the matching of presented client identity with the client identity used during login. Defaults to false.");
     ("enable_identity_alias_metadata", default_field Bool (VBool false) "If set, metadata of the certificate including the metadata corresponding to allowed_metadata_extensions will be stored in the alias. Defaults to false.");
     ("ocsp_cache_size", default_field Int (VInt 100) "The size of the in memory OCSP response cache, shared by all configured certs")]
    [(Read, read_config); (Write, write_config)].

Definition certs_path : Path * list (PathOperation W) :=
  with_token_fields (
  path_with "certs/(?P<name>\w[\w-]+\w)" ("
This endpoint allows you to create, read, update, and delete trusted certificates
that are allowed to authenticate.

Deleting a certificate will not revoke auth for prior authenticated connections.
To do this, do a revoke on " ++ dquote ++ "login" ++ dquote ++ ". If you don't need to revoke login immediately,
then the next renew will cause the lease to expire.
                ")
    [("name", required_field Str "The name of the certificate.");
     ("certificate", required_field Str "The public certificate that should be trusted. Must be x509 PEM encoded.");
     ("ocsp_enabled", default_field Bool (VBool false) "Whether to attempt OCSP verification of certificates at login");
     ("ocsp_ca_certificates", plain_field Str "Any additional CA certificates needed to communicate with OCSP servers");
     ("ocsp_servers_override", plain_field CommaStringSlice "A comma-separated list of OCSP server addresses.
If unset, the OCSP server is determined from the AuthorityInformationAccess extension on
the certificate being inspected.");
     ("ocsp_fail_open", default_field Bool (VBool false) "If set to true, if an OCSP revocation cannot
be made successfully, login will proceed rather than failing.  If false, failing
to get an OCSP status fails the request.");
     ("ocsp_query_all_servers", default_field Bool (VBool false) "If set to true, rather than accepting the first
successful OCSP response, query all servers and consider the certificate valid
only if all servers agree.");
     ("allowed_names", plain_field CommaStringSlice "A comma-separated list of names.
At least one must exist in either the Common Name or SANs. Supports globbing.
This parameter is deprecated, please use allowed_common_names, allowed_dns_sans,
allowed_email_sans, allowed_uri_sans.");
     ("allowed_common_names", plain_field CommaStringSlice "A comma-separated list of names.
        At least one must exist in the Common Name. Supports globbing.");
     ("allowed_dns_sans", plain_field CommaStringSlice "A comma-separated list of DNS names.
        At least one must exist in the SANs. Supports globbing.");
     ("allowed_email_sans", plain_field CommaStringSlice "A comma-separated list of Email Addresses.
        At least one must exist in the SANs. Supports globbing.");
     ("allowed_uri_sans", plain_field CommaStringSlice "A comma-separated list of URIs.
        At least one must exist in the SANs. Supports globbing.");
     ("allowed_organizational_units", plain_field CommaStringSlice "A comma-separated list of Organizational Units names.
        At least one must exist in the OU field.");
     ("required_extensions", plain_field CommaStringSlice (requote "A comma-separated string or array of extensions
formatted as 'oid:value'. Expects the extension value to be some type of ASN1 encoded string.
All values much match. Supports globbing on 'value'."));
     ("allowed_metadata_extensions", plain_field CommaStringSlice "A comma-separated string or array of oid extensions.
Upon successful authentication, these extensions will be added as metadata if they are present
in the certificate. The metadata key will be the string consisting of the oid numbers
separated by a dash (-) instead of a dot (.) to allow usage in ACL templates.");
     ("policies", plain_field CommaStringSlice "Use token_policies instead. If this and token_policies are both speicified, only token_policies will be used.");
     ("lease", plain_field Int "Use token_ttl instead. If this and token_ttl are both speicified, only token_ttl will be used.");
     ("ttl", plain_field DurationSecond "Use token_ttl instead. If this and token_ttl are both speicified, only token_ttl will be used.");
     ("max_ttl", plain_field DurationSecond "Use token_max_ttl instead. If this and token_max_ttl are both speicified, only token_max_ttl will be used.");
     ("period", default_field DurationSecond (VInt 0) "Use token_period instead. If this and token_period are both speicified, only token_period will be used.");
     ("bound_cidrs", plain_field CommaStringSlice "Use token_bound_cidrs instead. If this and token_bound_cidrs are both speicified, only token_bound_cidrs will be used.");
     ("display_name", plain_field Str "The display name to use for clients using this certificate.")]
    [(Read, read_cert); (Write, write_cert); (Delete, delete_cert)]).

Definition certs_list_path : Path * list (PathOperation W) :=
  path_with "certs/?" "This endpoint allows you to list certs"
    []
    [(List, list_cert)].

Definition crl_path : Path * list (PathOperation W) :=
  path_with "crls/(?P<name>\w[\w-]+\w)" "
This endpoint allows you to list, create, read, update, and delete the Certificate
Revocation Lists checked during authentication, and/or CRL Distribution Point
URLs.

When any CRLs are in effect, any login will check the trust chains sent by a
client against the submitted or retrieved CRLs. Any chain containing a serial number revoked
by one or more of the CRLs causes that chain to be marked as invalid for the
authentication attempt. Conversely, *any* valid chain -- that is, a chain
in which none of the serials are revoked by any CRL -- allows authentication.
This allows authentication to succeed when interim parts of one chain have been
revoked; for instance, if a certificate is signed by two intermediate CAs due to
one of them expiring.
                "
    [("name", required_field Str "The name of the certificate.");
     ("crl", plain_field Str "The public CRL that should be trusted to attest to certificates' validity statuses.
    May be DER or PEM encoded. Note: the expiration time
    is ignored; if the CRL is no longer valid, delete it
    using the same name as specified here.");
     ("url", plain_field Str "The URL of a CRL distribution point.  Only one of 'crl' or 'url' parameters should be specified.")]
    [(Read, read_crl); (Write, write_crl); (Delete, delete_crl)].

Definition crl_list_path : Path * list (PathOperation W) :=
  path_with "crls/?$" "
This endpoint allows you to list, create, read, update, and delete the Certificate
Revocation Lists checked during authentication, and/or CRL Distribution Point
URLs.

When any CRLs are in effect, any login will check the trust chains sent by a
client against the submitted or retrieved CRLs. Any chain containing a serial number revoked
by one or more of the CRLs causes that chain to be marked as invalid for the
authentication attempt. Conversely, *any* valid chain -- that is, a chain
in which none of the serials are revoked by any CRL -- allows authentication.
This allows authentication to succeed when interim parts of one chain have been
revoked; for instance, if a certificate is signed by two intermediate CAs due to
one of them expiring.
                "
    []
    [(List, list_crl)].

Definition login_path : Path * list (PathOperation W) :=
  path_with "login" ""
    [("name", required_field Str "The name of the certificate role to authenticate against.")]
    [(Write, login)].

Definition new_backend {R} : LogicalBackend R W :=
  {| paths := [config_path; certs_path; certs_list_path; crl_path; crl_list_path; login_path]; paths_re := [];
     root_paths := []; unauth_paths := ["login"]; backend_help := CERT_BACKEND_HELP; secrets := [];
     auth_renew_handler := Some login_renew |}.

End cert.
End CertAuth.
