(* ===== verification/CertCorrect.v ===== *)
(** * The certificate credential: who may log in

    What a granted login proves of the certificate presented, and two gaps: a
    trusted leaf is recognised without its key, and revocation lists are read
    by the requests that manage them only. *)

From stdpp Require Import base tactics list gmap strings.
From Stdlib Require Import ZArith Lia Ascii.
From S2P Require Import Prelude Errors RustStr Utils Lease Storage BarrierView Logical LogicalBackend Mount World WorldLaws TokenStore BarrierCorrect MountCorrect WorldDemo Cidr StoredJson TokenUtil UserPass Keys Certs CertAuth.
Import BarrierView.

Local Open Scope string_scope.

Section correct.
Context {X509 PKey : Type} `{HO : OpensslX509 X509 PKey} `{HL : OpensslLogin X509} {S Q C : Type} `{HSt : Storage S}
        `{HSS : !StorageSpec S} `{HCl : Clock} `{HSJ : Serde (gmap string Value)} `{HSJL : !SerdeLaws (gmap string Value)}
        `{HH : Humantime} `{HJ : JsonParser} `{HI : IpNet}
        `{HG : Glob} `{HB64 : Base64Encode} `{HU : UrlParser} `{HN : HttpGet} `{HD : DebugErrors} `{HX : HexCodec}.
Import CertAuth.

Implicit Types (w : World S Q C) (crls : gmap string CRLInfo) (req : Request) (v : t).

(** ** Steps *)

Lemma stored_ok {A} (m : st (World S Q C * Request) RvError A) w crls req s' x :
  stored m ((w, crls), req) = (s', Ok x) →
  ∃ w' req', m (w, req) = ((w', req'), Ok x) ∧ s' = ((w', crls), req').
Proof.
  unfold stored. destruct (m (w, req)) as [[w' req'] r] eqn:E. intros [= <- ->]. eauto.
Qed.

Lemma stored_run {A} (m : st (World S Q C * Request) RvError A) w crls req w' req' r :
  m (w, req) = ((w', req'), r) → stored m ((w, crls), req) = (((w', crls), req'), r).
Proof. unfold stored. by intros ->. Qed.

(** The role stored under a name. *)
Definition stored_cert v w (name : string) : result (option (CertEntry X509)) :=
  match at_key v entry_of_json w ("cert/" ++ to_lowercase name) with
  | Ok e => Ok (migrate <$> e)
  | Err e => Err e
  | Panic => Panic
  end.

Lemma get_cert_ok v name w crls req s' e :
  serves v w req → get_cert name ((w, crls), req) = (s', Ok e) →
  s' = ((w, crls), req) ∧ stored_cert v w name = Ok e.
Proof.
  intros Hv H. unfold get_cert in H. inv_steps.
  match goal with H : stored _ _ = _ |- _ => apply stored_ok in H as (w' & req' & Hg & ->) end.
  apply (get_json_ok v) in Hg as [Hs Hk]; [|done]. injection Hs as -> ->.
  apply st_ret_ok in H as [<- ->]. split; [done|]. unfold stored_cert. by rewrite Hk.
Qed.

(** *** Loading the trusted certificates *)

Definition certs_of (e : CertEntry X509) : list X509 := (ct_certificate e ++ ct_ocsp_ca_certificates e)%list.

(** A role of the store among the names, with its certificates. *)
Definition loaded v w (names : list string) (ca : bool) (p : ParsedCert X509) : Prop :=
  ∃ name c rest, name ∈ names ∧ stored_cert v w (trim_start_pat "cert/" name) = Ok (Some (pc_entry p)) ∧
    pc_certs p = certs_of (pc_entry p) ∧ ct_certificate (pc_entry p) = c :: rest ∧ Certs.is_ca_cert c = ca.

Record loaded_all v w (names : list string) (t : Trusted) : Prop := {
  la_trusted p : p ∈ trusted t → loaded v w names true p;
  la_non_ca p : p ∈ trusted_non_ca t → loaded v w names false p;
  la_roots c : c ∈ roots t → ∃ p, p ∈ trusted t ∧ c ∈ pc_certs p
}.

Lemma add_roots_elem store certs store' :
  add_roots store certs = Ok store' → ∀ c, c ∈ store' → c ∈ store ∨ c ∈ certs.
Proof.
  revert store. induction certs as [|x certs IH]; intros store H c Hc; simpl in H; [left; congruence|].
  destruct (store_accepts store x); [|done]. destruct (IH _ H c Hc) as [H1|H1]; set_solver.
Qed.

Lemma loaded_mono v w names names' ca p : names ⊆ names' → loaded v w names ca p → loaded v w names' ca p.
Proof. intros Hs (n & c & r & Hn & H). exists n, c, r. split; [by apply Hs|done]. Qed.

Lemma add_trust_loaded v w names name e t t' :
  loaded_all v w names t → name ∈ names → stored_cert v w (trim_start_pat "cert/" name) = Ok (Some e) →
  ct_certificate e ≠ [] → add_trust e t = Ok t' → loaded_all v w names t'.
Proof.
  intros [H1 H2 H3] Hn He Hne H. unfold add_trust in H.
  destruct (ct_certificate e) as [|c rest] eqn:Ec; [done|]. cbn -[add_roots] in H.
  assert (∀ ca, Certs.is_ca_cert c = ca →
    loaded v w names ca {| pc_entry := e; pc_certs := (c :: rest ++ ct_ocsp_ca_certificates e)%list |}) as Hl.
  { intros ca Hca. exists name, c, rest. unfold certs_of. simpl. rewrite Ec. done. }
  destruct (Certs.is_ca_cert c) eqn:Eca.
  - destruct (add_roots _ _) as [rs| |] eqn:Er; [|done..]. simpl in H. injection H as <-. split; simpl; [|done|].
    + intros p [Hp|Hp]%elem_of_app; [auto|]. apply list_elem_of_singleton in Hp as ->. by apply Hl.
    + intros x Hx. destruct (add_roots_elem _ _ _ Er x Hx) as [Hx'|Hx'].
      * destruct (H3 x Hx') as (p & Hp & Hc). exists p. split; [set_solver|done].
      * eexists. split; [apply elem_of_app; right; by apply list_elem_of_singleton|done].
  - injection H as <-. split; simpl; [done| |done].
    intros p [Hp|Hp]%elem_of_app; [auto|]. apply list_elem_of_singleton in Hp as ->. by apply Hl.
Qed.

Lemma load_trusted_loop_ok v names0 names w crls req t s' t' :
  serves v w req → names ⊆ names0 → loaded_all v w names0 t →
  load_trusted_loop names t ((w, crls), req) = (s', Ok t') →
  s' = ((w, crls), req) ∧ loaded_all v w names0 t'.
Proof.
  intros Hv. revert t. induction names as [|name names IH]; intros t Hsub Ht H; simpl in H.
  { apply st_ret_ok in H as [<- ->]. done. }
  inv_steps. match goal with H : get_cert _ _ = _ |- _ => apply (get_cert_ok v) in H as [-> He]; [|done] end.
  assert (names ⊆ names0) by set_solver.
  destruct a as [e|]; [|by apply (IH t)].
  destruct (ct_certificate e) as [|c rest] eqn:Ec; [by apply (IH t)|].
  inv_run. eapply IH; [done| |exact H]. eapply add_trust_loaded; [done| |done|by rewrite Ec|done]. set_solver.
Qed.

Lemma no_trust_loaded v w names : loaded_all v w names no_trust.
Proof. split; intros ? H; by apply elem_of_nil in H. Qed.

(** Only the role asked for is loaded, if one is. *)
Lemma load_trusted_certs_ok v name w crls req s' t :
  serves v w req → load_trusted_certs name ((w, crls), req) = (s', Ok t) →
  s' = ((w, crls), req) ∧ ∃ names, loaded_all v w names t ∧ (name ≠ "" → names = [name]).
Proof.
  intros Hv H. unfold load_trusted_certs in H. inv_steps.
  match goal with H : load_trusted_loop ?l _ ?s = _ |- _ => rename l into names;
    assert (s = ((w, crls), req) ∧ (name ≠ "" → names = [name])) as [-> Hn] end.
  { destruct (is_empty name) eqn:E.
    - apply is_empty_spec in E as ->.
      match goal with H : stored _ _ = _ |- _ => apply stored_ok in H as (w' & req' & Hl & ->) end.
      unfold req_list in Hl. by injection Hl as <- <-.
    - match goal with H : st_ret _ _ = _ |- _ => by apply st_ret_ok in H as [<- ->] end. }
  eapply (load_trusted_loop_ok v names names) in H as [-> Ht]; [|done|done|apply no_trust_loaded]. eauto.
Qed.

(** *** The choice of a role *)

Lemma first_match_ok test l errs (p : ParsedCert X509) :
  first_match test l errs = Ok (inl p) → p ∈ l ∧ test p = Some (Ok true).
Proof.
  revert errs. induction l as [|x l IH]; intros errs H; [done|]. simpl in H.
  destruct (test x) as [[[]|e|]|] eqn:E; try done;
    try (apply IH in H as [? ?]; split; [by apply list_elem_of_further|done]).
  injection H as ->. split; [apply list_elem_of_here|done].
Qed.

Lemma choose_ok crls client chain t (p : ParsedCert X509) :
  choose crls client chain t = Ok p →
  (p ∈ trusted_non_ca t ∧ (∃ crt rest, pc_certs p = crt :: rest ∧ same_leaf crt client = true) ∧
   matches_constraints crls client (pc_certs p) p (ocsp_config t) = Ok true) ∨
  (p ∈ trusted t ∧ (∃ crt x, crt ∈ pc_certs p ∧ x ∈ chain ∧ x509_eqb crt x = true) ∧
   matches_constraints crls client chain p (ocsp_config t) = Ok true).
Proof.
  unfold choose. intros H. destruct (first_match _ (trusted_non_ca t) _) as [[q|errs]| |] eqn:E; try done; simpl in H.
  - injection H as ->. left. apply first_match_ok in E as [Hp Ht]. unfold non_ca_test in Ht.
    destruct (pc_certs p) as [|crt rest] eqn:Ec; [done|]. destruct (same_leaf crt client) eqn:El; [|done].
    injection Ht as Ht. split_and!; eauto.
  - destruct chain as [|c chain]; [done|].
    destruct (first_match _ (trusted t) _) as [[q|errs']| |] eqn:E'; try done; simpl in H; [|by destruct errs'].
    injection H as ->. right. apply first_match_ok in E' as [Hp Ht]. unfold ca_test in Ht.
    destruct (existsb _ (pc_certs p)) eqn:Ex; [|done]. injection Ht as Ht. split_and!; [done| |done].
    apply existsb_exists in Ex as (crt & Hcrt & (x & Hx & Heq)%existsb_exists). exists crt, x.
    split_and!; [by apply list_elem_of_In..|done].
Qed.

(** *** Revocation *)

(** A certificate one of the cached lists has. *)
Definition revoked crls (c : X509) : Prop :=
  ∃ name info text, crls !! name = Some info ∧ bn_dec (Certs.x509_serial c) = Some text ∧
    to_lowercase text ∈ serials info.

Lemma find_serial_spec crls serial bad :
  find_serial_in_crls crls serial = Ok bad →
  ∃ text, bn_dec serial = Some text ∧
    (bad = ∅ ↔ ∀ name info, crls !! name = Some info → to_lowercase text ∉ serials info).
Proof.
  unfold find_serial_in_crls. destruct (bn_dec serial) as [text|]; [|done]. simpl. intros [= <-].
  exists text. split; [done|]. rewrite dom_empty_iff_L, map_empty. setoid_rewrite map_lookup_filter_None. split.
  - intros H name info Hi. destruct (H name) as [Hn|Hn]; [congruence|]. by apply (Hn info).
  - intros H name. destruct (crls !! name) as [info|] eqn:E; [right|by left]. intros x [= <-]. by apply (H name).
Qed.

Lemma check_for_chain_spec crls (chain : list X509) :
  check_for_chain_in_crls crls chain = false ↔ ∀ c, c ∈ chain → ¬ revoked crls c.
Proof.
  induction chain as [|c chain IH]; simpl.
  { split; [|done]. intros _ c H. by apply elem_of_nil in H. }
  setoid_rewrite elem_of_cons.
  destruct (find_serial_in_crls crls (Certs.x509_serial c)) as [bad|e|] eqn:E.
  - apply find_serial_spec in E as (text & Ht & Hb). destruct (bool_decide_reflect (bad = ∅)) as [He|He].
    + rewrite IH. split; [|naive_solver]. intros H c' [->|Hc']; [|auto].
      intros (n & i & x & Hi & Hx & Hin). rewrite Ht in Hx. injection Hx as <-. by eapply Hb.
    + split; [done|]. intros H. exfalso. apply He, Hb. intros n i Hi Hin.
      apply (H c); [by left|]. exists n, i, text. done.
  - unfold find_serial_in_crls in E. destruct (bn_dec _) eqn:Eb; [done|]. rewrite IH.
    split; [|naive_solver]. intros H c' [->|Hc']; [|auto]. intros (n & i & x & _ & Hx & _). congruence.
  - unfold find_serial_in_crls in E. by destruct (bn_dec _).
Qed.

(** What the constraints of a role demand of the client's certificate. *)
Definition names_allowed (c : X509) (p : ParsedCert X509) : Prop :=
  matches_names c p = true ∧ matches_common_name c p = true ∧ matches_dns_sans c p = true ∧
  matches_email_sans c p = true ∧ matches_uri_sans c p = true ∧ matches_organizational_units c p = true ∧
  matches_certificate_extensions c p = Ok true.

Lemma matches_constraints_spec crls client chain (p : ParsedCert X509) ocsp :
  matches_constraints crls client chain p ocsp = Ok true ↔
  (∀ c, c ∈ chain → ¬ revoked crls c) ∧ names_allowed client p.
Proof.
  unfold matches_constraints, names_allowed, check_for_cert_in_ocsp.
  rewrite <- check_for_chain_spec.
  replace (if negb (enable ocsp) || (length chain <? 2)%nat then Ok true else Ok true)
    with (Ok true : result bool) by (by destruct (_ || _)).
  destruct (check_for_chain_in_crls crls chain), (matches_names client p), (matches_common_name client p),
    (matches_dns_sans client p), (matches_email_sans client p), (matches_uri_sans client p),
    (matches_organizational_units client p); simpl; try (destruct (ct_ocsp_enabled (pc_entry p)); naive_solver).
  destruct (matches_certificate_extensions client p) as [[]| |]; destruct (ct_ocsp_enabled (pc_entry p)); simpl; naive_solver.
Qed.

(** ** Login *)

Lemma now_ok w crls req s' t :
  stored (on_world now) ((w, crls), req) = (s', Ok t) → ∃ w', s' = ((w', crls), req).
Proof. intros (w' & req' & (w2 & [= -> ->] & _)%on_world_ok & ->)%stored_ok. eauto. Qed.

Lemma validate_cert_ok roots cert others w crls req s' chain :
  validate_cert roots (cert :: others) ((w, crls), req) = (s', Ok chain) →
  (∃ w', s' = ((w', crls), req)) ∧
  (chain = [] ∨ ∃ code built, chain_verify roots cert others = Some (true, code, built) ∧
                              chain = List.filter for_clients built).
Proof.
  intros H. unfold validate_cert in H. inv_run.
  destruct (chain_verify roots cert others) as [[[verified code] built]|]; [|done].
  simpl in *. simplify_eq. destruct verified.
  - apply st_ret_ok in H as [<- ->]. eauto 10.
  - destruct (issuer_missing code); [|done]. inv_steps.
    match goal with H : stored _ _ = _ |- _ => apply now_ok in H as [w' ->] end.
    destruct (_ <=? _)%Z; [done|]. apply st_ret_ok in H as [<- ->]. eauto.
Qed.

(** How a role vouches for the certificate a client presented. *)
Inductive vouched v w crls (name : string) (client : X509) (others : list X509) (p : ParsedCert X509) : Prop :=
  | vouched_leaf names crt rest :
      (name ≠ "" → names = [name]) → loaded v w names false p →
      pc_certs p = crt :: rest → same_leaf crt client = true →
      (∀ c, c ∈ pc_certs p → ¬ revoked crls c) →
      vouched v w crls name client others p
  | vouched_chain names roots code built crt x :
      (name ≠ "" → names = [name]) → loaded v w names true p →
      (∀ c, c ∈ roots → ∃ q, loaded v w names true q ∧ c ∈ pc_certs q) →
      chain_verify roots client others = Some (true, code, built) →
      crt ∈ pc_certs p → x ∈ built → x509_eqb crt x = true → for_clients x = true →
      (∀ c, c ∈ built → for_clients c = true → ¬ revoked crls c) →
      vouched v w crls name client others p.

Lemma verify_credentials_ok v w crls req s' p :
  serves v w req → verify_credentials ((w, crls), req) = (s', Ok p) →
  ∃ conn client others, connection req = Some conn ∧ peer_certs conn = client :: others ∧
    vouched v w crls (role_name req) client others p ∧ names_allowed client p.
Proof.
  intros Hv H. unfold verify_credentials in H. inv_run.
  destruct (connection req) as [conn|]; [|done]. destruct (peer_certs conn) as [|client others] eqn:Ep; [done|].
  inv_steps. match goal with H : load_trusted_certs _ _ = _ |- _ =>
    apply (load_trusted_certs_ok v) in H as (-> & names & [Ht Hn Hr] & Hnames); [|done] end.
  match goal with H : validate_cert _ _ _ = _ |- _ => apply validate_cert_ok in H as ([w' ->] & Hchain) end.
  match goal with H : get_crls _ = _ |- _ => injection H as <- <- end.
  apply st_lift_ok in H as [H _]. exists conn, client, others.
  apply choose_ok in H as [(Hp & (crt & rest & Hc & Hs) & [Hrev Hok]%matches_constraints_spec)
                          |(Hp & (crt & x & Hcrt & Hx & Heq) & [Hrev Hok]%matches_constraints_spec)].
  - split_and!; [done..| |done]. by eapply vouched_leaf; eauto.
  - split_and!; [done..| |done]. destruct Hchain as [->|(code & built & Hver & ->)]; [by apply elem_of_nil in Hx|].
    assert (∀ c, c ∈ List.filter for_clients built ↔ c ∈ built ∧ for_clients c = true) as Hf.
    { intros c. rewrite !list_elem_of_In. apply filter_In. }
    apply Hf in Hx as [Hx Hfc]. apply (vouched_chain _ _ _ _ _ _ _ names (roots a) code built crt x); auto.
    + intros c Hc. destruct (Hr c Hc) as (q & Hq & Hcq). eauto.
    + intros c Hc Hcc. apply Hrev, Hf. done.
Qed.

(** A granted login verified the credentials and the client's address. *)
Lemma login_granted v w crls req s' resp (a : Auth) :
  serves v w req → login ((w, crls), req) = (s', Ok (Some resp)) → resp_auth resp = Some a →
  ∃ conn p s1, connection req = Some conn ∧ verify_credentials ((w, crls), req) = (s1, Ok p) ∧
    (let cidrs := tp_token_bound_cidrs (ct_token_params (pc_entry p)) in
     cidrs = [] ∨ Cidr.remote_addr_is_ok (peer_addr conn) cidrs = true) ∧
    policies a = tp_token_policies (ct_token_params (pc_entry p)) ∧
    display_name a = ct_display_name (pc_entry p).
Proof.
  intros Hv H Ha. unfold login, get_config in H. inv_steps.
  match goal with H : stored _ _ = _ |- _ => apply stored_ok in H as (w' & req' & Hg & ->) end.
  apply (get_json_ok v) in Hg as [[= -> ->] _]; [|done]. inv_run. subst. inv_run.
  destruct (connection req) as [conn|] eqn:Ec; [|done].
  destruct (peer_certs conn) as [|client others]; [done|]. inv_run.
  match goal with H : verify_credentials _ = (?s1, Ok ?p) |- _ => exists conn, p, s1; rename H into Hvc end.
  simplify_eq/=. split_and!; [done|done| |done..]. cbv zeta.
  destruct (tp_token_bound_cidrs _); [by left|right]. by apply negb_false_iff.
Qed.

(** C32: a login is granted only when a stored role vouches for the certificate
    the client presented, in one of two ways.  The role trusts a leaf with the
    same serial number and issuer key identifier, and no certificate of the role
    is on a cached revocation list; or OpenSSL verified a chain from the client's
    certificate to the certificates of the stored authorities, a certificate of
    the role occurs among those of the chain that are allowed for clients, and
    none of these is on a cached revocation list (the other certificates of the
    chain, the client's among them, are not looked up there).  In both cases the
    names and extensions the role demands are there, the client's address lies in
    the role's blocks, and the token gets the role's policies. *)
Theorem cert_login_sound v w crls req s' resp (a : Auth) :
  serves v w req → login ((w, crls), req) = (s', Ok (Some resp)) → resp_auth resp = Some a →
  ∃ conn client others p, connection req = Some conn ∧ peer_certs conn = client :: others ∧
    vouched v w crls (role_name req) client others p ∧ names_allowed client p ∧
    (let cidrs := tp_token_bound_cidrs (ct_token_params (pc_entry p)) in
     cidrs = [] ∨ Cidr.remote_addr_is_ok (peer_addr conn) cidrs = true) ∧
    policies a = tp_token_policies (ct_token_params (pc_entry p)) ∧
    display_name a = ct_display_name (pc_entry p).
Proof.
  intros Hv H Ha. destruct (login_granted v w crls req s' resp a Hv H Ha) as (conn & p & s1 & Hc & Hvc & Hcidr & Hp & Hd).
  destruct (verify_credentials_ok v w crls req s1 p Hv Hvc) as (conn' & client & others & Hc' & Hpeer & Hvouch & Hnames).
  simplify_eq. by exists conn, client, others, p.
Qed.

(** *** What a trusted leaf is recognised by *)

Lemma get_cert_run v name w crls req :
  serves v w req → sane ("cert/" ++ to_lowercase name) →
  get_cert name ((w, crls), req) = (((w, crls), req), stored_cert v w name).
Proof.
  intros Hv Hs. unfold get_cert, stored_cert.
  pose proof (get_json_run v (entry_of_json (X509 := X509)) _ w req Hv Hs) as Hg.
  destruct (at_key v entry_of_json w ("cert/" ++ to_lowercase name)) as [e|e|].
  - by rewrite (st_bind_run _ _ _ ((w, crls), req) e (stored_run _ _ _ _ _ _ _ Hg)).
  - unfold st_bind. by rewrite (stored_run _ _ _ _ _ _ _ Hg).
  - unfold st_bind. by rewrite (stored_run _ _ _ _ _ _ _ Hg).
Qed.

Lemma get_config_run v w crls req c :
  serves v w req → at_key v config_of_json w "config" = Ok c →
  ∃ c', get_config ((w, crls), req) = (((w, crls), req), Ok (Some c')).
Proof.
  intros Hv Hc. unfold get_config.
  pose proof (get_json_run v config_of_json "config" w req Hv eq_refl) as Hg. rewrite Hc in Hg.
  rewrite (st_bind_run _ _ _ ((w, crls), req) c (stored_run _ _ _ _ _ _ _ Hg)). by eexists.
Qed.


Lemma load_one v w crls req name e crt rest :
  serves v w req → sane ("cert/" ++ to_lowercase name) → name ≠ "" → trim_start_pat "cert/" name = name →
  stored_cert v w name = Ok (Some e) → ct_certificate e = crt :: rest → Certs.is_ca_cert crt = false →
  load_trusted_certs name ((w, crls), req) =
  (((w, crls), req),
   Ok {| roots := []; trusted := []; trusted_non_ca := [{| pc_entry := e; pc_certs := certs_of e |}];
         ocsp_config := add_ocsp e (ocsp_config no_trust) |}).
Proof.
  intros Hv Hs Hne Htrim He Hc Hca. unfold load_trusted_certs. rewrite is_empty_false by done.
  rewrite (st_bind_run _ _ _ ((w, crls), req) [name]) by done. cbn [load_trusted_loop]. rewrite Htrim.
  rewrite (st_bind_run _ _ _ ((w, crls), req) (Some e)) by (by rewrite (get_cert_run v), He).
  rewrite Hc. unfold add_trust. rewrite Hc. cbn [app head hd_error unwrap]. unfold st_bind, st_lift. simpl.
  rewrite Hca. simpl. unfold certs_of. by rewrite Hc.
Qed.

Lemma validate_unknown_issuer w crls req client others chain :
  chain_verify [] client others = Some (false, X509_V_ERR_UNABLE_TO_GET_ISSUER_CERT_LOCALLY, chain) →
  (clock_at (w_ticks w) / NANOS < cf_not_after (x509_tbs client))%Z →
  ∃ w', validate_cert [] (client :: others) ((w, crls), req) = (((w', crls), req), Ok []).
Proof.
  intros Hver Hexp. unfold validate_cert. rewrite Hver. eexists.
  rewrite (st_bind_run _ _ _ ((w, crls), req) _) by done. cbv beta iota.
  replace (issuer_missing X509_V_ERR_UNABLE_TO_GET_ISSUER_CERT_LOCALLY) with true by done. cbv iota.
  rewrite (st_bind_run _ _ _ (((now w).1, crls), req) (clock_at (w_ticks w))) by done.
  rewrite (proj2 (Z.leb_gt _ _) Hexp). done.
Qed.

Lemma choose_leaf crls client (p : ParsedCert X509) ocsp crt rest :
  pc_certs p = crt :: rest → same_leaf crt client = true →
  (∀ c, c ∈ pc_certs p → ¬ revoked crls c) → names_allowed client p →
  choose crls client [] {| roots := []; trusted := []; trusted_non_ca := [p]; ocsp_config := ocsp |} = Ok p.
Proof.
  intros Hp Hs Hrev Hok. unfold choose. cbn [first_match trusted_non_ca ocsp_config]. unfold non_ca_test.
  rewrite Hp, Hs, <- Hp. by rewrite (proj2 (matches_constraints_spec crls client (pc_certs p) p ocsp) (conj Hrev Hok)).
Qed.

(** A client whose certificate has the serial number and the issuer key
    identifier of a role's trusted leaf logs in as that role, whatever key the
    certificate holds and whoever signed it: when OpenSSL finds no issuer the
    certificate is not verified any further. *)
Theorem leaf_login_ignores_key v w crls req conn client others e crt rest chain common_name sn cfg :
  serves v w req → at_key v config_of_json w "config" = Ok cfg →
  connection req = Some conn → peer_certs conn = client :: others →
  let name := role_name req in
  name ≠ "" → trim_start_pat "cert/" name = name → sane ("cert/" ++ to_lowercase name) →
  stored_cert v w name = Ok (Some e) → ct_certificate e = crt :: rest → Certs.is_ca_cert crt = false →
  Certs.x509_serial client = Certs.x509_serial crt → is_Some (x509_authority_key_id crt) →
  x509_authority_key_id client = x509_authority_key_id crt →
  chain_verify [] client others = Some (false, X509_V_ERR_UNABLE_TO_GET_ISSUER_CERT_LOCALLY, chain) →
  (clock_at (w_ticks w) / NANOS < cf_not_after (x509_tbs client))%Z →
  names_allowed client {| pc_entry := e; pc_certs := certs_of e |} →
  (∀ c, c ∈ certs_of e → ¬ revoked crls c) →
  ct_allowed_metadata_extensions e = [] → tp_token_bound_cidrs (ct_token_params e) = [] →
  x509_subject_entry client "CN" = Some (Some common_name) → bn_dec (Certs.x509_serial client) = Some sn →
  ∃ s' resp a, login ((w, crls), req) = (s', Ok (Some resp)) ∧ resp_auth resp = Some a ∧
    policies a = tp_token_policies (ct_token_params e) ∧ display_name a = ct_display_name e.
Proof.
  intros Hv Hcfg Hconn Hpeer name Hne Htrim Hs He Hc Hca Hserial [k Hk] Haki Hver Hexp Hok Hrev Hmeta Hcidr Hcn Hsn.
  destruct (get_config_run v w crls req cfg Hv Hcfg) as [c' Hcr]. unfold login.
  rewrite (st_bind_run _ _ _ _ _ Hcr). cbv beta iota. rewrite (st_bind_run _ _ _ ((w, crls), req) req) by done.
  rewrite Hconn, Hpeer, Hcn. rewrite (st_bind_run _ _ _ ((w, crls), req) common_name) by done.
  rewrite (st_bind_run _ _ _ ((w, crls), req) sn) by (by rewrite Hsn).
  assert (∃ w', verify_credentials ((w, crls), req) =
    (((w', crls), req), Ok {| pc_entry := e; pc_certs := certs_of e |})) as [w' Hvc].
  { unfold verify_credentials. rewrite (st_bind_run _ _ _ ((w, crls), req) req) by done. rewrite Hconn, Hpeer.
    fold name. rewrite (st_bind_run _ _ _ _ _ (load_one v w crls req name e crt rest Hv Hs Hne Htrim He Hc Hca)).
    destruct (validate_unknown_issuer w crls req client others chain Hver Hexp) as [w' Hval]. exists w'.
    rewrite (st_bind_run _ _ _ _ _ Hval), (st_bind_run _ _ _ ((w', crls), req) crls) by done.
    unfold st_lift. rewrite (choose_leaf _ _ _ _ crt (rest ++ ct_ocsp_ca_certificates e)%list); try done.
    - unfold certs_of. simpl. by rewrite Hc.
    - unfold same_leaf. rewrite Haki, Hk, Hserial, Z.eqb_refl. by rewrite bool_decide_true. }
  rewrite (st_bind_run _ _ _ _ _ Hvc). cbv zeta. simpl pc_entry. rewrite Hcidr.
  rewrite (st_bind_run _ _ _ ((w', crls), req) tt) by done.
  rewrite (st_bind_run _ _ _ (((now w').1, crls), req) (clock_at (w_ticks w'))) by done.
  unfold certificate_extensions_metadata. simpl pc_entry. rewrite Hmeta.
  rewrite (st_bind_run _ _ _ (((now w').1, crls), req) ∅) by done. by do 3 eexists.
Qed.

(** *** Revocation lists *)

(** A handler that leaves the cache of revocation lists as it was, whatever its
    outcome. *)
Definition keeps {A} (m : st (World S Q C * gmap string CRLInfo * Request) RvError A) : Prop :=
  ∀ s, snd (fst (fst (m s))) = snd (fst s).

Lemma keeps_crls_bind {A B} (m : st _ RvError A) (k : A → st _ RvError B) :
  keeps m → (∀ a, keeps (k a)) → keeps (st_bind m k).
Proof.
  intros Hm Hk s. unfold st_bind. specialize (Hm s). destruct (m s) as [s' [a|e|]]; simpl in *; [|done..].
  by rewrite Hk.
Qed.

Lemma keeps_stored {A} (m : st (World S Q C * Request) RvError A) : keeps (stored m).
Proof. intros [[w crls] req]. unfold stored. by destruct (m (w, req)) as [[w' req'] r]. Qed.

Lemma keeps_pure {A} (f : _ → outcome RvError A) : keeps (λ s, (s, f s)).
Proof. done. Qed.

Lemma keeps_get_req : keeps get_req.
Proof. by intros [w req]. Qed.

Lemma keeps_crls_guard b e : keeps (st_guard b e).
Proof. by destruct b. Qed.

Ltac keeps :=
  repeat first
  [ apply keeps_crls_bind; [|intros ?]
  | apply keeps_stored | apply keeps_get_req | apply keeps_crls_guard
  | apply (keeps_pure (λ _, _)) | progress intros [] | case_match ].

Lemma keeps_get_cert name : keeps (get_cert name).
Proof. unfold get_cert. keeps. Qed.

Lemma keeps_load_loop names t : keeps (load_trusted_loop names t).
Proof.
  revert t. induction names as [|name names IH]; intros t; simpl; [done|].
  apply keeps_crls_bind; [apply keeps_get_cert|]. intros [e|]; [|done]. case_match; [done|].
  apply keeps_crls_bind; [done|]. intros t'. apply IH.
Qed.

Lemma keeps_verify_credentials : keeps verify_credentials.
Proof.
  unfold verify_credentials. apply keeps_crls_bind; [apply keeps_get_req|]. intros req.
  case_match; [|done]. case_match; [done|]. apply keeps_crls_bind.
  { unfold load_trusted_certs. apply keeps_crls_bind; [case_match; [apply keeps_stored|done]|].
    intros names. apply keeps_load_loop. }
  intros tr. apply keeps_crls_bind; [|intros chain; by apply keeps_crls_bind].
  unfold validate_cert. keeps; done.
Qed.

(** A login reads no stored revocation list and leaves the cache as it was:
    as long as no request for a revocation list fills the empty cache of a
    restarted server, revoked certificates pass as if there were none. *)
Theorem login_reads_no_crl w crls req :
  snd (fst (fst (login ((w, crls), req)))) = crls ∧
  ∀ client chain (p : ParsedCert X509) ocsp,
    matches_constraints ∅ client chain p ocsp = Ok true ↔ names_allowed client p.
Proof.
  split.
  - apply (λ H : keeps login, H ((w, crls), req)). unfold login, get_config.
    apply keeps_crls_bind; [keeps; done|]. intros [c|]; [|done]. apply keeps_crls_bind; [apply keeps_get_req|].
    intros r. case_match; [|done]. case_match; [done|]. do 2 (apply keeps_crls_bind; [done|]; intros ?).
    apply keeps_crls_bind; [apply keeps_verify_credentials|]. intros p. keeps; done.
  - intros client chain p ocsp. rewrite matches_constraints_spec. split; [by intros [_ ?]|].
    intros H. split; [|done]. intros c _ (n & i & x & Hi & _). by rewrite lookup_empty in Hi.
Qed.

Lemma set_crls_ok c s s' u : set_crls (S := S) (Q := Q) (C := C) c s = (s', Ok u) → snd (fst s') = c.
Proof. destruct s as [[w crls] req]. by intros [= <- _]. Qed.

Lemma revoked_serials_elem l s z sn :
  revoked_serials l = Ok s → z ∈ l → bn_dec z = Some sn → to_lowercase sn ∈ s.
Proof.
  unfold revoked_serials. destruct (mapM bn_dec l) as [texts|] eqn:E; [|done]. simpl. intros [= <-] Hz Hsn.
  apply elem_of_list_to_set, list_elem_of_fmap. exists sn. split; [done|].
  apply mapM_Some in E. apply list_elem_of_lookup in Hz as [i Hi].
  destruct (Forall2_lookup_l _ _ _ _ _ E Hi) as (x & Hx & Hd).
  apply list_elem_of_lookup. exists i. congruence.
Qed.

Lemma set_crl_ok l name c s s' u :
  set_crl (S := S) (Q := Q) (C := C) (Some l) name c s = (s', Ok u) →
  ∃ ser info, revoked_serials l = Ok ser ∧ snd (fst s') !! name = Some info ∧ serials info = ser.
Proof.
  intros H. unfold set_crl in H. inv_run. apply set_crls_ok in H. rewrite H, lookup_insert_eq. eauto.
Qed.

(** Writing a revocation list makes every certificate with one of its
    serial numbers revoked for the logins that follow. *)
Theorem crl_write_revokes w crls req w' crls' req' r text l (c : X509) sn :
  write_crl ((w, crls), req) = (((w', crls'), req'), Ok r) →
  RequestOps.get_data req "crl" = Ok (VStr text) → crl_from_pem (str_bytes text) = Some l →
  Certs.x509_serial c ∈ l → bn_dec (Certs.x509_serial c) = Some sn → revoked crls' c.
Proof.
  intros H Hd Hl Hin Hsn. unfold write_crl, crl_name, data_as_str in H. inv_run. rewrite Hd in *. inv_run.
  match goal with H : set_crl _ _ _ _ = _ |- _ => apply set_crl_ok in H as (ser & info & Hs & Hi & Hser) end.
  unfold read_crl_pem, valid in *. simpl in *. simplify_eq. rewrite Hl in *. simpl in *. simplify_eq.
  injection H as -> _. simpl in Hi. eexists _, info, sn. split_and!; [done|done|]. by eapply revoked_serials_elem.
Qed.

End correct.

(** ** A concrete mount *)
Section witnesses.
#[local] Existing Instance demo_storage.
#[local] Existing Instance demo_storage_spec.
#[local] Existing Instance demo_clock.
#[local] Existing Instance json_map.
#[local] Existing Instance json_map_laws.
#[local] Existing Instance no_durations.
#[local] Existing Instance no_json.
#[local] Existing Instance BinaryNet.binary_net.
#[local] Existing Instance toy_x509.
#[local] Existing Instance lower_hex.

(** The issuer is known by its name, a chain has two certificates at most, and
    a revocation list is the text of its numbers. *)
#[local] Instance toy_login : OpensslLogin CertFields := {|
  x509_authority_key_id c := Some (concat (map (λ kv, str_bytes (snd kv)) (cf_issuer c)));
  x509_subject_entry c n := Some <$> (list_to_map (cf_subject c) : gmap string string) !! n;
  x509_alt_names _ := None;
  x509_ext_list _ := [];
  x509_eqb a b := bool_decide (a = b);
  x509_stack_from_pem b := (λ c, [c]) <$> x509_from_pem b;
  bn_dec z := Some (z_text z);
  store_accepts _ _ := true;
  chain_verify roots c _ :=
    Some (match List.find (λ r, bool_decide (cf_subject r = cf_issuer c)) roots with
          | Some r => (true, 0%Z, [c; r])
          | None => (false, 20%Z, [c])
          end);
  verify_error_text _ := "";
  crl_from_pem b := Some (map (λ x, Z.of_N (Byte.to_N x)) b)
|}.
#[local] Instance literal_glob : Glob := fun p => Some (String.eqb p).
#[local] Instance no_base64_text : Base64Encode := fun _ => "".
#[local] Instance any_url : UrlParser := fun _ => true.
#[local] Instance no_network : HttpGet := fun _ => Err UreqError.
#[local] Instance no_debug : DebugErrors := fun _ => "".

Abbreviation DW := (World DemoStore LeaseList unit).
Definition cert_view : BarrierView.t := BarrierView.new "auth/2/".
Definition cert_world : DW :=
  {| w_store := demo_barrier; w_ticks := 0; w_uuids := 0; w_queue := []; w_queue_held := false; w_deadlock := false;
     w_policy_types := ∅; w_token_policies_lru := tt; w_egp_lru := tt |}.

Abbreviation role_path := (fst (CertAuth.certs_path (PKey := nat) (S := DemoStore) (Q := LeaseList) (C := unit))).
Abbreviation crl_path := (fst (CertAuth.crl_path (X509 := CertFields) (S := DemoStore) (Q := LeaseList) (C := unit))).
Abbreviation login_path := (fst (CertAuth.login_path (PKey := nat) (S := DemoStore) (Q := LeaseList) (C := unit))).

Definition cert_request (p : Path) (m : gmap string Value) : Request :=
  set_storage (Some cert_view) (set_match_path (Some p) (set_body (Some m) (RequestOps.new "cert"))).

(** A trusted leaf, and another certificate that only has its numbers. *)
Definition leaf (key : bytes) : CertFields :=
  {| cf_version := 2; cf_serial := 7; cf_subject := [("CN", "host")]; cf_issuer := [("CN", "ca")];
     cf_pubkey := key; cf_not_before := 0; cf_not_after := 10 ^ 12; cf_extensions := [] |}.

Definition pem_text (c : CertFields) : string := String.string_of_list_byte (pos_bytes (encode c)).
Definition write_host : Request :=
  cert_request role_path {["name" := VStr "Host"; "certificate" := VStr (pem_text (leaf [x01]));
                           "token_policies" := VStr "dev"]}.
Definition host_world : DW := fst (fst (fst (CertAuth.write_cert (PKey := nat) ((cert_world, ∅), write_host)))).
Definition login_as (c : CertFields) : Request :=
  set_connection (Some {| peer_addr := "10.0.0.1"; peer_tls_cert := Some [pos_bytes (encode c)] |})
    (cert_request login_path {["name" := VStr "host"]}).

Definition host : CertEntry CertFields :=
  match stored_cert (PKey := nat) cert_view host_world "host" with Ok (Some e) => e | _ => CertAuth.default end.

Lemma host_serves req : Logical.storage req = Some cert_view → serves cert_view host_world req.
Proof.
  intros Hv. split; [done|]. split; [|apply demo_keys_ok]. split; [apply demo_ready; by vm_compute|].
  apply (bool_decide_unpack _). vm_compute. exact I.
Qed.

Definition host_login := CertAuth.login (PKey := nat) ((host_world, ∅), login_as (leaf [x01])).

Lemma cert_login_sound_witness :
  ∃ p, vouched (PKey := nat) cert_view host_world ∅ "host" (leaf [x01]) [] p ∧ names_allowed (leaf [x01]) p.
Proof.
  destruct (cert_login_sound (PKey := nat) cert_view host_world ∅ (login_as (leaf [x01])) (fst host_login)
    (answer_of (snd host_login))
    (from_option (λ a, a) (TokenStore.default_auth 0) (resp_auth (answer_of (snd host_login)))))
    as (conn & client & others & p & Hc & Hp & Hv & Hn & _).
  - by apply host_serves.
  - apply pair_of_snd, answered_of. vm_compute. reflexivity.
  - vm_compute. reflexivity.
  - assert (CertAuth.peer_certs (PKey := nat) conn = [leaf [x01]]) as E
      by (injection Hc as <-; vm_compute; reflexivity).
    rewrite E in Hp. injection Hp as <- <-. exists p. split; [exact Hv|exact Hn].
Defined.

Lemma leaf_login_ignores_key_witness :
  ∃ s' resp a, CertAuth.login (PKey := nat) ((host_world, ∅), login_as (leaf [x09])) = (s', Ok (Some resp)) ∧
    resp_auth resp = Some a ∧ policies a = ["dev"].
Proof.
  destruct (leaf_login_ignores_key (PKey := nat) cert_view host_world ∅ (login_as (leaf [x09]))
    {| peer_addr := "10.0.0.1"; peer_tls_cert := Some [pos_bytes (encode (leaf [x09]))] |} (leaf [x09]) []
    host (leaf [x01]) [] [leaf [x09]] "host" (z_text 7) None) as (s' & resp & a & Hl & Ha & Hp & _).
  - by apply host_serves.
  - vm_compute. reflexivity.
  - reflexivity.
  - vm_compute. reflexivity.
  - vm_compute. discriminate.
  - vm_compute. reflexivity.
  - vm_compute. reflexivity.
  - vm_compute. reflexivity.
  - vm_compute. reflexivity.
  - vm_compute. reflexivity.
  - reflexivity.
  - by eexists.
  - reflexivity.
  - vm_compute. reflexivity.
  - vm_compute. reflexivity.
  - split_and!; vm_compute; reflexivity.
  - intros c _ (n & i & x & Hi & _). by rewrite lookup_empty in Hi.
  - vm_compute. reflexivity.
  - vm_compute. reflexivity.
  - vm_compute. reflexivity.
  - reflexivity.
  - exists s', resp, a. split; [exact Hl|]. split; [exact Ha|]. rewrite Hp. vm_compute. reflexivity.
Defined.

Definition revoke_request : Request :=
  cert_request crl_path {["name" := VStr "old"; "crl" := VStr (String "007" "")]}.
Definition revoke_outcome := CertAuth.write_crl (X509 := CertFields) ((host_world, ∅), revoke_request).

Lemma crl_write_revokes_witness : revoked (PKey := nat) (snd (fst (fst revoke_outcome))) (leaf [x01]).
Proof.
  apply (crl_write_revokes (PKey := nat) host_world ∅ revoke_request (fst (fst (fst revoke_outcome)))
    (snd (fst (fst revoke_outcome))) (snd (fst revoke_outcome)) None (String "007" "") [7%Z] (leaf [x01]) (z_text 7)).
  - transitivity (fst revoke_outcome, Ok (E := RvError) (None : option Response)).
    + apply pair_of_snd. vm_compute. reflexivity.
    + by destruct (fst revoke_outcome) as [[? ?] ?].
  - vm_compute. reflexivity.
  - vm_compute. reflexivity.
  - apply list_elem_of_here.
  - reflexivity.
Defined.
End witnesses.
