(* ===== verification/ServerConfig.v ===== *)
(** * Server configuration (src/src/cli/config.rs, src/src/cli/command/server.rs)

    [Module ServerConfig] reads a configuration from the value its text stands
    for, with the checks of the deserializers, merges the files of a directory
    and loads them from the file system of [FileBackend]; [Module ServerMain]
    is what the server derives from it before it listens.  The HCL and JSON
    readers are parameters; a structure is read from an object, a repeated field
    is an error, and of repeated keys of a map the last counts. *)

From stdpp Require Import base tactics list gmap strings.
From Stdlib Require Import ZArith Lia Ascii.
From S2P Require Import Prelude Errors RustStr Utils Storage Logical Mount FileBackend.

Local Open Scope string_scope.

(** [hcl::from_reader] and [serde_json::from_reader], up to a value. *)
Class ConfigReader : Type := {
  hcl_value : bytes -> option Value;
  json_value : bytes -> option Value
}.

Inductive SslVersion := TLS1 | TLS1_1 | TLS1_2 | TLS1_3.

Record Listener := {
  ltype : string;
  address : string;
  tls_disable : bool;
  tls_cert_file : string;
  tls_key_file : string;
  tls_client_ca_file : string;
  tls_disable_client_certs : bool;
  tls_require_and_verify_client_cert : bool;
  tls_min_version : SslVersion;
  tls_max_version : SslVersion;
  tls_cipher_suites : string
}.

Record StorageConfig := { stype : string; storage_options : gmap string Value }.

Record Config := {
  listener : gmap string Listener;
  storage_config : gmap string StorageConfig;
  api_addr : string;
  log_format : string;
  log_level : string;
  pid_file : string;
  work_dir : string;
  daemon : bool;
  daemon_user : string;
  daemon_group : string;
  collection_interval : Z;
  config_hmac_level : MountEntryHMACLevel
}.

Module ServerConfig.

Definition STORAGE_TYPE_KEYWORDS : list string := ["file"; "mysql"].

Definition default_hmac_level : MountEntryHMACLevel := HmacNone.
Definition default_collection_interval : Z := 15.
Definition default_bool_true : bool := true.
Definition default_tls_min_version : SslVersion := TLS1_2.
Definition default_tls_max_version : SslVersion := TLS1_3.
Definition default_tls_cipher_suites : string := "HIGH:!PSK:!SRP:!3DES".

(** ** Fields *)

(** The values given for a field. *)
Definition given (k : string) (m : list (string * Value)) : list Value :=
  omap (fun kv => if String.eqb (fst kv) k then Some (snd kv) else None) m.

(** A field read with [f], or its default when there is none. *)
Definition field_or {A} (d : option A) (f : Value -> option A) (k : string) (m : list (string * Value)) : option A :=
  match given k m with
  | [] => d
  | [v] => f v
  | _ => None
  end.

Definition parse_bool_string (v : Value) : option bool :=
  match v with
  | VBool b => Some b
  | VStr s => if String.eqb s "true" then Some true else if String.eqb s "false" then Some false else None
  | _ => None
  end.

Definition serialize_tls_version (version : SslVersion) : string :=
  match version with
  | TLS1 => "tls10"
  | TLS1_1 => "tls11"
  | TLS1_2 => "tls12"
  | TLS1_3 => "tls13"
  end.

Definition deserialize_tls_version (v : Value) : option SslVersion :=
  match v with
  | VStr s =>
      if String.eqb s "tls10" then Some TLS1
      else if String.eqb s "tls11" then Some TLS1_1
      else if String.eqb s "tls12" then Some TLS1_2
      else if String.eqb s "tls13" then Some TLS1_3
      else None
  | _ => None
  end.

Definition hmac_level_of (v : Value) : option MountEntryHMACLevel :=
  match v with
  | VStr s =>
      if String.eqb s "none" then Some HmacNone
      else if String.eqb s "compat" then Some Compat
      else if String.eqb s "high" then Some High
      else None
  | _ => None
  end.

Definition listener_of (v : Value) : option Listener :=
  m ← as_object v;
  ty ← field_or (Some "") as_str "ltype" m;
  addr ← field_or None as_str "address" m;
  disable ← field_or (Some default_bool_true) parse_bool_string "tls_disable" m;
  cert ← field_or (Some "") as_str "tls_cert_file" m;
  key ← field_or (Some "") as_str "tls_key_file" m;
  ca ← field_or (Some "") as_str "tls_client_ca_file" m;
  no_client ← field_or (Some false) parse_bool_string "tls_disable_client_certs" m;
  require ← field_or (Some false) parse_bool_string "tls_require_and_verify_client_cert" m;
  min ← field_or (Some default_tls_min_version) deserialize_tls_version "tls_min_version" m;
  max ← field_or (Some default_tls_max_version) deserialize_tls_version "tls_max_version" m;
  suites ← field_or (Some default_tls_cipher_suites) as_str "tls_cipher_suites" m;
  Some {| ltype := ty; address := addr; tls_disable := disable; tls_cert_file := cert; tls_key_file := key;
          tls_client_ca_file := ca; tls_disable_client_certs := no_client;
          tls_require_and_verify_client_cert := require; tls_min_version := min; tls_max_version := max;
          tls_cipher_suites := suites |}.

(** All fields but [stype] are options of the backend. *)
Definition storage_of (v : Value) : option StorageConfig :=
  m ← as_object v;
  ty ← field_or (Some "") as_str "stype" m;
  Some {| stype := ty; storage_options := base.delete "stype" (list_to_map (rev m)) |}.

(** [HashMap<String, A>]. *)
Definition map_of {A} (f : Value -> option A) (v : Value) : option (gmap string A) :=
  m ← as_object v;
  l ← mapM (fun kv => x ← f (snd kv); Some (fst kv, x)) m;
  Some (list_to_map (rev l)).

Definition validate_storage (v : Value) : option (gmap string StorageConfig) :=
  storage ← map_of storage_of v;
  if forallb (fun k => existsb (String.eqb k) STORAGE_TYPE_KEYWORDS) (map fst (map_to_list storage)) then Some storage else None.

Definition listener_ok (kl : string * Listener) : bool :=
  let '(key, l) := kl in
  String.eqb key "tcp" &&
  negb (negb (tls_disable l) && (is_empty (tls_cert_file l) || is_empty (tls_key_file l))) &&
  negb (negb (tls_disable l) && tls_require_and_verify_client_cert l && tls_disable_client_certs l).

Definition validate_listener (v : Value) : option (gmap string Listener) :=
  listeners ← map_of listener_of v;
  if forallb listener_ok (map_to_list listeners) then Some listeners else None.

Definition config_of (v : Value) : option Config :=
  m ← as_object v;
  listener ← field_or None validate_listener "listener" m;
  storage ← field_or None validate_storage "storage" m;
  api ← field_or (Some "") as_str "api_addr" m;
  format ← field_or (Some "") as_str "log_format" m;
  level ← field_or (Some "") as_str "log_level" m;
  pid ← field_or (Some "") as_str "pid_file" m;
  dir ← field_or (Some "") as_str "work_dir" m;
  daemon ← field_or (Some false) parse_bool_string "daemon" m;
  user ← field_or (Some "") as_str "daemon_user" m;
  group ← field_or (Some "") as_str "daemon_group" m;
  interval ← field_or (Some default_collection_interval) as_u64 "collection_interval" m;
  hmac ← field_or (Some default_hmac_level) hmac_level_of "mount_entry_hmac_level" m;
  Some {| listener := listener; storage_config := storage; api_addr := api; log_format := format;
          log_level := level; pid_file := pid; work_dir := dir; daemon := daemon; daemon_user := user;
          daemon_group := group; collection_interval := interval; config_hmac_level := hmac |}.

(** ** Checks and merging *)

Definition set_ltype (key : string) (l : Listener) : Listener :=
  {| ltype := key; address := address l; tls_disable := tls_disable l; tls_cert_file := tls_cert_file l;
     tls_key_file := tls_key_file l; tls_client_ca_file := tls_client_ca_file l;
     tls_disable_client_certs := tls_disable_client_certs l;
     tls_require_and_verify_client_cert := tls_require_and_verify_client_cert l;
     tls_min_version := tls_min_version l; tls_max_version := tls_max_version l;
     tls_cipher_suites := tls_cipher_suites l |}.

Definition set_stype (key : string) (s : StorageConfig) : StorageConfig :=
  {| stype := key; storage_options := storage_options s |}.

Definition set_config_type_field (c : Config) : Config :=
  {| listener := map_imap (fun k l => Some (set_ltype k l)) (listener c);
     storage_config := map_imap (fun k s => Some (set_stype k s)) (storage_config c);
     api_addr := api_addr c; log_format := log_format c; log_level := log_level c; pid_file := pid_file c;
     work_dir := work_dir c; daemon := daemon c; daemon_user := daemon_user c; daemon_group := daemon_group c;
     collection_interval := collection_interval c; config_hmac_level := config_hmac_level c |}.

Definition check_config (c : Config) : result unit :=
  if negb (Nat.eqb (size (storage_config c)) 1) then Err ErrConfigStorageNotFound
  else if negb (Nat.eqb (size (listener c)) 1) then Err ErrConfigListenerNotFound
  else Ok tt.

Definition unless_empty (new old : string) : string := if is_empty new then old else new.

(** [extend]: entries of [other] replace those of [self].  The working
    directory, the daemon settings and the interval are those of [self]. *)
Definition merge (self other : Config) : Config :=
  {| listener := listener other ∪ listener self;
     storage_config := storage_config other ∪ storage_config self;
     api_addr := unless_empty (api_addr other) (api_addr self);
     log_format := unless_empty (log_format other) (log_format self);
     log_level := unless_empty (log_level other) (log_level self);
     pid_file := unless_empty (pid_file other) (pid_file self);
     work_dir := work_dir self; daemon := daemon self; daemon_user := daemon_user self;
     daemon_group := daemon_group self; collection_interval := collection_interval self;
     config_hmac_level :=
       if bool_decide (config_hmac_level other = HmacNone) then config_hmac_level self
       else config_hmac_level other |}.

(** ** Files *)
Section files.
Context `{HR : ConfigReader}.
Import StdPath StdFs.

Definition read_config (f : bytes -> option Value) (e : RvError) (data : bytes) : result Config :=
  let? config := of_option e (f data ≫= config_of) in
  let config := set_config_type_field config in
  let? _ := check_config config in
  Ok config.

(** Opening a directory succeeds, but reading it fails. *)
Definition load_config_file (f : fs) (path : string) : result Config :=
  match node_at f (components path) with
  | Ok (_, n) =>
      if ends_with ".hcl" path then
        match n with File data => read_config hcl_value Hcl data | Dir => Err Hcl end
      else if ends_with ".json" path then
        match n with File data => read_config json_value SerdeJson data | Dir => Err SerdeJson end
      else Err ErrConfigPathInvalid
  | Err _ => Err IO
  | Panic => Panic
  end.

(** [Path::extension] of a file name: what follows its last dot, unless that
    starts the name. *)
Fixpoint after_last_dot (s : string) : option string :=
  match s with
  | EmptyString => None
  | String c s =>
      match after_last_dot s with
      | Some e => Some e
      | None => if Ascii.eqb c "." then Some s else None
      end
  end.

Definition extension (name : string) : option string :=
  match name with
  | EmptyString => None
  | String _ s => after_last_dot s
  end.

Definition is_file (f : fs) (s : string) : bool :=
  match node_at f (components s) with Ok (_, File _) => exists_ f s | _ => false end.

Definition config_names (f : fs) (dir : string) (entries : list string) : list string :=
  omap (fun name =>
    let path := join dir name in
    if negb (is_file f path) then None
    else match extension name with
         | Some ext => if String.eqb ext "hcl" || String.eqb ext "json" then Some path else None
         | None => None
         end) entries.

(** The files are merged in the order the directory lists them. *)
Fixpoint load_files (f : fs) (result : option Config) (paths : list string) : Errors.result Config :=
  match paths with
  | [] => of_option ErrConfigLoadFailed result
  | path :: paths =>
      let? config := load_config_file f path in
      load_files f (Some (match result with None => config | Some r => merge r config end)) paths
  end.

Definition load_config_dir (f : fs) (dir : string) : result Config :=
  let entries := match read_dir f (components dir) with Ok l => l | _ => [] end in
  load_files f None (config_names f dir entries).

Definition load_config (f : fs) (path : string) : result Config :=
  if negb (is_empty path) && is_dir f (components path) then load_config_dir f path
  else if is_file f path then load_config_file f path
  else Err ErrConfigPathInvalid.

End files.
End ServerConfig.

(** ** The server before it listens *)

(** How the peer is verified during the TLS handshake: not asked for a
    certificate, asked and accepted whatever it sends, or required to send one
    that OpenSSL verifies. *)
Inductive PeerVerification := NoCertificate | AnyCertificate | VerifiedCertificate (ca_file : option string).

Record TlsSetup := {
  setup_cert_file : string;
  setup_key_file : string;
  setup_min_version : SslVersion;
  setup_max_version : SslVersion;
  setup_cipher_list : string;
  setup_ciphersuites : option string;
  setup_peer : PeerVerification
}.

Record DaemonSetup := {
  daemon_log_path : string;
  daemon_pid_path : string;
  daemon_run_user : string;
  daemon_run_group : string
}.

Record ServerSetup := {
  server_work_dir : string;
  server_daemon : option DaemonSetup;
  server_backend : PhysicalBackend;
  server_address : string;
  server_tls : option TlsSetup;
  server_hmac_level : MountEntryHMACLevel
}.

Module ServerMain.
Import ServerConfig.

Definition WORK_DIR_PATH_DEFAULT : string := "/tmp/rusty_vault".
Definition TLS13_CIPHERSUITES : string :=
  "TLS_AES_128_GCM_SHA256:TLS_AES_256_GCM_SHA384:TLS_CHACHA20_POLY1305_SHA256".

Definition peer_verification (l : Listener) : PeerVerification :=
  if tls_require_and_verify_client_cert l then
    VerifiedCertificate (if is_empty (tls_client_ca_file l) then None else Some (tls_client_ca_file l))
  else if tls_disable_client_certs l then NoCertificate
  else AnyCertificate.

Definition tls_setup (l : Listener) : option TlsSetup :=
  if tls_disable l then None
  else Some {| setup_cert_file := tls_cert_file l; setup_key_file := tls_key_file l;
               setup_min_version := tls_min_version l; setup_max_version := tls_max_version l;
               setup_cipher_list := tls_cipher_suites l;
               setup_ciphersuites := match tls_max_version l with TLS1_3 => Some TLS13_CIPHERSUITES | _ => None end;
               setup_peer := peer_verification l |}.

(** A relative pid file is appended to the working directory without a slash. *)
Definition daemon_setup (c : Config) (dir : string) : option DaemonSetup :=
  if daemon c then
    Some {| daemon_log_path := dir ++ "/rusty_vault.log";
            daemon_pid_path := if starts_with_char slash (pid_file c) then pid_file c else dir ++ pid_file c;
            daemon_run_user := if is_empty (daemon_user c) then "onbody" else daemon_user c;
            daemon_run_group := if is_empty (daemon_group c) then "onbody" else daemon_group c |}
  else None.

(** The working directory, created when it is missing. *)
Definition make_work_dir (f : StdFs.fs) (dir : string) : StdFs.fs * result unit :=
  if StdFs.exists_ f dir then (f, Ok tt)
  else match StdFs.create_dir_all f (StdPath.components dir) with
       | (f, Ok _) => (f, Ok tt)
       | (f, Err _) => (f, Err IO)
       | (f, Panic) => (f, Panic)
       end.

(** [Server::main] up to the start of the daemon and the listening socket; a
    backend that cannot be opened panics. *)
Definition main `{ConfigReader} (config_path : string) : st StdFs.fs RvError ServerSetup :=
  let! f := st_get in
  let! config := st_lift (load_config f config_path) in
  match map_to_list (storage_config config) with
  | [(_, storage)] =>
      match map_to_list (listener config) with
      | [(_, l)] =>
          let dir := if is_empty (work_dir config) then WORK_DIR_PATH_DEFAULT else work_dir config in
          let! _ := fun f => make_work_dir f dir in
          let! f := st_get in
          match new_backend (stype storage) (storage_options storage) f with
          | Ok backend =>
              st_ret {| server_work_dir := dir; server_daemon := daemon_setup config dir; server_backend := backend;
                        server_address := address l; server_tls := tls_setup l;
                        server_hmac_level := config_hmac_level config |}
          | _ => st_lift Panic
          end
      | _ => st_fail ErrConfigListenerNotFound
      end
  | _ => st_fail ErrConfigStorageNotFound
  end.

End ServerMain.
