(* ===== verification/ConfigCorrect.v ===== *)
(** * What a loaded configuration promises

    The invariant of every configuration the server starts with, which settings
    of several files survive, and the server that is set up from them. *)

From stdpp Require Import base tactics list gmap strings.
From Stdlib Require Import ZArith Lia Ascii.
From S2P Require Import Prelude Errors RustStr Utils Storage Logical Mount FileBackend ServerConfig.

Import ServerConfig.
Local Open Scope string_scope.

Section config.
Context `{HR : ConfigReader}.
Implicit Types (c r : Config) (f : StdFs.fs).

(** A listener for TCP; with TLS it names its certificate and key and does not
    both demand and refuse client certificates. *)
Record good_listener (l : Listener) : Prop := {
  gl_type : ltype l = "tcp";
  gl_files : tls_disable l = false → tls_cert_file l ≠ "" ∧ tls_key_file l ≠ "";
  gl_client : tls_disable l = false → tls_require_and_verify_client_cert l = true → tls_disable_client_certs l = false
}.

Record good_config c : Prop := {
  gc_listener : ∃ l, listener c = {["tcp" := l]} ∧ good_listener l;
  gc_storage : ∀ k s, storage_config c !! k = Some s → k ∈ STORAGE_TYPE_KEYWORDS ∧ stype s = k;
  gc_some : storage_config c ≠ ∅
}.

Lemma listener_ok_spec k l :
  listener_ok (k, l) = true →
  k = "tcp" ∧ (tls_disable l = false → tls_cert_file l ≠ "" ∧ tls_key_file l ≠ "") ∧
  (tls_disable l = false → tls_require_and_verify_client_cert l = true → tls_disable_client_certs l = false).
Proof.
  unfold listener_ok. intros [[->%String.eqb_eq Hf]%andb_true_iff Hc]%andb_true_iff.
  split; [done|]. destruct (tls_disable l); simpl in *; [done|].
  apply negb_true_iff, orb_false_iff in Hf as [Hc1 Hc2].
  split; [split; [by destruct (tls_cert_file l)|by destruct (tls_key_file l)]|].
  intros _ Hr. rewrite Hr in Hc. by destruct (tls_disable_client_certs l).
Qed.

Lemma forallb_map_to_list {A} (p : string * A → bool) (m : gmap string A) k x :
  forallb p (map_to_list m) = true → m !! k = Some x → p (k, x) = true.
Proof.
  intros Hp Hx. eapply forallb_forall; [exact Hp|]. by apply list_elem_of_In, elem_of_map_to_list.
Qed.

Lemma field_or_None {A} (g : Value → option A) k m x :
  field_or None g k m = Some x → ∃ v, g v = Some x.
Proof. unfold field_or. destruct (given k m) as [|v []]; try done. eauto. Qed.

Lemma validate_listener_spec v m k l :
  validate_listener v = Some m → m !! k = Some l → listener_ok (k, l) = true.
Proof.
  unfold validate_listener. destruct (map_of _ v) as [m'|]; [|done]. simpl.
  destruct (forallb listener_ok _) eqn:E; [|done]. intros [= <-]. exact (forallb_map_to_list listener_ok m' k l E).
Qed.

Lemma validate_storage_spec v m k s :
  validate_storage v = Some m → m !! k = Some s → k ∈ STORAGE_TYPE_KEYWORDS.
Proof.
  unfold validate_storage. destruct (map_of _ v) as [m'|]; [|done]. simpl.
  destruct (forallb _ _) eqn:E; [|done]. intros [= <-] Hk.
  assert (existsb (String.eqb k) STORAGE_TYPE_KEYWORDS = true) as (x & Hx & ->%String.eqb_eq)%existsb_exists.
  { eapply (forallb_forall (λ k, existsb (String.eqb k) STORAGE_TYPE_KEYWORDS)); [exact E|].
    apply in_map_iff. exists (k, s). split; [done|]. by apply list_elem_of_In, elem_of_map_to_list. }
  by apply list_elem_of_In.
Qed.

Lemma config_of_spec v c :
  config_of v = Some c →
  (∀ k l, listener c !! k = Some l → listener_ok (k, l) = true) ∧
  (∀ k s, storage_config c !! k = Some s → k ∈ STORAGE_TYPE_KEYWORDS).
Proof.
  unfold config_of. intros H. destruct (as_object v) as [m|]; [|done]. simpl in H.
  destruct (field_or None validate_listener _ _) as [ls|] eqn:El; [|done]. simpl in H.
  destruct (field_or None validate_storage _ _) as [ss|] eqn:Es; [|done]. simpl in H.
  apply field_or_None in El as [vl Hl]. apply field_or_None in Es as [vs Hs].
  repeat (match type of H with (?o ≫= _) = _ => destruct o as [?|]; [simpl in H|done] end).
  injection H as <-. simpl. split; intros k x; [by apply (validate_listener_spec vl)|by apply (validate_storage_spec vs)].
Qed.

Lemma size_one {A} (m : gmap string A) : size m = 1%nat → ∃ k x, m = {[k := x]}.
Proof.
  rewrite <- length_map_to_list. intros Hs. rewrite <- (list_to_map_to_list m).
  destruct (map_to_list m) as [|[k x] []]; try done. by exists k, x.
Qed.

Lemma read_config_good g e data c :
  read_config g e data = Ok c → good_config c ∧ size (storage_config c) = 1%nat.
Proof.
  unfold read_config. destruct (g data ≫= config_of) as [c0|] eqn:E; [|done]. simpl.
  destruct (g data) as [v|]; [|done]. simpl in E. apply config_of_spec in E as [Hl Hs].
  set (c1 := set_config_type_field c0). destruct (check_config c1) as [[]|?|] eqn:Hc; [|done..].
  intros [= <-]. unfold check_config in Hc.
  destruct (Nat.eqb_spec (size (storage_config c1)) 1) as [Hss|]; [|done].
  destruct (Nat.eqb_spec (size (listener c1)) 1) as [Hls|]; [|done]. split; [|done].
  destruct (size_one _ Hls) as (k & l & Hk). split.
  - assert (listener c1 !! k = Some l) as Hlk by (rewrite Hk; apply lookup_singleton_eq).
    pose proof Hlk as Hlk'. simpl in Hlk'. rewrite map_lookup_imap in Hlk'.
    destruct (listener c0 !! k) as [l0|] eqn:Hl0; [|done]. injection Hlk' as <-.
    destruct (listener_ok_spec _ _ (Hl _ _ Hl0)) as (-> & Hf & Hcl). by exists (set_ltype "tcp" l0).
  - intros k' s Hk'. simpl in Hk'. rewrite map_lookup_imap in Hk'.
    destruct (storage_config c0 !! k') as [s0|] eqn:Hs0; [|done]. injection Hk' as <-. split; [by eapply Hs|done].
  - intros E0. rewrite E0, map_size_empty in Hss. done.
Qed.

Lemma load_config_file_good f path c :
  load_config_file f path = Ok c → good_config c ∧ size (storage_config c) = 1%nat.
Proof.
  unfold load_config_file. destruct (StdFs.node_at _ _) as [[q n]|?|]; [|done..].
  destruct (ends_with ".hcl" path); [destruct n; [done|apply read_config_good]|].
  destruct (ends_with ".json" path); [destruct n; [done|apply read_config_good]|done].
Qed.

Lemma merge_good r c : good_config r → good_config c → good_config (merge r c).
Proof.
  intros [(l & Hl & _) Hs Hne] [(l' & Hl' & Hg') Hs' Hne']. split; simpl.
  - exists l'. split; [|done]. rewrite Hl, Hl'. apply map_eq. intros k. rewrite lookup_union.
    destruct (decide (k = "tcp")) as [->|Hk]; [by rewrite !lookup_singleton_eq|by rewrite !lookup_singleton_ne].
  - intros k s [Hk|[_ Hk]]%lookup_union_Some_raw; eauto.
  - intros E. apply map_positive_l in E. done.
Qed.

Lemma load_files_good f paths (r : option Config) c :
  (∀ r', r = Some r' → good_config r') → load_files f r paths = Ok c → good_config c.
Proof.
  revert r. induction paths as [|p paths IH]; intros r Hr; simpl.
  - destruct r as [r|]; [|done]. intros [= <-]. by apply Hr.
  - destruct (load_config_file f p) as [c0|?|] eqn:Ep; [|done..]. simpl. apply IH.
    apply load_config_file_good in Ep as [Hc0 _]. intros r' [= <-]. destruct r as [r|]; [|done].
    apply merge_good; [by apply Hr|done].
Qed.

Lemma load_config_good f path c : load_config f path = Ok c → good_config c.
Proof.
  unfold load_config. destruct (_ && _).
  - by apply load_files_good.
  - destruct (is_file f path); [|done]. by intros [? _]%load_config_file_good.
Qed.

(** ** The server that starts *)

(** The settings of a server that starts: TLS only with a certificate and a key,
    a verified client certificate only where client certificates are not turned
    off, and a file backend. *)
Record good_setup (s : ServerSetup) : Prop := {
  gs_tls : ∀ t, server_tls s = Some t → setup_cert_file t ≠ "" ∧ setup_key_file t ≠ "";
  gs_backend : ∃ b, server_backend s = FilePhysical b
}.

(** A configuration that loads, from a file or from the files of a
    directory, has exactly one listener, for TCP, which with TLS names a
    certificate and a key and does not both demand and refuse client
    certificates, and only storage of a known kind under its own name; a server
    that starts from it serves TLS with those files or not at all, on a file
    backend, and asks for verified client certificates exactly when the
    listener demands them. *)
Theorem loaded_config_valid f path c :
  load_config f path = Ok c →
  good_config c ∧
  ∀ f' s, ServerMain.main path f = (f', Ok s) →
    good_setup s ∧ size (storage_config c) = 1%nat ∧ server_hmac_level s = config_hmac_level c ∧
    ∃ l, listener c = {["tcp" := l]} ∧ server_address s = address l ∧
      ∀ t, server_tls s = Some t →
        tls_disable l = false ∧
        ((∃ ca, setup_peer t = VerifiedCertificate ca) ↔ tls_require_and_verify_client_cert l = true).
Proof.
  intros Hload. pose proof (load_config_good f path c Hload) as Hgood. split; [done|]. intros f' s Hmain.
  unfold ServerMain.main in Hmain. rewrite (st_bind_run _ _ f f f), Hload in Hmain by done.
  rewrite (st_bind_run _ _ _ f c) in Hmain by done.
  destruct (map_to_list (storage_config c)) as [|[k st] []] eqn:Es; try done.
  destruct (gc_listener c Hgood) as (l & Hl & [Ht Hf Hc]). rewrite Hl, map_to_list_singleton in Hmain.
  inv_steps. destruct (new_backend _ _ _) as [b|?|] eqn:Hb; [|done..]. injection Hmain as <- <-. split_and!.
  - split; simpl.
    + unfold ServerMain.tls_setup. destruct (tls_disable l) eqn:Ed; [done|]. intros t [= <-]. auto.
    + assert (storage_config c !! k = Some st) as Hk by (apply elem_of_map_to_list; rewrite Es; apply list_elem_of_here).
      apply (gc_storage c Hgood) in Hk as [Hin Hty]. rewrite Hty in Hb. unfold STORAGE_TYPE_KEYWORDS in Hin.
      rewrite !elem_of_cons, elem_of_nil in Hin. destruct Hin as [->|[->|[]]]; [|done].
      unfold new_backend in Hb. simpl in Hb. destruct (FileBackend.new _ _) as [fb|?|]; [|done..].
      injection Hb as <-. by exists fb.
  - rewrite <- length_map_to_list, Es. done.
  - done.
  - exists l. split_and!; [done..|]. simpl. unfold ServerMain.tls_setup.
    destruct (tls_disable l); [done|]. intros t [= <-]. split; [done|]. simpl. unfold ServerMain.peer_verification.
    destruct (tls_require_and_verify_client_cert l); [split; eauto|].
    destruct (tls_disable_client_certs l); naive_solver.
Qed.

(** ** Several files *)

(** The last of the texts that are not empty. *)
Definition last_given (l : list string) : string := fold_left (λ old new, unless_empty new old) l "".

(** The configurations of the files, in order. *)
Fixpoint each_config f (paths : list string) : result (list Config) :=
  match paths with
  | [] => Ok []
  | p :: paths => let? x := load_config_file f p in let? l := each_config f paths in Ok (x :: l)
  end.

Lemma load_files_fold f paths r c :
  load_files f (Some r) paths = Ok c → ∃ l, each_config f paths = Ok l ∧ c = fold_left merge l r.
Proof.
  revert r. induction paths as [|p paths IH]; intros r; simpl; [intros [= <-]; by exists []|].
  destruct (load_config_file f p) as [c0|?|]; [|done..]. simpl. intros (l & -> & ->)%IH. by exists (c0 :: l).
Qed.

Lemma merges_keep l r :
  work_dir (fold_left merge l r) = work_dir r ∧ daemon (fold_left merge l r) = daemon r ∧
  collection_interval (fold_left merge l r) = collection_interval r ∧
  log_level (fold_left merge l r) = fold_left (λ old new, unless_empty new old) (map log_level l) (log_level r) ∧
  pid_file (fold_left merge l r) = fold_left (λ old new, unless_empty new old) (map pid_file l) (pid_file r) ∧
  api_addr (fold_left merge l r) = fold_left (λ old new, unless_empty new old) (map api_addr l) (api_addr r) ∧
  ∀ k, listener (fold_left merge l r) !! k = fold_left (λ old new, new ∪ old) (map (λ c, listener c !! k) l) (listener r !! k).
Proof.
  revert r. induction l as [|c l IH]; intros r; [done|]. simpl.
  destruct (IH (merge r c)) as (-> & -> & -> & -> & -> & -> & Hk). split_and!; try done.
  intros k. rewrite Hk. simpl. by rewrite lookup_union.
Qed.

Lemma unless_empty_nil s : unless_empty s "" = s.
Proof. by destruct s. Qed.

(** A directory is the merge of its files in the order it lists them: a
    listener and the address, log and pid settings are those of the last file
    that has them, while the working directory, the daemon switch and the
    collection interval are those of the first file, whatever later ones say. *)
Theorem directory_settings f dir c :
  load_config_dir f dir = Ok c →
  ∃ first rest paths, each_config f paths = Ok (first :: rest) ∧
    work_dir c = work_dir first ∧ daemon c = daemon first ∧ collection_interval c = collection_interval first ∧
    log_level c = last_given (map log_level (first :: rest)) ∧
    pid_file c = last_given (map pid_file (first :: rest)) ∧
    api_addr c = last_given (map api_addr (first :: rest)) ∧
    ∀ l, last (first :: rest) = Some l → listener c !! "tcp" = listener l !! "tcp" ∨ listener l !! "tcp" = None.
Proof.
  unfold load_config_dir. set (paths := config_names _ _ _). clearbody paths. destruct paths as [|p paths]; [done|].
  simpl. destruct (load_config_file f p) as [first|?|] eqn:Ep; [|done..]. simpl.
  intros (rest & Hr & ->)%load_files_fold. exists first, rest, (p :: paths).
  destruct (merges_keep rest first) as (-> & -> & -> & -> & -> & -> & Hk).
  split; [simpl; by rewrite Ep, Hr|]. split_and!; try done.
  - unfold last_given. simpl. by rewrite unless_empty_nil.
  - unfold last_given. simpl. by rewrite unless_empty_nil.
  - unfold last_given. simpl. by rewrite unless_empty_nil.
  - intros l Hl. rewrite Hk. destruct rest as [|c rest _] using rev_ind; [injection Hl as <-; by left|].
    change (first :: rest ++ [c])%list with ((first :: rest) ++ [c])%list in Hl. rewrite last_snoc in Hl. injection Hl as <-.
    rewrite map_app, fold_left_app. simpl. destruct (listener c !! "tcp"); [left|by right].
    by destruct (fold_left _ (map _ rest) _).
Qed.

End config.

(** ** A configuration file *)
Section witnesses.
Import StdFs.

(** The text stands for one configuration with TLS. *)
Definition tls_config : Value :=
  VObject [("storage", VObject [("file", VObject [("path", VStr "/data")])]);
           ("listener", VObject [("tcp", VObject [("address", VStr "127.0.0.1:8200"); ("tls_disable", VStr "false");
              ("tls_cert_file", VStr "a.crt"); ("tls_key_file", VStr "a.key")])])].
#[local] Instance fixed_reader : ConfigReader :=
  {| hcl_value := fun _ => Some tls_config; json_value := fun _ => None |}.

Definition config_fs : fs :=
  {| nodes := {[ ["etc"] := Dir; ["etc"; "a.hcl"] := File [x01]; ["tmp"] := Dir ]}; cwd := [] |}.

Definition tls_loaded : Config :=
  match load_config config_fs "/etc/a.hcl" with
  | Ok c => c
  | _ => {| listener := ∅; storage_config := ∅; api_addr := ""; log_format := ""; log_level := ""; pid_file := "";
            work_dir := ""; daemon := false; daemon_user := ""; daemon_group := ""; collection_interval := 0;
            config_hmac_level := HmacNone |}
  end.

Lemma loaded_config_valid_witness :
  good_config tls_loaded ∧ ∃ f' s, ServerMain.main "/etc/a.hcl" config_fs = (f', Ok s) ∧ good_setup s.
Proof.
  destruct (loaded_config_valid config_fs "/etc/a.hcl" tls_loaded) as [Hg Hm].
  - vm_compute. reflexivity.
  - split; [exact Hg|].
    destruct (ServerMain.main "/etc/a.hcl" config_fs) as [f' [s|e|]] eqn:E; [|vm_compute in E; discriminate E..].
    exists f', s. split; [reflexivity|]. destruct (Hm f' s eq_refl) as [Hs _]. exact Hs.
Defined.

Lemma directory_settings_witness :
  ∃ first rest paths, each_config config_fs paths = Ok (first :: rest) ∧ work_dir tls_loaded = work_dir first.
Proof.
  destruct (directory_settings config_fs "/etc" tls_loaded) as (first & rest & paths & Hp & Hw & _).
  - vm_compute. reflexivity.
  - exists first, rest, paths. split; [exact Hp|exact Hw].
Defined.
End witnesses.
