(* ===== verification/Http.v ===== *)
(** * The HTTP server (src/src/http/mod.rs, logical.rs, sys.rs)

    [Module Http] holds connections, tokens, responses and the lock around the
    core; [Module HttpLogical] the handler of [/v1/]; [Module HttpSys] the
    handlers of [/v1/sys/]; the routes they are registered under are in file
    Routes.  The core is reached through the interface [CoreApi].  A handler
    gives a response or an error, which actix turns into [error_response]; a
    panic drops the connection.  Addresses are kept as their text and
    certificates as their DER encoding. *)

From stdpp Require Import base tactics list gmap strings pretty.
From Stdlib Require Import ZArith Lia Ascii.
From S2P Require Import Prelude Errors RustStr Utils Lease Storage Logical Mount VaultCore.

Local Open Scope string_scope.

(** ** Other crates *)

(** [HeaderValue::to_str], [serde_json::from_slice] for a type, and
    [OffsetDateTime + Duration] in nanoseconds ([None] past the last year). *)
Class HeaderText : Type := header_to_str : bytes -> option string.
Class FromSlice (A : Type) : Type := from_slice : bytes -> option A.
Class OffsetTime : Type := offset_add : Z -> Duration -> option Z.
(** The text of an error that wraps one of another crate. *)
Class SourceText : Type := source_text : RvError -> string.

(** ** The core, as the server uses it *)
Class CoreApi (S : Type) : Type := {
  core_inited : st S RvError bool;
  core_init : SealConfig -> st S RvError InitResult;
  core_unseal : bytes -> st S RvError bool;
  core_seal : st S RvError unit;
  core_seal_config : st S RvError SealConfig;
  core_is_sealed : S -> bool;
  core_progress : S -> nat;
  core_handle_request : st (S * Request) RvError (option Response)
}.

(** The core behind its lock, which a panic of a writer poisons. *)
Record Server (S : Type) := { served_core : S; lock_poisoned : bool }.
Arguments served_core {S}.
Arguments lock_poisoned {S}.
Arguments Build_Server {S}.

Record TlsClientInfo := { client_cert_chain : option (list bytes); client_verify_result : Z }.

Record HttpConnection := {
  conn_bind : string;
  conn_peer : string;
  conn_ttl : option Z;
  conn_tls : option TlsClientInfo
}.

(** What a socket tells: an address is missing when the call fails. *)
Record TcpSocket := {
  socket_peer : option string;
  socket_local : option string;
  socket_ttl : option Z
}.

(** The stream given to the connection hook.  [peer_chain] is what OpenSSL's
    [peer_cert_chain] returns, on the server's side the certificates the client
    sent after its own; [peer_cert] is the client's own. *)
Inductive Stream :=
  | Tls (socket : TcpSocket) (peer_chain : option (list bytes)) (peer_cert : option bytes) (verify_result : Z)
  | Tcp (socket : TcpSocket)
  | OtherStream.

(** A request as actix presents it: the first value of a header, the value of
    a cookie, the data of the connection. *)
Record HttpRequest := {
  http_header : string -> option bytes;
  http_cookie : string -> option string;
  conn_data : option HttpConnection
}.

Record Cookie := {
  cookie_name : string;
  cookie_value : string;
  cookie_path : string;
  cookie_expires : Z
}.

Record HttpResponse := {
  http_status : Z;
  http_set_cookie : option Cookie;
  http_body : option Value
}.

Inductive Method := GET | POST | PUT | DELETE | OtherMethod (name : string).

#[global] Instance Method_eq_dec : EqDecision Method.
Proof. solve_decision. Defined.

Module Http.

Definition AUTH_COOKIE_NAME : string := "token".
Definition AUTH_HEADER_NAME : string := "X-RustyVault-Token".
Definition VAULT_AUTH_HEADER_NAME : string := "X-Vault-Token".
Definition AUTHORIZATION : string := "authorization".

(** ** Connections *)

Definition new_tls_client_info : TlsClientInfo := {| client_cert_chain := None; client_verify_result := 0 |}.

Definition new_connection : HttpConnection :=
  {| conn_bind := "0.0.0.0:8080"; conn_peer := "127.0.0.1:8888"; conn_ttl := None; conn_tls := None |}.

(** The connection data of a socket; nothing when the peer's address is not
    known, a panic when the local one is not. *)
Definition connected (socket : TcpSocket) (tls : option TlsClientInfo) : result (option HttpConnection) :=
  match socket_peer socket with
  | None => Ok None
  | Some peer =>
      match socket_local socket with
      | None => Panic
      | Some local =>
          Ok (Some {| conn_bind := local; conn_peer := peer; conn_ttl := socket_ttl socket; conn_tls := tls |})
      end
  end.

Definition cert_chain (peer_chain : option (list bytes)) (peer_cert : option bytes) : option (list bytes) :=
  match peer_cert with
  | None => peer_chain
  | Some cert =>
      match peer_chain with
      | Some chain => Some (chain ++ [cert])%list
      | None => Some [cert]
      end
  end.

Definition request_on_connect_handler (conn : Stream) : result (option HttpConnection) :=
  match conn with
  | Tls socket peer_chain peer_cert verify_result =>
      connected socket (Some {| client_cert_chain := cert_chain peer_chain peer_cert;
                                client_verify_result := verify_result |})
  | Tcp socket => connected socket None
  | OtherStream => Panic
  end.

(** ** Tokens *)
Section tokens.
Context `{HT : HeaderText}.

Definition missing_client_token : RvError := ErrResponse "missing client token".

(** An [Authorization] header that is not a bearer token ends the search: the
    cookie is then not looked at. *)
Definition get_token_from_req (req : HttpRequest) : result string :=
  match http_header req AUTH_HEADER_NAME with
  | Some token => of_option ActixWebHttpHeaderError (header_to_str token)
  | None =>
      match http_header req VAULT_AUTH_HEADER_NAME with
      | Some vault_token => of_option ActixWebHttpHeaderError (header_to_str vault_token)
      | None =>
          match http_header req AUTHORIZATION with
          | Some auth =>
              match header_to_str auth with
              | Some auth_str =>
                  if starts_with "Bearer " auth_str then Ok (trim_start_pat "Bearer " auth_str)
                  else Err missing_client_token
              | None => Err missing_client_token
              end
          | None =>
              match http_cookie req AUTH_COOKIE_NAME with
              | Some cookie_token => Ok cookie_token
              | None => Err missing_client_token
              end
          end
      end
  end.

Definition request_auth (req : HttpRequest) : Request :=
  let r := RequestOps.new "" in
  match get_token_from_req req with
  | Ok token => set_client_token token r
  | _ => r
  end.

End tokens.

(** ** Responses *)

Definition error_json (text : string) : Value := VObject [("error", VStr text)].

Definition response_error (status : Z) (msg : string) : HttpResponse :=
  {| http_status := status; http_set_cookie := None;
     http_body := if is_empty msg then None else Some (error_json msg) |}.

Definition response_ok (cookie : option Cookie) (body : option (gmap string Value)) : HttpResponse :=
  match body with
  | None => {| http_status := 204; http_set_cookie := cookie; http_body := None |}
  | Some b => {| http_status := 200; http_set_cookie := cookie; http_body := Some (VObject (map_to_list b)) |}
  end.

Definition response_json (status : Z) (cookie : option Cookie) (body : Value) : HttpResponse :=
  {| http_status := status; http_set_cookie := cookie; http_body := Some body |}.

Definition response_json_ok (cookie : option Cookie) (body : Value) : HttpResponse :=
  response_json 200 cookie body.

Section errors.
Context `{HX : SourceText}.

(** [RvError::to_string]. *)
Definition to_string (e : RvError) : string :=
  match e with
  | ErrCryptoCipherUpdateFailed => "Cipher operation update failed."
  | ErrCryptoCipherFinalizeFailed => "Cipher operation finalization failed."
  | ErrCryptoCipherInitFailed => "Cipher initialization failed."
  | ErrCryptoCipherNotInited => "Cipher not initialized."
  | ErrCryptoCipherOPNotSupported => "Cipher operation not supported."
  | ErrCryptoCipherNoTag => "AEAD Cipher tag is missing."
  | ErrCryptoCipherAEADTagPresent => "AEAD Cipher tag should not be present."
  | ErrConfigPathInvalid => "Config path is invalid."
  | ErrConfigLoadFailed => "Config load failed."
  | ErrConfigStorageNotFound => "Config storage not found."
  | ErrConfigListenerNotFound => "Config listener not found."
  | ErrCoreNotInit => "Core is not initialized."
  | ErrCoreLogicalBackendExist => "Core logical backend already exists."
  | ErrCoreLogicalBackendNoExist => "Core logical backend does not exist."
  | ErrCoreRouterNotHandling => "Core router not handling."
  | ErrCoreHandlerExist => "Core handler already exists."
  | ErrCoreSealConfigInvalid => "Core seal config is invalid."
  | ErrCoreSealConfigNotFound => "Core seal config not found."
  | ErrPhysicalConfigItemMissing => "Physical configuration item is missing."
  | ErrPhysicalTypeInvalid => "Physical type is invalid."
  | ErrPhysicalBackendPrefixInvalid => "Physical backend prefix is invalid."
  | ErrPhysicalBackendKeyInvalid => "Physical backend key is invalid."
  | ErrBarrierKeySanityCheckFailed => "RustyVault key sanity check failed."
  | ErrBarrierAlreadyInit => "RustyVault is already initialized."
  | ErrBarrierKeyInvalid => "RustyVault unseal key is invalid."
  | ErrBarrierNotInit => "RustyVault is not initialized."
  | ErrBarrierSealed => "RustyVault is sealed."
  | ErrBarrierUnsealed => "RustyVault is unsealed."
  | ErrBarrierUnsealFailed => "RustyVault unseal failed."
  | ErrBarrierEpochMismatch => "RustyVualt barrier epoch do not match."
  | ErrBarrierVersionMismatch => "RustyVault barrier version do not match."
  | ErrBarrierKeyGenerationFailed => "RustyVault barrier key generation failed."
  | ErrRouterMountConflict => "Router mount conflict."
  | ErrRouterMountNotFound => "Router mount not found."
  | ErrMountFailed => "Mount path is failed, cannot mount."
  | ErrMountPathProtected => "Mount path is protected, cannot mount."
  | ErrMountPathExist => "Mount path already exists."
  | ErrMountTableNotFound => "Mount table not found."
  | ErrMountTableNotReady => "Mount table is not ready."
  | ErrMountNotMatch => "Mount not match."
  | ErrLogicalPathUnsupported => "Logical backend path not supported."
  | ErrLogicalOperationUnsupported => "Logical backend operation not supported."
  | ErrRequestNotReady => "Request is not ready."
  | ErrRequestNoData => "No data is available for the request."
  | ErrRequestNoDataField => "No data field is available for the request."
  | ErrRequestInvalid => "Request is invalid."
  | ErrRequestClientTokenMissing => "Request client token is missing."
  | ErrRequestFieldNotFound => "Request field is not found."
  | ErrRequestFieldInvalid => "Request field is invalid."
  | ErrResponseDataInvalid => "Response data is invalid."
  | ErrHandlerDefault => "Handler is default."
  | ErrModuleKvDataFieldMissing => "Module kv data field is missing."
  | ErrRustDowncastFailed => "Rust downcast failed."
  | ErrShamirShareCountInvalid => "Shamir share count invalid."
  | ErrModuleConflict => "Module conflict."
  | ErrModuleNotInit => "Module is not init."
  | ErrModuleNotFound => "Module is not found."
  | ErrAuthModuleDisabled => "Auth module is disabled."
  | ErrAuthTokenNotFound => "Auth token is not found."
  | ErrAuthTokenIdInvalid => "Auth token id is invalid."
  | ErrLeaseNotFound => "Lease is not found."
  | ErrLeaseNotRenewable => "Lease is not renewable."
  | ErrPermissionDenied => "Permission denied."
  | ErrPkiPemBundleInvalid => "PKI pem bundle is invalid."
  | ErrPkiCertKeyMismatch => "PKI ca public key of certificate does not match private key."
  | ErrPkiCertChainIncorrect => "PKI cert chain is incorrect."
  | ErrPkiCertIsNotCA => "PKI cert is not ca."
  | ErrPkiCaKeyNotFound => "PKI ca private key is not found."
  | ErrPkiCaNotConfig => "PKI ca is not config."
  | ErrPkiCaExtensionIncorrect => "PKI ca extension is incorrect."
  | ErrPkiKeyTypeInvalid => "PKI key type is invalid."
  | ErrPkiKeyBitsInvalid => "PKI key bits is invalid."
  | ErrPkiKeyNameAlreadyExist => "PKI key_name already exists."
  | ErrPkiKeyOperationInvalid => "PKI key operation is invalid."
  | ErrPkiCertNotFound => "PKI certificate is not found."
  | ErrPkiRoleNotFound => "PKI role is not found."
  | ErrPkiDataInvalid => "PKI data is invalid."
  | ErrPkiInternal => "PKI internal error."
  | ErrCredentailInvalid => "Credentail is invalid."
  | ErrCredentailNotConfig => "Credentail is not config."
  | ErrRwLockReadPoison => "RwLock was poisoned (reading)"
  | ErrRwLockWritePoison => "RwLock was poisoned (writing)"
  | RustlsPemFileError => "Some rustls_pemfile error happened"
  | RustlsPkiTypesPemFileError => "Some rustls_pki_types error happened"
  | TokioTaskJoinError => "Some tokio task error happened"
  | ErrDatabaseTypeInvalid => "Database type is not support now. Please try postgressql or mysql again."
  | ErrDatabaseConnectionInfoInvalid => "Database connection info is invalid."
  | ErrResponse text => "Some error happend, response text: " ++ text
  | ErrResponseStatus code text =>
      "Some error happend, status: " ++ pretty code ++ ", response text: " ++ text
  | ErrString text => text
  | ErrUnknown => "Unknown error."
  | _ => source_text e
  end.

(** [StatusCode::from_u16]. *)
Definition status_from_u16 (code : Z) : option Z :=
  if (100 <=? code)%Z && (code <? 1000)%Z then Some code else None.

(** The response to an error; a status that is none panics. *)
Definition error_response (e : RvError) : result HttpResponse :=
  match e with
  | ErrResponse text => Ok (response_json 400 None (error_json text))
  | ErrResponseStatus code text =>
      match status_from_u16 code with
      | Some status => Ok (response_json status None (error_json text))
      | None => Panic
      end
  | e => Ok (response_json (response_status e) None (error_json (to_string e)))
  end.

(** What the client of a handler receives. *)
Definition answer (r : result HttpResponse) : result HttpResponse :=
  match r with
  | Ok resp => Ok resp
  | Err e => error_response e
  | Panic => Panic
  end.

End errors.

(** ** The lock around the core *)
Section locked.
Context {S : Type}.

(** [core.read()?]: a panic under a read lock does not poison. *)
Definition reading {A} (m : st S RvError A) : st (Server S) RvError A := fun s =>
  if lock_poisoned s then (s, Err ErrRwLockReadPoison)
  else let '(c, r) := m (served_core s) in (Build_Server c false, r).

(** [core.write()?]. *)
Definition writing {A} (m : st S RvError A) : st (Server S) RvError A := fun s =>
  if lock_poisoned s then (s, Err ErrRwLockWritePoison)
  else let '(c, r) := m (served_core s) in
       (Build_Server c match r with Panic => true | _ => false end, r).

Context `{HC : !CoreApi S}.

(** [core.handle_request(&mut req)] on a fresh request; the request it leaves
    is given back. *)
Definition run_request (req : Request) : st S RvError (Request * option Response) := fun c =>
  let '((c, req), r) := core_handle_request (c, req) in
  (c, match r with Ok resp => Ok (req, resp) | Err e => Err e | Panic => Panic end).

Definition handle_request (req : Request) : st (Server S) RvError HttpResponse :=
  let! x := reading (run_request req) in
  st_ret (match snd x with
          | None => response_ok None None
          | Some resp => response_ok None (resp_data resp)
          end).

End locked.
End Http.

(** ** [/v1/] *)

(** The structures of the answer; the two [Auth]s of the source are told apart
    by their prefix. *)
Record HttpAuth := {
  ha_client_token : string;
  ha_policies : list string;
  ha_metadata : gmap string string;
  ha_lease_duration : Z;
  ha_renewable : bool
}.

Record LogicalResponse := {
  lr_renewable : bool;
  lr_lease_id : string;
  lr_lease_duration : Z;
  lr_auth : option HttpAuth;
  lr_data : gmap string Value
}.

Module HttpLogical.
Import Http.
Section logical.
Context `{HT : HeaderText} `{HO : OffsetTime} `{HH : Humantime} `{HB : FromSlice (gmap string Value)}.
Context {S : Type} `{HC : !CoreApi S}.

Definition string_map (m : gmap string string) : Value := VObject (map_to_list (VStr <$> m)).

Definition auth_json (a : HttpAuth) : Value :=
  VObject [("client_token", VStr (ha_client_token a)); ("policies", VArray (VStr <$> ha_policies a));
           ("metadata", string_map (ha_metadata a)); ("lease_duration", VInt (ha_lease_duration a));
           ("renewable", VBool (ha_renewable a))].

Definition logical_json (r : LogicalResponse) : Value :=
  VObject [("renewable", VBool (lr_renewable r)); ("lease_id", VStr (lr_lease_id r));
           ("lease_duration", VInt (lr_lease_duration r));
           ("auth", match lr_auth r with Some a => auth_json a | None => VNull end);
           ("data", VObject (map_to_list (lr_data r)))].

Definition http_auth (a : Auth) : HttpAuth :=
  {| ha_client_token := auth_client_token a; ha_policies := policies a; ha_metadata := metadata a;
     ha_lease_duration := Lease.as_secs (Lease.ttl (auth_lease a));
     ha_renewable := Lease.renewable (auth_lease a) |}.

(** The cookie of a login: it lives as long as the lease of the secret, if
    there is one, and a year otherwise. *)
Definition login_cookie (now : Z) (lease_duration : Z) (path : string) (a : Auth) : result (option Cookie) :=
  let? year := of_option HumantimeDuration (parse_duration "365d") in
  let expire_duration := if Z.eqb lease_duration 0 then year else Lease.from_secs lease_duration in
  if starts_with "auth/token/" path then Ok None
  else match offset_add now expire_duration with
       | None => Panic
       | Some expires =>
           Ok (Some {| cookie_name := AUTH_COOKIE_NAME; cookie_value := auth_client_token a;
                       cookie_path := "/"; cookie_expires := expires |})
       end.

Definition response_logical (now : Z) (resp : Response) (path : string) : result HttpResponse :=
  let '(renewable, lease_id, lease_duration) :=
    match resp_secret resp with
    | Some s => (Lease.renewable (secret_lease s), Logical.lease_id s, Lease.as_secs (Lease.ttl (secret_lease s)))
    | None => (false, "", 0%Z)
    end in
  let? cookie := match resp_auth resp with
                 | Some a => login_cookie now lease_duration path a
                 | None => Ok None
                 end in
  let lr := {| lr_renewable := renewable; lr_lease_id := lease_id; lr_lease_duration := lease_duration;
               lr_auth := http_auth <$> resp_auth resp; lr_data := default ∅ (resp_data resp) |} in
  match resp_secret resp, resp_auth resp, resp_data resp with
  | None, None, None => Ok (response_ok cookie None)
  | _, _, _ => Ok (response_json_ok cookie (logical_json lr))
  end.

(** The operation and the body a method asks for; [None] for a method that is
    not allowed. *)
Definition operation_of (method : Method) (body : bytes) : result (option (Operation * option (gmap string Value))) :=
  match method with
  | GET => Ok (Some (Read, None))
  | POST | PUT =>
      match body with
      | [] => Ok (Some (Write, None))
      | _ => let? payload := of_option SerdeJson (from_slice body) in Ok (Some (Write, Some payload))
      end
  | DELETE => Ok (Some (Delete, None))
  | OtherMethod name => Ok (if String.eqb name "LIST" then Some (List, None) else None)
  end.

Definition request_connection (conn : HttpConnection) : Connection :=
  {| peer_addr := conn_peer conn; peer_tls_cert := conn_tls conn ≫= client_cert_chain |}.

Definition logical_request (req : HttpRequest) (conn : HttpConnection) (path : string) (op : Operation)
    (body : option (gmap string Value)) : Request :=
  set_body body (set_operation op
    (set_connection (Some (request_connection conn)) (set_path path (request_auth req)))).

Definition logical_request_handler (now : Z) (req : HttpRequest) (body : bytes) (method : Method) (path : string)
  : st (Server S) RvError HttpResponse :=
  match conn_data req with
  | None => st_lift Panic
  | Some conn =>
      let! op := st_lift (operation_of method body) in
      match op with
      | None => st_ret (response_error 405 "")
      | Some (op, payload) =>
          let! x := reading (run_request (logical_request req conn path op payload)) in
          let '(r, ret) := x in
          match ret with
          | Some resp => st_lift (response_logical now resp (Logical.path r))
          | None =>
              if bool_decide (operation r = Read ∨ operation r = List) then st_ret (response_error 404 "")
              else st_ret (response_ok None None)
          end
      end
  end.

End logical.
End HttpLogical.

(** ** [/v1/sys/] *)

Record InitRequest := { ir_secret_shares : byte; ir_secret_threshold : byte }.
Record InitResponse := { init_keys : list string; init_root_token : string }.
Record UnsealRequest := { unseal_key : string }.
Record SealStatusResponse := { ss_sealed : bool; ss_t : byte; ss_n : byte; ss_progress : nat }.
Record MountRequest := { mr_logical_type : string; mr_description : string }.
Record RemountRequest := { rr_from : string; rr_to : string }.
Record PolicyRequest := { pr_name : string; pr_policy : string }.

Module HttpSys.
Import Http.
Section sys.
Context `{HT : HeaderText} `{HX : HexCodec} `{HD : HexDecode} `{HB : FromSlice (gmap string Value)}.
Context `{HI : FromSlice InitRequest} `{HN : FromSlice UnsealRequest} `{HM : FromSlice MountRequest}.
Context `{HR : FromSlice RemountRequest} `{HP : FromSlice PolicyRequest}.
Context {S : Type} `{HC : !CoreApi S}.

Abbreviation handler := (st (Server S) RvError HttpResponse).

Definition seal_status_json (r : SealStatusResponse) : Value :=
  VObject [("sealed", VBool (ss_sealed r)); ("t", VInt (Z.of_nat (u8 (ss_t r)))); ("n", VInt (Z.of_nat (u8 (ss_n r))));
           ("progress", VInt (Z.of_nat (ss_progress r)))].

Definition init_json (r : InitResponse) : Value :=
  VObject [("keys", VArray (VStr <$> init_keys r)); ("root_token", VStr (init_root_token r))].

(** [t] is given the number of shares and [n] the threshold. *)
Definition seal_status : st S RvError SealStatusResponse := fun c =>
  let progress := core_progress c in
  let sealed := core_is_sealed c in
  (let! seal_config := core_seal_config in
   st_ret {| ss_sealed := sealed; ss_t := secret_shares seal_config;
             ss_n := secret_threshold seal_config; ss_progress := progress |}) c.

Definition response_seal_status : handler :=
  let! resp := reading seal_status in st_ret (response_json_ok None (seal_status_json resp)).

Definition sys_init_get_request_handler (_ : HttpRequest) : handler :=
  let! inited := reading core_inited in
  st_ret (response_ok None (Some {[ "initialized" := VBool inited ]})).

Definition sys_init_put_request_handler (_ : HttpRequest) (body : bytes) : handler :=
  let! payload := st_lift (of_option SerdeJson (from_slice (A := InitRequest) body)) in
  let seal_config := {| secret_shares := ir_secret_shares payload;
                        secret_threshold := ir_secret_threshold payload |} in
  let! result := writing (core_init seal_config) in
  st_ret (response_json_ok None
    (init_json {| init_keys := hex_encode <$> init_shares result; init_root_token := root_token result |})).

Definition sys_seal_status_request_handler (_ : HttpRequest) : handler := response_seal_status.

Definition sys_seal_request_handler (_ : HttpRequest) : handler :=
  let! _ := writing core_seal in st_ret (response_ok None None).

Definition sys_unseal_request_handler (_ : HttpRequest) (body : bytes) : handler :=
  let! payload := st_lift (of_option SerdeJson (from_slice (A := UnsealRequest) body)) in
  let! key := st_lift (of_option Hex (hex_decode (unseal_key payload))) in
  let! _ := writing (core_unseal key) in
  response_seal_status.

(** A request of the core at a fixed path. *)
Definition asked (req : HttpRequest) (path : string) (op : Operation) : Request :=
  set_operation op (set_path path (request_auth req)).

Definition sys_list_mounts_request_handler (req : HttpRequest) : handler :=
  handle_request (asked req "sys/mounts" Read).

(** The body must read as the request type and is passed on as a map. *)
Definition checked_body (A : Type) `{FromSlice A} (body : bytes) : result (gmap string Value) :=
  let? _ := of_option SerdeJson (from_slice (A := A) body) in
  of_option SerdeJson (from_slice body).

Definition sys_mount_request_handler (req : HttpRequest) (mount_path : string) (body : bytes) : handler :=
  let! payload := st_lift (checked_body MountRequest body) in
  if is_empty mount_path then st_ret (response_error 404 "")
  else handle_request (set_body (Some payload) (asked req ("sys/mounts/" ++ mount_path) Write)).

Definition sys_unmount_request_handler (req : HttpRequest) (mount_path : string) : handler :=
  if is_empty mount_path then st_ret (response_error 404 "")
  else handle_request (asked req ("sys/mounts/" ++ mount_path) Delete).

Definition sys_remount_request_handler (req : HttpRequest) (body : bytes) : handler :=
  let! payload := st_lift (checked_body RemountRequest body) in
  handle_request (set_body (Some payload) (asked req "sys/remount" Write)).

Definition sys_list_auth_mounts_request_handler (req : HttpRequest) : handler :=
  handle_request (asked req "sys/auth" Read).

Definition sys_auth_enable_request_handler (req : HttpRequest) (mount_path : string) (body : bytes) : handler :=
  let! payload := st_lift (checked_body MountRequest body) in
  if is_empty mount_path then st_ret (response_error 404 "")
  else handle_request (set_body (Some payload) (asked req ("sys/auth/" ++ mount_path) Write)).

Definition sys_auth_disable_request_handler (req : HttpRequest) (mount_path : string) : handler :=
  if is_empty mount_path then st_ret (response_error 404 "")
  else handle_request (asked req ("sys/auth/" ++ mount_path) Delete).

Definition sys_list_policy_request_handler (req : HttpRequest) : handler :=
  handle_request (asked req "sys/policy" List).

Definition sys_read_policy_request_handler (req : HttpRequest) (policy_name : string) : handler :=
  handle_request (asked req ("sys/policy/" ++ policy_name) (if is_empty policy_name then List else Read)).

Definition sys_write_policy_request_handler (req : HttpRequest) (policy_name : string) (body : bytes) : handler :=
  let! payload := st_lift (checked_body PolicyRequest body) in
  if is_empty policy_name then st_ret (response_error 404 "")
  else handle_request (set_body (Some payload) (asked req ("sys/policy/" ++ policy_name) Write)).

Definition sys_delete_policy_request_handler (req : HttpRequest) (policy_name : string) : handler :=
  if is_empty policy_name then st_ret (response_error 404 "")
  else handle_request (asked req ("sys/policy/" ++ policy_name) Delete).

Definition sys_list_policies_request_handler (req : HttpRequest) : handler :=
  handle_request (asked req "sys/policies/acl" List).

Definition sys_read_policies_request_handler (req : HttpRequest) (policy_name : string) : handler :=
  handle_request (asked req ("sys/policies/acl/" ++ policy_name) (if is_empty policy_name then List else Read)).

Definition sys_write_policies_request_handler (req : HttpRequest) (policy_name : string) (body : bytes) : handler :=
  let! payload := st_lift (checked_body PolicyRequest body) in
  if is_empty policy_name then st_ret (response_error 404 "")
  else handle_request (set_body (Some payload) (asked req ("sys/policies/acl/" ++ policy_name) Write)).

Definition sys_delete_policies_request_handler (req : HttpRequest) (policy_name : string) : handler :=
  if is_empty policy_name then st_ret (response_error 404 "")
  else handle_request (asked req ("sys/policies/acl/" ++ policy_name) Delete).

End sys.
End HttpSys.
