(* ===== verification/Metrics.v ===== *)
(** * Metrics (src/src/metrics, src/src/http/metrics.rs)

    Every call of the HTTP server passes through a middleware that counts it
    under its path, method and status and records its duration; a task samples
    the machine; a page shows it all.  The crates [prometheus_client] and
    [sysinfo] are parameters: the text of the registry, and what the machine
    reports. *)

From stdpp Require Import base tactics list gmap strings.
From Stdlib Require Import ZArith Lia.
From S2P Require Import Prelude Errors RustStr Utils Lease Storage Logical Http.

Local Open Scope string_scope.

(** ** HTTP metrics (http_metrics.rs) *)

Definition HTTP_REQUEST_COUNT : string := "http_request_count".
Definition HTTP_REQUEST_DURATION_SECONDS : string := "http_request_duration_seconds".

Inductive MetricsMethod := M_GET | M_POST | M_PUT | M_DELETE | M_LIST | M_OTHER.

(** [EncodeLabelValue]. *)
Definition encode_method (m : MetricsMethod) : string :=
  match m with
  | M_GET => "get" | M_POST => "post" | M_PUT => "put"
  | M_DELETE => "delete" | M_LIST => "list" | M_OTHER => "other"
  end.

Definition method_of_code (s : string) : MetricsMethod :=
  if String.eqb s "get" then M_GET else if String.eqb s "post" then M_POST
  else if String.eqb s "put" then M_PUT else if String.eqb s "delete" then M_DELETE
  else if String.eqb s "list" then M_LIST else M_OTHER.

Record HttpLabel := { label_path : string; label_method : MetricsMethod; label_status : Z }.

#[global] Instance MetricsMethod_eq_dec : EqDecision MetricsMethod.
Proof. solve_decision. Defined.
#[global] Instance HttpLabel_eq_dec : EqDecision HttpLabel.
Proof. solve_decision. Defined.
#[global] Instance HttpLabel_countable : Countable HttpLabel.
Proof.
  refine (inj_countable' (λ l, (label_path l, encode_method (label_method l), label_status l))
            (λ '(p, m, s), {| label_path := p; label_method := method_of_code m; label_status := s |}) _).
  by intros [p [] s].
Defined.

(** A counter is an atomic [u64]. *)
Definition U64 : Z := 2 ^ 64.

(** The families of counters and of histograms; of a histogram the samples in
    the order they came, [F] being [f64]. *)
Record HttpMetrics (F : Type) := {
  requests : gmap HttpLabel Z;
  histogram : gmap HttpLabel (list F)
}.
Arguments requests {F}.
Arguments histogram {F}.

(** ** System metrics (system_metrics.rs) *)

(** What [sysinfo] reports at the [i]-th sample; sizes are [u64]. *)
Class SysInfo (F : Type) : Type := {
  global_cpu_usage : nat -> F;
  sys_total_memory : nat -> Z;
  sys_used_memory : nat -> Z;
  sys_free_memory : nat -> Z;
  load_average_one : nat -> F;
  (** available and total space of each disk *)
  disks : nat -> list (Z * Z);
  (** [as f64] *)
  as_f64 : Z -> F
}.

Record SystemMetrics (F : Type) := {
  samples : nat;
  cpu_usage : F;
  total_memory : F;
  used_memory : F;
  free_memory : F;
  total_disk_available : F;
  total_disk_space : F;
  load_avg : F
}.
Arguments samples {F}.
Arguments cpu_usage {F}.
Arguments total_memory {F}.
Arguments used_memory {F}.
Arguments free_memory {F}.
Arguments total_disk_available {F}.
Arguments total_disk_space {F}.
Arguments load_avg {F}.

(** [struct MetricsManager]; the registry refers to the families and gauges. *)
Record MetricsManager (F : Type) := {
  system_metrics : SystemMetrics F;
  http_metrics : HttpMetrics F
}.
Arguments system_metrics {F}.
Arguments http_metrics {F}.

(** The text format of the registry. *)
Class RegistryText (F : Type) : Type := registry_encode : MetricsManager F -> option string.

Module Metrics.
Section metrics.
Context {F : Type} `{HI : SysInfo F} `{HE : RegistryText F} `{HP : Profile}.

Definition new_http : HttpMetrics F := {| requests := ∅; histogram := ∅ |}.

(** [get_or_create(label).inc()]. *)
Definition increment_request_count (label : HttpLabel) (self : HttpMetrics F) : HttpMetrics F :=
  {| requests := <[label := ((default 0 (requests self !! label) + 1) mod U64)%Z]> (requests self);
     histogram := histogram self |}.

Definition observe_duration (label : HttpLabel) (duration : F) (self : HttpMetrics F) : HttpMetrics F :=
  {| requests := requests self;
     histogram := <[label := (default [] (histogram self !! label) ++ [duration])%list]> (histogram self) |}.

(** A gauge starts at zero. *)
Definition new_system : SystemMetrics F :=
  {| samples := 0; cpu_usage := as_f64 0; total_memory := as_f64 0; used_memory := as_f64 0;
     free_memory := as_f64 0; total_disk_available := as_f64 0; total_disk_space := as_f64 0;
     load_avg := as_f64 0 |}.

(** [+=] on [u64]. *)
Definition u64_add (a b : Z) : result Z :=
  if (a + b <? U64)%Z then Ok (a + b)%Z else if overflow_checks then Panic else Ok ((a + b) mod U64)%Z.

Fixpoint sum_disks (l : list (Z * Z)) (available space : Z) : result (Z * Z) :=
  match l with
  | [] => Ok (available, space)
  | (a, s) :: l =>
      let? available := u64_add available a in
      let? space := u64_add space s in
      sum_disks l available space
  end.

(** The memory gauges are set before the disks are read. *)
Definition collect_metrics : st (SystemMetrics F) RvError unit := fun self =>
  let i := samples self in
  let self :=
    {| samples := S i; cpu_usage := global_cpu_usage i; total_memory := as_f64 (sys_total_memory i);
       used_memory := as_f64 (sys_used_memory i); free_memory := as_f64 (sys_free_memory i);
       total_disk_available := total_disk_available self; total_disk_space := total_disk_space self;
       load_avg := load_avg self |} in
  match sum_disks (disks i) 0 0 with
  | Panic => (self, Panic)
  | Err e => (self, Err e)
  | Ok (available, space) =>
      ({| samples := samples self; cpu_usage := cpu_usage self; total_memory := total_memory self;
          used_memory := used_memory self; free_memory := free_memory self;
          total_disk_available := as_f64 available; total_disk_space := as_f64 space;
          load_avg := load_average_one i |}, Ok tt)
  end.

Definition new : MetricsManager F := {| system_metrics := new_system; http_metrics := new_http |}.

(** ** The middleware (middleware.rs) *)
Definition metrics_method (m : Method) : MetricsMethod :=
  match m with
  | GET => M_GET
  | OtherMethod name => if String.eqb name "LIST" then M_LIST else M_OTHER
  | POST => M_POST
  | PUT => M_PUT
  | DELETE => M_DELETE
  end.

(** [next] is the rest of the service over its state, which may fail in actix
    itself; the manager is there when the server registered one. *)
Definition metrics_midleware {X E : Type} (next : X -> X * outcome E HttpResponse)
    (path : string) (method : Method) (elapsed : F) (s : X * option (MetricsManager F))
  : (X * option (MetricsManager F)) * outcome E HttpResponse :=
  let '(x, m) := s in
  let method := metrics_method method in
  let '(x, res) := next x in
  match res with
  | Ok res =>
      let label := {| label_path := path; label_method := method; label_status := http_status res |} in
      let m := (λ m, {| system_metrics := system_metrics m;
                        http_metrics := observe_duration label elapsed
                                          (increment_request_count label (http_metrics m)) |}) <$> m in
      ((x, m), Ok res)
  | Err e => ((x, m), Err e)
  | Panic => ((x, m), Panic)
  end.

(** ** The page (http/metrics.rs) *)
Definition metrics_handler (m : MetricsManager F) : HttpResponse :=
  match registry_encode m with
  | None => {| http_status := 500; http_set_cookie := None; http_body := None |}
  | Some text => {| http_status := 200; http_set_cookie := None; http_body := Some (VStr text) |}
  end.

End metrics.
End Metrics.

(** ** Correctness *)
Section correct.
Context {F : Type} `{HI : SysInfo F} `{HE : RegistryText F} `{HP : Profile} {X E : Type}.
Import Metrics.

(** A call as the server sees it: path, method, duration, and the rest of the
    service. *)
Record MetricsCall := {
  mc_path : string;
  mc_method : Method;
  mc_elapsed : F;
  mc_next : X -> X * outcome E HttpResponse
}.

(** The calls one after the other behind the middleware, and without it. *)
Fixpoint watched (calls : list MetricsCall) (s : X * option (MetricsManager F))
  : (X * option (MetricsManager F)) * list (outcome E HttpResponse) :=
  match calls with
  | [] => (s, [])
  | c :: calls =>
      let '(s, r) := metrics_midleware (mc_next c) (mc_path c) (mc_method c) (mc_elapsed c) s in
      let '(s, l) := watched calls s in (s, r :: l)
  end.

Fixpoint unwatched (calls : list MetricsCall) (x : X) : X * list (outcome E HttpResponse) :=
  match calls with
  | [] => (x, [])
  | c :: calls => let '(x, r) := mc_next c x in let '(x, l) := unwatched calls x in (x, r :: l)
  end.

(** The label of a call with its outcome. *)
Definition call_label (c : MetricsCall) (r : outcome E HttpResponse) : option HttpLabel :=
  match r with
  | Ok res => Some {| label_path := mc_path c; label_method := metrics_method (mc_method c);
                      label_status := http_status res |}
  | _ => None
  end.

(** The calls that were answered under a label. *)
Fixpoint answered_under (l : HttpLabel) (calls : list MetricsCall) (rs : list (outcome E HttpResponse))
  : list MetricsCall :=
  match calls, rs with
  | c :: calls, r :: rs =>
      if decide (call_label c r = Some l) then c :: answered_under l calls rs
      else answered_under l calls rs
  | _, _ => []
  end.

Lemma watched_answers calls s :
  fst (fst (watched calls s)) = fst (unwatched calls (fst s)) ∧
  snd (watched calls s) = snd (unwatched calls (fst s)).
Proof.
  revert s. induction calls as [|c calls IH]; intros [x m]; [done|]. simpl.
  destruct (mc_next c x) as [x1 r] eqn:Hn.
  destruct r as [res|e|]; simpl;
    match goal with |- context [watched calls ?s] => specialize (IH s); destruct (watched calls s) as [s' l] end;
    simpl in *; destruct (unwatched calls x1) as [x2 l2]; simpl in *; naive_solver.
Qed.

Lemma watched_counts calls x m s' rs l :
  watched calls (x, Some m) = (s', rs) →
  ∃ m', snd s' = Some m' ∧ system_metrics m' = system_metrics m ∧
    (default 0 (requests (http_metrics m') !! l) mod U64
     = (default 0 (requests (http_metrics m) !! l) + Z.of_nat (length (answered_under l calls rs))) mod U64)%Z ∧
    default [] (histogram (http_metrics m') !! l)
    = (default [] (histogram (http_metrics m) !! l) ++ map mc_elapsed (answered_under l calls rs))%list.
Proof.
  revert x m s' rs. induction calls as [|c calls IH]; intros x m s' rs H; simpl in H.
  - injection H as <- <-. exists m. simpl. rewrite Z.add_0_r, app_nil_r. done.
  - destruct (mc_next c x) as [x1 r] eqn:Hn. destruct r as [res|e|].
    2,3: (destruct (watched calls (x1, Some m)) as [s2 l2] eqn:Hw; injection H as <- <-; by apply IH in Hw).
    simpl in H. set (lab := {| label_path := _; label_method := _; label_status := _ |}) in H.
    match type of H with context [watched calls (x1, Some ?mm)] => set (m1 := mm) in H end.
    destruct (watched calls (x1, Some m1)) as [s2 l2] eqn:Hw. injection H as <- <-.
    destruct (IH _ _ _ _ Hw) as (m' & Hs & Hsys & Hreq & Hhist).
    assert (answered_under l (c :: calls) (Ok res :: l2) =
            if decide (lab = l) then c :: answered_under l calls l2 else answered_under l calls l2) as Hcons.
    { cbn [answered_under]. change (call_label c (Ok res)) with (Some lab).
      destruct (decide (Some lab = Some l)), (decide (lab = l)); congruence. }
    exists m'. split_and!; [done|done| |].
    + rewrite Hreq, Hcons. simpl. destruct (decide (lab = l)) as [<-|Hne].
      * rewrite lookup_insert_eq. cbn [default length]. rewrite Nat2Z.inj_succ.
        cbn [from_option]. unfold id. rewrite Zplus_mod_idemp_l. f_equal. lia.
      * by rewrite lookup_insert_ne by congruence.
    + rewrite Hhist, Hcons. simpl. destruct (decide (lab = l)) as [<-|Hne].
      * rewrite lookup_insert_eq. simpl. by rewrite <- app_assoc.
      * by rewrite lookup_insert_ne by congruence.
Qed.

(** The middleware is transparent and counts exactly: the answers and
    the state of the server are those of the server without it, and under each
    label the counter has grown by the number of calls answered with that path,
    method and status, with one sample of their durations each, in order. *)
Theorem metrics_count_calls (calls : list MetricsCall) (x : X) (m : MetricsManager F) (l : HttpLabel) :
  let '(s', rs) := watched calls (x, Some m) in
  (fst s', rs) = unwatched calls x ∧
  ∃ m', snd s' = Some m' ∧
    (default 0 (requests (http_metrics m') !! l) mod U64
     = (default 0 (requests (http_metrics m) !! l) + Z.of_nat (length (answered_under l calls rs))) mod U64)%Z ∧
    default [] (histogram (http_metrics m') !! l)
    = (default [] (histogram (http_metrics m) !! l) ++ map mc_elapsed (answered_under l calls rs))%list.
Proof.
  pose proof (watched_answers calls (x, Some m)) as [Hx Hr]. simpl in Hx, Hr.
  destruct (watched calls (x, Some m)) as [s' rs] eqn:Hw. simpl in Hx, Hr. split.
  - rewrite Hx, Hr. by destruct (unwatched calls x).
  - destruct (watched_counts calls x m s' rs l Hw) as (m' & Hs & _ & Hreq & Hhist). eauto.
Qed.

(** A sample of a machine whose disks fit in 64 bits together succeeds and
    sets the gauges to the sums. *)
Lemma sum_disks_fits l a s :
  (0 ≤ a)%Z → (0 ≤ s)%Z → Forall (λ d, 0 ≤ fst d ∧ 0 ≤ snd d)%Z l →
  (a + foldr Z.add 0 (map fst l) < U64)%Z → (s + foldr Z.add 0 (map snd l) < U64)%Z →
  sum_disks l a s = Ok (a + foldr Z.add 0 (map fst l), s + foldr Z.add 0 (map snd l))%Z.
Proof.
  revert a s. induction l as [|[da ds] l IH]; intros a s Ha Hs Hl Hfa Hfs; simpl in *.
  - by rewrite !Z.add_0_r.
  - apply Forall_cons in Hl as [[H1 H2] Hl]. simpl in *.
    assert (0 ≤ foldr Z.add 0 (map fst l))%Z as P1
      by (clear -Hl; induction Hl as [|[] ? [] ? IH]; simpl in *; lia).
    assert (0 ≤ foldr Z.add 0 (map snd l))%Z as P2
      by (clear -Hl; induction Hl as [|[] ? [] ? IH]; simpl in *; lia).
    unfold u64_add. rewrite (proj2 (Z.ltb_lt _ _)) by lia. simpl.
    rewrite (proj2 (Z.ltb_lt _ _)) by lia. simpl. rewrite IH by (done || lia).
    by rewrite !Z.add_assoc.
Qed.

Theorem sample_sums_disks (self : SystemMetrics F) :
  Forall (λ d, 0 ≤ fst d ∧ 0 ≤ snd d)%Z (disks (samples self)) →
  (foldr Z.add 0 (map fst (disks (samples self))) < U64)%Z →
  (foldr Z.add 0 (map snd (disks (samples self))) < U64)%Z →
  ∃ self', collect_metrics self = (self', Ok tt) ∧ samples self' = S (samples self) ∧
    total_disk_available self' = as_f64 (foldr Z.add 0 (map fst (disks (samples self))))%Z ∧
    total_disk_space self' = as_f64 (foldr Z.add 0 (map snd (disks (samples self))))%Z.
Proof.
  intros Hd Ha Hs. unfold collect_metrics. cbv zeta.
  rewrite sum_disks_fits by (done || lia). eexists. split; [reflexivity|]. done.
Qed.

End correct.
