(* ===== verification/Routes.v ===== *)
(** * The routes of the HTTP server (src/src/http: mod.rs, sys.rs, logical.rs, metrics.rs)

    The services the server registers, in order, and the dispatch of a call to
    one of their handlers.  Dispatch is the work of [actix_web], which is a
    parameter with the rules its documentation gives. *)

From stdpp Require Import base tactics list gmap strings.
From Stdlib Require Import ZArith Lia Ascii.
From S2P Require Import Prelude Errors RustStr Utils Lease Storage Logical Mount VaultCore Http Metrics.

Local Open Scope string_scope.

(** ** Services *)

(** What a handler may look at: the request, the method, the part of the path
    the resource captures, the body and the clock. *)
Record Call := {
  call_req : HttpRequest;
  call_method : Method;
  call_path : string;
  call_body : bytes;
  call_now : Z
}.

(** A resource of a scope: its pattern and its routes, each with the method it
    is for ([None] for any). *)
Record Resource (H : Type) := { resource_pattern : string; resource_routes : list (option Method * H) }.
Arguments resource_pattern {H}.
Arguments resource_routes {H}.
Arguments Build_Resource {H}.

Record Scope (H : Type) := { scope_prefix : string; scope_resources : list (Resource H) }.
Arguments scope_prefix {H}.
Arguments scope_resources {H}.
Arguments Build_Scope {H}.

(** What [ServiceConfig::service] registers: a scope or a resource of its own. *)
Inductive Service (H : Type) :=
  | ScopeService (s : Scope H)
  | ResourceService (r : Resource H).
Arguments ScopeService {H}.
Arguments ResourceService {H}.

Definition service_prefix {H} (sv : Service H) : string :=
  match sv with ScopeService s => scope_prefix s | ResourceService _ => "" end.

Definition service_resources {H} (sv : Service H) : list (Resource H) :=
  match sv with ScopeService s => scope_resources s | ResourceService r => [r] end.

Module HttpService.
Import Http HttpLogical HttpSys.
Section service.
Context `{HT : HeaderText} `{HO : OffsetTime} `{HH : Humantime} `{HX : HexCodec} `{HD : HexDecode}.
Context `{HB : FromSlice (gmap string Value)} `{HI : FromSlice InitRequest} `{HN : FromSlice UnsealRequest}.
Context `{HM : FromSlice MountRequest} `{HR : FromSlice RemountRequest} `{HP : FromSlice PolicyRequest}.
Context {S : Type} `{HC : !CoreApi S} {F : Type} `{HE : RegistryText F}.

Definition Route : Type := Call -> st (Server S) RvError HttpResponse.

Definition to (f : HttpRequest -> st (Server S) RvError HttpResponse) : Route := fun c => f (call_req c).
Definition to_body (f : HttpRequest -> bytes -> st (Server S) RvError HttpResponse) : Route :=
  fun c => f (call_req c) (call_body c).
Definition to_path (f : HttpRequest -> string -> st (Server S) RvError HttpResponse) : Route :=
  fun c => f (call_req c) (call_path c).
Definition to_both (f : HttpRequest -> string -> bytes -> st (Server S) RvError HttpResponse) : Route :=
  fun c => f (call_req c) (call_path c) (call_body c).

Definition get (r : Route) : option Method * Route := (Some GET, r).
Definition post (r : Route) : option Method * Route := (Some POST, r).
Definition put (r : Route) : option Method * Route := (Some PUT, r).
Definition delete (r : Route) : option Method * Route := (Some DELETE, r).

Definition init_sys_service : Scope Route :=
  Build_Scope "/v1/sys"
    [Build_Resource "/init"
       [get (to sys_init_get_request_handler); post (to_body sys_init_put_request_handler);
        put (to_body sys_init_put_request_handler)];
     Build_Resource "/seal-status" [get (to sys_seal_status_request_handler)];
     Build_Resource "/seal" [post (to sys_seal_request_handler); put (to sys_seal_request_handler)];
     Build_Resource "/unseal"
       [post (to_body sys_unseal_request_handler); put (to_body sys_unseal_request_handler)];
     Build_Resource "/mounts" [get (to sys_list_mounts_request_handler)];
     Build_Resource "/mounts/{path:.*}"
       [get (to sys_list_mounts_request_handler); post (to_both sys_mount_request_handler);
        delete (to_path sys_unmount_request_handler)];
     Build_Resource "/remount"
       [post (to_body sys_remount_request_handler); put (to_body sys_remount_request_handler)];
     Build_Resource "/auth" [get (to sys_list_auth_mounts_request_handler)];
     Build_Resource "/auth/{path:.*}"
       [get (to sys_list_auth_mounts_request_handler); post (to_both sys_auth_enable_request_handler);
        delete (to_path sys_auth_disable_request_handler)];
     Build_Resource "/policy" [get (to sys_list_policy_request_handler)];
     Build_Resource "/policy/{name:.*}"
       [get (to_path sys_read_policy_request_handler); post (to_both sys_write_policy_request_handler);
        delete (to_path sys_delete_policy_request_handler)];
     Build_Resource "/policies/acl" [get (to sys_list_policies_request_handler)];
     Build_Resource "/policies/acl/{name:.*}"
       [get (to_path sys_read_policies_request_handler); post (to_both sys_write_policies_request_handler);
        delete (to_path sys_delete_policies_request_handler)]].

Definition init_logical_service : Scope Route :=
  Build_Scope "/v1"
    [Build_Resource "/{path:.*}"
       [(None, fun c => logical_request_handler (call_now c) (call_req c) (call_body c) (call_method c) (call_path c))]].

(** The metrics page, whose handler has the metrics manager and not the core. *)
Definition init_metrics_service (m : MetricsManager F) : Resource Route :=
  Build_Resource "/metrics" [get (fun _ => st_ret (Metrics.metrics_handler m))].

(** The services in the order they are registered, [m] being the metrics
    manager as it is when the call is served. *)
Definition init_service (m : MetricsManager F) : list (Service Route) :=
  [ScopeService init_sys_service; ScopeService init_logical_service; ResourceService (init_metrics_service m)].

End service.
End HttpService.

(** ** Dispatch of actix *)

(** The handler that a call with this method and path reaches, with the part of
    the path its pattern captured. *)
Class Actix : Type := dispatch : ∀ {H : Type}, Method → string → list (Service H) → option (H * string).

(** A pattern up to its variable, and the variable. *)
Fixpoint pattern_split (p : string) : string * string :=
  match p with
  | EmptyString => ("", "")
  | String a p' => if Ascii.eqb a "{" then ("", p) else let '(l, v) := pattern_split p' in (String a l, v)
  end.

(** The patterns the server uses: a text, or a text and a variable for the rest. *)
Definition simple_pattern (p : string) : bool :=
  let v := snd (pattern_split p) in is_empty v || ends_with ":.*}" v.

Definition pattern_captures (p path : string) : option string :=
  let '(l, v) := pattern_split p in
  if is_empty v then (if path =? l then Some "" else None) else strip_prefix l path.

(** The rest of the path below a scope. *)
Definition below_scope (prefix path : string) : option string :=
  rest ← strip_prefix prefix path; if is_empty rest || starts_with_char slash rest then Some rest else None.

(** The first route without a method guard or with the method of the call. *)
Fixpoint route_in {H} (m : Method) (routes : list (option Method * H)) : option H :=
  match routes with
  | [] => None
  | (g, h) :: routes =>
      if match g with None => true | Some m' => bool_decide (m = m') end then Some h else route_in m routes
  end.

(** The characters that mean themselves in the path of a URL. *)
Definition plain_char (a : ascii) : bool :=
  let n := N_of_ascii a in
  ((48 <=? n) && (n <=? 57) || (65 <=? n) && (n <=? 90) || (97 <=? n) && (n <=? 122))%N
  || bool_decide (a ∈ ["-"; "."; "_"; "~"; "/"]%char).

Fixpoint plain_text (s : string) : bool :=
  match s with EmptyString => true | String a s => plain_char a && plain_text s end.

(** Services are asked in the order of their registration.  A scope takes the
    paths that go on with a slash, or end, after its prefix, and its resources
    decide on the rest.  A resource takes the paths its pattern matches, and the
    first of its routes whose guard admits the method answers; there is no other
    answer from it. *)
Class ActixLaws `{HA : Actix} : Prop := {
  dispatch_nil {H} m path : dispatch (H := H) m path [] = None;
  dispatch_scope {H} m path (s : Scope H) ss : plain_text path = true →
    dispatch m path (ScopeService s :: ss) =
      match below_scope (scope_prefix s) path with
      | Some rest => dispatch m rest (map ResourceService (scope_resources s))
      | None => dispatch m path ss
      end;
  dispatch_resource {H} m path (r : Resource H) ss :
    plain_text path = true → simple_pattern (resource_pattern r) = true →
    dispatch m path (ResourceService r :: ss) =
      match pattern_captures (resource_pattern r) path with
      | Some captured => h ← route_in m (resource_routes r); Some (h, captured)
      | None => dispatch m path ss
      end
}.

(** The rules are consistent: read as a function they hold of it. *)
Section rules.
Context {H : Type}.

Fixpoint resources_by_rules (m : Method) (path : string) (rs : list (Resource H)) : option (H * string) :=
  match rs with
  | [] => None
  | r :: rs =>
      match pattern_captures (resource_pattern r) path with
      | Some captured => h ← route_in m (resource_routes r); Some (h, captured)
      | None => resources_by_rules m path rs
      end
  end.

Fixpoint services_by_rules (m : Method) (path : string) (ss : list (Service H)) : option (H * string) :=
  match ss with
  | [] => None
  | ScopeService s :: ss =>
      match below_scope (scope_prefix s) path with
      | Some rest => resources_by_rules m rest (scope_resources s)
      | None => services_by_rules m path ss
      end
  | ResourceService r :: ss =>
      match pattern_captures (resource_pattern r) path with
      | Some captured => h ← route_in m (resource_routes r); Some (h, captured)
      | None => services_by_rules m path ss
      end
  end.

Lemma services_of_resources m path rs : services_by_rules m path (map ResourceService rs) = resources_by_rules m path rs.
Proof. induction rs as [|r rs IH]; simpl; [done|]. by destruct (pattern_captures _ _). Qed.
End rules.

Definition rules_actix : Actix := @services_by_rules.

Lemma rules_actix_laws : ActixLaws (HA := rules_actix).
Proof.
  split; unfold dispatch, rules_actix; intros; simpl; [done| |done].
  by destruct (below_scope _ _); [rewrite services_of_resources|].
Qed.

Lemma plain_text_app s t : plain_text (s ++ t) = plain_text s && plain_text t.
Proof. induction s as [|a s IH]; simpl; [done|]. by rewrite IH, andb_assoc. Qed.

(** ** The rules at work *)
Section dispatch.
Context `{HAL : ActixLaws} {H : Type}.

Definition simple_service (sv : Service H) : bool :=
  forallb (λ r, simple_pattern (resource_pattern r)) (service_resources sv).

Lemma dispatch_resources m path (rs : list (Resource H)) :
  plain_text path = true → forallb (λ r, simple_pattern (resource_pattern r)) rs = true →
  dispatch m path (map ResourceService rs) = resources_by_rules m path rs.
Proof.
  intros Hp. induction rs as [|r rs IH]; simpl; [intros _; apply dispatch_nil|].
  intros [Hr Hrs]%andb_true_iff. rewrite dispatch_resource by done. by destruct (pattern_captures _ _); [|apply IH].
Qed.

Lemma below_scope_plain prefix path rest :
  below_scope prefix path = Some rest → plain_text path = true → plain_text rest = true.
Proof.
  unfold below_scope. destruct (strip_prefix prefix path) as [r|] eqn:E; simpl; [|done].
  apply strip_prefix_Some in E as ->. destruct (_ || _); [|done]. intros [= ->].
  rewrite plain_text_app. by intros [_ Hr]%andb_true_iff.
Qed.

(** On plain paths, and services with simple patterns, dispatch follows the rules. *)
Lemma dispatch_services m path (ss : list (Service H)) :
  plain_text path = true → forallb simple_service ss = true → dispatch m path ss = services_by_rules m path ss.
Proof.
  intros Hp. induction ss as [|[s|r] ss IH]; simpl; [intros _; apply dispatch_nil| |];
    intros [Hs Hss]%andb_true_iff.
  - rewrite dispatch_scope by done. destruct (below_scope _ _) eqn:E; [|by apply IH].
    apply dispatch_resources; [by eapply below_scope_plain|done].
  - apply andb_true_iff in Hs as [Hs _]. rewrite dispatch_resource by done.
    by destruct (pattern_captures _ _); [|apply IH].
Qed.
End dispatch.
