(* ===== verification/HttpCorrect.v ===== *)
(** * Properties of the HTTP server

    Which handlers pass a request to the core and which act without a token,
    what becomes of requests that are not authorised, unsealing over HTTP, and
    the certificate a TLS client is taken to have presented. *)

From stdpp Require Import base tactics list gmap strings.
From Stdlib Require Import ZArith Lia Ascii.
From S2P Require Import Prelude Errors Shamir RustStr Utils Lease Storage Logical Router Mount VaultCore Http Metrics Routes.

Import Http HttpLogical HttpSys HttpService.
Local Open Scope string_scope.

Create HintDb http.
#[export] Hint Unfold sys_init_get_request_handler sys_init_put_request_handler sys_seal_status_request_handler
  sys_seal_request_handler sys_unseal_request_handler sys_list_mounts_request_handler sys_mount_request_handler
  sys_unmount_request_handler sys_remount_request_handler sys_list_auth_mounts_request_handler
  sys_auth_enable_request_handler sys_auth_disable_request_handler sys_list_policy_request_handler
  sys_read_policy_request_handler sys_write_policy_request_handler sys_delete_policy_request_handler
  sys_list_policies_request_handler sys_read_policies_request_handler sys_write_policies_request_handler
  sys_delete_policies_request_handler response_seal_status handle_request : http.

Section server.
Context `{HT : HeaderText} `{HO : OffsetTime} `{HH : Humantime} `{HX : HexCodec} `{HD : HexDecode}.
Context `{HB : FromSlice (gmap string Value)} `{HI : FromSlice InitRequest} `{HN : FromSlice UnsealRequest}.
Context `{HM : FromSlice MountRequest} `{HR : FromSlice RemountRequest} `{HP : FromSlice PolicyRequest}.
Context {S : Type} `{HC : !CoreApi S} {F : Type} `{HE : RegistryText F}.
Implicit Types (h : Route (S := S)) (s : Server S) (c : Call).

(** ** Handlers that pass a request on *)

(** The token a request carries, empty when there is none. *)
Definition token_of (req : HttpRequest) : string :=
  match get_token_from_req req with Ok t => t | _ => "" end.

(** Requests as they come from the network: nothing but the path, the
    operation, the token, the body and the connection is set. *)
Definition from_network (t : string) (r : Request) : Prop :=
  client_token r = t ∧ auth r = None ∧ Logical.storage r = None ∧ Logical.handler r = None ∧
  match_path r = None ∧ data r = None ∧ secret r = None ∧ handle_phase r = PreRoute.

Lemma request_auth_fresh req : from_network (token_of req) (request_auth req).
Proof. unfold token_of, request_auth. by destruct (get_token_from_req req). Qed.

(** A refusal by the handler itself. *)
Definition refusal (r : result HttpResponse) : Prop :=
  r = Panic ∨ r = Err SerdeJson ∨ r = Ok (response_error 404 "") ∨ r = Ok (response_error 405 "").

(** The handler refuses and changes nothing, or it hands one request with the
    client's token to the core: the state is then the core's, and an error of
    the core is the answer. *)
Definition passes_on h : Prop := ∀ c s, lock_poisoned s = false →
  (∃ r, h c s = (s, r) ∧ refusal r) ∨
  ∃ req, from_network (token_of (call_req c)) req ∧
    let '((core', _), r) := core_handle_request (served_core s, req) in
    fst (h c s) = Build_Server core' false ∧
    match r with
    | Ok _ => True
    | Err e => snd (h c s) = Err e
    | Panic => snd (h c s) = Panic
    end.

(** Handing a request to [handle_request], or refusing. *)
Inductive hands_on (c : Call) : st (Server S) RvError HttpResponse → Prop :=
  | hands_refusal r : refusal r → hands_on c (st_lift r)
  | hands_request req : from_network (token_of (call_req c)) req → hands_on c (handle_request req).

Lemma handle_request_passes s req core' req' r :
  lock_poisoned s = false → core_handle_request (served_core s, req) = ((core', req'), r) →
  fst (handle_request req s) = Build_Server core' false ∧
  match r with
  | Ok _ => True
  | Err e => snd (handle_request req s) = Err e
  | Panic => snd (handle_request req s) = Panic
  end.
Proof.
  intros Hl Hr. unfold handle_request, st_bind, reading, run_request. rewrite Hl, Hr. by destruct r.
Qed.

Lemma hands_on_passes h : (∀ c, hands_on c (h c)) → passes_on h.
Proof.
  intros Hh c s Hl. destruct (Hh c) as [r Hr|req Hreq]; [left; by exists r|right].
  exists req. split; [done|]. destruct (core_handle_request _) as [[core' req'] r] eqn:E.
  by eapply handle_request_passes.
Qed.

Lemma hands_checked c A `{FromSlice A} body (k : gmap string Value → st (Server S) RvError HttpResponse) :
  (∀ p, hands_on c (k p)) → hands_on c (let! p := st_lift (checked_body A body) in k p).
Proof.
  intros Hk. unfold checked_body. destruct (from_slice (A := A) body) as [x|]; simpl.
  - destruct (from_slice body) as [p|]; simpl; [exact (Hk p)|].
    apply (hands_refusal c (Err SerdeJson)). by right; left.
  - apply (hands_refusal c (Err SerdeJson)). by right; left.
Qed.

Lemma hands_empty c (b : bool) (k : st (Server S) RvError HttpResponse) :
  hands_on c k → hands_on c (if b then st_ret (response_error 404 "") else k).
Proof.
  intros Hk. destruct b; [|done]. apply (hands_refusal c (Ok (response_error 404 ""))). by right; right; left.
Qed.

Ltac hands_on :=
  repeat first
  [ apply hands_checked; [intros ?] | apply hands_empty
  | apply hands_request; unfold asked; apply request_auth_fresh ].

(** ** The handler of the mounts *)

Lemma operation_of_cases m body :
  (∃ o, operation_of m body = Ok o) ∨ operation_of m body = Err SerdeJson.
Proof. destruct m, body; simpl; eauto; by destruct (from_slice _); eauto. Qed.

Lemma logical_request_fresh req conn p op body :
  from_network (token_of req) (logical_request req conn p op body).
Proof. apply request_auth_fresh. Qed.

Lemma logical_passes :
  passes_on (fun c => logical_request_handler (call_now c) (call_req c) (call_body c) (call_method c) (call_path c)).
Proof.
  intros c s Hl. unfold logical_request_handler. destruct (conn_data (call_req c)) as [conn|].
  2: { left. exists Panic. split; [done|by left]. }
  destruct (operation_of_cases (call_method c) (call_body c)) as [[o Ho]|Ho].
  2: { left. exists (Err SerdeJson). rewrite Ho. split; [done|by right; left]. }
  rewrite Ho. rewrite (st_bind_run _ _ s s o) by done. destruct o as [[op payload]|].
  2: { left. exists (Ok (response_error 405 "")). split; [done|by right; right; right]. }
  right. eexists. split; [apply logical_request_fresh|]. destruct (core_handle_request _) as [[core' r'] r] eqn:E.
  unfold st_bind, reading, run_request. rewrite Hl, E. destruct r as [[resp|]|e|]; [done| |done..].
  by case_bool_decide.
Qed.

(** ** Handlers that do not look at the token *)

Definition deaf h : Prop := ∀ c c' s, call_body c = call_body c' → h c s = h c' s.

(** C9: of the registered handlers five do not look for a token: those of
    [init], [seal-status], [seal] and [unseal] below [/v1/sys] act on the core
    whatever token the client presents, or none, and the metrics page answers
    with the text of the registry without touching the core.  Every other one
    refuses by itself without effect, or hands exactly one request with the
    client's token, and no authentication of its own, to the request handling of
    the core and answers with its error. *)
Theorem routes_pass_the_token (manager : MetricsManager F) (sv : Service (Route (S := S))) (res : Resource Route)
    (m : option Method) h :
  sv ∈ init_service manager → res ∈ service_resources sv → (m, h) ∈ resource_routes res →
  passes_on h ∨
  (deaf h ∧ service_prefix sv = "/v1/sys" ∧ resource_pattern res ∈ ["/init"; "/seal-status"; "/seal"; "/unseal"]) ∨
  (service_prefix sv = "" ∧ resource_pattern res = "/metrics" ∧ m = Some GET ∧
   ∀ c s, h c s = (s, Ok (Metrics.metrics_handler manager))).
Proof.
  intros Hsc Hres Hh. unfold init_service in Hsc. rewrite !elem_of_cons, elem_of_nil in Hsc.
  destruct Hsc as [->|[->|[->|[]]]].
  - simpl in Hres. rewrite !elem_of_cons, elem_of_nil in Hres.
    destruct_or! Hres; try done; subst res; simpl in Hh; rewrite ?elem_of_cons, elem_of_nil in Hh;
      destruct_or! Hh; try done; injection Hh as -> ->.
    all: first
      [ right; left; split; [intros c c' s Hb; unfold to, to_body; by rewrite ?Hb|]; split; [done|]; set_solver
      | left; apply hands_on_passes; intros c; unfold to, to_body, to_path, to_both; hands_on ].
  - left. simpl in Hres. apply list_elem_of_singleton in Hres as ->. simpl in Hh.
    apply list_elem_of_singleton in Hh. injection Hh as -> ->. apply logical_passes.
  - right; right. apply list_elem_of_singleton in Hres as ->. apply list_elem_of_singleton in Hh.
    by injection Hh as -> ->.
Qed.

(** ** After a panic under the write lock *)

(** The handler leaves the server as it is and answers with an error or refuses. *)
Definition inert s (m : st (Server S) RvError HttpResponse) : Prop :=
  ∃ r, m s = (s, r) ∧ ∀ resp, r = Ok resp → http_status resp = 404%Z ∨ http_status resp = 405%Z.

Lemma inert_reading {A} s (m : st S RvError A) k :
  lock_poisoned s = true → inert s (let! x := reading m in k x).
Proof. intros Hl. unfold inert, st_bind, reading. rewrite Hl. by eexists. Qed.

Lemma inert_writing {A} s (m : st S RvError A) k :
  lock_poisoned s = true → inert s (let! x := writing m in k x).
Proof. intros Hl. unfold inert, st_bind, writing. rewrite Hl. by eexists. Qed.

Lemma inert_lift {A} s (o : result A) k : (∀ x, inert s (k x)) → inert s (let! x := st_lift o in k x).
Proof. intros Hk. destruct o as [x|e|]; [exact (Hk x)|by eexists..]. Qed.

Lemma inert_status s r : http_status r = 404%Z ∨ http_status r = 405%Z → inert s (st_ret r).
Proof. intros Hr. exists (Ok r). split; [done|]. by intros ? [= <-]. Qed.

Ltac inert :=
  repeat first
  [ by apply inert_reading | by apply inert_writing | apply inert_lift; intros ? | by apply inert_status; auto
  | case_match ].

(** A panic of [init], [seal] or [unseal] leaves the lock poisoned: from then
    on every registered handler but that of the metrics page leaves the core
    alone and answers with an error, or refuses as before. *)
Theorem poisoned_lock_refuses (manager : MetricsManager F) (sv : Service (Route (S := S))) (res : Resource Route)
    (m : option Method) h c s :
  sv ∈ init_service manager → res ∈ service_resources sv → (m, h) ∈ resource_routes res → lock_poisoned s = true →
  resource_pattern res ≠ "/metrics" →
  ∃ r, h c s = (s, r) ∧ ∀ resp, r = Ok resp → http_status resp = 404%Z ∨ http_status resp = 405%Z.
Proof.
  intros Hsc Hres Hh Hl Hp. change (inert s (h c)).
  unfold init_service in Hsc. rewrite !elem_of_cons, elem_of_nil in Hsc. destruct Hsc as [->|[->|[->|[]]]].
  - simpl in Hres. rewrite !elem_of_cons, elem_of_nil in Hres.
    destruct_or! Hres; try done; subst res; simpl in Hh; rewrite ?elem_of_cons, elem_of_nil in Hh;
      destruct_or! Hh; try done; injection Hh as -> ->; unfold to, to_body, to_path, to_both;
      autounfold with http; inert.
  - simpl in Hres. apply list_elem_of_singleton in Hres as ->. simpl in Hh.
    apply list_elem_of_singleton in Hh. injection Hh as -> ->. unfold logical_request_handler.
    destruct (conn_data _); [|by exists Panic]. inert.
  - by apply list_elem_of_singleton in Hres as ->.
Qed.

End server.

(** ** A core that only knows whether it is sealed *)
Section witnesses.
#[local] Instance any_header : HeaderText := fun b => Some (String.string_of_list_byte b).
#[local] Instance endless_time : OffsetTime := fun t d => Some (t + d)%Z.
#[local] Instance year_only : Humantime := fun _ => Some (Lease.from_secs 31536000).
#[local] Instance byte_hex : HexCodec := fun _ => "".
#[local] Instance byte_unhex : HexDecode := fun _ => Some [].
#[local] Instance no_map : FromSlice (gmap string Value) := fun _ => Some ∅.
#[local] Instance no_init : FromSlice InitRequest := fun _ => None.
#[local] Instance no_key : FromSlice UnsealRequest := fun _ => None.
#[local] Instance no_mount : FromSlice MountRequest := fun _ => None.
#[local] Instance no_remount : FromSlice RemountRequest := fun _ => None.
#[local] Instance no_policy : FromSlice PolicyRequest := fun _ => None.
#[local] Instance flag_core : CoreApi bool := {|
  core_inited := st_ret true;
  core_init _ := st_fail ErrBarrierAlreadyInit;
  core_unseal _ := fun _ => (false, Ok true);
  core_seal := fun _ => (true, Ok tt);
  core_seal_config := st_ret {| secret_shares := x03; secret_threshold := x02 |};
  core_is_sealed := fun b => b;
  core_progress := fun _ => 0%nat;
  core_handle_request := st_fail ErrPermissionDenied
|}.

#[local] Instance no_registry : RegistryText unit := fun _ => None.

Definition idle_manager : MetricsManager unit :=
  {| system_metrics := {| samples := 0; cpu_usage := tt; total_memory := tt; used_memory := tt; free_memory := tt;
                          total_disk_available := tt; total_disk_space := tt; load_avg := tt |};
     http_metrics := Metrics.new_http |}.

Definition seal_resource : Resource (Route (S := bool)) :=
  Build_Resource "/seal" [post (to sys_seal_request_handler); put (to sys_seal_request_handler)].

(** The handler of [seal] seals for any client. *)
Lemma routes_pass_the_token_witness :
  deaf (to (S := bool) sys_seal_request_handler) ∧
  ∀ c, to sys_seal_request_handler c (Build_Server false false) = (Build_Server true false, Ok (response_ok None None)).
Proof.
  split; [|reflexivity].
  destruct (routes_pass_the_token idle_manager (ScopeService init_sys_service) seal_resource (Some POST)
              (to sys_seal_request_handler)) as [H|[(H & _)|(H & _)]].
  - apply list_elem_of_here.
  - do 2 apply list_elem_of_further. apply list_elem_of_here.
  - apply list_elem_of_here.
  - intros c c' s _. reflexivity.
  - exact H.
  - discriminate H.
Defined.

Definition bare_call : Call :=
  {| call_req := {| http_header := fun _ => None; http_cookie := fun _ => None; conn_data := None |};
     call_method := POST; call_path := ""; call_body := []; call_now := 0 |}.

Lemma poisoned_lock_refuses_witness :
  ∃ r, to sys_seal_request_handler bare_call (Build_Server false true) = (Build_Server false true, r) ∧
       ∀ resp, r = Ok resp → http_status resp = 404%Z ∨ http_status resp = 405%Z.
Proof.
  apply (poisoned_lock_refuses idle_manager (ScopeService init_sys_service) seal_resource (Some POST) (to sys_seal_request_handler) bare_call
           (Build_Server false true)).
  - apply list_elem_of_here.
  - do 2 apply list_elem_of_further. apply list_elem_of_here.
  - apply list_elem_of_here.
  - reflexivity.
  - discriminate.
Defined.
End witnesses.
