(* ===== verification/HttpProps.v ===== *)
(** * The HTTP server over the vault

    The server composed with the authentication of requests, with the life
    cycle of the core, and with the certificate credential. *)

From stdpp Require Import base tactics list gmap strings.
From Stdlib Require Import ZArith Lia Ascii.
From S2P Require Import Prelude Errors Shamir ShamirCorrect RustStr Utils Lease Storage BarrierCorrect BarrierView Logical LogicalBackend Router Policy AclModel Mount MountCorrect VaultCore VaultCorrect World WorldLaws TokenStore WorldDemo TokenCorrect TokenProps PolicyStore PolicyCorrect AuthFlow AuthCorrect Http Metrics Routes HttpCorrect.

Import Http HttpLogical.
Local Open Scope string_scope.

(** ** Errors *)
Section errors.
Context `{HX : SourceText}.

(** The answer to an error is an error of HTTP, unless a backend chose the
    status itself. *)
Lemma error_status e resp :
  error_response e = Ok resp → (400 ≤ http_status resp)%Z ∨ ∃ code text, e = ErrResponseStatus code text.
Proof. destruct e; simpl; try (by intros [= <-]; left); eauto. Qed.
End errors.

(** ** Authorisation *)
Section authorisation.
Context {S Q C : Type} `{HSt : Storage S} `{HSS : !StorageSpec S} `{HQ : LeaseQueue Q} `{HCl : Clock}
        `{HU : UuidGen} `{HX : HexCodec} `{H1 : Sha1Digest} `{HL1 : !Sha1Laws}
        `{HST : Serde TokenEntry} `{HSTL : !SerdeLaws TokenEntry}
        `{HSL : Serde LeaseEntry} `{HSO : Serde OldLeaseEntry} `{HH : Humantime} `{HJ : JsonParser}
        `{HC : PolicyCache C} `{HCL : !PolicyCacheLaws C} `{HSP : Serde PolicyEntry} `{HSPL : !SerdeLaws PolicyEntry}
        `{HHcl : HclParser} {T : Type → Type} `{HT : RadixTrie T} `{HP : Profile}.
Context `{HHT : HeaderText} `{HO : OffsetTime} `{HB : FromSlice (gmap string Value)} `{HE : SourceText}.
Abbreviation W := (World S Q C).
Context (router : T (RouterEntry T W)) (mounts : nat → option MountEntry) (stack : nat)
        (ts : TokenStore) (ps : PolicyStore) (sv : BarrierView.t) (bound_handler : string → option (Handler W)).
(** A core that handles requests with the handlers of the auth module. *)
Context `{HCore : !CoreApi W}.
Hypothesis core_handles : ∀ s, core_handle_request s =
  Phases.handle_request bound_handler false (auth_handlers router mounts stack ts ps) s.

(** C8: a call of [/v1/<path>] is served only if the path needs no
    authentication, or the token in its headers or cookie is live and either its
    policies allow the operation or it has no policies at all: any other call
    ends with an error from the core, answered with a status of at least 400
    unless the error names its status itself, or with a panic, which drops the
    connection; either way all it changes is what the pre-route phase of the core
    changed, and no backend runs. *)
Theorem unauthorised_call_refused (c : Call) (w : W) (conn : HttpConnection) (op : Operation)
    (payload : option (gmap string Value)) :
  configured ts sv → ps_configured ps sv → revokes_apart (Router.handle_request router) sv →
  store_wf ts sv w → ps_wf sv w →
  conn_data (call_req c) = Some conn → operation_of (call_method c) (call_body c) = Ok (Some (op, payload)) →
  Router.is_unauth_path (call_path c) router = false →
  let req := logical_request (call_req c) conn (call_path c) op payload in
  ¬ authorised router ts sv w req →
  let s := fst (Phases.handle_pre_route_phase (auth_handlers router mounts stack ts ps) (w, req)) in
  ∃ r, logical_request_handler (call_now c) (call_req c) (call_body c) (call_method c) (call_path c)
         (Build_Server w false) = (Build_Server (fst s) false, r) ∧
       (r = Panic ∨ ∃ e, r = Err e ∧ ∀ resp, error_response e = Ok resp →
          (400 ≤ http_status resp)%Z ∨ ∃ code text, e = ErrResponseStatus code text).
Proof.
  intros Hcfg Hpcfg Hroute Hw Hps Hconn Hop Hun req Hno s.
  pose proof (pre_route_refuses router mounts stack ts ps sv w req Hcfg Hpcfg Hroute Hw Hps Hun Hno) as Hr.
  subst s. destruct (Phases.handle_pre_route_phase _ _) as [s r] eqn:Hpre.
  pose proof (pre_route_ends bound_handler _ _ _ _ Hpre Hr) as Hrun. rewrite <- core_handles in Hrun.
  unfold logical_request_handler. rewrite Hconn, Hop. rewrite (st_bind_run _ _ _ (Build_Server w false) (Some (op, payload))) by done.
  fold req. unfold st_bind, reading, run_request. simpl. rewrite Hrun. destruct s as [w' req'].
  destruct r as [x|e|]; simpl in *; [by destruct (Hr x)|eexists; split; [done|]..].
  - right. exists e. split; [done|]. apply error_status.
  - by left.
Qed.
End authorisation.

(** ** Unsealing over HTTP *)
Section unsealing.
Context {B : Type} `{HB : Backend B} `{HBS : !BackendSpec B} `{HG : AesGcm} `{HGL : !AesGcmLaws}
        `{HR : Rng} `{HS : Serde BarrierInit} `{HSL : !SerdeLaws BarrierInit} `{HSha : Sha256}.
Context {T : Type -> Type} `{HT : RadixTrie T} {W : Type}.
Context `{HH : HmacSha256} `{HX : HexCodec} `{HU : UuidGen} `{HSM : Serde (gmap string MountEntry)}.
Context `{HSC : Serde SealConfig} `{HSCL : !SerdeLaws SealConfig} `{HP : Profile} `{HD : HexDecode} `{HN : FromSlice UnsealRequest}.
Abbreviation core := (Core B T W).
Context (modules : list (VaultModule core)) (token : option (st core RvError string)).
Context (handle : st (core * Request) RvError (option Response)).

(** The life cycle of the core, as the server uses it. *)
#[local] Instance core_ops : CoreApi core := {|
  core_inited := CoreOps.inited;
  core_init := CoreOps.init modules token;
  core_unseal := CoreOps.unseal modules;
  core_seal := CoreOps.seal modules;
  core_seal_config := CoreOps.seal_config;
  core_is_sealed := core_sealed;
  core_progress := CoreOps.unseal_progress;
  core_handle_request := handle
|}.

(** Calls of [/v1/sys/unseal], one after the other, with their answers. *)
Fixpoint post_unseals (calls : list (HttpRequest * bytes)) (s : Server core)
  : Server core * list (result HttpResponse) :=
  match calls with
  | [] => (s, [])
  | (q, b) :: calls =>
      let '(s, r) := HttpSys.sys_unseal_request_handler q b s in
      let '(s, rs) := post_unseals calls s in (s, r :: rs)
  end.

(** A call whose body is the key in hexadecimal. *)
Definition carries (call : HttpRequest * bytes) (key : bytes) : Prop :=
  ∃ text, from_slice (snd call) = Some {| unseal_key := text |} ∧ hex_decode text = Some key.

Definition status_answer (config : SealConfig) (sealed : bool) (progress : nat) : result HttpResponse :=
  Ok (response_json_ok None (HttpSys.seal_status_json
        {| ss_sealed := sealed; ss_t := secret_shares config; ss_n := secret_threshold config;
           ss_progress := progress |})).

Lemma post_unseal_step call key (c c1 : core) config b :
  carries call key → CoreOps.unseal modules key c = (c1, Ok b) → CoreOps.seal_config c1 = (c1, Ok config) →
  HttpSys.sys_unseal_request_handler (fst call) (snd call) (Build_Server c false) =
    (Build_Server c1 false, status_answer config (core_sealed c1) (CoreOps.unseal_progress c1)).
Proof.
  intros (text & Hb & Hk) Hu Hc. unfold HttpSys.sys_unseal_request_handler.
  rewrite Hb. rewrite (st_bind_run _ _ _ (Build_Server c false) {| unseal_key := text |}) by done.
  simpl. rewrite Hk. rewrite (st_bind_run _ _ _ (Build_Server c false) key) by done.
  rewrite (st_bind_run _ _ _ (Build_Server c1 false) b) by (unfold writing; simpl; by rewrite Hu).
  unfold HttpSys.response_seal_status. erewrite st_bind_run; [done|].
  unfold reading, HttpSys.seal_status. simpl. unfold st_bind. by rewrite Hc.
Qed.

Section shares.
Context (c c' : core) (master enc : bytes) (config : SealConfig) (keys : list bytes).
Hypothesis Hsw : sealed_with c master config enc.
Hypothesis Hsealed : core_sealed c = true.
Hypothesis Hprogress : ∀ ks k rest, keys = (ks ++ k :: rest)%list → rest ≠ [] →
  CoreOps.unseal modules k (set_unseal_key_shares ks c) = (set_unseal_key_shares (ks ++ [k])%list c, Ok false).
Hypothesis Hlast : ∀ ks k, keys = (ks ++ [k])%list →
  CoreOps.unseal modules k (set_unseal_key_shares ks c) =
    (let! _ := CoreOps.post_unseal modules in fun c => (set_core_sealed false c, Ok true)) (opened c enc).
Hypothesis Hpost : CoreOps.post_unseal modules (opened c enc) = (c', Ok tt).
Hypothesis Hconfig : CoreOps.seal_config c' = (c', Ok config).
Hypothesis Hshares : unseal_key_shares c' = [].

Lemma post_unseals_from rest : ∀ ks calls, keys = (ks ++ rest)%list → rest ≠ [] → Forall2 carries calls rest →
  post_unseals calls (Build_Server (set_unseal_key_shares ks c) false) =
    (Build_Server (set_core_sealed false c') false,
     (map (status_answer config true) (seq (Datatypes.S (length ks)) (length rest - 1))
      ++ [status_answer config false 0])%list).
Proof.
  induction rest as [|k rest IH]; intros ks calls Hks Hne HF; [done|].
  apply Forall2_cons_inv_r in HF as ([q b] & calls' & Hcall & HF & ->). simpl.
  destruct rest as [|k' rest].
  - apply Forall2_nil_inv_r in HF as ->. simpl.
    rewrite (post_unseal_step (q, b) k _ (set_core_sealed false c') config true Hcall).
    + unfold CoreOps.unseal_progress. simpl. by rewrite Hshares.
    + rewrite Hlast by done. by rewrite (st_bind_run _ _ _ _ _ Hpost).
    + unfold CoreOps.seal_config in *. injection Hconfig as Hc. simpl. by rewrite Hc.
  - rewrite (post_unseal_step (q, b) k _ (set_unseal_key_shares (ks ++ [k])%list c) config false Hcall).
    2: { by eapply Hprogress. }
    2: { by apply (config_read c master enc config Hsw). }
    rewrite (IH (ks ++ [k])%list calls'); [|by rewrite <- (assoc_L (++)%list)|done..].
    simpl. unfold CoreOps.unseal_progress. simpl. rewrite Hsealed, length_app. simpl.
    by rewrite Nat.add_1_r, Nat.sub_0_r.
Qed.
End shares.

(** Posting any threshold of the shares of the master key to
    [/v1/sys/unseal], in hexadecimal, one after the other and in any order,
    unseals the vault: each answer but the last reports a sealed vault and the
    number of shares entered so far, the last an open one. *)
Theorem http_unseal (c c' : core) (master enc : bytes) (config : SealConfig) (shares keys : list bytes)
    (calls : list (HttpRequest * bytes)) (n : nat) :
  sealed_with c master config enc → core_sealed c = true → length master = 32%nat →
  (2 ≤ u8 (secret_threshold config))%nat → secret_shares config ≠ xff →
  ShamirSecret.split (H0 := later_rng n HR) master (secret_shares config) (secret_threshold config) = Ok shares →
  NoDup keys → (∀ k, k ∈ keys → k ∈ shares) → length keys = u8 (secret_threshold config) →
  Forall2 carries calls keys →
  CoreOps.post_unseal modules (opened c enc) = (c', Ok tt) →
  CoreOps.seal_config c' = (c', Ok config) → unseal_key_shares c' = [] →
  post_unseals calls (Build_Server c false) =
    (Build_Server (set_core_sealed false c') false,
     (map (status_answer config true) (seq 1 (u8 (secret_threshold config) - 1))
      ++ [status_answer config false 0])%list).
Proof.
  intros Hsw Hcs Hm Ht Hff Hsplit Hnd Hsub Hlen HF Hpost Hcfg Hks.
  destruct (shares_unseal modules c master enc config shares keys n) as [Hrec Hlast]; [done..|].
  rewrite <- Hlen.
  replace c with (set_unseal_key_shares [] c) at 1 by (pose proof (sw_shares _ _ _ _ Hsw); destruct c; by simplify_eq/=).
  eapply post_unseals_from; try done. intros ->. simpl in Hlen. lia.
Qed.
End unsealing.

(** ** Witnesses *)
Section witnesses.
#[local] Existing Instance lower_hex.
#[local] Existing Instance toy_sha1.
#[local] Existing Instance toy_sha1_laws.
#[local] Existing Instance demo_storage.
#[local] Existing Instance demo_storage_spec.
#[local] Existing Instance lease_list.
#[local] Existing Instance demo_clock.
#[local] Existing Instance demo_uuid.
#[local] Existing Instance token_serde.
#[local] Existing Instance token_serde_laws.
#[local] Existing Instance blank_lease_serde.
#[local] Existing Instance no_old_lease_serde.
#[local] Existing Instance no_durations.
#[local] Existing Instance no_json.
#[local] Existing Instance policy_map.
#[local] Existing Instance policy_map_laws.
#[local] Existing Instance policy_serde.
#[local] Existing Instance policy_serde_laws.
#[local] Existing Instance empty_hcl.
#[local] Existing Instance strict_profile.
#[local] Existing Instance any_header.
#[local] Existing Instance endless_time.
#[local] Existing Instance no_map.
#[local] Instance no_text : SourceText := fun _ => "".

#[local] Instance gated_core : CoreApi DemoWorld := {|
  core_inited := st_ret true;
  core_init _ := st_fail ErrBarrierAlreadyInit;
  core_unseal _ := st_ret true;
  core_seal := st_ret tt;
  core_seal_config := st_ret demo_seal_config;
  core_is_sealed := fun _ => false;
  core_progress := fun _ => 0%nat;
  core_handle_request := Phases.handle_request (λ _, None) false (auth_handlers bare_router (λ _, None) 9 demo_ts demo_ps)
|}.

(** A call without a token, and one whose [Authorization] is not a bearer's. *)
Definition call_with (auth : option bytes) : Call :=
  {| call_req := {| http_header := fun n => if String.eqb n AUTHORIZATION then auth else None;
                    http_cookie := fun _ => None; conn_data := Some new_connection |};
     call_method := GET; call_path := "secret/a"; call_body := []; call_now := 0 |}.

Lemma unauthorised_call_refused_witness :
  ∃ w' r, logical_request_handler 0 (call_req (call_with None)) [] GET "secret/a" (Build_Server demo_pworld false)
          = (Build_Server w' false, r) ∧ (r = Panic ∨ ∃ e, r = Err e).
Proof.
  destruct (unauthorised_call_refused (HCore := gated_core) bare_router (λ _, None) 9 demo_ts demo_ps demo_sys (λ _, None)
              (λ s, eq_refl) (call_with None) demo_pworld new_connection Read None
              demo_configured demo_ps_configured bare_router_apart demo_pworld_wf demo_ps_wf)
    as (r & Hr & Ho).
  - reflexivity.
  - reflexivity.
  - reflexivity.
  - intros (te & Hne & _). apply Hne. reflexivity.
  - eexists _, r. split; [exact Hr|]. destruct Ho as [Ho|(e & He & _)]; [left; exact Ho|right; exists e; exact He].
Defined.
End witnesses.

(** *** Two of three shares over HTTP *)
Section unseal_witness.
(** The text of a key is its bytes, and a body is the text. *)
#[local] Instance text_hex : HexDecode := fun s => Some (String.list_byte_of_string s).
#[local] Instance text_body : FromSlice UnsealRequest :=
  fun b => Some {| unseal_key := String.string_of_list_byte b |}.

Definition share_calls : list (HttpRequest * bytes) :=
  map (λ k, (call_req (call_with None), k)) [nth 2 demo_shares []; nth 0 demo_shares []].

(** The vault of the other examples with the backends of the default mounts. *)
Definition full_vault : Core MemBackend.t (gmap string) nat :=
  set_logical_backends {["kv" := Ok demo_dyn; "system" := Ok demo_dyn]} demo_vault.

Lemma full_sealed_with :
  sealed_with (HBS := MemBackend.backend_spec) (HG := toy_gcm) (HS := demo_serde) (HSC := demo_config_serde)
    full_vault demo_master demo_seal_config (replicate 32 x00).
Proof. destruct demo_sealed_with as [? ? ? ? ? ?]. by split. Qed.

Definition opened_vault : Core MemBackend.t (gmap string) nat :=
  fst (CoreOps.post_unseal (HG := toy_gcm) (HR := demo_rng) (HSha := fun l => l)
         (HH := demo_hmac) (HX := demo_hex) (HU := demo_uuid) (HSM := demo_table_serde)
         [] (opened full_vault (replicate 32 x00))).

Lemma http_unseal_witness :
  snd (post_unseals (HG := toy_gcm) (HR := demo_rng) (HS := demo_serde) (HSha := fun l => l) (HH := demo_hmac)
         (HX := demo_hex) (HU := demo_uuid) (HSM := demo_table_serde) (HSC := demo_config_serde) (HP := true)
         [] None (st_ret None) share_calls (Build_Server full_vault false)) =
  [status_answer demo_seal_config true 1; status_answer demo_seal_config false 0].
Proof.
  rewrite (http_unseal (HBS := MemBackend.backend_spec) (HG := toy_gcm) (HGL := toy_gcm_laws) (HR := demo_rng)
    (HS := demo_serde) (HSL := countable_serde_laws BarrierInit) (HSCL := countable_serde_laws SealConfig)
    (HSha := fun l => l) (HH := demo_hmac) (HX := demo_hex) (HU := demo_uuid) (HSM := demo_table_serde)
    (HSC := demo_config_serde) (HP := true) [] None (st_ret None) full_vault opened_vault demo_master
    (replicate 32 x00) demo_seal_config demo_shares [nth 2 demo_shares []; nth 0 demo_shares []] share_calls 3
    full_sealed_with).
  - reflexivity.
  - reflexivity.
  - reflexivity.
  - vm_compute. lia.
  - discriminate.
  - by vm_compute.
  - apply (bool_decide_eq_true_1 _). by vm_compute.
  - apply Forall_forall. apply (bool_decide_eq_true_1 _). by vm_compute.
  - reflexivity.
  - unfold share_calls. simpl map. repeat constructor; eexists; (split; [reflexivity|]); unfold hex_decode, text_hex;
      by rewrite String.list_byte_of_string_of_list_byte.
  - unfold opened_vault. apply pair_of_snd. by vm_compute.
  - unfold CoreOps.seal_config. apply (f_equal (pair opened_vault)). by vm_compute.
  - by vm_compute.
Defined.
End unseal_witness.
