(* ===== verification/HttpCert.v ===== *)
(** * The certificate of a TLS client

    The server's view of a connection composed with the certificate credential. *)

From stdpp Require Import base tactics list gmap strings countable.
From Stdlib Require Import ZArith Lia Ascii.
From S2P Require Import Prelude Errors RustStr Utils Lease Storage BarrierView Logical LogicalBackend Mount World WorldLaws TokenStore BarrierCorrect MountCorrect WorldDemo Cidr StoredJson TokenUtil UserPass Keys Certs CertAuth CertCorrect Http.

Import Http HttpLogical.
Local Open Scope string_scope.

Section certificates.
Context {X509 PKey : Type} `{HO : OpensslX509 X509 PKey} `{HL : OpensslLogin X509} {S Q C : Type} `{HSt : Storage S}
        `{HSS : !StorageSpec S} `{HCl : Clock} `{HSJ : Serde (gmap string Value)} `{HSJL : !SerdeLaws (gmap string Value)}
        `{HH : Humantime} `{HJ : JsonParser} `{HI : IpNet}
        `{HG : Glob} `{HB64 : Base64Encode} `{HU : UrlParser} `{HN : HttpGet} `{HD : DebugErrors} `{HX : HexCodec}.
Context `{HHT : HeaderText}.
Import CertAuth.

Lemma peer_certs_of_tls socket first rest own verify_result conn (crt : X509) :
  request_on_connect_handler (Tls socket (Some (first :: rest)) (Some own) verify_result) = Ok (Some conn) →
  x509_from_der first = Some crt →
  peer_certs (request_connection conn) = crt :: omap x509_from_der (rest ++ [own])%list.
Proof.
  intros Hc Hf. unfold request_on_connect_handler, connected in Hc.
  destruct (socket_peer socket), (socket_local socket); try done. injection Hc as <-.
  unfold peer_certs, request_connection. simpl. by rewrite Hf.
Qed.

(** A TLS client that sends further certificates after its own is judged by
    the first of those: a login over such a connection is granted because a
    role vouches for that certificate, whose key the client need not have; its
    own certificate is only one more for the chain. *)
Theorem login_judges_sent_certificate (v : BarrierView.t) (w : World S Q C) (crls : gmap string CRLInfo)
    (req : Request) s' resp (a : Auth) socket first rest own verify_result conn (crt : X509) hreq p op body :
  request_on_connect_handler (Tls socket (Some (first :: rest)) (Some own) verify_result) = Ok (Some conn) →
  x509_from_der first = Some crt →
  connection req = connection (logical_request hreq conn p op body) →
  serves v w req → login ((w, crls), req) = (s', Ok (Some resp)) → resp_auth resp = Some a →
  ∃ role, vouched v w crls (role_name req) crt (omap x509_from_der (rest ++ [own])%list) role ∧
    names_allowed crt role ∧ policies a = tp_token_policies (ct_token_params (pc_entry role)).
Proof.
  intros Hc Hf Hconn Hv Hl Ha.
  destruct (login_granted v w crls req s' resp a Hv Hl Ha) as (conn' & role & s1 & Hc' & Hvc & _ & Hp & _).
  destruct (verify_credentials_ok v w crls req s1 role Hv Hvc) as (conn2 & client & others & Hc2 & Hpeer & Hvouch & Hnames).
  rewrite Hconn in Hc2. simpl in Hc2. injection Hc2 as <-.
  rewrite (peer_certs_of_tls _ _ _ _ _ _ _ Hc Hf) in Hpeer. injection Hpeer as <- <-. by exists role.
Qed.
End certificates.

Section witnesses.
#[local] Existing Instance demo_storage.
#[local] Existing Instance demo_storage_spec.
#[local] Existing Instance demo_clock.
#[local] Existing Instance json_map.
#[local] Existing Instance json_map_laws.
#[local] Existing Instance no_durations.
#[local] Existing Instance no_json.
#[local] Existing Instance BinaryNet.binary_net.
#[local] Existing Instance toy_x509.
#[local] Existing Instance lower_hex.
#[local] Existing Instance toy_login.
#[local] Existing Instance literal_glob.
#[local] Existing Instance no_base64_text.
#[local] Existing Instance any_url.
#[local] Existing Instance no_network.
#[local] Existing Instance no_debug.
#[local] Instance raw_header : HeaderText := fun b => Some (String.string_of_list_byte b).

(** A stranger's certificate, sent with that of the host behind it. *)
Definition stranger : CertFields :=
  {| cf_version := 2; cf_serial := 99; cf_subject := [("CN", "nobody")]; cf_issuer := [("CN", "nobody")];
     cf_pubkey := [x66]; cf_not_before := 0; cf_not_after := 10 ^ 12; cf_extensions := [] |}.

Definition stranger_stream : Stream :=
  Tls {| socket_peer := Some "10.0.0.9"; socket_local := Some "10.0.0.1:8200"; socket_ttl := None |}
    (Some [pos_bytes (encode (leaf [x01]))]) (Some (pos_bytes (encode stranger))) 18.

Definition stranger_conn : HttpConnection :=
  match request_on_connect_handler stranger_stream with Ok (Some c) => c | _ => new_connection end.

Definition plain_call : HttpRequest :=
  {| http_header := fun _ => None; http_cookie := fun _ => None; conn_data := Some stranger_conn |}.

Definition stranger_request : Request :=
  set_connection (connection (logical_request plain_call stranger_conn "auth/cert/login" Write None))
    (cert_request (fst (CertAuth.login_path (PKey := nat) (S := DemoStore) (Q := LeaseList) (C := unit)))
       {["name" := VStr "host"]}).

Definition stranger_login := CertAuth.login (PKey := nat) ((host_world, ∅), stranger_request).

Lemma login_judges_sent_certificate_witness :
  ∃ role, vouched (PKey := nat) cert_view host_world ∅ "host" (leaf [x01]) [stranger] role ∧
          tp_token_policies (ct_token_params (pc_entry role)) = ["dev"].
Proof.
  destruct (login_judges_sent_certificate (PKey := nat) cert_view host_world ∅ stranger_request (fst stranger_login)
    (answer_of (snd stranger_login))
    (from_option (λ a, a) (TokenStore.default_auth 0) (resp_auth (answer_of (snd stranger_login))))
    {| socket_peer := Some "10.0.0.9"; socket_local := Some "10.0.0.1:8200"; socket_ttl := None |}
    (pos_bytes (encode (leaf [x01]))) [] (pos_bytes (encode stranger)) 18 stranger_conn (leaf [x01])
    plain_call "auth/cert/login" Write None) as (role & Hv & _ & Hp).
  - reflexivity.
  - vm_compute. reflexivity.
  - reflexivity.
  - by apply host_serves.
  - apply pair_of_snd, answered_of. vm_compute. reflexivity.
  - vm_compute. reflexivity.
  - exists role. split.
    + assert (omap x509_from_der ([] ++ [pos_bytes (encode stranger)])%list = [stranger]) as E
        by (vm_compute; reflexivity). rewrite E in Hv. exact Hv.
    + rewrite <- Hp. vm_compute. reflexivity.
Defined.
End witnesses.
