(* ===== verification/SharedState.v ===== *)
(** * Shared state of requests (src/src/context.rs, src/src/utils/locks.rs)

    The context of a request or a backend: two maps of shared objects by name
    and the list of tasks it has spawned.  The striped locks choose one of 256
    locks for a key.  The handles of tokio's tasks and the hash BLAKE2b are
    parameters. *)

From stdpp Require Import base tactics list gmap strings.
From Stdlib Require Import ZArith Lia.
From S2P Require Import Prelude Errors RustStr Storage.

Local Open Scope string_scope.

(** [JoinHandle<()>]: awaiting it gives the handle afterwards and the outcome of
    the task; a task that failed gives the error of tokio. *)
Class JoinHandles (J : Type) : Type := join_handle : J -> J * result unit.

(** [struct Context] over shared objects [D] and locked ones [L]. *)
Record ReqContext (J D L : Type) := {
  tasks : list J;
  data_map : gmap string D;
  data_map_mut : gmap string L
}.
Arguments tasks {J D L}.
Arguments data_map {J D L}.
Arguments data_map_mut {J D L}.
Arguments Build_ReqContext {J D L}.

Module ReqContext.
Section context.
Context {J D L : Type} `{HJ : JoinHandles J}.
Abbreviation t := (ReqContext J D L).

Definition new : t := Build_ReqContext [] ∅ ∅.

Definition set_mut (key : string) (data : L) (self : t) : t :=
  Build_ReqContext (tasks self) (data_map self) (<[key := data]> (data_map_mut self)).
Definition get_mut (key : string) (self : t) : option L := data_map_mut self !! key.
Definition set (key : string) (data : D) (self : t) : t :=
  Build_ReqContext (tasks self) (<[key := data]> (data_map self)) (data_map_mut self).
Definition get (key : string) (self : t) : option D := data_map self !! key.

Definition add_task (task : J) (self : t) : t :=
  Build_ReqContext (tasks self ++ [task])%list (data_map self) (data_map_mut self).
Definition clear_task (self : t) : t := Build_ReqContext [] (data_map self) (data_map_mut self).

(** The loop awaits the tasks in order up to the first failure; the handles
    stay in the list. *)
Fixpoint wait_all (l : list J) : list J * result unit :=
  match l with
  | [] => ([], Ok tt)
  | j :: l =>
      let '(j, r) := join_handle j in
      match r with
      | Ok _ => let '(l, r) := wait_all l in (j :: l, r)
      | Err e => (j :: l, Err e)
      | Panic => (j :: l, Panic)
      end
  end.

Definition wait_task_finish : st t RvError unit := fun self =>
  let '(l, r) := wait_all (tasks self) in
  (Build_ReqContext l (data_map self) (data_map_mut self), r).

End context.
End ReqContext.

(** ** Striped locks *)

(** [Params::new().hash_length(n)] of the crate [blake2b_simd], and that the
    digest has the length asked for. *)
Class Blake2b : Type := blake2b_hash : nat -> bytes -> bytes.
Class Blake2bLaws `{Blake2b} : Prop := blake2b_length n x : length (blake2b_hash n x) = n.

Definition blake2b256_hash `{Blake2b} (key : string) : bytes := blake2b_hash 32 (String.list_byte_of_string key).

Definition LOCK_COUNT : nat := 256.

Module Locks.
Section locks.
Context `{HB : Blake2b}.

(** The locks are told apart by their number. *)
Definition new : list nat := seq 0 LOCK_COUNT.

(** [self.locks[blake2b256_hash(key)[0].into()]]. *)
Definition get_lock (self : list nat) (key : string) : result nat :=
  match blake2b256_hash key with
  | [] => Panic
  | b :: _ => match self !! u8 b with Some l => Ok l | None => Panic end
  end.
End locks.
End Locks.

(** ** Correctness *)
Section context.
Context {J D L : Type} `{HJ : JoinHandles J}.
Implicit Types c : ReqContext J D L.
Import ReqContext.

(** The two maps are independent stores by name, and tasks touch neither. *)
Theorem context_stores c k k' (d : D) (l : L) (j : J) :
  get k (set k d c) = Some d ∧ (k ≠ k' → get k' (set k d c) = get k' c) ∧
  get_mut k (set_mut k l c) = Some l ∧ (k ≠ k' → get_mut k' (set_mut k l c) = get_mut k' c) ∧
  get k' (set_mut k l c) = get k' c ∧ get_mut k' (set k d c) = get_mut k' c ∧
  get k' (add_task j c) = get k' c ∧ get_mut k' (clear_task c) = get_mut k' c.
Proof.
  unfold get, get_mut, set, set_mut. simpl.
  split_and!; try done; try apply lookup_insert_eq; intros; by apply lookup_insert_ne.
Qed.

(** A task awaited again is an error of the caller. *)
Definition finished_once (j : J) : Prop := ∃ j', join_handle j = (j', Ok tt) ∧ join_handle j' = (j', Panic).

Lemma wait_all_ok (l : list J) :
  Forall (λ j, snd (join_handle j) = Ok tt) l →
  wait_all l = (map (λ j, fst (join_handle j)) l, Ok tt).
Proof.
  induction 1 as [|j l Hj _ IH]; [done|]. simpl. destruct (join_handle j) as [j' r]. simpl in *.
  subst r. by rewrite IH.
Qed.

(** Waiting returns when every task has succeeded, in order, and keeps the
    handles: waiting again without [clear_task] awaits finished tasks, which
    panics, and after [clear_task] there is nothing to wait for. *)
Theorem wait_keeps_handles c (j : J) (l : list J) :
  tasks c = j :: l → Forall finished_once (j :: l) →
  ∃ c', wait_task_finish c = (c', Ok tt) ∧ snd (wait_task_finish c') = Panic ∧
        data_map c' = data_map c ∧ wait_task_finish (clear_task c') = (clear_task c', Ok tt).
Proof.
  intros Ht Hl. assert (Forall (λ j, snd (join_handle j) = Ok tt) (j :: l)) as Hok.
  { eapply Forall_impl; [exact Hl|]. intros x (x' & Hx & _). by rewrite Hx. }
  eexists. split; [|split_and!].
  - unfold wait_task_finish. rewrite Ht, wait_all_ok by done. reflexivity.
  - unfold wait_task_finish. simpl. apply Forall_cons in Hl as [(j' & H1 & H2) _].
    rewrite H1. simpl. by rewrite H2.
  - done.
  - done.
Qed.
End context.

Section locks.
Context `{HB : Blake2b} `{HL : !Blake2bLaws}.

(** Every key has a lock, one of the 256, and the same one each time. *)
Theorem lock_total (key : string) :
  ∃ l, Locks.get_lock Locks.new key = Ok l ∧ (l < LOCK_COUNT)%nat.
Proof.
  unfold Locks.get_lock. unfold blake2b256_hash.
  pose proof (blake2b_length 32 (String.list_byte_of_string key)) as Hlen.
  destruct (blake2b_hash _ _) as [|b rest]; [done|]. unfold Locks.new.
  pose proof (Byte.to_N_bounded b) as Hb.
  assert (u8 b < LOCK_COUNT)%nat as Hu by (unfold u8, LOCK_COUNT; lia).
  rewrite (proj2 (lookup_seq 0 LOCK_COUNT (u8 b) (u8 b))) by lia. eauto.
Qed.
End locks.
