(* ===== verification/Crypto.v ===== *)
(** * Block ciphers (src/src/modules/crypto/mod.rs and its adaptors
    common.rs, openssl_adaptor.rs, tongsuo_adaptor.rs)

    [Module BlockCipher] holds the macros of common.rs, which the methods of
    [AES] are made of and [SM4] repeats; [Module AES] and [Module SM4] are the
    two ciphers.  A cipher is used in one call, or as a stream through a context
    it creates at its first use.  OpenSSL's [Crypter] is a parameter. *)

From stdpp Require Import base tactics list gmap strings.
From Stdlib Require Import ZArith Lia Ascii.
From S2P Require Import Prelude Errors RustStr Utils Storage Mount Keys.

Inductive CipherMode := CBC | GCM | CCM.
Inductive AESKeySize := AES128 | AES192 | AES256.
Inductive PublicKeyType := RSA | ECDSA | SM2.
Inductive CrypterMode := Encrypt | Decrypt.

(** ** [openssl::symm::Crypter]

    An update or the finish is given the length of its output buffer and panics
    when that is too short; [None] and [Err] are OpenSSL errors. *)
Class Crypter (X : Type) : Type := {
  crypter_new : Cipher -> CrypterMode -> bytes -> bytes -> option X;
  crypter_aad_update : X -> bytes -> X * option unit;
  crypter_update : X -> bytes -> nat -> X * outcome unit bytes;
  crypter_finalize : X -> nat -> X * outcome unit bytes;
  crypter_get_tag : X -> nat -> option bytes;
  crypter_set_tag : X -> bytes -> X * option unit
}.

(** The cipher of an algorithm: in one call, with whether it is an AEAD; as a
    stream; whether its encryption takes additional data, whether it has a tag. *)
Class CipherAlg (A : Type) : Type := {
  oneshot_cipher : A -> result (Cipher * bool);
  stream_cipher : A -> result Cipher;
  takes_aad : A -> bool;
  has_tag : A -> bool
}.

(** [AdaptorCTX]. *)
Record AdaptorCTX (X : Type) := { ctx_crypter : X; tag_set : bool; aad_set : bool }.
Arguments ctx_crypter {X}.
Arguments tag_set {X}.
Arguments aad_set {X}.
Arguments Build_AdaptorCTX {X}.

(** [AES] and [SM4]. *)
Record cipher (A X : Type) := {
  alg : A;
  cipher_key : bytes;
  cipher_iv : bytes;
  cipher_aad : option bytes;
  cipher_tag : option bytes;
  cipher_ctx : option (AdaptorCTX X)
}.
Arguments alg {A X}.
Arguments cipher_key {A X}.
Arguments cipher_iv {A X}.
Arguments cipher_aad {A X}.
Arguments cipher_tag {A X}.
Arguments cipher_ctx {A X}.

Module BlockCipher.
Section ops.
Context {A X : Type} `{HA : CipherAlg A} `{HX : Crypter X} `{HK : KeyCrypto}.
Abbreviation t := (cipher A X).
Abbreviation M := (st t RvError).

Definition set_aad_field (a : option bytes) (c : t) : t :=
  {| alg := alg c; cipher_key := cipher_key c; cipher_iv := cipher_iv c; cipher_aad := a;
     cipher_tag := cipher_tag c; cipher_ctx := cipher_ctx c |}.
Definition set_tag_field (tag : option bytes) (c : t) : t :=
  {| alg := alg c; cipher_key := cipher_key c; cipher_iv := cipher_iv c; cipher_aad := cipher_aad c;
     cipher_tag := tag; cipher_ctx := cipher_ctx c |}.
Definition set_ctx (x : AdaptorCTX X) (c : t) : t :=
  {| alg := alg c; cipher_key := cipher_key c; cipher_iv := cipher_iv c; cipher_aad := cipher_aad c;
     cipher_tag := cipher_tag c; cipher_ctx := Some x |}.

(** ** Creation *)

(** Given keys are taken as they are, of any length; a generated key has
    [key_len] bytes and its vector 16.  [i] is the next draw of the random
    source. *)
Definition new (i : nat) (a : A) (keygen : bool) (key_len : nat) (key iv : option bytes) : result t :=
  let? ki :=
    if keygen then
      let? k := openssl (rand_bytes i key_len) in
      let? v := openssl (rand_bytes (S i) 16) in
      Ok (k, v)
    else
      match key, iv with
      | Some k, Some v => Ok (k, v)
      | _, _ => Err ErrCryptoCipherInitFailed
      end in
  Ok {| alg := a; cipher_key := fst ki; cipher_iv := snd ki; cipher_aad := None; cipher_tag := None;
        cipher_ctx := None |}.

Definition get_key_iv (c : t) : bytes * bytes := (cipher_key c, cipher_iv c).

Definition set_aad (aad : bytes) : M unit := fun c => (set_aad_field (Some aad) c, Ok tt).
Definition get_tag (c : t) : result bytes := of_option ErrCryptoCipherNoTag (cipher_tag c).
Definition set_tag (tag : bytes) : M unit := fun c => (set_tag_field (Some tag) c, Ok tt).

(** ** One call: an AEAD without additional data panics, and so does one that
    decrypts without a tag. *)

Definition encrypt (plaintext : bytes) : M bytes := fun c =>
  match oneshot_cipher (alg c) with
  | Ok (ci, false) => (c, openssl (sym_encrypt ci (cipher_key c) (Some (cipher_iv c)) plaintext))
  | Ok (ci, true) =>
      match cipher_aad c with
      | None => (c, Panic)
      | Some aad =>
          match encrypt_aead ci (cipher_key c) (Some (cipher_iv c)) aad plaintext with
          | Some (ct, tag) => (set_tag_field (Some tag) c, Ok ct)
          | None => (c, Err OpenSSL)
          end
      end
  | Err e => (c, Err e)
  | Panic => (c, Panic)
  end.

Definition decrypt (ciphertext : bytes) : M bytes := fun c =>
  match oneshot_cipher (alg c) with
  | Ok (ci, false) => (c, openssl (sym_decrypt ci (cipher_key c) (Some (cipher_iv c)) ciphertext))
  | Ok (ci, true) =>
      match cipher_aad c, cipher_tag c with
      | Some aad, Some tag =>
          (c, openssl (decrypt_aead ci (cipher_key c) (Some (cipher_iv c)) aad ciphertext tag))
      | _, _ => (c, Panic)
      end
  | Err e => (c, Err e)
  | Panic => (c, Panic)
  end.

(** ** Streams *)

(** The context, created for [m] unless there is one already, of whatever
    mode. *)
Definition context (ci : Cipher) (m : CrypterMode) : M (AdaptorCTX X) := fun c =>
  match cipher_ctx c with
  | Some x => (c, Ok x)
  | None =>
      match crypter_new ci m (cipher_key c) (cipher_iv c) with
      | Some x => let x := Build_AdaptorCTX x false false in (set_ctx x c, Ok x)
      | None => (c, Err OpenSSL)
      end
  end.

(** The additional data is given to the context once, when it is there. *)
Definition give_aad (with_aad : bool) (x : AdaptorCTX X) : M (AdaptorCTX X) := fun c =>
  if with_aad && negb (aad_set x) then
    match cipher_aad c with
    | None => (c, Ok x)
    | Some aad =>
        match crypter_aad_update (ctx_crypter x) aad with
        | (y, Some _) => let x := Build_AdaptorCTX y (tag_set x) true in (set_ctx x c, Ok x)
        | (y, None) => (set_ctx (Build_AdaptorCTX y (tag_set x) (aad_set x)) c, Err OpenSSL)
        end
    end
  else (c, Ok x).

(** Output goes to the front of the caller's buffer; the number of bytes is
    returned with it. *)
Definition into (buf out : bytes) : bytes * nat := ((out ++ drop (length out) buf)%list, length out).

Definition update (e : RvError) (x : AdaptorCTX X) (input buf : bytes) : M (bytes * nat) := fun c =>
  let '(y, r) := crypter_update (ctx_crypter x) input (length buf) in
  (set_ctx (Build_AdaptorCTX y (tag_set x) (aad_set x)) c,
   match r with Ok out => Ok (into buf out) | Err _ => Err e | Panic => Panic end).

Definition finalize (e : RvError) (x : AdaptorCTX X) (buf : bytes) : M (bytes * nat) := fun c =>
  let '(y, r) := crypter_finalize (ctx_crypter x) (length buf) in
  (set_ctx (Build_AdaptorCTX y (tag_set x) (aad_set x)) c,
   match r with Ok out => Ok (into buf out) | Err _ => Err e | Panic => Panic end).

Definition inited : M (AdaptorCTX X) := fun c => (c, of_option ErrCryptoCipherNotInited (cipher_ctx c)).

Definition encrypt_update (plaintext buf : bytes) : M (bytes * nat) :=
  let! c := st_get in
  let! ci := st_lift (stream_cipher (alg c)) in
  let! x := context ci Encrypt in
  let! x := give_aad (takes_aad (alg c)) x in
  update OpenSSL x plaintext buf.

(** The tag is kept for [get_tag]; one that is there already is an error. *)
Definition encrypt_final (buf : bytes) : M (bytes * nat) :=
  let! x := inited in
  let! out := finalize OpenSSL x buf in
  let! c := st_get in
  if has_tag (alg c) then
    match cipher_tag c with
    | Some _ => st_fail ErrCryptoCipherAEADTagPresent
    | None =>
        let! x := inited in
        let! tag := st_lift (openssl (crypter_get_tag (ctx_crypter x) 16)) in
        let! _ := set_tag tag in
        st_ret out
    end
  else st_ret out.

Definition decrypt_update (ciphertext buf : bytes) : M (bytes * nat) :=
  let! c := st_get in
  let! ci := st_lift (stream_cipher (alg c)) in
  let! x := context ci Decrypt in
  let! x := give_aad (has_tag (alg c)) x in
  update ErrCryptoCipherUpdateFailed x ciphertext buf.

Definition give_tag (x : AdaptorCTX X) : M (AdaptorCTX X) := fun c =>
  if has_tag (alg c) && negb (tag_set x) then
    match cipher_tag c with
    | None => (c, Err ErrCryptoCipherNoTag)
    | Some tag =>
        match crypter_set_tag (ctx_crypter x) tag with
        | (y, Some _) => let x := Build_AdaptorCTX y true (aad_set x) in (set_ctx x c, Ok x)
        | (y, None) => (set_ctx (Build_AdaptorCTX y (tag_set x) (aad_set x)) c, Err OpenSSL)
        end
    end
  else (c, Ok x).

Definition decrypt_final (buf : bytes) : M (bytes * nat) :=
  let! x := inited in
  let! x := give_tag x in
  finalize ErrCryptoCipherFinalizeFailed x buf.

End ops.
End BlockCipher.

(** ** AES *)
Module AES.

Definition common_internal_get_cipher_alg (a : AESKeySize * CipherMode) : result (Cipher * bool) :=
  match a with
  | (AES128, CBC) => Ok (AesCbc128, false)
  | (AES192, CBC) => Ok (AesCbc192, false)
  | (AES256, CBC) => Ok (AesCbc256, false)
  | (AES128, GCM) => Ok (AesGcm128, true)
  | (AES192, GCM) => Ok (AesGcm192, true)
  | (AES256, GCM) => Ok (AesGcm256, true)
  | _ => Err ErrCryptoCipherOPNotSupported
  end.

(** Streams are for keys of 128 bits only. *)
Definition stream_alg (a : AESKeySize * CipherMode) : result Cipher :=
  match a with
  | (AES128, CBC) => Ok AesCbc128
  | (AES128, GCM) => Ok AesGcm128
  | _ => Err ErrCryptoCipherOPNotSupported
  end.

#[global] Instance aes_alg : CipherAlg (AESKeySize * CipherMode) := {|
  oneshot_cipher := common_internal_get_cipher_alg;
  stream_cipher := stream_alg;
  takes_aad a := match snd a with GCM | CCM => true | CBC => false end;
  has_tag a := match snd a with GCM => true | _ => false end
|}.

Section aes.
Context {X : Type} `{HX : Crypter X} `{HK : KeyCrypto}.
Abbreviation t := (cipher (AESKeySize * CipherMode) X).

Definition key_len (s : AESKeySize) : nat := match s with AES128 => 16 | AES192 => 24 | AES256 => 32 end.

Definition new (i : nat) (keygen : bool) (size : option AESKeySize) (mode : option CipherMode)
    (key iv : option bytes) : result t :=
  let k_size := default AES128 size in
  BlockCipher.new i (k_size, default CBC mode) keygen (key_len k_size) key iv.

Definition get_key_iv (self : t) : bytes * bytes := BlockCipher.get_key_iv self.
Definition encrypt : bytes -> st t RvError bytes := BlockCipher.encrypt.
Definition encrypt_update : bytes -> bytes -> st t RvError (bytes * nat) := BlockCipher.encrypt_update.
Definition encrypt_final : bytes -> st t RvError (bytes * nat) := BlockCipher.encrypt_final.
Definition decrypt : bytes -> st t RvError bytes := BlockCipher.decrypt.
Definition decrypt_update : bytes -> bytes -> st t RvError (bytes * nat) := BlockCipher.decrypt_update.
Definition decrypt_final : bytes -> st t RvError (bytes * nat) := BlockCipher.decrypt_final.
Definition set_aad : bytes -> st t RvError unit := BlockCipher.set_aad.
Definition get_tag (self : t) : result bytes := BlockCipher.get_tag self.
Definition set_tag : bytes -> st t RvError unit := BlockCipher.set_tag.

End aes.
End AES.

(** ** SM4, in a build with Tongsuo *)
Module SM4.

Definition oneshot_alg (m : CipherMode) : result (Cipher * bool) :=
  match m with
  | CBC => Ok (Sm4Cbc, false)
  | GCM => Ok (Sm4Gcm, true)
  | CCM => Err ErrCryptoCipherOPNotSupported
  end.

Definition stream_alg (m : CipherMode) : result Cipher :=
  match m with
  | CBC => Ok Sm4Cbc
  | GCM => Ok Sm4Gcm
  | CCM => Err ErrCryptoCipherOPNotSupported
  end.

#[global] Instance sm4_alg : CipherAlg CipherMode := {|
  oneshot_cipher := oneshot_alg;
  stream_cipher := stream_alg;
  takes_aad m := match m with GCM | CCM => true | CBC => false end;
  has_tag m := match m with GCM => true | _ => false end
|}.

Section sm4.
Context {X : Type} `{HX : Crypter X} `{HK : KeyCrypto}.
Abbreviation t := (cipher CipherMode X).

Definition new (i : nat) (keygen : bool) (mode : option CipherMode) (key iv : option bytes) : result t :=
  BlockCipher.new i (default CBC mode) keygen 16 key iv.

Definition get_key_iv (self : t) : bytes * bytes := BlockCipher.get_key_iv self.
Definition encrypt : bytes -> st t RvError bytes := BlockCipher.encrypt.
Definition encrypt_update : bytes -> bytes -> st t RvError (bytes * nat) := BlockCipher.encrypt_update.
Definition encrypt_final : bytes -> st t RvError (bytes * nat) := BlockCipher.encrypt_final.
Definition decrypt : bytes -> st t RvError bytes := BlockCipher.decrypt.
Definition decrypt_update : bytes -> bytes -> st t RvError (bytes * nat) := BlockCipher.decrypt_update.
Definition decrypt_final : bytes -> st t RvError (bytes * nat) := BlockCipher.decrypt_final.
Definition set_aad : bytes -> st t RvError unit := BlockCipher.set_aad.
Definition get_tag (self : t) : result bytes := BlockCipher.get_tag self.
Definition set_tag : bytes -> st t RvError unit := BlockCipher.set_tag.

End sm4.
End SM4.
