(* ===== verification/CryptoCorrect.v ===== *)
(** * Block ciphers: streams against single calls

    What OpenSSL's [Crypter] promises, that the stream interface of a cipher
    computes what its single call computes, that decryption undoes encryption
    however the data is cut, and the misuses that panic or go unnoticed. *)

From stdpp Require Import base tactics list gmap strings.
From Stdlib Require Import ZArith Lia.
From S2P Require Import Prelude Errors RustStr Utils Storage Mount Keys Crypto.

Definition cipher_is_aead (ci : Cipher) : bool :=
  match ci with AesGcm128 | AesGcm192 | AesGcm256 | Sm4Gcm | Sm4Ccm => true | _ => false end.

(** ** What a [Crypter] promises *)

(** The history of a context. *)
Record history := {
  h_cipher : Cipher;
  h_mode : CrypterMode;
  h_key : bytes;
  h_iv : bytes;
  h_aad : option bytes;
  h_tag : option bytes;
  h_input : bytes;
  h_output : bytes
}.

Definition fresh_history ci m k v : history :=
  {| h_cipher := ci; h_mode := m; h_key := k; h_iv := v; h_aad := None; h_tag := None; h_input := []; h_output := [] |}.
Definition with_aad (a : bytes) (s : history) : history :=
  {| h_cipher := h_cipher s; h_mode := h_mode s; h_key := h_key s; h_iv := h_iv s; h_aad := Some a;
     h_tag := h_tag s; h_input := h_input s; h_output := h_output s |}.
Definition with_tag (t : bytes) (s : history) : history :=
  {| h_cipher := h_cipher s; h_mode := h_mode s; h_key := h_key s; h_iv := h_iv s; h_aad := h_aad s;
     h_tag := Some t; h_input := h_input s; h_output := h_output s |}.
Definition fed (d out : bytes) (s : history) : history :=
  {| h_cipher := h_cipher s; h_mode := h_mode s; h_key := h_key s; h_iv := h_iv s; h_aad := h_aad s;
     h_tag := h_tag s; h_input := (h_input s ++ d)%list; h_output := (h_output s ++ out)%list |}.

(** The decryption of everything a context was given. *)
Definition history_plain `{KeyCrypto} (s : history) : option bytes :=
  if cipher_is_aead (h_cipher s) then
    t ← h_tag s; decrypt_aead (h_cipher s) (h_key s) (Some (h_iv s)) (default [] (h_aad s)) (h_input s) t
  else sym_decrypt (h_cipher s) (h_key s) (Some (h_iv s)) (h_input s).

(** [crypter_at x s]: the context has the history [s].  Additional data comes
    first, an output buffer has room for a block more than its input, and the
    outputs with that of the finish are the result of a single call. *)
Class CrypterLaws (X : Type) `{HX : Crypter X} `{HK : KeyCrypto} : Type := {
  crypter_at : X → history → Prop;
  crypter_new_at ci m k v x : crypter_new ci m k v = Some x → crypter_at x (fresh_history ci m k v);
  crypter_aad_at x s a : crypter_at x s → h_input s = [] → cipher_is_aead (h_cipher s) = true →
    ∃ y, crypter_aad_update x a = (y, Some tt) ∧ crypter_at y (with_aad a s);
  crypter_tag_at x s t : crypter_at x s → cipher_is_aead (h_cipher s) = true → length t = 16 →
    ∃ y, crypter_set_tag x t = (y, Some tt) ∧ crypter_at y (with_tag t s);
  crypter_update_at x s d n : crypter_at x s → length d + 16 ≤ n →
    ∃ y out, crypter_update x d n = (y, Ok out) ∧ crypter_at y (fed d out s);
  crypter_encrypted x s n : crypter_at x s → h_mode s = Encrypt → 16 ≤ n →
    ∃ y out, crypter_finalize x n = (y, Ok out) ∧
      if cipher_is_aead (h_cipher s) then
        ∃ tag, encrypt_aead (h_cipher s) (h_key s) (Some (h_iv s)) (default [] (h_aad s)) (h_input s)
                 = Some ((h_output s ++ out)%list, tag) ∧ crypter_get_tag y 16 = Some tag
      else sym_encrypt (h_cipher s) (h_key s) (Some (h_iv s)) (h_input s) = Some (h_output s ++ out)%list;
  crypter_decrypted x s n p : crypter_at x s → h_mode s = Decrypt → 16 ≤ n → history_plain s = Some p →
    ∃ y out, crypter_finalize x n = (y, Ok out) ∧ p = (h_output s ++ out)%list
}.

Section streams.
Context {A X : Type} `{HA : CipherAlg A} `{HX : Crypter X} `{HK : KeyCrypto} `{HL : !CrypterLaws X} `{HKL : !KeyCryptoLaws}.
Import BlockCipher.
Implicit Types (c : cipher A X).

(** Updates with their buffers, then the finish, each output cut to its length:
    the way the interface is meant to be used. *)
Fixpoint stream (upd : bytes → bytes → st (cipher A X) RvError (bytes * nat))
    (fin : bytes → st (cipher A X) RvError (bytes * nat)) (chunks : list (bytes * bytes)) (last : bytes)
  : st (cipher A X) RvError bytes :=
  match chunks with
  | [] => let! r := fin last in st_ret (take (snd r) (fst r))
  | (d, buf) :: chunks =>
      let! r := upd d buf in
      let! rest := stream upd fin chunks last in
      st_ret (take (snd r) (fst r) ++ rest)%list
  end.

Definition data_of (chunks : list (bytes * bytes)) : bytes := concat (map fst chunks).

(** Buffers with room for a block more than their input. *)
Definition roomy (chunks : list (bytes * bytes)) (last : bytes) : Prop :=
  Forall (λ p, length (fst p) + 16 ≤ length (snd p)) chunks ∧ 16 ≤ length last.

(** An algorithm whose stream and single call use the same cipher. *)
Definition streams_as (a : A) (ci : Cipher) : Prop :=
  oneshot_cipher a = Ok (ci, cipher_is_aead ci) ∧ stream_cipher a = Ok ci ∧
  has_tag a = cipher_is_aead ci ∧ takes_aad a = cipher_is_aead ci.

(** A cipher with a context of the given history. *)
Definition running c (s : history) (tagged : bool) : Prop :=
  ∃ x, cipher_ctx c = Some x ∧ crypter_at (ctx_crypter x) s ∧ tag_set x = tagged ∧
       (cipher_is_aead (h_cipher s) = true → aad_set x = true ∧ h_aad s = cipher_aad c).

Lemma take_into buf out : take (snd (into buf out)) (fst (into buf out)) = out.
Proof. apply take_app_length. Qed.

(** Only the context changes. *)
Definition same_but_ctx c c' : Prop :=
  alg c' = alg c ∧ cipher_key c' = cipher_key c ∧ cipher_iv c' = cipher_iv c ∧ cipher_aad c' = cipher_aad c ∧
  cipher_tag c' = cipher_tag c.

Lemma update_step e x c s tagged d buf :
  running c s tagged → cipher_ctx c = Some x → length d + 16 ≤ length buf →
  ∃ c' out, update e x d buf c = (c', Ok (into buf out)) ∧ running c' (fed d out s) tagged ∧ same_but_ctx c c'.
Proof.
  intros (x' & Hx & Hat & Ht & Ha) Hx' Hroom. rewrite Hx in Hx'. injection Hx' as ->.
  destruct (crypter_update_at _ _ d (length buf) Hat Hroom) as (y & out & Hu & Hat').
  unfold update. rewrite Hu. eexists _, out. split; [done|]. split; [|done].
  eexists. split; [done|]. by split_and!.
Qed.

Lemma give_aad_done b x c : b = true → aad_set x = true → give_aad b x c = (c, Ok x).
Proof. intros -> Ha. unfold give_aad. by rewrite Ha. Qed.

Lemma give_aad_skip x c : give_aad false x c = (c, Ok x).
Proof. done. Qed.

(** A running context goes on, in either direction. *)
Lemma stream_step m (b : bool) e c s tagged ci d buf :
  running c s tagged → h_cipher s = ci → b = cipher_is_aead ci → length d + 16 ≤ length buf →
  ∃ c' out, (let! x := context ci m in let! x := give_aad b x in update e x d buf) c = (c', Ok (into buf out)) ∧
            running c' (fed d out s) tagged ∧ same_but_ctx c c'.
Proof.
  intros Hr Hci -> Hroom. pose proof Hr as (x & Hx & Hat & Ht & Ha).
  rewrite (st_bind_run _ _ c c x) by (unfold context; by rewrite Hx).
  rewrite (st_bind_run _ _ c c x); [by apply (update_step e x c s tagged)|].
  destruct (cipher_is_aead ci) eqn:E; [|done]. apply give_aad_done; [done|]. rewrite <- Hci in E. by apply Ha.
Qed.

(** The history a first update starts from. *)
Definition first_history c ci m : history :=
  let s := fresh_history ci m (cipher_key c) (cipher_iv c) in
  match cipher_aad c with
  | Some a => if cipher_is_aead ci then with_aad a s else s
  | None => s
  end.

Lemma first_history_fields c ci m :
  h_cipher (first_history c ci m) = ci ∧ h_mode (first_history c ci m) = m ∧
  h_key (first_history c ci m) = cipher_key c ∧ h_iv (first_history c ci m) = cipher_iv c ∧
  h_input (first_history c ci m) = [] ∧ h_output (first_history c ci m) = [] ∧ h_tag (first_history c ci m) = None ∧
  (cipher_is_aead ci = true → is_Some (cipher_aad c) → h_aad (first_history c ci m) = cipher_aad c).
Proof.
  unfold first_history. destruct (cipher_aad c) eqn:E; [|by split_and!; try done; intros _ []].
  destruct (cipher_is_aead ci); by split_and!.
Qed.

(** The first update creates the context. *)
Lemma stream_first m (b : bool) e c ci d buf x0 :
  cipher_ctx c = None → crypter_new ci m (cipher_key c) (cipher_iv c) = Some x0 → b = cipher_is_aead ci →
  (cipher_is_aead ci = true → is_Some (cipher_aad c)) → length d + 16 ≤ length buf →
  ∃ c' out, (let! x := context ci m in let! x := give_aad b x in update e x d buf) c = (c', Ok (into buf out)) ∧
            running c' (fed d out (first_history c ci m)) false ∧ same_but_ctx c c'.
Proof.
  intros Hn Hnew -> Haad Hroom. pose proof (crypter_new_at _ _ _ _ _ Hnew) as Hat.
  set (x := Build_AdaptorCTX x0 false false).
  rewrite (st_bind_run _ _ c (set_ctx x c) x) by (unfold context; by rewrite Hn, Hnew).
  destruct (cipher_is_aead ci) eqn:Ea.
  - destruct (Haad eq_refl) as [a Ha]. destruct (crypter_aad_at _ _ a Hat eq_refl Ea) as (y & Hy & Hat').
    set (x1 := Build_AdaptorCTX y false true). set (c1 := set_ctx x1 (set_ctx x c)).
    rewrite (st_bind_run _ _ (set_ctx x c) c1 x1) by (unfold give_aad; simpl; rewrite Ha; by rewrite Hy).
    destruct (update_step e x1 c1 (first_history c ci m) false d buf) as (c' & out & Hu & Hr & Hsame).
    + exists x1. split; [done|]. unfold first_history. rewrite Ha, Ea. split_and!; try done.
    + done.
    + done.
    + exists c', out. by split_and!.
  - rewrite (st_bind_run _ _ (set_ctx x c) (set_ctx x c) x) by done.
    destruct (update_step e x (set_ctx x c) (first_history c ci m) false d buf) as (c' & out & Hu & Hr & Hsame).
    + exists x. unfold first_history. rewrite Ea. split; [done|].
      destruct (cipher_aad c); split_and!; try done; simpl; congruence.
    + done.
    + done.
    + exists c', out. by split_and!.
Qed.

(** What a finished encryption means. *)
Definition encrypts_to c (ci : Cipher) (aad : option bytes) (input output : bytes) (tag : option bytes) : Prop :=
  if cipher_is_aead ci then
    ∃ t, encrypt_aead ci (cipher_key c) (Some (cipher_iv c)) (default [] aad) input = Some (output, t) ∧ tag = Some t
  else sym_encrypt ci (cipher_key c) (Some (cipher_iv c)) input = Some output ∧ tag = None.

Lemma encrypt_final_run c s ci last :
  running c s false → streams_as (alg c) ci → h_cipher s = ci → h_mode s = Encrypt →
  h_key s = cipher_key c → h_iv s = cipher_iv c → cipher_tag c = None → 16 ≤ length last →
  ∃ c' out, encrypt_final last c = (c', Ok (into last out)) ∧
    encrypts_to c ci (h_aad s) (h_input s) (h_output s ++ out)%list (cipher_tag c').
Proof.
  intros (x & Hx & Hat & Ht & Ha) (_ & _ & Htag & _) Hci Hm Hk Hv Hno Hroom.
  destruct (crypter_encrypted _ _ (length last) Hat Hm Hroom) as (y & out & Hf & Hres).
  unfold encrypt_final. rewrite (st_bind_run _ _ c c x) by (unfold inited; by rewrite Hx).
  set (c1 := set_ctx (Build_AdaptorCTX y (tag_set x) (aad_set x)) c).
  rewrite (st_bind_run _ _ c c1 (into last out)) by (unfold finalize; by rewrite Hf).
  rewrite (st_bind_run _ _ c1 c1 c1) by done. change (alg c1) with (alg c). change (cipher_tag c1) with (cipher_tag c).
  rewrite Htag, Hno. unfold encrypts_to. rewrite Hci, Hk, Hv in Hres.
  destruct (cipher_is_aead ci).
  - destruct Hres as (tag & He & Hg).
    rewrite (st_bind_run _ _ c1 c1 (Build_AdaptorCTX y (tag_set x) (aad_set x))) by done.
    rewrite (st_bind_run _ _ c1 c1 tag) by (simpl; by rewrite Hg).
    rewrite (st_bind_run _ _ c1 (set_tag_field (Some tag) c1) tt) by done. eexists _, out. split; [done|]. eauto.
  - eexists c1, out. by split_and!.
Qed.

Lemma encrypt_stream_from ci chunks last : ∀ c s,
  running c s false → streams_as (alg c) ci → h_cipher s = ci → h_mode s = Encrypt →
  h_key s = cipher_key c → h_iv s = cipher_iv c → cipher_tag c = None → roomy chunks last →
  ∃ c' out, stream encrypt_update encrypt_final chunks last c = (c', Ok out) ∧
    encrypts_to c ci (h_aad s) (h_input s ++ data_of chunks)%list (h_output s ++ out)%list (cipher_tag c').
Proof.
  induction chunks as [|[d buf] chunks IH]; intros c s Hr Ha Hci Hm Hk Hv Hno [Hroom Hlast].
  - destruct (encrypt_final_run c s ci last) as (c' & out & Hf & He); [done..|].
    exists c', out. simpl. rewrite (st_bind_run _ _ _ _ _ Hf), take_into. split; [done|].
    unfold data_of. simpl. by rewrite app_nil_r.
  - apply Forall_cons in Hroom as [Hd Hroom]. pose proof Ha as (_ & Hst & _ & Htk).
    destruct (stream_step Encrypt (takes_aad (alg c)) OpenSSL c s false ci d buf Hr Hci Htk Hd)
      as (c1 & out & Hu & Hr1 & Ha1 & Hk1 & Hv1 & Haad1 & Ht1).
    assert (encrypt_update d buf c = (c1, Ok (into buf out))) as Hup.
    { unfold encrypt_update. rewrite (st_bind_run _ _ c c c) by done.
      rewrite (st_bind_run _ _ c c ci); [exact Hu|]. by rewrite Hst. }
    destruct (IH c1 (fed d out s)) as (c' & rest & Hs & He);
      [done|by rewrite Ha1|done|done|by rewrite Hk1|by rewrite Hv1|by rewrite Ht1|done|].
    exists c', (out ++ rest)%list. simpl. rewrite (st_bind_run _ _ _ _ _ Hup), take_into.
    rewrite (st_bind_run _ _ _ _ _ Hs). split; [done|]. unfold encrypts_to, data_of in *. simpl in *.
    rewrite Hk1, Hv1 in He. by rewrite !(assoc_L (++)%list).
Qed.

(** What a decryption has to find. *)
Definition decrypts_to c (ci : Cipher) (aad : option bytes) (input p : bytes) : Prop :=
  if cipher_is_aead ci then
    ∃ t, cipher_tag c = Some t ∧ length t = 16 ∧
         decrypt_aead ci (cipher_key c) (Some (cipher_iv c)) (default [] aad) input t = Some p
  else sym_decrypt ci (cipher_key c) (Some (cipher_iv c)) input = Some p.

Lemma decrypt_final_run c s ci last p :
  running c s false → streams_as (alg c) ci → h_cipher s = ci → h_mode s = Decrypt →
  h_key s = cipher_key c → h_iv s = cipher_iv c → 16 ≤ length last → decrypts_to c ci (h_aad s) (h_input s) p →
  ∃ c' out, decrypt_final last c = (c', Ok (into last out)) ∧ p = (h_output s ++ out)%list.
Proof.
  intros (x & Hx & Hat & Ht & Ha) (_ & _ & Htag & _) Hci Hm Hk Hv Hroom Hd. unfold decrypts_to in Hd.
  unfold decrypt_final. rewrite (st_bind_run _ _ c c x) by (unfold inited; by rewrite Hx).
  destruct (cipher_is_aead ci) eqn:Ea.
  - destruct Hd as (t & Hct & Hlen & Hd).
    destruct (crypter_tag_at _ _ t Hat) as (y & Hy & Hat'); [by rewrite Hci|done|].
    set (x1 := Build_AdaptorCTX y true (aad_set x)).
    rewrite (st_bind_run _ _ c (set_ctx x1 c) x1)
      by (unfold give_tag; rewrite Htag, Ht; simpl; by rewrite Hct, Hy).
    destruct (crypter_decrypted _ _ (length last) p Hat') as (z & out & Hf & Hp); [done..| |].
    { unfold history_plain. simpl. rewrite Hci, Ea, Hk, Hv. exact Hd. }
    unfold finalize. simpl ctx_crypter. rewrite Hf. eexists _, out. split; [done|]. exact Hp.
  - rewrite (st_bind_run _ _ c c x) by (unfold give_tag; by rewrite Htag).
    destruct (crypter_decrypted _ _ (length last) p Hat) as (z & out & Hf & Hp); [done..| |].
    { unfold history_plain. by rewrite Hci, Ea, Hk, Hv. }
    unfold finalize. rewrite Hf. by eexists _, out.
Qed.

Lemma decrypt_stream_from ci chunks last p : ∀ c s,
  running c s false → streams_as (alg c) ci → h_cipher s = ci → h_mode s = Decrypt →
  h_key s = cipher_key c → h_iv s = cipher_iv c → roomy chunks last →
  decrypts_to c ci (h_aad s) (h_input s ++ data_of chunks)%list p →
  ∃ c' out, stream decrypt_update decrypt_final chunks last c = (c', Ok out) ∧ p = (h_output s ++ out)%list.
Proof.
  induction chunks as [|[d buf] chunks IH]; intros c s Hr Ha Hci Hm Hk Hv [Hroom Hlast] Hp.
  - unfold data_of in Hp. simpl in Hp. rewrite app_nil_r in Hp.
    destruct (decrypt_final_run c s ci last p) as (c' & out & Hf & He); [done..|].
    exists c', out. simpl. by rewrite (st_bind_run _ _ _ _ _ Hf), take_into.
  - apply Forall_cons in Hroom as [Hd Hroom]. pose proof Ha as (_ & Hst & Htg & _).
    destruct (stream_step Decrypt (has_tag (alg c)) ErrCryptoCipherUpdateFailed c s false ci d buf Hr Hci Htg Hd)
      as (c1 & out & Hu & Hr1 & Ha1 & Hk1 & Hv1 & Haad1 & Ht1).
    assert (decrypt_update d buf c = (c1, Ok (into buf out))) as Hup.
    { unfold decrypt_update. rewrite (st_bind_run _ _ c c c) by done.
      rewrite (st_bind_run _ _ c c ci); [exact Hu|]. by rewrite Hst. }
    destruct (IH c1 (fed d out s)) as (c' & rest & Hs & He);
      [done|by rewrite Ha1|done|done|by rewrite Hk1|by rewrite Hv1|done| |].
    { unfold decrypts_to, data_of in *. simpl in *. by rewrite Hk1, Hv1, Ht1, <- (assoc_L (++)%list). }
    exists c', (out ++ rest)%list. simpl. rewrite (st_bind_run _ _ _ _ _ Hup), take_into.
    rewrite (st_bind_run _ _ _ _ _ Hs). split; [done|]. simpl in He. by rewrite (assoc_L (++)%list).
Qed.

(** A whole stream, from a cipher without a context. *)
Lemma encrypt_stream ci chunks last c x0 :
  streams_as (alg c) ci → cipher_ctx c = None → cipher_tag c = None →
  crypter_new ci Encrypt (cipher_key c) (cipher_iv c) = Some x0 →
  (cipher_is_aead ci = true → is_Some (cipher_aad c)) → chunks ≠ [] → roomy chunks last →
  ∃ c' out, stream encrypt_update encrypt_final chunks last c = (c', Ok out) ∧
            encrypts_to c ci (cipher_aad c) (data_of chunks) out (cipher_tag c').
Proof.
  intros Ha Hx Hno Hnew Haad Hne [Hroom Hlast]. destruct chunks as [|[d buf] chunks]; [done|].
  apply Forall_cons in Hroom as [Hd Hroom]. pose proof Ha as (_ & Hst & _ & Htk).
  destruct (stream_first Encrypt (takes_aad (alg c)) OpenSSL c ci d buf x0)
    as (c1 & out & Hu & Hr1 & Ha1 & Hk1 & Hv1 & Haad1 & Ht1); [done..|].
  assert (encrypt_update d buf c = (c1, Ok (into buf out))) as Hup.
  { unfold encrypt_update. rewrite (st_bind_run _ _ c c c) by done.
    rewrite (st_bind_run _ _ c c ci); [exact Hu|]. by rewrite Hst. }
  destruct (first_history_fields c ci Encrypt) as (F1 & F2 & F3 & F4 & F5 & F6 & _ & F8).
  destruct (encrypt_stream_from ci chunks last c1 (fed d out (first_history c ci Encrypt))) as (c' & rest & Hs & He);
    [done|by rewrite Ha1|done|done|by rewrite Hk1|by rewrite Hv1|by rewrite Ht1|done|].
  exists c', (out ++ rest)%list. simpl. rewrite (st_bind_run _ _ _ _ _ Hup), take_into.
  rewrite (st_bind_run _ _ _ _ _ Hs). split; [done|]. unfold encrypts_to, data_of in *. simpl in *.
  rewrite F5, F6, Hk1, Hv1 in He. simpl in He. destruct (cipher_is_aead ci); [|done]. by rewrite F8 in He by auto.
Qed.

Lemma decrypt_stream ci chunks last c x0 p :
  streams_as (alg c) ci → cipher_ctx c = None →
  crypter_new ci Decrypt (cipher_key c) (cipher_iv c) = Some x0 →
  (cipher_is_aead ci = true → is_Some (cipher_aad c)) → chunks ≠ [] → roomy chunks last →
  decrypts_to c ci (cipher_aad c) (data_of chunks) p →
  ∃ c', stream decrypt_update decrypt_final chunks last c = (c', Ok p).
Proof.
  intros Ha Hx Hnew Haad Hne [Hroom Hlast] Hp. destruct chunks as [|[d buf] chunks]; [done|].
  apply Forall_cons in Hroom as [Hd Hroom]. pose proof Ha as (_ & Hst & Htg & _).
  destruct (stream_first Decrypt (has_tag (alg c)) ErrCryptoCipherUpdateFailed c ci d buf x0)
    as (c1 & out & Hu & Hr1 & Ha1 & Hk1 & Hv1 & Haad1 & Ht1); [done..|].
  assert (decrypt_update d buf c = (c1, Ok (into buf out))) as Hup.
  { unfold decrypt_update. rewrite (st_bind_run _ _ c c c) by done.
    rewrite (st_bind_run _ _ c c ci); [exact Hu|]. by rewrite Hst. }
  destruct (first_history_fields c ci Decrypt) as (F1 & F2 & F3 & F4 & F5 & F6 & _ & F8).
  destruct (decrypt_stream_from ci chunks last p c1 (fed d out (first_history c ci Decrypt))) as (c' & rest & Hs & He);
    [done|by rewrite Ha1|done|done|by rewrite Hk1|by rewrite Hv1|done| |].
  { unfold decrypts_to, data_of in *. simpl in *. rewrite F5, Hk1, Hv1, Ht1. simpl.
    destruct (cipher_is_aead ci); [|done]. by rewrite F8 by auto. }
  exists c'. simpl. rewrite (st_bind_run _ _ _ _ _ Hup), take_into.
  rewrite (st_bind_run _ _ _ _ _ Hs). simpl in He. rewrite F6 in He. by subst p.
Qed.

(** C34: for an algorithm whose stream and single call use the same cipher (AES
    with a key of 128 bits, and SM4, in the modes CBC and GCM), with the
    additional data given beforehand in the mode GCM: encrypting a text as a
    stream, in any pieces and with buffers a block larger than the pieces, gives
    the ciphertext and the tag of a single call on the whole text; and a second
    cipher with the same key, vector and additional data decrypts that
    ciphertext, in any pieces and given the tag, to the text. *)
Theorem stream_roundtrip (c d : cipher A X) (ci : Cipher) (chunks : list (bytes * bytes)) (last : bytes) (x0 y0 : X) :
  streams_as (alg c) ci → alg d = alg c → get_key_iv d = get_key_iv c → cipher_aad d = cipher_aad c →
  cipher_ctx c = None → cipher_ctx d = None → cipher_tag c = None →
  crypter_new ci Encrypt (cipher_key c) (cipher_iv c) = Some x0 →
  crypter_new ci Decrypt (cipher_key c) (cipher_iv c) = Some y0 →
  (cipher_is_aead ci = true → is_Some (cipher_aad c)) → chunks ≠ [] → roomy chunks last →
  ∃ c' ct c1, stream encrypt_update encrypt_final chunks last c = (c', Ok ct) ∧
    encrypt (data_of chunks) c = (c1, Ok ct) ∧ get_tag c1 = get_tag c' ∧
    ∀ pieces last', pieces ≠ [] → roomy pieces last' → data_of pieces = ct →
      ∃ d', stream decrypt_update decrypt_final pieces last' (set_tag_field (cipher_tag c') d) = (d', Ok (data_of chunks)).
Proof.
  intros Ha Hda Hkv Haad Hx Hdx Hno Hnew Hdnew Hsome Hne Hroom. injection Hkv as Hk Hv.
  destruct (encrypt_stream ci chunks last c x0) as (c' & ct & Hs & He); [done..|].
  pose proof Ha as (Hone & _). unfold encrypts_to in He.
  assert (∃ c1, encrypt (data_of chunks) c = (c1, Ok ct) ∧ get_tag c1 = get_tag c') as (c1 & Hc1 & Ht1).
  { unfold encrypt, get_tag. rewrite Hone. destruct (cipher_is_aead ci).
    - destruct (Hsome eq_refl) as [a Haa]. rewrite Haa in *. destruct He as (t & He & ->). simpl in He.
      rewrite He. by eexists.
    - destruct He as [He ->]. rewrite He. exists c. by rewrite Hno. }
  exists c', ct, c1. split_and!; [done..|]. intros pieces last' Hpne Hproom Hdata.
  eapply decrypt_stream; try done.
  - simpl. by rewrite Hda.
  - simpl. by rewrite Hk, Hv.
  - simpl. by rewrite Haad.
  - unfold decrypts_to. rewrite Hdata. simpl. rewrite Hk, Hv, Haad. destruct (cipher_is_aead ci).
    + destruct He as (t & He & Ht). exists t. split_and!; [done| |].
      * by eapply aead_tag_length.
      * by apply aead_correct.
    + destruct He as [He _]. by apply sym_correct.
Qed.

(** ** Misuse *)

(** An AEAD cipher without additional data panics in a single call. *)
Theorem aead_without_aad_panics (c : cipher A X) ci d :
  oneshot_cipher (alg c) = Ok (ci, true) → cipher_aad c = None →
  encrypt d c = (c, Panic) ∧ decrypt d c = (c, Panic).
Proof. intros Ho Ha. unfold encrypt, decrypt. by rewrite Ho, Ha. Qed.

(** A cipher that has begun to encrypt a stream goes on encrypting when it is
    asked to decrypt: the context is the one of its first use. *)
Theorem decrypting_encrypter_encrypts (c : cipher A X) x d buf :
  cipher_ctx c = Some x → (has_tag (alg c) = takes_aad (alg c)) →
  fst (decrypt_update d buf c) = fst (encrypt_update d buf c) ∧
  ∀ r, snd (encrypt_update d buf c) = Ok r → snd (decrypt_update d buf c) = Ok r.
Proof.
  intros Hx Htk. unfold decrypt_update, encrypt_update.
  rewrite !(st_bind_run _ _ c c c) by done. rewrite Htk. destruct (stream_cipher (alg c)) as [ci|e|]; [|done..].
  rewrite !(st_bind_run _ _ c c ci) by done.
  assert (∀ m, context ci m c = (c, Ok x)) as Hctx by (intros m; unfold context; by rewrite Hx).
  rewrite !(st_bind_run _ _ _ _ _ (Hctx _)).
  unfold st_bind. destruct (give_aad _ _ _) as [c1 [x1|e|]]; [|done..]. unfold update.
  destruct (crypter_update _ _ _) as [y [out|e|]]; split; try done; intros r Hr; exact Hr || discriminate Hr.
Qed.

End streams.

(** The algorithms that stream: of AES only those with a key of 128 bits. *)
Lemma aes_streams size mode ci :
  streams_as (size, mode) ci ↔ size = AES128 ∧ (mode = CBC ∧ ci = AesCbc128 ∨ mode = GCM ∧ ci = AesGcm128).
Proof.
  split.
  - intros (Ho & Hs & _). destruct size, mode; simpl in *; try done; injection Hs as <-; eauto.
  - by intros (-> & [[-> ->]|[-> ->]]).
Qed.

Lemma sm4_streams mode ci : streams_as mode ci ↔ mode = CBC ∧ ci = Sm4Cbc ∨ mode = GCM ∧ ci = Sm4Gcm.
Proof.
  split.
  - intros (Ho & Hs & _). destruct mode; simpl in *; try done; injection Hs as <-; eauto.
  - by intros [[-> ->]|[-> ->]].
Qed.

(** Streams of AES with longer keys are refused. *)
Theorem long_keys_do_not_stream {X} `{Crypter X} `{KeyCrypto} (c : cipher (AESKeySize * CipherMode) X) d buf :
  fst (alg c) ≠ AES128 →
  snd (BlockCipher.encrypt_update d buf c) = Err ErrCryptoCipherOPNotSupported ∧
  snd (BlockCipher.decrypt_update d buf c) = Err ErrCryptoCipherOPNotSupported.
Proof.
  intros Ha. unfold BlockCipher.encrypt_update, BlockCipher.decrypt_update. rewrite !(st_bind_run _ _ c c c) by done.
  destruct (alg c) as [size mode]. by destruct size, mode.
Qed.

(** ** A toy context that passes its input on *)
Section witnesses.
#[local] Existing Instance toy_crypto.
#[local] Existing Instance toy_crypto_laws.

#[local] Instance toy_crypter : Crypter history := {|
  crypter_new ci m k v := Some (fresh_history ci m k v);
  crypter_aad_update s a := (with_aad a s, Some tt);
  crypter_update s d n := if (length d + 16 <=? n)%nat then (fed d d s, Ok d) else (s, Panic);
  crypter_finalize s n := if (16 <=? n)%nat then (s, Ok []) else (s, Panic);
  crypter_get_tag s n := Some (replicate n x00);
  crypter_set_tag s t := (with_tag t s, Some tt)
|}.

Lemma toy_plain s p : history_plain s = Some p → p = h_input s.
Proof.
  unfold history_plain. destruct (cipher_is_aead _); simpl; [destruct (h_tag s); [|done]|]; by intros [= <-].
Qed.

#[local] Instance toy_crypter_laws : CrypterLaws history.
Proof.
  refine {| crypter_at x s := x = s ∧ h_output s = h_input s |}.
  - by intros ci m k v x [= <-].
  - intros x s a [-> Ho] _ _. by eexists.
  - intros x s t [-> Ho] _ _. by eexists.
  - intros x s d n [-> Ho] Hn. cbn [crypter_update toy_crypter]. rewrite (proj2 (Nat.leb_le _ _) Hn). eexists _, d. split; [done|].
    split; [done|]. simpl. by rewrite Ho.
  - intros x s n [-> Ho] _ Hn. cbn [crypter_finalize toy_crypter]. rewrite (proj2 (Nat.leb_le 16 n) Hn). eexists _, []. split; [done|].
    rewrite app_nil_r, Ho. destruct (cipher_is_aead _); [by eexists|done].
  - intros x s n p [-> Ho] _ Hn Hp. cbn [crypter_finalize toy_crypter]. rewrite (proj2 (Nat.leb_le 16 n) Hn). eexists _, []. split; [done|].
    rewrite app_nil_r, Ho. by apply toy_plain.
Defined.

Definition toy_aes : cipher (AESKeySize * CipherMode) history :=
  {| alg := (AES128, GCM); cipher_key := replicate 16 x01; cipher_iv := replicate 16 x02; cipher_aad := Some [x03];
     cipher_tag := None; cipher_ctx := None |}.

Definition toy_chunks : list (bytes * bytes) := [([x41; x42], replicate 18 x00); ([x43], replicate 40 x00)].

Lemma stream_roundtrip_witness :
  ∃ c' ct, stream AES.encrypt_update AES.encrypt_final toy_chunks (replicate 16 x00) toy_aes = (c', Ok ct) ∧
    ∃ d', stream AES.decrypt_update AES.decrypt_final [(ct, replicate 40 x00)] (replicate 16 x00)
            (BlockCipher.set_tag_field (cipher_tag c') toy_aes) = (d', Ok [x41; x42; x43]).
Proof.
  destruct (stream_roundtrip (HL := toy_crypter_laws) toy_aes toy_aes AesGcm128 toy_chunks (replicate 16 x00)
    (fresh_history AesGcm128 Encrypt (replicate 16 x01) (replicate 16 x02))
    (fresh_history AesGcm128 Decrypt (replicate 16 x01) (replicate 16 x02))) as (c' & ct & c1 & Hs & Hc1 & _ & Hd).
  - repeat split.
  - reflexivity.
  - reflexivity.
  - reflexivity.
  - reflexivity.
  - reflexivity.
  - reflexivity.
  - reflexivity.
  - reflexivity.
  - intros _. by eexists.
  - discriminate.
  - split; [repeat constructor; simpl; lia|simpl; lia].
  - exists c', ct. split; [exact Hs|].
    assert (ct = [x41; x42; x43]) as -> by (vm_compute in Hc1; by injection Hc1).
    apply (Hd [([x41; x42; x43], replicate 40 x00)] (replicate 16 x00)).
    + discriminate.
    + split; [repeat constructor; simpl; lia|simpl; lia].
    + reflexivity.
Defined.

Definition no_aad : cipher (AESKeySize * CipherMode) history := BlockCipher.set_aad_field None toy_aes.

Lemma aead_without_aad_panics_witness : AES.encrypt [x41] no_aad = (no_aad, Panic).
Proof. apply (aead_without_aad_panics no_aad AesGcm128 [x41]); reflexivity. Defined.

Definition begun : cipher (AESKeySize * CipherMode) history :=
  fst (AES.encrypt_update [x41] (replicate 40 x00) toy_aes).

Lemma decrypting_encrypter_encrypts_witness :
  fst (AES.decrypt_update [x42] (replicate 40 x00) begun) = fst (AES.encrypt_update [x42] (replicate 40 x00) begun).
Proof.
  apply (decrypting_encrypter_encrypts begun
    (Build_AdaptorCTX (fed [x41] [x41] (with_aad [x03] (fresh_history AesGcm128 Encrypt (replicate 16 x01) (replicate 16 x02))))
       false true)); reflexivity.
Defined.
End witnesses.
