(* ===== verification/Client.v ===== *)
(** * The API client (src/src/api/) and its inputs (src/src/utils/kv_builder.rs)

    [Module ApiClient] builds HTTP calls and reads their answers, [Module ApiSys]
    and [Module ApiLogical] are the calls of the two groups, [Module KvBuilder]
    reads key=value arguments.  The agent of ureq, which carries a call to a
    server and brings its answer back, and rustls are parameters; [N] is the
    state at the other end.  The order of the keys of an object is not kept. *)

From stdpp Require Import base tactics list gmap strings pretty.
From Stdlib Require Import ZArith Lia Ascii.
From S2P Require Import Prelude Errors RustStr Utils Storage FileBackend Logical Mount ServerConfig Http.

Local Open Scope string_scope.

Definition upper_ascii (c : ascii) : ascii :=
  let n := nat_of_ascii c in if (97 <=? n)%nat && (n <=? 122)%nat then ascii_of_nat (n - 32) else c.
Fixpoint to_uppercase (s : string) : string :=
  match s with EmptyString => EmptyString | String c s => String (upper_ascii c) (to_uppercase s) end.

(** ** Calls and answers *)

Record HttpCall := {
  hc_method : string;
  hc_url : string;
  hc_headers : list (string * string);
  hc_json : option (gmap string Value)
}.

(** ureq gives a response below status 400 as [Ok] and the others as an error
    with their response; the body may not be JSON.  Other errors are those of
    the connection. *)
Inductive Answer :=
  | Answered (status : Z) (json : option Value)
  | Refused (status : Z) (json : option Value)
  | NoAnswer.

Class Agent (T N : Type) : Type := agent_call : option T -> HttpCall -> N -> N * Answer.

(** The answer of the client to its caller. *)
Record ApiResponse := {
  ar_method : string;
  ar_url : string;
  response_status : Z;
  response_data : option Value
}.

Record TLSConfigBuilder := {
  server_ca_pem : option bytes;
  client_cert_pem : option bytes;
  client_key_pem : option bytes;
  tls_server_name : option string;
  insecure : bool
}.

(** [TLSConfigBuilder::build]: the certificates and the key are read and given
    to rustls. *)
Class Rustls (T : Type) : Type := {
  rustls_certs : bytes -> option (list bytes);
  rustls_private_key : bytes -> option bytes;
  rustls_config : (bool + option (list bytes)) -> option (list bytes * bytes) -> option T
}.

Section with_tls.
Context {T : Type}.

(** The header values of the command line are kept but never sent. *)
Record Client := {
  client_address : string;
  client_token_ : string;
  client_headers : gmap string string;
  client_tls : option T
}.

End with_tls.
Arguments Client : clear implicits.

Module TlsBuilder.
Section ops.
Context {T : Type} `{HR : Rustls T}.

Definition new : TLSConfigBuilder :=
  {| server_ca_pem := None; client_cert_pem := None; client_key_pem := None; tls_server_name := None;
     insecure := false |}.

Definition with_insecure (i : bool) (b : TLSConfigBuilder) : TLSConfigBuilder :=
  {| server_ca_pem := server_ca_pem b; client_cert_pem := client_cert_pem b; client_key_pem := client_key_pem b;
     tls_server_name := tls_server_name b; insecure := i |}.

Definition with_server_ca_pem (pem : bytes) (b : TLSConfigBuilder) : TLSConfigBuilder :=
  {| server_ca_pem := Some pem; client_cert_pem := client_cert_pem b; client_key_pem := client_key_pem b;
     tls_server_name := tls_server_name b; insecure := insecure b |}.

Definition with_client_cert_pem (cert key : bytes) (b : TLSConfigBuilder) : TLSConfigBuilder :=
  {| server_ca_pem := server_ca_pem b; client_cert_pem := Some cert; client_key_pem := Some key;
     tls_server_name := tls_server_name b; insecure := insecure b |}.

Definition with_server_ca_path (files : string -> option bytes) (path : string) (b : TLSConfigBuilder)
  : result TLSConfigBuilder :=
  let? cert_data := of_option IO (files path) in Ok (with_server_ca_pem cert_data b).

Definition with_client_cert_path (files : string -> option bytes) (cert key : string) (b : TLSConfigBuilder)
  : result TLSConfigBuilder :=
  let? cert_data := of_option IO (files cert) in
  let? key_data := of_option IO (files key) in
  Ok (with_client_cert_pem cert_data key_data b).

(** The verifier of the server: none ([inl true]), the given authorities, or the
    built-in ones ([inr None]). *)
Definition build (b : TLSConfigBuilder) : result T :=
  let? verifier := (if insecure b then Ok (inl true)
                    else match server_ca_pem b with
                         | Some ca => let? roots := of_option IO (rustls_certs ca) in Ok (inr (Some roots))
                         | None => Ok (inr None)
                         end) in
  let? auth := (match client_cert_pem b, client_key_pem b with
                | Some cert, Some key =>
                    let? certs := of_option IO (rustls_certs cert) in
                    let? k := of_option RustlsPkiTypesPemFileError (rustls_private_key key) in Ok (Some (certs, k))
                | _, _ => Ok None
                end) in
  of_option RustlsError (rustls_config verifier auth).

End ops.
End TlsBuilder.

Module ApiClient.
Section ops.
Context {T N : Type} `{HA : Agent T N}.

Definition new : Client T :=
  {| client_address := "https://127.0.0.1:8200"; client_token_ := ""; client_headers := ∅; client_tls := None |}.
Definition with_addr (addr : string) (c : Client T) : Client T :=
  {| client_address := addr; client_token_ := client_token_ c; client_headers := client_headers c;
     client_tls := client_tls c |}.
Definition with_token (token : string) (c : Client T) : Client T :=
  {| client_address := client_address c; client_token_ := token; client_headers := client_headers c;
     client_tls := client_tls c |}.
Definition with_tls_config (t : T) (c : Client T) : Client T :=
  {| client_address := client_address c; client_token_ := client_token_ c; client_headers := client_headers c;
     client_tls := Some t |}.
Definition add_header (k v : string) (c : Client T) : Client T :=
  {| client_address := client_address c; client_token_ := client_token_ c;
     client_headers := <[k := v]> (client_headers c); client_tls := client_tls c |}.

Definition url (self : Client T) (path : string) : string :=
  if starts_with_char slash path then client_address self ++ path else client_address self ++ "/" ++ path.

Definition call_of (self : Client T) (method path : string) (data : option (gmap string Value)) : HttpCall :=
  {| hc_method := to_uppercase method; hc_url := url self path;
     hc_headers := ("Accept", "application/json")
       :: (if ends_with "/login" path then [] else [("X-RustyVault-Token", client_token_ self)]);
     hc_json := data |}.

Definition request (self : Client T) (method path : string) (data : option (gmap string Value))
  : st N RvError ApiResponse := fun n =>
  let ret status body :=
    {| ar_method := method; ar_url := url self path; response_status := status; response_data := body |} in
  let '(n, answer) := agent_call (client_tls self) (call_of self method path data) n in
  (n, match answer with
      | Answered status json =>
          if (status =? 204)%Z then Ok (ret status None)
          else match json with
               | Some v => Ok (ret status (Some v))
               | None => Err IO
               end
      | Refused status json => Ok (ret status json)
      | NoAnswer => Err UreqError
      end).

Definition request_list (self : Client T) (path : string) := request self "LIST" path None.
Definition request_read (self : Client T) (path : string) := request self "GET" path None.
Definition request_get (self : Client T) (path : string) := request self "GET" path None.
Definition request_write (self : Client T) (path : string) (data : option (gmap string Value)) :=
  request self "POST" path data.
Definition request_put (self : Client T) (path : string) (data : option (gmap string Value)) :=
  request self "PUT" path data.
Definition request_delete (self : Client T) (path : string) (data : option (gmap string Value)) :=
  request self "DELETE" path data.

End ops.
End ApiClient.

Record AuthInput := {
  ai_path : string;
  ai_logical_type : string;
  ai_description : string;
  ai_options : gmap string Value
}.

Module ApiSys.
Import ApiClient.
Section ops.
Context {T N : Type} `{HA : Agent T N}.
Implicit Types self : Client T.

Definition u8_json (b : byte) : Value := VInt (Z.of_nat (u8 b)).

Definition init self (r : InitRequest) : st N RvError ApiResponse :=
  request_put self "/v1/sys/init"
    (Some {["secret_shares" := u8_json (ir_secret_shares r); "secret_threshold" := u8_json (ir_secret_threshold r)]}).
Definition seal_status self : st N RvError ApiResponse := request_read self "/v1/sys/seal-status".
Definition seal self : st N RvError ApiResponse := request_put self "/v1/sys/seal" None.
Definition unseal self (key : string) : st N RvError ApiResponse :=
  request_put self "/v1/sys/unseal" (Some {["key" := VStr key]}).
Definition list_auth self : st N RvError ApiResponse := request_read self "/v1/sys/auth".

Definition auth_input_json (i : AuthInput) : gmap string Value :=
  {["path" := VStr (ai_path i); "type" := VStr (ai_logical_type i); "description" := VStr (ai_description i);
    "options" := VObject (map_to_list (ai_options i))]}.

Definition enable_auth self (i : AuthInput) : st N RvError ApiResponse :=
  request_write self ("/v1/sys/auth/" ++ ai_path i) (Some (auth_input_json i)).
Definition disable_auth self (path : string) : st N RvError ApiResponse :=
  request_delete self ("/v1/sys/auth/" ++ path) None.
Definition remount self (from to : string) : st N RvError ApiResponse :=
  request_write self "/v1/sys/remount" (Some {["from" := VStr from; "to" := VStr to]}).
Definition list_policy self : st N RvError ApiResponse := request_read self "/v1/sys/policies/acl".
Definition read_policy self (name : string) : st N RvError ApiResponse :=
  request_read self ("/v1/sys/policies/acl/" ++ name).
Definition write_policy self (name policy : string) : st N RvError ApiResponse :=
  request_write self ("/v1/sys/policies/acl/" ++ name) (Some {["policy" := VStr policy]}).
Definition delete_policy self (name : string) : st N RvError ApiResponse :=
  request_delete self ("/v1/sys/policies/acl/" ++ name) None.

End ops.
End ApiSys.

(** [value[key]] of a JSON value: null when there is no such member. *)
Definition value_index (v : Value) (k : string) : Value :=
  match as_object v with
  | Some m => default VNull ((list_to_map m : gmap string Value) !! k)
  | None => VNull
  end.

(** [map[key]] of a map panics instead. *)
Definition map_index (m : gmap string Value) (k : string) : result Value :=
  match m !! k with Some v => Ok v | None => Panic end.

Module ApiLogical.
Import ApiClient.
Section ops.
Context {T N : Type} `{HA : Agent T N}.
Implicit Types self : Client T.

Definition read self (path : string) : st N RvError ApiResponse := request_read self ("/v1/" ++ path).
Definition write self (path : string) (data : option (gmap string Value)) : st N RvError ApiResponse :=
  request_write self ("/v1/" ++ path) data.
Definition list_ self (path : string) : st N RvError ApiResponse :=
  let! ret := request_list self ("/v1/" ++ path) in
  match response_data ret with
  | Some data =>
      if (response_status ret =? 200)%Z then
        st_ret {| ar_method := ar_method ret; ar_url := ar_url ret; response_status := response_status ret;
                  response_data := Some (value_index data "data") |}
      else st_ret ret
  | None => st_ret ret
  end.
Definition delete self (path : string) (data : option (gmap string Value)) : st N RvError ApiResponse :=
  request_delete self ("/v1/" ++ path) data.

End ops.
End ApiLogical.

(** ** Arguments *)

(** What a program finds around it: files, the rest of the standard input
    ([None] when it cannot be read as text) and the password typed at the
    terminal; and what it has written. *)
Inductive Out := Print (s : string) | Println (s : string) | Eprintln (s : string).

Record Console (N : Type) := {
  net : N;
  file : string -> option bytes;
  stdin : option string;
  password : option string;
  written : list Out
}.
Arguments net {N}.
Arguments file {N}.
Arguments stdin {N}.
Arguments password {N}.
Arguments written {N}.

Module Terminal.
Section ops.
Context {N : Type}.
Abbreviation M := (st (Console N) RvError).

Definition set_net (n : N) (c : Console N) : Console N :=
  {| net := n; file := file c; stdin := stdin c; password := password c; written := written c |}.
Definition set_stdin (s : option string) (c : Console N) : Console N :=
  {| net := net c; file := file c; stdin := s; password := password c; written := written c |}.
Definition set_written (w : list Out) (c : Console N) : Console N :=
  {| net := net c; file := file c; stdin := stdin c; password := password c; written := w |}.

Definition out (o : Out) : M unit := fun c => (set_written (written c ++ [o])%list c, Ok tt).
Definition println (s : string) : M unit := out (Println s).
Definition eprintln (s : string) : M unit := out (Eprintln s).

(** A text file, and the whole standard input, which a second reader finds
    empty. *)
Definition read_to_string (path : string) (c : Console N) : option string :=
  data ← file c path; if is_utf8 data then Some (String.string_of_list_byte data) else None.
Definition read_stdin : M (option string) := fun c =>
  match stdin c with
  | Some s => (set_stdin (Some "") c, Ok (Some s))
  | None => (c, Ok None)
  end.

(** The prompt with a hidden answer; a terminal that cannot be read panics. *)
Definition read_password (prompt : string) : M string :=
  let! _ := out (Print prompt) in
  let! c := st_get in
  let! value := st_lift (match password c with Some v => Ok v | None => Panic end) in
  let! _ := println "" in
  st_ret value.

Definition over_net {A} (m : st N RvError A) : M A := fun c =>
  let '(n, r) := m (net c) in (set_net n c, r).

(** The result of a call as a value, for the [match] of a command. *)
Definition attempt {A} (m : st N RvError A) : M (A + RvError) := fun c =>
  match m (net c) with
  | (n, Ok a) => (set_net n c, Ok (inl a))
  | (n, Err e) => (set_net n c, Ok (inr e))
  | (n, Panic) => (set_net n c, Panic)
  end.

End ops.
End Terminal.

Module KvBuilder.
Import Terminal.
Section ops.
Context {N : Type}.

(** The texts of the messages for files that cannot be read. *)
Context (io_text : string -> string).

Definition value_of (value : string) : st (Console N) RvError Value :=
  match value with
  | String "@" file_path =>
      let! c := st_get in
      match read_to_string file_path c with
      | Some content => st_ret (VStr content)
      | None =>
          let! _ := eprintln ("Error reading file '" ++ file_path ++ "': " ++ io_text file_path) in st_ret VNull
      end
  | String "-" _ =>
      let! content := read_stdin in
      match content with
      | Some content => st_ret (VStr content)
      | None => let! _ := eprintln ("Error reading from stdin: " ++ io_text "-") in st_ret VNull
      end
  | _ => st_ret (VStr value)
  end.

Fixpoint to_map_from (entries : list string) (map : gmap string Value) : st (Console N) RvError (gmap string Value) :=
  match entries with
  | [] => st_ret map
  | entry :: entries =>
      match find_char "=" entry with
      | Some i =>
          let key := trim (String.substring 0 i entry) in
          let value := trim (String.substring (S i) (String.length entry) entry) in
          let! parsed_value := value_of value in
          to_map_from entries (<[key := parsed_value]> map)
      | None =>
          let! _ := eprintln ("Invalid key=value format: '" ++ entry ++ "'") in
          to_map_from entries map
      end
  end.

Definition to_map (entries : list string) : st (Console N) RvError (gmap string Value) := to_map_from entries ∅.

End ops.
End KvBuilder.
