(* ===== verification/Cli.v ===== *)
(** * The command line (src/src/cli/command/, cli/mod.rs, the login helpers of
    modules/credential/userpass/cli.rs and cert/cli.rs)

    [Module Format] prints answers, [Module Commands] holds [main] of every
    command that talks to a server, [Module Cli] their exit codes.  Arguments
    are given parsed; the texts JSON, YAML and the table printer produce are
    parameters. *)

From stdpp Require Import base tactics list gmap strings pretty.
From Stdlib Require Import ZArith Lia Ascii.
From S2P Require Import Prelude Errors RustStr Utils Storage FileBackend Logical Mount AuthMount ServerConfig Http Client.

Local Open Scope string_scope.

Inductive Format_ := Table | Json | Yaml | Yml | Raw.

#[global] Instance Format_eq_dec : EqDecision Format_.
Proof. solve_decision. Defined.

Record SecretAuth := {
  sa_client_token : string;
  sa_accessor : string;
  sa_policies : list string;
  sa_token_policies : list string;
  sa_identity_policies : list string;
  sa_metadata : gmap string string;
  sa_entity_id : string;
  sa_lease_duration : Z;
  sa_renewable : bool
}.

Record Secret := {
  sec_request_id : string;
  sec_lease_id : string;
  sec_lease_duration : Z;
  sec_renewable : bool;
  sec_data : gmap string Value;
  sec_auth : option SecretAuth
}.

(** Text of values: compact, indented, YAML; rows as a table; [{:?}] of a value
    and of a secret; the text of an error of the input. *)
Class TextFormat : Type := {
  json_text : Value -> string;
  json_pretty : Value -> option string;
  yaml_text : Value -> option string;
  pretty_table : list (list string) -> string;
  debug_text : Value -> string;
  debug_secret : Secret -> string;
  io_text : string -> string
}.

(** [MountOutput] of api/sys.rs. *)
Record MountOutput_ := {
  mo_uuid : string;
  mo_logical_type : string;
  mo_accessor : string;
  mo_description : string;
  mo_plugin_version : string
}.

Class FromValue (A : Type) : Type := from_value : Value -> option A.

(** How [main] of a command ends when it does not fail: it returns, or ends the
    process. *)
Inductive Done := Returned | Exited (code : Z).

Module Format.
Import Terminal.
Section ops.
Context `{HT : TextFormat} {N : Type}.
Abbreviation M := (st (Console N) RvError).

Definition cell (v : Value) : string :=
  trim (match as_str v with Some s => if is_empty s then "n/a" else s | None => json_text v end).

Definition object_rows (m : list (string * Value)) : list (list string) := map (fun kv => [fst kv; cell (snd kv)]) m.

Definition row_of (row : Value) : list (list string) :=
  match row with
  | VArray cells => [map cell cells]
  | VObject objs => object_rows objs
  | _ => [[cell row]]
  end.

Definition table_text (data : Value) : option string :=
  match data with
  | VStr _ => yaml_text data
  | VArray rows => Some (pretty_table (flat_map row_of rows))
  | VObject objs => Some (pretty_table (object_rows objs))
  | _ => Some (pretty_table [])
  end.

Definition output (f : Format_) (data : Value) : M unit :=
  match f with
  | Json => let! b := st_lift (of_option SerdeJson (json_pretty data)) in println b
  | Yaml | Yml => let! b := st_lift (of_option SerdeYaml (yaml_text data)) in out (Print b)
  | Raw => println (json_text data)
  | Table => let! b := st_lift (of_option SerdeYaml (table_text data)) in out (Print b)
  end.

Definition is_word (c : ascii) : bool :=
  let n := nat_of_ascii c in
  (48 <=? n)%nat && (n <=? 57)%nat || (65 <=? n)%nat && (n <=? 90)%nat || (97 <=? n)%nat && (n <=? 122)%nat
  || Ascii.eqb c "_".

(** [_x] becomes a space and the capital letter. *)
Fixpoint spaced (s : string) : string :=
  match s with
  | EmptyString => EmptyString
  | String a rest =>
      if Ascii.eqb a "_" then
        match rest with
        | String c r => if is_word c then String " " (String (upper_ascii c) (spaced r)) else String a (spaced rest)
        | EmptyString => String a EmptyString
        end
      else String a (spaced rest)
  end.

Definition title_key (key : string) : string :=
  match trim_start_matches is_whitespace (spaced key) with
  | EmptyString => EmptyString
  | String c s => String (upper_ascii c) s
  end.

Definition object_of (l : list (string * Value)) : Value :=
  VObject (map_to_list (fold_left (fun m kv => <[fst kv := snd kv]> m) l (∅ : gmap string Value))).

Fixpoint convert_keys (v : Value) : Value :=
  match v with
  | VObject m =>
      object_of ((fix go (m : list (string * Value)) :=
                    match m with [] => [] | (k, x) :: m => (title_key k, convert_keys x) :: go m end) m)
  | VArray l => VArray ((fix go (l : list Value) := match l with [] => [] | x :: l => convert_keys x :: go l end) l)
  | _ => v
  end.

Definition SEPS : list string :=
  [""; "-"; "--"; "---"; "----"; "-----"; "------"; "-------"; "--------"; "---------"; "----------";
   "-----------"; "------------"; "-------------"; "--------------"].

(** [SEPS[h.len().min(SEPS.len())]]: a header of 15 characters is past the end. *)
Definition sep (h : string) : result Value :=
  match SEPS !! (String.length h `min` length SEPS) with Some s => Ok (VStr s) | None => Panic end.

Fixpoint seps (headers : list string) : result (list Value) :=
  match headers with
  | [] => Ok []
  | h :: headers => let? s := sep h in let? rest := seps headers in Ok (s :: rest)
  end.

Definition pair_row (kv : string * Value) : Value := VArray [VStr (fst kv); snd kv].

Definition not_two : RvError := ErrString "table_data_add_header failed: headers.len() != 2".

Fixpoint body_rows (headers : nat) (items : list Value) : result (list Value) :=
  match items with
  | [] => Ok []
  | item :: items =>
      let? rows := (match item with
                    | VArray cells =>
                        if (length cells =? headers)%nat then Ok [item]
                        else Err (ErrString "table_data_add_header failed: headers.len() != data[i].len()")
                    | VObject m => if (headers =? 2)%nat then Ok (map pair_row m) else Err not_two
                    | _ => if (headers =? 1)%nat then Ok [item]
                           else Err (ErrString "table_data_add_header failed: headers.len() != 1")
                    end) in
      let? rest := body_rows headers items in Ok (rows ++ rest)%list
  end.

Definition table_data_add_header (data : Value) (headers : list string) : result Value :=
  match data with
  | VObject m =>
      if (length headers =? 2)%nat then
        let? ss := seps headers in
        Ok (VArray (VArray (map VStr headers) :: VArray ss :: map pair_row m))
      else Err not_two
  | VArray items =>
      let? ss := seps headers in
      let? rows := body_rows (length headers) items in
      Ok (VArray (VArray (map VStr headers) :: VArray ss :: rows))
  | _ => Ok (VArray [])
  end.

Definition is_format_table (f : Format_) : bool := bool_decide (f = Table).

Definition print_value (f : Format_) (value : Value) (title_casing : bool) : M unit :=
  output f (if is_format_table f && title_casing then convert_keys value else value).

Definition print_keys (f : Format_) (value : Value) : M unit :=
  match value with
  | VArray _ =>
      let! data := st_lift (if is_format_table f then table_data_add_header value ["Keys"] else Ok value) in
      output f data
  | _ => st_fail ErrRequestNoData
  end.

Definition not_present (key : string) : RvError := ErrString ("Field " ++ requote "'" ++ key ++ requote "'" ++ " not present in secret").

Definition print_data (f : Format_) (value : Value) (field : option string) : M unit :=
  match as_object (value_index value "data") with
  | None => st_lift Panic
  | Some m =>
      let! data := st_lift (match field with
                            | Some key =>
                                match (list_to_map m : gmap string Value) !! key with
                                | Some (VStr s) => Ok (VStr s)
                                | _ => Err (not_present key)
                                end
                            | None => if is_format_table f then table_data_add_header (VObject m) ["Key"; "Value"]
                                      else Ok (VObject m)
                            end) in
      output f data
  end.

Definition strings_json (l : list string) : Value := VArray (map VStr l).
Definition string_map_json (m : gmap string string) : Value := VObject (prod_map id VStr <$> map_to_list m).

Definition auth_json (a : SecretAuth) : Value :=
  VObject [("client_token", VStr (sa_client_token a)); ("accessor", VStr (sa_accessor a));
           ("policies", strings_json (sa_policies a)); ("token_policies", strings_json (sa_token_policies a));
           ("identity_policies", strings_json (sa_identity_policies a)); ("metadata", string_map_json (sa_metadata a));
           ("entity_id", VStr (sa_entity_id a)); ("lease_duration", VInt (sa_lease_duration a));
           ("renewable", VBool (sa_renewable a))].

Definition secret_json (s : Secret) : Value :=
  VObject [("request_id", VStr (sec_request_id s)); ("lease_id", VStr (sec_lease_id s));
           ("lease_duration", VInt (sec_lease_duration s)); ("renewable", VBool (sec_renewable s));
           ("data", VObject (map_to_list (sec_data s)));
           ("auth", match sec_auth s with Some a => auth_json a | None => VNull end)].

Definition token_rows (a : SecretAuth) : Value :=
  object_of ([("token", VStr (sa_client_token a)); ("token_accessor", VStr (sa_accessor a));
              ("token_duration", VInt (sa_lease_duration a)); ("token_renewable", VBool (sa_renewable a));
              ("token_policies", strings_json (sa_token_policies a)); ("policies", strings_json (sa_policies a))]
             ++ map (fun kv => (("token_meta_" ++ fst kv)%string, VStr (snd kv))) (map_to_list (sa_metadata a)))%list.

Definition print_secret (f : Format_) (secret : Secret) : M unit :=
  let! value := st_lift (match f, sec_auth secret with
                         | Table, Some auth => table_data_add_header (token_rows auth) ["Key"; "Value"]
                         | _, _ => Ok (secret_json secret)
                         end) in
  output f value.

(** The test for the two good statuses is always true, so the word Error always
    appears. *)
Definition print_debug_info (r : ApiResponse) : M unit :=
  let! _ := println ("URL: " ++ ar_method r ++ " " ++ ar_url r) in
  let! _ := out (Print ("Code: " ++ pretty (response_status r) ++ ".")) in
  let! _ := (if negb (response_status r =? 200)%Z || negb (response_status r =? 204)%Z
             then println " Error:" else st_ret tt) in
  match response_data r with Some d => println (debug_text d) | None => st_ret tt end.

End ops.
End Format.

(** ** Commands *)

Record HttpOptions := {
  ho_address : string;
  ho_ca_cert : option string;
  ho_client_cert : option string;
  ho_client_key : option string;
  ho_tls_skip_verify : bool;
  ho_header : list string;
  ho_token : string
}.

Module Commands.
Import Terminal Format.
Section ops.
Context `{HT : TextFormat} `{HX : SourceText} {T N : Type} `{HR : Rustls T} `{HA : Agent T N}.
Context `{HF : FromValue Secret} `{HM : FromValue MountOutput_}.
Abbreviation M := (st (Console N) RvError).

(** [HttpOptions::client].  The headers of the options are not given to it. *)
Definition client (o : HttpOptions) : M (Client T) :=
  let c := ApiClient.with_token (ho_token o) (ApiClient.with_addr (ho_address o) ApiClient.new) in
  if starts_with "https://" (ho_address o) then
    let! con := st_get in
    let b := TlsBuilder.with_insecure (ho_tls_skip_verify o) TlsBuilder.new in
    let! b := st_lift (match ho_ca_cert o with
                       | Some ca => TlsBuilder.with_server_ca_path (file con) ca b
                       | None => Ok b
                       end) in
    let! b := st_lift (match ho_client_cert o, ho_client_key o with
                       | Some cert, Some key => TlsBuilder.with_client_cert_path (file con) cert key b
                       | _, _ => Ok b
                       end) in
    let! t := st_lift (TlsBuilder.build b) in
    st_ret (ApiClient.with_tls_config t c)
  else st_ret c.

Definition error_line (prefix : string) (e : RvError) : M Done :=
  let! _ := eprintln (prefix ++ Http.to_string e) in st_ret Returned.

Definition said (s : string) : M Done := let! _ := println s in st_ret Returned.
Definition debugged (r : ApiResponse) : M Done := let! _ := print_debug_info r in st_ret Returned.
Definition done_with (m : M unit) : M Done := let! _ := m in st_ret Returned.

(** [ret.response_data.as_ref().unwrap()]. *)
Definition data_of (r : ApiResponse) : M Value :=
  st_lift (match response_data r with Some v => Ok v | None => Panic end).

Definition read (o : HttpOptions) (f : Format_) (field : option string) (path : string) : M Done :=
  let! c := client o in
  let! ret := attempt (ApiLogical.read c path) in
  match ret with
  | inl ret =>
      if (response_status ret =? 200)%Z then
        let! v := data_of ret in done_with (print_data f v field)
      else if (response_status ret =? 204)%Z then said "ok"
      else if (response_status ret =? 404)%Z then
        let! _ := println ("No value found at " ++ path) in st_fail ErrRequestNoData
      else debugged ret
  | inr e => error_line "" e
  end.

Definition write (o : HttpOptions) (path : string) (data : list string) : M Done :=
  let! c := client o in
  let! m := KvBuilder.to_map io_text data in
  let! ret := attempt (ApiLogical.write c path (Some m)) in
  match ret with
  | inl ret =>
      if (response_status ret =? 200)%Z || (response_status ret =? 204)%Z then
        said ("Success! Data written to: " ++ path)
      else if (response_status ret =? 404)%Z then
        let! _ := println ("Error writing data to " ++ path ++ ": Error making API request.") in
        let! _ := print_debug_info ret in st_fail ErrRequestNoData
      else debugged ret
  | inr e => error_line "" e
  end.

Definition list_ (o : HttpOptions) (f : Format_) (path : string) : M Done :=
  let! c := client o in
  let! ret := attempt (ApiLogical.list_ c path) in
  match ret with
  | inl ret =>
      if (response_status ret =? 200)%Z then
        let! v := data_of ret in
        match value_index v "keys" with
        | VArray [] => let! _ := println ("No value found at " ++ path) in st_fail ErrRequestNoData
        | keys => done_with (print_keys f keys)
        end
      else if (response_status ret =? 404)%Z then
        let! _ := println ("No value found at " ++ path) in st_fail ErrRequestNoData
      else debugged ret
  | inr e => error_line "" e
  end.

Definition delete (o : HttpOptions) (path : string) : M Done :=
  let! c := client o in
  let! ret := attempt (ApiLogical.delete c path None) in
  match ret with
  | inl ret =>
      if (response_status ret =? 200)%Z || (response_status ret =? 204)%Z then
        said ("Success! Data deleted (if it existed) at: " ++ path)
      else let! _ := print_debug_info ret in st_fail (ErrString "Unkonwn")
  | inr e => error_line "" e
  end.

(** What [init], [unseal] and [status] do with an answer. *)
Definition show_value (f : Format_) (shown : Value -> M Value) (ret : ApiResponse) : M Done :=
  if (response_status ret =? 200)%Z then
    let! v := data_of ret in let! v := shown v in done_with (print_value f v true)
  else if (response_status ret =? 204)%Z then said "ok"
  else debugged ret.

Definition status_value (status_data : Value) : result Value :=
  match as_object status_data with
  | None => Panic
  | Some m =>
      let status := list_to_map m : gmap string Value in
      let? sealed := map_index status "sealed" in
      let? n := map_index status "n" in
      let? t := map_index status "t" in
      let? progress := map_index status "progress" in
      Ok (VObject [("sealed", sealed); ("total_shares", n); ("threshold", t); ("progress", progress)])
  end.

Definition status (o : HttpOptions) (f : Format_) : M Done :=
  let! c := client o in
  let! ret := attempt (ApiSys.seal_status c) in
  match ret with
  | inl ret => show_value f (fun v => st_lift (status_value v)) ret
  | inr e => error_line "" e
  end.

Definition init (o : HttpOptions) (f : Format_) (key_shares key_threshold : byte) : M Done :=
  if (u8 key_shares <? u8 key_threshold)%nat
  then st_fail (ErrString "invalid seal configuration: threshold cannot be larger than shares")
  else
    let! c := client o in
    let! ret := attempt (ApiSys.init c {| ir_secret_shares := key_shares; ir_secret_threshold := key_threshold |}) in
    match ret with
    | inl ret => show_value f st_ret ret
    | inr e => error_line "" e
    end.

Definition seal (o : HttpOptions) : M Done :=
  let! c := client o in
  let! ret := attempt (ApiSys.seal c) in
  match ret with
  | inl _ => said "Success! RustyVault is sealed."
  | inr e => error_line "Error sealing: " e
  end.

Definition unseal (o : HttpOptions) (f : Format_) (unseal_key : option string) : M Done :=
  let! c := client o in
  let! key := (match unseal_key with Some k => st_ret k | None => read_password "Unseal Key (will be hidden): " end) in
  let! ret := attempt (ApiSys.unseal c key) in
  match ret with
  | inl ret => show_value f st_ret ret
  | inr e => error_line "Error sealing: " e
  end.

(** *** Authentication methods *)

Fixpoint auth_rows (paths : list (string * Value)) : result (list Value) :=
  match paths with
  | [] => Ok []
  | (path, mount) :: paths =>
      let? m := of_option SerdeJson (from_value (A := MountOutput_) mount) in
      let? rest := auth_rows paths in
      Ok (VArray [VStr path; VStr (mo_logical_type m); VStr (mo_accessor m); VStr (mo_description m);
                  VStr (mo_plugin_version m)] :: rest)
  end.

Definition auth_list (o : HttpOptions) (f : Format_) : M Done :=
  let! c := client o in
  let! ret := attempt (ApiSys.list_auth c) in
  match ret with
  | inl ret =>
      match response_data ret with
      | Some value =>
          if (response_status ret =? 200)%Z then
            match as_object value with
            | None => st_fail ErrResponseDataInvalid
            | Some paths =>
                let! rows := st_lift (auth_rows paths) in
                let! data := st_lift (if is_format_table f
                                      then table_data_add_header (VArray rows)
                                             ["Path"; "Type"; "Accessor"; "Description"; "Version"]
                                      else Ok value) in
                done_with (print_value f data false)
            end
          else if (response_status ret =? 404)%Z then let! _ := println "No value found" in st_fail ErrRequestNoData
          else debugged ret
      | None =>
          if (response_status ret =? 404)%Z then let! _ := println "No value found" in st_fail ErrRequestNoData
          else debugged ret
      end
  | inr e => error_line "Error sealing: " e
  end.

Definition ok_status (ret : ApiResponse) : bool := (response_status ret =? 200)%Z || (response_status ret =? 204)%Z.

Definition auth_enable (o : HttpOptions) (method path description : string) (options : list string) : M Done :=
  let! c := client o in
  let! opts := KvBuilder.to_map io_text options in
  let i := {| ai_path := StringUtils.ensure_trailing_slash path; ai_logical_type := method;
              ai_description := description; ai_options := opts |} in
  let! ret := attempt (ApiSys.enable_auth c i) in
  match ret with
  | inl ret => if ok_status ret then said ("Success! Enabled " ++ method ++ " auth method at: " ++ ai_path i)
               else debugged ret
  | inr e => error_line "Error: " e
  end.

Definition sanitize_path (s : string) : string :=
  StringUtils.ensure_no_trailing_slash (StringUtils.ensure_no_leading_slash s).

Definition auth_disable (o : HttpOptions) (path : string) : M Done :=
  let! c := client o in
  let path := StringUtils.ensure_trailing_slash (sanitize_path path) in
  let! ret := attempt (ApiSys.disable_auth c path) in
  match ret with
  | inl ret =>
      if ok_status ret || (response_status ret =? 404)%Z
      then said ("Success! Disabled the auth method (if it existed) at: " ++ path) else debugged ret
  | inr e => error_line ("Error disabling auth method at " ++ path ++ ": ") e
  end.

Definition auth_path (s : string) : string :=
  let s := StringUtils.ensure_trailing_slash s in
  if starts_with AUTH_ROUTER_PREFIX s then s else AUTH_ROUTER_PREFIX ++ s.

Definition auth_move (o : HttpOptions) (source destination : string) : M Done :=
  let! c := client o in
  let from := auth_path source in
  let to := auth_path destination in
  let! ret := attempt (ApiSys.remount c from to) in
  match ret with
  | inl ret => if ok_status ret then said ("Success! Finished moving auth method " ++ from ++ " to " ++ to ++ ".")
               else debugged ret
  | inr e => error_line ("Error moving auth method " ++ from ++ " to " ++ to ++ ": ") e
  end.

(** *** Policies *)

Definition policy_list (o : HttpOptions) (f : Format_) : M Done :=
  let! c := client o in
  let! ret := attempt (ApiSys.list_policy c) in
  let none r := (let! _ := print_debug_info r in let! _ := println "No policy" in st_fail ErrRequestNoData) in
  match ret with
  | inl ret =>
      if (response_status ret =? 200)%Z then
        let! v := data_of ret in
        match value_index v "keys" with
        | VArray [] => none ret
        | keys => done_with (print_value f keys false)
        end
      else if (response_status ret =? 404)%Z then none ret
      else debugged ret
  | inr e => error_line "" e
  end.

Definition policy_name (name : string) : string := to_lowercase (trim name).

Definition policy_read (o : HttpOptions) (f : Format_) (name : string) : M Done :=
  let! c := client o in
  let! ret := attempt (ApiSys.read_policy c (policy_name name)) in
  match ret with
  | inl ret =>
      if (response_status ret =? 200)%Z then
        let! v := data_of ret in
        let policy := value_index v "policy" in
        if is_format_table f then done_with (out (Print (default "" (as_str policy))))
        else done_with (print_value f (VObject [("policy", policy)]) false)
      else if (response_status ret =? 404)%Z then
        let! _ := println ("No policy named: " ++ policy_name name) in st_fail ErrRequestNoData
      else debugged ret
  | inr e => error_line "" e
  end.

(** A file name of one hyphen is the standard input. *)
Definition policy_text (path : string) : M string :=
  if path =? "-" then let! s := read_stdin in st_lift (of_option IO s)
  else let! con := st_get in st_lift (of_option IO (read_to_string path con)).

Definition exits (ret : ApiResponse) (code : Z) : M Done := let! _ := print_debug_info ret in st_ret (Exited code).

Definition policy_write (o : HttpOptions) (name path : string) : M Done :=
  let! c := client o in
  let! buffer := policy_text path in
  let! ret := attempt (ApiSys.write_policy c (policy_name name) buffer) in
  match ret with
  | inl ret => if ok_status ret then said ("Success! Uploaded policy: " ++ policy_name name) else exits ret 2
  | inr e => error_line "" e
  end.

Definition policy_delete (o : HttpOptions) (name : string) : M Done :=
  let! c := client o in
  let! ret := attempt (ApiSys.delete_policy c (policy_name name)) in
  match ret with
  | inl ret => if ok_status ret then said ("Success! Deleted policy: " ++ policy_name name) else exits ret 2
  | inr e => error_line "" e
  end.

(** *** Login *)

(** What a login helper sends, and its help. *)
Record LoginHandler := {
  handler_auth : Client T -> gmap string Value -> M ApiResponse;
  handler_help : string
}.

Definition quoted (s : string) : string := String "034" (s ++ String "034" "").

Definition userpass_default_mount : string := "usepass".

Definition userpass_auth (c : Client T) (data : gmap string Value) : M ApiResponse :=
  let! v := st_lift (map_index data "username") in
  match as_str v with
  | None => st_fail (ErrResponse "'username' must be specified")
  | Some username =>
      let! p := st_lift (map_index data "password") in
      let given := default "" (as_str p) in
      let! password := (if is_empty given then read_password "Password (will be hidden): " else st_ret given) in
      let! m := st_lift (map_index data "mount") in
      let mount := default "" (as_str m) in
      let mount := if is_empty mount then userpass_default_mount else mount in
      over_net (ApiLogical.write c ("auth/" ++ mount ++ "/login/" ++ username) (Some {["password" := VStr password]}))
  end.

Definition userpass_help : string :=
"Usage: rvault login -method=userpass [CONFIG K=V...]

The userpass auth method allows users to authenticate using RustyVault's internal user database.

Authenticate as " ++ quoted "sally" ++ ":

    $ rvault login -method=userpass username=sally
    Password (will be hidden):

Authenticate as " ++ quoted "bob" ++ ":

    $ rvault login -method=userpass username=bob password=password

Configuration:

password=<string>
    Password to use for authentication. If not provided, the CLI will prompt for this on stdin.

username=<string>
    Username to use for authentication.".

Definition cert_default_mount : string := "cert".

Definition cert_auth (c : Client T) (data : gmap string Value) : M ApiResponse :=
  let! name := st_lift (map_index data "name") in
  match as_str name with
  | None => st_fail (ErrResponse "'name' must be specified")
  | Some _ =>
      let! m := st_lift (map_index data "mount") in
      let mount := trim (match as_str m with
                         | Some s => if is_empty s then cert_default_mount else s
                         | None => cert_default_mount
                         end) in
      over_net (ApiLogical.write c ("auth/" ++ mount ++ "/login") (Some {["name" := name]}))
  end.

Definition cert_help : string :=
"Usage: rvault login -method=cert [CONFIG K=V...]

The certificate auth method allows users to authenticate with a client certificate passed with the request. 
The -client-cert and -client-key flags are included with the " ++ quoted "rvault login" ++ " command, NOT as configuration to the auth method.

Authenticate using a local client certificate:

    $ rvault login -method=cert -client-cert=cert.pem -client-key=key.pem

Configuration:

name=<string>
    Certificate role to authenticate against.".

Definition LoginHandlers : gmap string LoginHandler :=
  {["userpass" := {| handler_auth := userpass_auth; handler_help := userpass_help |};
    "cert" := {| handler_auth := cert_auth; handler_help := cert_help |}]}.

(** The token of a login is printed, also in the form meant for debugging. *)
Definition login_result (f : Format_) (no_print : bool) (ret : ApiResponse) : M Done :=
  if negb (response_status ret =? 200)%Z then
    let! _ := println "Error authenticating: " in exits ret 2
  else
    let! v := st_lift (of_option ErrResponseDataInvalid (response_data ret)) in
    let! secret := st_lift (of_option SerdeJson (from_value (A := Secret) v)) in
    match sec_auth secret with
    | None =>
        let! _ := println "RustyVault returned a secret, but the secret has no authentication information attached. " in
        let! _ := println "This should never happen and is likely a bug." in
        st_ret (Exited 2)
    | Some _ =>
        if no_print then st_ret Returned
        else
          let! _ := println ("login ret, secret: " ++ debug_secret secret) in
          done_with (print_secret f secret)
    end.

Definition login_method (method : string) : string :=
  let m := sanitize_path method in if is_empty m then "token" else m.

Definition login_path (method path : string) : string :=
  if is_empty path then StringUtils.ensure_trailing_slash (login_method method) else path.

Definition login (o : HttpOptions) (f : Format_) (method path : string) (no_print : bool) (data : list string) : M Done :=
  let! c := client o in
  let auth_method := login_method method in
  let auth_path := login_path method path in
  match LoginHandlers !! auth_method with
  | None =>
      let! _ := println ("Unknown auth method: " ++ auth_method ++ ".") in
      let! _ := println ("Use " ++ quoted "rvault auth list" ++ " to see the complete list of auth methods.") in
      let! _ := println "Additionally, some auth methods are only available via the HTTP API." in
      st_ret (Exited 1)
  | Some h =>
      let! auth_data := KvBuilder.to_map io_text data in
      let auth_data := if is_empty auth_path then auth_data else <["mount" := VStr auth_path]> auth_data in
      let! ret := handler_auth h c auth_data in
      login_result f no_print ret
  end.

Definition auth_help (o : HttpOptions) (auth_type : string) : M Done :=
  let! c := client o in
  match LoginHandlers !! auth_type with
  | Some h => said (handler_help h)
  | None =>
      let path := StringUtils.ensure_trailing_slash (sanitize_path auth_type) in
      let! auth_list := over_net (ApiSys.list_auth c) in
      match response_data auth_list with
      | Some v =>
          if negb (response_status auth_list =? 200)%Z then
            let! _ := println ("Error listing auth methods at: " ++ path) in st_ret (Exited 2)
          else
            let! m := st_lift (match as_object v with Some m => Ok m | None => Panic end) in
            match (list_to_map m : gmap string Value) !! path with
            | None =>
                let! _ := println ("No auth method available on the server at: " ++ path) in st_ret (Exited 1)
            | Some auth =>
                let! mount_output := st_lift (of_option SerdeJson (from_value (A := MountOutput_) auth)) in
                match LoginHandlers !! mo_logical_type mount_output with
                | Some h => said (handler_help h)
                | None =>
                    let! _ := println ("No method-specific CLI handler available for auth method " ++ auth_type) in
                    st_ret (Exited 2)
                end
            end
      | None => let! _ := println ("Error listing auth methods at: " ++ path) in st_ret (Exited 2)
      end
  end.

End ops.
End Commands.

(** ** The commands and their exit codes *)

Inductive Command :=
  | Status (f : Format_)
  | OperatorInit (f : Format_) (key_shares key_threshold : byte)
  | OperatorSeal
  | OperatorUnseal (f : Format_) (unseal_key : option string)
  | Read (f : Format_) (field : option string) (path : string)
  | Write (path : string) (data : list string)
  | Delete (path : string)
  | List (f : Format_) (path : string)
  | Login (f : Format_) (method path : string) (no_print : bool) (data : list string)
  | AuthList (f : Format_)
  | AuthEnable (method path description : string) (options : list string)
  | AuthDisable (path : string)
  | AuthMove (source destination : string)
  | AuthHelp (auth_type : string)
  | PolicyRead (f : Format_) (name : string)
  | PolicyList (f : Format_)
  | PolicyWrite (name path : string)
  | PolicyDelete (name : string).

Module Cli.
Import Terminal.
Section ops.
Context `{HT : TextFormat} `{HX : SourceText} {T N : Type} `{HR : Rustls T} `{HA : Agent T N}.
Context `{HF : FromValue Secret} `{HM : FromValue MountOutput_}.

Definition EXIT_CODE_OK : Z := 0.
Definition EXIT_CODE_INSUFFICIENT_PARAMS : Z := 64.
(** What the runtime of Rust makes of a panic. *)
Definition PANICKED : Z := 101.

Definition main (o : HttpOptions) (c : Command) : st (Console N) RvError Done :=
  match c with
  | Status f => Commands.status o f
  | OperatorInit f s t => Commands.init o f s t
  | OperatorSeal => Commands.seal o
  | OperatorUnseal f k => Commands.unseal o f k
  | Read f field path => Commands.read o f field path
  | Write path data => Commands.write o path data
  | Delete path => Commands.delete o path
  | List f path => Commands.list_ o f path
  | Login f m p n d => Commands.login o f m p n d
  | AuthList f => Commands.auth_list o f
  | AuthEnable m p d os => Commands.auth_enable o m p d os
  | AuthDisable p => Commands.auth_disable o p
  | AuthMove s d => Commands.auth_move o s d
  | AuthHelp t => Commands.auth_help o t
  | PolicyRead f n => Commands.policy_read o f n
  | PolicyList f => Commands.policy_list o f
  | PolicyWrite n p => Commands.policy_write o n p
  | PolicyDelete n => Commands.policy_delete o n
  end.

(** The code for an error, and whether it is reported. *)
Definition error_code (c : Command) (e : RvError) : Z * bool :=
  match c with
  | OperatorInit _ _ _ => (2, true)
  | OperatorSeal | OperatorUnseal _ _ => (EXIT_CODE_INSUFFICIENT_PARAMS, true)
  | _ => match e with ErrRequestNoData => (2, false) | _ => (1, true) end
  end%Z.

Definition execute (o : HttpOptions) (c : Command) (s : Console N) : Console N * Z :=
  match main o c s with
  | (s, Ok Returned) => (s, EXIT_CODE_OK)
  | (s, Ok (Exited code)) => (s, code)
  | (s, Err e) =>
      let '(code, reported) := error_code c e in
      (if reported then set_written (written s ++ [Eprintln ("Error: " ++ Http.to_string e)])%list s else s, code)
  | (s, Panic) => (s, PANICKED)
  end.

End ops.
End Cli.
