(* ===== verification/ClientCorrect.v ===== *)
(** * The client against the server

    The calls of the API client meet the routes of the server; key=value
    arguments are read back; unsealing by commands; what the exit code and the
    messages of a command tell about the answer of the server. *)

From stdpp Require Import base tactics list gmap strings pretty.
From Stdlib Require Import ZArith Lia Ascii.
From S2P Require Import Prelude Errors Shamir ShamirCorrect RustStr Utils Storage BarrierCorrect FileBackend Logical Router Mount MountCorrect AuthMount VaultCore VaultCorrect ServerConfig Http Metrics Routes HttpCorrect HttpProps Client Cli.

Import Http HttpLogical HttpSys HttpService Terminal.
Local Open Scope string_scope.

(** ** Calls and routes *)

Definition method_name (m : Method) : string :=
  match m with GET => "GET" | POST => "POST" | PUT => "PUT" | DELETE => "DELETE" | OtherMethod n => n end.

(** Texts that stay as they are in the path of a URL: nothing to escape, and no
    segment that goes up or stays. *)
Definition url_text (s : string) : Prop :=
  plain_text s = true ∧ Forall (λ w, w ≠ "." ∧ w ≠ "..") (split_char slash s).

#[global] Instance url_text_dec s : Decision (url_text s) := _.

(** A text below a fixed path. *)
Ltac url_text :=
  repeat match goal with H : url_text _ |- _ => destruct H end;
  split; [done|cbn; repeat (apply Forall_cons; split; [split; discriminate|]); first [done | by apply Forall_nil]].

Ltac url_plain := repeat match goal with H : url_text _ |- _ => destruct H end; done.

Section routes.
Context `{HT : HeaderText} `{HO : OffsetTime} `{HH : Humantime} `{HX : HexCodec} `{HD : HexDecode}.
Context `{HB : FromSlice (gmap string Value)} `{HI : FromSlice InitRequest} `{HN : FromSlice UnsealRequest}.
Context `{HM : FromSlice MountRequest} `{HR : FromSlice RemountRequest} `{HP : FromSlice PolicyRequest}.
Context {S : Type} `{HC : !CoreApi S} {F : Type} `{HE : RegistryText F} `{HA : Actix} `{HAL : !ActixLaws}.
Context {T : Type} (manager : MetricsManager F).
Implicit Types (c : Client T).

(** The path of the call below the address of the server is sent as it is, and
    dispatched to [h] with the captured part of the path. *)
Definition reaches c (call : HttpCall) (h : Route (S := S)) (captured : string) : Prop :=
  ∃ m path, method_name m = hc_method call ∧ hc_url call = client_address c ++ path ∧ url_text path ∧
    dispatch m path (init_service manager) = Some (h, captured).

(** A network that only notes the calls. *)
#[local] Instance recorder : Agent T (list HttpCall) := λ _ call calls, ((calls ++ [call])%list, NoAnswer).

(** What the client sends is one call, which reaches [h]. *)
Definition served_by c (f : st (list HttpCall) RvError ApiResponse) (h : Route (S := S)) (captured : string) : Prop :=
  ∃ call, fst (f []) = [call] ∧ reaches c call h captured.

Lemma sent_reaches c (m : Method) (path : string) data h captured :
  starts_with_char slash path = true → to_uppercase (method_name m) = method_name m → url_text path →
  dispatch m path (init_service manager) = Some (h, captured) →
  served_by c (ApiClient.request c (method_name m) path data) h captured.
Proof.
  intros Hp Hm Hu Hr. eexists. split; [done|]. exists m, path. unfold ApiClient.call_of, ApiClient.url. simpl.
  by rewrite Hp, Hm.
Qed.

Definition logical_route : Route (S := S) := λ call,
  logical_request_handler (call_now call) (call_req call) (call_body call) (call_method call) (call_path call).

(** Paths the scope of [sys] does not take. *)
Definition outside_sys (path : string) : Prop := path ≠ "sys" ∧ starts_with "sys/" path = false.

Lemma dispatch_rules m path :
  plain_text path = true →
  dispatch m path (init_service manager) = services_by_rules m path (init_service (S := S) manager).
Proof. intros Hp. by apply dispatch_services. Qed.

Lemma logical_routed m path :
  plain_text path = true → outside_sys path →
  dispatch m ("/v1/" ++ path) (init_service manager) = Some (logical_route, path).
Proof.
  intros Hp [Hne Hns]. rewrite dispatch_rules by done. unfold init_service. cbn [services_by_rules].
  replace (below_scope (scope_prefix init_sys_service) ("/v1/" ++ path)) with (below_scope "sys" path) by done.
  unfold below_scope. destruct (strip_prefix "sys" path) as [rest|] eqn:E; [|done].
  apply strip_prefix_Some in E as ->. destruct rest as [|a r]; [done|]. cbn.
  destruct (Ascii.eqb_spec a slash) as [->|]; [|done].
  pose proof (starts_with_app "sys/" r) as Hs. change ("sys/" ++ r) with ("sys" ++ String slash r) in Hs. congruence.
Qed.

(** C20: every call the client makes is dispatched to the handler it is meant
    for, with the name in its path: those of [Sys] to the handlers registered for
    them, those of [Logical] to the handler of logical requests, unless the path
    lies below sys.  Names are texts that need no escaping in a URL, since the
    client puts them there as they are. *)
Theorem client_calls_routed c :
  (∀ r, served_by c (ApiSys.init c r) (to_body sys_init_put_request_handler) "") ∧
  served_by c (ApiSys.seal_status c) (to sys_seal_status_request_handler) "" ∧
  served_by c (ApiSys.seal c) (to sys_seal_request_handler) "" ∧
  (∀ k, served_by c (ApiSys.unseal c k) (to_body sys_unseal_request_handler) "") ∧
  served_by c (ApiSys.list_auth c) (to sys_list_auth_mounts_request_handler) "" ∧
  (∀ i, url_text (ai_path i) →
     served_by c (ApiSys.enable_auth c i) (to_both sys_auth_enable_request_handler) (ai_path i)) ∧
  (∀ p, url_text p → served_by c (ApiSys.disable_auth c p) (to_path sys_auth_disable_request_handler) p) ∧
  (∀ a b, served_by c (ApiSys.remount c a b) (to_body sys_remount_request_handler) "") ∧
  served_by c (ApiSys.list_policy c) (to sys_list_policies_request_handler) "" ∧
  (∀ n, url_text n → served_by c (ApiSys.read_policy c n) (to_path sys_read_policies_request_handler) n) ∧
  (∀ n p, url_text n → served_by c (ApiSys.write_policy c n p) (to_both sys_write_policies_request_handler) n) ∧
  (∀ n, url_text n → served_by c (ApiSys.delete_policy c n) (to_path sys_delete_policies_request_handler) n) ∧
  (∀ p d, url_text p → outside_sys p →
     served_by c (ApiLogical.read c p) logical_route p ∧ served_by c (ApiLogical.write c p d) logical_route p ∧
     served_by c (ApiLogical.delete c p d) logical_route p ∧
     ∃ call, fst (ApiLogical.list_ c p []) = [call] ∧ reaches c call logical_route p).
Proof.
  split_and!; intros.
  all: try (apply (sent_reaches c PUT) || apply (sent_reaches c GET) || apply (sent_reaches c POST)
         || apply (sent_reaches c DELETE); [done|done|url_text|]; rewrite dispatch_rules by (url_plain); reflexivity).
  split_and!; [apply (sent_reaches c GET)|apply (sent_reaches c POST)|apply (sent_reaches c DELETE)|];
    try done; try url_text; try (by apply logical_routed; [url_plain|]).
  eexists. split; [done|]. exists (OtherMethod "LIST"), ("/v1/" ++ p).
  split_and!; [done|done|url_text|by apply logical_routed; [url_plain|]].
Qed.

End routes.

(** ** key=value arguments *)
Section arguments.
Context {N : Type} (io : string → string).

Lemma find_char_app (c : ascii) k v : find_char c k = None → find_char c (k ++ String c v) = Some (String.length k).
Proof.
  induction k as [|a k IH]; simpl; [by rewrite Ascii.eqb_refl|].
  destruct (Ascii.eqb a c); [done|]. destruct (find_char c k); [done|]. intros _. by rewrite IH.
Qed.

Lemma substring_key k r : String.substring 0 (String.length k) (k ++ r) = k.
Proof. apply prefix_substring, starts_with_app. Qed.

Lemma substring_all v n : (String.length v ≤ n)%nat → String.substring 0 n v = v.
Proof. revert n. induction v as [|a v IH]; intros [|n] Hn; simpl in *; try done; [lia|]. rewrite IH; [done|lia]. Qed.

Lemma substring_value k a v n :
  (String.length v ≤ n)%nat → String.substring (S (String.length k)) n (k ++ String a v) = v.
Proof. intros Hn. induction k as [|b k IH]; simpl; [by apply substring_all|done]. Qed.

(** A pair that stands for itself: no space around it, no = in the key, and a
    value that names neither a file nor the standard input. *)
Record plain_pair (kv : string * string) : Prop := {
  plain_key : find_char "=" (fst kv) = None;
  plain_key_trim : trim (fst kv) = fst kv;
  plain_value_trim : trim (snd kv) = snd kv;
  plain_value : starts_with_char "@" (snd kv) = false ∧ starts_with_char "-" (snd kv) = false
}.

Definition render (kv : string * string) : string := fst kv ++ "=" ++ snd kv.

Lemma value_of_plain v (s : Console N) :
  starts_with_char "@" v = false → starts_with_char "-" v = false → KvBuilder.value_of io v s = (s, Ok (VStr v)).
Proof.
  intros Ha Hd. destruct v as [|a v]; [done|]. simpl in *.
  destruct (Ascii.eqb_spec a "@"), (Ascii.eqb_spec a "-"); try done.
  by destruct a as [[] [] [] [] [] [] [] []].
Qed.

Lemma to_map_from_plain kvs : ∀ m (s : Console N), Forall plain_pair kvs →
  KvBuilder.to_map_from io (map render kvs) m s =
    (s, Ok (fold_left (λ m kv, <[fst kv := VStr (snd kv)]> m) kvs m)).
Proof.
  induction kvs as [|[k v] kvs IH]; intros m s Hp; [done|].
  apply Forall_cons in Hp as [[Hk Htk Htv [Ha Hd]] Hp]. cbn [fst snd] in *. cbn [map KvBuilder.to_map_from fold_left].
  change (render (k, v)) with (k ++ String "=" v).
  rewrite (find_char_app "=" k v Hk), substring_key, substring_value, Htk, Htv
    by (rewrite length_app_str; simpl; lia).
  rewrite (st_bind_run _ _ _ _ _ (value_of_plain v s Ha Hd)). by apply IH.
Qed.

Lemma fold_insert_nodup kvs : ∀ m : gmap string Value, NoDup (fst <$> kvs) →
  (∀ k v, (k, v) ∈ kvs → m !! k = None) →
  fold_left (λ m kv, <[fst kv := VStr (snd kv)]> m) kvs m =
  (VStr <$> (list_to_map kvs : gmap string string)) ∪ m.
Proof.
  induction kvs as [|[k v] kvs IH]; intros m Hnd Hm; simpl.
  - by rewrite fmap_empty, (left_id_L ∅ (∪)).
  - rewrite fmap_cons in Hnd. apply NoDup_cons in Hnd as [Hk Hnd]. rewrite IH; [|done|].
    + rewrite fmap_insert. apply map_eq. intros i. destruct (decide (i = k)) as [->|Hi].
      * assert ((VStr <$> (list_to_map kvs : gmap string string)) !! k = None) as Hn.
        { by rewrite lookup_fmap, (not_elem_of_list_to_map_1 kvs k Hk). }
        rewrite !lookup_union, Hn, !lookup_insert_eq. by destruct (m !! k).
      * rewrite !lookup_union, !lookup_insert_ne by done. done.
    + intros i x Hin. rewrite lookup_insert_ne; [apply (Hm i x); by apply elem_of_cons; right|].
      intros ->. apply Hk, list_elem_of_fmap. by exists (i, x).
Qed.

(** Pairs written as key=value arguments are read back as the map of them, and
    nothing is read or printed on the way. *)
Theorem key_value_roundtrip (kvs : list (string * string)) (s : Console N) :
  Forall plain_pair kvs → NoDup (fst <$> kvs) →
  KvBuilder.to_map io (map render kvs) s = (s, Ok (VStr <$> (list_to_map kvs : gmap string string))).
Proof.
  intros Hp Hnd. unfold KvBuilder.to_map. rewrite to_map_from_plain, fold_insert_nodup; [|done..].
  by rewrite (right_id_L ∅ (∪)).
Qed.

(** A value that merely begins with a hyphen is replaced by the standard input,
    and the value itself is lost. *)
Theorem hyphen_value_reads_stdin (k v text : string) (s : Console N) :
  find_char "=" k = None → trim k = k → trim ("-" ++ v) = "-" ++ v → stdin s = Some text →
  KvBuilder.to_map io [k ++ "=-" ++ v] s = (set_stdin (Some "") s, Ok {[k := VStr text]}).
Proof.
  intros Hk Htk Htv Hin. unfold KvBuilder.to_map. cbn [KvBuilder.to_map_from].
  change (k ++ "=-" ++ v) with (k ++ String "=" ("-" ++ v)).
  rewrite (find_char_app "=" k ("-" ++ v) Hk), substring_key, substring_value, Htk, Htv
    by (rewrite (length_app_str k); simpl; lia).
  simpl. unfold st_bind, read_stdin. by rewrite Hin.
Qed.

End arguments.

(** ** What commands report *)
Section reports.
Context `{HTF : TextFormat} `{HX : SourceText} {T N : Type} `{HR : Rustls T} `{HA : Agent T N}.
Context `{HF : FromValue Secret} `{HM : FromValue MountOutput_}.
Implicit Types (o : HttpOptions) (s : Console N).

(** Without TLS the client is made of the address and the token. *)
Definition plain_client o : Client T := ApiClient.with_token (ho_token o) (ApiClient.with_addr (ho_address o) ApiClient.new).

Lemma client_plain o s : starts_with "https://" (ho_address o) = false → Commands.client o s = (s, Ok (plain_client o)).
Proof. intros Ho. unfold Commands.client. by rewrite Ho. Qed.

(** The commands whose only input is their arguments. *)
Definition self_contained (c : Command) : bool :=
  match c with
  | OperatorInit _ shares threshold => negb (u8 shares <? u8 threshold)%nat
  | OperatorUnseal _ key => bool_decide (is_Some key)
  | Login _ _ _ _ _ | AuthHelp _ | PolicyWrite _ _ => false
  | _ => true
  end.

(** Their exit code when the server refuses with a status other than 404. *)
Definition refusal_code (c : Command) : Z :=
  match c with Delete _ => 1 | PolicyDelete _ => 2 | _ => 0 end.

(** The server answers every call with this status and body. *)
Definition refuses (status : Z) (json : option Value) : Prop :=
  ∀ t call (n : N), ∃ n', agent_call t call n = (n', Refused status json).

Definition unreachable : Prop := ∀ t call (n : N), ∃ n', agent_call t call n = (n', NoAnswer).

Lemma request_refused (c : Client T) m p d (n : N) status json :
  refuses status json → ∃ n', ApiClient.request c m p d n =
    (n', Ok {| ar_method := m; ar_url := ApiClient.url c p; Client.response_status := status; response_data := json |}).
Proof. intros Hr. unfold ApiClient.request. destruct (Hr (client_tls c) (ApiClient.call_of c m p d) n) as [n' ->]. eauto. Qed.

Lemma request_unreachable (c : Client T) m p d (n : N) :
  unreachable → ∃ n', ApiClient.request c m p d n = (n', Err UreqError).
Proof. intros Hr. unfold ApiClient.request. destruct (Hr (client_tls c) (ApiClient.call_of c m p d) n) as [n' ->]. eauto. Qed.

Lemma debug_info_ok (r : ApiResponse) s : ∃ s', Format.print_debug_info r s = (s', Ok tt).
Proof.
  unfold Format.print_debug_info. destruct (negb _ || negb _), (response_data r); eexists; reflexivity.
Qed.

Lemma value_of_total v s : ∃ s' x, KvBuilder.value_of io_text v s = (s', Ok x).
Proof.
  destruct v as [|a v]; [by do 2 eexists|]. cbn [KvBuilder.value_of].
  destruct a as [[] [] [] [] [] [] [] []]; try (by do 2 eexists); unfold st_bind, read_stdin, st_get;
    [destruct (stdin s)|destruct (read_to_string v s)]; by do 2 eexists.
Qed.

Lemma to_map_total l : ∀ m s, ∃ s' m', KvBuilder.to_map_from io_text l m s = (s', Ok m').
Proof.
  induction l as [|e l IH]; intros m s; [by do 2 eexists|]. cbn [KvBuilder.to_map_from].
  destruct (find_char _ e).
  - edestruct value_of_total as (s1 & x & Hx). rewrite (st_bind_run _ _ _ _ _ Hx). apply IH.
  - apply IH.
Qed.
Lemma attempt_refused (c : Client T) m p d s status json :
  refuses status json → ∃ s', attempt (ApiClient.request c m p d) s = (s', Ok (inl
    {| ar_method := m; ar_url := ApiClient.url c p; Client.response_status := status; response_data := json |})).
Proof. intros Hr. unfold attempt. destruct (request_refused c m p d (net s) status json Hr) as [n' ->]. eauto. Qed.

Lemma attempt_list_refused (c : Client T) p s status json :
  refuses status json → status ≠ 200%Z → ∃ s', attempt (ApiLogical.list_ c p) s = (s', Ok (inl
    {| ar_method := "LIST"; ar_url := ApiClient.url c ("/v1/" ++ p); Client.response_status := status;
       response_data := json |})).
Proof.
  intros Hr Hs. unfold attempt, ApiLogical.list_, ApiClient.request_list, st_bind.
  destruct (request_refused c "LIST" ("/v1/" ++ p) None (net s) status json Hr) as [n' ->]. simpl.
  rewrite (proj2 (Z.eqb_neq _ _) Hs). destruct json; eauto.
Qed.

Lemma attempt_unreachable (c : Client T) m p d s :
  unreachable → ∃ s', attempt (ApiClient.request c m p d) s = (s', Ok (inr UreqError)).
Proof. intros Hr. unfold attempt. destruct (request_unreachable c m p d (net s) Hr) as [n' ->]. eauto. Qed.

Lemma attempt_list_unreachable (c : Client T) p s :
  unreachable → ∃ s', attempt (ApiLogical.list_ c p) s = (s', Ok (inr UreqError)).
Proof.
  intros Hr. unfold attempt, ApiLogical.list_, ApiClient.request_list, st_bind.
  destruct (request_unreachable c "LIST" ("/v1/" ++ p) None (net s) Hr) as [n' ->]. eauto.
Qed.

(** Run a command up to the answer of the server. *)
Ltac run_to_map :=
  lazymatch goal with
  | |- context [st_bind (KvBuilder.to_map io_text ?l) _ ?s] =>
      let s1 := fresh "s" in let m := fresh "m" in let Hm := fresh "Hm" in
      destruct (to_map_total l ∅ s) as (s1 & m & Hm); change (KvBuilder.to_map_from io_text l ∅) with (KvBuilder.to_map (N := N) io_text l) in Hm;
      rewrite (st_bind_run _ _ _ _ _ Hm)
  | _ => idtac
  end.

Ltac run_client Ho :=
  rewrite (st_bind_run _ _ _ _ _ (client_plain _ _ Ho)); run_to_map.

Ltac run_attempt :=
  lazymatch goal with
  | H : refuses ?st ?j, Hs : ?st ≠ 200%Z |- context [st_bind (attempt (ApiLogical.list_ ?c ?p)) _ ?s] =>
      let s1 := fresh "s" in let Ha := fresh "Ha" in
      destruct (attempt_list_refused c p s st j H Hs) as [s1 Ha]; rewrite (st_bind_run _ _ _ _ _ Ha)
  | H : unreachable |- context [st_bind (attempt (ApiLogical.list_ ?c ?p)) _ ?s] =>
      let s1 := fresh "s" in let Ha := fresh "Ha" in
      destruct (attempt_list_unreachable c p s H) as [s1 Ha]; rewrite (st_bind_run _ _ _ _ _ Ha)
  | H : refuses ?st ?j |- context [st_bind (attempt ?m) _ ?s] =>
      let s1 := fresh "s" in let Ha := fresh "Ha" in
      edestruct (attempt_refused _ _ _ _ s st j H : ∃ s', attempt m s = (s', _)) as [s1 Ha]; rewrite (st_bind_run _ _ _ _ _ Ha)
  | H : unreachable |- context [st_bind (attempt ?m) _ ?s] =>
      let s1 := fresh "s" in let Ha := fresh "Ha" in
      edestruct (attempt_unreachable _ _ _ _ s H : ∃ s', attempt m s = (s', _)) as [s1 Ha]; rewrite (st_bind_run _ _ _ _ _ Ha)
  end.

Ltac run_debug :=
  lazymatch goal with
  | |- context [st_bind (Format.print_debug_info ?r) _ ?s] =>
      let s1 := fresh "s" in let Hd := fresh "Hd" in
      destruct (debug_info_ok r s) as [s1 Hd]; rewrite (st_bind_run _ _ _ _ _ Hd)
  end.

(** The key of an unsealing is given. *)
Ltac run_unseal_key :=
  lazymatch goal with
  | |- context [st_bind (st_ret ?k) _ ?s] => rewrite (st_bind_run (st_ret k) _ s s k) by reflexivity
  | _ => idtac
  end.

Ltac open_command c Hc :=
  destruct c; try done; cbn [self_contained] in Hc; cbv beta iota delta [
    Commands.status Commands.init Commands.seal Commands.unseal Commands.read Commands.write
    Commands.list_ Commands.delete Commands.auth_list Commands.auth_enable Commands.auth_disable
    Commands.auth_move Commands.policy_read Commands.policy_list Commands.policy_delete];
  [ |apply negb_true_iff in Hc; rewrite Hc| |apply bool_decide_eq_true in Hc as [? ->]|..].

(** When the server refuses a command, for want of a valid token say, with any
    status but 404, the command exits with the code of success, deletions
    excepted; when the server cannot be reached every command does. *)
Theorem failed_commands_exit_zero o c s :
  starts_with "https://" (ho_address o) = false → self_contained c = true →
  (∀ status json, refuses status json → status ∉ [200; 204; 404]%Z → snd (Cli.execute o c s) = refusal_code c) ∧
  (unreachable → snd (Cli.execute o c s) = 0%Z).
Proof.
  intros Ho Hc. split.
  - intros status json Hr Hs.
    assert (status ≠ 200 ∧ status ≠ 204 ∧ status ≠ 404)%Z as (H2 & H4 & H0).
    { split_and!; intros ->; apply Hs; set_solver. }
    apply Z.eqb_neq in H4 as E4. apply Z.eqb_neq in H2 as E2. apply Z.eqb_neq in H0 as E0.
    unfold Cli.execute, Cli.main. open_command c Hc.
    all: run_client Ho; cbv beta zeta; run_unseal_key; cbv beta zeta.
    all: run_attempt; cbv beta iota zeta.
    all: unfold Commands.show_value, Commands.ok_status; cbn [Client.response_status response_data].
    all: rewrite ?E2, ?E4, ?E0; cbn [orb]; try reflexivity; try destruct json as [?|].
    all: rewrite ?E2, ?E0; unfold Commands.debugged, Commands.exits; run_debug; reflexivity.
  - intros Hu. unfold Cli.execute, Cli.main. open_command c Hc.
    all: run_client Ho; cbv beta zeta; run_unseal_key; cbv beta zeta; run_attempt; reflexivity.
Qed.
(** The seal command reports success whatever the server answers, a refusal
    included. *)
Theorem seal_reports_success o s status json :
  starts_with "https://" (ho_address o) = false → refuses status json →
  ∃ s', Cli.execute o OperatorSeal s = (s', 0%Z) ∧
    written s' = (written s ++ [Println "Success! RustyVault is sealed."])%list.
Proof.
  intros Ho Hr. unfold Cli.execute, Cli.main, Commands.seal, ApiSys.seal, ApiClient.request_put. run_client Ho.
  unfold st_bind at 1, attempt. destruct (request_refused (plain_client o) "PUT" "/v1/sys/seal" None (net s) status json Hr) as [n' ->].
  by eexists.
Qed.

(** The status command takes [n] for the number of shares and [t] for the
    threshold, while the server gives them the other way round. *)
Theorem status_swaps_shares_and_threshold (r : SealStatusResponse) (config : SealConfig) :
  ss_t r = secret_shares config → ss_n r = secret_threshold config →
  ∃ sealed progress, Commands.status_value (seal_status_json r) =
    Ok (VObject [("sealed", sealed); ("total_shares", VInt (Z.of_nat (u8 (secret_threshold config))));
                 ("threshold", VInt (Z.of_nat (u8 (secret_shares config)))); ("progress", progress)]).
Proof.
  intros Ht Hn. exists (VBool (ss_sealed r)), (VInt (Z.of_nat (ss_progress r))).
  unfold Commands.status_value, seal_status_json. cbn [as_object list_to_map foldr].
  unfold map_index. by rewrite <- Ht, <- Hn.
Qed.

(** A login without a path posts to a path with two slashes in a row. *)
Theorem default_login_path_doubled (c : Client T) (method user pw : string) (data : gmap string Value) s :
  Commands.login_method method = method → trim method = method → method ≠ "" → ends_with_char slash method = false →
  pw ≠ "" → data !! "username" = Some (VStr user) → data !! "password" = Some (VStr pw) →
  Commands.userpass_auth c (<["mount" := VStr (Commands.login_path method "")]> data) s =
    over_net (ApiLogical.write c ("auth/" ++ method ++ "//login/" ++ user) (Some {["password" := VStr pw]})) s.
Proof.
  intros Hm Ht Hne Hs Hpw Hu Hp. unfold Commands.login_path. rewrite Hm. cbn [is_empty].
  unfold StringUtils.ensure_trailing_slash. rewrite Ht, (is_empty_false _ Hne), Hs.
  unfold Commands.userpass_auth, map_index. rewrite !lookup_insert_ne, Hu, Hp, lookup_insert_eq by done.
  unfold st_bind, st_lift. cbn [as_str default from_option]. unfold default. cbv beta iota zeta delta [id].
  rewrite (is_empty_false _ Hpw).
  assert (is_empty (method ++ "/") = false) as -> by (by destruct method).
  unfold st_ret. by rewrite <- app_assoc_str.
Qed.
End reports.

(** ** Paths of the system backend that HTTP does not serve *)
Section unserved.
Context `{HT : HeaderText} `{HO : OffsetTime} `{HH : Humantime} `{HX : HexCodec} `{HD : HexDecode}.
Context `{HB : FromSlice (gmap string Value)} `{HI : FromSlice InitRequest} `{HN : FromSlice UnsealRequest}.
Context `{HM : FromSlice MountRequest} `{HR : FromSlice RemountRequest} `{HP : FromSlice PolicyRequest}.
Context {S : Type} `{HC : !CoreApi S} {F : Type} `{HE : RegistryText F} `{HA : Actix} `{HAL : !ActixLaws}.
Context (manager : MetricsManager F).

(** Raw access, renewal and revocation of leases and the audit table lie below
    the scope of sys, which has no resource for them: no call reaches them. *)
Theorem sys_paths_without_route m k :
  plain_text k = true →
  let routed p := dispatch m ("/v1/sys/" ++ p) (init_service (S := S) manager) in
  routed ("raw/" ++ k) = None ∧ routed ("renew/" ++ k) = None ∧ routed ("revoke/" ++ k) = None ∧
  routed ("revoke-prefix/" ++ k) = None ∧ routed "audit" = None ∧ routed ("audit/" ++ k) = None.
Proof. intros Hk routed. unfold routed. split_and!; by rewrite dispatch_rules. Qed.
End unserved.

(** ** A server that refuses everything *)
Section witnesses.
#[local] Instance refusing : Agent unit nat := λ _ _ n, (n, Refused 403 None).
#[local] Instance plain_text : TextFormat := {|
  json_text := λ _, ""; json_pretty := λ _, None; yaml_text := λ _, None; pretty_table := λ _, "";
  debug_text := λ _, ""; debug_secret := λ _, ""; io_text := λ _, "" |}.
#[local] Instance no_source : SourceText := λ _, "".
#[local] Instance bare_tls : Rustls unit :=
  {| rustls_certs := λ _, None; rustls_private_key := λ _, None; rustls_config := λ _ _, None |}.
#[local] Instance no_secrets : FromValue Secret := λ _, None.
#[local] Instance no_mounts : FromValue MountOutput_ := λ _, None.

Definition http_options : HttpOptions :=
  {| ho_address := "http://vault"; ho_ca_cert := None; ho_client_cert := None; ho_client_key := None;
     ho_tls_skip_verify := false; ho_header := []; ho_token := "" |}.

Definition blank_console : Console nat :=
  {| net := 0%nat; file := λ _, None; stdin := Some "typed"; password := None; written := [] |}.

Lemma refusing_refuses : refuses (T := unit) (N := nat) 403 None.
Proof. intros t call n. by exists n. Qed.

Lemma failed_commands_exit_zero_witness :
  snd (Cli.execute http_options (Read Raw None "secret/a") blank_console) = 0%Z ∧
  snd (Cli.execute http_options (Delete "secret/a") blank_console) = 1%Z.
Proof.
  split.
  - apply (proj1 (failed_commands_exit_zero http_options (Read Raw None "secret/a") blank_console eq_refl eq_refl) 403%Z None).
    + exact refusing_refuses.
    + set_solver.
  - apply (proj1 (failed_commands_exit_zero http_options (Delete "secret/a") blank_console eq_refl eq_refl) 403%Z None).
    + exact refusing_refuses.
    + set_solver.
Defined.

Lemma seal_reports_success_witness :
  ∃ s', Cli.execute http_options OperatorSeal blank_console = (s', 0%Z) ∧
    written s' = [Println "Success! RustyVault is sealed."].
Proof. exact (seal_reports_success http_options blank_console 403 None eq_refl refusing_refuses). Defined.

Lemma status_swaps_shares_and_threshold_witness :
  ∃ sealed progress, Commands.status_value (seal_status_json
      {| ss_sealed := true; ss_t := x05; ss_n := x03; ss_progress := 0 |}) =
    Ok (VObject [("sealed", sealed); ("total_shares", VInt 3); ("threshold", VInt 5); ("progress", progress)]).
Proof.
  exact (status_swaps_shares_and_threshold {| ss_sealed := true; ss_t := x05; ss_n := x03; ss_progress := 0 |}
           {| secret_shares := x05; secret_threshold := x03 |} eq_refl eq_refl).
Defined.

Lemma key_value_roundtrip_witness :
  KvBuilder.to_map (λ _, "") ["ttl=600"; "password=a=b"] blank_console =
    (blank_console, Ok (VStr <$> (list_to_map [("ttl", "600"); ("password", "a=b")] : gmap string string))).
Proof.
  apply (key_value_roundtrip (λ _, "") [("ttl", "600"); ("password", "a=b")] blank_console).
  - repeat constructor.
  - apply (bool_decide_eq_true_1 _). reflexivity.
Defined.

Lemma hyphen_value_reads_stdin_witness :
  KvBuilder.to_map (λ _, "") ["ttl=-1"] blank_console = (set_stdin (Some "") blank_console, Ok {["ttl" := VStr "typed"]}).
Proof.
  apply (hyphen_value_reads_stdin (λ _, "") "ttl" "1" "typed" blank_console); reflexivity.
Defined.

Lemma default_login_path_doubled_witness :
  let data := {["username" := VStr "bob"; "password" := VStr "pw"]} : gmap string Value in
  Commands.userpass_auth (ApiClient.new (T := unit)) (<["mount" := VStr (Commands.login_path "userpass" "")]> data) blank_console =
    over_net (ApiLogical.write ApiClient.new "auth/userpass//login/bob" (Some {["password" := VStr "pw"]})) blank_console.
Proof.
  apply (default_login_path_doubled ApiClient.new "userpass" "bob" "pw"); try reflexivity; discriminate.
Defined.
#[local] Instance idle_core : CoreApi unit := {|
  core_inited := st_ret true; core_init := λ _, st_fail ErrBarrierAlreadyInit; core_unseal := λ _, st_ret true;
  core_seal := st_ret tt; core_seal_config := st_fail ErrBarrierNotInit; core_is_sealed := λ _, false;
  core_progress := λ _, 0%nat; core_handle_request := st_ret None |}.
#[local] Instance texts_header : HeaderText := λ _, None.
#[local] Instance no_offset : OffsetTime := λ _ _, None.
#[local] Instance no_durations' : Humantime := λ _, None.
#[local] Instance no_hex : HexCodec := λ _, "".
#[local] Instance no_hex_decode : HexDecode := λ _, None.
#[local] Instance nothing_read {A} : FromSlice A := λ _, None.

#[local] Instance no_registry : RegistryText unit := λ _, None.
#[local] Existing Instance recorder.
#[local] Existing Instance rules_actix.
#[local] Existing Instance rules_actix_laws.

Lemma client_calls_routed_witness :
  served_by idle_manager (ApiClient.new (T := unit)) (ApiLogical.read (ApiClient.new (T := unit)) "secret/a")
    (logical_route (S := unit)) "secret/a" ∧
  served_by idle_manager (ApiClient.new (T := unit)) (ApiSys.read_policy (ApiClient.new (T := unit)) "dev.team")
    (to_path (S := unit) sys_read_policies_request_handler) "dev.team".
Proof.
  destruct (client_calls_routed (S := unit) idle_manager (ApiClient.new (T := unit)))
    as (_ & _ & _ & _ & _ & _ & _ & _ & _ & Hr & _ & _ & Hl).
  split.
  - apply (Hl "secret/a" None).
    + apply (bool_decide_eq_true_1 _). reflexivity.
    + split; [discriminate|reflexivity].
  - apply (Hr "dev.team"). apply (bool_decide_eq_true_1 _). reflexivity.
Defined.
End witnesses.
