(* ===== verification/ClientProps.v ===== *)
(** * Unsealing by commands

    The unseal command composed with the API client, the routes of the HTTP
    server and the life cycle of the core: what an operator types opens the
    vault. *)

From stdpp Require Import base tactics list gmap strings pretty.
From Stdlib Require Import ZArith Lia Ascii.
From S2P Require Import Prelude Errors Shamir ShamirCorrect RustStr Utils Lease Storage BarrierCorrect FileBackend Logical Router Mount MountCorrect AuthMount VaultCore VaultCorrect ServerConfig Http Metrics Routes HttpCorrect HttpProps Client Cli ClientCorrect.

Import Http HttpSys HttpService Terminal.
Local Open Scope string_scope.

(** ** The network between them *)
Section network.
Context `{HHT : HeaderText} `{HO : OffsetTime} `{HHu : Humantime} `{HX : HexCodec} `{HD : HexDecode}.
Context `{HFB : FromSlice (gmap string Value)} `{HFI : FromSlice InitRequest} `{HFN : FromSlice UnsealRequest}.
Context `{HFM : FromSlice MountRequest} `{HFR : FromSlice RemountRequest} `{HFP : FromSlice PolicyRequest}.
Context {S : Type} `{HC : !CoreApi S} `{HSrc : SourceText} {F : Type} `{HRT : RegistryText F}.
Context `{HAc : Actix} `{HAL : !ActixLaws} (manager : MetricsManager F).
Context {T : Type} `{HA : Agent T (Server S)}.

(** How ureq presents what the server returns. *)
Definition answer_of (r : result HttpResponse) : Answer :=
  match answer r with
  | Ok resp => if (http_status resp <? 400)%Z then Answered (http_status resp) (http_body resp)
               else Refused (http_status resp) (http_body resp)
  | _ => NoAnswer
  end.

(** The agent of the client carries a call to the handler the server dispatches
    its method and path below the address to, with a body that reads as intended,
    and brings the answer back. *)
Definition delivers (cl : Client T) (call : HttpCall) (reads : bytes → Prop) : Prop :=
  ∀ m path h captured, method_name m = hc_method call → hc_url call = client_address cl ++ path → url_text path →
    dispatch m path (init_service manager) = Some (h, captured) →
    ∃ req body now, reads body ∧
      let c := {| call_req := req; call_method := m; call_path := captured; call_body := body; call_now := now |} in
      ∀ s, agent_call (client_tls cl) call s = (fst (h c s), answer_of (snd (h c s))).

Definition reads_key (text : string) (body : bytes) : Prop := from_slice body = Some {| unseal_key := text |}.

Definition unseal_call (c : Client T) (text : string) : HttpCall :=
  ApiClient.call_of c "PUT" "/v1/sys/unseal" (Some {["key" := VStr text]}).

(** The call brings the key to the handler. *)
Definition brings (c : Client T) (text : string) (call : HttpRequest * bytes) : Prop :=
  ∀ s, agent_call (client_tls c) (unseal_call c text) s =
    (fst (sys_unseal_request_handler (fst call) (snd call) s),
     answer_of (snd (sys_unseal_request_handler (fst call) (snd call) s))).

Lemma unseal_delivered (c : Client T) text :
  delivers c (unseal_call c text) (reads_key text) → ∃ call, reads_key text (snd call) ∧ brings c text call.
Proof.
  intros Hd. destruct (Hd PUT "/v1/sys/unseal" (to_body sys_unseal_request_handler) "") as (req & body & now & Hr & Ha).
  - done.
  - done.
  - apply (bool_decide_eq_true_1 _). reflexivity.
  - by rewrite dispatch_rules.
  - by exists (req, body).
Qed.

End network.

Section commands.
Context {B : Type} `{HB : Backend B} `{HBS : !BackendSpec B} `{HG : AesGcm} `{HGL : !AesGcmLaws}
        `{HR : Rng} `{HS : Serde BarrierInit} `{HSL : !SerdeLaws BarrierInit} `{HSha : Sha256}.
Context {TR : Type -> Type} `{HT : RadixTrie TR} {W : Type}.
Context `{HH : HmacSha256} `{HX : HexCodec} `{HU : UuidGen} `{HSM : Serde (gmap string MountEntry)}.
Context `{HSC : Serde SealConfig} `{HSCL : !SerdeLaws SealConfig} `{HP : Profile} `{HD : HexDecode}.
Context `{HHT : HeaderText} `{HO : OffsetTime} `{HHu : Humantime}.
Context `{HFB : FromSlice (gmap string Value)} `{HFI : FromSlice InitRequest} `{HFN : FromSlice UnsealRequest}.
Context `{HFM : FromSlice MountRequest} `{HFR : FromSlice RemountRequest} `{HFP : FromSlice PolicyRequest}.
Context `{HTF : TextFormat} `{HSrc : SourceText} {T : Type} `{HRu : Rustls T} {F : Type} `{HRT : RegistryText F}.
Context `{HAc : Actix} `{HAL : !ActixLaws} (manager : MetricsManager F).
Context `{HF : FromValue Secret} `{HMo : FromValue MountOutput_}.
Abbreviation core := (Core B TR W).
Context (modules : list (VaultModule core)) (token : option (st core RvError string)).
Context (handle : st (core * Request) RvError (option Response)).
Context `{HA : Agent T (Server core)}.
#[local] Instance core_api : CoreApi core := core_ops modules token handle.

(** Commands one after the other, with their exit codes. *)
Fixpoint run_commands (o : HttpOptions) (cs : list Command) (s : Console (Server core))
  : Console (Server core) * list Z :=
  match cs with
  | [] => (s, [])
  | c :: cs =>
      let '(s, code) := Cli.execute o c s in
      let '(s, codes) := run_commands o cs s in (s, code :: codes)
  end.

(** A good answer as the format prints it. *)
Definition printed (f : Format_) (v : Value) : option Out :=
  match f with
  | Json => Println <$> json_pretty v
  | Yaml | Yml => Print <$> yaml_text v
  | Raw => Some (Println (json_text v))
  | Table => Print <$> Format.table_text (Format.convert_keys v)
  end.

Definition shown (f : Format_) (r : result HttpResponse) : list Out :=
  match r with
  | Ok resp => option_list (v ← http_body resp; printed f v)
  | _ => []
  end.

(** Objects have a text in the format; those of [serde_json] and of the table do. *)
Definition prints (f : Format_) : Prop :=
  match f with
  | Json => ∀ l, is_Some (json_pretty (VObject l))
  | Yaml | Yml => ∀ l, is_Some (yaml_text (VObject l))
  | Raw | Table => True
  end.

Definition good (r : result HttpResponse) : Prop := ∃ l, r = Ok (response_json_ok None (VObject l)).

Definition unseal_command (f : Format_) (text : string) : Command := OperatorUnseal f (Some text).

Lemma object_printed f l : prints f → is_Some (printed f (VObject l)).
Proof. destruct f; simpl; intros Hp; rewrite ?fmap_is_Some; eauto. Qed.

Lemma print_value_run f v x (s : Console (Server core)) :
  printed f v = Some x → Format.print_value f v true s = (set_written (written s ++ [x])%list s, Ok tt).
Proof.
  unfold Format.print_value, Format.output. intros H. destruct f; simpl in H |- *; try (apply fmap_Some in H as (b & Hb & ->));
    try (rewrite (st_bind_run _ _ s s b); [done|unfold st_lift; by rewrite Hb]).
  by injection H as <-.
Qed.

(** The client depends on the files alone. *)
Lemma client_files o (cl : Client T) (s s' : Console (Server core)) :
  Commands.client o s = (s, Ok cl) → file s' = file s → Commands.client o s' = (s', Ok cl).
Proof.
  unfold Commands.client, st_bind, st_get, st_lift. intros H Hf. destruct (starts_with _ _); [|by injection H as <-].
  rewrite Hf. destruct (match ho_ca_cert o with Some _ => _ | None => _ end); [|done..].
  destruct (match ho_client_cert o with Some _ => _ | None => _ end); [|done..].
  destruct (TlsBuilder.build _); [|done..]. by injection H as <-.
Qed.

Lemma unseal_command_run o f (cl : Client T) text call (s : Console (Server core)) c r :
  Commands.client o s = (s, Ok cl) → prints f → brings cl text call →
  sys_unseal_request_handler (fst call) (snd call) (net s) = (c, r) → good r →
  Cli.execute o (unseal_command f text) s =
    (set_written (written s ++ shown f r)%list (set_net c s), 0%Z).
Proof.
  intros Ho Hf Ha Hh [l ->]. unfold Cli.execute, Cli.main, unseal_command, Commands.unseal.
  rewrite (st_bind_run _ _ _ _ _ Ho), (st_bind_run (st_ret text) _ s s text) by done.
  unfold st_bind at 1, attempt, ApiSys.unseal, ApiClient.request_put, ApiClient.request.
  fold (unseal_call (T := T) cl text). rewrite Ha, Hh.
  destruct (object_printed f l Hf) as [x Hx].
  unfold Commands.show_value, Commands.data_of, Commands.done_with. cbn.
  unfold st_bind, st_lift, st_ret. rewrite (print_value_run f _ x _ Hx). by rewrite Hx.
Qed.

(** The commands do what the calls of their keys do on the server. *)
Lemma unseal_commands_run o f (cl : Client T) texts : ∀ calls (s : Console (Server core)) c answers,
  Commands.client o s = (s, Ok cl) → prints f → Forall2 (λ call text, brings cl text call) calls texts →
  post_unseals modules token handle calls (net s) = (c, answers) → Forall good answers →
  run_commands o (map (unseal_command f) texts) s =
    (set_written (written s ++ (answers ≫= shown f))%list (set_net c s), replicate (length texts) 0%Z).
Proof.
  induction texts as [|text texts IH]; intros calls s c answers Ho Hf HFa Hp Hg.
  - apply Forall2_nil_inv_r in HFa as ->. injection Hp as <- <-. simpl. rewrite app_nil_r. by destruct s.
  - apply Forall2_cons_inv_r in HFa as ([q b] & calls' & Hc & HFa & ->). simpl in Hp.
    destruct (sys_unseal_request_handler q b (net s)) as [c1 r] eqn:Hh.
    destruct (post_unseals modules token handle calls' c1) as [c2 rs] eqn:Hps. injection Hp as <- <-.
    apply Forall_cons in Hg as [Hr Hrs]. cbn [map run_commands].
    rewrite (unseal_command_run o f cl text (q, b) s c1 r Ho Hf Hc Hh Hr).
    rewrite (IH calls' _ c2 rs); [|by eapply client_files|done..]. simpl. by rewrite <- (assoc_L (++)).
Qed.

Lemma status_answer_good config sealed n : good (status_answer config sealed n).
Proof. by eexists. Qed.

Lemma status_answers_good config n :
  Forall good (map (status_answer config true) (seq 1 n) ++ [status_answer config false 0])%list.
Proof.
  apply Forall_app. split; [|by apply Forall_singleton, status_answer_good].
  apply Forall_forall. intros r (k & <- & _)%list_elem_of_In%in_map_iff. apply status_answer_good.
Qed.

(** C6: an operator who runs the unseal command with the hexadecimal text of any
    threshold of the shares, one after the other and in any order, with options
    from which the client can be made, over a network that delivers its calls to
    the routes of the server, opens the vault, provided the mounts can be loaded
    and the modules set up once it is open: every command exits with success, and
    prints the state the server reports in the format asked for, which has a text
    for every object (the table, the default, and raw always do). *)
Theorem cli_unseal (o : HttpOptions) (f : Format_) (cl : Client T) (s : Console (Server core)) (c c' : core)
    (master enc : bytes) (config : SealConfig) (shares keys : list bytes) (texts : list string) (n : nat) :
  Commands.client o s = (s, Ok cl) → prints f →
  (∀ text, text ∈ texts → delivers manager cl (unseal_call cl text) (reads_key text)) →
  net s = Build_Server c false →
  sealed_with c master config enc → core_sealed c = true → length master = 32%nat →
  (2 ≤ u8 (secret_threshold config))%nat → secret_shares config ≠ xff →
  ShamirSecret.split (H0 := later_rng n HR) master (secret_shares config) (secret_threshold config) = Ok shares →
  NoDup keys → (∀ k, k ∈ keys → k ∈ shares) → length keys = u8 (secret_threshold config) →
  Forall2 (λ text k, hex_decode text = Some k) texts keys →
  CoreOps.post_unseal modules (opened c enc) = (c', Ok tt) →
  CoreOps.seal_config c' = (c', Ok config) → unseal_key_shares c' = [] →
  run_commands o (map (unseal_command f) texts) s =
    (set_written (written s ++ ((map (status_answer config true) (seq 1 (u8 (secret_threshold config) - 1))
                                 ++ [status_answer config false 0]) ≫= shown f))%list
       (set_net (Build_Server (set_core_sealed false c') false) s),
     replicate (length texts) 0%Z).
Proof.
  intros Ho Hf Hdel Hnet Hsw Hcs Hm Ht Hff Hsplit Hnd Hsub Hlen HFa Hpost Hcfg Hks.
  assert (∃ calls, Forall2 (λ call text, reads_key text (snd call) ∧ brings cl text call) calls texts) as [calls Hcalls].
  { clear HFa. induction texts as [|text texts IH]; [by exists []|].
    destruct IH as [calls Hcalls]; [intros t' Ht'; apply Hdel; by apply elem_of_cons; right|].
    destruct (unseal_delivered manager cl text (Hdel text (list_elem_of_here _ _))) as (call & Hq & Ha).
    exists (call :: calls). by constructor. }
  assert (Forall2 carries calls keys) as Hcarry.
  { revert calls Hcalls. clear -HFa. induction HFa as [|text k texts keys Hk _ IH]; intros calls Hc.
    - by apply Forall2_nil_inv_r in Hc as ->.
    - apply Forall2_cons_inv_r in Hc as ([q b] & calls' & [Hr _] & Hc & ->). constructor; [by exists text|auto]. }
  eapply (unseal_commands_run o f cl); [done|done| | |apply status_answers_good].
  - eapply Forall2_impl; [exact Hcalls|]. by intros call text [_ Ha].
  - rewrite Hnet. by apply (http_unseal modules token handle c c' master enc config shares keys calls n).
Qed.

End commands.

(** ** Two of three shares *)
Section witness.
#[local] Existing Instance text_hex.
#[local] Existing Instance text_body.
#[local] Instance any_header : HeaderText := fun b => Some (String.string_of_list_byte b).
#[local] Instance no_time : OffsetTime := fun _ _ => None.
#[local] Instance any_source : SourceText := fun _ => "".
#[local] Instance no_humantime : Humantime := fun _ => None.
#[local] Instance no_body : FromSlice (gmap string Value) := fun _ => None.
#[local] Instance no_init : FromSlice InitRequest := fun _ => None.
#[local] Instance no_mount : FromSlice MountRequest := fun _ => None.
#[local] Instance no_remount : FromSlice RemountRequest := fun _ => None.
#[local] Instance no_policy : FromSlice PolicyRequest := fun _ => None.
#[local] Instance no_secret : FromValue Secret := fun _ => None.
#[local] Instance no_output : FromValue MountOutput_ := fun _ => None.
#[local] Instance bare_text : TextFormat := {|
  json_text := fun v => match as_str v with Some s => s | None => "json" end;
  json_pretty := fun _ => None; yaml_text := fun _ => None; pretty_table := fun _ => "";
  debug_text := fun _ => ""; debug_secret := fun _ => ""; io_text := fun _ => "" |}.
#[local] Instance no_tls : Rustls unit := {|
  rustls_certs := fun _ => None; rustls_private_key := fun _ => None; rustls_config := fun _ _ => None |}.

#[local] Instance blank_registry : RegistryText unit := fun _ => None.
#[local] Existing Instance rules_actix.
#[local] Existing Instance rules_actix_laws.

Abbreviation vault := (Core MemBackend.t (gmap string) nat).

Definition demo_core_ops : CoreApi vault :=
  core_ops (HG := toy_gcm) (HR := demo_rng) (HS := demo_serde) (HSha := fun l => l) (HH := demo_hmac)
    (HX := demo_hex) (HU := demo_uuid) (HSM := demo_table_serde) (HSC := demo_config_serde) (HP := true)
    [] None (st_ret None).

Definition serve_key (text : string) : st (Server vault) RvError HttpResponse :=
  sys_unseal_request_handler (HC := demo_core_ops) (call_req (call_with None)) (String.list_byte_of_string text).

(** A network that knows the calls with a key. *)
#[local] Instance key_network : Agent unit (Server vault) := fun _ call s =>
  match hc_json call with
  | Some m =>
      match m !! "key" with
      | Some (VStr text) => let '(s, r) := serve_key text s in (s, answer_of r)
      | _ => (s, NoAnswer)
      end
  | None => (s, NoAnswer)
  end.

Definition demo_options : HttpOptions :=
  {| ho_address := "http://vault"; ho_ca_cert := None; ho_client_cert := None; ho_client_key := None;
     ho_tls_skip_verify := false; ho_header := []; ho_token := "" |}.

Definition demo_console : Console (Server vault) :=
  {| net := Build_Server full_vault false; file := fun _ => None; stdin := None; password := None; written := [] |}.

Definition demo_texts : list string :=
  map String.string_of_list_byte [nth 2 demo_shares []; nth 0 demo_shares []].

Lemma key_network_delivers text :
  delivers (T := unit) (HC := demo_core_ops) (HX := demo_hex) idle_manager (plain_client demo_options)
    (unseal_call (T := unit) (plain_client demo_options) text) (reads_key text).
Proof.
  intros m path h captured Hm Hu _ Hr. change (hc_url _) with ("http://vault" ++ "/v1/sys/unseal") in Hu.
  change (client_address _) with "http://vault" in Hu.
  apply app_inj_l in Hu as <-. destruct m; try done.
  injection Hr as <- <-. exists (call_req (call_with None)), (String.list_byte_of_string text), 0%Z.
  split; [unfold reads_key, from_slice, text_body; by rewrite String.string_of_list_byte_of_string|].
  intros c s. unfold agent_call, key_network. cbn [hc_json unseal_call ApiClient.call_of].
  rewrite lookup_singleton_eq. unfold serve_key, to_body. simpl.
  by destruct (sys_unseal_request_handler _ _ s).
Qed.

Lemma cli_unseal_witness :
  snd (run_commands demo_options (map (unseal_command Table) demo_texts) demo_console) = [0%Z; 0%Z].
Proof.
  rewrite (cli_unseal (HBS := MemBackend.backend_spec) (HG := toy_gcm) (HGL := toy_gcm_laws) (HR := demo_rng)
    (HS := demo_serde) (HSL := countable_serde_laws BarrierInit) (HSCL := countable_serde_laws SealConfig)
    (HSha := fun l => l) (HH := demo_hmac) (HX := demo_hex) (HU := demo_uuid) (HSM := demo_table_serde)
    (HSC := demo_config_serde) (HP := true) idle_manager [] None (st_ret None) demo_options Table
    (plain_client demo_options) demo_console full_vault opened_vault
    demo_master (replicate 32 x00) demo_seal_config demo_shares [nth 2 demo_shares []; nth 0 demo_shares []]
    demo_texts 3).
  - reflexivity.
  - reflexivity.
  - exact I.
  - intros text _. exact (key_network_delivers text).
  - reflexivity.
  - exact full_sealed_with.
  - reflexivity.
  - reflexivity.
  - vm_compute. lia.
  - discriminate.
  - by vm_compute.
  - apply (bool_decide_eq_true_1 _). by vm_compute.
  - apply Forall_forall. apply (bool_decide_eq_true_1 _). by vm_compute.
  - reflexivity.
  - unfold demo_texts. simpl map. repeat constructor; unfold hex_decode, text_hex;
      by rewrite String.list_byte_of_string_of_list_byte.
  - unfold opened_vault. apply pair_of_snd. by vm_compute.
  - unfold CoreOps.seal_config. apply (f_equal (pair opened_vault)). by vm_compute.
  - by vm_compute.
Defined.
End witness.
